(* ===== verification/_CoqProject ===== *)
-Q . S2P
Prelude.v
KconfigExpr.v
KconfigExprSem.v
KconfigDups.v
KconfigExprSpec.v
Effects.v
Qsort.v
Word32.v
Crc.v
Ctype.v
Div64.v
Strtoul.v
Vsprintf.v
VsprintfSpec.v
VsprintfBuf.v
KconfigSymtab.v
KconfigConf.v
KconfigConfSpec.v
KconfigSym.v
KconfigSymTerm.v
KconfigSymType.v
KconfigSymSpec.v
KconfigDeps.v
KconfigDepsSpec.v
KconfigSymSet.v
KconfigMenu.v
KconfigWrite.v
KconfigWriteSpec.v
KconfigLoad.v
KconfigSteady.v
KconfigLoadSpec.v
KconfigExample.v
HashProbe.v
Hashtable.v
HashRefine.v
HashSpec.v
CString.v
CStringSpec.v
HashExport.v
HashImport.v
EnvCommon.v
EnvSpec.v
EnvRedund.v
EnvRedundSpec.v
EnvAttr.v
EnvAttrSpec.v
EnvFlags.v
EnvFlagsSpec.v
Lmb.v
LmbSpec.v
BlockHash.v
Aes.v
AesSpec.v
Sha256.v
Sha1.v
Md5.v
Montgomery.v
RsaVerify.v
RsaVerifySpec.v
ImageSig.v
ImageSigSpec.v
Circbuf.v
NetMem.v
Defrag.v
DefragSpec.v
NetPacket.v
Rand.v
Arp.v
LinkLocal.v
