(* ===== verification/Prelude.v ===== *)
(** * A verification library for the C code of this Buildroot tree

    The tree is Buildroot 2014.05 with a board support package. Two programs in
    it have logic of their own: the configuration system [support/kconfig],
    which reads option descriptions and a [.config] file, calculates the value
    of every option and writes the file back, and the U-Boot boot loader under
    [sunmi/x2600/u-boot], whose library keeps the environment in a hash table,
    its memory in a table of blocks, checks images with digests and signatures,
    and reassembles packets from the network. The rest (package recipes, drivers,
    vendored libraries) is listed under "Not modelled".

    ** The parts and how they interact

    Kconfig, from the bottom up:
    - [KconfigExpr]: [expr.c], the expressions over tristate symbols: allocation,
      simplification, normal forms, comparison. [KconfigExprSem], [KconfigDups]
      and [KconfigExprSpec]: the value of an expression under a valuation of the
      symbols, and what each function does to it.
    - [Effects]: the monad of functions that work on a shared structure through
      pointers: a computation returns, faults where C would follow a null
      pointer, or lacks fuel; with the triple [spec].
    - [KconfigSymtab]: [struct symbol], [struct property] (expr.h), the hash
      table of symbols ([sym_lookup], [sym_find] of symbol.c), the flags, valid
      texts and their quoting. A symbol pointer is a [symp], the store a finite
      map; the list of properties of a symbol is a Coq list, since nothing else
      points into it.
    - [KconfigConf]: [confdata.c], one line of a configuration file at a time:
      [conf_read_simple] with [conf_set_sym_val], and the three printers. It
      uses [KconfigSymtab] for names, types and quoting. [KconfigConfSpec]: the
      invariant of the table and the round trip.
    - [KconfigSym]: symbol.c from [sym_get_type] to [sym_expand_string_value],
      the calculation of values. It and [expr_calc_value] call each other; the
      model closes the cycle with fuel in [sym_calc_value] and gives the other
      functions the recursive call as an argument. [KconfigSymTerm] shows how
      much fuel is enough for every table, [KconfigSymType] that values keep the
      type of their symbol; [KconfigSymSpec] states the equations of the values
      and that the calculation solves them, where they do not refer back
      ([rank]): references are those of a default, a range, a condition or a
      select, counted at the symbol that is selected; [KconfigSymSet] is about
      ranges and the functions that set a value.
    - [KconfigDeps]: [sym_check_deps], the search for recursive dependencies;
      [KconfigDepsSpec] relates it to cycles of the reference graph.
    - [KconfigMenu]: [menu.c], the tree of menu entries and what is shown of it.
    - [KconfigWrite]: [conf_write] and [conf_write_defconfig], the walk over the
      linked entries with the text that it writes. [KconfigWriteSpec]: the walk
      visits the entries in the order of the tree and writes every symbol that
      the equations call for once.
    - [KconfigLoad]: [conf_read] from the open file on. [KconfigSteady]: what a
      calculation leaves alone. [KconfigLoadSpec]: the saved values solve the
      equations again, so that loading finds nothing unsaved.
    - [KconfigExample]: a small configuration to which these theorems apply.
    U-Boot:
    - [Hashtable], [HashProbe]: [lib/hashtable.c], the open-addressing table of
      the environment; [HashExport]: its text form ([hexport_r], [himport_r]).
      [HashRefine], [HashSpec], [HashImport] relate them to a finite map. The
      hooks of a variable (callbacks, access flags) are the class [EnvHooks].
    - [Qsort]: [lib/qsort.c], used by the export.
    - [CString], [CStringSpec]: [lib/string.c] over a byte memory.
    - [Lmb], [LmbSpec]: [lib/lmb.c], the memory blocks and their allocator.
    - [Word32], [BlockHash], [Sha256], [Sha1], [Md5]: the digests of [lib/].
    - [Crc], [Ctype], [Div64], [Strtoul]: the checksums, character classes,
      64-bit division and number reading of [lib/]; [Vsprintf]: [lib/vsprintf.c],
      with the buffer as an interface [Sink]. [VsprintfSpec] says what each
      conversion prints, [VsprintfBuf] that the text is all that is written.
    - [EnvCommon], [EnvSpec]: [common/env_common.c], [cmd_nvedit.c] over the hash
      table, with [EnvAttr], [EnvAttrSpec] ([env_attr.c], lists of attributes) and
      [EnvFlags], [EnvFlagsSpec] ([env_flags.c], [env_callback.c], which are the
      instance of [EnvHooks]), with the section [Live], in which the
      callbacks for .flags and .callbacks change the table. [EnvRedund], [EnvRedundSpec]: the two copies of
      the environment in flash of [env_sfcnand.c], with a power cut at any point.
    - [Aes], [AesSpec]: [lib/aes.c] against FIPS 197.
    - [Montgomery], [RsaVerify], [RsaVerifySpec]: [lib/rsa/rsa-verify.c]. The
      device tree is the class [Fdt], whose laws are what libfdt documents.
      [ImageSig], [ImageSigSpec]: [common/image-sig.c] on top of it, with the
      nodes of an image as the class [FdtNodes].
    - [Circbuf]: [lib/circbuf.c] against a queue.
    - [NetMem]: the bytes of a packet. [Defrag], [DefragSpec]: [NetDefragment] of
      [net/net.c], with the list of holes inside of the buffer. [NetPacket]: the
      checksum, the headers and the echo packets of [net/net.c], [net/ping.c].
    - [Arp]: [net/arp.c], requests, timeouts and answers. [Rand], [LinkLocal]:
      [lib/rand.c] and [net/link_local.c], the state machine that picks, probes
      and announces an address, with the timer of the main loop.
    ** What the theorems show

    - Values of symbols: [sym_calc_value] terminates on every table, with a
      bound linear in its size, and leaves a boolean without m and a number or
      string without a tristate; on acyclic tables without choices, with selects,
      once the modules symbol has been calculated, it computes the solution of
      the equations between the symbols (visibility, direct and reverse
      dependencies, user values, defaults, ranges), numbers lie in ranges that
      are not empty, and setting a value stores it or changes nothing.
    - Configuration files: reading back a written file restores every value;
      for an acyclic table without choices and without a modules option,
      [conf_write] ends and writes every symbol that is to be written once, in
      the order of the menus; [conf_read] of the written file, in whatever state
      of the same symbols, restores the saved configuration and finds it
      unchanged. [conf_read] drops user values outside their range; the
      values that were saved are calculated ones, which it keeps.
    - The symbol table interns names; the dependency check finds exactly the
      cycles.
    - Expressions: every simplification keeps the value (or the exact condition
      under which it does), normal forms are normal forms, loops terminate.
    - The environment table refines a finite map, as long as a bucket was never
      used; without one, entering writes over another variable. Export and import
      are inverse and stay in their buffers; the probe sequence visits every
      bucket.
    - Library functions meet their contracts: sorting, copying for overlapping
      blocks, word-wise against byte-wise loops, memory blocks sorted and
      disjoint, allocation inside free memory for aligned sizes, digests equal to FIPS 180-2 and
      RFC 1321 for every way of splitting the input.
    - The boot loader's environment: setting a variable updates a finite map or
      reports an error; access rules are kept, and so are the types of the values
      but for a change of the flags themselves, which types existing values
      anew without a look at them; saving is
      safe against a power cut at any point, and the next boot loads what was
      saved. CRC-32 is the remainder by its polynomial and detects bursts.
    - Numbers: printing lays out sign, prefix, zeros and padding as C99 does,
      except for five cases that are listed ([c99_case], [c99_departures]),
      inside of the buffer; reading gives the number back.
    - Signatures: the exponentiation is the power modulo the modulus; a success
      of the verification means that the decrypted signature is the PKCS #1
      encoding of the digest under a key of the trusted tree, the search for a
      key ends, and an image that passes carries such a signature. Which key is
      not checked the way the callers mean it: two lemmas show the bypass. AES
      is FIPS 197, and decryption undoes encryption.
    - The circular buffer is a queue that forgets its oldest bytes.
    - Packets: fragments give the datagram in any order after the first one,
      with repetitions, and lemmas show what other sequences do to the buffer;
      checksums that are stored are good, echo replies are well formed when the
      length is even, questions for our address are answered and requests are
      given up after the fifth try. The link-local protocol ends with an address
      when nobody objects, and returns for every sequence of events.
    - Where the code does something else than it means to, a theorem with a
      concrete input shows it.

    ** Bounds and fuel

    Integers have their width: [Word32.u32] for unsigned arithmetic, [Z] with an
    explicit wrap or cut elsewhere; pointers of [vsnprintf] wrap around at 32
    bits, and its result is an [int]. Every function with fuel has a theorem that
    a bound computed from its arguments is enough: the size of the expressions
    (expr.c), three times the number of symbols ([sym_calc_value]), the number
    of symbols ([sym_check_deps]), the length of the text (readers), the size of
    the table (probe loops), the number of entries (memory blocks), the size of
    the device tree (walks over nodes: offsets increase), the size of the buffer
    (the list of holes of a datagram, which has a hole per 8 bytes at most), five
    for the numbers that [pick] draws, by a linear relation between the numbers.

    ** Not modelled

    - symbol.c: [sym_init] (uname), the regular-expression search, the list of
      environment symbols. confdata.c: the choice of the file name, the
      dependency files under include/config, the random configurations.
    - zconf.y, zconf.l: grammars for bison and flex. The front ends and lxdialog:
      terminal and window input and output. util.c: allocation and I/O.
    - U-Boot: vendored code (libfdt, zlib, lzo, hush, dlmalloc), drivers and board
      code. libfdt is the classes [Fdt] and [FdtNodes], with laws that say what
      its documentation says, and a sample instance that satisfies them. Of
      lib/, the red-black trees and the regular expressions; of net/, the main
      loop and the protocols over UDP; of common/, the shell, the
      commands and the formats of images other than their signatures.
    - The hooks of a variable return and give a verdict; they do not change the
      table. Those of the code that do, [on_flags] and [on_callbacks], are run by
      [env_hsearch_r] and [env_hdelete_r] of [EnvFlags] where the table runs
      them. The lookup of an empty name does not return in the code, so theorems
      about [setenv] have a name that is not empty.
    - The text of the warning about unmet dependencies, of which the symbols are
      kept.
    - Memory allocation succeeds; texts are values, so that [strdup] and [free]
      have no counterpart, except where a buffer is shared or overrun.

    ** Plan

    The order was: kconfig's expressions, symbols, configuration files and
    menus; the hash table and the environment on it; the digests and lib/; the
    signatures; the packets. What is left, in this order: the dispatch of
    [NetReceive] and the protocols over UDP (BOOTP, TFTP, NFS); lib/rbtree.c; lib/slre.c; the node formats of
    common/image-fit.c; the parser of option descriptions, whose grammar is
    generated.
*)

From stdpp Require Import base option list gmap strings.
From Stdlib Require Import ZArith Lia.

(** ** Tactics *)

(** Invert the monadic sequencing of a successful call. *)
Ltac bind_inv :=
  repeat match goal with
  | H : (?m ≫= ?f) = Some _ |- _ =>
      let x := fresh "x" in let Hx := fresh "Hx" in let H' := fresh "H" in
      apply bind_Some in H; destruct H as (x & Hx & H')
  | H : Some _ = Some _ |- _ => injection H as H; subst
  | H : (_, _) = (_, _) |- _ => injection H as H; subst
  | p : (_ * _)%type |- _ => destruct p
  | H : (let '(_, _) := ?p in _) = Some _ |- _ => destruct p
  | H : None = Some _ |- _ => discriminate H
  | H : True |- _ => clear H
  end.

(** Turn a decided comparison of numbers into a proposition. *)
Ltac cmp_inv E :=
  lazymatch type of E with
  | Nat.ltb _ _ = true => apply Nat.ltb_lt in E
  | Nat.ltb _ _ = false => apply Nat.ltb_ge in E
  | Nat.leb _ _ = true => apply Nat.leb_le in E
  | Nat.leb _ _ = false => apply Nat.leb_gt in E
  | Nat.eqb _ _ = true => apply Nat.eqb_eq in E
  | Nat.eqb _ _ = false => apply Nat.eqb_neq in E
  | Z.ltb _ _ = true => apply Z.ltb_lt in E
  | Z.ltb _ _ = false => apply Z.ltb_ge in E
  | Z.leb _ _ = true => apply Z.leb_le in E
  | Z.leb _ _ = false => apply Z.leb_gt in E
  | Z.eqb _ _ = true => apply Z.eqb_eq in E
  | Z.eqb _ _ = false => apply Z.eqb_neq in E
  | negb _ = true => apply negb_true_iff in E; cmp_inv E
  | negb _ = false => apply negb_false_iff in E; cmp_inv E
  end.

(** Case analysis on a decided comparison [b]. *)
Tactic Notation "cmp_case" constr(b) "as" ident(E) := destruct b eqn:E; cmp_inv E.

(** Goals about the lengths of lists. *)
Create HintDb len.
#[export] Hint Rewrite @length_app @length_take @length_drop @length_replicate @length_insert
  @length_fmap @length_seq @length_reverse : len.
Ltac len := autorewrite with len in *; cbn [length] in *; lia.

(** Goals that all elements of a list have a property. *)
Create HintDb elems.
#[export] Hint Resolve Forall_app_2 Forall_take Forall_drop Forall_reverse Forall_replicate
  Forall_nil_2 : elems.

(** ** Blocks

    Division of a length into blocks of a fixed size. *)

Lemma mod_block_add n k b : b ≠ 0 → n mod b + k = b → (n + k) mod b = 0.
Proof.
  intros Hb Hk. pose proof (Nat.div_mod_eq n b).
  replace (n + k) with ((n / b + 1) * b) by lia. apply Nat.Div0.mod_mul.
Qed.

Lemma mod_block_same n b : (n + b) mod b = n mod b.
Proof. replace (n + b) with (n + 1 * b) by lia. apply Nat.Div0.mod_add. Qed.

(** ** Totals

    The sum of a weight over the values of a map. *)

Section MapTotal.
Context `{Countable K} {A : Type} (w : A → nat).

Definition map_total (m : gmap K A) : nat := map_fold (λ _ s n, w s + n) 0 m.

Lemma map_total_insert m p s : m !! p = None → map_total (<[p := s]> m) = w s + map_total m.
Proof. intros Hp. apply (map_fold_insert_L (λ _ s n, w s + n)); [intros; lia|done]. Qed.

Lemma map_total_alter f m p s :
  m !! p = Some s → map_total (alter f p m) + w s = map_total m + w (f s).
Proof.
  intros Hp. rewrite <-(insert_delete_id m p s Hp) at 1 2. rewrite alter_insert_eq.
  rewrite !map_total_insert by apply lookup_delete_eq. lia.
Qed.

Lemma map_total_lookup m p s : m !! p = Some s → w s ≤ map_total m.
Proof.
  intros Hp. rewrite <-(insert_delete_id m p s Hp), map_total_insert by apply lookup_delete_eq. lia.
Qed.

Lemma map_total_size k m : (∀ s, w s ≤ k) → map_total m ≤ k * size m.
Proof.
  intros Hw. induction m as [|p s m Hp IH] using map_ind; [by unfold map_total; rewrite map_fold_empty; lia|].
  rewrite map_total_insert, map_size_insert_None by done. specialize (Hw s). lia.
Qed.

End MapTotal.
