(* ===== verification/KconfigExpr.v ===== *)
(** * Kconfig dependency expressions: data and operations

    Translation of [support/kconfig/expr.h] and [support/kconfig/expr.c]: the
    tristate values, the expression trees that Kconfig builds for
    [depends on], [select], [visible if] and [default ... if], and every
    function that allocates, compares, simplifies, rewrites or evaluates them.
    The theorems about them are in [KconfigExprSem] and [KconfigDups]. *)

From S2P Require Import Prelude.
From stdpp Require Import base option list strings countable.
From Stdlib Require Import ZArith Lia.

(** ** Data *)

(** [enum tristate]: the order of the constructors is the order of the C
    values 0, 1, 2. *)
Inductive tristate := tri_no | tri_mod | tri_yes.

#[export] Instance tristate_eq_dec : EqDecision tristate.
Proof. solve_decision. Defined.

Definition tri_val (t : tristate) : Z :=
  match t with tri_no => 0 | tri_mod => 1 | tri_yes => 2 end.

(** [enum symbol_type]. *)
Inductive symbol_type :=
  S_UNKNOWN | S_BOOLEAN | S_TRISTATE | S_INT | S_HEX | S_STRING | S_OTHER.

#[export] Instance symbol_type_eq_dec : EqDecision symbol_type.
Proof. solve_decision. Defined.

(** A [struct symbol *]: the four statically allocated symbols, or a symbol
    allocated by [sym_lookup]. Pointer comparison is equality. *)
Inductive symp :=
  | symbol_yes | symbol_mod | symbol_no | symbol_empty
  | sym_at (n : positive).

#[export] Instance symp_eq_dec : EqDecision symp.
Proof. solve_decision. Defined.

(** [enum expr_type]. *)
Inductive expr_type :=
  T_NONE | T_OR | T_AND | T_NOT | T_EQUAL | T_UNEQUAL | T_LIST | T_SYMBOL | T_RANGE.

#[export] Instance expr_type_eq_dec : EqDecision expr_type.
Proof. solve_decision. Defined.

(** [struct expr], one constructor per type that the parser allocates, with
    the members of the two unions that the type selects. A nullable
    [struct expr *] is an [option expr]. *)
Inductive expr :=
  | E_OR (l r : expr)
  | E_AND (l r : expr)
  | E_NOT (l : expr)
  | E_EQUAL (l r : symp)
  | E_UNEQUAL (l r : symp)
  | E_LIST (l : option expr) (r : symp)
  | E_SYMBOL (l : symp)
  | E_RANGE (l r : symp).

(** [e->type]. *)
Definition type_of (e : expr) : expr_type :=
  match e with
  | E_OR _ _ => T_OR | E_AND _ _ => T_AND | E_NOT _ => T_NOT
  | E_EQUAL _ _ => T_EQUAL | E_UNEQUAL _ _ => T_UNEQUAL
  | E_LIST _ _ => T_LIST | E_SYMBOL _ => T_SYMBOL | E_RANGE _ _ => T_RANGE
  end.

(** [e->left.expr] and [e->right.expr] when [e->type == type], for the two
    binary connectives. *)
Definition children (type : expr_type) (e : expr) : option (expr * expr) :=
  match type, e with
  | T_OR, E_OR l r => Some (l, r)
  | T_AND, E_AND l r => Some (l, r)
  | _, _ => None
  end.

(** [e->type == type]. *)
Definition has_children (type : expr_type) (e : expr) : bool :=
  match children type e with Some _ => true | None => false end.

(** The part of the symbol table that the expression code reads:
    [sym->type] and [sym->flags & SYMBOL_CONST]. *)
Class SymTab := {
  sym_type : symp → symbol_type;
  sym_const : symp → bool;
}.

(** ** Allocation *)

Definition expr_alloc_symbol (sym : symp) : expr := E_SYMBOL sym.

Definition expr_alloc_one (type : expr_type) (ce : expr) : option expr :=
  match type with T_NOT => Some (E_NOT ce) | _ => None end.

Definition expr_alloc_two (type : expr_type) (e1 e2 : expr) : option expr :=
  match type with
  | T_OR => Some (E_OR e1 e2)
  | T_AND => Some (E_AND e1 e2)
  | _ => None
  end.

Definition expr_alloc_comp (type : expr_type) (s1 s2 : symp) : option expr :=
  match type with
  | T_EQUAL => Some (E_EQUAL s1 s2)
  | T_UNEQUAL => Some (E_UNEQUAL s1 s2)
  | T_RANGE => Some (E_RANGE s1 s2)
  | _ => None
  end.

Definition expr_alloc_and (e1 e2 : option expr) : option expr :=
  match e1 with
  | None => e2
  | Some a => match e2 with Some b => expr_alloc_two T_AND a b | None => e1 end
  end.

Definition expr_alloc_or (e1 e2 : option expr) : option expr :=
  match e1 with
  | None => e2
  | Some a => match e2 with Some b => expr_alloc_two T_OR a b | None => e1 end
  end.

(** [expr_copy] on a non-null expression. Copying an [E_RANGE] prints an
    error and yields a null pointer; copying an [E_LIST] follows
    [right.expr], which holds a symbol. Both are [None] here: the result is
    then not an expression. *)
Fixpoint expr_copy (org : expr) : option expr :=
  match org with
  | E_SYMBOL s => Some (E_SYMBOL s)
  | E_NOT l => l' ← expr_copy l; Some (E_NOT l')
  | E_EQUAL l r => Some (E_EQUAL l r)
  | E_UNEQUAL l r => Some (E_UNEQUAL l r)
  | E_AND l r => l' ← expr_copy l; r' ← expr_copy r; Some (E_AND l' r')
  | E_OR l r => l' ← expr_copy l; r' ← expr_copy r; Some (E_OR l' r')
  | E_LIST _ _ | E_RANGE _ _ => None
  end.

(** ** Predicates on expressions *)

Definition expr_is_yes (e : option expr) : bool :=
  match e with
  | None => true
  | Some (E_SYMBOL s) => bool_decide (s = symbol_yes)
  | Some _ => false
  end.

Definition expr_is_no (e : option expr) : bool :=
  match e with
  | Some (E_SYMBOL s) => bool_decide (s = symbol_no)
  | _ => false
  end.

#[global] Arguments expr_is_yes : simpl never.
#[global] Arguments expr_is_no : simpl never.

Fixpoint expr_contains_symbol (dep : expr) (sym : symp) : bool :=
  match dep with
  | E_AND l r | E_OR l r => expr_contains_symbol l sym || expr_contains_symbol r sym
  | E_SYMBOL s => bool_decide (s = sym)
  | E_EQUAL l r | E_UNEQUAL l r => bool_decide (l = sym) || bool_decide (r = sym)
  | E_NOT l => expr_contains_symbol l sym
  | _ => false
  end.

Fixpoint expr_depends_symbol (dep : expr) (sym : symp) : bool :=
  match dep with
  | E_AND l r => expr_depends_symbol l sym || expr_depends_symbol r sym
  | E_SYMBOL s => bool_decide (s = sym)
  | E_EQUAL l r =>
      bool_decide (l = sym) &&
      (bool_decide (r = symbol_yes) || bool_decide (r = symbol_mod))
  | E_UNEQUAL l r => bool_decide (l = sym) && bool_decide (r = symbol_no)
  | _ => false
  end.

(** ** Constant folding of [y] and [n] *)

Fixpoint expr_eliminate_yn (e : expr) : expr :=
  match e with
  | E_AND l r =>
      let l := expr_eliminate_yn l in
      let r := expr_eliminate_yn r in
      if expr_is_no (Some l) then E_SYMBOL symbol_no
      else if expr_is_yes (Some l) then r
      else if expr_is_no (Some r) then E_SYMBOL symbol_no
      else if expr_is_yes (Some r) then l
      else E_AND l r
  | E_OR l r =>
      let l := expr_eliminate_yn l in
      let r := expr_eliminate_yn r in
      if expr_is_no (Some l) then r
      else if expr_is_yes (Some l) then E_SYMBOL symbol_yes
      else if expr_is_no (Some r) then l
      else if expr_is_yes (Some r) then E_SYMBOL symbol_yes
      else E_OR l r
  | _ => e
  end.

(** ** Comparison up to cancellation

    [expr_eq], [expr_eliminate_eq] and [__expr_eliminate_eq] call each other;
    the two eliminating functions work on two disjoint trees in place, so they
    return both trees. [tc] is the static counter [trans_count], which
    [expr_eq] saves and restores. *)

Fixpoint expr_eq (n : nat) (e1 e2 : expr) : option bool :=
  match n with
  | O => None
  | S n =>
    match e1, e2 with
    | E_EQUAL a b, E_EQUAL c d | E_UNEQUAL a b, E_UNEQUAL c d =>
        Some (bool_decide (a = c) && bool_decide (b = d))
    | E_SYMBOL a, E_SYMBOL b => Some (bool_decide (a = b))
    | E_NOT a, E_NOT b => expr_eq n a b
    | E_AND _ _, E_AND _ _ | E_OR _ _, E_OR _ _ =>
        c1 ← expr_copy e1;
        c2 ← expr_copy e2;
        '(_, r1, r2) ← expr_eliminate_eq n 0 (Some c1) (Some c2);
        Some (match r1, r2 with
              | Some (E_SYMBOL a), Some (E_SYMBOL b) => bool_decide (a = b)
              | _, _ => false
              end)
    | _, _ => Some false
    end
  end
with expr_eliminate_eq (n : nat) (tc : Z) (e1 e2 : option expr)
  : option (Z * option expr * option expr) :=
  match n with
  | O => None
  | S n =>
    match e1, e2 with
    | Some a, Some b =>
        '(tc, a, b) ←
          match type_of a with
          | T_OR | T_AND => __expr_eliminate_eq n (type_of a) tc a b
          | _ => Some (tc, a, b)
          end;
        '(tc, a, b) ←
          (if bool_decide (type_of a = type_of b) then Some (tc, a, b)
           else match type_of b with
                | T_OR | T_AND => __expr_eliminate_eq n (type_of b) tc a b
                | _ => Some (tc, a, b)
                end);
        Some (tc, Some (expr_eliminate_yn a), Some (expr_eliminate_yn b))
    | _, _ => Some (tc, e1, e2)
    end
  end
with __expr_eliminate_eq (n : nat) (type : expr_type) (tc : Z) (e1 e2 : expr)
  : option (Z * expr * expr) :=
  match n with
  | O => None
  | S n =>
    match children type e1 with
    | Some (l, r) =>
        '(tc, l, e2) ← __expr_eliminate_eq n type tc l e2;
        '(tc, r, e2) ← __expr_eliminate_eq n type tc r e2;
        e1 ← expr_alloc_two type l r;
        Some (tc, e1, e2)
    | None =>
      match children type e2 with
      | Some (l, r) =>
          '(tc, e1, l) ← __expr_eliminate_eq n type tc e1 l;
          '(tc, e1, r) ← __expr_eliminate_eq n type tc e1 r;
          e2 ← expr_alloc_two type l r;
          Some (tc, e1, e2)
      | None =>
          if match e1, e2 with
             | E_SYMBOL a, E_SYMBOL b =>
                 bool_decide (a = b) &&
                 (bool_decide (a = symbol_yes) || bool_decide (a = symbol_no))
             | _, _ => false
             end
          then Some (tc, e1, e2)
          else
            b ← expr_eq n e1 e2;
            if b : bool then
              match type with
              | T_OR => Some (tc + 1, expr_alloc_symbol symbol_no, expr_alloc_symbol symbol_no)%Z
              | T_AND => Some (tc + 1, expr_alloc_symbol symbol_yes, expr_alloc_symbol symbol_yes)%Z
              | _ => None
              end
            else Some (tc, e1, e2)
      end
    end
  end.

(** The state of duplicate elimination: [trans_count] and the tree. *)
Abbreviation dstate := (Z * expr)%type.

(** ** Rewriting towards negation normal form *)

Section Ops.
Context `{SymTab}.

(** [bool FOO!=n => FOO]; the C code applies it to [E_NOT] with a null right
    child, which it returns unchanged. *)
Fixpoint expr_trans_bool (e : expr) : expr :=
  match e with
  | E_AND l r => E_AND (expr_trans_bool l) (expr_trans_bool r)
  | E_OR l r => E_OR (expr_trans_bool l) (expr_trans_bool r)
  | E_NOT l => E_NOT (expr_trans_bool l)
  | E_UNEQUAL l r =>
      if bool_decide (sym_type l = S_TRISTATE) then
        if bool_decide (r = symbol_no) then E_SYMBOL l else e
      else e
  | _ => e
  end.

(** The comparisons of a boolean symbol with a constant: the two [case]s
    [E_EQUAL] and [E_UNEQUAL] of the second [switch] of [expr_transform]. *)
Definition transform_equal (l r : symp) : expr :=
  if bool_decide (sym_type l ≠ S_BOOLEAN) then E_EQUAL l r
  else if bool_decide (r = symbol_no) then E_NOT (expr_alloc_symbol l)
  else if bool_decide (r = symbol_mod) then E_SYMBOL symbol_no
  else if bool_decide (r = symbol_yes) then E_SYMBOL l
  else E_EQUAL l r.

Definition transform_unequal (l r : symp) : expr :=
  if bool_decide (sym_type l ≠ S_BOOLEAN) then E_UNEQUAL l r
  else if bool_decide (r = symbol_no) then E_SYMBOL l
  else if bool_decide (r = symbol_mod) then E_SYMBOL symbol_yes
  else if bool_decide (r = symbol_yes) then E_NOT (expr_alloc_symbol l)
  else E_UNEQUAL l r.

(** [expr_transform] on a non-null expression; [E_RANGE] would transform two
    symbols as if they were expressions, which is [None]. *)
Fixpoint expr_transform (n : nat) (e : expr) : option expr :=
  match n with
  | O => None
  | S n =>
    match e with
    | E_EQUAL l r => Some (transform_equal l r)
    | E_UNEQUAL l r => Some (transform_unequal l r)
    | E_SYMBOL _ | E_LIST _ _ => Some e
    | E_AND l r => l ← expr_transform n l; r ← expr_transform n r; Some (E_AND l r)
    | E_OR l r => l ← expr_transform n l; r ← expr_transform n r; Some (E_OR l r)
    | E_RANGE _ _ => None
    | E_NOT l =>
        l ← expr_transform n l;
        match l with
        | E_NOT a => expr_transform n a
        | E_EQUAL a b => Some (E_UNEQUAL a b)
        | E_UNEQUAL a b => Some (E_EQUAL a b)
        | E_OR a b => expr_transform n (E_AND (E_NOT a) (E_NOT b))
        | E_AND a b => expr_transform n (E_OR (E_NOT a) (E_NOT b))
        | E_SYMBOL s =>
            Some (if bool_decide (s = symbol_yes) then E_SYMBOL symbol_no
                  else if bool_decide (s = symbol_mod) then E_SYMBOL symbol_mod
                  else if bool_decide (s = symbol_no) then E_SYMBOL symbol_yes
                  else E_NOT (E_SYMBOL s))
        | _ => Some (E_NOT l)
        end
    end
  end.

(** [expr_trans_compare e type sym]: an expression for "[e] = [sym]" or
    "[e] != [sym]". The outer option is C undefinedness, the inner one the
    null result of the last [return]. *)
Fixpoint expr_trans_compare (e : expr) (type : expr_type) (sym : symp)
  : option (option expr) :=
  match e with
  | E_AND l r =>
      e1 ← (expr_trans_compare l T_EQUAL sym ≫= id);
      e2 ← (expr_trans_compare r T_EQUAL sym ≫= id);
      let e := if bool_decide (sym = symbol_yes) then E_AND e1 e2 else e in
      let e := if bool_decide (sym = symbol_no) then E_OR e1 e2 else e in
      Some (Some (if bool_decide (type = T_UNEQUAL) then E_NOT e else e))
  | E_OR l r =>
      e1 ← (expr_trans_compare l T_EQUAL sym ≫= id);
      e2 ← (expr_trans_compare r T_EQUAL sym ≫= id);
      let e := if bool_decide (sym = symbol_yes) then E_OR e1 e2 else e in
      let e := if bool_decide (sym = symbol_no) then E_AND e1 e2 else e in
      Some (Some (if bool_decide (type = T_UNEQUAL) then E_NOT e else e))
  | E_NOT l =>
      expr_trans_compare l (if bool_decide (type = T_EQUAL) then T_UNEQUAL else T_EQUAL) sym
  | E_EQUAL _ _ | E_UNEQUAL _ _ =>
      if bool_decide (type = T_EQUAL) then
        if bool_decide (sym = symbol_yes) then c ← expr_copy e; Some (Some c)
        else if bool_decide (sym = symbol_mod) then Some (Some (E_SYMBOL symbol_no))
        else if bool_decide (sym = symbol_no) then c ← expr_copy e; Some (Some (E_NOT c))
        else Some None
      else
        if bool_decide (sym = symbol_yes) then c ← expr_copy e; Some (Some (E_NOT c))
        else if bool_decide (sym = symbol_mod) then Some (Some (E_SYMBOL symbol_yes))
        else if bool_decide (sym = symbol_no) then c ← expr_copy e; Some (Some c)
        else Some None
  | E_SYMBOL s => c ← expr_alloc_comp type s sym; Some (Some c)
  | E_LIST _ _ | E_RANGE _ _ => Some None
  end.

(** The null case of [expr_trans_compare]. *)
Definition expr_trans_compare_null (type : expr_type) (sym : symp) : expr :=
  if bool_decide (type = T_UNEQUAL) then E_NOT (E_SYMBOL sym) else E_SYMBOL sym.

(** ** Joining two operands of a disjunction or a conjunction *)

(** The symbol that the first, respectively the second operand of
    [expr_join_or] and [expr_join_and] tests: the operand is a comparison, a
    symbol, or the negation of one (for the second operand only of a symbol). *)
Definition join_sym1 (e : expr) : option symp :=
  match e with
  | E_NOT (E_EQUAL s _) | E_NOT (E_UNEQUAL s _) | E_NOT (E_SYMBOL s)
  | E_EQUAL s _ | E_UNEQUAL s _ | E_SYMBOL s => Some s
  | _ => None
  end.

Definition join_sym2 (e : expr) : option symp :=
  match e with
  | E_NOT (E_SYMBOL s) | E_EQUAL s _ | E_UNEQUAL s _ | E_SYMBOL s => Some s
  | _ => None
  end.

(** [e->type == E_EQUAL && e->right.sym == s], and the like. *)
Definition is_equal_to (s : symp) (e : expr) : bool :=
  match e with E_EQUAL _ r => bool_decide (r = s) | _ => false end.
Definition is_unequal_to (s : symp) (e : expr) : bool :=
  match e with E_UNEQUAL _ r => bool_decide (r = s) | _ => false end.
Definition is_symbol (e : expr) : bool :=
  match e with E_SYMBOL _ => true | _ => false end.
Definition is_not_symbol (e : expr) : bool :=
  match e with E_NOT (E_SYMBOL _) => true | _ => false end.

(** The symmetric tests of the two join functions: [P e1 && Q e2] or
    [Q e1 && P e2]. *)
Definition either_way (P Q : expr → bool) (e1 e2 : expr) : bool :=
  (P e1 && Q e2) || (Q e1 && P e2).

Definition is_bool_or_tristate (t : symbol_type) : bool :=
  bool_decide (t = S_BOOLEAN) || bool_decide (t = S_TRISTATE).

(** [expr_join_or e1 e2]: an expression for [e1 || e2], or a null pointer
    (the inner [None]) when the code knows none. *)
Definition expr_join_or (n : nat) (e1 e2 : expr) : option (option expr) :=
  b ← expr_eq n e1 e2;
  if b : bool then c ← expr_copy e1; Some (Some c)
  else Some (
    sym1 ← join_sym1 e1;
    sym2 ← join_sym2 e2;
    if bool_decide (sym1 ≠ sym2) then None
    else if negb (is_bool_or_tristate (sym_type sym1)) then None
    else if bool_decide (sym_type sym1 = S_TRISTATE) &&
            either_way (is_equal_to symbol_yes) (is_equal_to symbol_mod) e1 e2
    then expr_alloc_comp T_UNEQUAL sym1 symbol_no
    else if bool_decide (sym_type sym1 = S_TRISTATE) &&
            either_way (is_equal_to symbol_yes) (is_equal_to symbol_no) e1 e2
    then expr_alloc_comp T_UNEQUAL sym1 symbol_mod
    else if bool_decide (sym_type sym1 = S_TRISTATE) &&
            either_way (is_equal_to symbol_mod) (is_equal_to symbol_no) e1 e2
    then expr_alloc_comp T_UNEQUAL sym1 symbol_yes
    else if bool_decide (sym_type sym1 = S_BOOLEAN) &&
            either_way is_not_symbol is_symbol e1 e2
    then Some (expr_alloc_symbol symbol_yes)
    else None).

(** The two cases [(a='b') && (a!='c')] of [expr_join_and]: [b] and [c] are
    the right-hand sides of the equality and of the inequality. *)
Definition join_equal_unequal (sym1 b c : symp) : option expr :=
  if sym_const c && sym_const b then
    if bool_decide (b ≠ c) then expr_alloc_comp T_EQUAL sym1 b
    else Some (expr_alloc_symbol symbol_no)
  else None.

(** The tests of [expr_join_and] that apply to tristate symbols only. *)
Definition expr_join_and_tristate (sym1 : symp) (e1 e2 : expr) : option expr :=
  match match e1, e2 with
        | E_EQUAL _ b, E_UNEQUAL _ c => join_equal_unequal sym1 b c
        | E_UNEQUAL _ c, E_EQUAL _ b => join_equal_unequal sym1 b c
        | _, _ => None
        end
  with
  | Some r => Some r
  | None =>
    if either_way (is_unequal_to symbol_yes) (is_unequal_to symbol_no) e1 e2
    then expr_alloc_comp T_EQUAL sym1 symbol_mod
    else if either_way (is_unequal_to symbol_yes) (is_unequal_to symbol_mod) e1 e2
    then expr_alloc_comp T_EQUAL sym1 symbol_no
    else if either_way (is_unequal_to symbol_mod) (is_unequal_to symbol_no) e1 e2
    then expr_alloc_comp T_EQUAL sym1 symbol_yes
    else None
  end.

Definition expr_join_and (n : nat) (e1 e2 : expr) : option (option expr) :=
  b ← expr_eq n e1 e2;
  if b : bool then c ← expr_copy e1; Some (Some c)
  else Some (
    sym1 ← join_sym1 e1;
    sym2 ← join_sym2 e2;
    if bool_decide (sym1 ≠ sym2) then None
    else if negb (is_bool_or_tristate (sym_type sym1)) then None
    else if either_way is_symbol (is_equal_to symbol_yes) e1 e2
    then expr_alloc_comp T_EQUAL sym1 symbol_yes
    else if either_way is_symbol (is_unequal_to symbol_no) e1 e2
    then Some (expr_alloc_symbol sym1)
    else if either_way is_symbol (is_unequal_to symbol_mod) e1 e2
    then expr_alloc_comp T_EQUAL sym1 symbol_yes
    else if bool_decide (sym_type sym1 = S_TRISTATE)
    then expr_join_and_tristate sym1 e1 e2
    else None).

(** ** Extracting the common operands of two expressions *)

(** [ep], [ep1] and [ep2] are three disjoint trees updated in place. *)
Fixpoint expr_extract_eq (n : nat) (type : expr_type)
    (ep : option expr) (e1 e2 : expr) : option (option expr * expr * expr) :=
  match n with
  | O => None
  | S n =>
    match children type e1 with
    | Some (l, r) =>
        '(ep, l, e2) ← expr_extract_eq n type ep l e2;
        '(ep, r, e2) ← expr_extract_eq n type ep r e2;
        e1 ← expr_alloc_two type l r;
        Some (ep, e1, e2)
    | None =>
      match children type e2 with
      | Some (l, r) =>
          '(ep, e1, l) ← expr_extract_eq n type ep e1 l;
          '(ep, e1, r) ← expr_extract_eq n type ep e1 r;
          e2 ← expr_alloc_two type l r;
          Some (ep, e1, e2)
      | None =>
          b ← expr_eq n e1 e2;
          if b : bool then
            ep' ← match ep with
                  | Some x => expr_alloc_two type x e1
                  | None => Some e1
                  end;
            Some (match type with
                  | T_AND => (Some ep', expr_alloc_symbol symbol_yes, expr_alloc_symbol symbol_yes)
                  | T_OR => (Some ep', expr_alloc_symbol symbol_no, expr_alloc_symbol symbol_no)
                  | _ => (Some ep', e1, e2)
                  end)
          else Some (ep, e1, e2)
      end
    end
  end.

Definition expr_extract_eq_and (n : nat) (e1 e2 : expr)
  : option (option expr * expr * expr) :=
  '(tmp, e1, e2) ← expr_extract_eq n T_AND None e1 e2;
  Some (match tmp with
        | Some _ => (tmp, expr_eliminate_yn e1, expr_eliminate_yn e2)
        | None => (tmp, e1, e2)
        end).

Definition expr_extract_eq_or (n : nat) (e1 e2 : expr)
  : option (option expr * expr * expr) :=
  '(tmp, e1, e2) ← expr_extract_eq n T_OR None e1 e2;
  Some (match tmp with
        | Some _ => (tmp, expr_eliminate_yn e1, expr_eliminate_yn e2)
        | None => (tmp, e1, e2)
        end).

(** ** Removing duplicate operands

    [expr_eliminate_dups1] and [expr_eliminate_dups2] are called with two
    pointers into the same tree, often the same pointer twice, and update the
    tree through both. The model keeps the tree and names the locations
    [ep1] and [ep2] by their paths from the root, so the aliasing of the C
    code is the aliasing of the model; [e1 == e2] compares the locations. *)

Inductive dir := DL | DR.

#[export] Instance dir_eq_dec : EqDecision dir.
Proof. solve_decision. Defined.

Fixpoint get_at (p : list dir) (e : expr) : option expr :=
  match p, e with
  | [], _ => Some e
  | DL :: p, (E_OR l _ | E_AND l _) => get_at p l
  | DR :: p, (E_OR _ r | E_AND _ r) => get_at p r
  | _, _ => None
  end.

Fixpoint put_at (p : list dir) (x e : expr) : expr :=
  match p, e with
  | [], _ => x
  | DL :: p, E_OR l r => E_OR (put_at p x l) r
  | DL :: p, E_AND l r => E_AND (put_at p x l) r
  | DR :: p, E_OR l r => E_OR l (put_at p x r)
  | DR :: p, E_AND l r => E_AND l (put_at p x r)
  | _, _ => e
  end.

(** The last [switch] of [expr_eliminate_dups1]: join the two operands. *)
Definition dups1_join (n : nat) (type : expr_type) (ep1 ep2 : list dir)
    (st : dstate) : option dstate :=
  e1 ← get_at ep1 st.2;
  e2 ← get_at ep2 st.2;
  match type with
  | T_OR =>
      tmp ← expr_join_or n e1 e2;
      Some (match tmp with
            | Some tmp => (st.1 + 1, put_at ep2 tmp
                             (put_at ep1 (expr_alloc_symbol symbol_no) st.2))%Z
            | None => st
            end)
  | T_AND =>
      tmp ← expr_join_and n e1 e2;
      Some (match tmp with
            | Some tmp => (st.1 + 1, put_at ep2 tmp
                             (put_at ep1 (expr_alloc_symbol symbol_yes) st.2))%Z
            | None => st
            end)
  | _ => Some st
  end.

Fixpoint expr_eliminate_dups1 (n : nat) (type : expr_type) (ep1 ep2 : list dir)
    (st : dstate) : option dstate :=
  match n with
  | O => None
  | S n =>
    e1 ← get_at ep1 st.2;
    e2 ← get_at ep2 st.2;
    if has_children type e1 then
      st ← expr_eliminate_dups1 n type (ep1 ++ [DL]) ep2 st;
      expr_eliminate_dups1 n type (ep1 ++ [DR]) ep2 st
    else if has_children type e2 then
      st ← expr_eliminate_dups1 n type ep1 (ep2 ++ [DL]) st;
      expr_eliminate_dups1 n type ep1 (ep2 ++ [DR]) st
    else if bool_decide (ep1 = ep2) then Some st
    else
      st ← match type_of e1 with
           | T_OR | T_AND => expr_eliminate_dups1 n (type_of e1) ep1 ep1 st
           | _ => Some st
           end;
      dups1_join n type ep1 ep2 st
  end.

(** The two cases of the [switch] of [expr_eliminate_dups2], after the
    recursive call on [e1]:
    [(FOO || BAR) && (!FOO && !BAR) -> n] and
    [(FOO && BAR) || (!FOO || !BAR) -> y]. *)
Definition dups2_or (n : nat) (ep1 ep2 : list dir) (st : dstate) : option dstate :=
  e1 ← get_at ep1 st.2;
  e2 ← get_at ep2 st.2;
  c1 ← expr_copy e1;
  tmp1 ← expr_transform n (E_NOT c1);
  tmp2 ← expr_copy e2;
  '(_, tmp1, _) ← expr_extract_eq_and n tmp1 tmp2;
  Some (if expr_is_yes (Some tmp1) then
          (st.1 + 1, put_at ep1 (expr_alloc_symbol symbol_no) st.2)%Z
        else st).

Definition dups2_and (n : nat) (ep1 ep2 : list dir) (st : dstate) : option dstate :=
  e1 ← get_at ep1 st.2;
  e2 ← get_at ep2 st.2;
  c1 ← expr_copy e1;
  tmp1 ← expr_transform n (E_NOT c1);
  tmp2 ← expr_copy e2;
  '(_, tmp1, _) ← expr_extract_eq_or n tmp1 tmp2;
  Some (if expr_is_no (Some tmp1) then
          (st.1 + 1, put_at ep1 (expr_alloc_symbol symbol_yes) st.2)%Z
        else st).

(** The second pass does not return after it has visited the operands of
    [e2]: it goes on with [e2] itself, which then contains [e1] or stands
    beside it. *)
Fixpoint expr_eliminate_dups2 (n : nat) (type : expr_type) (ep1 ep2 : list dir)
    (st : dstate) : option dstate :=
  match n with
  | O => None
  | S n =>
    e1 ← get_at ep1 st.2;
    e2 ← get_at ep2 st.2;
    if has_children type e1 then
      st ← expr_eliminate_dups2 n type (ep1 ++ [DL]) ep2 st;
      expr_eliminate_dups2 n type (ep1 ++ [DR]) ep2 st
    else
      st ← (if has_children type e2 then
              st ← expr_eliminate_dups2 n type ep1 (ep2 ++ [DL]) st;
              expr_eliminate_dups2 n type ep1 (ep2 ++ [DR]) st
            else Some st);
      if bool_decide (ep1 = ep2) then Some st
      else
        e1 ← get_at ep1 st.2;
        match type_of e1 with
        | T_OR =>
            st ← expr_eliminate_dups2 n T_OR ep1 ep1 st;
            dups2_or n ep1 ep2 st
        | T_AND =>
            st ← expr_eliminate_dups2 n T_AND ep1 ep1 st;
            dups2_and n ep1 ep2 st
        | _ => Some st
        end
  end.

(** One iteration of the [while (1)] loop: the counter and the tree after the
    [switch]. *)
Definition expr_eliminate_dups_pass (n : nat) (e : expr) : option dstate :=
  match type_of e with
  | T_OR | T_AND =>
      st ← expr_eliminate_dups1 n (type_of e) [] [] (0%Z, e);
      expr_eliminate_dups2 n (type_of e) [] [] st
  | _ => Some (0%Z, e)
  end.

(** [expr_eliminate_dups] on a non-null expression; [loops] bounds the number
    of iterations of the [while (1)] loop and [n] the recursion depth of each. *)
Fixpoint expr_eliminate_dups (loops n : nat) (e : expr) : option expr :=
  match loops with
  | O => None
  | S loops =>
      '(tc, e) ← expr_eliminate_dups_pass n e;
      if bool_decide (tc = 0%Z) then Some e
      else expr_eliminate_dups loops n (expr_eliminate_yn e)
  end.

(** ** The unmet part of a dependency *)

(** The loop follows [left.expr] until it meets a symbol; on a comparison it
    would read a symbol as an expression. *)
Fixpoint expr_get_leftmost_symbol (e : expr) : option expr :=
  match e with
  | E_SYMBOL _ => expr_copy e
  | E_OR l _ | E_AND l _ | E_NOT l => expr_get_leftmost_symbol l
  | E_LIST (Some l) _ => expr_get_leftmost_symbol l
  | _ => None
  end.

(** The outer option is undefinedness or lack of fuel, the inner one the null
    pointer. *)
Fixpoint expr_simplify_unmet_dep (loops n : nat) (e1 : expr) (e2 : option expr)
  : option (option expr) :=
  match e1 with
  | E_OR l r =>
      a ← expr_simplify_unmet_dep loops n l e2;
      b ← expr_simplify_unmet_dep loops n r e2;
      Some (expr_alloc_and a b)
  | E_AND _ _ =>
      c1 ← expr_copy e1;
      c2 ← match e2 with Some e2 => c ← expr_copy e2; Some (Some c) | None => Some None end;
      e ← expr_alloc_and (Some c1) c2;
      e ← expr_eliminate_dups loops n e;
      b ← expr_eq n e e1;
      if b : bool then Some None else s ← expr_get_leftmost_symbol e1; Some (Some s)
  | _ => s ← expr_get_leftmost_symbol e1; Some (Some s)
  end.

End Ops.

(** ** Evaluation *)

(** What evaluation reads of the symbols once [sym_calc_value] has run on
    them: [sym->curr.tri] and [sym_get_string_value(sym)]. *)
Record valuation := {
  v_tri : symp → tristate;
  v_str : symp → string;
}.

Definition EXPR_OR (a b : tristate) : tristate := if (tri_val a >? tri_val b)%Z then a else b.
Definition EXPR_AND (a b : tristate) : tristate := if (tri_val a <? tri_val b)%Z then a else b.
Definition EXPR_NOT (a : tristate) : tristate :=
  match a with tri_no => tri_yes | tri_mod => tri_mod | tri_yes => tri_no end.

Fixpoint expr_calc_value (V : valuation) (e : expr) : tristate :=
  match e with
  | E_SYMBOL s => v_tri V s
  | E_AND l r => EXPR_AND (expr_calc_value V l) (expr_calc_value V r)
  | E_OR l r => EXPR_OR (expr_calc_value V l) (expr_calc_value V r)
  | E_NOT l => EXPR_NOT (expr_calc_value V l)
  | E_EQUAL l r => if bool_decide (v_str V l = v_str V r) then tri_yes else tri_no
  | E_UNEQUAL l r => if bool_decide (v_str V l = v_str V r) then tri_no else tri_yes
  | E_LIST _ _ | E_RANGE _ _ => tri_no
  end.

(** A null expression evaluates to [yes]. *)
Definition expr_calc_value_opt (V : valuation) (e : option expr) : tristate :=
  match e with None => tri_yes | Some e => expr_calc_value V e end.
