(* ===== verification/KconfigExprSem.v ===== *)
(** * Kconfig expressions: what the rewriting functions preserve

    The theorems about [KconfigExpr]: copying, comparison, constant folding,
    negation normal form and the join rules keep the value of an expression,
    and every fuelled function returns with a stated amount of fuel. *)

From S2P Require Import Prelude KconfigExpr.
From stdpp Require Import base option list strings.
From Stdlib Require Import ZArith Lia.

(** ** The algebra of tristate values *)

Ltac tri_cases :=
  repeat match goal with t : tristate |- _ => destruct t end; try done; try naive_solver.

Lemma EXPR_OR_comm a b : EXPR_OR a b = EXPR_OR b a.
Proof. tri_cases. Qed.
Lemma EXPR_OR_assoc a b c : EXPR_OR a (EXPR_OR b c) = EXPR_OR (EXPR_OR a b) c.
Proof. tri_cases. Qed.
Lemma EXPR_AND_comm a b : EXPR_AND a b = EXPR_AND b a.
Proof. tri_cases. Qed.
Lemma EXPR_AND_assoc a b c : EXPR_AND a (EXPR_AND b c) = EXPR_AND (EXPR_AND a b) c.
Proof. tri_cases. Qed.

(** The two connectives as one operation with a unit, indexed by the
    expression type. *)
Definition op_val (type : expr_type) (a b : tristate) : tristate :=
  match type with T_OR => EXPR_OR a b | _ => EXPR_AND a b end.

Definition op_unit (type : expr_type) : symp :=
  match type with T_OR => symbol_no | _ => symbol_yes end.

Definition is_op (type : expr_type) : Prop := type = T_OR ∨ type = T_AND.

#[export] Instance is_op_dec type : Decision (is_op type).
Proof. unfold is_op. apply _. Defined.

Lemma op_val_comm type a b : op_val type a b = op_val type b a.
Proof. destruct type; [..]; simpl; auto using EXPR_OR_comm, EXPR_AND_comm. Qed.
Lemma op_val_assoc type a b c : op_val type a (op_val type b c) = op_val type (op_val type a b) c.
Proof. destruct type; simpl; auto using EXPR_OR_assoc, EXPR_AND_assoc. Qed.

(** ** Valuations *)

Definition tri_str (t : tristate) : string :=
  match t with tri_no => "n" | tri_mod => "m" | tri_yes => "y" end.

Lemma tri_str_inj a b : tri_str a = tri_str b → a = b.
Proof. tri_cases. Qed.

(** The constants have their own values. *)
Record consts_ok (V : valuation) : Prop := {
  ok_yes : v_tri V symbol_yes = tri_yes;
  ok_mod : v_tri V symbol_mod = tri_mod;
  ok_no : v_tri V symbol_no = tri_no;
  ok_str_yes : v_str V symbol_yes = tri_str tri_yes;
  ok_str_mod : v_str V symbol_mod = tri_str tri_mod;
  ok_str_no : v_str V symbol_no = tri_str tri_no;
}.

(** A valuation that respects the symbol types: a boolean symbol is never
    [m], the string value of a boolean or tristate symbol is the name of its
    value, and two different constant symbols have different strings
    ([sym_lookup] interns them by name). *)
Record valuation_ok `{SymTab} (V : valuation) : Prop := {
  ok_consts :> consts_ok V;
  ok_bool s : sym_type s = S_BOOLEAN → v_tri V s ≠ tri_mod;
  ok_str s : is_bool_or_tristate (sym_type s) = true → v_str V s = tri_str (v_tri V s);
  ok_const a b : sym_const a = true → sym_const b = true → v_str V a = v_str V b → a = b;
}.

(** No symbol of the expression has the value [m]. *)
Fixpoint mod_free (V : valuation) (e : expr) : Prop :=
  match e with
  | E_OR l r | E_AND l r => mod_free V l ∧ mod_free V r
  | E_NOT l => mod_free V l
  | E_SYMBOL s => v_tri V s ≠ tri_mod
  | _ => True
  end.

Lemma calc_mod_free V e : mod_free V e → expr_calc_value V e ≠ tri_mod.
Proof.
  induction e; simpl; intros; try case_bool_decide; try done;
    try (destruct (expr_calc_value V e) eqn:?; naive_solver);
    destruct (expr_calc_value V e1), (expr_calc_value V e2); naive_solver.
Qed.

(** ** Dependency expressions: no [E_LIST], no [E_RANGE] *)

Fixpoint dep_expr (e : expr) : bool :=
  match e with
  | E_OR l r | E_AND l r => dep_expr l && dep_expr r
  | E_NOT l => dep_expr l
  | E_EQUAL _ _ | E_UNEQUAL _ _ | E_SYMBOL _ => true
  | E_LIST _ _ | E_RANGE _ _ => false
  end.

Fixpoint esize (e : expr) : nat :=
  match e with
  | E_OR l r | E_AND l r => S (esize l + esize r)
  | E_NOT l => S (esize l)
  | _ => 1
  end.

Lemma esize_pos e : 1 ≤ esize e.
Proof. destruct e; simpl; lia. Qed.

(** Copying succeeds exactly on dependency expressions, and is the identity. *)
Lemma expr_copy_spec e : expr_copy e = if dep_expr e then Some e else None.
Proof.
  induction e; simpl; try done.
  - rewrite IHe1, IHe2. by destruct (dep_expr e1), (dep_expr e2).
  - rewrite IHe1, IHe2. by destruct (dep_expr e1), (dep_expr e2).
  - rewrite IHe. by destruct (dep_expr e).
Qed.

Lemma expr_copy_Some e c : expr_copy e = Some c → c = e ∧ dep_expr e = true.
Proof. rewrite expr_copy_spec. destruct (dep_expr e); naive_solver. Qed.

(** [children] splits a node of the given binary type. *)
Lemma children_Some type e l r :
  children type e = Some (l, r) →
  is_op type ∧ expr_alloc_two type l r = Some e ∧ esize e = S (esize l + esize r) ∧
  type_of e = type ∧ dep_expr e = dep_expr l && dep_expr r ∧
  (∀ V, expr_calc_value V e = op_val type (expr_calc_value V l) (expr_calc_value V r)).
Proof. unfold is_op. destruct type, e; simpl; naive_solver. Qed.

Lemma expr_alloc_two_Some type l r e :
  expr_alloc_two type l r = Some e → children type e = Some (l, r).
Proof. destruct type; naive_solver. Qed.

Lemma expr_alloc_two_op type l r :
  is_op type → ∃ e, expr_alloc_two type l r = Some e.
Proof. destruct 1; subst; simpl; eauto. Qed.

Lemma calc_op_unit V type : consts_ok V → is_op type →
  ∀ x, op_val type (expr_calc_value V (E_SYMBOL (op_unit type))) x = x.
Proof.
  intros HV [-> | ->] x; simpl.
  - rewrite (ok_no V HV). by destruct x.
  - rewrite (ok_yes V HV). by destruct x.
Qed.

(** ** Constant folding *)

Lemma expr_is_no_Some e : expr_is_no (Some e) = true → e = E_SYMBOL symbol_no.
Proof. destruct e; unfold expr_is_no, expr_is_yes; try done. by intros ->%bool_decide_eq_true_1. Qed.
Lemma expr_is_yes_Some e : expr_is_yes (Some e) = true → e = E_SYMBOL symbol_yes.
Proof. destruct e; unfold expr_is_no, expr_is_yes; try done. by intros ->%bool_decide_eq_true_1. Qed.

Ltac yn_cases :=
  repeat match goal with
  | |- context [expr_is_no (Some ?e)] =>
      let H := fresh "Hn" in destruct (expr_is_no (Some e)) eqn:H;
      [apply expr_is_no_Some in H|]
  | |- context [expr_is_yes (Some ?e)] =>
      let H := fresh "Hy" in destruct (expr_is_yes (Some e)) eqn:H;
      [apply expr_is_yes_Some in H|]
  end.

Lemma calc_eliminate_yn V e :
  consts_ok V → expr_calc_value V (expr_eliminate_yn e) = expr_calc_value V e.
Proof.
  intros HV. pose proof (ok_no V HV) as Kn. pose proof (ok_yes V HV) as Ky.
  induction e; simpl; auto; yn_cases; simpl in *;
    repeat match goal with H : expr_eliminate_yn _ = _ |- _ => rewrite H in *; clear H end;
    simpl in *; rewrite <- ?IHe1, <- ?IHe2, ?Kn, ?Ky; try done;
    try (by destruct (expr_calc_value V (expr_eliminate_yn e1)));
    by destruct (expr_calc_value V (expr_eliminate_yn e2)).
Qed.

(** After folding, [y] and [n] occur only as the whole expression or under a
    negation: no connective has a constant operand. *)
Fixpoint yn_folded (e : expr) : bool :=
  match e with
  | E_AND l r | E_OR l r =>
      yn_folded l && yn_folded r &&
      negb (expr_is_yes (Some l) || expr_is_no (Some l) ||
            expr_is_yes (Some r) || expr_is_no (Some r))
  | _ => true
  end.

Lemma expr_eliminate_yn_folded e : yn_folded (expr_eliminate_yn e) = true.
Proof.
  induction e; simpl; auto.
  all: destruct (expr_is_no (Some (expr_eliminate_yn e1))) eqn:A; auto.
  all: destruct (expr_is_yes (Some (expr_eliminate_yn e1))) eqn:B; auto.
  all: destruct (expr_is_no (Some (expr_eliminate_yn e2))) eqn:C; auto.
  all: destruct (expr_is_yes (Some (expr_eliminate_yn e2))) eqn:D; auto.
  all: simpl in *; by rewrite IHe1, IHe2, A, B, C, D.
Qed.

Lemma esize_eliminate_yn e : esize (expr_eliminate_yn e) ≤ esize e.
Proof. induction e; simpl; yn_cases; simpl in *; lia. Qed.

Lemma dep_eliminate_yn e : dep_expr e = true → dep_expr (expr_eliminate_yn e) = true.
Proof.
  induction e; simpl; auto; intros [??]%andb_prop; yn_cases; simpl; auto;
    by rewrite IHe1, IHe2.
Qed.

(** ** Comparison *)

(** What an elimination step leaves behind: both trees lost the same value
    [c], and neither grew. *)
Definition cancels (V : valuation) (type : expr_type) (e1 e2 e1' e2' : expr) : Prop :=
  ∃ c, expr_calc_value V e1 = op_val type c (expr_calc_value V e1') ∧
       expr_calc_value V e2 = op_val type c (expr_calc_value V e2').

Lemma cancels_refl V type e1 e2 : consts_ok V → is_op type → cancels V type e1 e2 e1 e2.
Proof.
  intros HV Ht. exists (expr_calc_value V (E_SYMBOL (op_unit type))).
  by rewrite !calc_op_unit.
Qed.

(** Descending into the left tree, then into the right one. *)
Lemma cancels_left V type e1 l r l' r' e2 e2' e2'' e1' :
  children type e1 = Some (l, r) → children type e1' = Some (l', r') →
  cancels V type l e2 l' e2' → cancels V type r e2' r' e2'' →
  cancels V type e1 e2 e1' e2''.
Proof.
  intros (_&_&_&_&_&H1)%children_Some (_&_&_&_&_&H1')%children_Some
    (c & Hl & H2) (d & Hr & H2').
  exists (op_val type c d). rewrite H1, H1', Hl, Hr, H2, H2'. split.
  - rewrite !op_val_assoc. f_equal. rewrite <- !op_val_assoc. f_equal. apply op_val_comm.
  - by rewrite op_val_assoc.
Qed.

Lemma cancels_sym V type e1 e2 e1' e2' :
  cancels V type e1 e2 e1' e2' → cancels V type e2 e1 e2' e1'.
Proof. intros (c & ? & ?). by exists c. Qed.

(** The leaf case: equal values are replaced by the unit of the connective. *)
Lemma cancels_leaf V type e1 e2 :
  consts_ok V → is_op type → expr_calc_value V e1 = expr_calc_value V e2 →
  cancels V type e1 e2 (E_SYMBOL (op_unit type)) (E_SYMBOL (op_unit type)).
Proof.
  intros HV Ht E. exists (expr_calc_value V e1).
  rewrite op_val_comm, calc_op_unit by done. by rewrite E.
Qed.

Definition expr_eq_sound_at V n : Prop :=
  ∀ e1 e2, expr_eq n e1 e2 = Some true → expr_calc_value V e1 = expr_calc_value V e2.
Definition elim_eq_sound_at V n : Prop :=
  ∀ type tc e1 e2 tc' e1' e2', is_op type →
    __expr_eliminate_eq n type tc e1 e2 = Some (tc', e1', e2') →
    cancels V type e1 e2 e1' e2' ∧
    (type_of e1 = type → type_of e1' = type) ∧ (type_of e2 = type → type_of e2' = type).

Lemma type_of_op e type : is_op type → type_of e = type → ∃ l r, children type e = Some (l, r).
Proof. destruct e; intros [-> | ->]; simpl; intros; simplify_eq; eauto. Qed.

Lemma children_None_type type e : is_op type → children type e = None → type_of e ≠ type.
Proof. intros Ht H T. destruct (type_of_op e type Ht T) as (? & ? & ?). congruence. Qed.

Lemma elim_eq_sound_step V n :
  consts_ok V → (∀ m, m < n → expr_eq_sound_at V m) → elim_eq_sound_at V n.
Proof.
  intros HV Heq. induction n as [n IH] using lt_wf_ind.
  intros type tc e1 e2 tc' e1' e2' Ht H. destruct n as [|n]; [done|]. simpl in H.
  assert (IHn : elim_eq_sound_at V n) by (apply IH; [lia|]; intros; apply Heq; lia).
  destruct (children type e1) as [[l r]|] eqn:E1.
  - bind_inv. apply IHn in Hx as (C1 & _ & K1), Hx0 as (C2 & _ & K2); [|done..].
    apply expr_alloc_two_Some in Hx1. split; [by eapply cancels_left|].
    split; [|auto]. intros _. by eapply children_Some.
  - apply children_None_type in E1; [|done].
    destruct (children type e2) as [[l r]|] eqn:E2.
    + bind_inv. apply IHn in Hx as (C1 & _ & K1), Hx0 as (C2 & _ & K2); [|done..].
      apply expr_alloc_two_Some in Hx1. split; [|split; [done|intros _; by eapply children_Some]].
      apply cancels_sym. eapply cancels_left; eauto; by apply cancels_sym.
    + apply children_None_type in E2; [|done]. split; [|done].
      match type of H with (if ?b then _ else _) = _ => destruct b end.
      { simplify_eq. by apply cancels_refl. }
      bind_inv. destruct x; [|bind_inv; by apply cancels_refl].
      assert (E : expr_calc_value V e1 = expr_calc_value V e2)
        by (eapply (Heq n); [lia|done]).
      destruct Ht as [-> | ->]; bind_inv; by apply cancels_leaf; [done|red; auto|].
Qed.

(** One of the two elimination steps of [expr_eliminate_eq]: a pass for a
    connective, or nothing. *)
Definition elim_step (V : valuation) (a b a' b' : expr) : Prop :=
  (a' = a ∧ b' = b) ∨ (∃ type, is_op type ∧ cancels V type a b a' b').

Lemma expr_eliminate_eq_inv V n tc a b tc' r1 r2 :
  elim_eq_sound_at V n →
  expr_eliminate_eq (S n) tc (Some a) (Some b) = Some (tc', r1, r2) →
  ∃ a1 b1 a2 b2, elim_step V a b a1 b1 ∧ elim_step V a1 b1 a2 b2 ∧
    r1 = Some (expr_eliminate_yn a2) ∧ r2 = Some (expr_eliminate_yn b2) ∧
    (is_op (type_of a) → type_of b = type_of a →
     cancels V (type_of a) a b a1 b1 ∧ a2 = a1 ∧ b2 = b1).
Proof.
  intros Hel H. simpl in H. bind_inv. rename e0 into a1, e into b1, e2 into a2, e1 into b2.
  exists a1, b1, a2, b2.
  assert (S1 : (is_op (type_of a) ∧ cancels V (type_of a) a b a1 b1 ∧
      (type_of b = type_of a → type_of a1 = type_of b1)) ∨ (¬ is_op (type_of a) ∧ a1 = a ∧ b1 = b)).
  { destruct (type_of a) eqn:T; try (right; unfold is_op; naive_solver); left;
      (split; [red; auto|]);
      (eapply Hel in Hx as (Hc & H1 & H2); [|red; auto]); (split; [done|]); intros;
      by rewrite H1, H2. }
  assert (S2 : elim_step V a1 b1 a2 b2 ∧ (type_of a1 = type_of b1 → a2 = a1 ∧ b2 = b1)).
  { case_bool_decide as E; [simplify_eq; split; [by left|done]|]. split; [|done].
    destruct (type_of b1) eqn:T; simplify_eq; try (by left); right; eexists;
      (split; [|eapply Hel in Hx0 as [Hc _]; [exact Hc|red; auto]]); red; auto. }
  unfold elim_step in *. naive_solver.
Qed.

(** Two operands of the same connective that cancel down to the same symbol
    have the same value. *)
Lemma expr_eliminate_eq_same V n e1 e2 tc r1 r2 :
  consts_ok V → elim_eq_sound_at V n → is_op (type_of e1) → type_of e2 = type_of e1 →
  expr_eliminate_eq (S n) 0 (Some e1) (Some e2) = Some (tc, r1, r2) →
  (match r1, r2 with
   | Some (E_SYMBOL a), Some (E_SYMBOL b) => bool_decide (a = b) | _, _ => false end) = true →
  expr_calc_value V e1 = expr_calc_value V e2.
Proof.
  intros HV Hel Hop HT H Hr.
  destruct (expr_eliminate_eq_inv _ _ _ _ _ _ _ _ Hel H)
    as (a1 & b1 & a2 & b2 & _ & _ & -> & -> & Hc).
  destruct (Hc Hop HT) as ((c & C1 & C2) & -> & ->).
  rewrite C1, C2, <- (calc_eliminate_yn V a1), <- (calc_eliminate_yn V b1) by done.
  destruct (expr_eliminate_yn a1), (expr_eliminate_yn b1); try done.
  by apply bool_decide_eq_true_1 in Hr as ->.
Qed.

Lemma expr_eq_sound_all V n : consts_ok V → expr_eq_sound_at V n.
Proof.
  intros HV. induction n as [n IH] using lt_wf_ind. intros e1 e2 H.
  destruct n as [|n]; [done|].
  destruct e1, e2; simpl in H; try done;
    try (apply (inj Some), andb_true_iff in H as [->%bool_decide_eq_true_1 ->%bool_decide_eq_true_1]; done);
    try (apply (inj Some), bool_decide_eq_true_1 in H as ->; done);
    try (simpl; f_equal; eapply (IH n); [lia|done]).
  all: bind_inv.
  all: repeat match goal with
       | H : expr_copy _ = Some _ |- _ => apply expr_copy_Some in H as [-> _] end.
  all: destruct n as [|n]; [done|].
  all: eapply expr_eliminate_eq_same; eauto; [|unfold is_op; auto].
  all: apply elim_eq_sound_step; [done|]; intros m ?; apply IH; lia.
Qed.

(** ** Termination of the comparison *)

(** When both trees have the eliminated type, one pass suffices. *)
Lemma expr_eliminate_eq_same_type n type tc e1 e2 tc' a b :
  is_op type → type_of e1 = type →
  __expr_eliminate_eq n type tc e1 e2 = Some (tc', a, b) → type_of a = type_of b →
  expr_eliminate_eq (S n) tc (Some e1) (Some e2) =
    Some (tc', Some (expr_eliminate_yn a), Some (expr_eliminate_yn b)).
Proof.
  intros Ht T1 Hp Tab. cbn [expr_eliminate_eq]. rewrite T1.
  destruct Ht as [-> | ->]; rewrite Hp; cbn [mbind option_bind];
    by rewrite bool_decide_eq_true_2.
Qed.

Definition expr_eq_total_at n : Prop :=
  ∀ e1 e2, dep_expr e1 = true → dep_expr e2 = true →
    4 * (esize e1 + esize e2) ≤ n → ∃ b, expr_eq n e1 e2 = Some b.

(** [__expr_eliminate_eq] returns, neither tree grows, and a tree of the
    eliminated type keeps that type. *)
Definition elim_eq_returns n type tc e1 e2 : Prop :=
  ∃ tc' e1' e2', __expr_eliminate_eq n type tc e1 e2 = Some (tc', e1', e2') ∧
    (dep_expr e1' = true ∧ esize e1' ≤ esize e1 ∧ (type_of e1 = type → type_of e1' = type)) ∧
    (dep_expr e2' = true ∧ esize e2' ≤ esize e2 ∧ (type_of e2 = type → type_of e2' = type)).

Definition elim_eq_total_at n : Prop :=
  ∀ type tc e1 e2, is_op type → dep_expr e1 = true → dep_expr e2 = true →
    4 * (esize e1 + esize e2) + 1 ≤ n → elim_eq_returns n type tc e1 e2.

(** The call whose first argument has the eliminated type recurses at once on
    its two operands. *)
Lemma elim_eq_total_left n type tc e1 e2 l r :
  elim_eq_total_at n → is_op type → dep_expr e1 = true → dep_expr e2 = true →
  children type e1 = Some (l, r) → 4 * (esize e1 + esize e2) ≤ n + 4 →
  elim_eq_returns (S n) type tc e1 e2.
Proof.
  intros IHn Ht D1 D2 E1 Hn. unfold elim_eq_returns. simpl. rewrite E1.
  apply children_Some in E1 as (_&_&Hs&_&Hd&_).
  pose proof (esize_pos l). pose proof (esize_pos r).
  rewrite Hd in D1. apply andb_true_iff in D1 as [Dl Dr].
  destruct (IHn type tc l e2) as (tc1 & l1 & e21 & -> & (?&?&_) & (?&?&?)); auto; [lia|]. simpl.
  destruct (IHn type tc1 r e21) as (tc2 & r1 & e22 & -> & (?&?&_) & (?&?&?)); auto; [lia|]. simpl.
  destruct (expr_alloc_two_op type l1 r1 Ht) as [e1' He]. rewrite He. simpl.
  apply expr_alloc_two_Some, children_Some in He as (_&_&Hs'&Ht'&Hd'&_).
  eexists _, _, _. split; [done|]. rewrite Hd', Hs', Hs, andb_true_iff.
  repeat split; auto; lia.
Qed.

Lemma elim_eq_total_step n :
  (∀ m, m < n → expr_eq_total_at m) → elim_eq_total_at n.
Proof.
  intros Heq. induction n as [n IH] using lt_wf_ind.
  intros type tc e1 e2 Ht D1 D2 Hn. destruct n as [|n]; [lia|].
  assert (IHn : elim_eq_total_at n) by (apply IH; [lia|]; intros; apply Heq; lia).
  destruct (children type e1) as [[l r]|] eqn:E1;
    [by eapply elim_eq_total_left; eauto; lia|].
  unfold elim_eq_returns. simpl. rewrite E1.
  destruct (children type e2) as [[l r]|] eqn:E2.
  - apply children_Some in E2 as (_&_&Hs&_&Hd&_).
    rewrite Hd in D2. apply andb_true_iff in D2 as [Dl Dr].
    destruct (IHn type tc e1 l) as (tc1 & e11 & l1 & -> & (?&?&?) & (?&?&_)); auto; [lia|]. simpl.
    destruct (IHn type tc1 e11 r) as (tc2 & e12 & r1 & -> & (?&?&?) & (?&?&_)); auto; [lia|]. simpl.
    destruct (expr_alloc_two_op type l1 r1 Ht) as [e2' He]. rewrite He. simpl.
    apply expr_alloc_two_Some, children_Some in He as (_&_&Hs'&?&Hd'&_).
    eexists _, _, _. split; [done|]. rewrite Hd', Hs', Hs, andb_true_iff. repeat split; auto; lia.
  - apply children_None_type in E1, E2; [|done..].
    pose proof (esize_pos e1). pose proof (esize_pos e2).
    match goal with |- context [if ?b then _ else _] => destruct b end;
      [eexists _, _, _; repeat split; auto; lia|].
    destruct (Heq n ltac:(lia) e1 e2) as [b ->]; auto; [lia|]. simpl.
    destruct b; [|eexists _, _, _; repeat split; auto; lia].
    destruct Ht as [-> | ->]; eexists _, _, _; (split; [done|]); simpl;
      repeat split; auto; by intros.
Qed.

Lemma expr_eq_total_all n : expr_eq_total_at n.
Proof.
  induction n as [n IH] using lt_wf_ind. intros e1 e2 D1 D2 Hn.
  pose proof (esize_pos e1). pose proof (esize_pos e2). destruct n as [|n]; [lia|].
  assert (Hop : ∀ type, is_op type → type_of e1 = type → type_of e2 = type →
    ∃ b, expr_eq (S n) e1 e2 = Some b).
  { intros type Ht T1 T2.
    assert (Hc : ∃ tc r1 r2, expr_eliminate_eq n 0 (Some e1) (Some e2) = Some (tc, r1, r2)).
    { destruct n as [|[|n]]; [lia..|].
      destruct (type_of_op e1 type Ht T1) as (l & r & E1).
      destruct (elim_eq_total_left n type 0 e1 e2 l r)
        as (tc & a & b & Hab & (?&?&Ta) & (?&?&Tb)); auto; [|lia|].
      { apply elim_eq_total_step. intros m ?. apply IH. lia. }
      exists tc, (Some (expr_eliminate_yn a)), (Some (expr_eliminate_yn b)).
      eapply expr_eliminate_eq_same_type; eauto. rewrite Ta, Tb; auto. }
    destruct Hc as (tc & r1 & r2 & Hc).
    assert (K : expr_eq (S n) e1 e2 = (c1 ← expr_copy e1; c2 ← expr_copy e2;
      '(_, r1, r2) ← expr_eliminate_eq n 0 (Some c1) (Some c2);
      Some (match r1, r2 with
            | Some (E_SYMBOL a), Some (E_SYMBOL b) => bool_decide (a = b)
            | _, _ => false end))).
    { destruct Ht as [-> | ->], e1, e2; done. }
    rewrite K, !expr_copy_spec, D1, D2. simpl. rewrite Hc. simpl. eauto. }
  destruct e1, e2; try (by apply (Hop T_OR); [left|..]); try (by apply (Hop T_AND); [right|..]);
    simpl in *; try by eauto.
  eapply IH; simpl; auto; lia.
Qed.

(** ** Negation normal form *)

(** Negations are applied to symbols only. *)
Fixpoint nnf (e : expr) : bool :=
  match e with
  | E_OR l r | E_AND l r => nnf l && nnf r
  | E_NOT l => is_symbol l
  | E_EQUAL _ _ | E_UNEQUAL _ _ | E_SYMBOL _ => true
  | E_LIST _ _ | E_RANGE _ _ => false
  end.

(** The recursion depth of [expr_transform]; a comparison counts 2 because it
    may become a negated symbol. *)
Fixpoint theight (e : expr) : nat :=
  match e with
  | E_OR l r | E_AND l r => S (theight l `max` theight r)
  | E_NOT l => S (theight l)
  | E_EQUAL _ _ | E_UNEQUAL _ _ => 2
  | _ => 1
  end.

(** A size that [expr_transform] never increases: negations are free. *)
Fixpoint tweight (e : expr) : nat :=
  match e with
  | E_OR l r | E_AND l r => S (tweight l + tweight r)
  | E_NOT l => tweight l
  | _ => 2
  end.

Lemma nnf_dep e : nnf e = true → dep_expr e = true.
Proof.
  induction e; simpl; intros E; try done; try (apply andb_true_iff in E; rewrite andb_true_iff; naive_solver).
  by destruct e.
Qed.

Lemma theight_esize e : theight e ≤ 2 * esize e.
Proof. induction e; simpl; lia. Qed.

Lemma tweight_esize e : tweight e ≤ 2 * esize e.
Proof. induction e; simpl; lia. Qed.

Lemma esize_tweight e : nnf e = true → esize e ≤ tweight e.
Proof.
  induction e; simpl; rewrite ?andb_true_iff; try (intros; lia);
    try (intros [A B]; apply IHe1 in A; apply IHe2 in B; lia).
  by destruct e.
Qed.

Section Transform.
Context `{SymTab}.

Lemma transform_equal_ok V l r :
  valuation_ok V → expr_calc_value V (transform_equal l r) = expr_calc_value V (E_EQUAL l r).
Proof.
  intros HV. unfold transform_equal. case_bool_decide as T; [done|].
  pose proof (ok_bool V HV l T).
  pose proof (ok_str V HV l ltac:(by rewrite T)) as Hs.
  repeat case_bool_decide; simpl in *; subst; try done;
    rewrite ?(ok_str_no V HV), ?(ok_str_yes V HV), ?(ok_str_mod V HV), ?(ok_no V HV), ?Hs in *;
    by destruct (v_tri V l).
Qed.

Lemma transform_unequal_ok V l r :
  valuation_ok V → expr_calc_value V (transform_unequal l r) = expr_calc_value V (E_UNEQUAL l r).
Proof.
  intros HV. unfold transform_unequal. case_bool_decide as T; [done|].
  pose proof (ok_bool V HV l T).
  pose proof (ok_str V HV l ltac:(by rewrite T)) as Hs.
  repeat case_bool_decide; simpl in *; subst; try done;
    rewrite ?(ok_str_no V HV), ?(ok_str_yes V HV), ?(ok_str_mod V HV), ?(ok_yes V HV), ?Hs in *;
    by destruct (v_tri V l).
Qed.

(** Whatever [expr_transform] returns has the value of its argument. *)
Lemma calc_transform V n e r :
  valuation_ok V → expr_transform n e = Some r → expr_calc_value V r = expr_calc_value V e.
Proof.
  intros HV. revert e r. induction n as [|n IH]; intros e r Hr; [done|].
  destruct e; simpl in Hr; bind_inv; simpl; auto using transform_equal_ok, transform_unequal_ok;
    try (apply IH in Hx, Hx0; congruence).
  apply IH in Hx. rewrite <- Hx.
  destruct x; simpl; bind_inv; try (apply IH in H0; rewrite H0); simpl; auto.
  1-2: by destruct (expr_calc_value V x1), (expr_calc_value V x2).
  1: by destruct (expr_calc_value V x).
  1-2: by case_bool_decide.
  repeat case_bool_decide; simpl; subst; rewrite ?(ok_no V HV), ?(ok_yes V HV), ?(ok_mod V HV); done.
Qed.

(** *** It returns, in normal form, with fuel linear in the height *)

Definition transforms_to n e r : Prop :=
  expr_transform n e = Some r ∧ nnf r = true.

Lemma transform_equal_nnf l r :
  nnf (transform_equal l r) = true ∧ theight (transform_equal l r) ≤ 2 ∧
  tweight (transform_equal l r) = 2.
Proof. unfold transform_equal. repeat case_bool_decide; simpl; auto. Qed.

Lemma transform_unequal_nnf l r :
  nnf (transform_unequal l r) = true ∧ theight (transform_unequal l r) ≤ 2 ∧
  tweight (transform_unequal l r) = 2.
Proof. unfold transform_unequal. repeat case_bool_decide; simpl; auto. Qed.

(** [r] is in normal form and no larger than [h] and [w]. *)
Definition nnf_within (h w : nat) (r : expr) : Prop :=
  nnf r = true ∧ theight r ≤ h ∧ tweight r ≤ w.

Lemma transform_nnf a n :
  nnf a = true → theight a ≤ n →
  ∃ r, expr_transform n a = Some r ∧ nnf_within (theight a) (tweight a) r.
Proof.
  unfold nnf_within. revert n.
  induction a as [l IHl r IHr|l IHl r IHr|l _|l r|l r| |s|]; intros n Hn Hh; simpl in *;
    try done; (destruct n as [|n]; [lia|]); simpl;
    try (apply andb_true_iff in Hn as [Nl Nr];
      destruct (IHl n Nl ltac:(lia)) as (l' & -> & ? & ? & ?); simpl;
      destruct (IHr n Nr ltac:(lia)) as (r' & -> & ? & ? & ?); simpl;
      eexists; split; [done|]; simpl; rewrite andb_true_iff; repeat split; auto; lia).
  - destruct l; try done. simpl in Hh. destruct n as [|n]; [lia|]. simpl.
    eexists; split; [done|]. repeat case_bool_decide; simpl; auto with lia.
  - pose proof (transform_equal_nnf l r) as (? & ? & ?). eauto 10 with lia.
  - pose proof (transform_unequal_nnf l r) as (? & ? & ?). eauto 10 with lia.
  - eauto 10.
Qed.

(** Pushing a negation into an operand that is already in normal form. *)
Lemma transform_not k : ∀ m l0 l',
  theight l' ≤ k → expr_transform m l0 = Some l' → nnf l' = true → 2 * theight l' ≤ m →
  ∃ r, expr_transform (S m) (E_NOT l0) = Some r ∧ nnf_within (S (theight l')) (tweight l') r.
Proof.
  unfold nnf_within.
  induction k as [|k IH]; intros m l0 l' Hk Hl Hn Hm; [destruct l'; simpl in Hk; lia|].
  cbn [expr_transform]. rewrite Hl. cbn [mbind option_bind].
  assert (Hpush : ∀ x y op, is_op op → nnf x = true → nnf y = true →
    2 * S (theight x `max` theight y) ≤ m → theight x ≤ k → theight y ≤ k →
    ∃ x' y', (l ← expr_transform (pred m) (E_NOT x); r ← expr_transform (pred m) (E_NOT y);
      expr_alloc_two op l r) = expr_alloc_two op x' y' ∧
      (nnf x' = true ∧ theight x' ≤ S (theight x) ∧ tweight x' ≤ tweight x) ∧
      (nnf y' = true ∧ theight y' ≤ S (theight y) ∧ tweight y' ≤ tweight y)).
  { intros x y op Hop Nx Ny Hxy Kx Ky. destruct m as [|[|m]]; [lia..|]. cbn [pred].
    destruct (transform_nnf x m Nx ltac:(lia)) as (x' & Tx & ? & ? & ?).
    destruct (transform_nnf y m Ny ltac:(lia)) as (y' & Ty & ? & ? & ?).
    destruct (IH m x x') as (rx & -> & ? & ? & ?); auto; [lia..|].
    destruct (IH m y y') as (ry & -> & ? & ? & ?); auto; [lia..|].
    exists rx, ry. cbn [mbind option_bind]. repeat split; auto; lia. }
  destruct l' as [x y|x y|x|x y|x y| |s|]; try done; simpl in Hk, Hm, Hn.
  - apply andb_true_iff in Hn as [Nx Ny].
    destruct (Hpush x y T_AND) as (x' & y' & E & (?&?&?) & (?&?&?)); auto; [right; done|lia..|].
    destruct m as [|m]; [lia|]. exists (E_AND x' y'). split; [exact E|].
    simpl. rewrite andb_true_iff. repeat split; auto; lia.
  - apply andb_true_iff in Hn as [Nx Ny].
    destruct (Hpush x y T_OR) as (x' & y' & E & (?&?&?) & (?&?&?)); auto; [left; done|lia..|].
    destruct m as [|m]; [lia|]. exists (E_OR x' y'). split; [exact E|].
    simpl. rewrite andb_true_iff. repeat split; auto; lia.
  - destruct x; try done. destruct m as [|m]; [simpl in *; lia|].
    eexists. split; [done|]. simpl. auto with lia.
  - eexists. split; [done|]. simpl. auto with lia.
  - eexists. split; [done|]. simpl. auto with lia.
  - eexists. split; [done|]. repeat case_bool_decide; simpl; auto with lia.
Qed.

Lemma transform_total e n :
  dep_expr e = true → 2 * theight e ≤ n →
  ∃ r, expr_transform n e = Some r ∧ nnf_within (theight e) (tweight e) r.
Proof.
  unfold nnf_within. revert n.
  induction e as [l IHl r IHr|l IHl r IHr|l IHl|l r|l r| |s|]; intros n Hd Hh; simpl in *;
    try done; (destruct n as [|n]; [lia|]);
    try (simpl; apply andb_true_iff in Hd as [Dl Dr];
      destruct (IHl n Dl ltac:(lia)) as (l' & -> & ? & ? & ?); simpl;
      destruct (IHr n Dr ltac:(lia)) as (r' & -> & ? & ? & ?); simpl;
      eexists; split; [done|]; simpl; rewrite andb_true_iff; repeat split; auto; lia).
  - destruct (IHl n Hd ltac:(lia)) as (l' & Hl & ? & ? & ?).
    destruct (transform_not (theight l') n l l') as (r & -> & ? & ? & ?); auto; [lia|].
    eexists. split; [done|]. repeat split; auto; lia.
  - pose proof (transform_equal_nnf l r) as (? & ? & ?). simpl. eauto 10 with lia.
  - pose proof (transform_unequal_nnf l r) as (? & ? & ?). simpl. eauto 10 with lia.
  - simpl. eauto 10.
Qed.

End Transform.

(** ** Comparing an expression with [y] or [n] *)

(** Every symbol used as an operand has the string value of its tristate
    value: it is boolean, tristate or one of the three constants. *)
Fixpoint logical (V : valuation) (e : expr) : Prop :=
  match e with
  | E_OR l r | E_AND l r => logical V l ∧ logical V r
  | E_NOT l => logical V l
  | E_SYMBOL s => v_str V s = tri_str (v_tri V s)
  | _ => True
  end.

(** The value of "[x] = [c]" or "[x] != [c]". *)
Definition compare_val (type : expr_type) (x c : tristate) : tristate :=
  if bool_decide (x = c) then
    (if bool_decide (type = T_EQUAL) then tri_yes else tri_no)
  else (if bool_decide (type = T_EQUAL) then tri_no else tri_yes).

Lemma trans_compare_spec V e type sym c :
  consts_ok V → (sym = symbol_yes ∧ c = tri_yes ∨ sym = symbol_no ∧ c = tri_no) →
  dep_expr e = true → logical V e → mod_free V e → (type = T_EQUAL ∨ type = T_UNEQUAL) →
  ∃ r, expr_trans_compare e type sym = Some (Some r) ∧ dep_expr r = true ∧
    expr_calc_value V r = compare_val type (expr_calc_value V e) c.
Proof.
  intros HV Hsym. revert type.
  assert (Hstr : v_str V sym = tri_str c) by (destruct HV, Hsym as [[-> ->]|[-> ->]]; auto).
  induction e as [l IHl r IHr|l IHl r IHr|l IHl|l r|l r| |s|];
    intros type Hd Hl Hm Ht; simpl in *; try done.
  1-2: apply andb_true_iff in Hd as [Dl Dr]; destruct Hl as [Ll Lr], Hm as [Ml Mr];
    destruct (IHl T_EQUAL) as (a & -> & Da & Va); auto;
    destruct (IHr T_EQUAL) as (b & -> & Db & Vb); auto; simpl;
    pose proof (calc_mod_free V l Ml); pose proof (calc_mod_free V r Mr);
    eexists; (split; [done|]);
    destruct Hsym as [[-> ->]|[-> ->]], Ht as [-> | ->]; simpl; rewrite Da, Db, Va, Vb;
    (split; [done|]); destruct (expr_calc_value V l), (expr_calc_value V r); done.
  - destruct (IHl (if bool_decide (type = T_EQUAL) then T_UNEQUAL else T_EQUAL))
      as (a & -> & Da & Va); auto; [case_bool_decide; auto|].
    pose proof (calc_mod_free V l Hm). eexists. split; [done|]. split; [done|]. rewrite Va.
    destruct Hsym as [[-> ->]|[-> ->]], Ht as [-> | ->]; by destruct (expr_calc_value V l).
  - destruct Hsym as [[-> ->]|[-> ->]], Ht as [-> | ->]; simpl; eexists; (split; [done|]);
      (split; [done|]); simpl; by case_bool_decide.
  - destruct Hsym as [[-> ->]|[-> ->]], Ht as [-> | ->]; simpl; eexists; (split; [done|]);
      (split; [done|]); simpl; by case_bool_decide.
  - destruct Ht as [-> | ->]; simpl; eexists; (split; [done|]); (split; [done|]); simpl;
      rewrite Hl, Hstr; destruct Hsym as [[-> ->]|[-> ->]]; by destruct (v_tri V s).
Qed.

(** ** The rule [FOO!=n -> FOO] *)

Lemma trans_bool_spec `{SymTab} V e :
  valuation_ok V → nnf e = true →
  (expr_calc_value V (expr_trans_bool e) = tri_no ↔ expr_calc_value V e = tri_no).
Proof.
  intros HV. induction e as [l IHl r IHr|l IHl r IHr|l _|l r|l r| |s|]; intros Hn; simpl in *; try done.
  1-2: apply andb_true_iff in Hn as [Nl Nr]; specialize (IHl Nl); specialize (IHr Nr);
    destruct (expr_calc_value V (expr_trans_bool l)), (expr_calc_value V (expr_trans_bool r)),
      (expr_calc_value V l), (expr_calc_value V r); naive_solver.
  - by destruct l.
  - case_bool_decide as T; [|done]. case_bool_decide; [|done]. subst. simpl.
    rewrite (ok_str V HV l), (ok_str_no V HV) by (by rewrite T).
    by destruct (v_tri V l).
Qed.

(** ** Joining operands *)

Lemma is_equal_to_inv s e : is_equal_to s e = true → ∃ l, e = E_EQUAL l s.
Proof. destruct e; simpl; try done. intros ->%bool_decide_eq_true_1. eauto. Qed.
Lemma is_unequal_to_inv s e : is_unequal_to s e = true → ∃ l, e = E_UNEQUAL l s.
Proof. destruct e; simpl; try done. intros ->%bool_decide_eq_true_1. eauto. Qed.
Lemma is_symbol_inv e : is_symbol e = true → ∃ s, e = E_SYMBOL s.
Proof. destruct e; simpl; try done. eauto. Qed.
Lemma is_not_symbol_inv e : is_not_symbol e = true → ∃ s, e = E_NOT (E_SYMBOL s).
Proof. destruct e as [| |l| | | | |]; simpl; try done. destruct l; eauto; done. Qed.

Lemma either_way_inv P Q e1 e2 :
  either_way P Q e1 e2 = true → (P e1 = true ∧ Q e2 = true) ∨ (Q e1 = true ∧ P e2 = true).
Proof. unfold either_way. rewrite orb_true_iff, !andb_true_iff. done. Qed.

(** Turn the boolean tests of a join rule into the shapes of the operands. *)
Ltac join_inv :=
  repeat match goal with
  | H : (_ && _) = true |- _ => apply andb_true_iff in H as [? ?]
  | H : bool_decide _ = true |- _ => apply bool_decide_eq_true_1 in H
  | H : either_way _ _ _ _ = true |- _ => apply either_way_inv in H as [[? ?]|[? ?]]
  | H : is_equal_to _ _ = true |- _ => apply is_equal_to_inv in H as [? ->]
  | H : is_unequal_to _ _ = true |- _ => apply is_unequal_to_inv in H as [? ->]
  | H : is_symbol _ = true |- _ => apply is_symbol_inv in H as [? ->]
  | H : is_not_symbol _ = true |- _ => apply is_not_symbol_inv in H as [? ->]
  end; simpl in *; simplify_eq; simpl in *.

(** What the two join functions promise: the value of the connective, no
    growth, and no new node of a connective's type. *)
Definition joins (V : valuation) (type : expr_type) (e1 e2 t : expr) : Prop :=
  expr_calc_value V t = op_val type (expr_calc_value V e1) (expr_calc_value V e2) ∧
  (mod_free V e1 → mod_free V e2 → mod_free V t).
Definition join_shape (e1 t : expr) : Prop :=
  dep_expr t = true ∧ esize t ≤ esize e1 ∧ (type_of t = type_of e1 ∨ ¬ is_op (type_of t)).

Lemma joins_same V type n e1 e2 :
  consts_ok V → expr_eq n e1 e2 = Some true → dep_expr e1 = true →
  joins V type e1 e2 e1 ∧ join_shape e1 e1.
Proof.
  intros HV E D. apply (expr_eq_sound_all V) in E; [|done]. split.
  - split; [|done]. rewrite <- E. destruct type; simpl; by destruct (expr_calc_value V e1).
  - repeat split; auto.
Qed.

Section Joins.
Context `{SymTab} (V : valuation) (HV : valuation_ok V).

(** The facts about one bool or tristate symbol that the join rules use. *)
Lemma sym_facts s :
  is_bool_or_tristate (sym_type s) = true → v_str V s = tri_str (v_tri V s).
Proof. apply (ok_str V HV). Qed.

Ltac join_values :=
  repeat split; simpl; auto;
  try match goal with H : is_bool_or_tristate _ = true |- _ => rewrite !(sym_facts _ H) end;
  rewrite ?(ok_str_no V HV), ?(ok_str_yes V HV), ?(ok_str_mod V HV),
    ?(ok_no V HV), ?(ok_yes V HV);
  try (by right; unfold is_op; naive_solver); try lia;
  try match goal with |- context [v_tri V ?s] => destruct (v_tri V s) eqn:? end; try done.

Lemma expr_join_or_spec n e1 e2 t :
  expr_join_or n e1 e2 = Some (Some t) → joins V T_OR e1 e2 t ∧ join_shape e1 t.
Proof.
  unfold expr_join_or. intros J. bind_inv. destruct x.
  { bind_inv. apply expr_copy_Some in Hx0 as [-> D]. eapply joins_same; [apply HV|done..]. }
  injection H0 as J. apply bind_Some in J as (s & S1 & J). apply bind_Some in J as (s2 & S2 & J).
  case_bool_decide; [done|]. simplify_eq.
  destruct (is_bool_or_tristate (sym_type s2)) eqn:T; [|done]. simpl in *.
  repeat match goal with
  | H : (if ?b then _ else _) = Some _ |- _ => destruct b eqn:?; join_inv
  end; try done; unfold joins, join_shape; join_values.
  all: exfalso; eapply (ok_bool V HV); eauto.
Qed.

Lemma join_equal_unequal_spec s b c t :
  join_equal_unequal s b c = Some t →
  (b ≠ c ∧ t = E_EQUAL s b ∧ v_str V b ≠ v_str V c) ∨ (b = c ∧ t = E_SYMBOL symbol_no).
Proof.
  unfold join_equal_unequal. intros J.
  destruct (sym_const c && sym_const b) eqn:K; [|done]. apply andb_true_iff in K as [K1 K2].
  case_bool_decide; simplify_eq; [left|by right].
  simpl in J. simplify_eq. split; [done|]. split; [done|]. intros E. by apply (ok_const V HV) in E.
Qed.

Lemma expr_join_and_tristate_spec s e1 e2 t :
  is_bool_or_tristate (sym_type s) = true → join_sym1 e1 = Some s → join_sym2 e2 = Some s →
  expr_join_and_tristate s e1 e2 = Some t → joins V T_AND e1 e2 t ∧ join_shape e1 t.
Proof.
  unfold expr_join_and_tristate. intros T S1 S2 J.
  match type of J with match ?o with _ => _ end = _ => destruct o as [t'|] eqn:O end.
  - simplify_eq. destruct e1, e2; try done; simpl in S1, S2; simplify_eq;
      apply join_equal_unequal_spec in O as [(?&->&?)|[-> ->]];
      unfold joins, join_shape, is_op; simpl; rewrite ?(ok_no V HV);
      (split; [split; [repeat case_bool_decide; done || congruence|done || congruence]|]);
      repeat split; auto; right; naive_solver.
  - repeat match goal with
    | H : (if ?b then _ else _) = Some _ |- _ => destruct b eqn:?; join_inv
    end; try done; unfold joins, join_shape; join_values.
Qed.

Lemma expr_join_and_spec n e1 e2 t :
  expr_join_and n e1 e2 = Some (Some t) → joins V T_AND e1 e2 t ∧ join_shape e1 t.
Proof.
  unfold expr_join_and. intros J. bind_inv. destruct x.
  { bind_inv. apply expr_copy_Some in Hx0 as [-> D]. eapply joins_same; [apply HV|done..]. }
  injection H0 as J. apply bind_Some in J as (s & S1 & J). apply bind_Some in J as (s2 & S2 & J).
  case_bool_decide; [done|]. simplify_eq.
  destruct (is_bool_or_tristate (sym_type s2)) eqn:T; [|done]. simpl in *.
  repeat match goal with
  | H : (if ?b then _ else _) = Some _ |- _ => destruct b eqn:?; join_inv
  end; try done; try (by eapply expr_join_and_tristate_spec);
    unfold joins, join_shape; join_values.
Qed.

End Joins.

(** The shape of a join does not depend on the values. *)
Lemma join_shape_leaf e1 t : ¬ is_op (type_of t) → dep_expr t = true → esize t = 1 → join_shape e1 t.
Proof. intros ? ? Hs. pose proof (esize_pos e1). split; [done|]. split; [lia|auto]. Qed.

Ltac join_leaf :=
  repeat match goal with
  | H : (if ?b then _ else _) = Some _ |- _ => destruct b
  end; simpl in *; simplify_eq; apply join_shape_leaf; try done; intros [?|?]; done.

Lemma join_shape_same e1 c : expr_copy e1 = Some c → join_shape e1 c.
Proof. intros [-> D]%expr_copy_Some. repeat split; auto. Qed.

Lemma expr_join_or_shape `{SymTab} n e1 e2 t :
  expr_join_or n e1 e2 = Some (Some t) → join_shape e1 t.
Proof.
  unfold expr_join_or. intros J. bind_inv. destruct x; [bind_inv; by apply join_shape_same|].
  injection H0 as J. apply bind_Some in J as (s & S1 & J). apply bind_Some in J as (s2 & S2 & J).
  join_leaf.
Qed.

Lemma expr_join_and_shape `{SymTab} n e1 e2 t :
  expr_join_and n e1 e2 = Some (Some t) → join_shape e1 t.
Proof.
  unfold expr_join_and. intros J. bind_inv. destruct x; [bind_inv; by apply join_shape_same|].
  injection H0 as J. apply bind_Some in J as (s & S1 & J). apply bind_Some in J as (s2 & S2 & J).
  assert (L : ∀ b c, join_equal_unequal s b c = Some t → join_shape e1 t)
    by (unfold join_equal_unequal; intros; join_leaf).
  unfold expr_join_and_tristate in J.
  repeat match goal with
  | H : (if ?b then _ else _) = Some _ |- _ => destruct b
  end; try done; try (simpl in *; simplify_eq; apply join_shape_leaf; try done; intros [?|?]; done).
  destruct e1, e2; simpl in J; try join_leaf;
    destruct (join_equal_unequal s _ _) eqn:E; simplify_eq; eauto; join_leaf.
Qed.

(** The join functions return when the comparison does. *)
Lemma expr_join_or_total `{SymTab} n e1 e2 :
  dep_expr e1 = true → dep_expr e2 = true → 4 * (esize e1 + esize e2) ≤ n →
  ∃ o, expr_join_or n e1 e2 = Some o.
Proof.
  intros D1 D2 Hn. unfold expr_join_or.
  destruct (expr_eq_total_all n e1 e2 D1 D2 Hn) as [[] ->]; simpl; [|eauto].
  rewrite expr_copy_spec, D1. simpl. eauto.
Qed.

Lemma expr_join_and_total `{SymTab} n e1 e2 :
  dep_expr e1 = true → dep_expr e2 = true → 4 * (esize e1 + esize e2) ≤ n →
  ∃ o, expr_join_and n e1 e2 = Some o.
Proof.
  intros D1 D2 Hn. unfold expr_join_and.
  destruct (expr_eq_total_all n e1 e2 D1 D2 Hn) as [[] ->]; simpl; [|eauto].
  rewrite expr_copy_spec, D1. simpl. eauto.
Qed.

(** ** Extraction of common operands *)

(** The value of the extracted expression; nothing extracted is the unit. *)
Definition opt_val (V : valuation) (type : expr_type) (ep : option expr) : tristate :=
  match ep with
  | Some e => expr_calc_value V e
  | None => expr_calc_value V (E_SYMBOL (op_unit type))
  end.

(** [e1] and [e2] both lost [c], and the extracted expression gained it. *)
Definition extracts V type ep e1 e2 ep' e1' e2' : Prop :=
  ∃ c, expr_calc_value V e1 = op_val type c (expr_calc_value V e1') ∧
       expr_calc_value V e2 = op_val type c (expr_calc_value V e2') ∧
       opt_val V type ep' = op_val type (opt_val V type ep) c.

Lemma extracts_refl V type ep e1 e2 :
  consts_ok V → is_op type → extracts V type ep e1 e2 ep e1 e2.
Proof.
  intros HV Ht. exists (expr_calc_value V (E_SYMBOL (op_unit type))).
  rewrite !calc_op_unit by done. by rewrite op_val_comm, calc_op_unit.
Qed.

Lemma extracts_sym V type ep e1 e2 ep' e1' e2' :
  extracts V type ep e1 e2 ep' e1' e2' → extracts V type ep e2 e1 ep' e2' e1'.
Proof. intros (c & ? & ? & ?). by exists c. Qed.

Lemma extracts_left V type ep ep1 ep2 e1 l r l' r' e2 e21 e22 e1' :
  children type e1 = Some (l, r) → children type e1' = Some (l', r') →
  extracts V type ep l e2 ep1 l' e21 → extracts V type ep1 r e21 ep2 r' e22 →
  extracts V type ep e1 e2 ep2 e1' e22.
Proof.
  intros (_&_&_&_&_&H1)%children_Some (_&_&_&_&_&H1')%children_Some
    (c & Hl & H2 & He) (d & Hr & H2' & He').
  exists (op_val type c d). rewrite H1, H1', Hl, Hr, H2, H2', He', He. split_and!.
  - rewrite !op_val_assoc. f_equal. rewrite <- !op_val_assoc. f_equal. apply op_val_comm.
  - by rewrite op_val_assoc.
  - by rewrite op_val_assoc.
Qed.

Lemma extracts_leaf V type ep ep' e1 e2 :
  consts_ok V → is_op type → expr_calc_value V e1 = expr_calc_value V e2 →
  (match ep with Some x => expr_alloc_two type x e1 | None => Some e1 end) = Some ep' →
  extracts V type ep e1 e2 (Some ep') (E_SYMBOL (op_unit type)) (E_SYMBOL (op_unit type)).
Proof.
  intros HV Ht E Hep. exists (expr_calc_value V e1).
  rewrite (op_val_comm type (expr_calc_value V e1)), calc_op_unit, <- E by done. split_and!; auto.
  destruct ep as [x|]; simpl.
  - by apply expr_alloc_two_Some, children_Some in Hep as (_&_&_&_&_&->).
  - simplify_eq. by rewrite (calc_op_unit V type HV Ht).
Qed.

Lemma expr_extract_eq_sound V n type ep e1 e2 ep' e1' e2' :
  consts_ok V → is_op type →
  expr_extract_eq n type ep e1 e2 = Some (ep', e1', e2') →
  extracts V type ep e1 e2 ep' e1' e2'.
Proof.
  intros HV Ht. revert ep e1 e2 ep' e1' e2'.
  induction n as [|n IH]; intros ep e1 e2 ep' e1' e2' Hx; [done|]. simpl in Hx.
  destruct (children type e1) as [[l r]|] eqn:E1.
  { bind_inv. eapply extracts_left; eauto using expr_alloc_two_Some. }
  destruct (children type e2) as [[l r]|] eqn:E2.
  { bind_inv. apply extracts_sym.
    eapply extracts_left; eauto using expr_alloc_two_Some, extracts_sym. }
  bind_inv. destruct x; bind_inv; [|by apply extracts_refl].
  apply (expr_eq_sound_all V) in Hx0; [|done].
  destruct Ht as [-> | ->]; bind_inv; by (eapply extracts_leaf; eauto; red; auto).
Qed.

Lemma expr_extract_eq_total n type : is_op type → ∀ ep e1 e2,
  dep_expr e1 = true → dep_expr e2 = true → 4 * (esize e1 + esize e2) + 1 ≤ n →
  ∃ ep' e1' e2', expr_extract_eq n type ep e1 e2 = Some (ep', e1', e2') ∧
    (dep_expr e1' = true ∧ esize e1' ≤ esize e1) ∧ (dep_expr e2' = true ∧ esize e2' ≤ esize e2).
Proof.
  intros Ht. induction n as [|n IH]; intros ep e1 e2 D1 D2 Hn; [lia|]. simpl.
  destruct (children type e1) as [[l r]|] eqn:E1; [|destruct (children type e2) as [[l r]|] eqn:E2].
  - apply children_Some in E1 as (_&_&Hs&_&Hd&_). rewrite Hd in D1. apply andb_true_iff in D1 as [Dl Dr].
    destruct (IH ep l e2) as (ep1 & l1 & e21 & -> & (?&?) & (?&?)); auto; [lia|]. simpl.
    destruct (IH ep1 r e21) as (ep2 & r1 & e22 & -> & (?&?) & (?&?)); auto; [lia|]. simpl.
    destruct (expr_alloc_two_op type l1 r1 Ht) as [e1' He]. rewrite He. simpl.
    apply expr_alloc_two_Some, children_Some in He as (_&_&Hs'&_&Hd'&_).
    eexists _, _, _. split; [done|]. rewrite Hd', Hs', Hs, andb_true_iff. repeat split; auto; lia.
  - apply children_Some in E2 as (_&_&Hs&_&Hd&_). rewrite Hd in D2. apply andb_true_iff in D2 as [Dl Dr].
    destruct (IH ep e1 l) as (ep1 & e11 & l1 & -> & (?&?) & (?&?)); auto; [lia|]. simpl.
    destruct (IH ep1 e11 r) as (ep2 & e12 & r1 & -> & (?&?) & (?&?)); auto; [lia|]. simpl.
    destruct (expr_alloc_two_op type l1 r1 Ht) as [e2' He]. rewrite He. simpl.
    apply expr_alloc_two_Some, children_Some in He as (_&_&Hs'&_&Hd'&_).
    eexists _, _, _. split; [done|]. rewrite Hd', Hs', Hs, andb_true_iff. repeat split; auto; lia.
  - destruct (expr_eq_total_all n e1 e2) as [b ->]; auto; [lia|]. simpl.
    pose proof (esize_pos e1). pose proof (esize_pos e2).
    destruct b; [|by eauto 10].
    assert (∃ x, match ep with Some x => expr_alloc_two type x e1 | None => Some e1 end = Some x)
      as [x ->] by (destruct ep; eauto using expr_alloc_two_op).
    destruct Ht as [-> | ->]; simpl; eexists _, _, _; (split; [done|]); simpl; auto.
Qed.
