(* ===== verification/KconfigDups.v ===== *)
(** * Kconfig expressions: duplicate elimination

    [expr_eliminate_dups] rewrites a dependency expression in place through
    two aliased pointers until nothing changes. This file proves that it
    returns, that it never grows the expression, and which valuations it
    preserves: all well-typed ones for the first pass, the ones without [m]
    for the second. *)

From S2P Require Import Prelude KconfigExpr KconfigExprSem.
From stdpp Require Import base option list strings.
From Stdlib Require Import ZArith Lia.

(** ** Locations *)

Section Paths.
Implicit Types (p q : list dir) (e x : expr).

Lemma get_at_app p q e : get_at (p ++ q) e = get_at p e ≫= get_at q.
Proof. revert e. induction p as [|[] p IH]; intros e; simpl; [done|destruct e; auto..]. Qed.

Lemma put_at_id p e x : get_at p e = Some x → put_at p x e = e.
Proof.
  revert e. induction p as [|[] p IH]; intros e; simpl; [naive_solver|..];
    destruct e; intros; simplify_eq; f_equal; auto.
Qed.

Lemma get_at_put_at p q e x y : get_at p e = Some y → get_at (p ++ q) (put_at p x e) = get_at q x.
Proof.
  revert e. induction p as [|[] p IH]; intros e; simpl; [done|..];
    destruct e; intros; simplify_eq; simpl; auto.
Qed.

Lemma get_put p e x y : get_at p e = Some y → get_at p (put_at p x e) = Some x.
Proof. intros. rewrite <- (app_nil_r p) at 1. by erewrite get_at_put_at. Qed.

Lemma put_put p e x y : put_at p x (put_at p y e) = put_at p x e.
Proof. revert e. induction p as [|[] p IH]; intros e; simpl; [done|..]; destruct e; simpl; by rewrite ?IH. Qed.

Lemma put_at_app p q e x y :
  get_at p e = Some y → put_at (p ++ q) x e = put_at p (put_at q x y) e.
Proof.
  revert e. induction p as [|[] p IH]; intros e; simpl; [naive_solver|..];
    destruct e; intros; simplify_eq; f_equal; auto.
Qed.

(** Neither location contains the other. *)
Fixpoint disj (p q : list dir) : Prop :=
  match p, q with
  | d :: p, d' :: q => d ≠ d' ∨ (d = d' ∧ disj p q)
  | _, _ => False
  end.

Lemma disj_sym p q : disj p q → disj q p.
Proof. revert q. induction p as [|d p IH]; intros [|d' q]; simpl; naive_solver. Qed.

Lemma get_put_disj p q e x : disj p q → get_at q (put_at p x e) = get_at q e.
Proof.
  revert q e. induction p as [|d p IH]; intros [|d' q] e; simpl; try done.
  destruct d, d', e; try done; simpl; intros [?|[? ?]]; try done; auto.
Qed.

Lemma put_put_disj p q e x y : disj p q → put_at p x (put_at q y e) = put_at q y (put_at p x e).
Proof.
  revert q e. induction p as [|d p IH]; intros [|d' q] e; simpl; try done.
  destruct d, d', e; try done; simpl; intros [?|[? ?]]; try done; by rewrite IH.
Qed.

Lemma dep_get_at p e x : dep_expr e = true → get_at p e = Some x → dep_expr x = true.
Proof.
  revert e. induction p as [|[] p IH]; intros e; simpl; [naive_solver|..];
    destruct e; simpl; rewrite ?andb_true_iff; naive_solver.
Qed.

Lemma dep_put_at p e x : dep_expr e = true → dep_expr x = true → dep_expr (put_at p x e) = true.
Proof.
  revert e. induction p as [|[] p IH]; intros e; simpl; [done|..];
    destruct e; simpl; rewrite ?andb_true_iff; naive_solver.
Qed.

Lemma esize_get_at p e x : get_at p e = Some x → esize x ≤ esize e.
Proof.
  revert e. induction p as [|[] p IH]; intros e; simpl; [naive_solver|..];
    destruct e; simpl; intros E; simplify_eq; apply IH in E; lia.
Qed.

Lemma esize_put_at p e x y :
  get_at p e = Some y → esize (put_at p x e) + esize y = esize e + esize x.
Proof.
  revert e. induction p as [|[] p IH]; intros e; simpl; [intros; simplify_eq; lia|..];
    destruct e; simpl; intros E; simplify_eq; apply IH in E; lia.
Qed.

Lemma calc_put_at V p e x y :
  get_at p e = Some y → expr_calc_value V x = expr_calc_value V y →
  expr_calc_value V (put_at p x e) = expr_calc_value V e.
Proof.
  revert e. induction p as [|[] p IH]; intros e; simpl; [naive_solver|..];
    destruct e; simpl; intros E E'; simplify_eq; by rewrite (IH _ E E').
Qed.

Lemma mod_free_get_at V p e x : mod_free V e → get_at p e = Some x → mod_free V x.
Proof.
  revert e. induction p as [|[] p IH]; intros e; simpl; [naive_solver|..];
    destruct e; simpl; naive_solver.
Qed.

Lemma mod_free_put_at V p e x : mod_free V e → mod_free V x → mod_free V (put_at p x e).
Proof.
  revert e. induction p as [|[] p IH]; intros e; simpl; [done|..];
    destruct e; simpl; naive_solver.
Qed.

(** ** The spine of a connective

    [spine type p e]: every node above the location [p] is a [type] node. *)

Definition child (d : dir) (lr : expr * expr) : expr :=
  match d with DL => lr.1 | DR => lr.2 end.

Fixpoint spine (type : expr_type) (p : list dir) (e : expr) : Prop :=
  match p with
  | [] => True
  | d :: p => ∃ lr, children type e = Some lr ∧ spine type p (child d lr)
  end.

Lemma children_get type e lr d p :
  children type e = Some lr → get_at (d :: p) e = get_at p (child d lr).
Proof. destruct type, e, d; simpl; intros; by simplify_eq. Qed.

Lemma children_put type e l r d p x :
  children type e = Some (l, r) →
  children type (put_at (d :: p) x e) =
    Some (match d with DL => (put_at p x l, r) | DR => (l, put_at p x r) end).
Proof. destruct type, e, d; simpl; intros; by simplify_eq. Qed.

Lemma spine_get type p e : spine type p e → ∃ x, get_at p e = Some x.
Proof.
  revert e. induction p as [|d p IH]; intros e; [by eexists|].
  intros (lr & Hc & Hs). rewrite (children_get _ _ _ _ _ Hc). auto.
Qed.

Lemma spine_app type p q e x :
  get_at p e = Some x → spine type p e → (spine type (p ++ q) e ↔ spine type q x).
Proof.
  revert e. induction p as [|d p IH]; intros e; [simpl; naive_solver|].
  intros Hg (lr & Hc & Hs). rewrite (children_get _ _ _ _ _ Hc) in Hg.
  rewrite <- (IH _ Hg Hs). simpl. rewrite Hc. naive_solver.
Qed.

Lemma spine_prefix type p q e : spine type (p ++ q) e → spine type p e.
Proof. revert e. induction p as [|d p IH]; intros e; simpl; naive_solver. Qed.

(** Two different spine locations whose nodes do not have the spine's type
    are disjoint. *)
Lemma spine_leaves_disj type p q e x y :
  spine type p e → spine type q e → get_at p e = Some x → get_at q e = Some y →
  children type x = None → children type y = None → p ≠ q → disj p q.
Proof.
  revert q e. induction p as [|d p IH]; intros [|d' q] e; simpl; try done.
  - intros _ (lr & Hc & _) ? _ Hn. by simplify_eq.
  - intros (lr & Hc & _) _ _ ? _ Hn. by simplify_eq.
  - intros (lr & Hc & Hs) (lr' & Hc' & Hs') Hx Hy Nx Ny Hne. simplify_eq.
    change (get_at (d :: p) e = Some x) in Hx. change (get_at (d' :: q) e = Some y) in Hy.
    rewrite (children_get _ _ _ _ _ Hc) in Hx. rewrite (children_get _ _ _ _ _ Hc) in Hy.
    destruct (decide (d = d')) as [->|]; [right|by left]. split; [done|].
    eapply IH; eauto. congruence.
Qed.

(** Replacing a spine operand: the rest of the spine contributes the value it
    has when the operand is the unit. *)
Lemma calc_spine_put V type p e x :
  consts_ok V → is_op type → spine type p e →
  expr_calc_value V (put_at p x e) =
  op_val type (expr_calc_value V (put_at p (E_SYMBOL (op_unit type)) e)) (expr_calc_value V x).
Proof.
  intros HV Ht. revert e. induction p as [|d p IH]; intros e.
  { intros _. change (put_at [] ?z e) with z. by rewrite calc_op_unit. }
  intros ([l r] & Hc & Hs).
  pose proof (children_put type e l r d p x Hc) as Hx.
  pose proof (children_put type e l r d p (E_SYMBOL (op_unit type)) Hc) as Hu.
  destruct d; apply children_Some in Hx as (_&_&_&_&_&->), Hu as (_&_&_&_&_&->).
  - rewrite IH by done. rewrite <- !op_val_assoc. f_equal. apply op_val_comm.
  - rewrite IH by done. by rewrite op_val_assoc.
Qed.

(** The operand is one factor of the value of the spine. *)
Lemma calc_spine_get V type p e x :
  consts_ok V → is_op type → spine type p e → get_at p e = Some x →
  expr_calc_value V e =
  op_val type (expr_calc_value V (put_at p (E_SYMBOL (op_unit type)) e)) (expr_calc_value V x).
Proof.
  intros HV Ht Hs Hg. rewrite <- calc_spine_put by done. by rewrite put_at_id.
Qed.

Lemma spine_put_leaf type p q e x y :
  spine type p e → get_at p e = Some y → children type y = None → children type x = None →
  (spine type q (put_at p x e) ↔ spine type q e).
Proof.
  revert q e. induction p as [|d p IH]; intros q e.
  - intros _ Hy Ny Nx. simpl in *. simplify_eq. destruct q; simpl; [done|]. rewrite Ny, Nx. naive_solver.
  - intros ([l r] & Hc & Hs) Hg Ny Nx. rewrite (children_get _ _ _ _ _ Hc) in Hg.
    destruct q as [|d' q]; [done|]. cbn [spine].
    rewrite (children_put _ _ _ _ _ _ _ Hc), Hc.
    specialize (IH q _ Hs Hg Ny Nx).
    split; intros (lr & ? & Hq); simplify_eq; (eexists; split; [done|]);
      destruct d, d'; simpl in *; tauto.
Qed.

(** Two spine leaves replaced by two expressions with the same joint value. *)
Lemma calc_spine_put2 V type p q e x y x' y' :
  consts_ok V → is_op type → spine type p e → spine type q e → disj p q →
  get_at p e = Some x → get_at q e = Some y →
  children type x = None → children type y = None → children type x' = None →
  op_val type (expr_calc_value V x') (expr_calc_value V y') =
    op_val type (expr_calc_value V x) (expr_calc_value V y) →
  expr_calc_value V (put_at q y' (put_at p x' e)) = expr_calc_value V e.
Proof.
  intros HV Ht Sp Sq D Gp Gq Nx Ny Nx' E.
  set (u := E_SYMBOL (op_unit type)).
  assert (K : ∀ a b, children type a = None →
    expr_calc_value V (put_at q b (put_at p a e)) =
    op_val type (expr_calc_value V (put_at p u (put_at q u e)))
      (op_val type (expr_calc_value V a) (expr_calc_value V b))).
  { intros a b Na. rewrite (calc_spine_put V type q) by (done || by eapply spine_put_leaf).
    rewrite put_put_disj by (by apply disj_sym).
    rewrite (calc_spine_put V type p (put_at q _ e)); [by rewrite op_val_assoc|done..|].
    eapply spine_put_leaf; eauto. by destruct type. }
  rewrite K, E, <- K by done. rewrite (put_at_id p) by done. by rewrite put_at_id.
Qed.
End Paths.

(** ** Both passes work below the locations they are given *)

(** The result of a pass on the subexpression at [q], put back in place. *)
Definition at_path (q : list dir) (root : expr) (st : dstate) : dstate :=
  (st.1, put_at q st.2 root).

Section Passes.
Context `{SymTab}.

Lemma get_at_path q p root sub st :
  get_at q root = Some sub → get_at (q ++ p) (at_path q root st).2 = get_at p st.2.
Proof. intros. unfold at_path. simpl. by erewrite get_at_put_at. Qed.

Lemma at_path_at_path q root sub st st' :
  get_at q root = Some sub → at_path q (at_path q root st).2 st' = at_path q root st'.
Proof. intros. unfold at_path. simpl. by rewrite put_put. Qed.

Lemma fmap_bind_option {A B C} (f : B → C) (g : A → option B) (o : option A) :
  f <$> (o ≫= g) = o ≫= λ a, f <$> g a.
Proof. by destruct o. Qed.

Lemma decide_app_path {A} (q p1 p2 : list dir) (a b : A) :
  (if bool_decide (q ++ p1 = q ++ p2) then a else b) = (if bool_decide (p1 = p2) then a else b).
Proof. repeat case_bool_decide; simplify_list_eq; congruence. Qed.

Lemma dups1_join_local n type p1 p2 q root sub st :
  get_at q root = Some sub →
  dups1_join n type (q ++ p1) (q ++ p2) (at_path q root st) =
  at_path q root <$> dups1_join n type p1 p2 st.
Proof.
  intros Hq. unfold dups1_join. erewrite !get_at_path by done.
  destruct (get_at p1 st.2) as [e1|]; [|done].
  destruct (get_at p2 st.2) as [e2|]; [|done]. cbn [mbind option_bind].
  assert (P : ∀ x y, put_at (q ++ p2) y (put_at (q ++ p1) x (at_path q root st).2) =
    put_at q (put_at p2 y (put_at p1 x st.2)) root).
  { intros x y. unfold at_path. simpl. erewrite (put_at_app q p1) by (by eapply get_put).
    rewrite put_put. erewrite (put_at_app q p2) by (by eapply get_put). by rewrite put_put. }
  destruct type; try done.
  - destruct (expr_join_or n e1 e2) as [[t|]|]; [|done..]. simpl. by rewrite P.
  - destruct (expr_join_and n e1 e2) as [[t|]|]; [|done..]. simpl. by rewrite P.
Qed.

Lemma dups1_local n : ∀ type p1 p2 q tc root sub,
  get_at q root = Some sub →
  expr_eliminate_dups1 n type (q ++ p1) (q ++ p2) (tc, root) =
  at_path q root <$> expr_eliminate_dups1 n type p1 p2 (tc, sub).
Proof.
  induction n as [|n IH]; intros type p1 p2 q tc root sub Hq; [done|].
  assert (IH' : ∀ type p1 p2 st, expr_eliminate_dups1 n type (q ++ p1) (q ++ p2) (at_path q root st) =
    at_path q root <$> expr_eliminate_dups1 n type p1 p2 st).
  { intros ??? [tc' s]. unfold at_path at 1. simpl.
    rewrite (IH _ _ _ q tc' (put_at q s root) s) by (by eapply get_put).
    destruct (expr_eliminate_dups1 _ _ _ _ _) as [[??]|]; simpl; [|done].
    unfold at_path. simpl. by rewrite put_put. }
  assert (E0 : (tc, root) = at_path q root (tc, sub)) by (unfold at_path; simpl; by rewrite put_at_id).
  rewrite E0. clear E0 IH. cbn [expr_eliminate_dups1].
  erewrite !get_at_path by done. simpl (snd (tc, sub)).
  destruct (get_at p1 sub) as [e1|] eqn:E1; [|done]. cbn [mbind option_bind].
  destruct (get_at p2 sub) as [e2|]; [|done]. cbn [mbind option_bind].
  rewrite <- !app_assoc.
  destruct (has_children type e1); [|destruct (has_children type e2)].
  1-2: rewrite IH', fmap_bind_option;
    destruct (expr_eliminate_dups1 n type _ _ (tc, sub)) as [st|]; [|done];
    cbn [mbind option_bind fmap option_fmap option_map]; by rewrite IH'.
  rewrite decide_app_path. case_bool_decide; [done|].
  rewrite fmap_bind_option.
  destruct (type_of e1); cbn [mbind option_bind]; try (by eapply dups1_join_local);
    rewrite IH'; destruct (expr_eliminate_dups1 n _ p1 p1 (tc, sub)) as [st|]; try done;
    cbn [mbind option_bind fmap option_fmap option_map]; by eapply dups1_join_local.
Qed.

Lemma dups2_or_local n p1 p2 q root sub st :
  get_at q root = Some sub →
  dups2_or n (q ++ p1) (q ++ p2) (at_path q root st) = at_path q root <$> dups2_or n p1 p2 st.
Proof.
  intros Hq. unfold dups2_or. erewrite !get_at_path by done.
  destruct (get_at p1 st.2) as [e1|]; [|done]. cbn [mbind option_bind].
  destruct (get_at p2 st.2) as [e2|]; [|done]. cbn [mbind option_bind].
  destruct (expr_copy e1); [|done]. cbn [mbind option_bind].
  destruct (expr_transform n _); [|done]. cbn [mbind option_bind].
  destruct (expr_copy e2); [|done]. cbn [mbind option_bind].
  destruct (expr_extract_eq_and n _ _) as [[[??]?]|]; [|done]. cbn [mbind option_bind].
  destruct (expr_is_yes _); [|done]. simpl. unfold at_path. simpl.
  erewrite (put_at_app q p1) by (by eapply get_put). by rewrite put_put.
Qed.

Lemma dups2_and_local n p1 p2 q root sub st :
  get_at q root = Some sub →
  dups2_and n (q ++ p1) (q ++ p2) (at_path q root st) = at_path q root <$> dups2_and n p1 p2 st.
Proof.
  intros Hq. unfold dups2_and. erewrite !get_at_path by done.
  destruct (get_at p1 st.2) as [e1|]; [|done]. cbn [mbind option_bind].
  destruct (get_at p2 st.2) as [e2|]; [|done]. cbn [mbind option_bind].
  destruct (expr_copy e1); [|done]. cbn [mbind option_bind].
  destruct (expr_transform n _); [|done]. cbn [mbind option_bind].
  destruct (expr_copy e2); [|done]. cbn [mbind option_bind].
  destruct (expr_extract_eq_or n _ _) as [[[??]?]|]; [|done]. cbn [mbind option_bind].
  destruct (expr_is_no _); [|done]. simpl. unfold at_path. simpl.
  erewrite (put_at_app q p1) by (by eapply get_put). by rewrite put_put.
Qed.

Lemma dups2_local n : ∀ type p1 p2 q tc root sub,
  get_at q root = Some sub →
  expr_eliminate_dups2 n type (q ++ p1) (q ++ p2) (tc, root) =
  at_path q root <$> expr_eliminate_dups2 n type p1 p2 (tc, sub).
Proof.
  induction n as [|n IH]; intros type p1 p2 q tc root sub Hq; [done|].
  assert (IH' : ∀ type p1 p2 st, expr_eliminate_dups2 n type (q ++ p1) (q ++ p2) (at_path q root st) =
    at_path q root <$> expr_eliminate_dups2 n type p1 p2 st).
  { intros ??? [tc' s]. unfold at_path at 1. simpl.
    rewrite (IH _ _ _ q tc' (put_at q s root) s) by (by eapply get_put).
    destruct (expr_eliminate_dups2 _ _ _ _ _) as [[??]|]; simpl; [|done].
    unfold at_path. simpl. by rewrite put_put. }
  assert (E0 : (tc, root) = at_path q root (tc, sub)) by (unfold at_path; simpl; by rewrite put_at_id).
  rewrite E0. clear E0 IH. cbn [expr_eliminate_dups2].
  erewrite !get_at_path by done. simpl (snd (tc, sub)).
  destruct (get_at p1 sub) as [e1|] eqn:E1; [|done]. cbn [mbind option_bind].
  destruct (get_at p2 sub) as [e2|]; [|done]. cbn [mbind option_bind].
  rewrite <- !app_assoc.
  destruct (has_children type e1).
  { rewrite IH', fmap_bind_option.
    destruct (expr_eliminate_dups2 n type _ _ (tc, sub)) as [st|]; [|done].
    cbn [mbind option_bind fmap option_fmap option_map]. by rewrite IH'. }
  rewrite fmap_bind_option.
  match goal with |- ?a ≫= _ = ?b ≫= _ => assert (Hab : a = at_path q root <$> b) end.
  { destruct (has_children type e2); [|done].
    rewrite IH', fmap_bind_option.
    destruct (expr_eliminate_dups2 n type _ _ (tc, sub)) as [st|]; [|done].
    cbn [mbind option_bind fmap option_fmap option_map]. by rewrite IH'. }
  rewrite Hab. clear Hab.
  match goal with |- (_ <$> ?b) ≫= _ = _ => destruct b as [st|]; [|done] end.
  cbn [mbind option_bind fmap option_fmap option_map].
  rewrite decide_app_path. case_bool_decide; [done|].
  erewrite !get_at_path by done.
  destruct (get_at p1 st.2) as [e1'|]; [|done]. cbn [mbind option_bind].
  destruct (type_of e1'); try done; rewrite IH', fmap_bind_option;
    (destruct (expr_eliminate_dups2 n _ p1 p1 st) as [st'|]; [|done]);
    cbn [mbind option_bind fmap option_fmap option_map];
    by first [eapply dups2_or_local | eapply dups2_and_local].
Qed.
(** ** What one step of a pass guarantees *)

(** A connective with a constant operand, which constant folding removes. *)
Fixpoint redex (e : expr) : bool :=
  match e with
  | E_OR l r | E_AND l r =>
      redex l || redex r || expr_is_yes (Some l) || expr_is_no (Some l) ||
      expr_is_yes (Some r) || expr_is_no (Some r)
  | _ => false
  end.

Lemma redex_shrinks e : redex e = true → esize (expr_eliminate_yn e) < esize e.
Proof.
  induction e as [l IHl r IHr|l IHl r IHr| | | | | |]; simpl; try done; intros R;
    pose proof (esize_eliminate_yn l); pose proof (esize_eliminate_yn r);
    pose proof (esize_pos l); pose proof (esize_pos r);
    yn_cases; simpl; try lia;
    repeat rewrite orb_true_iff in R;
    destruct R as [[[[[R|R]|R]|R]|R]|R];
    first [apply IHl in R; lia | apply IHr in R; lia
      | first [apply expr_is_yes_Some in R|apply expr_is_no_Some in R]; subst;
        unfold expr_is_yes, expr_is_no in *; simpl in *; done].
Qed.

Lemma redex_get_at p d e s :
  get_at (p ++ [d]) e = Some (E_SYMBOL s) → s = symbol_yes ∨ s = symbol_no → redex e = true.
Proof.
  revert e. induction p as [|d' p IH]; intros e; simpl.
  - intros G Hs. destruct d, e as [l r|l r| | | | | |]; simplify_eq;
      destruct Hs as [-> | ->]; simpl; unfold expr_is_yes, expr_is_no;
      rewrite ?orb_true_r; simpl; rewrite ?orb_true_r; done.
  - intros G Hs. destruct d', e as [l r|l r| | | | | |]; simplify_eq; simpl;
      rewrite (IH _ G Hs); by rewrite ?orb_true_r.
Qed.

(** All operands on the spine have at most [B] nodes. *)
Definition leaves_le (B : nat) (type : expr_type) (e : expr) : Prop :=
  ∀ p x, spine type p e → get_at p e = Some x → children type x = None → esize x ≤ B.

Lemma leaves_le_put B type p e x y :
  spine type p e → get_at p e = Some y → children type y = None → children type x = None →
  esize x ≤ B → leaves_le B type e → leaves_le B type (put_at p x e).
Proof.
  intros Hs Hg Hn Hn' Hx L q z Hq Gq Nz. rewrite (spine_put_leaf type p q e x y) in Hq by done.
  destruct (decide (q = p)) as [->|Hne].
  { erewrite get_put in Gq by done. by simplify_eq. }
  destruct (spine_get _ _ _ Hq) as [w Gw].
  destruct (children type w) as [lr|] eqn:Nw.
  - (* an inner node of the spine: it keeps its operands *)
    exfalso. assert (spine type (q ++ [DL]) (put_at p x e)) as Hq'.
    { eapply spine_put_leaf; [done..|]. eapply spine_app; eauto. simpl. eauto. }
    assert (spine type q (put_at p x e)) as Hq2 by (by eapply spine_put_leaf).
    eapply (spine_app type q [DL]) in Hq'; eauto. simpl in Hq'. naive_solver.
  - assert (disj p q) as Hd by (eapply spine_leaves_disj; eauto).
    rewrite get_put_disj in Gq by done. eauto.
Qed.

(** A property of valuations that the subexpressions inherit and that
    replacing a subexpression keeps. *)
Class Hereditary (P : valuation → expr → Prop) := {
  hered_get V p e x : P V e → get_at p e = Some x → P V x;
  hered_put V p e x : P V e → P V x → P V (put_at p x e);
  hered_const V s : consts_ok V → s = symbol_yes ∨ s = symbol_no → P V (E_SYMBOL s);
  hered_join V type e1 e2 t : joins V type e1 e2 t → P V e1 → P V e2 → P V t;
}.

#[export] Instance Hereditary_True : Hereditary (λ _ _, True).
Proof. by split. Qed.

#[export] Instance Hereditary_mod_free : Hereditary mod_free.
Proof.
  split; [intros; by eapply mod_free_get_at|intros; by apply mod_free_put_at|..].
  - intros V s HV [-> | ->]; simpl; rewrite ?(ok_yes V HV), ?(ok_no V HV); done.
  - intros V type e1 e2 t [_ Hm]. exact Hm.
Qed.

(** From [(tc, e)] to [(tc', e')] along the spine of [type]: the value is kept
    for the valuations that satisfy [P], the spine keeps its shape, nothing
    grows, and a counted change leaves a constant operand behind. *)
Record step_ok (P : valuation → expr → Prop) (type : expr_type)
    (tc : Z) (e : expr) (tc' : Z) (e' : expr) : Prop := {
  so_val V : valuation_ok V → P V e → expr_calc_value V e' = expr_calc_value V e ∧ P V e';
  so_dep : dep_expr e = true → dep_expr e' = true;
  so_size : esize e' ≤ esize e;
  so_spine p : spine type p e' ↔ spine type p e;
  so_leaves B : leaves_le B type e → leaves_le B type e';
  so_count : (tc' = tc ∧ e' = e) ∨ (tc < tc' ∧ redex e' = true)%Z;
}.

Section StepOk.
Context (P : valuation → expr → Prop) `{!Hereditary P}.

Lemma step_ok_refl type tc e : step_ok P type tc e tc e.
Proof. split; auto; done. Qed.

Lemma step_ok_trans type tc e tc1 e1 tc2 e2 :
  step_ok P type tc e tc1 e1 → step_ok P type tc1 e1 tc2 e2 → step_ok P type tc e tc2 e2.
Proof.
  intros [V1 D1 S1 Sp1 L1 C1] [V2 D2 S2 Sp2 L2 C2]. split.
  - intros V HV HP. destruct (V1 V HV HP) as [E1 HP1]. destruct (V2 V HV HP1) as [E2 HP2].
    split; [congruence|done].
  - auto.
  - lia.
  - intros p. by rewrite Sp2, Sp1.
  - auto.
  - destruct C1 as [[-> ->]|[? ?]], C2 as [[-> ->]|[? ?]]; auto; right; split; auto; lia.
Qed.

(** A step on an operand of another connective is a step on the whole. *)
Lemma step_ok_sub type type' p sub tc e tc' sub' :
  is_op type' → spine type p e → get_at p e = Some sub → children type sub = None →
  children type sub' = None → step_ok P type' tc sub tc' sub' →
  step_ok P type tc e tc' (put_at p sub' e).
Proof.
  intros Ht Hs Hg Hn Hn' [V1 D1 S1 Sp1 L1 C1]. split.
  - intros V HV HP. destruct (V1 V HV) as [E HP']; [by eapply hered_get|].
    split; [by eapply calc_put_at|by apply hered_put].
  - intros D. apply dep_put_at; [done|]. apply D1. by eapply dep_get_at.
  - pose proof (esize_put_at p e sub' sub Hg). lia.
  - intros q. by eapply spine_put_leaf.
  - intros B L. eapply leaves_le_put; eauto. specialize (L p sub Hs Hg Hn). lia.
  - destruct C1 as [[-> ->]|[? R]]; [left; split; [done|by apply put_at_id]|right].
    split; [done|]. clear -R Hg. revert e Hg.
    induction p as [|d p IH]; intros e Hg; simpl in *; [done|].
    destruct d, e; simplify_eq; simpl; rewrite (IH _ Hg); by rewrite ?orb_true_r.
Qed.

Lemma children_join type x t :
  is_op type → children type x = None → join_shape x t → children type t = None.
Proof.
  intros Ht Hx (_ & _ & Hty). apply children_None_type in Hx; [|done].
  destruct (children type t) as [[l r]|] eqn:E; [|done].
  apply children_Some in E as (_&_&_&E&_). destruct Hty as [Hty|Hty]; [congruence|].
  exfalso. apply Hty. by rewrite E.
Qed.

(** A spine location with an operand, when there is another one, has a parent. *)
Lemma spine_leaf_parent type p q e x :
  spine type q e → get_at p e = Some x → children type x = None → q ≠ p →
  ∃ p' d, p = p' ++ [d].
Proof.
  intros Hq Hg Hn Hne. destruct p as [|d p'] using rev_ind; [|by eauto].
  simpl in Hg. simplify_eq. destruct q; simpl in Hq; [done|]. naive_solver.
Qed.

Lemma step_ok_join type p1 p2 e x1 x2 t tc :
  is_op type → spine type p1 e → spine type p2 e → p1 ≠ p2 →
  get_at p1 e = Some x1 → get_at p2 e = Some x2 →
  children type x1 = None → children type x2 = None →
  (∀ V, valuation_ok V → joins V type x1 x2 t) → join_shape x1 t →
  step_ok P type tc e (tc + 1)%Z (put_at p2 t (put_at p1 (E_SYMBOL (op_unit type)) e)).
Proof.
  intros Ht S1 S2 Hne G1 G2 N1 N2 Hj Hsh.
  pose proof (children_join type x1 t Ht N1 Hsh) as Nt. destruct Hsh as (Dt & St & _).
  assert (Hd : disj p1 p2) by (eapply spine_leaves_disj; eauto).
  assert (Nu : children type (E_SYMBOL (op_unit type)) = None) by (by destruct type).
  set (e1 := put_at p1 (E_SYMBOL (op_unit type)) e).
  assert (S2' : spine type p2 e1) by (by eapply spine_put_leaf).
  assert (G2' : get_at p2 e1 = Some x2) by (by unfold e1; rewrite get_put_disj).
  assert (Hu : ∀ V, consts_ok V → P V (E_SYMBOL (op_unit type))).
  { intros V HV. apply hered_const; [done|]. destruct Ht as [-> | ->]; auto. }
  split.
  - intros V HV HPe. destruct (Hj V HV) as [Ev _]. split.
    + eapply calc_spine_put2; eauto; [apply HV|]. rewrite calc_op_unit by (done || apply HV). done.
    + apply hered_put; [apply hered_put; [done|apply Hu, HV]|].
      eapply hered_join; [by apply Hj|by eapply hered_get..].
  - intros D. apply dep_put_at; [|done]. by apply dep_put_at.
  - pose proof (esize_put_at p2 e1 t x2 G2').
    pose proof (esize_put_at p1 e (E_SYMBOL (op_unit type)) x1 G1) as E1. fold e1 in E1.
    pose proof (esize_pos x2). simpl in E1. lia.
  - intros q. rewrite (spine_put_leaf type p2 q e1 t x2) by done. by eapply spine_put_leaf.
  - intros B L. pose proof (L p1 x1 S1 G1 N1). pose proof (esize_pos x1).
    eapply leaves_le_put; eauto; [lia|]. eapply leaves_le_put; eauto. simpl. lia.
  - right. split; [lia|].
    destruct (spine_leaf_parent type p1 p2 e x1) as (p' & d & Hp); auto.
    eapply (redex_get_at p' d).
    + rewrite <- Hp, get_put_disj by (by apply disj_sym). unfold e1. by erewrite get_put.
    + destruct Ht as [-> | ->]; simpl; auto.
Qed.

(** The constant that absorbs the connective. *)
Definition op_zero (type : expr_type) : symp :=
  match type with T_OR => symbol_yes | _ => symbol_no end.

Lemma step_ok_kill type p1 p2 e x1 tc :
  is_op type → spine type p1 e → spine type p2 e → p1 ≠ p2 →
  get_at p1 e = Some x1 → children type x1 = None →
  (∀ V, valuation_ok V → P V e →
    expr_calc_value V e = expr_calc_value V (E_SYMBOL (op_zero type))) →
  step_ok P type tc e (tc + 1)%Z (put_at p1 (E_SYMBOL (op_zero type)) e).
Proof.
  intros Ht S1 S2 Hne G1 N1 Hz.
  assert (Nu : children type (E_SYMBOL (op_zero type)) = None) by (by destruct type).
  assert (Hc : op_zero type = symbol_yes ∨ op_zero type = symbol_no)
    by (destruct Ht as [-> | ->]; auto).
  split.
  - intros V HV HPe. split.
    + rewrite (calc_spine_put V type), Hz by (done || apply HV). simpl.
      destruct Ht as [-> | ->]; simpl; rewrite ?(ok_yes V HV), ?(ok_no V HV);
        match goal with |- context [expr_calc_value V ?x] => by destruct (expr_calc_value V x) end.
    + apply hered_put; [done|]. apply hered_const; [apply HV|done].
  - intros D. by apply dep_put_at.
  - pose proof (esize_put_at p1 e (E_SYMBOL (op_zero type)) x1 G1) as E1.
    pose proof (esize_pos x1). simpl in E1. lia.
  - intros q. by eapply spine_put_leaf.
  - intros B L. pose proof (L p1 x1 S1 G1 N1). pose proof (esize_pos x1).
    eapply leaves_le_put; eauto. simpl. lia.
  - right. split; [lia|].
    destruct (spine_leaf_parent type p1 p2 e x1) as (p' & d & Hp); auto.
    eapply (redex_get_at p' d); [|done]. rewrite <- Hp. by erewrite get_put.
Qed.

(** *** The first pass *)

Lemma has_children_true type e :
  has_children type e = true → ∃ lr, children type e = Some lr.
Proof. unfold has_children. destruct (children type e); [eauto|done]. Qed.
Lemma has_children_false type e : has_children type e = false → children type e = None.
Proof. unfold has_children. by destruct (children type e). Qed.

Lemma spine_child type p d e x :
  spine type p e → get_at p e = Some x → has_children type x = true → spine type (p ++ [d]) e.
Proof.
  intros Hs Hg (lr & Hc)%has_children_true. eapply spine_app; [done..|]. simpl. eauto.
Qed.

(** A step on the spine of a connective keeps the connective at its root. *)
Lemma step_ok_type type tc e tc' e' :
  is_op type → type_of e = type → step_ok P type tc e tc' e' → type_of e' = type.
Proof.
  intros Ht T Hst. destruct (type_of_op e type Ht T) as (l & r & Hc).
  assert (spine type [DL] e') as (lr & Hc' & _).
  { apply (so_spine _ _ _ _ _ _ Hst). simpl. eauto. }
  destruct lr. by apply children_Some in Hc' as (_&_&_&?&_).
Qed.

Lemma step_ok_call type tc e tc1 e1 tc' e' p1 p2 :
  step_ok P type tc e tc1 e1 →
  (spine type p1 e1 → spine type p2 e1 → step_ok P type tc1 e1 tc' e') →
  spine type p1 e → spine type p2 e → step_ok P type tc e tc' e'.
Proof.
  intros Hst Hk S1 S2. eapply step_ok_trans; [done|].
  apply Hk; by apply (so_spine _ _ _ _ _ _ Hst).
Qed.

(** A nested pass on the operand at [p1], whose connective differs. *)
Lemma step_ok_nested type p1 root e1 tc st1 (f : list dir → list dir → dstate → option dstate) :
  (∀ q tc root sub, get_at q root = Some sub →
    f q q (tc, root) = at_path q root <$> f [] [] (tc, sub)) →
  (∀ tc e tc' e', f [] [] (tc, e) = Some (tc', e') → step_ok P (type_of e1) tc e tc' e') →
  is_op (type_of e1) → spine type p1 root → get_at p1 root = Some e1 → children type e1 = None →
  f p1 p1 (tc, root) = Some st1 →
  ∃ tc1 e1', st1 = (tc1, put_at p1 e1' root) ∧ children type e1' = None ∧
    type_of e1' = type_of e1 ∧ step_ok P type tc root tc1 (put_at p1 e1' root).
Proof.
  intros Hloc Hstep Hop S1 G1 N1 Hf. rewrite (Hloc _ _ _ _ G1) in Hf.
  destruct (f [] [] (tc, e1)) as [[tc1 e1']|] eqn:Hf1; [|done]. simpl in Hf. simplify_eq.
  apply Hstep in Hf1. pose proof (step_ok_type _ _ _ _ _ Hop eq_refl Hf1) as T1.
  assert (N1' : children type e1' = None).
  { destruct (children type e1') as [[l r]|] eqn:E; [|done].
    apply children_Some in E as (Hop' & _ & _ & T & _).
    apply children_None_type in N1; [|done]. congruence. }
  eexists _, _. split; [done|]. split; [done|]. split; [done|].
  by eapply step_ok_sub.
Qed.

Lemma dups1_join_spec n type p1 p2 tc root tc' root' e1 e2 :
  is_op type → spine type p1 root → spine type p2 root → p1 ≠ p2 →
  get_at p1 root = Some e1 → get_at p2 root = Some e2 →
  children type e1 = None → children type e2 = None →
  dups1_join n type p1 p2 (tc, root) = Some (tc', root') → step_ok P type tc root tc' root'.
Proof.
  intros Ht S1 S2 Hne G1 G2 N1 N2 J. unfold dups1_join in J. simpl in J.
  rewrite G1, G2 in J. simpl in J.
  destruct Ht as [-> | ->]; bind_inv; destruct x as [t|]; bind_inv; try apply step_ok_refl.
  - eapply (step_ok_join T_OR); eauto using expr_join_or_shape; [red; auto|].
    intros V HV. by apply (expr_join_or_spec V HV) in Hx as [? _].
  - eapply (step_ok_join T_AND); eauto using expr_join_and_shape; [red; auto|].
    intros V HV. by apply (expr_join_and_spec V HV) in Hx as [? _].
Qed.

Lemma dups1_spec n : ∀ type p1 p2 tc root tc' root',
  is_op type → spine type p1 root → spine type p2 root →
  expr_eliminate_dups1 n type p1 p2 (tc, root) = Some (tc', root') →
  step_ok P type tc root tc' root'.
Proof.
  induction n as [|n IH]; intros type p1 p2 tc root tc' root' Ht S1 S2 Hd; [done|].
  cbn [expr_eliminate_dups1] in Hd. simpl (snd (tc, root)) in Hd.
  destruct (get_at p1 root) as [e1|] eqn:G1; [|done]. cbn [mbind option_bind] in Hd.
  destruct (get_at p2 root) as [e2|] eqn:G2; [|done]. cbn [mbind option_bind] in Hd.
  destruct (has_children type e1) eqn:C1; [|destruct (has_children type e2) eqn:C2].
  - apply bind_Some in Hd as ([tc1 root1] & Hd1 & Hd2).
    eapply step_ok_call; [eapply (IH _ (p1 ++ [DL])); eauto using spine_child| |
      eapply (spine_child type p1 DR); eauto | exact S2]. eauto.
  - apply bind_Some in Hd as ([tc1 root1] & Hd1 & Hd2).
    eapply step_ok_call; [eapply (IH _ p1 (p2 ++ [DL])); eauto using spine_child| |
      exact S1 | eapply (spine_child type p2 DR); eauto]. eauto.
  - apply has_children_false in C1, C2.
    case_bool_decide as Hne; [simplify_eq; apply step_ok_refl|].
    apply bind_Some in Hd as ([tc1 root1] & Hd1 & Hd2).
    assert (∃ e1', children type e1' = None ∧ root1 = put_at p1 e1' root ∧
      step_ok P type tc root tc1 root1) as (e1' & C1' & -> & Hst).
    { assert (Hnest : is_op (type_of e1) →
        expr_eliminate_dups1 n (type_of e1) p1 p1 (tc, root) = Some (tc1, root1) →
        ∃ e1', children type e1' = None ∧ root1 = put_at p1 e1' root ∧
          step_ok P type tc root tc1 root1).
      { intros Hop Hn1.
        destruct (step_ok_nested type p1 root e1 tc (tc1, root1)
          (expr_eliminate_dups1 n (type_of e1))) as (? & e1' & ? & ? & ? & ?);
          eauto; [| |simplify_eq; eauto].
        - intros q tc2 r2 sub Hq. rewrite <- (app_nil_r q) at 1 2. by apply dups1_local.
        - intros. eapply (IH _ [] []); eauto; done. }
      destruct (type_of e1); try (by apply Hnest; [red; auto|]);
        simplify_eq; exists e1; repeat split; auto using step_ok_refl; by rewrite put_at_id. }
    eapply step_ok_trans; [done|].
    assert (Hdj : disj p1 p2) by (eapply spine_leaves_disj; eauto).
    eapply (dups1_join_spec n type p1 p2 _ _ _ _ e1' e2); eauto.
    + by eapply spine_put_leaf.
    + by eapply spine_put_leaf.
    + by eapply get_put.
    + by rewrite get_put_disj.
Qed.

End StepOk.

(** *** The second pass *)

(** [e2] excludes [e1] for the connective [type]: it is the negation of [e1]
    joined with something else. *)
Definition excludes (V : valuation) (type : expr_type) (e1 e2 : expr) : Prop :=
  ∃ d, expr_calc_value V e2 = op_val type (EXPR_NOT (expr_calc_value V e1)) d.

(** Every operand of the normal form of [!e1] was cancelled against [e2]. *)
Lemma extract_excludes V type n e1 e2 tmp1 ep t1 t2 :
  valuation_ok V → is_op type → expr_transform n (E_NOT e1) = Some tmp1 →
  expr_extract_eq n type None tmp1 e2 = Some (ep, t1, t2) →
  expr_calc_value V t1 = expr_calc_value V (E_SYMBOL (op_unit type)) →
  excludes V type e1 e2.
Proof.
  intros HV Hop Ht Hx Hy. apply (calc_transform V) in Ht; [|done]. simpl in Ht.
  apply (expr_extract_eq_sound V) in Hx as (c & E1 & E2 & _); [|apply HV|done].
  rewrite Ht, Hy, op_val_comm, calc_op_unit in E1 by (done || apply HV).
  eexists. by rewrite E2, E1.
Qed.

(** What the two cases of the second pass do to the tree. *)
Definition kills (type : expr_type) (p1 : list dir) (st st' : dstate) (e1 e2 : expr) : Prop :=
  st' = st ∨
  (st' = (st.1 + 1, put_at p1 (E_SYMBOL (op_zero type)) st.2)%Z ∧
   ∀ V, valuation_ok V → excludes V type e1 e2).

(** The folding at the end of the two extraction functions keeps the values. *)
Lemma extract_eq_and_inv n e1 e2 ep t1 t2 :
  expr_extract_eq_and n e1 e2 = Some (ep, t1, t2) →
  ∃ u1 u2, expr_extract_eq n T_AND None e1 e2 = Some (ep, u1, u2) ∧
    ∀ V, consts_ok V → expr_calc_value V u1 = expr_calc_value V t1.
Proof.
  unfold expr_extract_eq_and. intros ([[o u1] u2] & Hx & E)%bind_Some.
  exists u1, u2. destruct o; simplify_eq; split; auto. intros V HV. by rewrite calc_eliminate_yn.
Qed.

Lemma extract_eq_or_inv n e1 e2 ep t1 t2 :
  expr_extract_eq_or n e1 e2 = Some (ep, t1, t2) →
  ∃ u1 u2, expr_extract_eq n T_OR None e1 e2 = Some (ep, u1, u2) ∧
    ∀ V, consts_ok V → expr_calc_value V u1 = expr_calc_value V t1.
Proof.
  unfold expr_extract_eq_or. intros ([[o u1] u2] & Hx & E)%bind_Some.
  exists u1, u2. destruct o; simplify_eq; split; auto. intros V HV. by rewrite calc_eliminate_yn.
Qed.

Lemma dups2_or_spec n p1 p2 st st' e1 e2 :
  get_at p1 st.2 = Some e1 → get_at p2 st.2 = Some e2 →
  dups2_or n p1 p2 st = Some st' → kills T_AND p1 st st' e1 e2.
Proof.
  intros G1 G2 Hd. unfold dups2_or in Hd. rewrite G1, G2 in Hd. simpl in Hd.
  apply bind_Some in Hd as (c1 & [-> _]%expr_copy_Some & Hd).
  apply bind_Some in Hd as (tmp1 & Ht & Hd).
  apply bind_Some in Hd as (c2 & [-> _]%expr_copy_Some & Hd).
  apply bind_Some in Hd as ([[ep t1] t2] & (u1 & u2 & Hx & Hv)%extract_eq_and_inv & Hd).
  destruct (expr_is_yes _) eqn:Hy; simplify_eq; [|by left]. right. split; [done|]. intros V HV.
  eapply extract_excludes; [done|red; auto|done..|]. rewrite Hv by apply HV.
  by apply expr_is_yes_Some in Hy as ->.
Qed.

Lemma dups2_and_spec n p1 p2 st st' e1 e2 :
  get_at p1 st.2 = Some e1 → get_at p2 st.2 = Some e2 →
  dups2_and n p1 p2 st = Some st' → kills T_OR p1 st st' e1 e2.
Proof.
  intros G1 G2 Hd. unfold dups2_and in Hd. rewrite G1, G2 in Hd. simpl in Hd.
  apply bind_Some in Hd as (c1 & [-> _]%expr_copy_Some & Hd).
  apply bind_Some in Hd as (tmp1 & Ht & Hd).
  apply bind_Some in Hd as (c2 & [-> _]%expr_copy_Some & Hd).
  apply bind_Some in Hd as ([[ep t1] t2] & (u1 & u2 & Hx & Hv)%extract_eq_or_inv & Hd).
  destruct (expr_is_no _) eqn:Hy; simplify_eq; [|by left]. right. split; [done|]. intros V HV.
  eapply extract_excludes; [done|red; auto|done..|]. rewrite Hv by apply HV.
  by apply expr_is_no_Some in Hy as ->.
Qed.

Lemma absorb_tri type v v1 a b d :
  is_op type → v ≠ tri_mod → v1 ≠ tri_mod → v = op_val type a v1 →
  v = op_val type b (op_val type (EXPR_NOT v1) d) →
  v = (if bool_decide (type = T_OR) then tri_yes else tri_no).
Proof. by intros [-> | ->]; destruct v, v1, a, b, d. Qed.

(** Without [m], two operands that exclude each other absorb the spine. *)
Lemma excludes_absorbs V type p1 p2 e e1 e2 :
  valuation_ok V → is_op type → spine type p1 e → spine type p2 e → mod_free V e →
  get_at p1 e = Some e1 → get_at p2 e = Some e2 → excludes V type e1 e2 →
  expr_calc_value V e = expr_calc_value V (E_SYMBOL (op_zero type)).
Proof.
  intros HV Ht S1 S2 Hm G1 G2 [d Hd].
  pose proof (calc_spine_get V type p1 e e1 (ok_consts V HV) Ht S1 G1) as E1.
  pose proof (calc_spine_get V type p2 e e2 (ok_consts V HV) Ht S2 G2) as E2.
  rewrite Hd in E2.
  eapply absorb_tri in E2; [|done|by apply calc_mod_free|eapply calc_mod_free, mod_free_get_at; eauto|done].
  rewrite E2. destruct Ht as [-> | ->]; simpl; by rewrite ?(ok_yes V HV), ?(ok_no V HV).
Qed.

Lemma step_ok_kills type p1 p2 tc e tc' e' x1 x2 :
  is_op type → spine type p1 e → spine type p2 e → p1 ≠ p2 →
  get_at p1 e = Some x1 → get_at p2 e = Some x2 → children type x1 = None →
  kills type p1 (tc, e) (tc', e') x1 x2 → step_ok mod_free type tc e tc' e'.
Proof.
  intros Ht S1 S2 Hne G1 G2 N1 [K|[K Hx]]; simplify_eq/=; [apply step_ok_refl|].
  eapply step_ok_kill; eauto; [apply _|]. intros V HV Hm.
  eapply (excludes_absorbs V type p1 p2); eauto.
Qed.

(** The children of a location on the spine, before and after a step. *)
Lemma step_ok_leaf P type tc e tc' e' p x x' :
  step_ok P type tc e tc' e' → spine type p e → get_at p e = Some x → get_at p e' = Some x' →
  children type x = None → children type x' = None.
Proof.
  intros Hst Hs G G' N. destruct (children type x') as [lr|] eqn:C; [|done].
  assert (S' : spine type p e') by (by apply (so_spine _ _ _ _ _ _ Hst)).
  assert (spine type (p ++ [DL]) e') as S2 by (eapply spine_app; eauto; simpl; eauto).
  apply (so_spine _ _ _ _ _ _ Hst) in S2. apply (spine_app type p [DL] e x G Hs) in S2.
  destruct S2 as (? & ? & _). congruence.
Qed.

(** The part of the second pass that follows the visit of [e2]. *)
Definition dups2_tail (n : nat) (p1 p2 : list dir) (st : dstate) : option dstate :=
  if bool_decide (p1 = p2) then Some st
  else
    e1 ← get_at p1 st.2;
    match type_of e1 with
    | T_OR => st ← expr_eliminate_dups2 n T_OR p1 p1 st; dups2_or n p1 p2 st
    | T_AND => st ← expr_eliminate_dups2 n T_AND p1 p1 st; dups2_and n p1 p2 st
    | _ => Some st
    end.

Definition dups2_spec_at (n : nat) : Prop := ∀ type p1 p2 tc root tc' root',
  is_op type → spine type p1 root → spine type p2 root →
  expr_eliminate_dups2 n type p1 p2 (tc, root) = Some (tc', root') →
  step_ok mod_free type tc root tc' root'.

Lemma dups2_tail_spec n type p1 p2 tc root tc' root' e1 :
  dups2_spec_at n → is_op type → spine type p1 root → spine type p2 root →
  get_at p1 root = Some e1 → children type e1 = None →
  dups2_tail n p1 p2 (tc, root) = Some (tc', root') →
  step_ok mod_free type tc root tc' root'.
Proof.
  intros IH Ht S1 S2 G1 N1 Hd. unfold dups2_tail in Hd.
  case_bool_decide as Hne; [simplify_eq; apply step_ok_refl|].
  simpl in Hd. rewrite G1 in Hd. cbn [mbind option_bind] in Hd.
  assert (Hnest : ∀ st1, is_op (type_of e1) →
    expr_eliminate_dups2 n (type_of e1) p1 p1 (tc, root) = Some st1 →
    ∃ tc1 e1' e2', st1 = (tc1, put_at p1 e1' root) ∧ children type e1' = None ∧
      step_ok mod_free type tc root tc1 (put_at p1 e1' root) ∧
      spine type p1 (put_at p1 e1' root) ∧ spine type p2 (put_at p1 e1' root) ∧
      get_at p1 (put_at p1 e1' root) = Some e1' ∧ get_at p2 (put_at p1 e1' root) = Some e2').
  { intros st1 Hop Hn1.
    destruct (step_ok_nested mod_free type p1 root e1 tc st1
      (expr_eliminate_dups2 n (type_of e1))) as (tc1 & e1' & -> & ? & ? & Hst); eauto.
    - intros q tc2 r2 sub Hq. rewrite <- (app_nil_r q) at 1 2. by apply dups2_local.
    - intros. eapply (IH _ [] []); eauto; done.
    - assert (spine type p2 (put_at p1 e1' root)) as S2' by (by eapply spine_put_leaf).
      destruct (spine_get _ _ _ S2') as [e2' G2'].
      exists tc1, e1', e2'. split_and!; auto; [by eapply spine_put_leaf|by eapply get_put]. }
  apply children_None_type in N1; [|done].
  destruct (type_of e1) eqn:T1; try (simplify_eq; apply step_ok_refl);
    apply bind_Some in Hd as (st1 & Hd1 & Hd2);
    destruct (Hnest st1) as (tc1 & e1' & e2' & -> & ? & ? & ? & ? & ? & ?); try done;
    try (red; auto); (eapply step_ok_trans; [done|]);
    destruct Ht as [-> | ->]; try done.
  - apply dups2_or_spec with (e1 := e1') (e2 := e2') in Hd2; [|done..].
    eapply (step_ok_kills T_AND p1 p2); eauto; red; auto.
  - apply dups2_and_spec with (e1 := e1') (e2 := e2') in Hd2; [|done..].
    eapply (step_ok_kills T_OR p1 p2); eauto; red; auto.
Qed.

Lemma dups2_spec n : dups2_spec_at n.
Proof.
  induction n as [|n IH]; intros type p1 p2 tc root tc' root' Ht S1 S2 Hd; [done|].
  cbn [expr_eliminate_dups2] in Hd. simpl (snd (tc, root)) in Hd.
  destruct (get_at p1 root) as [e1|] eqn:G1; [|done]. cbn [mbind option_bind] in Hd.
  destruct (get_at p2 root) as [e2|] eqn:G2; [|done]. cbn [mbind option_bind] in Hd.
  destruct (has_children type e1) eqn:C1.
  { apply bind_Some in Hd as ([tc1 root1] & Hd1 & Hd2).
    eapply step_ok_call; [eapply (IH _ (p1 ++ [DL])); eauto using spine_child| |
      eapply (spine_child type p1 DR); eauto | exact S2]. eauto. }
  apply has_children_false in C1.
  apply bind_Some in Hd as ([tc1 root1] & Hd1 & Hd2).
  assert (Hst : step_ok mod_free type tc root tc1 root1).
  { destruct (has_children type e2) eqn:C2; [|simplify_eq; apply step_ok_refl].
    apply bind_Some in Hd1 as ([tc2 root2] & Hd1 & Hd3).
    eapply step_ok_call; [eapply (IH _ p1 (p2 ++ [DL])); eauto using spine_child| |
      exact S1 | eapply (spine_child type p2 DR); eauto]. eauto. }
  eapply step_ok_trans; [done|].
  assert (S1' : spine type p1 root1) by (by apply (so_spine _ _ _ _ _ _ Hst)).
  assert (S2' : spine type p2 root1) by (by apply (so_spine _ _ _ _ _ _ Hst)).
  destruct (spine_get _ _ _ S1') as [e1' G1'].
  pose proof (step_ok_leaf _ _ _ _ _ _ _ _ _ Hst S1 G1 G1' C1) as N1'.
  exact (dups2_tail_spec n type p1 p2 _ _ _ _ e1' IH Ht S1' S2' G1' N1' Hd2).
Qed.
(** ** Termination

    [within D type p e]: the spine below [p] is at most [D] nodes deep. The
    bound only depends on the shape of the spine, which the passes keep. *)

Definition within (D : nat) (type : expr_type) (p : list dir) (e : expr) : Prop :=
  ∀ q, spine type (p ++ q) e → length q ≤ D.

Lemma within_child D type p d e :
  within D type p e → spine type (p ++ [d]) e → ∃ D', D = S D' ∧ within D' type (p ++ [d]) e.
Proof.
  intros W S. pose proof (W [d] S) as L. simpl in L. destruct D as [|D]; [lia|].
  exists D. split; [done|]. intros q Hq. rewrite <- app_assoc in Hq. apply W in Hq. simpl in Hq. lia.
Qed.

Lemma spine_length type p e : spine type p e → length p < esize e.
Proof.
  revert e. induction p as [|d p IH]; intros e; simpl; [pose proof (esize_pos e); lia|].
  intros ([l r] & (_&_&Hs&_)%children_Some & Hp). apply IH in Hp. destruct d; simpl in Hp; lia.
Qed.

Lemma within_root type e : within (esize e) type [] e.
Proof. intros q Hq%spine_length. simpl in Hq. lia. Qed.

(** What the fuel of a pass depends on: [B] bounds the operands of the spine
    and [N] the whole tree. *)
Record ready (type : expr_type) (B N : nat) (e : expr) : Prop := {
  rd_dep : dep_expr e = true;
  rd_leaves : leaves_le B type e;
  rd_size : esize e ≤ N;
}.

Definition fuel_for (B N : nat) : nat := (B + 1) * (20 * N + 20).

Lemma step_ok_ready P type B N tc e tc' e' :
  step_ok P type tc e tc' e' → ready type B N e → ready type B N e'.
Proof. intros [_ D S _ L _] [Hd Hl Hs]. split; auto. lia. Qed.

Lemma step_ok_within P type D p tc e tc' e' :
  step_ok P type tc e tc' e' → within D type p e → within D type p e'.
Proof. intros Hst W q Hq. apply W. by apply (so_spine _ _ _ _ _ _ Hst). Qed.

(** An operand of the spine that is itself a spine, of the other connective. *)
Lemma ready_operand type B N p e x :
  ready type B N e → spine type p e → get_at p e = Some x → children type x = None →
  is_op (type_of x) →
  ready (type_of x) (pred (esize x)) N x ∧ esize x ≤ B.
Proof.
  intros [Hd Hl Hs] S G C Hop. split; [|by eapply Hl].
  split; [by eapply dep_get_at| |pose proof (esize_get_at _ _ _ G); lia].
  intros [|d q] y Sq Gq Cq.
  - simpl in Gq. simplify_eq. by destruct (type_of_op y _ Hop eq_refl) as (l & r & ?); congruence.
  - destruct Sq as ([l r] & Hc & Sq). rewrite (children_get _ _ _ _ _ Hc) in Gq.
    apply esize_get_at in Gq. apply children_Some in Hc as (_&_&Hz&_). destruct d; simpl in Gq; lia.
Qed.

Lemma fuel_operand B N s : 1 ≤ s → s ≤ B → fuel_for (pred s) N + 20 * N + 20 ≤ fuel_for B N.
Proof. intros. unfold fuel_for. destruct s; [lia|]. simpl pred. nia. Qed.

Lemma fuel_leaf B N : 20 * N + 20 ≤ fuel_for B N.
Proof. unfold fuel_for. nia. Qed.

Lemma dups1_join_total n type p1 p2 B N tc root e1 e2 :
  ready type B N root → get_at p1 root = Some e1 → get_at p2 root = Some e2 →
  8 * N ≤ n → ∃ st, dups1_join n type p1 p2 (tc, root) = Some st.
Proof.
  intros [Hd Hl Hs] G1 G2 Hn. unfold dups1_join. simpl. rewrite G1, G2. simpl.
  pose proof (esize_get_at _ _ _ G1). pose proof (esize_get_at _ _ _ G2).
  pose proof (dep_get_at _ _ _ Hd G1). pose proof (dep_get_at _ _ _ Hd G2).
  destruct type; eauto.
  - destruct (expr_join_or_total n e1 e2) as [o ->]; auto; [lia|]. simpl. eauto.
  - destruct (expr_join_and_total n e1 e2) as [o ->]; auto; [lia|]. simpl. eauto.
Qed.

(** The statement of termination of a pass, for both passes. *)
Definition pass_total_at (f : expr_type → list dir → list dir → dstate → option dstate) (n : nat) :=
  ∀ type p1 p2 tc root B N D1 D2,
  is_op type → spine type p1 root → spine type p2 root →
  within D1 type p1 root → within D2 type p2 root →
  ready type B N root → D1 + D2 + fuel_for B N ≤ n →
  ∃ tc' root', f type p1 p2 (tc, root) = Some (tc', root').

(** The call of a pass on an operand of the spine returns. *)
Lemma pass_operand_total f n type p tc root B N e1 :
  pass_total_at f n →
  (∀ type q tc root sub, get_at q root = Some sub →
    f type q q (tc, root) = at_path q root <$> f type [] [] (tc, sub)) →
  ready type B N root → spine type p root → get_at p root = Some e1 →
  children type e1 = None → is_op (type_of e1) → fuel_for B N ≤ S n →
  ∃ tc1 root1, f (type_of e1) p p (tc, root) = Some (tc1, root1).
Proof.
  intros Hf Hloc Hr S G C Hop Hn. rewrite (Hloc _ _ _ _ _ G).
  destruct (ready_operand type B N p root e1 Hr S G C Hop) as [Hr' HB].
  pose proof (rd_size _ _ _ _ Hr'). pose proof (esize_pos e1).
  pose proof (fuel_operand B N (esize e1) ltac:(lia) HB).
  destruct (Hf (type_of e1) [] [] tc e1 (pred (esize e1)) N (esize e1) (esize e1))
    as (tc1 & r1 & ->); auto using within_root; try done; [lia|].
  simpl. eauto.
Qed.

(** The two calls of a pass on the children of a spine node return. *)
Lemma pass_children_total P f n type p1 p2 tc root B N D1 D2 e1 :
  pass_total_at f n →
  (∀ type p1 p2 tc root tc' root', is_op type → spine type p1 root → spine type p2 root →
    f type p1 p2 (tc, root) = Some (tc', root') → step_ok P type tc root tc' root') →
  is_op type → spine type p1 root → spine type p2 root →
  within D1 type p1 root → within D2 type p2 root → ready type B N root →
  D1 + D2 + fuel_for B N ≤ S n → get_at p1 root = Some e1 → has_children type e1 = true →
  ∃ tc' root', (st ← f type (p1 ++ [DL]) p2 (tc, root); f type (p1 ++ [DR]) p2 st)
    = Some (tc', root').
Proof.
  intros IH Hspec Ht S1 S2 W1 W2 Hr Hn G1 C1.
  assert (Sc : ∀ d, spine type (p1 ++ [d]) root) by (intros; by eapply spine_child).
  destruct (within_child D1 type p1 DL root W1 (Sc DL)) as (D & -> & WL).
  destruct (within_child (S D) type p1 DR root W1 (Sc DR)) as (D' & E & WR). injection E as <-.
  destruct (IH type (p1 ++ [DL]) p2 tc root B N D D2) as (tc1 & r1 & Hd); auto; [lia|].
  rewrite Hd. cbn [mbind option_bind]. apply Hspec in Hd; auto.
  eapply (IH type (p1 ++ [DR]) p2 tc1 r1 B N D D2);
    eauto using step_ok_within, step_ok_ready; [by apply (so_spine _ _ _ _ _ _ Hd)..|lia].
Qed.

Lemma pass_total_flip f n : pass_total_at f n → pass_total_at (λ t p q, f t q p) n.
Proof.
  intros IH type p1 p2 tc root B N D1 D2 ???????. apply (IH type p2 p1 tc root B N D2 D1); auto. lia.
Qed.

Lemma dups1_self n type q tc root sub :
  get_at q root = Some sub →
  expr_eliminate_dups1 n type q q (tc, root) =
    at_path q root <$> expr_eliminate_dups1 n type [] [] (tc, sub).
Proof. intros. rewrite <- (app_nil_r q) at 1 2. by apply dups1_local. Qed.

Lemma dups2_self n type q tc root sub :
  get_at q root = Some sub →
  expr_eliminate_dups2 n type q q (tc, root) =
    at_path q root <$> expr_eliminate_dups2 n type [] [] (tc, sub).
Proof. intros. rewrite <- (app_nil_r q) at 1 2. by apply dups2_local. Qed.

(** The operands after a nested call: still there and still bounded. *)
Lemma nested_ready P (f : list dir → list dir → dstate → option dstate) type p1 p2 B N
    tc root tc1 root1 e1 :
  Hereditary P →
  (∀ q tc root sub, get_at q root = Some sub →
    f q q (tc, root) = at_path q root <$> f [] [] (tc, sub)) →
  (∀ tc e tc' e', f [] [] (tc, e) = Some (tc', e') → step_ok P (type_of e1) tc e tc' e') →
  is_op (type_of e1) → spine type p1 root → spine type p2 root →
  get_at p1 root = Some e1 → children type e1 = None → ready type B N root →
  f p1 p1 (tc, root) = Some (tc1, root1) →
  ready type B N root1 ∧ ∃ e1' e2', get_at p1 root1 = Some e1' ∧ get_at p2 root1 = Some e2'.
Proof.
  intros HP Hloc Hstep Hop S1 S2 G1 N1 Hr Hf.
  destruct (step_ok_nested P type p1 root e1 tc (tc1, root1) f)
    as (tc' & e1' & E & ? & ? & Hst); auto. simplify_eq.
  split; [by eapply step_ok_ready|].
  assert (spine type p2 (put_at p1 e1' root)) as S2' by (by eapply spine_put_leaf).
  destruct (spine_get _ _ _ S2') as [e2' ->]. exists e1', e2'. split; [by eapply get_put|done].
Qed.

Lemma dups1_total n : pass_total_at (expr_eliminate_dups1 n) n.
Proof.
  induction n as [|n IH]; intros type p1 p2 tc root B N D1 D2 Ht S1 S2 W1 W2 Hr Hn;
    pose proof (fuel_leaf B N); [lia|].
  destruct (spine_get _ _ _ S1) as [e1 G1], (spine_get _ _ _ S2) as [e2 G2].
  cbn [expr_eliminate_dups1]. simpl (snd (tc, root)). rewrite G1, G2. cbn [mbind option_bind].
  pose proof (dups1_spec (λ _ _, True) n) as Hspec.
  destruct (has_children type e1) eqn:C1; [|destruct (has_children type e2) eqn:C2].
  - eapply pass_children_total; eauto.
  - eapply (pass_children_total (λ _ _, True) (λ t p q, expr_eliminate_dups1 n t q p) n type p2 p1);
      eauto using pass_total_flip; lia.
  - case_bool_decide as Hne; [eauto|]. apply has_children_false in C1, C2.
    assert (Hj : ∀ tc1 root1 e1' e2', ready type B N root1 → get_at p1 root1 = Some e1' →
      get_at p2 root1 = Some e2' →
      ∃ tc' root', dups1_join n type p1 p2 (tc1, root1) = Some (tc', root')).
    { intros. destruct (dups1_join_total n type p1 p2 B N tc1 root1 e1' e2') as [[??] ?]; eauto.
      unfold fuel_for in *; nia. }
    destruct (decide (is_op (type_of e1))) as [Hop|Hop].
    + destruct (pass_operand_total (expr_eliminate_dups1 n) n type p1 tc root B N e1)
        as (tc1 & root1 & E); auto using dups1_self; [lia|].
      destruct (nested_ready (λ _ _, True) (expr_eliminate_dups1 n (type_of e1)) type p1 p2 B N
        tc root tc1 root1 e1) as (Hr1 & e1' & e2' & ? & ?); eauto using dups1_self; [by apply _|
        intros; eapply (Hspec _ [] []); eauto; done|].
      destruct Hop as [T|T]; rewrite T in *; rewrite E; simpl; eauto.
    + destruct (type_of e1); simpl; eauto; by destruct Hop; red; auto.
Qed.
(** The normal form of [!e1] and its comparison with [e2] stay within the
    fuel of a leaf. *)
Lemma negate_extract_total n N type e1 e2 :
  is_op type → dep_expr e1 = true → dep_expr e2 = true → esize e1 ≤ N → esize e2 ≤ N →
  12 * N + 9 ≤ n →
  ∃ t ep u1 u2, expr_transform n (E_NOT e1) = Some t ∧
    expr_extract_eq n type None t e2 = Some (ep, u1, u2).
Proof.
  intros Ht Hd1 Hd2 H1 H2 Hn.
  pose proof (theight_esize (E_NOT e1)). pose proof (tweight_esize (E_NOT e1)).
  destruct (transform_total (E_NOT e1) n) as (t & Et & Hnn & _ & Hw); [done| |].
  { cbn [esize] in *. lia. }
  pose proof (esize_tweight t Hnn).
  destruct (expr_extract_eq_total n type Ht None t e2) as (ep & u1 & u2 & Ex & _);
    auto using nnf_dep; [cbn [esize] in *; lia|]. eauto 10.
Qed.

Lemma dups2_or_total n p1 p2 B N type tc root e1 e2 :
  ready type B N root → get_at p1 root = Some e1 → get_at p2 root = Some e2 →
  12 * N + 9 ≤ n → ∃ tc' root', dups2_or n p1 p2 (tc, root) = Some (tc', root').
Proof.
  intros [Hd Hl Hs] G1 G2 Hn. unfold dups2_or, expr_extract_eq_and. simpl. rewrite G1, G2. simpl.
  pose proof (esize_get_at _ _ _ G1). pose proof (esize_get_at _ _ _ G2).
  pose proof (dep_get_at _ _ _ Hd G1) as D1. pose proof (dep_get_at _ _ _ Hd G2) as D2.
  destruct (negate_extract_total n N T_AND e1 e2) as (t & ep & u1 & u2 & Et & Ex);
    auto; [red; auto|lia..|].
  rewrite !expr_copy_spec, D1, D2. cbn [mbind option_bind]. rewrite Et. cbn [mbind option_bind].
  rewrite Ex. destruct ep; simpl; case_match; eauto.
Qed.

Lemma dups2_and_total n p1 p2 B N type tc root e1 e2 :
  ready type B N root → get_at p1 root = Some e1 → get_at p2 root = Some e2 →
  12 * N + 9 ≤ n → ∃ tc' root', dups2_and n p1 p2 (tc, root) = Some (tc', root').
Proof.
  intros [Hd Hl Hs] G1 G2 Hn. unfold dups2_and, expr_extract_eq_or. simpl. rewrite G1, G2. simpl.
  pose proof (esize_get_at _ _ _ G1). pose proof (esize_get_at _ _ _ G2).
  pose proof (dep_get_at _ _ _ Hd G1) as D1. pose proof (dep_get_at _ _ _ Hd G2) as D2.
  destruct (negate_extract_total n N T_OR e1 e2) as (t & ep & u1 & u2 & Et & Ex);
    auto; [red; auto|lia..|].
  rewrite !expr_copy_spec, D1, D2. cbn [mbind option_bind]. rewrite Et. cbn [mbind option_bind].
  rewrite Ex. destruct ep; simpl; case_match; eauto.
Qed.

Lemma dups2_tail_total n type p1 p2 B N tc root e1 :
  pass_total_at (expr_eliminate_dups2 n) n → spine type p1 root → spine type p2 root →
  get_at p1 root = Some e1 → children type e1 = None → ready type B N root →
  fuel_for B N ≤ S n → ∃ tc' root', dups2_tail n p1 p2 (tc, root) = Some (tc', root').
Proof.
  intros IH S1 S2 G1 C1 Hr Hn. unfold dups2_tail. case_bool_decide; [eauto|].
  simpl. rewrite G1. cbn [mbind option_bind].
  pose proof (fuel_leaf B N). pose proof (dups2_spec n) as Hspec.
  destruct (decide (is_op (type_of e1))) as [Hop|Hop];
    [|destruct (type_of e1); simpl; eauto; by destruct Hop; red; auto].
  destruct (pass_operand_total (expr_eliminate_dups2 n) n type p1 tc root B N e1)
    as (tc1 & root1 & E); auto using dups2_self.
  destruct (nested_ready mod_free (expr_eliminate_dups2 n (type_of e1)) type p1 p2 B N
    tc root tc1 root1 e1) as (Hr1 & e1' & e2' & ? & ?); eauto using dups2_self;
    [by apply _|intros; eapply (Hspec _ [] []); eauto; done|].
  destruct Hop as [T|T]; rewrite T in *; rewrite E; cbn [mbind option_bind];
    [eapply dups2_or_total|eapply dups2_and_total]; eauto; lia.
Qed.

Lemma dups2_total n : pass_total_at (expr_eliminate_dups2 n) n.
Proof.
  induction n as [|n IH]; intros type p1 p2 tc root B N D1 D2 Ht S1 S2 W1 W2 Hr Hn;
    pose proof (fuel_leaf B N); [lia|].
  destruct (spine_get _ _ _ S1) as [e1 G1], (spine_get _ _ _ S2) as [e2 G2].
  cbn [expr_eliminate_dups2]. simpl (snd (tc, root)). rewrite G1, G2. cbn [mbind option_bind].
  pose proof (dups2_spec n) as Hspec.
  destruct (has_children type e1) eqn:C1; [by eapply pass_children_total; eauto|].
  apply has_children_false in C1.
  assert (∃ tc1 root1, (if has_children type e2 then
      st ← expr_eliminate_dups2 n type p1 (p2 ++ [DL]) (tc, root);
      expr_eliminate_dups2 n type p1 (p2 ++ [DR]) st else Some (tc, root)) = Some (tc1, root1) ∧
    step_ok mod_free type tc root tc1 root1) as (tc1 & root1 & -> & Hst).
  { destruct (has_children type e2) eqn:C2; [|eauto using step_ok_refl].
    destruct (pass_children_total mod_free (λ t p q, expr_eliminate_dups2 n t q p) n type p2 p1
      tc root B N D2 D1 e2) as (tc1 & root1 & E); eauto using pass_total_flip; [lia|].
    exists tc1, root1. split; [done|]. apply bind_Some in E as ([tc2 root2] & E1 & E2).
    eapply step_ok_call; [eapply (Hspec _ p1 (p2 ++ [DL])); eauto using spine_child| |
      exact S1 | eapply (spine_child type p2 DR); eauto]. eauto. }
  assert (S1' : spine type p1 root1) by (by apply (so_spine _ _ _ _ _ _ Hst)).
  assert (S2' : spine type p2 root1) by (by apply (so_spine _ _ _ _ _ _ Hst)).
  destruct (spine_get _ _ _ S1') as [e1' G1'].
  eapply (dups2_tail_total n type p1 p2 B N tc1 root1 e1' IH);
    eauto using step_ok_ready, step_ok_leaf. lia.
Qed.
(** ** The whole loop *)

(** The fuel of one iteration on an expression of at most [N] nodes. *)
Definition dups_fuel (N : nat) : nat := 2 * N + fuel_for N N.

Lemma dups_fuel_mono N M : N ≤ M → dups_fuel N ≤ dups_fuel M.
Proof. unfold dups_fuel, fuel_for. nia. Qed.

Lemma ready_root type e : dep_expr e = true → ready type (esize e) (esize e) e.
Proof. intros D. split; [done| |done]. intros p x _ G _. by apply esize_get_at in G. Qed.

Lemma dups_pass_ok n e :
  dep_expr e = true → dups_fuel (esize e) ≤ n →
  ∃ tc e', expr_eliminate_dups_pass n e = Some (tc, e') ∧
    step_ok mod_free (type_of e) 0 e tc e'.
Proof.
  intros D Hn. unfold expr_eliminate_dups_pass.
  destruct (decide (is_op (type_of e))) as [Hop|Hop];
    [|destruct (type_of e); eauto using step_ok_refl; by destruct Hop; red; auto].
  assert (∃ tc e', (st ← expr_eliminate_dups1 n (type_of e) [] [] (0%Z, e);
    expr_eliminate_dups2 n (type_of e) [] [] st) = Some (tc, e') ∧
    step_ok mod_free (type_of e) 0 e tc e') as (tc & e' & E & Hst).
  { unfold dups_fuel in Hn. pose proof (ready_root (type_of e) e D) as Hr.
    destruct (dups1_total n (type_of e) [] [] 0%Z e (esize e) (esize e) (esize e) (esize e))
      as (tc1 & e1 & E1); auto using within_root; try done; [lia|].
    rewrite E1. cbn [mbind option_bind]. apply (dups1_spec mod_free) in E1; try done.
    destruct (dups2_total n (type_of e) [] [] tc1 e1 (esize e) (esize e) (esize e) (esize e))
      as (tc2 & e2 & E2); eauto using step_ok_within, within_root, step_ok_ready; try done; [lia|].
    exists tc2, e2. split; [done|]. apply dups2_spec in E2; try done. by eapply step_ok_trans. }
  destruct Hop as [T|T]; rewrite T in *; eauto.
Qed.

Lemma mod_free_eliminate_yn V e : consts_ok V → mod_free V e → mod_free V (expr_eliminate_yn e).
Proof.
  intros HV. induction e as [l IHl r IHr|l IHl r IHr| | | | | |]; simpl; auto; intros [Hl Hr];
    repeat case_match; simpl; rewrite ?(ok_yes V HV), ?(ok_no V HV); auto.
Qed.

(** The result of the loop: an expression that a further pass leaves alone,
    no bigger than the first and with its values. *)
Record dups_result (n : nat) (e e' : expr) : Prop := {
  dr_dep : dep_expr e' = true;
  dr_size : esize e' ≤ esize e;
  dr_fixed : expr_eliminate_dups_pass n e' = Some (0%Z, e');
  dr_val V : valuation_ok V → mod_free V e → expr_calc_value V e' = expr_calc_value V e;
}.

Lemma expr_eliminate_dups_ok loops n e :
  dep_expr e = true → esize e ≤ loops → dups_fuel (esize e) ≤ n →
  ∃ e', expr_eliminate_dups loops n e = Some e' ∧ dups_result n e e'.
Proof.
  revert e. induction loops as [|loops IH]; intros e D Hl Hn; [pose proof (esize_pos e); lia|].
  cbn [expr_eliminate_dups].
  destruct (dups_pass_ok n e D Hn) as (tc & e1 & Hp & Hst). rewrite Hp. cbn [mbind option_bind].
  destruct Hst as [Hv Hd Hs _ _ Hc]. case_bool_decide as T.
  - exists e1. split; [done|]. destruct Hc as [[-> ->]|[? _]]; [|lia].
    by split; auto.
  - destruct Hc as [[? _]|[_ R]]; [done|]. pose proof (redex_shrinks e1 R) as Hlt.
    destruct (IH (expr_eliminate_yn e1)) as (e' & He & [D' S' F' V']);
      [by apply dep_eliminate_yn, Hd|lia|etrans; [apply dups_fuel_mono|done]; lia|].
    exists e'. split; [done|]. split; [done|lia|done|].
    intros V HV Hm. destruct (Hv V HV Hm) as [<- Hm1].
    rewrite V' by eauto using mod_free_eliminate_yn, ok_consts. apply calc_eliminate_yn, HV.
Qed.
End Passes.
