(* ===== verification/KconfigExprSpec.v ===== *)
(** * Kconfig expressions: what the expression code guarantees

    The statements about [support/kconfig/expr.c] that the rest of Kconfig
    relies on, each from the lemmas of [KconfigExprSem] and [KconfigDups], with
    a concrete instance where a statement has hypotheses. *)

From S2P Require Import Prelude KconfigExpr KconfigExprSem KconfigDups.
From stdpp Require Import base option list strings.
From Stdlib Require Import ZArith Lia.

(** ** A small configuration for the instances

    [A] and [B] are tristate symbols, every other allocated symbol is boolean. *)
Module Sample.

Definition A : symp := sym_at 1.
Definition B : symp := sym_at 2.
Definition C : symp := sym_at 3.

#[export] Instance tab : SymTab := {|
  sym_type s := match s with
                | symbol_yes | symbol_mod | symbol_no => S_TRISTATE
                | symbol_empty => S_STRING
                | sym_at 1 | sym_at 2 => S_TRISTATE
                | sym_at _ => S_BOOLEAN
                end;
  sym_const s := match s with symbol_yes | symbol_mod | symbol_no => true | _ => false end;
|}.

(** Tristate symbols have the value [a], boolean ones are [y]. *)
Definition vals (a : tristate) : valuation :=
  let tri s := match s with
               | symbol_yes => tri_yes | symbol_mod => tri_mod | symbol_no => tri_no
               | symbol_empty => tri_no
               | sym_at 1 | sym_at 2 => a
               | sym_at _ => tri_yes
               end in
  {| v_tri := tri;
     v_str s := match s with symbol_empty => EmptyString | _ => tri_str (tri s) end |}.

Lemma vals_ok a : valuation_ok (vals a).
Proof.
  split; [by split|..]; try by intros [| | | |[|[]|]].
  intros [] []; simpl; try done.
Qed.

(** [(A || B) && (!A && !B)] *)
Definition excluded : expr :=
  E_AND (E_OR (E_SYMBOL A) (E_SYMBOL B)) (E_AND (E_NOT (E_SYMBOL A)) (E_NOT (E_SYMBOL B))).

(** [(A && C) && (A && C!=n)] *)
Definition doubled : expr :=
  E_AND (E_AND (E_SYMBOL A) (E_SYMBOL C)) (E_AND (E_SYMBOL A) (E_UNEQUAL C symbol_no)).

End Sample.
Import Sample.

(** ** Simplification *)

(** C4: [expr_eliminate_dups] returns on every dependency expression: [esize e]
    iterations and a recursion depth of [dups_fuel (esize e)] suffice. The
    result is a dependency expression, no bigger than [e], that a further
    iteration leaves unchanged, and it has the value of [e] under every
    well-typed valuation in which no symbol of [e] is [m]. *)
Theorem expr_eliminate_dups_correct `{SymTab} loops n e :
  dep_expr e = true → esize e ≤ loops → dups_fuel (esize e) ≤ n →
  ∃ e', expr_eliminate_dups loops n e = Some e' ∧
    dep_expr e' = true ∧ esize e' ≤ esize e ∧
    expr_eliminate_dups_pass n e' = Some (0%Z, e') ∧
    ∀ V, valuation_ok V → mod_free V e → expr_calc_value V e' = expr_calc_value V e.
Proof.
  intros D Hl Hn. destruct (expr_eliminate_dups_ok loops n e D Hl Hn) as (e' & ? & []). eauto 10.
Qed.

Lemma expr_eliminate_dups_correct_witness :
  ∃ e', expr_eliminate_dups 7 (dups_fuel 7) doubled = Some e' ∧
    expr_calc_value (vals tri_yes) e' = expr_calc_value (vals tri_yes) doubled.
Proof.
  destruct (expr_eliminate_dups_correct 7 (dups_fuel 7) doubled) as (e' & He & _ & _ & _ & Hv);
    [reflexivity|apply le_n|apply le_n|].
  exists e'. split; [exact He|]. apply Hv; [apply vals_ok|simpl; repeat split; discriminate].
Defined.

(** The first pass alone ([expr_eliminate_dups1], the joins of equal or
    related operands) keeps the value under every well-typed valuation, [m]
    included, for the two pointers to any two operands of the same
    connective. *)
Theorem expr_eliminate_dups1_value `{SymTab} n type p1 p2 tc e tc' e' V :
  is_op type → spine type p1 e → spine type p2 e →
  expr_eliminate_dups1 n type p1 p2 (tc, e) = Some (tc', e') →
  valuation_ok V →
  expr_calc_value V e' = expr_calc_value V e ∧ (tc ≤ tc')%Z ∧ (tc' = tc → e' = e).
Proof.
  intros Ht S1 S2 Hd HV. apply (dups1_spec (λ _ _, True)) in Hd as [Hv _ _ _ _ Hc]; auto.
  split; [by apply Hv|]. destruct Hc as [[-> ->]|[? _]]; split; auto; lia.
Qed.

Lemma expr_eliminate_dups1_value_witness :
  expr_calc_value (vals tri_mod)
    (E_AND (E_AND (E_SYMBOL symbol_yes) (E_SYMBOL symbol_yes)) (E_AND (E_SYMBOL A) (E_SYMBOL C)))
  = expr_calc_value (vals tri_mod) doubled.
Proof.
  refine (proj1 (expr_eliminate_dups1_value 20 T_AND [] [] 0 doubled 2 _ (vals tri_mod) _ _ _ _ _));
    [right; reflexivity|exact I|exact I|vm_compute; reflexivity|apply vals_ok].
Defined.

(** With [m] the second pass is wrong: [(A || B) && (!A && !B)] has the
    value [m] when [A] and [B] are [m], and is replaced by [n]. *)
Theorem expr_eliminate_dups_loses_mod :
  expr_eliminate_dups 8 200 excluded = Some (E_SYMBOL symbol_no) ∧
  valuation_ok (vals tri_mod) ∧
  expr_calc_value (vals tri_mod) excluded = tri_mod ∧
  expr_calc_value (vals tri_mod) (E_SYMBOL symbol_no) = tri_no.
Proof. split; [vm_compute; reflexivity|]. split; [apply vals_ok|]. by split. Qed.

(** Folding of [y] and [n] keeps the value under every valuation of the
    constants, and leaves no connective with a constant operand. *)
Theorem expr_eliminate_yn_correct V e :
  consts_ok V →
  expr_calc_value V (expr_eliminate_yn e) = expr_calc_value V e ∧
  yn_folded (expr_eliminate_yn e) = true ∧ esize (expr_eliminate_yn e) ≤ esize e.
Proof. auto using calc_eliminate_yn, expr_eliminate_yn_folded, esize_eliminate_yn. Qed.

Lemma expr_eliminate_yn_correct_witness :
  expr_calc_value (vals tri_mod) (expr_eliminate_yn (E_AND (E_SYMBOL A) (E_SYMBOL symbol_yes)))
  = tri_mod.
Proof.
  rewrite (proj1 (expr_eliminate_yn_correct (vals tri_mod) _ (ok_consts _ (vals_ok tri_mod)))).
  reflexivity.
Defined.

(** ** Comparison *)

(** C5: [expr_eq] returns on dependency expressions, with fuel linear in their
    size, and when it answers true the two expressions have the same value
    under every valuation. *)
Theorem expr_eq_correct n e1 e2 :
  dep_expr e1 = true → dep_expr e2 = true → 4 * (esize e1 + esize e2) ≤ n →
  ∃ b, expr_eq n e1 e2 = Some b ∧
    (b = true → ∀ V, consts_ok V → expr_calc_value V e1 = expr_calc_value V e2).
Proof.
  intros D1 D2 Hn. destruct (expr_eq_total_all n e1 e2 D1 D2 Hn) as [b Hb].
  exists b. split; [done|]. intros -> V HV. by eapply expr_eq_sound_all.
Qed.

Lemma expr_eq_correct_witness :
  expr_eq 24 (E_AND (E_SYMBOL A) (E_SYMBOL B)) (E_AND (E_SYMBOL B) (E_SYMBOL A)) = Some true ∧
  expr_calc_value (vals tri_mod) (E_AND (E_SYMBOL A) (E_SYMBOL B)) =
  expr_calc_value (vals tri_mod) (E_AND (E_SYMBOL B) (E_SYMBOL A)).
Proof.
  destruct (expr_eq_correct 24 (E_AND (E_SYMBOL A) (E_SYMBOL B)) (E_AND (E_SYMBOL B) (E_SYMBOL A)))
    as (b & Hb & Hv); [reflexivity|reflexivity|apply le_n|].
  assert (b = true) as -> by (vm_compute in Hb; congruence).
  split; [exact Hb|]. apply Hv; [reflexivity|apply (ok_consts _ (vals_ok tri_mod))].
Defined.

(** Cancelling against an expression that ends up as the top value. *)
Lemma elim_step_below V a b a' b' :
  elim_step V a b a' b' → (tri_val (expr_calc_value V a') ≤ tri_val (expr_calc_value V b'))%Z →
  (tri_val (expr_calc_value V a) ≤ tri_val (expr_calc_value V b))%Z.
Proof.
  intros [[-> ->]|(type & [-> | ->] & c & Ha & Hb)]; [done|..]; rewrite Ha, Hb; simpl;
    generalize (expr_calc_value V a') (expr_calc_value V b'); intros x y;
    destruct c, x, y; simpl; lia.
Qed.

(** The implication test of [menu_finalize]: when [expr_eliminate_eq]
    cancels the second expression down to [y] (or the first one to [n]), the
    first expression implies the second under every valuation. *)
Theorem expr_eliminate_eq_implies n tc e1 e2 tc' r1 r2 V :
  consts_ok V → expr_eliminate_eq n tc (Some e1) (Some e2) = Some (tc', Some r1, Some r2) →
  expr_is_yes (Some r2) = true ∨ expr_is_no (Some r1) = true →
  (tri_val (expr_calc_value V e1) ≤ tri_val (expr_calc_value V e2))%Z.
Proof.
  intros HV He Hr. destruct n as [|n]; [done|].
  assert (Hel : elim_eq_sound_at V n)
    by (apply elim_eq_sound_step; [done|]; intros; by apply expr_eq_sound_all).
  destruct (expr_eliminate_eq_inv _ _ _ _ _ _ _ _ Hel He)
    as (a1 & b1 & a2 & b2 & S1 & S2 & E1 & E2 & _). simplify_eq.
  eapply elim_step_below; [exact S1|]. eapply elim_step_below; [exact S2|].
  rewrite <- (calc_eliminate_yn V a2), <- (calc_eliminate_yn V b2) by done.
  destruct Hr as [->%expr_is_yes_Some| ->%expr_is_no_Some]; simpl;
    rewrite ?(ok_yes V HV), ?(ok_no V HV);
    [destruct (expr_calc_value V (expr_eliminate_yn a2))
    |destruct (expr_calc_value V (expr_eliminate_yn b2))]; simpl; lia.
Qed.

Lemma expr_eliminate_eq_implies_witness :
  (tri_val (expr_calc_value (vals tri_mod) (E_AND (E_SYMBOL A) (E_SYMBOL C)))
   ≤ tri_val (expr_calc_value (vals tri_mod) (E_SYMBOL C)))%Z.
Proof.
  apply (expr_eliminate_eq_implies 20 0 _ _ 1 (E_SYMBOL A) (E_SYMBOL symbol_yes));
    [apply (ok_consts _ (vals_ok tri_mod))|vm_compute; reflexivity|].
  left. reflexivity.
Defined.

(** ** Rewriting *)

(** C5: [expr_transform] returns on every dependency expression with fuel
    twice the height, gives a negation normal form, and keeps the value under
    every well-typed valuation. *)
Theorem expr_transform_correct `{SymTab} n e :
  dep_expr e = true → 2 * theight e ≤ n →
  ∃ r, expr_transform n e = Some r ∧ nnf r = true ∧
    ∀ V, valuation_ok V → expr_calc_value V r = expr_calc_value V e.
Proof.
  intros D Hn. destruct (transform_total e n D Hn) as (r & Hr & ? & _).
  exists r. split_and!; auto. intros V HV. by eapply calc_transform.
Qed.

Lemma expr_transform_correct_witness :
  ∃ r, expr_transform 20 (E_NOT excluded) = Some r ∧ nnf r = true ∧
    expr_calc_value (vals tri_mod) r = tri_mod.
Proof.
  destruct (expr_transform_correct 20 (E_NOT excluded)) as (r & Hr & Hn & Hv);
    [reflexivity|vm_compute; lia|].
  exists r. split; [exact Hr|]. split; [exact Hn|]. rewrite (Hv _ (vals_ok tri_mod)). reflexivity.
Defined.

(** C9: [expr_trans_compare e type sym] for [sym] one of [y] and [n] returns
    an expression whose value is that of "[e] = [sym]" or "[e] != [sym]", for
    the operands that have no [m]. *)
Theorem expr_trans_compare_correct V e type sym c :
  consts_ok V → (sym = symbol_yes ∧ c = tri_yes ∨ sym = symbol_no ∧ c = tri_no) →
  dep_expr e = true → logical V e → mod_free V e → (type = T_EQUAL ∨ type = T_UNEQUAL) →
  ∃ r, expr_trans_compare e type sym = Some (Some r) ∧ dep_expr r = true ∧
    expr_calc_value V r = compare_val type (expr_calc_value V e) c.
Proof. apply trans_compare_spec. Qed.

Lemma expr_trans_compare_correct_witness :
  ∃ r, expr_trans_compare (E_OR (E_SYMBOL A) (E_NOT (E_SYMBOL C))) T_UNEQUAL symbol_no
       = Some (Some r) ∧ expr_calc_value (vals tri_no) r = tri_no.
Proof.
  destruct (expr_trans_compare_correct (vals tri_no) (E_OR (E_SYMBOL A) (E_NOT (E_SYMBOL C)))
    T_UNEQUAL symbol_no tri_no) as (r & Hr & _ & Hv);
    [apply (ok_consts _ (vals_ok tri_no))|right; split; reflexivity|reflexivity
    |split; reflexivity|split; discriminate|right; reflexivity|].
  exists r. split; [exact Hr|]. rewrite Hv. reflexivity.
Defined.

(** With [m] it is wrong under a negation: "[!A != n]" is rewritten to
    "[A = n]", which is [n] when [A] is [m], although [!A] is then [m] and the
    comparison holds. *)
Theorem expr_trans_compare_loses_mod :
  expr_trans_compare (E_NOT (E_SYMBOL A)) T_UNEQUAL symbol_no =
    Some (Some (E_EQUAL A symbol_no)) ∧
  expr_calc_value (vals tri_mod) (E_EQUAL A symbol_no) = tri_no ∧
  compare_val T_UNEQUAL (expr_calc_value (vals tri_mod) (E_NOT (E_SYMBOL A))) tri_no = tri_yes.
Proof. done. Qed.

(** C8: [expr_trans_bool] ([FOO!=n] becomes [FOO] for a tristate symbol) may
    turn a [y] into an [m], but on normal forms it never changes whether the
    expression is [n]: what depends on it stays visible or hidden. *)
Theorem expr_trans_bool_visibility `{SymTab} V e :
  valuation_ok V → nnf e = true →
  (expr_calc_value V (expr_trans_bool e) = tri_no ↔ expr_calc_value V e = tri_no).
Proof. apply trans_bool_spec. Qed.

Lemma expr_trans_bool_visibility_witness :
  expr_calc_value (vals tri_mod) (expr_trans_bool (E_UNEQUAL A symbol_no)) <> tri_no.
Proof.
  intros E. apply (expr_trans_bool_visibility (vals tri_mod) (E_UNEQUAL A symbol_no)) in E;
    [discriminate E|apply vals_ok|reflexivity].
Defined.
