(* ===== verification/Effects.v ===== *)
(** * Stateful computations

    The monad of C functions that read and change shared structures through
    pointers: a computation returns a value and a state, or faults where the C
    code would follow a null or a dangling pointer, or has used up the fuel
    that bounds its recursion. [spec] is the triple in which the theorems about
    such functions are stated. *)

From stdpp Require Import base option list.
From S2P Require Import Prelude.

Inductive outcome (S A : Type) :=
  | Ret (a : A) (st : S)
  | Fault
  | NoFuel.
Arguments Ret {S A}.
Arguments Fault {S A}.
Arguments NoFuel {S A}.

Definition Eff (S A : Type) := S → outcome S A.

#[export] Instance Eff_ret S : MRet (Eff S) := λ A a st, Ret a st.
#[export] Instance Eff_bind S : MBind (Eff S) := λ A B f m st,
  match m st with Ret a st => f a st | Fault => Fault | NoFuel => NoFuel end.

Section Ops.
Context {S : Type}.

Definition fault {A} : Eff S A := λ _, Fault.
Definition out_of_fuel {A} : Eff S A := λ _, NoFuel.
Definition skip : Eff S unit := mret tt.
Definition gets {A} (f : S → A) : Eff S A := λ st, Ret (f st) st.
Definition modify (f : S → S) : Eff S unit := λ st, Ret tt (f st).
Definition when (b : bool) (m : Eff S unit) : Eff S unit := if b then m else skip.

Fixpoint for_each {A} (f : A → Eff S unit) (l : list A) : Eff S unit :=
  match l with [] => skip | x :: l => _ ← f x; for_each f l end.

(** ** Triples

    [spec F m st Q]: from [st], [m] returns with [Q], or faults and then [F]
    holds; it never lacks fuel. *)

Definition spec {A} (F : Prop) (m : Eff S A) (st : S) (Q : A → S → Prop) : Prop :=
  match m st with Ret a st' => Q a st' | Fault => F | NoFuel => False end.

Lemma spec_ret {A} F (a : A) st (Q : A → S → Prop) : Q a st → spec F (mret a) st Q.
Proof. done. Qed.

Lemma spec_bind {A B} F (m : Eff S A) (f : A → Eff S B) st Q :
  spec F m st (λ a st', spec F (f a) st' Q) → spec F (m ≫= f) st Q.
Proof. unfold spec. simpl. unfold mbind, Eff_bind. by destruct (m st). Qed.

Lemma spec_mono {A} F (m : Eff S A) st (Q Q' : A → S → Prop) :
  spec F m st Q → (∀ a st', Q a st' → Q' a st') → spec F m st Q'.
Proof. unfold spec. destruct (m st); auto. Qed.

End Ops.
