(* ===== verification/Qsort.v ===== *)
(** * The shell sort of [lib/qsort.c]

    [qsort] sorts [nel] elements in place with the gaps of the sequence
    1, 4, 13, 40, ... The array is a list, an element of [width] bytes is one
    entry of it, and the indices [wgap], [i] and [j] count entries: every one
    of them is a multiple of [width] in the C code ([wgap_scaled]). An access
    outside the array is [None]. *)

From S2P Require Import Prelude.
From stdpp Require Import base option list sorting.
From Stdlib Require Import ZArith Lia.

Section Qsort.
Context {A : Type} (comp : A → A → Z).

(** The exchange of the entries at [j] and [j + wgap]. *)
Definition swap (j k : nat) (a b : A) (base : list A) : list A := <[k := a]> (<[j := b]> base).

(** The innermost loop: move the entry at [j] down in steps of [wgap]. *)
Fixpoint qsort_down (n wgap j : nat) (base : list A) : option (list A) :=
  match n with
  | O => None
  | S n =>
      let j := j - wgap in
      a ← base !! j;
      b ← base !! (j + wgap);
      if (comp a b <=? 0)%Z then Some base
      else
        let base := swap j (j + wgap) a b base in
        if wgap <=? j then qsort_down n wgap j base else Some base
  end.

(** The loop on [i]; [k] bounds the remaining iterations. *)
Fixpoint qsort_pass (k wgap i : nat) (base : list A) : option (list A) :=
  match k with
  | O => None
  | S k =>
      base ← qsort_down (S i) wgap i base;
      let i := i + 1 in
      if i <? length base then qsort_pass k wgap i base else Some base
  end.

(** The loop on the gap. *)
Fixpoint qsort_gaps (k wgap : nat) (base : list A) : option (list A) :=
  match k with
  | O => None
  | S k =>
      base ← qsort_pass (length base) wgap wgap base;
      let wgap := (wgap - 1) / 3 in
      if wgap =? 0 then Some base else qsort_gaps k wgap base
  end.

(** The first gap: [do wgap = 3*wgap + 1; while (wgap < (nel-1)/3)]. *)
Fixpoint first_gap (k wgap nel : nat) : option nat :=
  match k with
  | O => None
  | S k =>
      let wgap := 3 * wgap + 1 in
      if wgap <? (nel - 1) / 3 then first_gap k wgap nel else Some wgap
  end.

Definition qsort (base : list A) : option (list A) :=
  if 1 <? length base then
    wgap ← first_gap (length base) 0 (length base);
    qsort_gaps (S wgap) wgap base
  else Some base.

(** ** Every pass permutes the array and stays inside it *)

Lemma swap_perm j k a b base :
  base !! j = Some a → base !! k = Some b → swap j k a b base ≡ₚ base.
Proof. apply Permutation_insert_swap. Qed.

Lemma swap_length j k a b base : length (swap j k a b base) = length base.
Proof. unfold swap. by rewrite !length_insert. Qed.

Lemma qsort_down_perm n wgap j base :
  1 ≤ wgap ≤ j → j < length base → j < n →
  ∃ base', qsort_down n wgap j base = Some base' ∧ base' ≡ₚ base.
Proof.
  revert j base. induction n as [|n IH]; intros j base Hw Hj Hn; [lia|]. simpl.
  destruct (lookup_lt_is_Some_2 base (j - wgap)) as [a Ha]; [lia|].
  destruct (lookup_lt_is_Some_2 base (j - wgap + wgap)) as [b Hb]; [lia|].
  rewrite Ha, Hb. simpl. destruct (comp a b <=? 0)%Z; [eauto|].
  pose proof (swap_perm _ _ _ _ _ Ha Hb) as Hp.
  destruct (Nat.leb_spec wgap (j - wgap)); [|eauto].
  destruct (IH (j - wgap) (swap (j - wgap) (j - wgap + wgap) a b base))
    as (base' & -> & Hp'); [lia|rewrite swap_length; lia|lia|].
  exists base'. split; [done|]. by rewrite Hp'.
Qed.

Lemma qsort_pass_perm k wgap i base :
  1 ≤ wgap ≤ i → i < length base → length base ≤ i + k →
  ∃ base', qsort_pass k wgap i base = Some base' ∧ base' ≡ₚ base.
Proof.
  revert i base. induction k as [|k IH]; intros i base Hw Hi Hk; [lia|]. cbn [qsort_pass].
  destruct (qsort_down_perm (S i) wgap i base) as (b1 & -> & P1); [lia..|].
  cbn [mbind option_bind]. pose proof (Permutation_length P1).
  destruct (Nat.ltb_spec (i + 1) (length b1)); [|eauto].
  destruct (IH (i + 1) b1) as (b2 & -> & P2); [lia..|].
  exists b2. split; [done|]. by rewrite P2.
Qed.

(** ** The gaps *)

Inductive gap : nat → Prop :=
  | gap_one : gap 1
  | gap_next g : gap g → gap (3 * g + 1).

Lemma gap_pos g : gap g → 1 ≤ g.
Proof. destruct 1; lia. Qed.

Lemma next_gap g : (3 * g + 1 - 1) / 3 = g.
Proof. replace (3 * g + 1 - 1) with (g * 3) by lia. by apply Nat.div_mul. Qed.

(** In bytes the C code computes the same gaps. *)
Lemma wgap_scaled g width : gap g → 1 ≤ width → (g * width - width) / 3 = (g - 1) / 3 * width.
Proof.
  intros Hg Hw. destruct Hg as [|g Hg]; [by rewrite Nat.mul_1_l, Nat.sub_diag|].
  rewrite next_gap. replace ((3 * g + 1) * width - width) with (g * width * 3) by lia.
  by apply Nat.div_mul.
Qed.

Lemma first_gap_ok k wgap nel :
  wgap = 0 ∨ gap wgap → wgap < (nel - 1) / 3 ∨ wgap = 0 → 1 < nel → nel ≤ k + wgap →
  ∃ g, first_gap k wgap nel = Some g ∧ gap g ∧ g < nel.
Proof.
  assert (D : ∀ m, 3 * (m / 3) ≤ m) by (intros m; pose proof (Nat.div_mod_eq m 3); lia).
  revert wgap. induction k as [|k IH]; intros wgap Hg Hlt Hnel Hk.
  { specialize (D (nel - 1)). lia. }
  cbn [first_gap]. specialize (D (nel - 1)).
  assert (Hg' : gap (3 * wgap + 1)) by (destruct Hg as [->|]; constructor; done).
  destruct (Nat.ltb_spec (3 * wgap + 1) ((nel - 1) / 3)).
  - apply IH; auto. lia.
  - eexists. split; [done|]. split; [done|]. lia.
Qed.

(** Whatever the comparison function, sorting ends with a permutation. *)
Lemma qsort_gaps_perm k g base :
  gap g → g < length base → g ≤ k → ∃ base', qsort_gaps k g base = Some base' ∧ base' ≡ₚ base.
Proof.
  intros Hg. revert k base. induction Hg as [|g Hg IH]; intros k base Hlt Hk;
    (destruct k as [|k]; [lia|]); cbn [qsort_gaps].
  - destruct (qsort_pass_perm (length base) 1 1 base) as (b1 & -> & P1); [lia..|]. simpl. eauto.
  - destruct (qsort_pass_perm (length base) (3 * g + 1) (3 * g + 1) base) as (b1 & -> & P1); [lia..|].
    cbn [mbind option_bind]. rewrite next_gap.
    pose proof (gap_pos g Hg). pose proof (Permutation_length P1).
    destruct (Nat.eqb_spec g 0); [lia|].
    destruct (IH k b1) as (b2 & -> & P2); [lia..|]. exists b2. split; [done|]. by rewrite P2.
Qed.

Lemma qsort_perm base : ∃ base', qsort base = Some base' ∧ base' ≡ₚ base.
Proof.
  unfold qsort. destruct (Nat.ltb_spec 1 (length base)) as [H|H]; [|eauto].
  destruct (first_gap_ok (length base) 0 (length base)) as (g & -> & Hg & Hlt); auto; [lia|].
  apply qsort_gaps_perm; auto.
Qed.

(** ** The last pass is an insertion sort *)

(** The order of the elements: [comp] orders them totally. *)
Definition ordered (a b : A) : Prop := (comp a b ≤ 0)%Z.

Context (comp_trans : ∀ a b c, ordered a b → ordered b c → ordered a c)
        (comp_total : ∀ a b, ordered a b ∨ ordered b a).

Lemma qsort_down_sorted n p x suf :
  p ≠ [] → length p < n → StronglySorted ordered p →
  ∃ q, qsort_down n 1 (length p) (p ++ x :: suf) = Some (q ++ suf) ∧
    q ≡ₚ p ++ [x] ∧ StronglySorted ordered q.
Proof.
  revert p suf. induction n as [|n IH]; intros p suf Hp Hn Hs; [lia|].
  destruct p as [|a p _] using rev_ind; [done|]. clear Hp.
  rewrite length_app in Hn |- *. simpl length in Hn |- *.
  apply StronglySorted_app in Hs as (Hpa & Hs & _).
  assert (Ha : ((p ++ [a]) ++ x :: suf) !! length p = Some a)
    by (rewrite <- app_assoc; by apply list_lookup_middle).
  assert (Hb : ((p ++ [a]) ++ x :: suf) !! (length p + 1) = Some x)
    by (apply list_lookup_middle; by rewrite length_app).
  cbn [qsort_down]. replace (length p + 1 - 1) with (length p) by lia.
  rewrite Ha. cbn [mbind option_bind]. rewrite Hb. cbn [mbind option_bind].
  destruct (Z.leb_spec (comp a x) 0) as [Hc|Hc].
  - exists ((p ++ [a]) ++ [x]). split; [by rewrite <- !app_assoc|]. split; [done|].
    apply StronglySorted_app_2; [|apply StronglySorted_app_2; auto|]; try by repeat constructor.
    intros y z Hy Hz. apply list_elem_of_singleton in Hz as ->.
    apply elem_of_app in Hy as [Hy|Hy%list_elem_of_singleton]; [|by subst].
    apply comp_trans with a; [apply Hpa; [done|by apply list_elem_of_singleton]|done].
  - assert (Hxa : ordered x a) by (destruct (comp_total a x); unfold ordered in *; [lia|done]).
    assert (E : swap (length p) (length p + 1) a x ((p ++ [a]) ++ x :: suf) = p ++ x :: a :: suf).
    { unfold swap. rewrite <- app_assoc. simpl.
      rewrite insert_app_r_alt, Nat.sub_diag by done. simpl.
      rewrite insert_app_r_alt by lia. by replace (length p + 1 - length p) with 1 by lia. }
    rewrite E. destruct p as [|b p'] eqn:Ep.
    + simpl. exists [x; a]. split; [done|]. split; [apply Permutation_swap|].
      repeat constructor. done.
    + rewrite <- Ep in *. replace (1 <=? length p) with true by (subst; done).
      destruct (IH p (a :: suf)) as (q & -> & Pq & Sq); [by subst|lia|done|].
      exists (q ++ [a]). split; [by rewrite <- app_assoc|]. split.
      * rewrite Pq, <- !app_assoc. simpl. apply Permutation_app_head, Permutation_swap.
      * apply StronglySorted_app_2; [|done|by repeat constructor].
        intros y z Hy Hz. apply list_elem_of_singleton in Hz as ->. rewrite Pq in Hy.
        apply elem_of_app in Hy as [Hy|Hy%list_elem_of_singleton]; [|by subst].
        apply Hpa; [done|by apply list_elem_of_singleton].
Qed.

Lemma qsort_pass_sorted k i base :
  1 ≤ i → i < length base → length base ≤ i + k → StronglySorted ordered (take i base) →
  ∃ base', qsort_pass k 1 i base = Some base' ∧ StronglySorted ordered base'.
Proof.
  revert i base. induction k as [|k IH]; intros i base Hi Hlt Hk Hs; [lia|]. cbn [qsort_pass].
  destruct (lookup_lt_is_Some_2 base i Hlt) as [x Hx].
  pose proof (take_drop_middle base i x Hx) as E.
  assert (L : length (take i base) = i) by (rewrite length_take; lia).
  destruct (qsort_down_sorted (S i) (take i base) x (drop (S i) base)) as (q & Hq & Pq & Sq); auto.
  { intros H. rewrite H in L. simpl in L. lia. }
  { lia. }
  rewrite L, E in Hq. rewrite Hq. cbn [mbind option_bind].
  pose proof (Permutation_length Pq) as Lq. rewrite length_app, L in Lq. simpl in Lq.
  rewrite length_app, length_drop, Lq.
  destruct (Nat.ltb_spec (i + 1) (i + 1 + (length base - S i))).
  - apply IH; [lia|rewrite length_app, length_drop; lia..|].
    by rewrite take_app_length' by done.
  - exists (q ++ drop (S i) base). split; [done|].
    by rewrite drop_ge, app_nil_r by lia.
Qed.

Lemma qsort_gaps_ok k g base :
  gap g → g < length base → g ≤ k →
  ∃ base', qsort_gaps k g base = Some base' ∧ base' ≡ₚ base ∧ StronglySorted ordered base'.
Proof.
  intros Hg. revert k base. induction Hg as [|g Hg IH]; intros k base Hlt Hk;
    (destruct k as [|k]; [lia|]); cbn [qsort_gaps].
  - destruct (qsort_pass_perm (length base) 1 1 base) as (b1 & E1 & P1); [lia..|].
    destruct (qsort_pass_sorted (length base) 1 base) as (b2 & E2 & S2); [lia..| |].
    { destruct base; repeat constructor. }
    rewrite E1 in E2 |- *. simplify_eq. simpl. eauto.
  - destruct (qsort_pass_perm (length base) (3 * g + 1) (3 * g + 1) base) as (b1 & E1 & P1); [lia..|].
    rewrite E1. cbn [mbind option_bind]. rewrite next_gap.
    pose proof (gap_pos g Hg). pose proof (Permutation_length P1).
    destruct (Nat.eqb_spec g 0); [lia|].
    destruct (IH k b1) as (b2 & -> & P2 & S2); [lia..|].
    exists b2. split; [done|]. split; [by rewrite P2|done].
Qed.

Lemma qsort_ok base :
  ∃ base', qsort base = Some base' ∧ base' ≡ₚ base ∧ StronglySorted ordered base'.
Proof.
  unfold qsort. destruct (Nat.ltb_spec 1 (length base)) as [H|H].
  - destruct (first_gap_ok (length base) 0 (length base)) as (g & -> & Hg & Hlt); auto; [lia|].
    apply qsort_gaps_ok; auto.
  - exists base. split; [done|]. split; [done|].
    destruct base as [|a [|]]; simpl in H; [..|lia]; repeat constructor.
Qed.

End Qsort.

(** C27: for every comparison function that orders the elements totally,
    [qsort] terminates without leaving the array and its result is a sorted
    permutation of the array. *)
Theorem qsort_correct {A} (comp : A → A → Z) :
  (∀ a b c, ordered comp a b → ordered comp b c → ordered comp a c) →
  (∀ a b, ordered comp a b ∨ ordered comp b a) →
  ∀ base, ∃ base', qsort comp base = Some base' ∧ base' ≡ₚ base ∧
    StronglySorted (ordered comp) base'.
Proof. intros Htr Hto base. by apply qsort_ok. Qed.

Lemma qsort_correct_witness :
  ∃ base', qsort Z.sub [3; 1; 2; 5; 4]%Z = Some base' ∧ base' ≡ₚ [3; 1; 2; 5; 4]%Z ∧
    StronglySorted (ordered Z.sub) base'.
Proof. apply (qsort_correct Z.sub); unfold ordered; intros; lia. Defined.
