(* ===== verification/Word32.v ===== *)
(** * Machine words

    [unsigned int] is 32 bits wide on the boards of this tree; a word is a
    number, and every operation that may leave the range is reduced modulo
    2^32. The file also has the byte accesses of the message digests and, as
    reference definitions, rotations and byte orders in arithmetic form. *)

From stdpp Require Import base option list numbers.
From Stdlib Require Import ZArith Lia.
From S2P Require Import Prelude.
Local Open Scope Z_scope.

Definition u32 (x : Z) : Z := x mod 2 ^ 32.

(** [x & 0xFFFFFFFF]. *)
Definition MASK32 : Z := 4294967295.

Definition isbyte (b : Z) : Prop := 0 ≤ b < 256.
Abbreviation bytes := (Forall isbyte).

(** ** Reference: rotations of 32-bit words, and words from bytes *)

Definition rotl (n x : Z) : Z := x mod 2 ^ (32 - n) * 2 ^ n + x mod 2 ^ 32 / 2 ^ (32 - n).
Definition rotr (n x : Z) : Z := rotl (32 - n) x.

Definition be_word (b : list Z) : Z := foldl (λ w x, w * 256 + x) 0 (take 4 b).
Definition le_word (b : list Z) : Z := be_word (reverse (take 4 b)).

(** The words of a block of bytes. *)
Fixpoint words (get : list Z → Z) (n : nat) (b : list Z) : list Z :=
  match n with
  | O => []
  | S n => get (take 4 b) :: words get n (drop 4 b)
  end.

(** ** Accesses as the code writes them *)

(** [GET_UINT32_BE(n, b, i)] and [PUT_UINT32_BE(n, b, i)]. *)
Definition GET_UINT32_BE (b : list Z) (i : nat) : Z :=
  Z.lor (Z.lor (Z.lor (u32 (Z.shiftl (b !!! i) 24)) (u32 (Z.shiftl (b !!! (i + 1)%nat) 16)))
    (u32 (Z.shiftl (b !!! (i + 2)%nat) 8))) (b !!! (i + 3)%nat).

Definition PUT_UINT32_BE (n : Z) : list Z :=
  [Z.land (Z.shiftr n 24) 255; Z.land (Z.shiftr n 16) 255; Z.land (Z.shiftr n 8) 255;
   Z.land n 255].

(** [memcpy] of [x] into a buffer at [off]. *)
Definition splice (off : nat) (x buf : list Z) : list Z :=
  take off buf ++ x ++ drop (off + length x) buf.

(** ** Lemmas *)

Lemma u32_range x : 0 ≤ u32 x < 2 ^ 32.
Proof. apply Z.mod_pos_bound. lia. Qed.

Lemma u32_small x : 0 ≤ x < 2 ^ 32 → u32 x = x.
Proof. apply Z.mod_small. Qed.

Lemma u32_idem x : u32 (u32 x) = u32 x.
Proof. apply u32_small, u32_range. Qed.

Lemma u32_land x : Z.land x MASK32 = u32 x.
Proof. change MASK32 with (Z.ones 32). apply Z.land_ones. lia. Qed.

Lemma u32_add_l x y : u32 (u32 x + y) = u32 (x + y).
Proof. apply Z.add_mod_idemp_l. lia. Qed.

Lemma u32_add_r x y : u32 (x + u32 y) = u32 (x + y).
Proof. apply Z.add_mod_idemp_r. lia. Qed.

(** A shifted word and what fits below it have no bits in common. *)
Lemma land_shift_small a b n : 0 ≤ n → 0 ≤ b < 2 ^ n → Z.land (a * 2 ^ n) b = 0.
Proof.
  intros Hn Hb. rewrite <- Z.shiftl_mul_pow2 by done.
  apply Z.bits_inj'. intros i Hi. rewrite Z.land_spec, Z.bits_0.
  destruct (Z.lt_ge_cases i n) as [Hl|Hl].
  - rewrite Z.shiftl_spec_low by done. done.
  - replace (Z.testbit b i) with false; [apply andb_false_r|].
    symmetry. destruct (decide (b = 0)) as [->|]; [apply Z.bits_0|].
    apply Z.bits_above_log2; [lia|].
    apply Z.log2_lt_pow2; [lia|]. eapply Z.lt_le_trans; [apply Hb|].
    apply Z.pow_le_mono_r; lia.
Qed.

Lemma lxor_add_small a b n : 0 ≤ n → 0 ≤ b < 2 ^ n → Z.lxor (a * 2 ^ n) b = a * 2 ^ n + b.
Proof. intros Hn Hb. symmetry. apply Z.add_nocarry_lxor. by apply land_shift_small. Qed.

Lemma lor_add_small a b n : 0 ≤ n → 0 ≤ b < 2 ^ n → Z.lor (a * 2 ^ n) b = a * 2 ^ n + b.
Proof.
  intros Hn Hb. rewrite <- Z.lxor_lor by by apply land_shift_small. by apply lxor_add_small.
Qed.

Lemma u32_shiftl x n : 0 ≤ n ≤ 32 → u32 (Z.shiftl x n) = x mod 2 ^ (32 - n) * 2 ^ n.
Proof.
  intros Hn. unfold u32. rewrite Z.shiftl_mul_pow2 by lia.
  replace (2 ^ 32) with (2 ^ (32 - n) * 2 ^ n) by (rewrite <- Z.pow_add_r by lia; f_equal; lia).
  rewrite Z.mul_mod_distr_r by (apply Z.pow_nonzero; lia). done.
Qed.

(** The two ways in which the code writes a rotation. *)
Lemma rotl_lor x n : 0 ≤ n ≤ 32 →
  Z.lor (u32 (Z.shiftl x n)) (Z.shiftr (u32 x) (32 - n)) = rotl n x.
Proof.
  intros Hn. rewrite u32_shiftl by done. rewrite Z.shiftr_div_pow2 by lia. unfold rotl, u32.
  apply lor_add_small; [lia|].
  split; [apply Z.div_pos; [apply Z.mod_pos_bound; lia|apply Z.pow_pos_nonneg; lia]|].
  apply Z.div_lt_upper_bound; [apply Z.pow_pos_nonneg; lia|].
  rewrite <- Z.pow_add_r by lia. replace (32 - n + n) with 32 by lia.
  apply Z.mod_pos_bound. lia.
Qed.

Lemma rotr_lor x n : 0 ≤ n ≤ 32 →
  Z.lor (Z.shiftr (u32 x) n) (u32 (Z.shiftl x (32 - n))) = rotr n x.
Proof.
  intros Hn. unfold rotr. rewrite <- (rotl_lor x (32 - n)) by lia.
  rewrite Z.lor_comm. do 3 f_equal. lia.
Qed.

(** The choice and majority functions in their optimised forms. *)
Lemma choice_xor x y z :
  Z.lxor z (Z.land x (Z.lxor y z)) = Z.lxor (Z.land x y) (Z.land (Z.lnot x) z).
Proof.
  apply Z.bits_inj'. intros i Hi.
  rewrite !Z.lxor_spec, !Z.land_spec, Z.lxor_spec, Z.lnot_spec by done.
  by destruct (Z.testbit x i), (Z.testbit y i), (Z.testbit z i).
Qed.

Lemma majority_or x y z :
  Z.lor (Z.land x y) (Z.land z (Z.lor x y)) =
  Z.lxor (Z.lxor (Z.land x y) (Z.land x z)) (Z.land y z).
Proof.
  apply Z.bits_inj'. intros i Hi.
  rewrite !Z.lxor_spec, !Z.lor_spec, !Z.land_spec, Z.lor_spec.
  by destruct (Z.testbit x i), (Z.testbit y i), (Z.testbit z i).
Qed.

(** ** Bytes and words *)

Lemma bytes_lookup_total l i : bytes l → isbyte (l !!! i).
Proof.
  intros H. rewrite list_lookup_total_alt. destruct (l !! i) eqn:E; simpl.
  - by eapply Forall_lookup_1.
  - unfold isbyte. lia.
Qed.

Lemma byte_shiftl b n : isbyte b → 0 ≤ n ≤ 24 → u32 (Z.shiftl b n) = b * 2 ^ n.
Proof.
  intros Hb Hn. unfold isbyte in Hb. rewrite Z.shiftl_mul_pow2 by lia. apply u32_small.
  assert (2 ^ n ≤ 2 ^ 24) by (apply Z.pow_le_mono_r; lia).
  assert (0 < 2 ^ n) by (apply Z.pow_pos_nonneg; lia).
  change (2 ^ 32) with (256 * 2 ^ 24). nia.
Qed.

Lemma lor_bytes a b c d : isbyte a → isbyte b → isbyte c → isbyte d →
  Z.lor (Z.lor (Z.lor (a * 2 ^ 24) (b * 2 ^ 16)) (c * 2 ^ 8)) d =
  ((a * 256 + b) * 256 + c) * 256 + d.
Proof.
  unfold isbyte. intros.
  rewrite (lor_add_small a (b * 2 ^ 16) 24) by lia.
  replace (a * 2 ^ 24 + b * 2 ^ 16) with ((a * 256 + b) * 2 ^ 16) by lia.
  rewrite (lor_add_small _ (c * 2 ^ 8) 16) by lia.
  replace ((a * 256 + b) * 2 ^ 16 + c * 2 ^ 8) with (((a * 256 + b) * 256 + c) * 2 ^ 8) by lia.
  rewrite lor_add_small by lia. lia.
Qed.

Lemma take4_lookup (b : list Z) : (4 ≤ length b)%nat →
  take 4 b = [b !!! 0%nat; b !!! 1%nat; b !!! 2%nat; b !!! 3%nat].
Proof. intros H. do 4 (destruct b as [|? b]; [simpl in H; lia|]). done. Qed.

Lemma GET_UINT32_BE_word b i : bytes b → (i + 4 ≤ length b)%nat →
  GET_UINT32_BE b i = be_word (take 4 (drop i b)).
Proof.
  intros Hb Hl. unfold be_word, GET_UINT32_BE. rewrite take_take.
  change (4 `min` 4)%nat with 4%nat.
  rewrite take4_lookup by (rewrite length_drop; lia).
  rewrite !lookup_total_drop, Nat.add_0_r. cbn [foldl].
  rewrite !byte_shiftl by (first [by apply bytes_lookup_total|lia]).
  rewrite lor_bytes by by apply bytes_lookup_total. lia.
Qed.

Lemma byte_at n k : 0 ≤ k → Z.land (Z.shiftr n k) 255 = n / 2 ^ k mod 256.
Proof.
  intros Hk. change 255 with (Z.ones 8). rewrite Z.land_ones, Z.shiftr_div_pow2 by lia. done.
Qed.

(** The four bytes of a number, the highest first. *)
Definition be_bytes (n : Z) : list Z :=
  [n / 2 ^ 24 mod 256; n / 2 ^ 16 mod 256; n / 2 ^ 8 mod 256; n mod 256].

Lemma PUT_UINT32_BE_bytes n : PUT_UINT32_BE n = be_bytes n.
Proof.
  unfold PUT_UINT32_BE, be_bytes. rewrite !byte_at by lia.
  change 255 with (Z.ones 8). by rewrite Z.land_ones by lia.
Qed.

Lemma be_bytes_ok n : bytes (be_bytes n).
Proof. repeat constructor; apply Z.mod_pos_bound; lia. Qed.

Lemma be_bytes_u32 n : be_bytes (u32 n) = be_bytes n.
Proof.
  assert (H : ∀ k, 0 ≤ k ≤ 24 → u32 n / 2 ^ k mod 256 = n / 2 ^ k mod 256).
  { intros k Hk. unfold u32. rewrite (Z.div_mod n (2 ^ 32)) at 2 by lia.
    replace (2 ^ 32 * (n / 2 ^ 32)) with (n / 2 ^ 32 * 2 ^ (24 - k) * 256 * 2 ^ k).
    2:{ replace (2 ^ 32) with (2 ^ (24 - k) * 256 * 2 ^ k) at 2; [lia|].
        change 256 with (2 ^ 8). rewrite <- !Z.pow_add_r by lia. f_equal. lia. }
    rewrite Z.div_add_l by (apply Z.pow_nonzero; lia).
    rewrite Z.add_comm, Z.mod_add by lia. done. }
  unfold be_bytes. rewrite !H by lia. f_equal. f_equal. f_equal. f_equal.
  specialize (H 0). rewrite !Z.div_1_r in H. apply H. lia.
Qed.

Lemma be_word_bytes n : 0 ≤ n < 2 ^ 32 → be_word (be_bytes n) = n.
Proof.
  intros Hn. unfold be_word, be_bytes. cbn [take foldl].
  change (2 ^ 24) with (2 ^ 8 * 2 ^ 8 * 2 ^ 8). change (2 ^ 16) with (2 ^ 8 * 2 ^ 8).
  change (2 ^ 32) with (2 ^ 8 * 2 ^ 8 * 2 ^ 8 * 2 ^ 8) in Hn. change (2 ^ 8) with 256 in *.
  rewrite <- !Z.div_div by lia.
  pose proof (Z.div_mod n 256) as E1. pose proof (Z.div_mod (n / 256) 256) as E2.
  pose proof (Z.div_mod (n / 256 / 256) 256) as E3.
  assert (E4 : n / 256 / 256 / 256 mod 256 = n / 256 / 256 / 256).
  { apply Z.mod_small. rewrite !Z.div_div by lia. split; [apply Z.div_pos; lia|].
    apply Z.div_lt_upper_bound; lia. }
  lia.
Qed.

Lemma be_bytes_word a b c d : isbyte a → isbyte b → isbyte c → isbyte d → be_bytes (be_word [a; b; c; d]) = [a; b; c; d].
Proof.
  unfold isbyte. intros Ha Hb Hc Hd. unfold be_bytes, be_word. cbn [take foldl].
  rewrite <-(Z.div_unique_pos _ (2 ^ 24) a (b * 2 ^ 16 + c * 2 ^ 8 + d)), <-(Z.div_unique_pos _ (2 ^ 16) (a * 256 + b) (c * 2 ^ 8 + d)),
    <-(Z.div_unique_pos _ (2 ^ 8) ((a * 256 + b) * 256 + c) d) by lia.
  repeat f_equal; symmetry.
  - apply (Z.mod_unique_pos _ _ 0); lia.
  - apply (Z.mod_unique_pos _ _ a); lia.
  - apply (Z.mod_unique_pos _ _ (a * 256 + b)); lia.
  - apply (Z.mod_unique_pos _ _ ((a * 256 + b) * 256 + c)); lia.
Qed.

(** ** Buffers *)

Lemma length_splice off x buf : (off + length x ≤ length buf)%nat →
  length (splice off x buf) = length buf.
Proof. intros H. unfold splice. rewrite !length_app, length_take, length_drop. lia. Qed.

Lemma take_splice off x buf : (off + length x ≤ length buf)%nat →
  take (off + length x) (splice off x buf) = take off buf ++ x.
Proof.
  intros H. unfold splice. rewrite app_assoc. apply take_app_length'.
  rewrite length_app, length_take. lia.
Qed.

Lemma bytes_splice off x buf : bytes x → bytes buf → bytes (splice off x buf).
Proof. intros. unfold splice. repeat apply Forall_app_2; auto using Forall_take, Forall_drop. Qed.

(** ** The words of a block *)

Lemma words_seq get n b : words get n b = (λ i, get (take 4 (drop (4 * i) b))) <$> seq 0 n.
Proof.
  revert b. induction n as [|n IH]; intros b; [done|].
  cbn [words seq fmap list_fmap]. rewrite IH, <- fmap_S_seq, <- list_fmap_compose.
  f_equal. apply list_fmap_ext. intros i x _. unfold compose. rewrite drop_drop.
  do 3 f_equal. lia.
Qed.

Lemma length_words get n b : length (words get n b) = n.
Proof. by rewrite words_seq, length_fmap, length_seq. Qed.

(** Reading the words of a block with [GET_UINT32_BE]. *)
Lemma GET_words data n : bytes data → (4 * n ≤ length data)%nat →
  (λ i, GET_UINT32_BE data (4 * i)) <$> seq 0 n = words be_word n data.
Proof.
  intros Hb Hl. rewrite words_seq. apply list_fmap_ext.
  intros i x Hx. apply lookup_seq in Hx as [-> Hi]. apply GET_UINT32_BE_word; [done|lia].
Qed.
