(* ===== verification/Crc.v ===== *)
(** * Checksums

    Translation of [lib/crc32.c], [lib/crc16.c] and [lib/crc7.c]: the table
    driven routines, against the shift registers of their polynomials. *)

From stdpp Require Import base option list numbers.
From Stdlib Require Import ZArith Lia.
From S2P Require Import Prelude Word32.
Local Open Scope Z_scope.

(** ** CRC-32 *)

(** The table of the source. *)
Definition crc_table : list Z :=
  [0x00000000; 0x77073096; 0xee0e612c; 0x990951ba; 0x076dc419; 0x706af48f; 0xe963a535; 0x9e6495a3;
   0x0edb8832; 0x79dcb8a4; 0xe0d5e91e; 0x97d2d988; 0x09b64c2b; 0x7eb17cbd; 0xe7b82d07; 0x90bf1d91;
   0x1db71064; 0x6ab020f2; 0xf3b97148; 0x84be41de; 0x1adad47d; 0x6ddde4eb; 0xf4d4b551; 0x83d385c7;
   0x136c9856; 0x646ba8c0; 0xfd62f97a; 0x8a65c9ec; 0x14015c4f; 0x63066cd9; 0xfa0f3d63; 0x8d080df5;
   0x3b6e20c8; 0x4c69105e; 0xd56041e4; 0xa2677172; 0x3c03e4d1; 0x4b04d447; 0xd20d85fd; 0xa50ab56b;
   0x35b5a8fa; 0x42b2986c; 0xdbbbc9d6; 0xacbcf940; 0x32d86ce3; 0x45df5c75; 0xdcd60dcf; 0xabd13d59;
   0x26d930ac; 0x51de003a; 0xc8d75180; 0xbfd06116; 0x21b4f4b5; 0x56b3c423; 0xcfba9599; 0xb8bda50f;
   0x2802b89e; 0x5f058808; 0xc60cd9b2; 0xb10be924; 0x2f6f7c87; 0x58684c11; 0xc1611dab; 0xb6662d3d;
   0x76dc4190; 0x01db7106; 0x98d220bc; 0xefd5102a; 0x71b18589; 0x06b6b51f; 0x9fbfe4a5; 0xe8b8d433;
   0x7807c9a2; 0x0f00f934; 0x9609a88e; 0xe10e9818; 0x7f6a0dbb; 0x086d3d2d; 0x91646c97; 0xe6635c01;
   0x6b6b51f4; 0x1c6c6162; 0x856530d8; 0xf262004e; 0x6c0695ed; 0x1b01a57b; 0x8208f4c1; 0xf50fc457;
   0x65b0d9c6; 0x12b7e950; 0x8bbeb8ea; 0xfcb9887c; 0x62dd1ddf; 0x15da2d49; 0x8cd37cf3; 0xfbd44c65;
   0x4db26158; 0x3ab551ce; 0xa3bc0074; 0xd4bb30e2; 0x4adfa541; 0x3dd895d7; 0xa4d1c46d; 0xd3d6f4fb;
   0x4369e96a; 0x346ed9fc; 0xad678846; 0xda60b8d0; 0x44042d73; 0x33031de5; 0xaa0a4c5f; 0xdd0d7cc9;
   0x5005713c; 0x270241aa; 0xbe0b1010; 0xc90c2086; 0x5768b525; 0x206f85b3; 0xb966d409; 0xce61e49f;
   0x5edef90e; 0x29d9c998; 0xb0d09822; 0xc7d7a8b4; 0x59b33d17; 0x2eb40d81; 0xb7bd5c3b; 0xc0ba6cad;
   0xedb88320; 0x9abfb3b6; 0x03b6e20c; 0x74b1d29a; 0xead54739; 0x9dd277af; 0x04db2615; 0x73dc1683;
   0xe3630b12; 0x94643b84; 0x0d6d6a3e; 0x7a6a5aa8; 0xe40ecf0b; 0x9309ff9d; 0x0a00ae27; 0x7d079eb1;
   0xf00f9344; 0x8708a3d2; 0x1e01f268; 0x6906c2fe; 0xf762575d; 0x806567cb; 0x196c3671; 0x6e6b06e7;
   0xfed41b76; 0x89d32be0; 0x10da7a5a; 0x67dd4acc; 0xf9b9df6f; 0x8ebeeff9; 0x17b7be43; 0x60b08ed5;
   0xd6d6a3e8; 0xa1d1937e; 0x38d8c2c4; 0x4fdff252; 0xd1bb67f1; 0xa6bc5767; 0x3fb506dd; 0x48b2364b;
   0xd80d2bda; 0xaf0a1b4c; 0x36034af6; 0x41047a60; 0xdf60efc3; 0xa867df55; 0x316e8eef; 0x4669be79;
   0xcb61b38c; 0xbc66831a; 0x256fd2a0; 0x5268e236; 0xcc0c7795; 0xbb0b4703; 0x220216b9; 0x5505262f;
   0xc5ba3bbe; 0xb2bd0b28; 0x2bb45a92; 0x5cb36a04; 0xc2d7ffa7; 0xb5d0cf31; 0x2cd99e8b; 0x5bdeae1d;
   0x9b64c2b0; 0xec63f226; 0x756aa39c; 0x026d930a; 0x9c0906a9; 0xeb0e363f; 0x72076785; 0x05005713;
   0x95bf4a82; 0xe2b87a14; 0x7bb12bae; 0x0cb61b38; 0x92d28e9b; 0xe5d5be0d; 0x7cdcefb7; 0x0bdbdf21;
   0x86d3d2d4; 0xf1d4e242; 0x68ddb3f8; 0x1fda836e; 0x81be16cd; 0xf6b9265b; 0x6fb077e1; 0x18b74777;
   0x88085ae6; 0xff0f6a70; 0x66063bca; 0x11010b5c; 0x8f659eff; 0xf862ae69; 0x616bffd3; 0x166ccf45;
   0xa00ae278; 0xd70dd2ee; 0x4e048354; 0x3903b3c2; 0xa7672661; 0xd06016f7; 0x4969474d; 0x3e6e77db;
   0xaed16a4a; 0xd9d65adc; 0x40df0b66; 0x37d83bf0; 0xa9bcae53; 0xdebb9ec5; 0x47b2cf7f; 0x30b5ffe9;
   0xbdbdf21c; 0xcabac28a; 0x53b39330; 0x24b4a3a6; 0xbad03605; 0xcdd70693; 0x54de5729; 0x23d967bf;
   0xb3667a2e; 0xc4614ab8; 0x5d681b02; 0x2a6f2b94; 0xb40bbe37; 0xc30c8ea1; 0x5a05df1b; 0x2d02ef8d].

(** The terms of the polynomial, and the body of the inner loop of
    [make_crc_table]. *)
Definition crc_terms : list nat := [0; 1; 2; 4; 5; 7; 8; 10; 11; 12; 16; 22; 23; 26]%nat.

Definition crc_poly : Z := foldl (λ poly p, Z.lor poly (Z.shiftl 1 (31 - Z.of_nat p))) 0 crc_terms.

Definition crc_shift (poly c : Z) : Z :=
  if Z.odd c then Z.lxor poly (Z.shiftr c 1) else Z.shiftr c 1.

Definition make_crc_table : list Z := (λ n, Nat.iter 8 (crc_shift crc_poly) (Z.of_nat n)) <$> seq 0 256.

(** [uswap_32]. *)
Definition uswap_32 (x : Z) : Z :=
  Z.lor (Z.lor (Z.lor (Z.shiftr (Z.land x 0xff000000) 24) (Z.shiftr (Z.land x 0x00ff0000) 8))
    (Z.shiftl (Z.land x 0x0000ff00) 8)) (Z.shiftl (Z.land x 0x000000ff) 24).

Section Crc32.
(** The byte order of the machine. *)
Context (big : bool).

Definition cpu_to_le32 (x : Z) : Z := if big then uswap_32 x else x.

(** A word in memory. *)
Definition load32 (b : list Z) : Z := if big then be_word b else le_word b.

(** [DO_CRC(x)]; the entries of the table are stored with [tole]. *)
Definition DO_CRC (crc x : Z) : Z :=
  if big then
    Z.lxor (cpu_to_le32 (crc_table !!! Z.to_nat (Z.land (Z.lxor (Z.shiftr crc 24) x) 255))) (u32 (Z.shiftl crc 8))
  else Z.lxor (cpu_to_le32 (crc_table !!! Z.to_nat (Z.land (Z.lxor crc x) 255))) (Z.shiftr crc 8).

(** The loop up to a multiple of four bytes; [p] is the address. *)
Fixpoint crc_align (p : Z) (buf : list Z) (crc : Z) : list Z * Z :=
  match buf with
  | [] => ([], crc)
  | x :: buf' => if Z.land p 3 =? 0 then (buf, crc) else crc_align (p + 1) buf' (DO_CRC crc x)
  end.

(** The loop over [len] words. *)
Fixpoint crc_words (len : nat) (buf : list Z) (crc : Z) : list Z * Z :=
  match len with
  | O => (buf, crc)
  | S len =>
      let crc := Z.lxor crc (load32 (take 4 buf)) in
      crc_words len (drop 4 buf) (DO_CRC (DO_CRC (DO_CRC (DO_CRC crc 0) 0) 0) 0)
  end.

(** The checksum of [buf] at address [p]. *)
Definition crc32_no_comp (crc p : Z) (buf : list Z) : Z :=
  let crc := cpu_to_le32 crc in
  let '(buf, crc) := crc_align p buf crc in
  let rem_len := (length buf mod 4)%nat in
  let '(buf, crc) := crc_words (length buf / 4) buf crc in
  cpu_to_le32 (foldl DO_CRC crc (take rem_len buf)).

Definition crc32 (crc p : Z) (buf : list Z) : Z :=
  Z.lxor (crc32_no_comp (Z.lxor crc 0xffffffff) p buf) 0xffffffff.

(** [crc32_wd] with a watchdog: the input in pieces of at most [chunk_sz]. *)
Fixpoint crc32_wd (fuel : nat) (crc curr : Z) (buf : list Z) (chunk_sz : nat) : option Z :=
  match buf, fuel with
  | [], _ => Some crc
  | _, O => None
  | _, S fuel =>
      let chunk := Nat.min (length buf) chunk_sz in
      crc32_wd fuel (crc32 crc curr (take chunk buf)) (curr + Z.of_nat chunk) (drop chunk buf) chunk_sz
  end.

(** [htonl]; the result goes to memory in the byte order of the machine. *)
Definition htonl (x : Z) : Z := if big then x else uswap_32 x.
Definition store32 (x : Z) : list Z := if big then PUT_UINT32_BE x else reverse (PUT_UINT32_BE x).

Definition crc32_wd_buf (fuel : nat) (p : Z) (input : list Z) (chunk_sz : nat) : option (list Z) :=
  crc ← crc32_wd fuel 0 p input chunk_sz;
  Some (store32 (htonl crc)).

End Crc32.

(** ** CRC-16 and CRC-7 *)

Definition crc16_tab : list Z :=
  [0x0000; 0x1021; 0x2042; 0x3063; 0x4084; 0x50a5; 0x60c6; 0x70e7; 0x8108; 0x9129; 0xa14a; 0xb16b;
   0xc18c; 0xd1ad; 0xe1ce; 0xf1ef; 0x1231; 0x0210; 0x3273; 0x2252; 0x52b5; 0x4294; 0x72f7; 0x62d6;
   0x9339; 0x8318; 0xb37b; 0xa35a; 0xd3bd; 0xc39c; 0xf3ff; 0xe3de; 0x2462; 0x3443; 0x0420; 0x1401;
   0x64e6; 0x74c7; 0x44a4; 0x5485; 0xa56a; 0xb54b; 0x8528; 0x9509; 0xe5ee; 0xf5cf; 0xc5ac; 0xd58d;
   0x3653; 0x2672; 0x1611; 0x0630; 0x76d7; 0x66f6; 0x5695; 0x46b4; 0xb75b; 0xa77a; 0x9719; 0x8738;
   0xf7df; 0xe7fe; 0xd79d; 0xc7bc; 0x48c4; 0x58e5; 0x6886; 0x78a7; 0x0840; 0x1861; 0x2802; 0x3823;
   0xc9cc; 0xd9ed; 0xe98e; 0xf9af; 0x8948; 0x9969; 0xa90a; 0xb92b; 0x5af5; 0x4ad4; 0x7ab7; 0x6a96;
   0x1a71; 0x0a50; 0x3a33; 0x2a12; 0xdbfd; 0xcbdc; 0xfbbf; 0xeb9e; 0x9b79; 0x8b58; 0xbb3b; 0xab1a;
   0x6ca6; 0x7c87; 0x4ce4; 0x5cc5; 0x2c22; 0x3c03; 0x0c60; 0x1c41; 0xedae; 0xfd8f; 0xcdec; 0xddcd;
   0xad2a; 0xbd0b; 0x8d68; 0x9d49; 0x7e97; 0x6eb6; 0x5ed5; 0x4ef4; 0x3e13; 0x2e32; 0x1e51; 0x0e70;
   0xff9f; 0xefbe; 0xdfdd; 0xcffc; 0xbf1b; 0xaf3a; 0x9f59; 0x8f78; 0x9188; 0x81a9; 0xb1ca; 0xa1eb;
   0xd10c; 0xc12d; 0xf14e; 0xe16f; 0x1080; 0x00a1; 0x30c2; 0x20e3; 0x5004; 0x4025; 0x7046; 0x6067;
   0x83b9; 0x9398; 0xa3fb; 0xb3da; 0xc33d; 0xd31c; 0xe37f; 0xf35e; 0x02b1; 0x1290; 0x22f3; 0x32d2;
   0x4235; 0x5214; 0x6277; 0x7256; 0xb5ea; 0xa5cb; 0x95a8; 0x8589; 0xf56e; 0xe54f; 0xd52c; 0xc50d;
   0x34e2; 0x24c3; 0x14a0; 0x0481; 0x7466; 0x6447; 0x5424; 0x4405; 0xa7db; 0xb7fa; 0x8799; 0x97b8;
   0xe75f; 0xf77e; 0xc71d; 0xd73c; 0x26d3; 0x36f2; 0x0691; 0x16b0; 0x6657; 0x7676; 0x4615; 0x5634;
   0xd94c; 0xc96d; 0xf90e; 0xe92f; 0x99c8; 0x89e9; 0xb98a; 0xa9ab; 0x5844; 0x4865; 0x7806; 0x6827;
   0x18c0; 0x08e1; 0x3882; 0x28a3; 0xcb7d; 0xdb5c; 0xeb3f; 0xfb1e; 0x8bf9; 0x9bd8; 0xabbb; 0xbb9a;
   0x4a75; 0x5a54; 0x6a37; 0x7a16; 0x0af1; 0x1ad0; 0x2ab3; 0x3a92; 0xfd2e; 0xed0f; 0xdd6c; 0xcd4d;
   0xbdaa; 0xad8b; 0x9de8; 0x8dc9; 0x7c26; 0x6c07; 0x5c64; 0x4c45; 0x3ca2; 0x2c83; 0x1ce0; 0x0cc1;
   0xef1f; 0xff3e; 0xcf5d; 0xdf7c; 0xaf9b; 0xbfba; 0x8fd9; 0x9ff8; 0x6e17; 0x7e36; 0x4e55; 0x5e74;
   0x2e93; 0x3eb2; 0x0ed1; 0x1ef0].

(** [uint16_t cksum] is promoted to [int] and cut when it is stored. *)
Definition cyg_crc16 (buf : list Z) : Z :=
  foldl (λ cksum x,
    Z.land (Z.lxor (crc16_tab !!! Z.to_nat (Z.land (Z.lxor (Z.shiftr cksum 8) x) 255)) (Z.shiftl cksum 8)) 0xffff)
    0 buf.

Definition crc7_syndrome_table : list Z :=
  [0x00; 0x09; 0x12; 0x1b; 0x24; 0x2d; 0x36; 0x3f; 0x48; 0x41; 0x5a; 0x53; 0x6c; 0x65; 0x7e; 0x77;
   0x19; 0x10; 0x0b; 0x02; 0x3d; 0x34; 0x2f; 0x26; 0x51; 0x58; 0x43; 0x4a; 0x75; 0x7c; 0x67; 0x6e;
   0x32; 0x3b; 0x20; 0x29; 0x16; 0x1f; 0x04; 0x0d; 0x7a; 0x73; 0x68; 0x61; 0x5e; 0x57; 0x4c; 0x45;
   0x2b; 0x22; 0x39; 0x30; 0x0f; 0x06; 0x1d; 0x14; 0x63; 0x6a; 0x71; 0x78; 0x47; 0x4e; 0x55; 0x5c;
   0x64; 0x6d; 0x76; 0x7f; 0x40; 0x49; 0x52; 0x5b; 0x2c; 0x25; 0x3e; 0x37; 0x08; 0x01; 0x1a; 0x13;
   0x7d; 0x74; 0x6f; 0x66; 0x59; 0x50; 0x4b; 0x42; 0x35; 0x3c; 0x27; 0x2e; 0x11; 0x18; 0x03; 0x0a;
   0x56; 0x5f; 0x44; 0x4d; 0x72; 0x7b; 0x60; 0x69; 0x1e; 0x17; 0x0c; 0x05; 0x3a; 0x33; 0x28; 0x21;
   0x4f; 0x46; 0x5d; 0x54; 0x6b; 0x62; 0x79; 0x70; 0x07; 0x0e; 0x15; 0x1c; 0x23; 0x2a; 0x31; 0x38;
   0x41; 0x48; 0x53; 0x5a; 0x65; 0x6c; 0x77; 0x7e; 0x09; 0x00; 0x1b; 0x12; 0x2d; 0x24; 0x3f; 0x36;
   0x58; 0x51; 0x4a; 0x43; 0x7c; 0x75; 0x6e; 0x67; 0x10; 0x19; 0x02; 0x0b; 0x34; 0x3d; 0x26; 0x2f;
   0x73; 0x7a; 0x61; 0x68; 0x57; 0x5e; 0x45; 0x4c; 0x3b; 0x32; 0x29; 0x20; 0x1f; 0x16; 0x0d; 0x04;
   0x6a; 0x63; 0x78; 0x71; 0x4e; 0x47; 0x5c; 0x55; 0x22; 0x2b; 0x30; 0x39; 0x06; 0x0f; 0x14; 0x1d;
   0x25; 0x2c; 0x37; 0x3e; 0x01; 0x08; 0x13; 0x1a; 0x6d; 0x64; 0x7f; 0x76; 0x49; 0x40; 0x5b; 0x52;
   0x3c; 0x35; 0x2e; 0x27; 0x18; 0x11; 0x0a; 0x03; 0x74; 0x7d; 0x66; 0x6f; 0x50; 0x59; 0x42; 0x4b;
   0x17; 0x1e; 0x05; 0x0c; 0x33; 0x3a; 0x21; 0x28; 0x5f; 0x56; 0x4d; 0x44; 0x7b; 0x72; 0x69; 0x60;
   0x0e; 0x07; 0x1c; 0x15; 0x2a; 0x23; 0x38; 0x31; 0x46; 0x4f; 0x54; 0x5d; 0x62; 0x6b; 0x70; 0x79].

(** The index is not cut: a value above 127 reads beyond the table. *)
Definition crc7_byte (crc data : Z) : option Z :=
  crc7_syndrome_table !! Z.to_nat (Z.lxor (Z.shiftl crc 1) data).

Fixpoint crc7 (crc : Z) (buffer : list Z) : option Z :=
  match buffer with
  | [] => Some crc
  | x :: buffer => crc ← crc7_byte crc x; crc7 crc buffer
  end.

(** ** Reference: shift registers

    The bits of a byte in the order in which they enter the register. *)

Fixpoint low_bits (k : nat) (x : Z) : list bool :=
  match k with O => [] | S k => Z.odd x :: low_bits k (Z.div2 x) end.

Definition message_bits (buf : list Z) : list bool := buf ≫= low_bits 8.

(** The register of a reflected polynomial: the lowest bit is the next. *)
Definition crc_bit (poly c : Z) (b : bool) : Z := crc_shift poly (Z.lxor c (Z.b2z b)).
Definition crc_serial (poly c : Z) (l : list bool) : Z := foldl (crc_bit poly) c l.

(** The register of [w] bits of a polynomial: the highest bit is the next. *)
Definition msb_shift (w poly c : Z) : Z :=
  let d := Z.land (Z.shiftl c 1) (Z.ones w) in
  if Z.testbit c (w - 1) then Z.lxor poly d else d.
Definition msb_bit (w poly c : Z) (b : bool) : Z := msb_shift w poly (Z.lxor c (Z.shiftl (Z.b2z b) (w - 1))).
Definition msb_serial (w poly c : Z) (l : list bool) : Z := foldl (msb_bit w poly) c l.

Definition message_bits_msb (buf : list Z) : list bool := buf ≫= (λ x, reverse (low_bits 8 x)).

(** ** Exclusive or *)

Lemma lxor_swap a b c d : Z.lxor (Z.lxor a b) (Z.lxor c d) = Z.lxor (Z.lxor a c) (Z.lxor b d).
Proof. rewrite !Z.lxor_assoc. f_equal. rewrite <-!Z.lxor_assoc. f_equal. apply Z.lxor_comm. Qed.

Lemma lxor_range n a b : 0 ≤ n → 0 ≤ a < 2 ^ n → 0 ≤ b < 2 ^ n → 0 ≤ Z.lxor a b < 2 ^ n.
Proof.
  intros Hn Ha Hb. rewrite <-(Z.mod_small a (2 ^ n)), <-(Z.mod_small b (2 ^ n)), <-!Z.land_ones by done.
  replace (Z.lxor (Z.land a (Z.ones n)) (Z.land b (Z.ones n))) with (Z.land (Z.lxor a b) (Z.ones n)).
  - rewrite Z.land_ones by done. apply Z.mod_pos_bound. lia.
  - apply Z.bits_inj'. intros i Hi. rewrite !Z.lxor_spec, !Z.land_spec, Z.lxor_spec.
    by destruct (Z.testbit a i), (Z.testbit b i), (Z.testbit (Z.ones n) i).
Qed.

Lemma lxor_cancel a b c : Z.lxor a b = Z.lxor a c → b = c.
Proof. intros H. apply (f_equal (Z.lxor a)) in H. by rewrite <-!Z.lxor_assoc, Z.lxor_nilpotent, !Z.lxor_0_l in H. Qed.

Lemma odd_lxor a b : Z.odd (Z.lxor a b) = xorb (Z.odd a) (Z.odd b).
Proof. rewrite <-!Z.bit0_odd. apply Z.lxor_spec. Qed.

(** ** The reflected register *)

Section Reflected.
Context (poly : Z).

Lemma crc_shift_lxor a b : crc_shift poly (Z.lxor a b) = Z.lxor (crc_shift poly a) (crc_shift poly b).
Proof.
  unfold crc_shift. rewrite odd_lxor, Z.shiftr_lxor. apply Z.bits_inj'. intros i Hi.
  destruct (Z.odd a), (Z.odd b); cbn [xorb]; rewrite !Z.lxor_spec;
    by destruct (Z.testbit poly i), (Z.testbit (Z.shiftr a 1) i), (Z.testbit (Z.shiftr b 1) i).
Qed.

Lemma crc_iter_lxor k a b :
  Nat.iter k (crc_shift poly) (Z.lxor a b) = Z.lxor (Nat.iter k (crc_shift poly) a) (Nat.iter k (crc_shift poly) b).
Proof. induction k as [|k IH]; [done|]. simpl. by rewrite IH, crc_shift_lxor. Qed.

Lemma crc_shift_even a : crc_shift poly (2 * a) = a.
Proof.
  unfold crc_shift. rewrite Z.odd_mul. simpl. rewrite Z.shiftr_div_pow2 by lia.
  change (2 ^ 1) with 2. rewrite Z.mul_comm. apply Z.div_mul. lia.
Qed.

Lemma iter_succ {A} k (f : A → A) a : Nat.iter (S k) f a = Nat.iter k f (f a).
Proof. induction k as [|k IH]; [done|]. simpl in *. by rewrite IH. Qed.

Lemma crc_iter_high k a : Nat.iter k (crc_shift poly) (a * 2 ^ Z.of_nat k) = a.
Proof.
  induction k as [|k IH]; [simpl; lia|]. rewrite iter_succ, Nat2Z.inj_succ, Z.pow_succ_r by lia.
  replace (a * (2 * 2 ^ Z.of_nat k)) with (2 * (a * 2 ^ Z.of_nat k)) by lia. by rewrite crc_shift_even.
Qed.

(** The number that some bits make, the lowest first. *)
Fixpoint bits_val (l : list bool) : Z :=
  match l with [] => 0 | b :: l => Z.b2z b + 2 * bits_val l end.

Lemma bits_val_split b l : bits_val (b :: l) = Z.lxor (Z.b2z b) (2 * bits_val l).
Proof.
  simpl. rewrite Z.add_nocarry_lxor; [done|]. apply Z.bits_inj'. intros i Hi. rewrite Z.land_spec, Z.bits_0.
  destruct (decide (i = 0)) as [->|].
  - rewrite Z.testbit_even_0. apply andb_false_r.
  - destruct b; [|by rewrite Z.bits_0]. change (Z.b2z true) with (2 ^ 0).
    by rewrite Z.pow2_bits_false by lia.
Qed.

Lemma crc_serial_val l c : crc_serial poly c l = Nat.iter (length l) (crc_shift poly) (Z.lxor c (bits_val l)).
Proof.
  revert c. induction l as [|b l IH]; intros c; [simpl; by rewrite Z.lxor_0_r|].
  change (crc_serial poly c (b :: l)) with (crc_serial poly (crc_bit poly c b) l).
  rewrite IH. cbn [length]. rewrite iter_succ, bits_val_split, <-Z.lxor_assoc, (crc_shift_lxor (Z.lxor c _)).
  by rewrite crc_shift_even.
Qed.

Lemma bits_val_range l : 0 ≤ bits_val l < 2 ^ Z.of_nat (length l).
Proof.
  induction l as [|b l IH]; [done|]. cbn [bits_val length]. rewrite Nat2Z.inj_succ, Z.pow_succ_r by lia.
  destruct b; simpl Z.b2z; lia.
Qed.

Lemma bits_val_inj l l' : length l = length l' → bits_val l = bits_val l' → l = l'.
Proof.
  revert l'. induction l as [|b l IH]; intros [|b' l'] Hl E; try done. cbn [bits_val] in E. injection Hl as Hl.
  assert (b = b' ∧ bits_val l = bits_val l') as [-> E'] by (destruct b, b'; simpl in E; lia).
  f_equal. by apply IH.
Qed.

Lemma low_bits_val k x : 0 ≤ x < 2 ^ Z.of_nat k → bits_val (low_bits k x) = x.
Proof.
  revert x. induction k as [|k IH]; intros x Hx; [simpl in *; lia|].
  rewrite Nat2Z.inj_succ, Z.pow_succ_r in Hx by lia. cbn [low_bits bits_val].
  rewrite IH. 2: { rewrite Z.div2_div. split; [apply Z.div_pos; lia|apply Z.div_lt_upper_bound; lia]. }
  rewrite Z.add_comm. symmetry. apply Z.div2_odd.
Qed.

Lemma length_low_bits k x : length (low_bits k x) = k.
Proof. revert x. induction k as [|k IH]; intros x; [done|]. cbn. by rewrite IH. Qed.

(** A byte at a time. *)
Definition crc_byte (c x : Z) : Z := Nat.iter 8 (crc_shift poly) (Z.lxor c x).

Lemma crc_serial_app c l l' : crc_serial poly c (l ++ l') = crc_serial poly (crc_serial poly c l) l'.
Proof. apply foldl_app. Qed.

Lemma crc_serial_bytes c buf : bytes buf → crc_serial poly c (message_bits buf) = foldl crc_byte c buf.
Proof.
  revert c. induction buf as [|x buf IH]; intros c; [done|]. intros [Hx Hb]%Forall_cons_1.
  change (message_bits (x :: buf)) with (low_bits 8 x ++ message_bits buf).
  rewrite crc_serial_app, (crc_serial_val (low_bits 8 x)), length_low_bits, low_bits_val by exact Hx.
  by apply IH.
Qed.

(** With a constant term, no step loses information. *)
Context (Hpoly : 2 ^ 31 ≤ poly < 2 ^ 32).

Lemma crc_shift_range c : 0 ≤ c < 2 ^ 32 → 0 ≤ crc_shift poly c < 2 ^ 32.
Proof.
  intros Hc. assert (0 ≤ Z.shiftr c 1 < 2 ^ 32).
  { rewrite Z.shiftr_div_pow2 by lia. split; [apply Z.div_pos; lia|apply Z.div_lt_upper_bound; lia]. }
  unfold crc_shift. destruct (Z.odd c); [apply lxor_range; lia|done].
Qed.

Lemma crc_shift_top c : 0 ≤ c < 2 ^ 32 → Z.testbit (crc_shift poly c) 31 = Z.odd c.
Proof.
  intros Hc. assert (E : Z.testbit (Z.shiftr c 1) 31 = false).
  { rewrite Z.shiftr_spec by lia. destruct (decide (c = 0)) as [->|]; [done|].
    apply Z.bits_above_log2; [lia|]. apply Z.log2_lt_pow2; [lia|]. by simpl; lia. }
  assert (Ep : Z.testbit poly 31 = true).
  { rewrite Z.testbit_odd, Z.shiftr_div_pow2 by lia.
    by rewrite <-(Z.div_unique poly (2 ^ 31) 1 (poly - 2 ^ 31)) by lia. }
  unfold crc_shift. destruct (Z.odd c); rewrite ?Z.lxor_spec, ?E, ?Ep; done.
Qed.

Lemma crc_shift_inj a b : 0 ≤ a < 2 ^ 32 → 0 ≤ b < 2 ^ 32 → crc_shift poly a = crc_shift poly b → a = b.
Proof.
  intros Ha Hb E. assert (Eo : Z.odd a = Z.odd b) by (by rewrite <-!crc_shift_top, E).
  unfold crc_shift in E. rewrite Eo in E. assert (Ed : Z.shiftr a 1 = Z.shiftr b 1).
  { destruct (Z.odd b); [by apply lxor_cancel in E|done]. }
  rewrite (Z.div2_odd a), (Z.div2_odd b), Eo, !Z.div2_spec, Ed. done.
Qed.

Lemma crc_bit_range c b : 0 ≤ c < 2 ^ 32 → 0 ≤ crc_bit poly c b < 2 ^ 32.
Proof. intros Hc. apply crc_shift_range, lxor_range; [lia|lia|destruct b; simpl; lia]. Qed.

Lemma crc_serial_range c l : 0 ≤ c < 2 ^ 32 → 0 ≤ crc_serial poly c l < 2 ^ 32.
Proof.
  revert c. induction l as [|b l IH]; intros c Hc; [done|]. by apply (IH (crc_bit poly c b)), crc_bit_range.
Qed.

Lemma crc_serial_inj a b l : 0 ≤ a < 2 ^ 32 → 0 ≤ b < 2 ^ 32 → crc_serial poly a l = crc_serial poly b l → a = b.
Proof.
  revert a b. induction l as [|x l IH]; intros a b Ha Hb E; [done|].
  apply IH in E; [|by apply crc_bit_range..]. apply crc_shift_inj in E.
  - by rewrite !(Z.lxor_comm _ (Z.b2z x)) in E; apply lxor_cancel in E.
  - apply lxor_range; [lia|lia|destruct x; simpl; lia].
  - apply lxor_range; [lia|lia|destruct x; simpl; lia].
Qed.

Lemma crc_iter_inj k a b : 0 ≤ a < 2 ^ 32 → 0 ≤ b < 2 ^ 32 →
  Nat.iter k (crc_shift poly) a = Nat.iter k (crc_shift poly) b → a = b.
Proof.
  revert a b. induction k as [|k IH]; intros a b Ha Hb E; [done|]. rewrite !iter_succ in E.
  apply IH in E; [by apply crc_shift_inj in E|by apply crc_shift_range..].
Qed.

(** Two messages that differ in at most 32 neighbouring bits. *)
Lemma serial_burst c p u v q :
  0 ≤ c < 2 ^ 32 → length u = length v → (length u ≤ 32)%nat →
  crc_serial poly c (p ++ u ++ q) = crc_serial poly c (p ++ v ++ q) → u = v.
Proof.
  intros Hc Hl Hn. rewrite !crc_serial_app.
  set (d := crc_serial poly c p). assert (Hd : 0 ≤ d < 2 ^ 32) by by apply crc_serial_range.
  intros E. assert (Hw : ∀ l, (length l ≤ 32)%nat → 0 ≤ Z.lxor d (bits_val l) < 2 ^ 32).
  { intros l Hll. apply lxor_range; [lia|done|]. pose proof (bits_val_range l).
    assert (2 ^ Z.of_nat (length l) ≤ 2 ^ 32) by (apply Z.pow_le_mono_r; lia). lia. }
  apply (crc_serial_inj (crc_serial poly d u) (crc_serial poly d v)) in E; [|by apply crc_serial_range..].
  rewrite !crc_serial_val, <-Hl in E. apply crc_iter_inj in E; [|by apply Hw|apply Hw; lia].
  apply lxor_cancel in E. by apply bits_val_inj.
Qed.

End Reflected.

(** ** The table-driven routine *)

Lemma crc_table_made : crc_table = make_crc_table.
Proof. by vm_compute. Qed.

Lemma crc_table_lookup n : isbyte n → crc_table !!! Z.to_nat n = Nat.iter 8 (crc_shift crc_poly) n.
Proof.
  intros [H0 H1]. rewrite crc_table_made. apply list_lookup_total_correct. unfold make_crc_table.
  rewrite list_lookup_fmap, lookup_seq_lt by lia. cbn [fmap option_fmap option_map]. by rewrite Nat.add_0_l, Z2Nat.id.
Qed.

Lemma crc_poly_range : 2 ^ 31 ≤ crc_poly < 2 ^ 32.
Proof. by vm_compute. Qed.

Abbreviation byte_step := (crc_byte crc_poly).

(** A number from its low byte and the rest. *)
Lemma low_byte y : y = Z.lxor (Z.land y 255) (Z.shiftr y 8 * 2 ^ Z.of_nat 8).
Proof.
  apply Z.bits_inj'. intros i Hi. change (2 ^ Z.of_nat 8) with (2 ^ 8). change 255 with (Z.ones 8).
  rewrite <-Z.shiftl_mul_pow2, Z.lxor_spec, Z.land_spec by lia. destruct (decide (i < 8)).
  - rewrite Z.ones_spec_low, Z.shiftl_spec_low by lia. by destruct (Z.testbit y i).
  - rewrite Z.ones_spec_high, Z.shiftl_spec_high, Z.shiftr_spec, Z.sub_add by lia. by destruct (Z.testbit y i).
Qed.

Lemma byte_step_range c x : 0 ≤ c < 2 ^ 32 → isbyte x → 0 ≤ byte_step c x < 2 ^ 32.
Proof.
  intros Hc Hx. unfold crc_byte. assert (H : 0 ≤ Z.lxor c x < 2 ^ 32) by (apply lxor_range; unfold isbyte in Hx; lia).
  revert H. generalize (Z.lxor c x). generalize 8%nat as n. intros n. induction n as [|k IH]; intros y Hy; [done|].
  rewrite iter_succ. apply IH, crc_shift_range, Hy. apply crc_poly_range.
Qed.

Lemma byte_steps_range c buf : 0 ≤ c < 2 ^ 32 → bytes buf → 0 ≤ foldl byte_step c buf < 2 ^ 32.
Proof.
  revert c. induction buf as [|x buf IH]; intros c Hc Hb; [done|]. apply Forall_cons_1 in Hb as [Hx Hb].
  apply IH, Hb. by apply byte_step_range.
Qed.

Lemma land_byte y : isbyte (Z.land y 255).
Proof. change 255 with (Z.ones 8). rewrite Z.land_ones by lia. apply Z.mod_pos_bound. lia. Qed.

(** One step on a little-endian machine. *)
Lemma DO_CRC_little c x : 0 ≤ c → isbyte x → DO_CRC false c x = byte_step c x.
Proof.
  intros Hc Hx. unfold DO_CRC, cpu_to_le32, crc_byte. rewrite crc_table_lookup by apply land_byte.
  rewrite (low_byte (Z.lxor c x)) at 2. rewrite crc_iter_lxor, crc_iter_high, Z.shiftr_lxor.
  replace (Z.shiftr x 8) with 0; [by rewrite Z.lxor_0_r|].
  rewrite Z.shiftr_div_pow2 by lia. symmetry. by apply Z.div_small.
Qed.

(** *** Byte order *)

Lemma testbit_land_ones_shift x k i : 0 ≤ k → 0 ≤ i →
  Z.testbit (Z.land x (Z.shiftl 255 k)) i = bool_decide (k ≤ i < k + 8) && Z.testbit x i.
Proof.
  intros Hk Hi. change 255 with (Z.ones 8). rewrite Z.land_spec. case_bool_decide; simpl.
  - rewrite Z.shiftl_spec, Z.ones_spec_low by lia. apply andb_true_r.
  - rewrite Z.shiftl_spec by lia. destruct (decide (i < k)).
    + rewrite (Z.testbit_neg_r _ (i - k)) by lia. apply andb_false_r.
    + rewrite Z.ones_spec_high by lia. apply andb_false_r.
Qed.

(** The bits of a word with its bytes reversed. *)
Lemma uswap_32_bits x i : 0 ≤ i →
  Z.testbit (uswap_32 x) i = bool_decide (i < 32) && Z.testbit x (24 + 2 * (i mod 8) - i).
Proof.
  intros Hi. unfold uswap_32.
  change 0xff000000 with (Z.shiftl 255 24). change 0x00ff0000 with (Z.shiftl 255 16).
  change 0x0000ff00 with (Z.shiftl 255 8). change 0x000000ff with (Z.shiftl 255 0).
  rewrite !Z.lor_spec, !Z.shiftr_spec, !Z.shiftl_spec by lia.
  pose proof (Z.div_mod i 8 ltac:(lia)) as E. pose proof (Z.mod_pos_bound i 8 ltac:(lia)) as Hm.
  assert (Hl : ∀ k, 0 ≤ k → Z.testbit (Z.land x (Z.shiftl 255 k)) (i - 8) =
    bool_decide (k ≤ i - 8 < k + 8) && Z.testbit x (i - 8)).
  { intros k Hk. destruct (decide (8 ≤ i)); [by apply testbit_land_ones_shift; lia|].
    rewrite !(Z.testbit_neg_r _ (i - 8)) by lia. by rewrite andb_false_r. }
  assert (Hl' : Z.testbit (Z.land x (Z.shiftl 255 0)) (i - 24) =
    bool_decide (0 ≤ i - 24 < 0 + 8) && Z.testbit x (i - 24)).
  { destruct (decide (24 ≤ i)); [by apply testbit_land_ones_shift; lia|].
    rewrite !(Z.testbit_neg_r _ (i - 24)) by lia. by rewrite andb_false_r. }
  rewrite Hl, Hl', !testbit_land_ones_shift by lia.
  assert (Hq : i < 32 ∧ (i / 8 = 0 ∨ i / 8 = 1 ∨ i / 8 = 2 ∨ i / 8 = 3) ∨ 32 ≤ i) by lia.
  destruct Hq as [[H32 Hq]|H32].
  - rewrite (bool_decide_true (i < 32)) by done.
    destruct Hq as [Hq|[Hq|[Hq|Hq]]]; repeat case_bool_decide; try lia; cbn [andb orb]; rewrite ?orb_false_r; f_equal; lia.
  - rewrite (bool_decide_false (i < 32)) by lia. repeat case_bool_decide; try lia; done.
Qed.

Lemma uswap_lxor a b : uswap_32 (Z.lxor a b) = Z.lxor (uswap_32 a) (uswap_32 b).
Proof.
  apply Z.bits_inj'. intros i Hi. rewrite Z.lxor_spec, !uswap_32_bits by done.
  destruct (decide (24 + 2 * (i mod 8) - i < 0)).
  - rewrite !Z.testbit_neg_r by done. by rewrite andb_false_r.
  - rewrite Z.lxor_spec. by destruct (bool_decide _), (Z.testbit a _), (Z.testbit b _).
Qed.

Lemma testbit_above x n i : 0 ≤ x < 2 ^ n → n ≤ i → Z.testbit x i = false.
Proof.
  intros Hx Hi. destruct (decide (n < 0)); [rewrite Z.pow_neg_r in Hx by done; lia|].
  rewrite <-(Z.mod_small x (2 ^ n)) by done. apply Z.mod_pow2_bits_high. lia.
Qed.

Lemma uswap_shiftl c : 0 ≤ c < 2 ^ 32 → u32 (Z.shiftl (uswap_32 c) 8) = uswap_32 (Z.shiftr c 8).
Proof.
  intros Hc. apply Z.bits_inj'. intros i Hi. unfold u32. rewrite (uswap_32_bits _ i) by done.
  pose proof (Z.mod_pos_bound i 8 ltac:(lia)) as Hm. pose proof (Z.div_mod i 8 ltac:(lia)) as Hd.
  destruct (decide (i < 32)).
  2: { rewrite Z.mod_pow2_bits_high by lia. by rewrite bool_decide_false by lia. }
  rewrite Z.mod_pow2_bits_low, Z.shiftl_spec by lia. rewrite bool_decide_true by done. simpl.
  destruct (decide (8 ≤ i)).
  - rewrite uswap_32_bits by lia. rewrite bool_decide_true by lia. simpl.
    rewrite Z.shiftr_spec by lia. f_equal.
    replace (i - 8) with (i + (-1) * 8) at 1 by lia. rewrite Z.mod_add by lia. lia.
  - rewrite Z.testbit_neg_r by lia. symmetry. rewrite Z.shiftr_spec by lia.
    apply (testbit_above _ 32); [done|]. rewrite Z.mod_small by lia. lia.
Qed.

Lemma uswap_top c : 0 ≤ c < 2 ^ 32 → Z.shiftr (uswap_32 c) 24 = Z.land c 255.
Proof.
  intros Hc. apply Z.bits_inj'. intros i Hi. rewrite Z.shiftr_spec, Z.land_spec, uswap_32_bits by lia.
  change 255 with (Z.ones 8). destruct (decide (i < 8)).
  - rewrite Z.ones_spec_low by lia. rewrite bool_decide_true, andb_true_r by lia. simpl. f_equal.
    replace (i + 24) with (i + 3 * 8) at 1 by lia. rewrite Z.mod_add, Z.mod_small by lia. lia.
  - rewrite Z.ones_spec_high, bool_decide_false, andb_false_r by lia. done.
Qed.

Lemma uswap_byte x k : isbyte x → 0 ≤ k ≤ 3 → uswap_32 (x * 2 ^ (8 * k)) = x * 2 ^ (8 * (3 - k)).
Proof.
  intros Hx Hk. apply Z.bits_inj'. intros i Hi. rewrite uswap_32_bits, <-!Z.shiftl_mul_pow2 by lia.
  pose proof (Z.mod_pos_bound i 8 ltac:(lia)) as Hm. pose proof (Z.div_mod i 8 ltac:(lia)) as Hd.
  assert (Ht : ∀ j, j < 0 ∨ 8 ≤ j → Z.testbit x j = false).
  { intros j [Hj|Hj]; [by apply Z.testbit_neg_r|]. by apply (testbit_above _ 8); [exact Hx|]. }
  rewrite (Z.shiftl_spec _ _ i) by done.
  destruct (decide (i / 8 = 3 - k)) as [E|E].
  - rewrite bool_decide_true by lia. simpl. rewrite Z.shiftl_spec by lia. f_equal. lia.
  - rewrite (Ht (i - _)) by lia. destruct (decide (0 ≤ 24 + 2 * (i mod 8) - i)).
    + rewrite Z.shiftl_spec, Ht by lia. apply andb_false_r.
    + rewrite Z.testbit_neg_r by lia. apply andb_false_r.
Qed.

(** The words of four bytes. *)
Lemma le_word_lxor a b c d : isbyte a → isbyte b → isbyte c → isbyte d →
  le_word [a; b; c; d] = Z.lxor a (Z.lxor b (Z.lxor c (d * 2 ^ 8) * 2 ^ 8) * 2 ^ 8).
Proof.
  unfold isbyte. intros. unfold le_word, be_word. simpl.
  rewrite !(Z.lxor_comm _ (_ * 2 ^ 8)), !lxor_add_small by lia. lia.
Qed.

Lemma lxor_shift a b n : 0 ≤ n → Z.lxor a b * 2 ^ n = Z.lxor (a * 2 ^ n) (b * 2 ^ n).
Proof. intros Hn. rewrite <-!Z.shiftl_mul_pow2 by done. apply Z.shiftl_lxor. Qed.

Lemma be_word_swap a b c d : isbyte a → isbyte b → isbyte c → isbyte d →
  be_word [a; b; c; d] = uswap_32 (le_word [a; b; c; d]).
Proof.
  intros Ha Hb Hc Hd. rewrite le_word_lxor by done. rewrite !lxor_shift by lia.
  rewrite !uswap_lxor, <-!Z.mul_assoc, <-!Z.pow_add_r by lia.
  assert (Ea : uswap_32 a = a * 2 ^ 24) by (replace a with (a * 2 ^ (8 * 0)) at 1 by lia; apply (uswap_byte a 0); done || lia).
  assert (Eb : uswap_32 (b * 2 ^ 8) = b * 2 ^ 16) by (apply (uswap_byte b 1); done || lia).
  assert (Ec : uswap_32 (c * 2 ^ (8 + 8)) = c * 2 ^ 8) by (apply (uswap_byte c 2); done || lia).
  assert (Ed : uswap_32 (d * 2 ^ (8 + (8 + 8))) = d * 2 ^ 0) by (apply (uswap_byte d 3); done || lia).
  rewrite Ea, Eb, Ec, Ed, Z.mul_1_r. unfold isbyte in *.
  rewrite (lxor_add_small c d 8), (lxor_add_small b _ 16), (lxor_add_small a _ 24) by lia.
  unfold be_word. cbn [take foldl]. lia.
Qed.

(** *** Steps *)

Lemma DO_CRC_big c x : 0 ≤ c < 2 ^ 32 → isbyte x → DO_CRC true (uswap_32 c) x = uswap_32 (byte_step c x).
Proof.
  intros Hc Hx. rewrite <-DO_CRC_little by (lia || done). unfold DO_CRC, cpu_to_le32.
  assert (E : Z.land (Z.lxor (Z.land c 255) x) 255 = Z.land (Z.lxor c x) 255).
  { apply Z.bits_inj'. intros i Hi. rewrite !Z.land_spec, !Z.lxor_spec, Z.land_spec.
    by destruct (Z.testbit c i), (Z.testbit x i), (Z.testbit 255 i). }
  by rewrite uswap_lxor, uswap_shiftl, uswap_top, E by done.
Qed.

Section Correct.
Context (big : bool).
Abbreviation le := (cpu_to_le32 big).

Lemma DO_CRC_ok c x : 0 ≤ c < 2 ^ 32 → isbyte x → DO_CRC big (le c) x = le (byte_step c x).
Proof. intros Hc Hx. unfold cpu_to_le32. destruct big; [by apply DO_CRC_big|apply DO_CRC_little; [lia|done]]. Qed.

Lemma DO_CRCs_ok buf c : 0 ≤ c < 2 ^ 32 → bytes buf → foldl (DO_CRC big) (le c) buf = le (foldl byte_step c buf).
Proof.
  revert c. induction buf as [|x buf IH]; intros c Hc Hb; [done|]. apply Forall_cons_1 in Hb as [Hx Hb].
  simpl foldl. rewrite DO_CRC_ok by done. apply IH; [by apply byte_step_range|done].
Qed.

Lemma le_lxor a b : le (Z.lxor a b) = Z.lxor (le a) (le b).
Proof. unfold cpu_to_le32. destruct big; [apply uswap_lxor|done]. Qed.

Lemma load32_le a b c d : isbyte a → isbyte b → isbyte c → isbyte d →
  load32 big [a; b; c; d] = le (le_word [a; b; c; d]).
Proof. intros. unfold load32, cpu_to_le32. destruct big; [by apply be_word_swap|done]. Qed.

(** Eight shifts take a byte in and leave the rest of the word. *)
Lemma byte_step_rest c x r : byte_step (Z.lxor c (Z.lxor x (r * 2 ^ 8))) 0 = Z.lxor (byte_step c x) r.
Proof.
  unfold crc_byte. rewrite Z.lxor_0_r, <-Z.lxor_assoc, crc_iter_lxor. f_equal.
  apply (crc_iter_high crc_poly 8).
Qed.

Lemma word_ok a b c d crc : 0 ≤ crc < 2 ^ 32 → isbyte a → isbyte b → isbyte c → isbyte d →
  DO_CRC big (DO_CRC big (DO_CRC big (DO_CRC big (Z.lxor (le crc) (load32 big [a; b; c; d])) 0) 0) 0) 0 =
    le (foldl byte_step crc [a; b; c; d]).
Proof.
  intros Hcrc Ha Hb Hc Hd. assert (H0 : isbyte 0) by (unfold isbyte; lia).
  assert (Hw : 0 ≤ le_word [a; b; c; d] < 2 ^ 32).
  { unfold isbyte in *. unfold le_word, be_word. simpl. lia. }
  rewrite load32_le, <-le_lxor by done.
  assert (Hr : 0 ≤ Z.lxor crc (le_word [a; b; c; d]) < 2 ^ 32) by (apply lxor_range; lia).
  rewrite !DO_CRC_ok by (repeat first [done | apply byte_step_range]).
  rewrite le_word_lxor by done. rewrite !byte_step_rest. f_equal. simpl foldl. unfold crc_byte at 1 5.
  by rewrite Z.lxor_0_r.
Qed.

Lemma crc_align_ok buf p c : 0 ≤ c < 2 ^ 32 → bytes buf →
  ∃ buf' c', crc_align big p buf (le c) = (buf', le c') ∧ 0 ≤ c' < 2 ^ 32 ∧ bytes buf' ∧
    foldl byte_step c' buf' = foldl byte_step c buf.
Proof.
  revert p c. induction buf as [|x buf IH]; intros p c Hc Hb; [by exists [], c|].
  simpl. pose proof Hb as [Hx Hb']%Forall_cons_1. destruct (Z.land p 3 =? 0); [by exists (x :: buf), c|].
  rewrite DO_CRC_ok by done. by apply IH; [apply byte_step_range|].
Qed.

Lemma crc_words_ok n buf c : 0 ≤ c < 2 ^ 32 → bytes buf → (4 * n ≤ length buf)%nat →
  crc_words big n buf (le c) = (drop (4 * n) buf, le (foldl byte_step c (take (4 * n) buf))).
Proof.
  revert buf c. induction n as [|n IH]; intros buf c Hc Hb Hn; [done|].
  do 4 (destruct buf as [|? buf]; [cbn [length] in Hn; lia|]).
  apply Forall_cons_1 in Hb as [H1 Hb]. apply Forall_cons_1 in Hb as [H2 Hb].
  apply Forall_cons_1 in Hb as [H3 Hb]. apply Forall_cons_1 in Hb as [H4 Hb].
  replace (4 * S n)%nat with (S (S (S (S (4 * n)))))%nat by lia.
  cbn [crc_words take drop]. rewrite word_ok by done. rewrite IH; [done| |done|cbn [length] in Hn; rewrite drop_0; lia].
  apply byte_steps_range; [done|]. by repeat apply Forall_cons_2.
Qed.

Lemma le_le c : 0 ≤ c < 2 ^ 32 → le (le c) = c.
Proof.
  intros Hc. unfold cpu_to_le32. destruct big; [|done]. apply Z.bits_inj'. intros i Hi.
  rewrite uswap_32_bits by done. destruct (decide (i < 32)).
  - rewrite bool_decide_true by done. simpl.
    pose proof (Z.mod_pos_bound i 8 ltac:(lia)) as Hm. pose proof (Z.div_mod i 8 ltac:(lia)) as Hd.
    rewrite uswap_32_bits, bool_decide_true by lia. simpl. f_equal.
    replace (24 + 2 * (i mod 8) - i) with (i mod 8 + (3 - i / 8) * 8) by lia.
    rewrite Z.mod_add, Z.mod_mod by lia. lia.
  - rewrite bool_decide_false by done. symmetry. apply (testbit_above _ 32); [done|lia].
Qed.

(** Every byte order and every alignment give the register of the polynomial. *)
Lemma crc32_no_comp_ok crc p buf : 0 ≤ crc < 2 ^ 32 → bytes buf →
  crc32_no_comp big crc p buf = crc_serial crc_poly crc (message_bits buf).
Proof.
  intros Hc Hb. unfold crc32_no_comp. destruct (crc_align_ok buf p crc Hc Hb) as (buf' & c' & -> & Hc' & Hb' & Hf).
  pose proof (Nat.div_mod_eq (length buf') 4) as Hd. rewrite crc_words_ok by (done || lia).
  rewrite DO_CRCs_ok.
  - rewrite <-foldl_app, crc_serial_bytes, <-Hf by done.
    assert (E : take (4 * (length buf' / 4)) buf' ++
      take (length buf' mod 4) (drop (4 * (length buf' / 4)) buf') = buf').
    { rewrite (take_ge (drop _ _)); [apply take_drop|]. rewrite length_drop. lia. }
    rewrite E. apply le_le. by apply byte_steps_range.
  - apply byte_steps_range; [done|by apply Forall_take].
  - by apply Forall_take, Forall_drop.
Qed.

End Correct.

(** ** What the checksums are *)

Lemma low32_range c : 0 ≤ c < 2 ^ 32 → 0 ≤ Z.lxor c 0xffffffff < 2 ^ 32.
Proof. intros. apply lxor_range; lia. Qed.

Lemma crc32_ok big crc p buf : 0 ≤ crc < 2 ^ 32 → bytes buf →
  crc32 big crc p buf =
    Z.lxor (crc_serial crc_poly (Z.lxor crc 0xffffffff) (message_bits buf)) 0xffffffff.
Proof. intros Hc Hb. unfold crc32. by rewrite crc32_no_comp_ok by (done || by apply low32_range). Qed.

Lemma lxor_involutive a b : Z.lxor (Z.lxor a b) b = a.
Proof. by rewrite Z.lxor_assoc, Z.lxor_nilpotent, Z.lxor_0_r. Qed.

Lemma message_bits_app a b : message_bits (a ++ b) = message_bits a ++ message_bits b.
Proof. apply bind_app. Qed.

Lemma crc32_range big crc p buf : 0 ≤ crc < 2 ^ 32 → bytes buf → 0 ≤ crc32 big crc p buf < 2 ^ 32.
Proof.
  intros Hc Hb. rewrite crc32_ok by done. apply low32_range, crc_serial_range; [apply crc_poly_range|].
  by apply low32_range.
Qed.

Lemma crc32_app big crc p q r a b : 0 ≤ crc < 2 ^ 32 → bytes a → bytes b →
  crc32 big (crc32 big crc p a) q b = crc32 big crc r (a ++ b).
Proof.
  intros Hc Ha Hb. rewrite (crc32_ok big (crc32 _ _ _ _)), !crc32_ok by (done || by (apply crc32_range || apply Forall_app_2)).
  by rewrite lxor_involutive, message_bits_app, crc_serial_app.
Qed.

Lemma crc32_wd_ok big fuel crc p buf chunk_sz : 0 ≤ crc < 2 ^ 32 → bytes buf → (0 < chunk_sz)%nat → (length buf ≤ fuel)%nat →
  crc32_wd big fuel crc p buf chunk_sz = Some (crc32 big crc p buf).
Proof.
  intros Hc Hb Hsz. revert crc p buf Hc Hb.
  induction fuel as [|fuel IH]; intros crc p buf Hc Hb Hf; destruct buf as [|x buf].
  - simpl. rewrite crc32_ok by done. simpl. by rewrite lxor_involutive.
  - simpl in Hf. lia.
  - simpl. rewrite crc32_ok by done. simpl. by rewrite lxor_involutive.
  - cbn [crc32_wd]. set (k := Nat.min _ _). assert (Hk : (0 < k)%nat) by (unfold k; cbn [length]; lia).
    rewrite IH.
    + rewrite (crc32_app big crc p _ p) by (done || by (apply Forall_take || apply Forall_drop)). by rewrite take_drop.
    + by apply crc32_range, Forall_take.
    + by apply Forall_drop.
    + rewrite length_drop. cbn [length] in *. lia.
Qed.

(** C33: The table-driven [crc32] is the 32-bit shift register of the CRC-32
    polynomial, for every alignment of the buffer and for both byte orders;
    [crc32_wd] in pieces of any positive size gives the same and ends. *)
Theorem crc32_correct big crc p buf chunk_sz fuel :
  0 ≤ crc < 2 ^ 32 → bytes buf →
  crc32 big crc p buf = Z.lxor (crc_serial crc_poly (Z.lxor crc 0xffffffff) (message_bits buf)) 0xffffffff ∧
  ((0 < chunk_sz)%nat → (length buf ≤ fuel)%nat →
     crc32_wd big fuel crc p buf chunk_sz = Some (crc32 big crc p buf)).
Proof. intros Hc Hb. split; [by apply crc32_ok|]. by apply crc32_wd_ok. Qed.

Lemma store_htonl big x : 0 ≤ x < 2 ^ 32 → store32 big (htonl big x) = be_bytes x.
Proof.
  intros Hx. unfold store32, htonl. rewrite !PUT_UINT32_BE_bytes. destruct big; [done|].
  pose proof (be_bytes_ok x) as Hb. rewrite <-(be_word_bytes x) at 1 by done.
  unfold be_bytes in *. cbn in Hb.
  destruct (Forall_cons_1 _ _ _ Hb) as [Ha (Hb1 & (Hc & (Hd & _)%Forall_cons_1)%Forall_cons_1)%Forall_cons_1]. clear Hb.
  revert Ha Hb1 Hc Hd. generalize (x / 2 ^ 24 mod 256) (x / 2 ^ 16 mod 256) (x / 2 ^ 8 mod 256) (x mod 256).
  intros a b c d Ha Hb Hc Hd. fold (be_bytes (uswap_32 (be_word [a; b; c; d]))).
  change (be_word [a; b; c; d]) with (le_word [d; c; b; a]). rewrite <-be_word_swap by done.
  by rewrite be_bytes_word.
Qed.

(** [crc32_wd_buf] writes the checksum with the highest byte first. *)
Lemma crc32_wd_buf_correct big fuel p input chunk_sz : bytes input → (0 < chunk_sz)%nat → (length input ≤ fuel)%nat →
  crc32_wd_buf big fuel p input chunk_sz = Some (be_bytes (crc32 big 0 p input)).
Proof.
  intros Hb Hsz Hf. unfold crc32_wd_buf.
  rewrite crc32_wd_ok by done.
  cbn [mbind option_bind]. rewrite store_htonl; [done|]. by apply crc32_range.
Qed.

Lemma crc32_correct_witness :
  crc32 true 0 1 [49; 50; 51; 52; 53; 54; 55; 56; 57] =
    Z.lxor (crc_serial crc_poly (Z.lxor 0 0xffffffff) (message_bits [49; 50; 51; 52; 53; 54; 55; 56; 57])) 0xffffffff ∧
  ((0 < 4)%nat → (9 ≤ 9)%nat →
     crc32_wd true 9 0 1 [49; 50; 51; 52; 53; 54; 55; 56; 57] 4 = Some (crc32 true 0 1 [49; 50; 51; 52; 53; 54; 55; 56; 57])).
Proof.
  apply (crc32_correct true 0 1 [49; 50; 51; 52; 53; 54; 55; 56; 57] 4 9); [lia|].
  unfold isbyte. repeat constructor; lia.
Defined.

(** The check value of the standard. *)
Example crc32_check : crc32 false 0 0 [49; 50; 51; 52; 53; 54; 55; 56; 57] = 0xcbf43926.
Proof. by vm_compute. Qed.

(** The messages differ only in a window of at most 32 bits. *)
Definition burst (m m' : list Z) : Prop :=
  ∃ p u v q, message_bits m = p ++ u ++ q ∧ message_bits m' = p ++ v ++ q ∧
    length u = length v ∧ (length u ≤ 32)%nat ∧ u ≠ v.

(** Every corruption of a message that changes bits only within 32
    neighbouring ones changes its checksum, wherever the buffers are and
    whatever the byte order. *)
Theorem crc32_detects_bursts big crc p p' m m' :
  0 ≤ crc < 2 ^ 32 → bytes m → bytes m' → burst m m' → crc32 big crc p m ≠ crc32 big crc p' m'.
Proof.
  intros Hc Hb Hb' (a & u & v & q & Ea & Eb & Hl & Hn & Hne) E. rewrite !crc32_ok, Ea, Eb in E by done.
  apply (f_equal (λ z, Z.lxor z 0xffffffff)) in E. rewrite !lxor_involutive in E.
  apply (serial_burst crc_poly crc_poly_range _ a u v q) in E; [done|by apply low32_range|done|done].
Qed.

Lemma crc32_detects_bursts_witness : crc32 false 0 0 [1; 2; 3; 4; 5; 6] ≠ crc32 false 0 2 [1; 2; 0xfc; 4; 5; 6].
Proof.
  apply (crc32_detects_bursts false 0 0 2 [1; 2; 3; 4; 5; 6] [1; 2; 0xfc; 4; 5; 6]).
  - lia.
  - unfold isbyte. repeat constructor; lia.
  - unfold isbyte. repeat constructor; lia.
  - exists (message_bits [1; 2]), (low_bits 8 3), (low_bits 8 0xfc), (message_bits [4; 5; 6]).
    split_and!; [done..|simpl; lia|done].
Defined.

(** ** CRC-16 and CRC-7 *)

Lemma msb_serial_app w poly c l l' : msb_serial w poly c (l ++ l') = msb_serial w poly (msb_serial w poly c l) l'.
Proof. apply foldl_app. Qed.

Lemma msb_serial_one w poly c b : msb_serial w poly c [b] = msb_bit w poly c b.
Proof. done. Qed.

Section Msb.
Context (w poly : Z) (Hw : 0 < w).

Lemma msb_shift_lxor a b : msb_shift w poly (Z.lxor a b) = Z.lxor (msb_shift w poly a) (msb_shift w poly b).
Proof.
  unfold msb_shift. rewrite Z.lxor_spec, Z.shiftl_lxor. apply Z.bits_inj'. intros i Hi.
  destruct (Z.testbit a (w - 1)), (Z.testbit b (w - 1)); cbn [xorb];
    rewrite !Z.lxor_spec, !Z.land_spec, !Z.lxor_spec;
    by destruct (Z.testbit poly i), (Z.testbit (Z.shiftl a 1) i), (Z.testbit (Z.shiftl b 1) i), (Z.testbit (Z.ones w) i).
Qed.

Lemma msb_iter_lxor k a b :
  Nat.iter k (msb_shift w poly) (Z.lxor a b) = Z.lxor (Nat.iter k (msb_shift w poly) a) (Nat.iter k (msb_shift w poly) b).
Proof. induction k as [|k IH]; [done|]. simpl. by rewrite IH, msb_shift_lxor. Qed.

Lemma msb_shift_low v : 0 ≤ v < 2 ^ (w - 1) → msb_shift w poly v = v * 2.
Proof.
  intros Hv. unfold msb_shift. rewrite (testbit_above v (w - 1)) by lia.
  rewrite Z.land_ones, Z.shiftl_mul_pow2 by lia. change (2 ^ 1) with 2. apply Z.mod_small.
  replace w with (Z.succ (w - 1)) by lia. rewrite Z.pow_succ_r; lia.
Qed.

Lemma msb_iter_low k v : 0 ≤ v < 2 ^ (w - Z.of_nat k) → Nat.iter k (msb_shift w poly) v = v * 2 ^ Z.of_nat k.
Proof.
  revert v. induction k as [|k IH]; intros v Hv; [simpl; lia|]. rewrite iter_succ, Nat2Z.inj_succ in *.
  assert (Hp : 2 ^ (w - Z.succ (Z.of_nat k)) ≤ 2 ^ (w - 1)) by (apply Z.pow_le_mono_r; lia).
  rewrite msb_shift_low by lia. rewrite IH.
  - rewrite Z.pow_succ_r; lia.
  - destruct (decide (w - Z.succ (Z.of_nat k) < 0)); [rewrite (Z.pow_neg_r _ (w - Z.succ _)) in Hv by done; lia|].
    replace (w - Z.of_nat k) with (Z.succ (w - Z.succ (Z.of_nat k))) by lia. rewrite Z.pow_succ_r; lia.
Qed.

Lemma low_bits_succ k x : low_bits (S k) x = Z.odd x :: low_bits k (Z.div2 x).
Proof. done. Qed.

(** Up to [w] bits at once. *)
Lemma msb_serial_val k x c : Z.of_nat k ≤ w → 0 ≤ x < 2 ^ Z.of_nat k →
  msb_serial w poly c (reverse (low_bits k x)) = Nat.iter k (msb_shift w poly) (Z.lxor c (x * 2 ^ (w - Z.of_nat k))).
Proof.
  revert x. induction k as [|k IH]; intros x Hk Hx.
  { simpl in *. assert (x = 0) as -> by lia. by rewrite Z.mul_0_l, Z.lxor_0_r. }
  rewrite low_bits_succ, reverse_cons, msb_serial_app, msb_serial_one.
  rewrite Nat2Z.inj_succ in *. rewrite Z.pow_succ_r in Hx by lia.
  rewrite IH; [|lia|rewrite Z.div2_div; split; [apply Z.div_pos; lia|apply Z.div_lt_upper_bound; lia]].
  unfold msb_bit. change (Nat.iter (S k) ?f ?a) with (f (Nat.iter k f a)). f_equal.
  rewrite Z.shiftl_mul_pow2 by lia. set (b := Z.b2z (Z.odd x)). assert (Hb : 0 ≤ b ≤ 1) by (unfold b; destruct (Z.odd x); simpl; lia).
  set (n := w - Z.succ (Z.of_nat k)). assert (Hn : w - Z.of_nat k = Z.succ n) by (unfold n; lia). rewrite Hn.
  assert (Hpn : 0 < 2 ^ n) by (apply Z.pow_pos_nonneg; unfold n; lia).
  assert (E : x * 2 ^ n = Z.lxor (Z.div2 x * 2 ^ Z.succ n) (b * 2 ^ n)).
  { rewrite lxor_add_small by (rewrite ?Z.pow_succ_r; unfold n in *; nia). rewrite (Z.div2_odd x) at 1. fold b.
    rewrite Z.pow_succ_r; unfold n in *; lia. }
  rewrite E, <-Z.lxor_assoc, !msb_iter_lxor. f_equal.
  rewrite (msb_iter_low k (b * 2 ^ n)) by (rewrite Hn, Z.pow_succ_r; unfold n in *; nia).
  rewrite <-Z.mul_assoc, <-Z.pow_add_r by (unfold n; lia). do 2 f_equal. unfold n. lia.
Qed.

End Msb.

Definition msb_byte (w poly c x : Z) : Z := msb_serial w poly c (reverse (low_bits 8 x)).

Lemma msb_serial_bytes w poly c buf :
  msb_serial w poly c (message_bits_msb buf) = foldl (msb_byte w poly) c buf.
Proof.
  revert c. induction buf as [|x buf IH]; intros c; [done|].
  change (message_bits_msb (x :: buf)) with (reverse (low_bits 8 x) ++ message_bits_msb buf).
  rewrite msb_serial_app. apply IH.
Qed.

Lemma msb_shift_range w poly c : 0 ≤ w → 0 ≤ poly < 2 ^ w → 0 ≤ msb_shift w poly c < 2 ^ w.
Proof.
  intros Hw Hp. unfold msb_shift. assert (H : 0 ≤ Z.land (Z.shiftl c 1) (Z.ones w) < 2 ^ w).
  { rewrite Z.land_ones by done. apply Z.mod_pos_bound. lia. }
  destruct (Z.testbit c (w - 1)); [by apply lxor_range|done].
Qed.

Lemma crc16_tab_made :
  crc16_tab = (λ n, Nat.iter 8 (msb_shift 16 0x1021) (Z.of_nat n * 2 ^ 8)) <$> seq 0 256.
Proof. by vm_compute. Qed.

Lemma crc16_tab_lookup n : isbyte n → crc16_tab !!! Z.to_nat n = Nat.iter 8 (msb_shift 16 0x1021) (n * 2 ^ 8).
Proof.
  intros [H0 H1]. rewrite crc16_tab_made. apply list_lookup_total_correct.
  rewrite list_lookup_fmap, lookup_seq_lt by lia. cbn [fmap option_fmap option_map]. by rewrite Nat.add_0_l, Z2Nat.id.
Qed.

Lemma crc16_byte c x : 0 ≤ c < 2 ^ 16 → isbyte x →
  Z.land (Z.lxor (crc16_tab !!! Z.to_nat (Z.land (Z.lxor (Z.shiftr c 8) x) 255)) (Z.shiftl c 8)) 0xffff =
    msb_byte 16 0x1021 c x ∧ 0 ≤ msb_byte 16 0x1021 c x < 2 ^ 16.
Proof.
  intros Hc Hx. unfold msb_byte. rewrite (msb_serial_val 16 0x1021) by (simpl; first [lia|exact Hx]).
  split; [|apply msb_shift_range; lia].
  assert (Hh : isbyte (Z.lxor (Z.shiftr c 8) x)).
  { unfold isbyte. change 256 with (2 ^ 8). apply lxor_range; [lia| |exact Hx].
    rewrite Z.shiftr_div_pow2 by lia. split; [apply Z.div_pos; lia|apply Z.div_lt_upper_bound; lia]. }
  assert (El : Z.land (Z.lxor (Z.shiftr c 8) x) 255 = Z.lxor (Z.shiftr c 8) x).
  { change 255 with (Z.ones 8). rewrite Z.land_ones by lia. by apply Z.mod_small. }
  rewrite El, crc16_tab_lookup by done. change (16 - Z.of_nat 8) with 8.
  assert (E : Z.lxor c (x * 2 ^ 8) = Z.lxor (Z.lxor (Z.shiftr c 8) x * 2 ^ 8) (Z.land c 255)).
  { rewrite lxor_shift by lia. rewrite (low_byte c) at 1. change (2 ^ Z.of_nat 8) with (2 ^ 8).
    rewrite (Z.lxor_comm (Z.land c 255)), !Z.lxor_assoc. f_equal. apply Z.lxor_comm. }
  rewrite E, msb_iter_lxor. rewrite (msb_iter_low 16 0x1021 ltac:(lia) 8 (Z.land c 255)).
  2: { change (16 - Z.of_nat 8) with 8. apply land_byte. }
  change 0xffff with (Z.ones 16). apply Z.bits_inj'. intros i Hi. rewrite Z.land_spec, !Z.lxor_spec.
  set (t := Nat.iter 8 _ _). assert (Ht : 0 ≤ t < 2 ^ 16) by (apply msb_shift_range; lia).
  rewrite <-Z.shiftl_mul_pow2 by lia. change (Z.of_nat 8) with 8. destruct (decide (i < 16)).
  - rewrite Z.ones_spec_low, andb_true_r, !Z.shiftl_spec by lia. f_equal.
    destruct (decide (i < 8)); [by rewrite !Z.testbit_neg_r by lia|]. rewrite Z.land_spec.
    change 255 with (Z.ones 8). rewrite Z.ones_spec_low by lia. by rewrite andb_true_r.
  - rewrite Z.ones_spec_high, andb_false_r, (testbit_above t 16), Z.shiftl_spec, Z.land_spec by lia.
    change 255 with (Z.ones 8). by rewrite Z.ones_spec_high, andb_false_r by lia.
Qed.

Lemma crc7_table_made :
  crc7_syndrome_table = (λ n, msb_byte 7 0x09 0 (Z.of_nat n)) <$> seq 0 256.
Proof. by vm_compute. Qed.

Lemma crc7_byte_ok c x : 0 ≤ c < 2 ^ 7 → isbyte x → crc7_byte c x = Some (msb_byte 7 0x09 c x).
Proof.
  intros Hc Hx. unfold crc7_byte. rewrite Z.shiftl_mul_pow2 by lia. set (y := Z.lxor _ _).
  assert (Hy : isbyte y) by (apply (lxor_range 8); [lia|lia|exact Hx]).
  rewrite crc7_table_made, list_lookup_fmap, lookup_seq_lt by (unfold isbyte in Hy; lia).
  cbn [fmap option_fmap option_map]. rewrite Nat.add_0_l, Z2Nat.id by apply Hy. f_equal.
  unfold msb_byte. rewrite !(low_bits_succ 7), !reverse_cons, !msb_serial_app, !msb_serial_one.
  assert (Hd : ∀ z, isbyte z → 0 ≤ Z.div2 z < 2 ^ Z.of_nat 7).
  { intros z [? ?]. rewrite Z.div2_div. split; [apply Z.div_pos; lia|apply Z.div_lt_upper_bound; simpl; lia]. }
  rewrite !(msb_serial_val 7 9 ltac:(lia) 7) by (simpl; first [lia|by apply Hd]).
  change (2 ^ (7 - Z.of_nat 7)) with 1. rewrite !Z.mul_1_r, Z.lxor_0_l.
  assert (Eo : Z.odd y = Z.odd x) by (unfold y; rewrite odd_lxor, Z.odd_mul; by destruct (Z.odd c), (Z.odd x)).
  assert (Ed : Z.div2 y = Z.lxor c (Z.div2 x)).
  { unfold y. rewrite !Z.div2_spec, Z.shiftr_lxor. f_equal. rewrite Z.shiftr_div_pow2 by lia. apply Z.div_mul. lia. }
  by rewrite Eo, Ed.
Qed.

Lemma msb_byte_range w poly c x : 0 ≤ w → 0 ≤ poly < 2 ^ w → 0 ≤ msb_byte w poly c x < 2 ^ w.
Proof.
  intros Hw Hp. unfold msb_byte. change 8%nat with (S 7). rewrite low_bits_succ, reverse_cons, msb_serial_app, msb_serial_one.
  by apply msb_shift_range.
Qed.

Lemma cyg_crc16_from c buf : 0 ≤ c < 2 ^ 16 → bytes buf →
  foldl (λ cksum x,
    Z.land (Z.lxor (crc16_tab !!! Z.to_nat (Z.land (Z.lxor (Z.shiftr cksum 8) x) 255)) (Z.shiftl cksum 8)) 0xffff)
    c buf = foldl (msb_byte 16 0x1021) c buf.
Proof.
  revert c. induction buf as [|x buf IH]; intros c Hc Hb; [done|]. apply Forall_cons_1 in Hb as [Hx Hb].
  cbn [foldl]. destruct (crc16_byte c x Hc Hx) as [-> Hr]. by apply IH.
Qed.

(** The table-driven CRC-16 and CRC-7 are the shift registers of
    x^16+x^12+x^5+1 and x^7+x^3+1; for a start value of at most seven bits the
    index stays inside the table of CRC-7. *)
Theorem crc16_crc7_correct crc buf : bytes buf →
  cyg_crc16 buf = msb_serial 16 0x1021 0 (message_bits_msb buf) ∧
  (0 ≤ crc < 2 ^ 7 → crc7 crc buf = Some (msb_serial 7 0x09 crc (message_bits_msb buf))).
Proof.
  intros Hb. rewrite !msb_serial_bytes. split.
  - apply (cyg_crc16_from 0 buf); [lia|done].
  - revert crc. induction buf as [|x buf IH]; intros c Hc; [done|]. apply Forall_cons_1 in Hb as [Hx Hb].
    cbn [crc7 foldl]. rewrite crc7_byte_ok by done. cbn [mbind option_bind]. apply IH; [done|]. by apply msb_byte_range.
Qed.

Lemma crc16_crc7_correct_witness :
  cyg_crc16 [49; 50; 51] = msb_serial 16 0x1021 0 (message_bits_msb [49; 50; 51]) ∧
  (0 ≤ 0 < 2 ^ 7 → crc7 0 [49; 50; 51] = Some (msb_serial 7 0x09 0 (message_bits_msb [49; 50; 51]))).
Proof. apply (crc16_crc7_correct 0 [49; 50; 51]). unfold isbyte. repeat constructor; lia. Defined.
