(* ===== verification/Ctype.v ===== *)
(** * Character classes

    Translation of [include/linux/ctype.h] and [lib/ctype.c]: the table of the
    classes of the 256 characters and the tests that consult it. A character is
    its code from 0 to 255. *)

From stdpp Require Import base option list.
From Stdlib Require Import ZArith Lia.
From S2P Require Import Prelude Word32.
Local Open Scope Z_scope.

Definition _U : Z := 0x01.
Definition _L : Z := 0x02.
Definition _D : Z := 0x04.
Definition _C : Z := 0x08.
Definition _P : Z := 0x10.
Definition _S : Z := 0x20.
Definition _X : Z := 0x40.
Definition _SP : Z := 0x80.

#[local] Infix ".|" := Z.lor (at level 50, left associativity).

Definition _ctype : list Z :=
  [_C; _C; _C; _C; _C; _C; _C; _C;
   _C; _C .| _S; _C .| _S; _C .| _S; _C .| _S; _C .| _S; _C; _C;
   _C; _C; _C; _C; _C; _C; _C; _C;
   _C; _C; _C; _C; _C; _C; _C; _C;
   _S .| _SP; _P; _P; _P; _P; _P; _P; _P;
   _P; _P; _P; _P; _P; _P; _P; _P;
   _D; _D; _D; _D; _D; _D; _D; _D;
   _D; _D; _P; _P; _P; _P; _P; _P;
   _P; _U .| _X; _U .| _X; _U .| _X; _U .| _X; _U .| _X; _U .| _X; _U;
   _U; _U; _U; _U; _U; _U; _U; _U;
   _U; _U; _U; _U; _U; _U; _U; _U;
   _U; _U; _U; _P; _P; _P; _P; _P;
   _P; _L .| _X; _L .| _X; _L .| _X; _L .| _X; _L .| _X; _L .| _X; _L;
   _L; _L; _L; _L; _L; _L; _L; _L;
   _L; _L; _L; _L; _L; _L; _L; _L;
   _L; _L; _L; _P; _P; _P; _P; _C;
   0; 0; 0; 0; 0; 0; 0; 0;
   0; 0; 0; 0; 0; 0; 0; 0;
   0; 0; 0; 0; 0; 0; 0; 0;
   0; 0; 0; 0; 0; 0; 0; 0;
   _S .| _SP; _P; _P; _P; _P; _P; _P; _P;
   _P; _P; _P; _P; _P; _P; _P; _P;
   _P; _P; _P; _P; _P; _P; _P; _P;
   _P; _P; _P; _P; _P; _P; _P; _P;
   _U; _U; _U; _U; _U; _U; _U; _U;
   _U; _U; _U; _U; _U; _U; _U; _U;
   _U; _U; _U; _U; _U; _U; _U; _P;
   _U; _U; _U; _U; _U; _U; _U; _L;
   _L; _L; _L; _L; _L; _L; _L; _L;
   _L; _L; _L; _L; _L; _L; _L; _L;
   _L; _L; _L; _L; _L; _L; _L; _P;
   _L; _L; _L; _L; _L; _L; _L; _L].

(** The conversion to [unsigned char] is the cut to eight bits. *)
Definition ismask (c : Z) : Z := _ctype !!! Z.to_nat (Z.land c 255).
Definition in_class (c mask : Z) : bool := negb (Z.land (ismask c) mask =? 0).

Definition isalnum (c : Z) : bool := in_class c (_U .| _L .| _D).
Definition isalpha (c : Z) : bool := in_class c (_U .| _L).
Definition iscntrl (c : Z) : bool := in_class c _C.
Definition isdigit (c : Z) : bool := in_class c _D.
Definition isgraph (c : Z) : bool := in_class c (_P .| _U .| _L .| _D).
Definition islower (c : Z) : bool := in_class c _L.
Definition isprint (c : Z) : bool := in_class c (_P .| _U .| _L .| _D .| _SP).
Definition ispunct (c : Z) : bool := in_class c _P.
Definition isspace (c : Z) : bool := in_class c _S.
Definition isupper (c : Z) : bool := in_class c _U.
Definition isxdigit (c : Z) : bool := in_class c (_D .| _X).

(** [__tolower] and [__toupper]. *)
Definition tolower (c : Z) : Z := if isupper c then c - (65 - 97) else c.
Definition toupper (c : Z) : Z := if islower c then c - (97 - 65) else c.

(** ** What the tests mean *)

(** A statement about all characters is checked on each. *)
Lemma forall_chars (P : Z → bool) : forallb (λ n, P (Z.of_nat n)) (seq 0 256) = true → ∀ c, isbyte c → P c = true.
Proof.
  intros H c [H0 H1]. rewrite <-(Z2Nat.id c) by done. rewrite forallb_forall in H. apply H.
  apply in_seq. lia.
Qed.

Lemma isdigit_range c : isbyte c → isdigit c = (48 <=? c) && (c <=? 57).
Proof.
  intros Hc. apply Bool.eqb_prop. revert c Hc.
  apply (forall_chars (λ c, Bool.eqb (isdigit c) ((48 <=? c) && (c <=? 57)))). by vm_compute.
Qed.

Lemma isxdigit_range c : isbyte c →
  isxdigit c = (48 <=? c) && (c <=? 57) || (65 <=? c) && (c <=? 70) || (97 <=? c) && (c <=? 102).
Proof.
  intros Hc. apply Bool.eqb_prop. revert c Hc.
  apply (forall_chars (λ c, Bool.eqb (isxdigit c) ((48 <=? c) && (c <=? 57) || (65 <=? c) && (c <=? 70) || (97 <=? c) && (c <=? 102)))).
  by vm_compute.
Qed.

(** In ASCII the classes are the usual ones; every letter has one case. *)
Lemma isalpha_range c : isbyte c → c < 128 → isalpha c = (65 <=? c) && (c <=? 90) || (97 <=? c) && (c <=? 122).
Proof.
  intros Hc Ha. apply Bool.eqb_prop.
  assert (H : (128 <=? c) || Bool.eqb (isalpha c) ((65 <=? c) && (c <=? 90) || (97 <=? c) && (c <=? 122)) = true).
  { revert c Hc Ha. intros c Hc _. revert c Hc.
    apply (forall_chars (λ c, (128 <=? c) || Bool.eqb (isalpha c) ((65 <=? c) && (c <=? 90) || (97 <=? c) && (c <=? 122)))).
    by vm_compute. }
  apply orb_true_iff in H as [H|H]; [cmp_inv H; lia|done].
Qed.

Lemma case_round_trip c : isbyte c → c < 128 → islower c = true → tolower (toupper c) = c.
Proof.
  intros Hc Ha Hl.
  assert (H : (128 <=? c) || negb (islower c) || (tolower (toupper c) =? c) = true).
  { revert c Hc Ha Hl. intros c Hc _ _. revert c Hc.
    apply (forall_chars (λ c, (128 <=? c) || negb (islower c) || (tolower (toupper c) =? c))). by vm_compute. }
  rewrite Hl in H. apply orb_true_iff in H as [H|H].
  - rewrite orb_false_r in H. cmp_inv H. lia.
  - by cmp_inv H.
Qed.
