(* ===== verification/Div64.v ===== *)
(** * Division of 64-bit numbers

    Translation of [lib/div64.c] and of the macro [do_div] of
    [include/div64.h]: a 64-bit number divided by a 32-bit one, on a machine
    that divides 32-bit numbers only. *)

From stdpp Require Import base option numbers.
From Stdlib Require Import ZArith Lia.
From S2P Require Import Prelude Word32.
Local Open Scope Z_scope.

Definition u64 (x : Z) : Z := x mod 2 ^ 64.

(** The loop that doubles [b] and [d]. *)
Fixpoint double_up (fuel : nat) (rem b d : Z) : option (Z * Z) :=
  match fuel with
  | O => None
  | S fuel =>
      if (0 <? b) && (b <? 2 ^ 63) && (b <? rem) then double_up fuel rem (u64 (b + b)) (u64 (d + d))
      else Some (b, d)
  end.

(** The loop that subtracts. *)
Fixpoint halve_down (fuel : nat) (rem b d res : Z) : option (Z * Z) :=
  match fuel with
  | O => None
  | S fuel =>
      let '(rem, res) := if b <=? rem then (u64 (rem - b), u64 (res + d)) else (rem, res) in
      let b := Z.shiftr b 1 in
      let d := Z.shiftr d 1 in
      if d =? 0 then Some (res, rem) else halve_down fuel rem b d res
  end.

(** [*n] after the call and the remainder. *)
Definition __div64_32 (fuel : nat) (n base : Z) : option (Z * Z) :=
  let rem := n in
  let high := Z.shiftr rem 32 in
  let '(rem, res) :=
    if base <=? high then
      let high := high / base in
      (u64 (rem - u64 (Z.shiftl (u32 (high * base)) 32)), u64 (Z.shiftl high 32))
    else (rem, 0) in
  '(b, d) ← double_up fuel rem base 1;
  '(res, rem) ← halve_down fuel rem b d res;
  Some (res, u32 rem).

(** [do_div(n, base)]: the quotient that is stored in [n], and the remainder. *)
Definition do_div (n base : Z) : option (Z * Z) :=
  if Z.shiftr n 32 =? 0 then Some (u32 n / base, u32 n mod base)
  else __div64_32 65 n base.

Definition lldiv (dividend divisor : Z) : option Z := '(res, _) ← do_div dividend divisor; Some res.

(** ** Correctness *)

Lemma u64_small x : 0 ≤ x < 2 ^ 64 → u64 x = x.
Proof. apply Z.mod_small. Qed.

Lemma double_up_ok base rem fuel k :
  0 < base < 2 ^ 32 → 0 ≤ k → base * 2 ^ k < 2 ^ 64 → 0 ≤ rem < 2 ^ 64 → 65 ≤ k + Z.of_nat fuel →
  ∃ j, k ≤ j ∧ base * 2 ^ j < 2 ^ 64 ∧ rem < 2 * (base * 2 ^ j) ∧
    double_up fuel rem (base * 2 ^ k) (2 ^ k) = Some (base * 2 ^ j, 2 ^ j).
Proof.
  intros Hb. revert k. induction fuel as [|fuel IH]; intros k Hk H64 Hr Hf.
  - exfalso. pose proof (Z.pow_le_mono_r 2 65 k). lia.
  - pose proof (Z.pow_pos_nonneg 2 k). assert (E : 2 ^ (k + 1) = 2 * 2 ^ k) by (rewrite Z.pow_add_r by lia; lia).
    cbn [double_up]. destruct ((0 <? base * 2 ^ k) && (base * 2 ^ k <? 2 ^ 63) && (base * 2 ^ k <? rem)) eqn:C.
    + apply andb_prop in C as [[C1 C2]%andb_prop C3]. cmp_inv C2.
      destruct (IH (k + 1)) as (j & Hj & Hj64 & Hjr & Ej); [lia..|]. exists j. split_and!; [lia..|].
      rewrite !u64_small by nia. by replace (base * 2 ^ k + base * 2 ^ k) with (base * 2 ^ (k + 1)) by lia;
        replace (2 ^ k + 2 ^ k) with (2 ^ (k + 1)) by lia.
    + exists k. split_and!; [lia|done| |done].
      apply andb_false_iff in C as [[C|C]%andb_false_iff|C]; cmp_inv C; nia.
Qed.

Lemma halve_down_ok n base fuel k res rem :
  0 < base → 0 ≤ k → base * 2 ^ k < 2 ^ 64 → 0 ≤ n < 2 ^ 64 → 0 ≤ res → 0 ≤ rem < 2 * (base * 2 ^ k) →
  n = res * base + rem → k < Z.of_nat fuel →
  halve_down fuel rem (base * 2 ^ k) (2 ^ k) res = Some (n / base, n mod base).
Proof.
  intros Hb. revert k res rem. induction fuel as [|fuel IH]; intros k res rem Hk H64 Hn Hres Hrem E Hf; [lia|].
  pose proof (Z.pow_pos_nonneg 2 k). cbn [halve_down].
  set (c := base * 2 ^ k <=? rem).
  assert (∃ rem' res', (if c then (u64 (rem - base * 2 ^ k), u64 (res + 2 ^ k)) else (rem, res)) = (rem', res') ∧
    0 ≤ rem' < base * 2 ^ k ∧ 0 ≤ res' ∧ n = res' * base + rem') as (rem' & res' & -> & Hrem' & Hres' & E').
  { unfold c. destruct (_ <=? _) eqn:C; cmp_inv C; [|by exists rem, res; split_and!; [done|lia..]].
    exists (rem - base * 2 ^ k), (res + 2 ^ k). split_and!; [|lia..].
    assert ((res + 2 ^ k) * base ≤ n) by lia. assert (res + 2 ^ k ≤ (res + 2 ^ k) * base) by (apply Z.le_mul_diag_r; lia).
    by rewrite !u64_small by lia. }
  destruct (decide (k = 0)) as [->|Hk0].
  - cbn [Z.shiftr]. change (2 ^ 0) with 1 in *. change (Z.shiftr 1 1 =? 0) with true. cbn iota.
    rewrite Z.mul_1_r in Hrem'. rewrite (Z.div_unique_pos n base res' rem'), (Z.mod_unique_pos n base res' rem') by lia. done.
  - assert (Ek : 2 ^ k = 2 * 2 ^ (k - 1)) by (rewrite <-Z.pow_succ_r by lia; f_equal; lia).
    pose proof (Z.pow_pos_nonneg 2 (k - 1)). rewrite !Z.shiftr_div_pow2 by lia. change (2 ^ 1) with 2.
    rewrite Ek. replace (base * (2 * 2 ^ (k - 1))) with (base * 2 ^ (k - 1) * 2) by lia.
    rewrite (Z.mul_comm 2 (2 ^ _)), !Z.div_mul by lia.
    destruct (2 ^ (k - 1) =? 0) eqn:C; cmp_inv C; [lia|]. apply IH; lia.
Qed.

(** The loops run at most 65 times. *)
Lemma __div64_32_ok fuel n base : 0 ≤ n < 2 ^ 64 → 0 < base < 2 ^ 32 → (65 ≤ fuel)%nat →
  __div64_32 fuel n base = Some (n / base, n mod base).
Proof.
  intros Hn Hb Hf. unfold __div64_32.
  set (hi := Z.shiftr n 32). assert (Ehi : hi = n / 2 ^ 32) by (apply Z.shiftr_div_pow2; lia).
  assert (0 ≤ hi < 2 ^ 32) by (rewrite Ehi; split; [apply Z.div_pos|apply Z.div_lt_upper_bound]; lia).
  pose proof (Z.div_mod n (2 ^ 32) ltac:(lia)) as Dn. pose proof (Z.mod_pos_bound n (2 ^ 32) ltac:(lia)).
  rewrite <-Ehi in Dn.
  assert (∃ rem res, (if base <=? hi then (u64 (n - u64 (Z.shiftl (u32 (hi / base * base)) 32)), u64 (Z.shiftl (hi / base) 32)) else (n, 0)) = (rem, res) ∧
    0 ≤ rem < 2 ^ 64 ∧ 0 ≤ res ∧ n = res * base + rem) as (rem & res & -> & Hrem & Hres & E).
  { destruct (base <=? hi) eqn:C; cmp_inv C; [|by exists n, 0; split_and!; [done|lia..]].
    pose proof (Z.div_mod hi base ltac:(lia)). pose proof (Z.mod_pos_bound hi base ltac:(lia)).
    pose proof (Z.div_pos hi base ltac:(lia) ltac:(lia)).
    assert (hi / base < 2 ^ 32) by nia.
    exists (n - hi / base * base * 2 ^ 32), (hi / base * 2 ^ 32). split_and!; [|nia..].
    rewrite u32_small by nia. rewrite !Z.shiftl_mul_pow2 by lia. rewrite (u64_small (hi / base * base * 2 ^ 32)) by nia. by rewrite !u64_small by nia. }
  destruct (double_up_ok base rem fuel 0) as (j & Hj & Hj64 & Hjr & Ej); [lia..|].
  change (2 ^ 0) with 1 in Ej. rewrite Z.mul_1_r in Ej. rewrite Ej. cbn [mbind option_bind].
  rewrite (halve_down_ok n); [|lia..|].
  - cbn [mbind option_bind]. rewrite u32_small; [done|]. pose proof (Z.mod_pos_bound n base). lia.
  - assert (j < 64); [|lia]. destruct (decide (64 ≤ j)); [|lia]. pose proof (Z.pow_le_mono_r 2 64 j). nia.
Qed.

Lemma do_div_ok n base : 0 ≤ n < 2 ^ 64 → 0 < base < 2 ^ 32 → do_div n base = Some (n / base, n mod base).
Proof.
  intros Hn Hb. unfold do_div. destruct (Z.shiftr n 32 =? 0) eqn:C; cmp_inv C; [|by apply __div64_32_ok].
  rewrite Z.shiftr_div_pow2 in C by lia. rewrite u32_small; [done|].
  pose proof (Z.div_mod n (2 ^ 32)). pose proof (Z.mod_pos_bound n (2 ^ 32)). lia.
Qed.
