(* ===== verification/Strtoul.v ===== *)
(** * Reading numbers

    Translation of the readers of [lib/vsprintf.c]. A string is the list of its
    characters without the NUL; [ch] reads the first one, which is NUL at the
    end. A pointer into the string that a function returns is the rest of the
    string from there. [unsigned long] has 32 bits, [unsigned long long] 64. *)

From stdpp Require Import base option list numbers.
From Stdlib Require Import ZArith Lia.
From S2P Require Import Prelude Word32 Ctype.
Local Open Scope Z_scope.

Definition ch (s : list Z) : Z := default 0 (head s).

Definition EINVAL : Z := 22.

(** The value of a digit, as the condition of the loop computes it. *)
Definition digit_value (c : Z) : Z :=
  if isdigit c then c - 48 else (if islower c then toupper c else c) - 65 + 10.

Lemma ch_cons c l : ch (c :: l) = c.
Proof. done. Qed.

(** What happens before the loop: a leading 0 is passed over, and the base is
    taken from the prefix when none is given; 0x sets it in any case. *)
Definition strto_prefix (cp : list Z) (base : Z) : list Z * Z :=
  let '(cp, base) :=
    if ch cp =? 48 then
      let cp := tail cp in
      let '(cp, base) := if (ch cp =? 120) && isxdigit (ch (tail cp)) then (tail cp, 16) else (cp, base) in
      (cp, if base =? 0 then 8 else base)
    else (cp, base) in
  (cp, if base =? 0 then 10 else base).

Section Width.
(** The width of the result. *)
Context (w : Z).

Fixpoint strto_loop (base result : Z) (cp : list Z) : Z * list Z :=
  match cp with
  | [] => (result, [])
  | c :: cp' =>
      if isxdigit c && (digit_value c <? base)
      then strto_loop base ((result * base + digit_value c) mod 2 ^ w) cp'
      else (result, cp)
  end.

Definition strto (cp : list Z) (base : Z) : Z * list Z :=
  let '(cp, base) := strto_prefix cp base in strto_loop base 0 cp.

(** The suffixes G, M, K and k, with [iB] or [i]. *)
Definition scale (result : Z) : Z := (result * 1024) mod 2 ^ w.

Definition ustrto (cp : list Z) (base : Z) : Z * list Z :=
  let '(result, endp) := strto cp base in
  let from_K result :=
    let result := scale result in
    (result, if ch (tail endp) =? 105 then (if ch (tail (tail endp)) =? 66 then drop 3 endp else drop 2 endp) else endp) in
  let from_M result := from_K (scale result) in
  let c := ch endp in
  if c =? 71 then from_M (scale result)
  else if c =? 77 then from_M result
  else if (c =? 75) || (c =? 107) then from_K result
  else (result, endp).

End Width.

Definition simple_strtoul : list Z → Z → Z * list Z := strto 32.
Definition simple_strtoull : list Z → Z → Z * list Z := strto 64.
Definition ustrtoul : list Z → Z → Z * list Z := ustrto 32.
Definition ustrtoull : list Z → Z → Z * list Z := ustrto 64.

(** The conversion of a 32-bit pattern to [long]. *)
Definition s32 (x : Z) : Z := (x + 2 ^ 31) mod 2 ^ 32 - 2 ^ 31.

Definition simple_strtol (cp : list Z) (base : Z) : Z * list Z :=
  if ch cp =? 45 then let '(r, endp) := simple_strtoul (tail cp) base in (s32 (u32 (- r)), endp)
  else let '(r, endp) := simple_strtoul cp base in (s32 r, endp).

(** The return value and [*res]. *)
Definition strict_strtoul (cp : list Z) (base : Z) : Z * Z :=
  if (length cp =? 0)%nat then (- EINVAL, 0)
  else
    let '(val, tl) := simple_strtoul cp base in
    if (length tl =? length cp)%nat then (- EINVAL, 0)
    else if (ch tl =? 0) || ((length cp =? length cp - length tl + 1)%nat && (ch tl =? 10)) then (0, val)
    else (- EINVAL, 0).

(** Used for the fields of a format. The sum overflows beyond 2^31-1, where
    the behaviour of C is undefined ([None]). *)
Definition is_digit (c : Z) : bool := (48 <=? c) && (c <=? 57).

Fixpoint atoi_loop (i : Z) (s : list Z) : option (Z * list Z) :=
  match s with
  | [] => Some (i, [])
  | c :: s' =>
      if is_digit c then
        let i := i * 10 + (c - 48) in
        if i <? 2 ^ 31 then atoi_loop i s' else None
      else Some (i, s)
  end.
Definition skip_atoi : list Z → option (Z * list Z) := atoi_loop 0.

(** ** The number that digits denote *)

Definition digits_val (base : Z) (ds : list Z) : Z := foldl (λ v c, v * base + digit_value c) 0 ds.

(** A character that the loop accepts. *)
Definition is_digit_of (base c : Z) : bool := isxdigit c && (digit_value c <? base).

(** The text does not go on with a digit. *)
Definition stops (base : Z) (rest : list Z) : Prop := is_digit_of base (ch rest) = false.

Lemma digits_val_app base ds c : digits_val base (ds ++ [c]) = digits_val base ds * base + digit_value c.
Proof. unfold digits_val. by rewrite foldl_app. Qed.

Lemma strto_loop_ok w base result ds rest :
  0 ≤ w → Forall (λ c, is_digit_of base c = true) ds → stops base rest →
  strto_loop w base (result mod 2 ^ w) (ds ++ rest) = (foldl (λ v c, v * base + digit_value c) result ds mod 2 ^ w, rest).
Proof.
  intros Hw Hds Hr. revert result. induction Hds as [|c ds Hc Hds IH]; intros result.
  - simpl. destruct rest as [|c rest]; [done|]. simpl. by unfold stops, is_digit_of, ch in Hr; simpl in Hr; rewrite Hr.
  - simpl. unfold is_digit_of in Hc. rewrite Hc. rewrite <-IH. f_equal.
    rewrite Z.add_mod, Z.mul_mod_idemp_l, <-Z.add_mod by (apply Z.pow_nonzero; lia). done.
Qed.

(** What comes before the digits, and the base that it selects. *)
Inductive prefix_of : Z → list Z → list Z → Z → Prop :=
  | prefix_hex base d ds : isxdigit d = true → prefix_of base [48; 120] (d :: ds) 16
  | prefix_octal ds : (ch ds ≠ 120 ∨ isxdigit (ch (tail ds)) = false) → prefix_of 0 [48] ds 8
  | prefix_zero base ds : base ≠ 0 → (ch ds ≠ 120 ∨ isxdigit (ch (tail ds)) = false) → prefix_of base [48] ds base
  | prefix_decimal ds : ch ds ≠ 48 → prefix_of 0 [] ds 10
  | prefix_none base ds : base ≠ 0 → ch ds ≠ 48 → prefix_of base [] ds base.

Lemma strto_prefix_ok base p ds b : prefix_of base p ds b → strto_prefix (p ++ ds) base = (ds, b).
Proof.
  assert (Ht : ∀ c l, ch (c :: l) = c) by done.
  destruct 1 as [base d ds Hd|ds H|base ds Hb H|ds H|base ds Hb H]; unfold strto_prefix; cbn [app].
  - rewrite Ht. cbn. unfold ch. cbn. by rewrite Hd.
  - rewrite Ht. cbn [tail]. change (48 =? 48) with true. cbn iota.
    assert (E : (ch ds =? 120) && isxdigit (ch (tail ds)) = false).
    { destruct H as [H|H]; [by rewrite (proj2 (Z.eqb_neq _ _) H)|by rewrite H, andb_false_r]. }
    by rewrite E.
  - rewrite Ht. cbn [tail]. change (48 =? 48) with true. cbn iota.
    assert (E : (ch ds =? 120) && isxdigit (ch (tail ds)) = false).
    { destruct H as [H|H]; [by rewrite (proj2 (Z.eqb_neq _ _) H)|by rewrite H, andb_false_r]. }
    rewrite E. by rewrite !(proj2 (Z.eqb_neq _ _) Hb).
  - by rewrite (proj2 (Z.eqb_neq _ _) H).
  - by rewrite (proj2 (Z.eqb_neq _ _) H), (proj2 (Z.eqb_neq _ _) Hb).
Qed.

Lemma strto_ok w base p ds b rest :
  0 ≤ w → prefix_of base p (ds ++ rest) b → Forall (λ c, is_digit_of b c = true) ds → stops b rest →
  strto w (p ++ ds ++ rest) base = (digits_val b ds mod 2 ^ w, rest).
Proof.
  intros Hw Hp Hd Hr. unfold strto. rewrite (strto_prefix_ok _ _ _ b) by done.
  rewrite <-(Z.mod_0_l (2 ^ w)) at 1 by (apply Z.pow_nonzero; lia). by apply strto_loop_ok.
Qed.

(** Every text splits in this way, so that the lemma describes every call. *)
Lemma split_digits b s : ∃ ds rest, s = ds ++ rest ∧ Forall (λ c, is_digit_of b c = true) ds ∧ stops b rest.
Proof.
  induction s as [|c s (ds & rest & -> & Hd & Hr)]; [by exists [], []|].
  destruct (is_digit_of b c) eqn:E; [exists (c :: ds), rest|by exists [], (c :: ds ++ rest)].
  split_and!; [done|by constructor|done].
Qed.

Lemma split_prefix base s : ∃ p ds b, s = p ++ ds ∧ prefix_of base p ds b.
Proof.
  destruct (decide (ch s = 48)) as [E|E].
  - destruct s as [|c s]; [done|]. unfold ch in E. simpl in E. subst c.
    destruct (decide (ch s = 120)) as [Ex|Ex]; [destruct (isxdigit (ch (tail s))) eqn:Eh|].
    + destruct s as [|x [|d s]]; [done|by unfold ch in Eh|]. unfold ch in Ex, Eh. simpl in Ex, Eh. subst x.
      exists [48; 120], (d :: s), 16. split; [done|by constructor].
    + destruct (decide (base = 0)) as [->|]; [exists [48], s, 8|exists [48], s, base]; (split; [done|constructor; auto]).
    + destruct (decide (base = 0)) as [->|]; [exists [48], s, 8|exists [48], s, base]; (split; [done|constructor; auto]).
  - destruct (decide (base = 0)) as [->|]; [exists [], s, 10|exists [], s, base]; (split; [done|by constructor]).
Qed.

(** Every call of [simple_strtoul] and [simple_strtoull]: the text is a
    prefix that selects the base, then as many digits of it as there are, then
    a rest; the result is the number of the digits modulo the width and the
    rest. [strict_strtoul] accepts exactly the texts that are not empty, in
    which the rest is empty or a newline and which have a digit or a leading 0. *)
Theorem simple_strtoul_correct s base :
  ∃ p ds b rest, s = p ++ ds ++ rest ∧ prefix_of base p (ds ++ rest) b ∧
    Forall (λ c, is_digit_of b c = true) ds ∧ stops b rest ∧
    simple_strtoul s base = (digits_val b ds mod 2 ^ 32, rest) ∧
    simple_strtoull s base = (digits_val b ds mod 2 ^ 64, rest) ∧
    (Forall (λ c, c ≠ 0) s →
     strict_strtoul s base =
       (if bool_decide (p ++ ds ≠ [] ∧ (rest = [] ∨ rest = [10])) then (0, digits_val b ds mod 2 ^ 32) else (- EINVAL, 0))).
Proof.
  destruct (split_prefix base s) as (p & s' & b & -> & Hp). destruct (split_digits b s') as (ds & rest & -> & Hd & Hr).
  exists p, ds, b, rest. split_and!; [done|done|done|done|by apply strto_ok|by apply strto_ok|].
  intros Hz. unfold strict_strtoul, simple_strtoul. rewrite (strto_ok 32 _ _ _ b) by done.
  assert (Hz' : Forall (λ c, c ≠ 0) rest) by (apply Forall_app in Hz as [_ Hz]; by apply Forall_app in Hz as [_ Hz]).
  rewrite !length_app.
  destruct (decide (p ++ ds = [])) as [E|E].
  - apply app_eq_nil in E as [-> ->]. rewrite bool_decide_false by (by intros [? _]). cbn [length app Nat.add].
    destruct (length rest =? 0)%nat; [done|]. by rewrite Nat.eqb_refl.
  - assert (0 < length p + length ds)%nat by (rewrite <-length_app; destruct (p ++ ds); [done|simpl; lia]).
    destruct (_ =? 0)%nat eqn:E0; cmp_inv E0; [lia|]. destruct (length rest =? _)%nat eqn:E1; cmp_inv E1; [lia|].
    destruct rest as [|c [|c' rest]].
    + by rewrite bool_decide_true by auto.
    + apply Forall_cons_1 in Hz' as [Hc _]. rewrite ch_cons.
      rewrite (proj2 (Z.eqb_neq _ _) Hc). cbn [orb length].
      rewrite (proj2 (Nat.eqb_eq _ _)) by lia. cbn [andb]. destruct (c =? 10) eqn:Ec; cmp_inv Ec.
      * subst c. by rewrite bool_decide_true by auto.
      * rewrite bool_decide_false; [done|]. by intros [_ [?|[= ?]]].
    + apply Forall_cons_1 in Hz' as [Hc _]. rewrite ch_cons.
      rewrite (proj2 (Z.eqb_neq _ _) Hc). cbn [orb length].
      destruct (_ =? _)%nat eqn:E2; cmp_inv E2; [lia|]. cbn [andb]. rewrite bool_decide_false; [done|]. by intros [_ [?|?]].
Qed.

Lemma simple_strtoul_correct_witness :
  ∃ p ds b, p ++ ds ≠ [] ∧ strict_strtoul [48; 120; 49; 102; 10] 0 =
    (if bool_decide (p ++ ds ≠ [] ∧ ([10] = [] ∨ [10] = [10])) then (0, digits_val b ds mod 2 ^ 32) else (- EINVAL, 0)).
Proof.
  destruct (simple_strtoul_correct [48; 120; 49; 102; 10] 0) as (p & ds & b & rest & E & _ & _ & _ & Es & _ & H).
  change (simple_strtoul _ _) with (31, [10]) in Es. injection Es as _ <-. exists p, ds, b. split.
  - intros Hn. rewrite app_assoc, Hn in E. discriminate E.
  - apply H. by repeat constructor.
Defined.

(** [0x1f], [0777] and [42] with base 0; [08] stops before the 8. *)
Example strtoul_hex : simple_strtoul [48; 120; 49; 102] 0 = (31, []).
Proof. reflexivity. Qed.
Example strtoul_octal : simple_strtoul [48; 55; 55; 55] 0 = (511, []).
Proof. reflexivity. Qed.
Example strtoul_not_octal : simple_strtoul [48; 56] 0 = (0, [56]).
Proof. reflexivity. Qed.
Example ustrtoul_MiB : ustrtoul [52; 77; 105; 66] 0 = (4194304, []).
Proof. reflexivity. Qed.
