(* ===== verification/Vsprintf.v ===== *)
(** * Formatted output: data and operations

    Translation of the formatter of [lib/vsprintf.c], with [CONFIG_CMD_NET].
    The functions write through the interface [Sink] of an output position;
    [OutBuf] is the buffer of the source with [ADDCH], with and without
    [CONFIG_SYS_VSNPRINTF]. [None] stands for undefined behaviour: an access
    outside of memory, an argument of the wrong type, the overflow of a field
    width, and for a lack of fuel. *)

From stdpp Require Import base option list numbers.
From Stdlib Require Import ZArith Lia.
From S2P Require Import Prelude Word32 Ctype Div64 Strtoul.
Local Open Scope Z_scope.

(** ** The output position *)

(** [addch] is [ADDCH]; [load] reads a byte of memory, [store_int] writes a
    32-bit number, [written] is [str - buf] and [extent] the size of memory. *)
Class Sink (st : Type) := {
  addch : Z → st → option st;
  load : Z → st → option Z;
  store_int : Z → Z → st → option st;
  written : st → Z;
  extent : st → nat;
}.

(** ** Digits *)

(** [hex_asc_hi] and [hex_asc_lo] of [pack_hex_byte]. *)
Definition hex_asc : list Z := [48; 49; 50; 51; 52; 53; 54; 55; 56; 57; 97; 98; 99; 100; 101; 102].
Definition pack_hex_byte (b : Z) : list Z :=
  [hex_asc !!! Z.to_nat (Z.shiftr (Z.land b 0xf0) 4); hex_asc !!! Z.to_nat (Z.land b 0x0f)].

(** The character codes that the arithmetic gives. *)
Definition chr (d : Z) : Z := Z.land (d + 48) 255.

Definition put_dec_trunc (q : Z) : list Z :=
  let d1 := Z.land (Z.shiftr q 4) 0xf in
  let d2 := Z.land (Z.shiftr q 8) 0xf in
  let d3 := Z.shiftr q 12 in
  let d0 := u32 (6 * (d3 + d2 + d1) + Z.land q 0xf) in
  let q := Z.shiftr (u32 (d0 * 0xcd)) 11 in
  let d0 := u32 (d0 - 10 * q) in
  chr d0 ::
  let d1 := u32 (q + 9 * d3 + 5 * d2 + d1) in
  if d1 =? 0 then [] else
    let q := Z.shiftr (u32 (d1 * 0xcd)) 11 in
    let d1 := u32 (d1 - 10 * q) in
    chr d1 ::
    let d2 := u32 (q + 2 * d2) in
    if (d2 =? 0) && (d3 =? 0) then [] else
      let q := Z.shiftr (u32 (d2 * 0xd)) 7 in
      let d2 := u32 (d2 - 10 * q) in
      chr d2 ::
      let d3 := u32 (q + 4 * d3) in
      if d3 =? 0 then [] else
        let q := Z.shiftr (u32 (d3 * 0xcd)) 11 in
        let d3 := u32 (d3 - 10 * q) in
        chr d3 :: if q =? 0 then [] else [chr q].

Definition put_dec_full (q : Z) : list Z :=
  let d1 := Z.land (Z.shiftr q 4) 0xf in
  let d2 := Z.land (Z.shiftr q 8) 0xf in
  let d3 := Z.shiftr q 12 in
  let d0 := u32 (6 * (d3 + d2 + d1) + Z.land q 0xf) in
  let q := Z.shiftr (u32 (d0 * 0xcd)) 11 in
  let d0 := u32 (d0 - 10 * q) in
  let d1 := u32 (q + 9 * d3 + 5 * d2 + d1) in
  let q := Z.shiftr (u32 (d1 * 0xcd)) 11 in
  let d1 := u32 (d1 - 10 * q) in
  let d2 := u32 (q + 2 * d2) in
  let q := Z.shiftr (u32 (d2 * 0xd)) 7 in
  let d2 := u32 (d2 - 10 * q) in
  let d3 := u32 (q + 4 * d3) in
  let q := Z.shiftr (u32 (d3 * 0xcd)) 11 in
  let d3 := u32 (d3 - 10 * q) in
  [chr d0; chr d1; chr d2; chr d3; chr q].

Fixpoint put_dec (fuel : nat) (num : Z) : option (list Z) :=
  match fuel with
  | O => None
  | S fuel =>
      if num <? 100000 then Some (put_dec_trunc num)
      else
        '(num, rem) ← do_div num 100000;
        rest ← put_dec fuel num;
        Some (put_dec_full rem ++ rest)
  end.

(** The upper-case digits; [locase] makes letters lower-case. *)
Definition digits : list Z := [48; 49; 50; 51; 52; 53; 54; 55; 56; 57; 65; 66; 67; 68; 69; 70].

Fixpoint shift_digits (fuel : nat) (num mask shift locase : Z) : option (list Z) :=
  match fuel with
  | O => None
  | S fuel =>
      let d := Z.lor (digits !!! Z.to_nat (Z.land (Z.land num 255) mask)) locase in
      let num := Z.shiftr num shift in
      if num =? 0 then Some [d] else ds ← shift_digits fuel num mask shift locase; Some (d :: ds)
  end.

Definition ZEROPAD : Z := 1.
Definition SIGN : Z := 2.
Definition PLUS : Z := 4.
Definition SPACE : Z := 8.
Definition LEFT : Z := 16.
Definition SMALL : Z := 32.
Definition SPECIAL : Z := 64.

Definition has (type bit : Z) : bool := negb (Z.land type bit =? 0).

(** The contents of [tmp], in reverse order; it has room for 66 characters. *)
Definition number_digits (num base locase : Z) : option (list Z) :=
  tmp ←
    (if num =? 0 then Some [48]
     else if negb (base =? 10) then
       let mask := base - 1 in
       let shift := if base =? 16 then 4 else 3 in
       shift_digits 65 num mask shift locase
     else put_dec 65 num);
  if (length tmp <=? 66)%nat then Some tmp else None.

Section Format.
Context `{Sink st}.

Fixpoint put_all (l : list Z) (s : st) : option st :=
  match l with
  | [] => Some s
  | c :: l => s ← addch c s; put_all l s
  end.

(** [while (--size >= 0) ADDCH(buf, c)]. *)
Fixpoint pad_loop (k : nat) (c size : Z) (s : st) : option (Z * st) :=
  match k with
  | O => None
  | S k =>
      let size := size - 1 in
      if 0 <=? size then s ← addch c s; pad_loop k c size s else Some (size, s)
  end.
Definition pad (c size : Z) (s : st) : option (Z * st) := pad_loop (S (Z.to_nat size)) c size s.

(** [while (i <= --precision) ADDCH(buf, '0')]. *)
Fixpoint zeros_loop (k : nat) (i precision : Z) (s : st) : option st :=
  match k with
  | O => None
  | S k =>
      let precision := precision - 1 in
      if i <=? precision then s ← addch 48 s; zeros_loop k i precision s else Some s
  end.

Definition number (num base size precision type : Z) (s : st) : option st :=
  let need_pfx := has type SPECIAL && negb (base =? 10) in
  let locase := Z.land type SMALL in
  let type := if has type LEFT then Z.land type (Z.lnot ZEROPAD) else type in
  let '(sign, num, size) :=
    if has type SIGN then
      if 2 ^ 63 <=? num then (45, u64 (- num), size - 1)
      else if has type PLUS then (43, num, size - 1)
      else if has type SPACE then (32, num, size - 1)
      else (0, num, size)
    else (0, num, size) in
  let size := if need_pfx then (if base =? 16 then size - 1 - 1 else size - 1) else size in
  tmp ← number_digits num base locase;
  let i := Z.of_nat (length tmp) in
  let precision := if precision <? i then i else precision in
  let size := size - precision in
  '(size, s) ← (if has type (ZEROPAD + LEFT) then Some (size, s) else pad 32 size s);
  s ← (if sign =? 0 then Some s else addch sign s);
  s ← (if need_pfx then
         s ← addch 48 s;
         if base =? 16 then addch (Z.lor 88 locase) s else Some s
       else Some s);
  '(size, s) ← (if has type LEFT then Some (size, s) else pad (if has type ZEROPAD then 48 else 32) size s);
  s ← zeros_loop (S (Z.to_nat (precision - i))) i precision s;
  s ← put_all (reverse tmp) s;
  '(_, s) ← pad 32 size s;
  Some s.

(** ** Strings *)

(** Where a string is: at an address of memory, or in an array of the function. *)
Inductive source := At (p : Z) | Local (l : list Z).

Definition read (src : source) (i : nat) (s : st) : option Z :=
  match src with At p => load (p + Z.of_nat i) s | Local l => l !! i end.

Definition null_text : list Z := [60; 78; 85; 76; 76; 62; 0].

(** [strnlen(s, precision)]; the count is unsigned. *)
Fixpoint strnlen_loop (fuel : nat) (count : Z) (src : source) (i : nat) (s : st) : option nat :=
  match fuel with
  | O => None
  | S fuel =>
      if count =? 0 then Some i
      else c ← read src i s; if c =? 0 then Some i else strnlen_loop fuel (count - 1) src (S i) s
  end.

Definition source_size (src : source) (s : st) : nat :=
  match src with At _ => extent s | Local l => length l end.

Fixpoint copy_loop (k i : nat) (src : source) (s : st) : option st :=
  match k with
  | O => Some s
  | S k => c ← read src i s; s ← addch c s; copy_loop k (S i) src s
  end.

(** [while (len < field_width--) ADDCH(buf, ' ')]. *)
Fixpoint width_loop (k : nat) (len field_width : Z) (s : st) : option (Z * st) :=
  match k with
  | O => None
  | S k =>
      if len <? field_width then s ← addch 32 s; width_loop k len (field_width - 1) s
      else Some (field_width - 1, s)
  end.
Definition width (len field_width : Z) (s : st) : option (Z * st) :=
  width_loop (S (Z.to_nat (field_width - len))) len field_width s.

Definition string (src : source) (field_width precision flags : Z) (s : st) : option st :=
  let src := match src with At p => if p =? 0 then Local null_text else src | Local _ => src end in
  len ← strnlen_loop (S (source_size src s)) (u32 precision) src 0 s;
  '(field_width, s) ← (if has flags LEFT then Some (field_width, s) else width (Z.of_nat len) field_width s);
  s ← copy_loop len 0 src s;
  '(_, s) ← width (Z.of_nat len) field_width s;
  Some s.

(** The bytes of an address. *)
Fixpoint load_bytes (n : nat) (p : Z) (s : st) : option (list Z) :=
  match n with
  | O => Some []
  | S n => b ← load p s; r ← load_bytes n (p + 1) s; Some (b :: r)
  end.

(** The fields with a separator between them. *)
Fixpoint separate (sep : list Z) (fields : list (list Z)) : list Z :=
  match fields with
  | [] => []
  | [f] => f
  | f :: fields => f ++ sep ++ separate sep fields
  end.

Definition colon (flags : Z) : list Z := if has flags SPECIAL then [] else [58].

Definition mac_address_string (addr field_width precision flags : Z) (s : st) : option st :=
  b ← load_bytes 6 addr s;
  string (Local (separate (colon flags) (pack_hex_byte <$> b) ++ [0])) field_width precision
    (Z.land flags (Z.lnot SPECIAL)) s.

Fixpoint pairs (l : list (list Z)) : list (list Z) :=
  match l with a :: b :: l => (a ++ b) :: pairs l | _ => l end.

Definition ip6_addr_string (addr field_width precision flags : Z) (s : st) : option st :=
  b ← load_bytes 16 addr s;
  string (Local (separate (colon flags) (pairs (pack_hex_byte <$> b)) ++ [0])) field_width precision
    (Z.land flags (Z.lnot SPECIAL)) s.

Definition ip4_addr_string (addr field_width precision flags : Z) (s : st) : option st :=
  b ← load_bytes 4 addr s;
  string (Local (separate [46] ((λ x, reverse (put_dec_trunc x)) <$> b) ++ [0])) field_width precision
    (Z.land flags (Z.lnot SPECIAL)) s.

Definition pointer (fmt : list Z) (ptr field_width precision flags : Z) (s : st) : option st :=
  let number_ flags :=
    let flags := Z.lor flags SMALL in
    let '(field_width, flags) := if field_width =? -1 then (8, Z.lor flags ZEROPAD) else (field_width, flags) in
    number ptr 16 field_width precision flags s in
  let ip flags :=
    if ch (tail fmt) =? 54 then ip6_addr_string ptr field_width precision flags s
    else if ch (tail fmt) =? 52 then ip4_addr_string ptr field_width precision flags s
    else number_ (Z.land flags (Z.lnot SPECIAL)) in
  let c := ch fmt in
  if c =? 109 then mac_address_string ptr field_width precision (Z.lor flags SPECIAL) s
  else if c =? 77 then mac_address_string ptr field_width precision flags s
  else if c =? 105 then ip (Z.lor flags SPECIAL)
  else if c =? 73 then ip flags
  else number_ flags.

(** ** The format *)

(** The arguments after the format, each with the pattern that is passed:
    [int], [long], [size_t] and [ptrdiff_t] have 32 bits. *)
Inductive arg := AInt (x : Z) | ALongLong (x : Z) | APtr (p : Z).

Definition va_int (args : list arg) : option (Z * list arg) :=
  match args with AInt x :: args => Some (x, args) | _ => None end.
Definition va_longlong (args : list arg) : option (Z * list arg) :=
  match args with ALongLong x :: args => Some (x, args) | _ => None end.
Definition va_ptr (args : list arg) : option (Z * list arg) :=
  match args with APtr p :: args => Some (p, args) | _ => None end.

Definition flag_of (c : Z) : Z :=
  if c =? 45 then LEFT else if c =? 43 then PLUS else if c =? 32 then SPACE
  else if c =? 35 then SPECIAL else if c =? 48 then ZEROPAD else 0.

Fixpoint flags_loop (flags : Z) (fmt : list Z) : Z * list Z :=
  match fmt with
  | [] => (flags, [])
  | c :: fmt' => if flag_of c =? 0 then (flags, fmt) else flags_loop (Z.lor flags (flag_of c)) fmt'
  end.

(** The width, and the flags since a negative argument sets [LEFT]. *)
Definition get_width (flags : Z) (fmt : list Z) (args : list arg) : option (Z * Z * list Z * list arg) :=
  if is_digit (ch fmt) then '(w, fmt) ← skip_atoi fmt; Some (w, flags, fmt, args)
  else if ch fmt =? 42 then
    '(x, args) ← va_int args;
    let w := s32 x in
    if w =? - 2 ^ 31 then None
    else if w <? 0 then Some (- w, Z.lor flags LEFT, tail fmt, args) else Some (w, flags, tail fmt, args)
  else Some (-1, flags, fmt, args).

Definition get_precision (fmt : list Z) (args : list arg) : option (Z * list Z * list arg) :=
  if ch fmt =? 46 then
    let fmt := tail fmt in
    '(p, fmt, args) ←
      (if is_digit (ch fmt) then '(p, fmt) ← skip_atoi fmt; Some (p, fmt, args)
       else if ch fmt =? 42 then '(x, args) ← va_int args; Some (s32 x, tail fmt, args)
       else Some (-1, fmt, args));
    Some (if p <? 0 then 0 else p, fmt, args)
  else Some (-1, fmt, args).

Definition is_qualifier (c : Z) : bool :=
  (c =? 104) || (c =? 108) || (c =? 76) || (c =? 90) || (c =? 122) || (c =? 116).

Definition get_qualifier (fmt : list Z) : Z * list Z :=
  if is_qualifier (ch fmt) then
    let q := ch fmt in
    let fmt := tail fmt in
    if (q =? 108) && (ch fmt =? 108) then (76, tail fmt) else (q, fmt)
  else (-1, fmt).

Definition s16 (x : Z) : Z := (x + 2 ^ 15) mod 2 ^ 16 - 2 ^ 15.

(** The number that the qualifier fetches, as the pattern in [u64 num]. *)
Definition get_num (qualifier flags : Z) (args : list arg) : option (Z * list arg) :=
  if qualifier =? 76 then va_longlong args
  else
    '(x, args) ← va_int args;
    Some (if qualifier =? 108 then (if has flags SIGN then u64 (s32 x) else x)
          else if (qualifier =? 90) || (qualifier =? 122) then x
          else if qualifier =? 116 then u64 (s32 x)
          else if qualifier =? 104 then (if has flags SIGN then u64 (s16 (x mod 2 ^ 16)) else x mod 2 ^ 16)
          else if has flags SIGN then u64 (s32 x) else x, args).

(** [while (--field_width > 0) ADDCH(str, ' ')]. *)
Fixpoint char_pad_loop (k : nat) (field_width : Z) (s : st) : option (Z * st) :=
  match k with
  | O => None
  | S k =>
      let field_width := field_width - 1 in
      if 0 <? field_width then s ← addch 32 s; char_pad_loop k field_width s else Some (field_width, s)
  end.
Definition char_pad (field_width : Z) (s : st) : option (Z * st) :=
  char_pad_loop (S (Z.to_nat field_width)) field_width s.

Fixpoint skip_alnum (fmt : list Z) : list Z :=
  match fmt with
  | c :: fmt' => if isalnum c then skip_alnum fmt' else fmt
  | [] => []
  end.

(** The conversion at [fmt]; what follows it, the arguments that are left and
    the output. *)
Definition convert (flags field_width precision qualifier : Z) (fmt : list Z) (args : list arg) (s : st) :
    option (list Z * list arg * st) :=
  let integer base flags :=
    '(num, args) ← get_num qualifier flags args;
    s ← number num base field_width precision flags s;
    Some (tail fmt, args, s) in
  let c := ch fmt in
  if c =? 99 then
    '(field_width, s) ← (if has flags LEFT then Some (field_width, s) else char_pad field_width s);
    '(x, args) ← va_int args;
    s ← addch (x mod 256) s;
    '(_, s) ← char_pad field_width s;
    Some (tail fmt, args, s)
  else if c =? 115 then
    '(p, args) ← va_ptr args;
    s ← string (At p) field_width precision flags s;
    Some (tail fmt, args, s)
  else if c =? 112 then
    '(p, args) ← va_ptr args;
    s ← pointer (tail fmt) p field_width precision flags s;
    Some (skip_alnum (tail fmt), args, s)
  else if c =? 110 then
    '(p, args) ← va_ptr args;
    s ← store_int p (u32 (written s)) s;
    Some (tail fmt, args, s)
  else if c =? 37 then s ← addch 37 s; Some (tail fmt, args, s)
  else if c =? 111 then integer 8 flags
  else if c =? 120 then integer 16 (Z.lor flags SMALL)
  else if c =? 88 then integer 16 flags
  else if (c =? 100) || (c =? 105) then integer 10 (Z.lor flags SIGN)
  else if c =? 117 then integer 10 flags
  else
    s ← addch 37 s;
    if c =? 0 then Some (fmt, args, s) else s ← addch c s; Some (tail fmt, args, s).

(** The loop over the format. *)
Fixpoint format_loop (fuel : nat) (fmt : list Z) (args : list arg) (s : st) : option st :=
  match fuel with
  | O => None
  | S fuel =>
      match fmt with
      | [] => Some s
      | c :: fmt =>
          if negb (c =? 37) then s ← addch c s; format_loop fuel fmt args s
          else
            let '(flags, fmt) := flags_loop 0 fmt in
            '(field_width, flags, fmt, args) ← get_width flags fmt args;
            '(precision, fmt, args) ← get_precision fmt args;
            let '(qualifier, fmt) := get_qualifier fmt in
            '(fmt, args, s) ← convert flags field_width precision qualifier fmt args s;
            format_loop fuel fmt args s
      end
  end.

Definition format (fmt : list Z) (args : list arg) (s : st) : option st :=
  format_loop (S (length fmt)) fmt args s.

End Format.

(** ** The buffer *)

Definition load8 (m : list Z) (p : Z) : option Z := if 0 <=? p then m !! Z.to_nat p else None.
Definition store8 (m : list Z) (p v : Z) : option (list Z) :=
  if (0 <=? p) && (p <? Z.of_nat (length m)) then Some (<[Z.to_nat p := v]> m) else None.

Definition store_word (m : list Z) (p v : Z) : option (list Z) :=
  m ← store8 m p (Z.land v 255);
  m ← store8 m (p + 1) (Z.land (Z.shiftr v 8) 255);
  m ← store8 m (p + 2) (Z.land (Z.shiftr v 16) 255);
  store8 m (p + 3) (Z.land (Z.shiftr v 24) 255).

(** A pointer has 32 bits: it wraps around at the end of the address space. *)
Record out := mkOut { o_mem : list Z; o_str : Z }.

Section Buffer.
(** [CONFIG_SYS_VSNPRINTF], and the buffer. *)
Context (safe : bool) (buf end_ : Z).

Definition ADDCH (c : Z) (s : out) : option out :=
  m ← (if safe && negb (o_str s <? end_) then Some (o_mem s) else store8 (o_mem s) (o_str s) c);
  Some (mkOut m (u32 (o_str s + 1))).

#[global] Instance OutBuf : Sink out := {|
  addch := ADDCH;
  load p s := load8 (o_mem s) p;
  store_int p v s := m ← store_word (o_mem s) p v; Some (mkOut m (o_str s));
  written s := o_str s - buf;
  extent s := length (o_mem s);
|}.

End Buffer.

(** The memory afterwards and the return value, [str - buf] as an [int]. *)
Definition vsnprintf_internal (safe : bool) (m : list Z) (buf size : Z) (fmt : list Z) (args : list arg) :
    option (list Z * Z) :=
  let end_ := u32 (buf + size) in
  let '(end_, size) := if safe && (end_ <? buf) then (2 ^ 32 - 1, 2 ^ 32 - 1 - buf) else (end_, size) in
  s ← format (H := OutBuf safe buf end_) fmt args (mkOut m buf);
  if safe then
    if 0 <? size then
      t ← ADDCH safe end_ 0 s;
      m ← (if end_ <? o_str t then store8 (o_mem t) (end_ - 1) 0 else Some (o_mem t));
      Some (m, s32 (o_str t - buf))
    else Some (o_mem s, s32 (o_str s - buf))
  else
    m ← store8 (o_mem s) (o_str s) 0;
    Some (m, s32 (o_str s - buf)).

Definition INT_MAX : Z := 2 ^ 31 - 1.

Definition vsnprintf := vsnprintf_internal true.

(** [i < size] compares with a [size_t]. *)
Definition vscnprintf (m : list Z) (buf size : Z) (fmt : list Z) (args : list arg) : option (list Z * Z) :=
  '(m, i) ← vsnprintf m buf size fmt args;
  Some (m, if u32 i <? size then i else if negb (size =? 0) then s32 (size - 1) else 0).

Definition vsprintf (safe : bool) (m : list Z) (buf : Z) (fmt : list Z) (args : list arg) : option (list Z * Z) :=
  vsnprintf_internal safe m buf INT_MAX fmt args.

(** ** [simple_itoa] *)

(** From the last place of the 21 before the NUL downwards. *)
Fixpoint itoa_loop (room : nat) (i : Z) (local : list Z) : option (list Z) :=
  match room with
  | O => None
  | S room =>
      let local := (48 + i mod 10) :: local in
      let i := i / 10 in
      if 0 <? i then itoa_loop room i local else Some local
  end.
Definition simple_itoa (i : Z) : option (list Z) := itoa_loop 21 i [].

(** ** [print_grouped_ull]

    What goes to the console. [str] is the array of 21 characters, whose
    contents before the call are those of the stack. *)

(** [printf("%.*s", 3, s)]. *)
Fixpoint printf_group (k s : nat) (str : list Z) : option (list Z) :=
  match k with
  | O => Some []
  | S k => c ← str !! s; if c =? 0 then Some [] else r ← printf_group k (S s) str; Some (c :: r)
  end.

Fixpoint grouped_loop (fuel s : nat) (str : list Z) : option (list Z) :=
  match fuel with
  | O => None
  | S fuel =>
      c ← str !! s;
      if c =? 0 then Some []
      else
        sep ← (if (s =? 0)%nat then Some [] else p ← str !! (s - 1)%nat; Some [if p =? 32 then 32 else 44]);
        g ← printf_group 3 s str;
        r ← grouped_loop fuel (s + 3) str;
        Some (sep ++ g ++ r)
  end.

Definition print_grouped_ull (safe : bool) (str : list Z) (int_val digits : Z) : option (list Z) :=
  let digits := (digits + 2) / 3 in
  '(str, _) ← vsprintf safe str 0 [37; 42; 108; 108; 117] [AInt (digits * 3); ALongLong int_val];
  grouped_loop 8 0 str.

(** 1234567 in nine digits; in three digits the loop steps over the NUL and
    prints what the stack holds. *)
Example grouped_test :
  print_grouped_ull false (replicate 21 0) 1234567 8 = Some [32; 32; 49; 44; 50; 51; 52; 44; 53; 54; 55].
Proof. reflexivity. Qed.

Lemma grouped_overrun :
  print_grouped_ull false (replicate 21 0) 1234567 3 = Some [49; 50; 51; 44; 52; 53; 54; 44; 55] ∧
  print_grouped_ull false (replicate 20 88 ++ [0]) 1234567 3 ≠ print_grouped_ull false (replicate 21 0) 1234567 3.
Proof. split; [reflexivity|]. vm_compute. discriminate. Qed.

(** [sprintf(buf, "%-5d|%#06x|%u.", -42, 0xbeef, 1000000)], and the same into
    eight bytes: the return value counts the NUL. *)
Definition test_fmt : list Z := [37; 45; 53; 100; 124; 37; 35; 48; 54; 120; 124; 37; 117; 46].
Definition test_args : list arg := [AInt (2 ^ 32 - 42); AInt 0xbeef; AInt 1000000].

Example sprintf_test :
  vsprintf false (replicate 24 255) 1 test_fmt test_args =
  Some ([255; 45; 52; 50; 32; 32; 124; 48; 120; 98; 101; 101; 102; 124; 49; 48; 48; 48; 48; 48; 48; 46; 0; 255], 21).
Proof. reflexivity. Qed.

Example snprintf_test :
  vsnprintf (replicate 10 255) 1 8 test_fmt test_args = Some ([255; 45; 52; 50; 32; 32; 124; 48; 0; 255], 22).
Proof. reflexivity. Qed.
