(* ===== verification/VsprintfSpec.v ===== *)
(** * Formatted output: what the formatter promises

    The digits that are produced, the text of a number and the one that the
    standard asks for, the round trip with the
    readers, and the contract of [vsnprintf]: the text of the conversions, cut
    to the buffer. *)

From stdpp Require Import base option list numbers.
From Stdlib Require Import ZArith Lia.
From S2P Require Import Prelude Word32 Ctype Div64 Strtoul Vsprintf.
Local Open Scope Z_scope.

(** ** Reference: the digits of a number, the lowest first *)

Fixpoint ref_digits (fuel : nat) (base n : Z) : list Z :=
  match fuel with
  | O => []
  | S fuel => n mod base :: (if n / base =? 0 then [] else ref_digits fuel base (n / base))
  end.

Definition digit_char (small : bool) (d : Z) : Z := if d <? 10 then 48 + d else (if small then 97 else 65) + (d - 10).

(** The number with its highest digit first; 64 digits are enough. *)
Definition digits_text (small : bool) (base n : Z) : list Z := reverse (digit_char small <$> ref_digits 64 base n).

Lemma ref_digits_fuel base n f f' : 2 ≤ base → 0 ≤ n → n < 2 ^ Z.of_nat f → (0 < f)%nat → (f ≤ f')%nat →
  ref_digits f' base n = ref_digits f base n.
Proof.
  intros Hb. revert n f'. induction f as [|f IH]; intros n f' Hn Hf H0 Hle; [lia|].
  destruct f' as [|f']; [lia|]. cbn [ref_digits]. f_equal. destruct (n / base =? 0) eqn:E; cmp_inv E; [done|].
  rewrite Nat2Z.inj_succ, Z.pow_succ_r in Hf by lia.
  assert (0 ≤ n / base) by (apply Z.div_pos; lia).
  assert (n / base ≤ n / 2) by (apply Z.div_le_compat_l; lia).
  assert (n / 2 < 2 ^ Z.of_nat f) by (apply Z.div_lt_upper_bound; lia).
  destruct (decide (f = 0%nat)) as [->|]; [simpl in *; lia|]. apply IH; lia.
Qed.

Lemma ref_digits_range base n f : 0 < base → Forall (λ d, 0 ≤ d < base) (ref_digits f base n).
Proof.
  intros Hb. revert n. induction f as [|f IH]; intros n; [constructor|]. cbn [ref_digits].
  constructor; [by apply Z.mod_pos_bound|]. by destruct (n / base =? 0).
Qed.

(** ** Decimal digits *)

Lemma div10_cd x : 0 ≤ x < 1024 → Z.shiftr (u32 (x * 0xcd)) 11 = x / 10.
Proof.
  intros Hx. rewrite u32_small, Z.shiftr_div_pow2 by lia. change (2 ^ 11) with 2048. Z.div_mod_to_equations. lia.
Qed.

Lemma div10_d x : 0 ≤ x < 69 → Z.shiftr (u32 (x * 0xd)) 7 = x / 10.
Proof.
  intros Hx. rewrite u32_small, Z.shiftr_div_pow2 by lia. change (2 ^ 7) with 128. Z.div_mod_to_equations. lia.
Qed.

Lemma mod10_sub x : 0 ≤ x < 1024 → u32 (x - 10 * (x / 10)) = x mod 10.
Proof. intros Hx. rewrite <-Z.mod_eq by lia. apply u32_small. pose proof (Z.mod_pos_bound x 10). lia. Qed.

Lemma chr_digit d : 0 ≤ d < 10 → chr d = digit_char false d.
Proof.
  intros Hd. unfold chr, digit_char. rewrite (proj2 (Z.ltb_lt _ _)) by lia. change 255 with (Z.ones 8).
  rewrite Z.land_ones, Z.mod_small by lia. lia.
Qed.

Lemma chr_mod x : chr (x mod 10) = digit_char false (x mod 10).
Proof. apply chr_digit, Z.mod_pos_bound. lia. Qed.

(** The parts of [q] in base 16 and the partial sums of its decimal digits. *)
Section Parts.
Context (q : Z) (Hq : 0 ≤ q < 100000).

Abbreviation d1 := (Z.land (Z.shiftr q 4) 0xf).
Abbreviation d2 := (Z.land (Z.shiftr q 8) 0xf).
Abbreviation d3 := (Z.shiftr q 12).
Definition e0 : Z := 6 * (d3 + d2 + d1) + Z.land q 0xf.
Definition e1 : Z := e0 / 10 + 9 * d3 + 5 * d2 + d1.
Definition e2 : Z := e1 / 10 + 2 * d2.
Definition e3 : Z := e2 / 10 + 4 * d3.

Lemma nibble x k : 0 ≤ k → Z.land (Z.shiftr x k) 0xf = x / 2 ^ k mod 16.
Proof. intros Hk. change 0xf with (Z.ones 4). rewrite Z.land_ones, Z.shiftr_div_pow2 by lia. done. Qed.

Lemma parts : ∃ x3 x2 x1 x0, d3 = x3 ∧ d2 = x2 ∧ d1 = x1 ∧ Z.land q 0xf = x0 ∧
  0 ≤ x3 < 25 ∧ 0 ≤ x2 < 16 ∧ 0 ≤ x1 < 16 ∧ 0 ≤ x0 < 16 ∧ q = x3 * 4096 + x2 * 256 + x1 * 16 + x0.
Proof.
  exists (q / 2 ^ 12), (q / 2 ^ 8 mod 16), (q / 2 ^ 4 mod 16), (q mod 16).
  split_and!; [by apply Z.shiftr_div_pow2|by apply nibble|by apply nibble|apply (Z.land_ones q 4); lia|..];
    change (2 ^ 12) with 4096; change (2 ^ 8) with 256; change (2 ^ 4) with 16; Z.div_mod_to_equations; lia.
Qed.

Lemma sums :
  (0 ≤ e0 < 1024 ∧ 0 ≤ e1 < 1024 ∧ 0 ≤ e2 < 69 ∧ 0 ≤ e3 < 1024) ∧
  (e0 mod 10 = q mod 10 ∧ e1 mod 10 = q / 10 mod 10 ∧ e2 mod 10 = q / 10 / 10 mod 10 ∧
   e3 = q / 10 / 10 / 10) ∧
  (e1 = 0 ↔ q / 10 = 0) ∧ (e2 = 0 ∧ d3 = 0 ↔ q / 10 / 10 = 0).
Proof.
  destruct parts as (x3 & x2 & x1 & x0 & E3 & E2 & E1 & E0 & H3 & H2 & H1 & H0 & E).
  unfold e3, e2, e1, e0. rewrite E3, E2, E1, E0. clear E3 E2 E1 E0. subst q.
  assert (Q1 : (x3 * 4096 + x2 * 256 + x1 * 16 + x0) / 10 = (6 * (x3 + x2 + x1) + x0) / 10 + 409 * x3 + 25 * x2 + x1).
  { Z.div_mod_to_equations. lia. }
  assert (Q0 : (x3 * 4096 + x2 * 256 + x1 * 16 + x0) mod 10 = (6 * (x3 + x2 + x1) + x0) mod 10).
  { Z.div_mod_to_equations. lia. }
  rewrite Q1, Q0. clear Q0 Q1. assert (0 ≤ (6 * (x3 + x2 + x1) + x0) / 10 < 36) by (Z.div_mod_to_equations; lia).
  set (s := (6 * (x3 + x2 + x1) + x0) / 10) in *.
  assert (Q1 : (s + 409 * x3 + 25 * x2 + x1) / 10 = (s + 9 * x3 + 5 * x2 + x1) / 10 + 40 * x3 + 2 * x2).
  { clearbody s. Z.div_mod_to_equations. lia. }
  assert (Q0 : (s + 409 * x3 + 25 * x2 + x1) mod 10 = (s + 9 * x3 + 5 * x2 + x1) mod 10).
  { clearbody s. Z.div_mod_to_equations. lia. }
  rewrite Q1, Q0. assert (0 ≤ (s + 9 * x3 + 5 * x2 + x1) / 10 < 37) by (clearbody s; Z.div_mod_to_equations; lia).
  assert ((s + 9 * x3 + 5 * x2 + x1) / 10 * 10 ≤ s + 9 * x3 + 5 * x2 + x1) by (clearbody s; Z.div_mod_to_equations; lia).
  clear Q1 Q0. set (t := (s + 9 * x3 + 5 * x2 + x1) / 10) in *. clearbody t.
  assert (Q1 : (t + 40 * x3 + 2 * x2) / 10 = (t + 2 * x2) / 10 + 4 * x3) by (clear; Z.div_mod_to_equations; lia).
  assert (Q0 : (t + 40 * x3 + 2 * x2) mod 10 = (t + 2 * x2) mod 10) by (clear; Z.div_mod_to_equations; lia).
  rewrite Q1, Q0. assert (0 ≤ (t + 2 * x2) / 10 < 7) by (clearbody s; Z.div_mod_to_equations; lia).
  clear Q1 Q0. split_and!; lia.
Qed.

End Parts.

Lemma put_dec_full_ok q : 0 ≤ q < 100000 →
  put_dec_full q = digit_char false <$>
    [q mod 10; q / 10 mod 10; q / 10 / 10 mod 10; q / 10 / 10 / 10 mod 10; q / 10 / 10 / 10 / 10].
Proof.
  intros Hq. destruct (sums q Hq) as ((H0 & H1 & H2 & H3) & (M0 & M1 & M2 & M3) & _).
  unfold put_dec_full. cbv zeta. fold (e0 q). rewrite !(u32_small (e0 q)), !(div10_cd (e0 q)), !(mod10_sub (e0 q)) by lia.
  fold (e1 q). rewrite !(u32_small (e1 q)), !(div10_cd (e1 q)), !(mod10_sub (e1 q)) by lia.
  fold (e2 q). rewrite !(u32_small (e2 q)), !(div10_d (e2 q)), !(mod10_sub (e2 q)) by lia.
  fold (e3 q). rewrite !(u32_small (e3 q)), !(div10_cd (e3 q)), !(mod10_sub (e3 q)) by lia.
  rewrite M0, M1, M2, M3, !chr_mod. cbn [fmap list_fmap]. rewrite (chr_digit (q / 10 / 10 / 10 / 10)); [done|].
  Z.div_mod_to_equations. lia.
Qed.

Lemma put_dec_trunc_ok q f : 0 ≤ q < 100000 → (5 ≤ f)%nat → put_dec_trunc q = digit_char false <$> ref_digits f 10 q.
Proof.
  intros Hq Hf. destruct (sums q Hq) as ((H0 & H1 & H2 & H3) & (M0 & M1 & M2 & M3) & Z1 & Z2).
  do 5 (destruct f as [|f]; [lia|]).
  unfold put_dec_trunc. cbv zeta. fold (e0 q). rewrite !(u32_small (e0 q)), !(div10_cd (e0 q)), !(mod10_sub (e0 q)) by lia.
  fold (e1 q). rewrite !(u32_small (e1 q)), !(div10_cd (e1 q)), !(mod10_sub (e1 q)) by lia.
  fold (e2 q). rewrite !(u32_small (e2 q)), !(div10_d (e2 q)), !(mod10_sub (e2 q)) by lia.
  fold (e3 q). rewrite !(u32_small (e3 q)), !(div10_cd (e3 q)), !(mod10_sub (e3 q)) by lia.
  rewrite M0, M1, M2, M3, !chr_mod. cbn [ref_digits].
  rewrite fmap_cons. f_equal.
  destruct (e1 q =? 0) eqn:C1; cmp_inv C1.
  { by rewrite (proj2 (Z.eqb_eq _ _) (proj1 Z1 C1)). }
  rewrite (proj2 (Z.eqb_neq (q / 10) 0)) by (intros E; by apply C1, Z1). rewrite fmap_cons. f_equal.
  destruct ((e2 q =? 0) && (Z.shiftr q 12 =? 0)) eqn:C2.
  { apply andb_prop in C2 as [C2 C3]. cmp_inv C2. cmp_inv C3. by rewrite (proj2 (Z.eqb_eq _ _) (proj1 Z2 (conj C2 C3))). }
  rewrite (proj2 (Z.eqb_neq (q / 10 / 10) 0)).
  2: { intros [E2 E3]%Z2. by rewrite E2, E3 in C2. }
  rewrite fmap_cons. f_equal.
  destruct (q / 10 / 10 / 10 =? 0) eqn:C3; [done|]. rewrite fmap_cons. f_equal.
  destruct (q / 10 / 10 / 10 / 10 =? 0) eqn:C4; [done|]. cmp_inv C4.
  rewrite chr_digit, fmap_cons by (Z.div_mod_to_equations; lia).
  rewrite (Z.mod_small (q / 10 / 10 / 10 / 10)) by (Z.div_mod_to_equations; lia).
  rewrite (Z.div_small (q / 10 / 10 / 10 / 10)) by (Z.div_mod_to_equations; lia). done.
Qed.

Lemma ref_digits_5 n f : 100000 ≤ n → ref_digits (5 + f) 10 n =
  [n mod 10; n / 10 mod 10; n / 10 / 10 mod 10; n / 10 / 10 / 10 mod 10; n / 10 / 10 / 10 / 10 mod 10] ++
    ref_digits f 10 (n / 100000).
Proof.
  intros Hn. cbn [Nat.add ref_digits]. rewrite !Z.div_div by lia.
  assert (E : ∀ k, 0 < k ≤ 100000 → n / k =? 0 = false).
  { intros k Hk. apply Z.eqb_neq. pose proof (Z.div_le_lower_bound n k 1). lia. }
  cbn [Z.mul Pos.mul]. rewrite !E by lia. done.
Qed.

Lemma put_dec_ok fuel n f : 0 ≤ n < 2 ^ 64 → n < 50000 * 2 ^ Z.of_nat fuel → (0 < fuel)%nat → (64 ≤ f)%nat →
  put_dec fuel n = Some (digit_char false <$> ref_digits f 10 n).
Proof.
  revert n f. induction fuel as [|fuel IH]; intros n f Hn Hf H0 Hf'; [lia|]. cbn [put_dec].
  destruct (n <? 100000) eqn:C; cmp_inv C; [by rewrite (put_dec_trunc_ok _ f) by lia|].
  rewrite do_div_ok by lia. cbn [mbind option_bind].
  rewrite Nat2Z.inj_succ, Z.pow_succ_r in Hf by lia. pose proof (Z.pow_pos_nonneg 2 (Z.of_nat fuel)).
  assert (0 ≤ n / 100000 < 2 ^ 59) by (Z.div_mod_to_equations; lia).
  assert (n / 100000 < 50000 * 2 ^ Z.of_nat fuel) by (apply Z.div_lt_upper_bound; lia).
  assert (0 < fuel)%nat by (destruct fuel; [simpl in *; lia|lia]).
  rewrite (IH _ 64%nat) by lia. cbn [mbind option_bind]. f_equal.
  rewrite put_dec_full_ok by (apply Z.mod_pos_bound; lia). rewrite <-fmap_app. f_equal.
  replace f with (5 + (f - 5))%nat by lia. rewrite ref_digits_5 by done.
  rewrite (ref_digits_fuel 10 _ 59 64), (ref_digits_fuel 10 _ 59 (f - 5)) by lia. f_equal.
  assert (n mod 100000 mod 10 = n mod 10) by (Z.div_mod_to_equations; lia).
  assert (n mod 100000 / 10 mod 10 = n / 10 mod 10) by (Z.div_mod_to_equations; lia).
  assert (n mod 100000 / 10 / 10 mod 10 = n / 10 / 10 mod 10) by (Z.div_mod_to_equations; lia).
  assert (n mod 100000 / 10 / 10 / 10 mod 10 = n / 10 / 10 / 10 mod 10) by (Z.div_mod_to_equations; lia).
  assert (n mod 100000 / 10 / 10 / 10 / 10 = n / 10 / 10 / 10 / 10 mod 10) by (Z.div_mod_to_equations; lia).
  congruence.
Qed.

(** ** Octal and hexadecimal digits *)

Lemma digit_or (small : bool) d : 0 ≤ d < 16 →
  Z.lor (digits !!! Z.to_nat d) (if small then SMALL else 0) = digit_char small d.
Proof.
  intros Hd. assert (H : forallb (λ i, Z.lor (digits !!! i) (if small then SMALL else 0) =? digit_char small (Z.of_nat i)) (seq 0 16) = true)
    by (by destruct small; vm_compute).
  rewrite forallb_forall in H. specialize (H (Z.to_nat d)). rewrite Z2Nat.id in H by lia.
  apply Z.eqb_eq, H, in_seq. lia.
Qed.

Lemma shift_digits_ok (small : bool) k fuel n f : 0 < k ≤ 4 → 0 ≤ n < 2 ^ Z.of_nat fuel → (0 < fuel)%nat → (fuel ≤ f)%nat →
  shift_digits fuel n (2 ^ k - 1) k (if small then SMALL else 0) = Some (digit_char small <$> ref_digits f (2 ^ k) n).
Proof.
  intros Hk. revert n f. induction fuel as [|fuel IH]; intros n f Hn H0 Hf; [lia|].
  destruct f as [|f]; [lia|]. cbn [shift_digits ref_digits].
  assert (2 ^ 1 ≤ 2 ^ k ≤ 2 ^ 4) by (split; apply Z.pow_le_mono_r; lia).
  assert (Em : Z.land (Z.land n 255) (2 ^ k - 1) = n mod 2 ^ k).
  { change 255 with (Z.ones 8). replace (2 ^ k - 1) with (Z.ones k) by (rewrite Z.ones_equiv; lia).
    rewrite <-Z.land_assoc. replace (Z.land (Z.ones 8) (Z.ones k)) with (Z.ones k); [by apply Z.land_ones; lia|].
    apply Z.bits_inj'. intros i Hi. rewrite Z.land_spec. destruct (decide (i < k)).
    - by rewrite !Z.ones_spec_low by lia.
    - rewrite (Z.ones_spec_high k) by lia. by rewrite andb_false_r. }
  rewrite Em, digit_or by (pose proof (Z.mod_pos_bound n (2 ^ k)); lia). rewrite Z.shiftr_div_pow2 by lia.
  rewrite fmap_cons. destruct (n / 2 ^ k =? 0) eqn:C; cmp_inv C; [done|].
  rewrite Nat2Z.inj_succ, Z.pow_succ_r in Hn by lia.
  assert (0 ≤ n / 2 ^ k) by (apply Z.div_pos; lia). assert (n / 2 ^ k ≤ n / 2) by (apply Z.div_le_compat_l; lia).
  assert (n / 2 < 2 ^ Z.of_nat fuel) by (apply Z.div_lt_upper_bound; lia).
  destruct (decide (fuel = 0%nat)) as [->|]; [simpl in *; lia|]. by rewrite (IH _ f) by lia.
Qed.

Lemma length_ref_digits f base n k : 2 ≤ base → 0 ≤ n → n < base ^ Z.of_nat k → (0 < k)%nat →
  (length (ref_digits f base n) ≤ k)%nat.
Proof.
  intros Hb. revert n k. induction f as [|f IH]; intros n k Hn Hk H0; [simpl; lia|].
  cbn [ref_digits length]. destruct k as [|k]; [lia|]. destruct (n / base =? 0) eqn:C; cmp_inv C; [simpl; lia|].
  rewrite Nat2Z.inj_succ, Z.pow_succ_r in Hk by lia. apply le_n_S.
  assert (0 ≤ n / base) by (apply Z.div_pos; lia). assert (n / base < base ^ Z.of_nat k) by (apply Z.div_lt_upper_bound; lia).
  destruct k as [|k]; [simpl in *; lia|]. apply IH; lia.
Qed.

Inductive number_base : Z → Prop := base8 : number_base 8 | base10 : number_base 10 | base16 : number_base 16.

Lemma digit_char_decimal (small : bool) n f : digit_char small <$> ref_digits f 10 n = digit_char false <$> ref_digits f 10 n.
Proof.
  apply list_fmap_ext. intros i d Hd%list_elem_of_lookup_2.
  pose proof (ref_digits_range 10 n f ltac:(lia)) as H. rewrite Forall_forall in H. specialize (H d ltac:(by apply list_elem_of_In)).
  unfold digit_char. by rewrite (proj2 (Z.ltb_lt _ _)) by lia.
Qed.

(** [tmp] holds at most 22 digits. *)
Lemma number_digits_ok base (small : bool) n : number_base base → 0 ≤ n < 2 ^ 64 →
  number_digits n base (if small then SMALL else 0) = Some (reverse (digits_text small base n)).
Proof.
  intros Hbase Hn. unfold digits_text. rewrite reverse_involutive. unfold number_digits. cbv zeta.
  assert (Hl : (length (ref_digits 64 base n) ≤ 22)%nat).
  { apply length_ref_digits; [destruct Hbase; lia|lia| |lia].
    assert (8 ^ Z.of_nat 22 ≤ base ^ Z.of_nat 22) by (apply Z.pow_le_mono_l; destruct Hbase; lia).
    change (8 ^ Z.of_nat 22) with 73786976294838206464 in *. lia. }
  assert (Hg : (if n =? 0 then Some [48] else
      if negb (base =? 10) then
        shift_digits 65 n (base - 1) (if base =? 16 then 4 else 3) (if small then SMALL else 0)
      else put_dec 65 n) = Some (digit_char small <$> ref_digits 64 base n)).
  { destruct (n =? 0) eqn:C; cmp_inv C.
    { subst n. by destruct Hbase, small. }
    assert (Hf : ref_digits 65 base n = ref_digits 64 base n) by (apply ref_digits_fuel; [destruct Hbase|..]; lia).
    rewrite <-Hf. destruct Hbase; cbn [negb Z.eqb Pos.eqb].
    - by apply (shift_digits_ok small 3 65); lia.
    - rewrite digit_char_decimal. apply put_dec_ok; lia.
    - by apply (shift_digits_ok small 4 65); lia. }
  rewrite Hg. cbn [mbind option_bind]. rewrite length_fmap. rewrite (proj2 (Nat.leb_le _ _)) by lia. done.
Qed.

(** ** The text of a number

    What the code lays out: the sign, the prefix, zeros up to the precision and
    the digits; a field is filled with spaces on the left or the right, or with
    zeros behind the prefix. How far this is what the standard of the language
    asks for is the subject of [number_correct] and [c99_departures]. *)

Definition sign_text (type num : Z) : list Z :=
  if has type SIGN then
    if 2 ^ 63 <=? num then [45] else if has type PLUS then [43] else if has type SPACE then [32] else []
  else [].

Definition magnitude (type num : Z) : Z := if has type SIGN && (2 ^ 63 <=? num) then 2 ^ 64 - num else num.

Definition prefix_text (type base : Z) : list Z :=
  if has type SPECIAL then
    if base =? 16 then [48; if has type SMALL then 120 else 88] else if base =? 8 then [48] else []
  else [].

Definition number_text (num base size precision type : Z) : list Z :=
  let ds := digits_text (has type SMALL) base (magnitude type num) in
  let body := replicate (Z.to_nat precision - length ds) 48 ++ ds in
  let pre := sign_text type num ++ prefix_text type base in
  let gap := (Z.to_nat size - length pre - length body)%nat in
  if has type LEFT then pre ++ body ++ replicate gap 32
  else if has type ZEROPAD then pre ++ replicate gap 48 ++ body
  else replicate gap 32 ++ pre ++ body.

Section Number.
Context `{Sink st}.

Lemma put_all_app l l' (s : st) : put_all (l ++ l') s = put_all l s ≫= put_all l'.
Proof. revert s. induction l as [|c l IH]; intros s; [done|]. simpl. by destruct (addch c s); simpl. Qed.

Lemma pad_loop_ok k c size (s : st) : Z.to_nat size = k →
  pad_loop (S k) c size s = s ← put_all (replicate k c) s; Some (if 0 <? size then -1 else size - 1, s).
Proof.
  revert size s. induction k as [|k IH]; intros size s Hk.
  - cbn. destruct (0 <=? size - 1) eqn:C; cmp_inv C; [lia|]. destruct (0 <? size) eqn:C'; cmp_inv C'; [lia|done].
  - change (pad_loop (S (S k)) c size s) with
      (if 0 <=? size - 1 then s ← addch c s; pad_loop (S k) c (size - 1) s else Some (size - 1, s)).
    rewrite (proj2 (Z.leb_le _ _)), (proj2 (Z.ltb_lt _ _)) by lia. cbn [replicate put_all].
    destruct (addch c s) as [s'|]; [|done]. cbn [mbind option_bind]. rewrite IH by lia.
    destruct (put_all _ s') as [t|]; [|done]. cbn. destruct (0 <? size - 1) eqn:C; cmp_inv C; do 2 f_equal. lia.
Qed.

Lemma pad_ok c size (s : st) :
  pad c size s = s ← put_all (replicate (Z.to_nat size) c) s; Some (if 0 <? size then -1 else size - 1, s).
Proof. by apply pad_loop_ok. Qed.

Lemma pad_none c size (s : st) : size ≤ 0 → pad c size s = Some (size - 1, s).
Proof.
  intros Hs. rewrite pad_ok. replace (Z.to_nat size) with 0%nat by lia. cbn.
  by rewrite (proj2 (Z.ltb_ge _ _)) by lia.
Qed.

Lemma pad_then {A} c size (s : st) (f : Z → st → option A) : (∀ size' s, size' ≤ -1 → f size' s = f (-1) s) →
  ('(size, s) ← pad c size s; f size s) = s ← put_all (replicate (Z.to_nat size) c) s; f (-1) s.
Proof.
  intros Hf. rewrite pad_ok. destruct (put_all _ s) as [s'|]; [|done]. cbn. apply Hf.
  destruct (0 <? size) eqn:C; cmp_inv C; lia.
Qed.

Lemma zeros_loop_ok k i precision (s : st) : Z.to_nat (precision - i) = k →
  zeros_loop (S k) i precision s = put_all (replicate k 48) s.
Proof.
  revert precision s. induction k as [|k IH]; intros precision s Hk.
  - cbn. destruct (i <=? precision - 1) eqn:C; cmp_inv C; [lia|done].
  - change (zeros_loop (S (S k)) i precision s) with
      (if i <=? precision - 1 then s ← addch 48 s; zeros_loop (S k) i (precision - 1) s else Some s).
    rewrite (proj2 (Z.leb_le _ _)) by lia. cbn [replicate put_all].
    destruct (addch 48 s) as [s'|]; [|done]. cbn [mbind option_bind]. apply IH. lia.
Qed.

(** *** Flags *)

Lemma has_bit type k : 0 ≤ k → has type (2 ^ k) = Z.testbit type k.
Proof.
  intros Hk. unfold has. destruct (Z.testbit type k) eqn:E.
  - apply negb_true_iff, Z.eqb_neq. intros C. apply (f_equal (λ z, Z.testbit z k)) in C.
    rewrite Z.land_spec, E, Z.pow2_bits_true, Z.bits_0 in C by done. done.
  - apply negb_false_iff, Z.eqb_eq. apply Z.bits_inj'. intros i Hi. rewrite Z.land_spec, Z.bits_0.
    destruct (decide (i = k)) as [->|]; [by rewrite E|]. rewrite Z.pow2_bits_false by done. apply andb_false_r.
Qed.

(** [type &= ~ZEROPAD]. *)
Lemma has_clear type k : 0 ≤ k → has (Z.land type (Z.lnot ZEROPAD)) (2 ^ k) = has type (2 ^ k) && negb (k =? 0).
Proof.
  intros Hk. rewrite !has_bit, Z.land_spec, Z.lnot_spec by done. by f_equal.
Qed.

Lemma has_either type : has type (ZEROPAD + LEFT) = has type ZEROPAD || has type LEFT.
Proof.
  unfold has. change (ZEROPAD + LEFT) with (Z.lor ZEROPAD LEFT). rewrite Z.land_lor_distr_r.
  generalize (Z.land type ZEROPAD) (Z.land type LEFT). intros a b.
  destruct (Z.lor a b =? 0) eqn:E; cmp_inv E.
  - apply Z.lor_eq_0_iff in E as [-> ->]. done.
  - destruct (a =? 0) eqn:A, (b =? 0) eqn:B; cmp_inv A; cmp_inv B; subst; done.
Qed.

Definition cleared (type : Z) : Z := if has type LEFT then Z.land type (Z.lnot ZEROPAD) else type.

Lemma cleared_has type k : 0 < k → has (cleared type) (2 ^ k) = has type (2 ^ k).
Proof.
  intros Hk. unfold cleared. destruct (has type LEFT); [|done]. rewrite has_clear by lia.
  rewrite (proj2 (Z.eqb_neq _ _)) by lia. apply andb_true_r.
Qed.

Lemma cleared_pad type : has (cleared type) ZEROPAD = has type ZEROPAD && negb (has type LEFT).
Proof.
  unfold cleared. destruct (has type LEFT); [|by rewrite andb_true_r].
  change ZEROPAD with (2 ^ 0) at 2 3. by rewrite has_clear by lia.
Qed.

Lemma locase_ok type : Z.land type SMALL = if has type SMALL then SMALL else 0.
Proof.
  change SMALL with (2 ^ 5). rewrite has_bit by lia. apply Z.bits_inj'. intros i Hi. rewrite Z.land_spec.
  destruct (decide (i = 5)) as [->|Hi5].
  - destruct (Z.testbit type 5); [by rewrite Z.pow2_bits_true by lia|by rewrite Z.bits_0].
  - rewrite (Z.pow2_bits_false 5 i), andb_false_r by lia.
    destruct (Z.testbit type 5); [by rewrite Z.pow2_bits_false by lia|by rewrite Z.bits_0].
Qed.

(** *** The parts of a number *)

Lemma put_one c (s : st) : put_all [c] s = addch c s.
Proof. simpl. by destruct (addch c s). Qed.

Lemma sign_ok type num size : 0 ≤ num < 2 ^ 64 → ∃ sg,
  (if has (cleared type) SIGN then
     if 2 ^ 63 <=? num then (45, u64 (- num), size - 1)
     else if has (cleared type) PLUS then (43, num, size - 1)
     else if has (cleared type) SPACE then (32, num, size - 1)
     else (0, num, size)
   else (0, num, size)) = (sg, magnitude type num, size - Z.of_nat (length (sign_text type num))) ∧
  ∀ s, (if sg =? 0 then Some s else addch sg s) = put_all (sign_text type num) s.
Proof.
  intros Hn. change SIGN with (2 ^ 1). change PLUS with (2 ^ 2). change SPACE with (2 ^ 3). rewrite !cleared_has by lia.
  unfold magnitude, sign_text. change (2 ^ 1) with SIGN. change (2 ^ 2) with PLUS. change (2 ^ 3) with SPACE.
  destruct (has type SIGN); [|by exists 0; rewrite Z.sub_0_r]. cbn [andb].
  destruct (2 ^ 63 <=? num) eqn:C; cmp_inv C.
  - exists 45. split; [|intros s; by rewrite put_one]. do 3 f_equal.
    unfold u64. symmetry. apply (Z.mod_unique_pos _ _ (-1)); lia.
  - destruct (has type PLUS); [exists 43; split; [done|intros s; by rewrite put_one]|].
    destruct (has type SPACE); [exists 32; split; [done|intros s; by rewrite put_one]|exists 0; by rewrite Z.sub_0_r].
Qed.

Lemma prefix_ok type base size : number_base base →
  (if has type SPECIAL && negb (base =? 10) then (if base =? 16 then size - 1 - 1 else size - 1) else size) =
    size - Z.of_nat (length (prefix_text type base)) ∧
  ∀ s : st, (if has type SPECIAL && negb (base =? 10) then
      s ← addch 48 s; if base =? 16 then addch (Z.lor 88 (if has type SMALL then SMALL else 0)) s else Some s
    else Some s) = put_all (prefix_text type base) s.
Proof.
  intros Hb. unfold prefix_text.
  destruct (has type SPECIAL); [|by rewrite Z.sub_0_r]. cbn [andb].
  destruct Hb; cbn [negb Z.eqb Pos.eqb]; (split; [simpl; lia|]); intros s; cbn [put_all].
  - done.
  - done.
  - destruct (addch 48 s) as [s'|]; [|done]. cbn [mbind option_bind].
    destruct (has type SMALL); [change (Z.lor 88 SMALL) with 120|change (Z.lor 88 0) with 88]; by destruct (addch _ s').
Qed.

Lemma digits_text_length small base n : (0 < length (digits_text small base n))%nat.
Proof. unfold digits_text. rewrite length_reverse, length_fmap. change 64%nat with (S 63). generalize 63%nat as f. intros f. cbn [ref_digits length]. lia. Qed.

Lemma number_ok num base size precision type (s : st) :
  number_base base → 0 ≤ num < 2 ^ 64 →
  number num base size precision type s = put_all (number_text num base size precision type) s.
Proof.
  intros Hb Hn. unfold number. fold (cleared type). cbv zeta. rewrite locase_ok.
  destruct (sign_ok type num size Hn) as (sg & -> & Hsg).
  set (size1 := size - _). destruct (prefix_ok type base size1 Hb) as [-> Hpre].
  assert (Hm : 0 ≤ magnitude type num < 2 ^ 64).
  { unfold magnitude. destruct (has type SIGN && _) eqn:C; [|done]. apply andb_prop in C as [_ C]. cmp_inv C. lia. }
  rewrite number_digits_ok by done. cbn [mbind option_bind]. rewrite length_reverse, reverse_involutive.
  set (ds := digits_text (has type SMALL) base (magnitude type num)).
  assert (Hds : (0 < length ds)%nat) by apply digits_text_length.
  rewrite has_either, !cleared_pad. change LEFT with (2 ^ 4). rewrite cleared_has by lia. change (2 ^ 4) with LEFT.
  unfold number_text. fold ds. cbv zeta.
  set (sgn := sign_text type num) in *. set (pre := prefix_text type base) in *.
  set (prec := if precision <? _ then _ else _). set (nz := (Z.to_nat precision - length ds)%nat).
  assert (Hprec : prec = Z.of_nat (nz + length ds)%nat ∧ Z.to_nat (prec - Z.of_nat (length ds)) = nz).
  { unfold prec, nz. destruct (precision <? _) eqn:C; cmp_inv C; lia. }
  destruct Hprec as [Hprec Hnz]. rewrite Hnz.
  rewrite !length_app, length_replicate.
  set (gap := (Z.to_nat size - _ - _)%nat).
  assert (Hgap : Z.to_nat (size1 - Z.of_nat (length pre) - prec) = gap) by (unfold gap, size1; lia).
  assert (Hlast : ∀ size' s, size' ≤ -1 → ('(_, s) ← pad 32 size' s; Some s) = Some s).
  { intros size' s' Hs'. by rewrite pad_none by lia. }
  assert (Hspace : ∀ s : st, ('(_, s) ← pad 32 (size1 - Z.of_nat (length pre) - prec) s; Some s) = put_all (replicate gap 32) s).
  { intros s'. rewrite pad_ok, Hgap. by destruct (put_all _ s'). }
  destruct (has type LEFT); cbn [negb]; [|destruct (has type ZEROPAD); cbn [andb orb]].
  - rewrite orb_true_r. cbn [mbind option_bind]. rewrite Hsg, !put_all_app.
    destruct (put_all sgn s) as [s1|]; [|done]. cbn [mbind option_bind]. rewrite Hpre.
    destruct (put_all pre s1) as [s2|]; [|done]. cbn [mbind option_bind]. rewrite zeros_loop_ok, !put_all_app by done.
    destruct (put_all _ s2) as [s3|]; [|done]. cbn [mbind option_bind].
    destruct (put_all ds s3) as [s4|]; [|done]. cbn [mbind option_bind]. apply Hspace.
  - cbn [mbind option_bind]. rewrite Hsg, !put_all_app. destruct (put_all sgn s) as [s1|]; [|done]. cbn [mbind option_bind].
    rewrite Hpre. destruct (put_all pre s1) as [s2|]; [|done]. cbn [mbind option_bind]. rewrite pad_then.
    2: { intros size' s' Hs'. rewrite zeros_loop_ok by done. destruct (put_all _ s') as [t|]; [|done]. cbn [mbind option_bind].
         destruct (put_all ds t) as [t'|]; [|done]. cbn [mbind option_bind]. by rewrite !Hlast by lia. }
    rewrite Hgap, put_all_app. destruct (put_all _ s2) as [s3|]; [|done]. cbn [mbind option_bind].
    rewrite zeros_loop_ok, put_all_app by done. destruct (put_all _ s3) as [s4|]; [|done]. cbn [mbind option_bind].
    destruct (put_all ds s4) as [s5|]; [|done]. cbn [mbind option_bind]. by rewrite Hlast.
  - assert (Hrest : ∀ size' s, size' ≤ -1 →
      (s ← (if sg =? 0 then Some s else addch sg s);
       s ← (if has type SPECIAL && negb (base =? 10) then
              s ← addch 48 s; if base =? 16 then addch (Z.lor 88 (if has type SMALL then SMALL else 0)) s else Some s
            else Some s);
       '(size, s) ← pad 32 size' s;
       s ← zeros_loop (S nz) (Z.of_nat (length ds)) prec s;
       s ← put_all ds s; '(_, s) ← pad 32 size s; Some s) = put_all (sgn ++ pre ++ replicate nz 48 ++ ds) s).
    { intros size' s' Hs'. rewrite Hsg, put_all_app. destruct (put_all sgn s') as [s1|]; [|done]. cbn [mbind option_bind].
      rewrite Hpre, put_all_app. destruct (put_all pre s1) as [s2|]; [|done]. cbn [mbind option_bind].
      rewrite pad_none by lia. cbn [mbind option_bind]. rewrite zeros_loop_ok, put_all_app by done.
      destruct (put_all _ s2) as [s3|]; [|done]. cbn [mbind option_bind].
      destruct (put_all ds s3) as [s4|]; [|done]. cbn [mbind option_bind]. by rewrite Hlast by lia. }
    rewrite pad_then by (intros size' s' Hs'; by rewrite !Hrest by lia).
    rewrite Hgap, <-app_assoc, put_all_app. destruct (put_all _ s) as [s1|]; [|done]. cbn [mbind option_bind]. by apply Hrest.
Qed.

End Number.

(** ** Printing and reading back *)

Lemma digit_char_value (small : bool) d : 0 ≤ d < 16 →
  digit_value (digit_char small d) = d ∧ isxdigit (digit_char small d) = true ∧ (digit_char small d = 48 ↔ d = 0) ∧ digit_char small d ≠ 120.
Proof.
  intros Hd. assert (Hb : forallb (λ i, let c := digit_char small (Z.of_nat i) in
      (digit_value c =? Z.of_nat i) && isxdigit c && Bool.eqb (c =? 48) (Z.of_nat i =? 0) && negb (c =? 120)) (seq 0 16) = true)
    by (by destruct small; vm_compute).
  rewrite forallb_forall in Hb. specialize (Hb (Z.to_nat d)). rewrite Z2Nat.id in Hb by lia.
  cbv zeta in Hb. destruct (andb_prop _ _ (Hb ltac:(apply in_seq; lia))) as [[[H1 H2]%andb_prop H3]%andb_prop H4].
  cmp_inv H1. apply negb_true_iff in H4. cmp_inv H4. apply eqb_prop in H3.
  split_and!; [done|done| |done]. rewrite <-(Z.eqb_eq (digit_char small d)), H3. apply Z.eqb_eq.
Qed.

Lemma digits_val_ref (small : bool) base f n : 2 ≤ base ≤ 16 → 0 ≤ n → n < 2 ^ Z.of_nat f → (0 < f)%nat →
  digits_val base (reverse (digit_char small <$> ref_digits f base n)) = n.
Proof.
  intros Hb. revert n. induction f as [|f IH]; intros n Hn Hf H0; [lia|].
  cbn [ref_digits]. rewrite fmap_cons, reverse_cons, digits_val_app.
  pose proof (Z.mod_pos_bound n base ltac:(lia)). rewrite (proj1 (digit_char_value small (n mod base) ltac:(lia))).
  destruct (n / base =? 0) eqn:C; cmp_inv C.
  - cbn. pose proof (Z.div_mod n base). lia.
  - rewrite Nat2Z.inj_succ, Z.pow_succ_r in Hf by lia.
    assert (0 ≤ n / base) by (apply Z.div_pos; lia). assert (n / base ≤ n / 2) by (apply Z.div_le_compat_l; lia).
    assert (n / 2 < 2 ^ Z.of_nat f) by (apply Z.div_lt_upper_bound; lia).
    destruct (decide (f = 0%nat)) as [->|]; [simpl in *; lia|]. rewrite IH by lia. pose proof (Z.div_mod n base). lia.
Qed.

Lemma digits_are_digits (small : bool) base n : 2 ≤ base ≤ 16 → Forall (λ c, is_digit_of base c = true) (digits_text small base n).
Proof.
  intros Hb. unfold digits_text. apply Forall_reverse, Forall_fmap.
  eapply Forall_impl; [|apply (ref_digits_range base n 64); lia]. intros d Hd. cbn beta in Hd. unfold compose, is_digit_of.
  destruct (digit_char_value small d) as (-> & -> & _); [lia|]. cbn [andb]. apply Z.ltb_lt. lia.
Qed.

(** The first digit is 0 only for the number 0. *)
Lemma ref_digits_last f base n : 2 ≤ base → 0 < n → n < 2 ^ Z.of_nat f → (0 < f)%nat →
  ∃ l d, ref_digits f base n = l ++ [d] ∧ d ≠ 0.
Proof.
  intros Hb. revert n. induction f as [|f IH]; intros n Hn Hf H0; [lia|]. cbn [ref_digits].
  destruct (n / base =? 0) eqn:C; cmp_inv C.
  - exists [], (n mod base). split; [done|]. pose proof (Z.div_mod n base). lia.
  - rewrite Nat2Z.inj_succ, Z.pow_succ_r in Hf by lia.
    assert (0 ≤ n / base) by (apply Z.div_pos; lia). assert (n / base ≤ n / 2) by (apply Z.div_le_compat_l; lia).
    assert (n / 2 < 2 ^ Z.of_nat f) by (apply Z.div_lt_upper_bound; lia).
    destruct (decide (f = 0%nat)) as [->|]; [simpl in *; lia|].
    destruct (IH (n / base)) as (l & d & -> & Hd); [lia..|]. by exists (n mod base :: l), d.
Qed.

Lemma digits_text_head (small : bool) base n : 2 ≤ base ≤ 16 → 0 < n < 2 ^ 64 →
  ∃ c l, digits_text small base n = c :: l ∧ c ≠ 48.
Proof.
  intros Hb Hn. destruct (ref_digits_last 64 base n) as (l & d & E & Hd); [lia..|]. unfold digits_text. rewrite E.
  rewrite fmap_app, reverse_app. exists (digit_char small d), (reverse (digit_char small <$> l)). split; [done|].
  pose proof (ref_digits_range base n 64 ltac:(lia)) as Hr. rewrite E in Hr.
  apply Forall_app in Hr as [_ [Hd' _]%Forall_cons_1]. intros C. by apply (digit_char_value small d) in C; [|lia].
Qed.

Lemma digits_text_0 (small : bool) base : 2 ≤ base → digits_text small base 0 = [48].
Proof.
  intros Hb. unfold digits_text. change (ref_digits 64 base 0) with (0 mod base :: (if 0 / base =? 0 then [] else ref_digits 63 base (0 / base))).
  by rewrite Z.mod_0_l, Z.div_0_l by lia.
Qed.

(** What is read back: the digits, after a prefix that selects the base. *)
Lemma strto_digits w (small : bool) base arg p n rest :
  0 ≤ w ≤ 64 → 2 ≤ base ≤ 16 → 0 ≤ n < 2 ^ w → stops base rest → prefix_of arg p (digits_text small base n ++ rest) base →
  strto w (p ++ digits_text small base n ++ rest) arg = (n, rest).
Proof.
  intros Hw Hb Hn Hr Hp. rewrite (strto_ok w arg p _ base rest); [|lia|done|by apply digits_are_digits|done].
  assert (2 ^ w ≤ 2 ^ 64) by (apply Z.pow_le_mono_r; lia).
  unfold digits_text. rewrite digits_val_ref by lia. by rewrite Z.mod_small.
Qed.

Lemma stops_8 rest : stops 10 rest → stops 8 rest.
Proof.
  unfold stops, is_digit_of. intros [->|H]%andb_false_iff; [done|]. cmp_inv H.
  rewrite (proj2 (Z.ltb_ge _ _)) by lia. apply andb_false_r.
Qed.

Lemma strto_plain w (small : bool) base arg n rest :
  0 ≤ w ≤ 64 → 2 ≤ base ≤ 16 → 0 ≤ n < 2 ^ w → stops base rest → ch rest ≠ 120 → arg = base ∨ arg = 0 ∧ base = 10 →
  strto w (digits_text small base n ++ rest) arg = (n, rest).
Proof.
  intros Hw Hb Hn Hr Hx Ha. destruct (decide (n = 0)) as [->|Hn0].
  - rewrite digits_text_0 by lia. change ([48] ++ rest) with ([48] ++ [] ++ rest).
    destruct Ha as [->|[-> ->]].
    + rewrite (strto_ok w base [48] [] base rest); [|lia|constructor; [lia|auto]|constructor|done]. by rewrite Z.mod_0_l by (apply Z.pow_nonzero; lia).
    + rewrite (strto_ok w 0 [48] [] 8 rest); [|lia|constructor; auto|constructor|by apply stops_8]. by rewrite Z.mod_0_l by (apply Z.pow_nonzero; lia).
  - assert (2 ^ w ≤ 2 ^ 64) by (apply Z.pow_le_mono_r; lia).
    apply (strto_digits w small base arg []); [done..|].
    destruct (digits_text_head small base n) as (c & l & -> & Hc); [lia..|].
    destruct Ha as [->|[-> ->]]; constructor; (lia || done).
Qed.

Lemma text_parse w num base (small : bool) rest :
  0 ≤ w ≤ 64 → number_base base → 0 ≤ num < 2 ^ w → stops base rest → ch rest ≠ 120 →
  strto w (number_text num base (-1) (-1) (if small then SMALL else 0) ++ rest) base = (num, rest) ∧
  strto w (number_text num base (-1) (-1) (SPECIAL + SMALL) ++ rest) 0 = (num, rest).
Proof.
  intros Hw Hb Hn Hr Hx. assert (Hb' : 2 ≤ base ≤ 16) by (destruct Hb; lia).
  assert (E : ∀ b : bool, number_text num base (-1) (-1) (if b then SMALL else 0) = digits_text b base num).
  { intros b. unfold number_text. cbv zeta. by destruct b, (digits_text _ base _). }
  split; [rewrite E; by apply strto_plain; auto|].
  assert (E' : number_text num base (-1) (-1) (SPECIAL + SMALL) = prefix_text (SPECIAL + SMALL) base ++ digits_text true base num).
  { unfold number_text. cbv zeta. change (magnitude _ num) with num. change (has (SPECIAL + SMALL) SMALL) with true.
    change (sign_text _ _) with (@nil Z). change (Z.to_nat (-1)) with 0%nat. cbn [Nat.sub app replicate has]. by rewrite Nat.sub_0_l. }
  rewrite E', <-app_assoc. clear E E'.
  assert (Hd : ∃ c l, digits_text true base num = c :: l ∧ isxdigit c = true ∧ c ≠ 120).
  { pose proof (digits_text_length true base num). destruct (digits_text true base num) as [|c l] eqn:E; [simpl in *; lia|].
    exists c, l. split; [done|]. pose proof (ref_digits_range base num 64 ltac:(lia)) as Hg.
    assert (Hin : c ∈ digit_char true <$> ref_digits 64 base num).
    { apply elem_of_reverse. unfold digits_text in E. rewrite E. by left. }
    apply list_elem_of_fmap in Hin as (d & -> & Hin). rewrite Forall_forall in Hg.
    destruct (digit_char_value true d) as (_ & ? & _ & ?); [|done]. specialize (Hg d (proj1 (list_elem_of_In _ _) Hin)). lia. }
  destruct Hd as (c & l & Ec & Hc & Hc').
  destruct Hb.
  - apply (strto_digits w true 8 0 [48]); [done..|]. rewrite Ec. constructor. by left.
  - apply strto_plain; auto; lia.
  - apply (strto_digits w true 16 0 [48; 120]); [done..|]. rewrite Ec. by constructor.
Qed.

(** *** The text that C99 asks for

    7.19.6.1 of the standard, for the conversions d, o, u, x and X: a precision
    is the least number of digits, 1 if there is none, and 0 is no digit at all
    for the number 0; # makes the first digit of an octal number a 0, by raising
    the precision where that is necessary, and puts 0x before a hexadecimal
    number that is not 0; the flag 0 is ignored with a precision. *)
Definition c99_digits (small : bool) (base n precision : Z) : list Z :=
  let ds := if n =? 0 then [] else digits_text small base n in
  replicate (Z.to_nat (if precision <? 0 then 1 else precision) - length ds) 48 ++ ds.

Definition c99_text (num base size precision type : Z) : list Z :=
  let n := magnitude type num in
  let ds := c99_digits (has type SMALL) base n precision in
  let ds := if has type SPECIAL && (base =? 8) && negb (bool_decide (head ds = Some 48)) then 48 :: ds else ds in
  let pre := sign_text type num ++
    (if has type SPECIAL && (base =? 16) && negb (n =? 0) then [48; if has type SMALL then 120 else 88] else []) in
  let gap := (Z.to_nat size - length (pre ++ ds))%nat in
  if has type LEFT then pre ++ ds ++ replicate gap 32
  else if has type ZEROPAD && (precision <? 0) then pre ++ replicate gap 48 ++ ds
  else replicate gap 32 ++ pre ++ ds.

(** The cases in which the code and the standard agree. *)
Record c99_case (num base precision type : Z) : Prop := {
  cc_pad : has type ZEROPAD = true → has type LEFT = true ∨ precision < 0;
  cc_zero : magnitude type num = 0 → precision ≠ 0 ∧ (has type SPECIAL = true → base = 10);
  cc_octal : has type SPECIAL = true → base = 8 →
    (Z.to_nat precision ≤ length (digits_text (has type SMALL) base (magnitude type num)))%nat;
}.

Lemma zeros_snoc k (l : list Z) : replicate k 48 ++ 48 :: l = 48 :: replicate k 48 ++ l.
Proof. induction k as [|k IH]; [done|]. cbn. by rewrite IH. Qed.

Lemma magnitude_range type num : 0 ≤ num < 2 ^ 64 → 0 ≤ magnitude type num < 2 ^ 64.
Proof.
  intros Hn. unfold magnitude. destruct (has type SIGN && _) eqn:C; [|done]. apply andb_prop in C as [_ C]. cmp_inv C. lia.
Qed.

(** The digits, with the zeros of the precision. *)
Lemma c99_digits_ok (small : bool) base n precision : number_base base → 0 ≤ n < 2 ^ 64 → (n = 0 → precision ≠ 0) →
  c99_digits small base n precision =
    replicate (Z.to_nat precision - length (digits_text small base n)) 48 ++ digits_text small base n.
Proof.
  intros Hb Hn H0. unfold c99_digits. pose proof (digits_text_length small base n) as Hl.
  destruct (Z.eqb_spec n 0) as [->|_].
  - rewrite digits_text_0 by (destruct Hb; lia). cbn [length]. rewrite app_nil_r, Nat.sub_0_r.
    rewrite (zeros_snoc _ []), app_nil_r. change (48 :: replicate ?k 48) with (replicate (S k) 48). f_equal.
    destruct (Z.ltb_spec precision 0); [|specialize (H0 eq_refl)]; lia.
  - destruct (Z.ltb_spec precision 0); [|done]. by replace (Z.to_nat 1 - _)%nat with (Z.to_nat precision - length (digits_text small base n))%nat by lia.
Qed.

Lemma c99_text_ok num base size precision type : number_base base → 0 ≤ num < 2 ^ 64 → c99_case num base precision type →
  c99_text num base size precision type = number_text num base size precision type.
Proof.
  intros Hb Hn [Hpad Hzero Hoct]. unfold c99_text, number_text. cbv zeta. pose proof (magnitude_range type num Hn) as Hm.
  set (n := magnitude type num) in *. rewrite c99_digits_ok by (done || (intros E; by destruct (Hzero E))).
  set (ds := digits_text (has type SMALL) base n) in *. set (zs := replicate _ 48). set (sgn := sign_text type num).
  assert (Hplain : ∀ pre body : list Z,
    (if has type LEFT then pre ++ body ++ replicate (Z.to_nat size - length (pre ++ body)) 32
     else if has type ZEROPAD && (precision <? 0) then pre ++ replicate (Z.to_nat size - length (pre ++ body)) 48 ++ body
     else replicate (Z.to_nat size - length (pre ++ body)) 32 ++ pre ++ body) =
    if has type LEFT then pre ++ body ++ replicate (Z.to_nat size - length pre - length body) 32
    else if has type ZEROPAD then pre ++ replicate (Z.to_nat size - length pre - length body) 48 ++ body
    else replicate (Z.to_nat size - length pre - length body) 32 ++ pre ++ body).
  { intros pre body. rewrite length_app, Nat.sub_add_distr. destruct (has type LEFT); [done|].
    destruct (has type ZEROPAD); [|done]. destruct (Hpad eq_refl) as [|Hp]; [done|]. by rewrite (proj2 (Z.ltb_lt _ _)) by lia. }
  unfold prefix_text. destruct (has type SPECIAL); cbn [andb]; [|apply Hplain].
  destruct (Z.eqb_spec n 0) as [E0|Hn0].
  { destruct (Hzero E0) as [_ Hbase]. rewrite Hbase by done. cbn [Z.eqb Pos.eqb andb negb]. apply Hplain. }
  cbn [negb andb]. destruct Hb; cbn [Z.eqb Pos.eqb andb]; [|apply Hplain|apply Hplain].
  assert (Hz : zs = []) by (unfold zs; replace (Z.to_nat precision - length ds)%nat with 0%nat by (specialize (Hoct eq_refl eq_refl); lia); done).
  rewrite Hz. cbn [app]. destruct (digits_text_head (has type SMALL) 8 n) as (c & l & E & Hc); [lia..|]. fold ds in E.
  rewrite bool_decide_eq_false_2 by (rewrite E; cbn; congruence). cbn [negb]. rewrite app_nil_r.
  rewrite !length_app. cbn [length]. replace (Z.to_nat size - (length sgn + S (length ds)))%nat with (Z.to_nat size - (length sgn + 1) - length ds)%nat by lia.
  rewrite <-!app_assoc. cbn [app]. destruct (has type LEFT); [done|]. destruct (has type ZEROPAD); cbn [andb]; [|done].
  destruct (Hpad eq_refl) as [|Hp]; [done|]. rewrite (proj2 (Z.ltb_lt _ _)) by lia. by rewrite zeros_snoc.
Qed.

(** C35: [number] writes the text that C99 asks for, whatever the output is: the
    optimised decimal conversion and the shifts give the digits, and sign,
    prefix, zeros and padding are laid out as the standard says, for the three
    bases and all flags, except where [c99_case] does not hold: the flag 0 with a
    precision, the number 0 with # in octal or hexadecimal or with the precision
    0, and # in octal with a precision above the number of digits. *)
Theorem number_correct `{Sink st} num base size precision type (s : st) :
  number_base base → 0 ≤ num < 2 ^ 64 → c99_case num base precision type →
  number num base size precision type s = put_all (c99_text num base size precision type) s.
Proof. intros Hb Hn Hc. rewrite number_ok, c99_text_ok by done. done. Qed.

(** [%#06x] of 0xbeef. *)
Lemma number_correct_witness :
  number (H := OutBuf false 0 0) 0xbeef 16 8 (-1) (SPECIAL + SMALL + ZEROPAD) (mkOut (replicate 8 0) 0) =
  put_all (H := OutBuf false 0 0) (c99_text 0xbeef 16 8 (-1) (SPECIAL + SMALL + ZEROPAD)) (mkOut (replicate 8 0) 0).
Proof. apply number_correct; [constructor|lia|]. split; [by right|done|done]. Defined.

(** The output that takes every character, and what [number] writes to it. *)
Definition every_char : Sink (list Z) := {|
  addch c s := Some (s ++ [c]);
  load _ _ := None;
  store_int _ _ _ := None;
  written s := Z.of_nat (length s);
  extent _ := 0%nat;
|}.

Definition printed (num base size precision type : Z) : option (list Z) :=
  number (H := every_char) num base size precision type [].

Lemma printed_ok num base size precision type : number_base base → 0 ≤ num < 2 ^ 64 →
  printed num base size precision type = Some (number_text num base size precision type).
Proof.
  intros Hb Hn. unfold printed. rewrite (number_ok (H := every_char)) by done.
  assert (Hp : ∀ l t, put_all (H := every_char) l t = Some (t ++ l)).
  { induction l as [|c l IH]; intros t; [by rewrite app_nil_r|]. cbn [put_all addch every_char mbind option_bind].
    by rewrite IH, <-app_assoc. }
  apply Hp.
Qed.

(** The departures: %08.3d of 5 is 00000005 and not five spaces and 005; %#x of
    0 is 0x0 and not 0; %#o of 0 is 00 and not 0; %.0d of 0 is 0 and not empty;
    %#.3o of 8 is 0010 and not 010. *)
Lemma c99_departures :
  (printed 5 10 8 3 (SIGN + ZEROPAD) = Some [48; 48; 48; 48; 48; 48; 48; 53] ∧
   c99_text 5 10 8 3 (SIGN + ZEROPAD) = [32; 32; 32; 32; 32; 48; 48; 53]) ∧
  (printed 0 16 (-1) (-1) (SPECIAL + SMALL) = Some [48; 120; 48] ∧ c99_text 0 16 (-1) (-1) (SPECIAL + SMALL) = [48]) ∧
  (printed 0 8 (-1) (-1) SPECIAL = Some [48; 48] ∧ c99_text 0 8 (-1) (-1) SPECIAL = [48]) ∧
  (printed 0 10 (-1) 0 SIGN = Some [48] ∧ c99_text 0 10 (-1) 0 SIGN = []) ∧
  (printed 8 8 (-1) 3 SPECIAL = Some [48; 48; 49; 48] ∧ c99_text 8 8 (-1) 3 SPECIAL = [48; 49; 48]).
Proof. split_and!; reflexivity. Qed.

(** C36: Reading back what [number] wrote without a width and a precision,
    followed by anything that is not a digit or an x, gives the number again,
    with the base as an argument; with the flag # in lower case the prefix tells
    the base. *)
Theorem print_parse w num base (small : bool) rest :
  0 ≤ w ≤ 64 → number_base base → 0 ≤ num < 2 ^ w → stops base rest → ch rest ≠ 120 →
  (∃ t, printed num base (-1) (-1) (if small then SMALL else 0) = Some t ∧ strto w (t ++ rest) base = (num, rest)) ∧
  (∃ t, printed num base (-1) (-1) (SPECIAL + SMALL) = Some t ∧ strto w (t ++ rest) 0 = (num, rest)).
Proof.
  intros Hw Hb Hn Hr Hx. assert (2 ^ w ≤ 2 ^ 64) by (apply Z.pow_le_mono_r; lia).
  destruct (text_parse w num base small rest Hw Hb Hn Hr Hx) as [H1 H2].
  split; (eexists; split; [apply printed_ok; [done|lia]|done]).
Qed.

Lemma print_parse_witness :
  (∃ t, printed 0xbeef 16 (-1) (-1) SMALL = Some t ∧ simple_strtoul (t ++ [44]) 16 = (0xbeef, [44])) ∧
  (∃ t, printed 0xbeef 16 (-1) (-1) (SPECIAL + SMALL) = Some t ∧ simple_strtoul (t ++ [44]) 0 = (0xbeef, [44])).
Proof. apply (print_parse 32 0xbeef 16 true [44]); [lia|constructor|lia|reflexivity|done]. Defined.

(** In upper case the prefix is 0X, which the reader takes for octal. *)
Example upper_case_prefix :
  number_text 0xbeef 16 (-1) (-1) SPECIAL = [48; 88; 66; 69; 69; 70] ∧
  simple_strtoul [48; 88; 66; 69; 69; 70] 0 = (0, [88; 66; 69; 69; 70]).
Proof. done. Qed.

(** ** [simple_itoa] *)

Lemma itoa_loop_ok room i local f : 0 ≤ i → i < 2 ^ Z.of_nat f → (0 < f)%nat → i < 10 ^ Z.of_nat room → (0 < room)%nat →
  itoa_loop room i local = Some (reverse (digit_char false <$> ref_digits f 10 i) ++ local).
Proof.
  revert i local f. induction room as [|room IH]; intros i local f Hi Hf H0 Hr Hr0; [lia|].
  destruct f as [|f]; [lia|]. cbn [itoa_loop ref_digits]. rewrite fmap_cons, reverse_cons, <-app_assoc.
  pose proof (Z.mod_pos_bound i 10 ltac:(lia)). assert (Ed : digit_char false (i mod 10) = 48 + i mod 10).
  { unfold digit_char. by rewrite (proj2 (Z.ltb_lt _ _)) by lia. }
  rewrite Ed. rewrite Nat2Z.inj_succ, Z.pow_succ_r in Hf, Hr by lia.
  assert (i / 10 < 10 ^ Z.of_nat room) by (apply Z.div_lt_upper_bound; lia).
  assert (i / 10 < 2 ^ Z.of_nat f) by (apply Z.div_lt_upper_bound; [lia|]; pose proof (Z.pow_pos_nonneg 2 (Z.of_nat f)); lia).
  assert (0 ≤ i / 10) by (apply Z.div_pos; lia).
  destruct (0 <? i / 10) eqn:C; cmp_inv C; destruct (i / 10 =? 0) eqn:C'; cmp_inv C'; try lia; [|done].
  destruct (decide (f = 0%nat)) as [->|]; [simpl in *; lia|]. destruct (decide (room = 0%nat)) as [->|]; [simpl in *; lia|].
  apply (IH (i / 10)); lia.
Qed.

(** The 21 places of the array are enough for 64 bits. *)
Lemma simple_itoa_ok i : 0 ≤ i < 2 ^ 64 → simple_itoa i = Some (digits_text false 10 i).
Proof.
  intros Hi. unfold simple_itoa. rewrite (itoa_loop_ok 21 i [] 64) by lia. by rewrite app_nil_r.
Qed.
