(* ===== verification/VsprintfBuf.v ===== *)
(** * Formatted output: the contract of the buffer

    Running the formatter against a sink that only collects the text, over a
    memory without the buffer, and running it on the buffer are related step by
    step. The contract of [vsnprintf] and [vsprintf] follows: what is in memory
    afterwards is the text, cut to the buffer, and nothing else has changed. *)

From stdpp Require Import base option list numbers.
From Stdlib Require Import ZArith Lia.
From S2P Require Import Prelude Word32 Ctype Div64 Strtoul Vsprintf VsprintfSpec.
Local Open Scope Z_scope.

(** ** Refinement of partial computations *)

Definition refines {A B} (Q : A → B → Prop) (x : option A) (y : option B) : Prop :=
  ∀ a, x = Some a → ∃ b, y = Some b ∧ Q a b.

Lemma refines_ret {A B} (Q : A → B → Prop) a b : Q a b → refines Q (Some a) (Some b).
Proof. intros HQ a' [= <-]. by exists b. Qed.

Lemma refines_none {A B} (Q : A → B → Prop) y : refines Q None y.
Proof. by intros a. Qed.

Lemma refines_bind {A B A' B'} (Q : A → B → Prop) (Q' : A' → B' → Prop) x y f g :
  refines Q x y → (∀ a b, Q a b → refines Q' (f a) (g b)) → refines Q' (x ≫= f) (y ≫= g).
Proof.
  intros Hx Hf a' (a & Ha & Ha')%bind_Some. destruct (Hx a Ha) as (b & -> & HQ). by apply (Hf a b HQ).
Qed.

(** The same value with related states. *)
Definition paired {A S T} (R : S → T → Prop) (x : A * S) (y : A * T) : Prop := x.1 = y.1 ∧ R x.2 y.2.

Lemma refines_eq {A B C} (Q : B → C → Prop) (x : option A) f g :
  (∀ a, refines Q (f a) (g a)) → refines Q (x ≫= f) (x ≫= g).
Proof. intros H. destruct x; [apply H|apply refines_none]. Qed.

(** What relates two sinks. *)
Class SinkRefines {S T} `{Sink S} `{Sink T} (R : S → T → Prop) := {
  addch_refines c s t : R s t → refines R (addch c s) (addch c t);
  load_refines p s t : R s t → refines eq (load p s) (load p t);
  store_refines p v s t : R s t → refines R (store_int p v s) (store_int p v t);
  written_refines s t : R s t → written s = written t;
  extent_refines s t : R s t → extent s = extent t;
}.

Section Refinement.
Context {S T} `{SS : Sink S} `{ST : Sink T} (R : S → T → Prop) `{!SinkRefines R}.
Implicit Types (s : S) (t : T).

Create HintDb refine.
Hint Resolve addch_refines load_refines store_refines refines_ret refines_none : refine.

Ltac step :=
  repeat match goal with
  | |- refines _ (_ ≫= _) (_ ≫= _) => first [eapply refines_bind; [by eauto with refine|] | apply refines_eq]
  | |- refines _ (Some _) (Some _) => apply refines_ret
  | |- ∀ _, _ => intro
  | H : paired _ ?x ?y |- _ => destruct x, y; destruct H as [? ?]; simpl in *; subst
  | H : @eq (prod _ _) ?x ?y |- _ => destruct x; subst
  | |- refines _ (if ?b then _ else _) (if ?b then _ else _) => destruct b
  | |- refines _ (match ?x with pair _ _ => _ end) (match ?x with pair _ _ => _ end) => destruct x
  end; eauto with refine.

Lemma put_all_refines l s t : R s t → refines R (put_all l s) (put_all l t).
Proof. revert s t. induction l as [|c l IH]; intros s t HR; simpl; step. Qed.
Hint Resolve put_all_refines : refine.

Lemma pad_refines c size s t : R s t → refines (paired R) (pad c size s) (pad c size t).
Proof.
  intros HR. rewrite !pad_ok. step. by split.
Qed.

Lemma width_loop_refines k len fw s t : R s t → refines (paired R) (width_loop k len fw s) (width_loop k len fw t).
Proof. revert fw s t. induction k as [|k IH]; intros fw s t HR; cbn [width_loop]; step. by split. Qed.

Lemma read_refines src i s t : R s t → refines eq (read src i s) (read src i t).
Proof. intros HR. destruct src; simpl; step. intros a ->. by exists a. Qed.
Hint Resolve read_refines : refine.

Lemma strnlen_loop_refines f count src i s t : R s t → refines eq (strnlen_loop f count src i s) (strnlen_loop f count src i t).
Proof. revert count i. induction f as [|f IH]; intros count i HR; cbn [strnlen_loop]; step. subst. step. Qed.

Lemma copy_loop_refines k i src s t : R s t → refines R (copy_loop k i src s) (copy_loop k i src t).
Proof. revert i s t. induction k as [|k IH]; intros i s t HR; cbn [copy_loop]; step. subst. step. Qed.

Hint Resolve pad_refines width_loop_refines strnlen_loop_refines copy_loop_refines : refine.

Lemma zeros_loop_refines k i precision s t : R s t → refines R (zeros_loop k i precision s) (zeros_loop k i precision t).
Proof. revert precision s t. induction k as [|k IH]; intros precision s t HR; cbn [zeros_loop]; step. Qed.
Hint Resolve zeros_loop_refines : refine.

Lemma choose_refines (b : bool) size (x : option (Z * S)) (y : option (Z * T)) s t :
  R s t → refines (paired R) x y → refines (paired R) (if b then Some (size, s) else x) (if b then Some (size, t) else y).
Proof. intros HR Hxy. destruct b; [|done]. by apply refines_ret. Qed.
Hint Resolve choose_refines : refine.

Lemma maybe_refines (b : bool) (x : option S) (y : option T) s t :
  R s t → refines R x y → refines R (if b then Some s else x) (if b then Some t else y).
Proof. intros HR Hxy. destruct b; [|done]. by apply refines_ret. Qed.
Hint Resolve maybe_refines : refine.

Lemma number_refines num base size precision type s t :
  R s t → refines R (number num base size precision type s) (number num base size precision type t).
Proof.
  intros HR. unfold number. cbv zeta. destruct (if has _ SIGN then _ else _) as [[sg mag] size'].
  apply refines_eq. intros tmp. generalize (Datatypes.S (Z.to_nat ((if precision <? Z.of_nat (length tmp) then Z.of_nat (length tmp) else precision) - Z.of_nat (length tmp)))). intros k.
  eapply refines_bind; [by apply choose_refines; auto using pad_refines|]. intros [? ?] [? ?] [? ?]. simpl in *. subst.
  eapply refines_bind; [by apply maybe_refines; auto using addch_refines|]. intros.
  eapply (refines_bind R); [destruct (has type SPECIAL && _); step|]. intros.
  eapply refines_bind; [by apply choose_refines; auto using pad_refines|]. step.
Qed.
Hint Resolve number_refines : refine.

Lemma width_refines len fw s t : R s t → refines (paired R) (width len fw s) (width len fw t).
Proof. apply width_loop_refines. Qed.
Hint Resolve width_refines : refine.

Lemma string_refines src fw precision flags s t :
  R s t → refines R (string src fw precision flags s) (string src fw precision flags t).
Proof.
  intros HR. unfold string. set (src' := match src with At p => _ | Local _ => _ end).
  assert (Hl : source_size src' s = source_size src' t) by (destruct src'; simpl; [by eapply extent_refines|done]).
  rewrite Hl. eapply refines_bind; [by apply strnlen_loop_refines|]. intros len ? <-.
  eapply refines_bind; [apply choose_refines; by auto with refine|]. step.
Qed.
Hint Resolve string_refines : refine.

Lemma load_bytes_refines n p s t : R s t → refines eq (load_bytes n p s) (load_bytes n p t).
Proof.
  intros HR. revert p. induction n as [|n IH]; intros p; cbn [load_bytes]; [by apply refines_ret|].
  eapply refines_bind; [by apply load_refines|]. intros b ? <-.
  eapply refines_bind; [apply IH|]. intros r ? <-. by apply refines_ret.
Qed.

Lemma load_then_refines {Q : S → T → Prop} n p s t f g :
  R s t → (∀ b, refines Q (f b) (g b)) → refines Q (load_bytes n p s ≫= f) (load_bytes n p t ≫= g).
Proof.
  intros HR Hf. eapply refines_bind; [by apply load_bytes_refines|]. intros b ? <-. apply Hf.
Qed.

Lemma pointer_refines fmt ptr fw precision flags s t :
  R s t → refines R (pointer fmt ptr fw precision flags s) (pointer fmt ptr fw precision flags t).
Proof.
  intros HR. unfold pointer, mac_address_string, ip6_addr_string, ip4_addr_string. cbv zeta.
  repeat match goal with |- context [if ?b then _ else _] => destruct b end;
    try (apply load_then_refines; [done|]; intros b); auto with refine.
Qed.
Hint Resolve pointer_refines : refine.

Lemma char_pad_loop_refines k fw s t : R s t → refines (paired R) (char_pad_loop k fw s) (char_pad_loop k fw t).
Proof. revert fw s t. induction k as [|k IH]; intros fw s t HR; cbn [char_pad_loop]; step. by split. Qed.

Lemma char_pad_refines fw s t : R s t → refines (paired R) (char_pad fw s) (char_pad fw t).
Proof. apply char_pad_loop_refines. Qed.
Hint Resolve char_pad_refines : refine.

Lemma convert_refines flags fw precision qualifier fmt args s t :
  R s t → refines (paired R) (convert flags fw precision qualifier fmt args s) (convert flags fw precision qualifier fmt args t).
Proof.
  intros HR. unfold convert. cbv zeta.
  repeat match goal with |- refines _ (if ?b then _ else _) (if ?b then _ else _) => destruct b end.
  - eapply refines_bind; [apply choose_refines; by auto with refine|]. step; by split.
  - step; by split.
  - step; by split.
  - rewrite (written_refines s t HR). step; by split.
  - step; by split.
  - step; by split.
  - step; by split.
  - step; by split.
  - step; by split.
  - step; by split.
  - step; by split.
Qed.

(** The formatter respects every relation between sinks. *)
Lemma format_loop_refines fuel fmt args s t : R s t → refines R (format_loop fuel fmt args s) (format_loop fuel fmt args t).
Proof.
  revert fmt args s t. induction fuel as [|fuel IH]; intros fmt args s t HR; [apply refines_none|].
  cbn [format_loop]. destruct fmt as [|c fmt]; [by apply refines_ret|]. destruct (negb _); [step|].
  destruct (flags_loop 0 fmt) as [flags fmt']. apply refines_eq. intros [[[fw flags'] fmt1] args1].
  apply refines_eq. intros [[precision fmt2] args2]. destruct (get_qualifier fmt2) as [q fmt3].
  eapply refines_bind; [by apply convert_refines|]. intros [[fmt4 args4] s'] [[fmt5 args5] t'] [E HR']. simpl in *.
  injection E as <- <-. by apply IH.
Qed.

End Refinement.

(** ** The sink that collects the text *)

Record text := mkText { t_mem : list Z; t_text : list Z }.

Section Text.
(** The buffer, which the conversions must not touch, and whether the text may
    be longer than it; the position after the text must be an address. *)
Context (safe : bool) (buf : Z) (n : nat).

Definition masked (p : Z) : bool := (buf <=? p) && (p <? buf + Z.of_nat n).

#[global] Instance TextSink : Sink text := {|
  addch c s :=
    if (safe || (length (t_text s) <? n)%nat) && (buf + Z.of_nat (length (t_text s)) + 1 <? 2 ^ 32)
    then Some (mkText (t_mem s) (t_text s ++ [c])) else None;
  load p s := if masked p then None else load8 (t_mem s) p;
  store_int p v s :=
    if masked p || masked (p + 1) || masked (p + 2) || masked (p + 3) then None
    else m ← store_word (t_mem s) p v; Some (mkText m (t_text s));
  written s := Z.of_nat (length (t_text s));
  extent s := length (t_mem s);
|}.

(** Memory with the text in the buffer. *)
Definition with_text (m t : list Z) : list Z := splice (Z.to_nat buf) (take n t) m.

(** The state of the formatter on the buffer that a text stands for. *)
Definition holds (s : text) (o : out) : Prop :=
  (Z.to_nat buf + n ≤ length (t_mem s))%nat ∧ (safe = true ∨ (length (t_text s) ≤ n)%nat) ∧
  o = mkOut (with_text (t_mem s) (t_text s)) (buf + Z.of_nat (length (t_text s))).

Context (Hbuf : 0 ≤ buf).

Lemma with_text_length m t : (Z.to_nat buf + n ≤ length m)%nat → length (with_text m t) = length m.
Proof. intros Hm. apply length_splice. rewrite length_take. lia. Qed.

Lemma splice_lookup_out off x (m : list Z) i : (off + length x ≤ length m)%nat → (i < off ∨ off + length x ≤ i)%nat →
  splice off x m !! i = m !! i.
Proof.
  intros Hm Hi. unfold splice. destruct Hi as [Hi|Hi].
  - rewrite lookup_app_l by (rewrite length_take; lia). by apply lookup_take_lt.
  - rewrite lookup_app_r by (rewrite length_take; lia). rewrite length_take, lookup_app_r by lia.
    rewrite lookup_drop. f_equal. lia.
Qed.

Lemma splice_insert_out off x (m : list Z) i v : (off + length x ≤ length m)%nat → (i < off ∨ off + length x ≤ i)%nat →
  <[i := v]> (splice off x m) = splice off x (<[i := v]> m).
Proof.
  intros Hm Hi. unfold splice. destruct Hi as [Hi|Hi].
  - rewrite insert_app_l by (rewrite length_take; lia). rewrite take_insert_lt, drop_insert_lt by lia. done.
  - rewrite insert_app_r_alt by (rewrite length_take; lia). rewrite insert_app_r_alt by (rewrite length_take; lia).
    rewrite take_insert_ge by lia. rewrite drop_insert_ge by lia. rewrite length_take. do 3 f_equal. lia.
Qed.

(** Appending a character. *)
Lemma splice_snoc off x c (m : list Z) : (off + length x < length m)%nat →
  <[(off + length x)%nat := c]> (splice off x m) = splice off (x ++ [c]) m.
Proof.
  intros Hm. unfold splice. rewrite insert_app_r_alt by (rewrite length_take; lia).
  rewrite insert_app_r_alt by (rewrite length_take; lia). rewrite length_take, <-app_assoc. do 2 f_equal.
  replace (off + length x - Nat.min off (length m) - length x)%nat with 0%nat by lia.
  destruct (drop (off + length x) m) as [|d l] eqn:E.
  - apply (f_equal length) in E. rewrite length_drop in E. simpl in E. lia.
  - simpl. f_equal. rewrite length_app. simpl. replace (off + (length x + 1))%nat with (off + length x + 1)%nat by lia.
    by rewrite <-drop_drop, E.
Qed.

Lemma masked_out p : masked p = false → 0 ≤ p → (Z.to_nat p < Z.to_nat buf ∨ Z.to_nat buf + n ≤ Z.to_nat p)%nat.
Proof. unfold masked. intros [H|H]%andb_false_iff Hp; cmp_inv H; lia. Qed.

Lemma store8_holds m t p v m' : (Z.to_nat buf + n ≤ length m)%nat → masked p = false → store8 m p v = Some m' →
  store8 (with_text m t) p v = Some (with_text m' t) ∧ length m' = length m.
Proof.
  intros Hm Hp. unfold store8. rewrite with_text_length by done. destruct ((0 <=? p) && _) eqn:C; [|done].
  intros [= <-]. apply andb_prop in C as [C _]. cmp_inv C. apply masked_out in Hp; [|done]. split; [|apply length_insert].
  f_equal. apply splice_insert_out; rewrite length_take; lia.
Qed.

Lemma addch_holds c s o : holds s o → refines holds (addch c s) (ADDCH safe (buf + Z.of_nat n) c o).
Proof.
  intros (Hm & Hl & ->) s' Hs'. cbn [addch TextSink] in Hs'. unfold ADDCH. simpl o_str. simpl o_mem.
  destruct s as [m t]. cbn [t_mem t_text] in *.
  destruct (Z.ltb_spec (buf + Z.of_nat (length t) + 1) (2 ^ 32)) as [H32|]; [|by rewrite andb_false_r in Hs'].
  rewrite andb_true_r in Hs'. rewrite (u32_small (_ + 1)) by lia. destruct (length t <? n)%nat eqn:C; cmp_inv C.
  - rewrite orb_true_r in Hs'. injection Hs' as <-. rewrite (proj2 (Z.ltb_lt _ _)) by lia. cbn [negb]. rewrite andb_false_r.
    unfold store8. rewrite with_text_length by done. rewrite (proj2 (Z.leb_le _ _)), (proj2 (Z.ltb_lt _ _)) by lia. cbn.
    eexists. split; [done|]. split; [done|]. split; [right; cbn; rewrite length_app; simpl; lia|].
    unfold with_text. cbn. f_equal; [|rewrite length_app; simpl; lia].
    rewrite !take_ge by (rewrite ?length_app; simpl; lia).
    rewrite Z2Nat.inj_add, Nat2Z.id by lia. apply splice_snoc. lia.
  - destruct safe eqn:Es; [|done]. cbn in Hs'. injection Hs' as <-. rewrite (proj2 (Z.ltb_ge _ _)) by lia. cbn.
    eexists. split; [done|]. split; [done|]. split; [by left|].
    unfold with_text. cbn. f_equal; [|rewrite length_app; simpl; lia].
    by rewrite take_app_le by lia.
Qed.

Lemma load_holds p s o : holds s o → refines eq (load p s) (load8 (o_mem o) p).
Proof.
  intros (Hm & Hl & ->) v Hv. destruct s as [m t]. cbn in *. destruct (masked p) eqn:Hp; [done|]. exists v. split; [|done].
  rewrite <-Hv. unfold load8. destruct (0 <=? p) eqn:C; cmp_inv C; [|done].
  apply masked_out in Hp; [|done]. apply splice_lookup_out; rewrite length_take; lia.
Qed.

Lemma store_holds p v s o : holds s o →
  refines holds (store_int p v s) (m ← store_word (o_mem o) p v; Some (mkOut m (o_str o))).
Proof.
  intros (Hm & Hl & ->) s' Hs'. destruct s as [m t]. cbn in *.
  destruct (masked p || _ || _ || _) eqn:M; [done|].
  apply orb_false_iff in M as [[[M0 M1]%orb_false_iff M2]%orb_false_iff M3].
  apply bind_Some in Hs' as (m4 & Hs' & [= <-]). unfold store_word in *.
  apply bind_Some in Hs' as (m1 & E1 & Hs'). apply bind_Some in Hs' as (m2 & E2 & Hs').
  apply bind_Some in Hs' as (m3 & E3 & E4).
  destruct (store8_holds m t p _ m1 Hm M0 E1) as [-> L1]. cbn [mbind option_bind].
  destruct (store8_holds m1 t (p + 1) _ m2 ltac:(lia) M1 E2) as [-> L2]. cbn [mbind option_bind].
  destruct (store8_holds m2 t (p + 2) _ m3 ltac:(lia) M2 E3) as [-> L3]. cbn [mbind option_bind].
  destruct (store8_holds m3 t (p + 3) _ m4 ltac:(lia) M3 E4) as [-> L4]. cbn [mbind option_bind].
  eexists. split; [done|]. by split; [simpl; lia|].
Qed.

#[global] Instance holds_refines :
  SinkRefines (H := TextSink) (H0 := OutBuf safe buf (buf + Z.of_nat n)) holds.
Proof.
  split.
  - apply addch_holds.
  - intros p s t. apply load_holds.
  - intros p v s t. apply store_holds.
  - intros s t (_ & _ & ->). cbn. lia.
  - intros s t (Hm & _ & ->). cbn. symmetry. by apply with_text_length.
Qed.

End Text.

(** ** The contract *)

(** The text of a format over memory [m], without the bytes of the buffer, and
    memory after it ([%n] stores into it). *)
Definition format_text (safe : bool) (buf : Z) (n : nat) (m : list Z) (fmt : list Z) (args : list arg) :
    option (list Z * list Z) :=
  s ← format (H := TextSink safe buf n) fmt args (mkText m []); Some (t_mem s, t_text s).

Lemma format_holds safe buf n m fmt args m' t :
  0 ≤ buf → (Z.to_nat buf + n ≤ length m)%nat → format_text safe buf n m fmt args = Some (m', t) →
  (Z.to_nat buf + n ≤ length m')%nat ∧ (safe = true ∨ (length t ≤ n)%nat) ∧
  format (H := OutBuf safe buf (buf + Z.of_nat n)) fmt args (mkOut m buf) =
    Some (mkOut (with_text buf n m' t) (buf + Z.of_nat (length t))).
Proof.
  intros Hb Hm Hf. unfold format_text in Hf. apply bind_Some in Hf as (s & Hf & [= <- <-]).
  pose proof (format_loop_refines (SS := TextSink safe buf n) (ST := OutBuf safe buf (buf + Z.of_nat n)) (holds safe buf n)
    (SinkRefines0 := holds_refines safe buf n Hb)) as Href.
  assert (H0 : holds safe buf n (mkText m []) (mkOut m buf)).
  { split; [done|]. split; [right; simpl; lia|]. unfold with_text, splice. cbn. rewrite take_nil. cbn. f_equal; [|lia].
    rewrite Nat.add_0_r. by rewrite take_drop. }
  destruct (Href _ fmt args _ _ H0 s Hf) as (o & Ho & Hm' & Hl & ->). done.
Qed.


Lemma splice_set_last off x c d (m : list Z) : (off + length x < length m)%nat →
  <[(off + length x)%nat := d]> (splice off (x ++ [c]) m) = splice off (x ++ [d]) m.
Proof. intros Hm. rewrite <-!splice_snoc by done. apply list_insert_insert_eq. Qed.

Lemma vsnprintf_ok m buf size fmt args m' t :
  0 ≤ buf → 0 ≤ size → buf + size < 2 ^ 32 → buf + size ≤ Z.of_nat (length m) →
  format_text true buf (Z.to_nat size) m fmt args = Some (m', t) →
  buf + Z.of_nat (length t) + 1 < 2 ^ 32 →
  vsnprintf m buf size fmt args =
    Some (if 0 <? size then splice (Z.to_nat buf) (take (Z.to_nat size - 1) t ++ [0]) m' else m',
          s32 (Z.of_nat (length t) + (if 0 <? size then 1 else 0))).
Proof.
  intros Hb Hs H32 Hm Hf Ht. set (n := Z.to_nat size) in *. assert (En : size = Z.of_nat n) by lia. clearbody n. subst size.
  destruct (format_holds true buf n m fmt args m' t) as (Hm' & _ & E); [lia..|done|].
  unfold vsnprintf, vsnprintf_internal. rewrite u32_small by lia. rewrite (proj2 (Z.ltb_ge _ buf)) by lia. cbn [andb].
  rewrite E. cbn [mbind option_bind].
  destruct (0 <? Z.of_nat n) eqn:C; cmp_inv C.
  - destruct (addch_holds true buf n Hb 0 (mkText m' t) (mkOut (with_text buf n m' t) (buf + Z.of_nat (length t))))
      with (mkText m' (t ++ [0])) as (o & -> & Ho); [by split_and!; [|left|]| |].
    { cbn [addch TextSink t_text t_mem orb andb]. by rewrite (proj2 (Z.ltb_lt _ _)) by lia. }
    destruct Ho as (_ & _ & ->). cbn [mbind option_bind o_str o_mem t_mem t_text]. rewrite length_app. cbn [length].
    destruct (_ <? _) eqn:C'; cmp_inv C'; cbn [mbind option_bind].
    + unfold store8. rewrite with_text_length by done. rewrite (proj2 (Z.leb_le _ _)), (proj2 (Z.ltb_lt _ _)) by lia.
      cbn [andb mbind option_bind]. do 2 f_equal; [|f_equal; lia]. unfold with_text.
      rewrite take_app_le by lia.
      destruct (lookup_lt_is_Some_2 t (n - 1)) as [x Hx]; [lia|].
      replace (take n t) with (take (n - 1) t ++ [x]) by (rewrite <-take_S_r by done; f_equal; lia).
      replace (Z.to_nat (buf + Z.of_nat n - 1)) with (Z.to_nat buf + length (take (n - 1) t))%nat by (rewrite length_take; lia).
      apply splice_set_last. rewrite length_take. lia.
    + do 2 f_equal; [|f_equal; lia]. unfold with_text. rewrite !take_ge by (rewrite ?length_app; simpl; lia). done.
  - cbn [o_str o_mem]. do 2 f_equal; [|f_equal; lia]. replace n with 0%nat by lia. unfold with_text, splice. cbn.
    rewrite Nat.add_0_r. apply take_drop.
Qed.

(** C34: [vsnprintf] with [CONFIG_SYS_VSNPRINTF]: when the conversions keep off
    the buffer, the text and a NUL end below the top of the address space and
    their number is an [int], memory afterwards is what the conversions made of
    it, with the text, cut to [size - 1] characters, and a NUL in the buffer, or
    with nothing in it if [size] is 0; nothing beyond the buffer changes. The
    return value is the length of the whole text, and 1 more for the NUL unless
    [size] is 0. *)
Theorem vsnprintf_correct m buf size fmt args m' t :
  0 ≤ buf → 0 ≤ size → buf + size < 2 ^ 32 → buf + size ≤ Z.of_nat (length m) →
  format_text true buf (Z.to_nat size) m fmt args = Some (m', t) →
  buf + Z.of_nat (length t) + 1 < 2 ^ 32 → Z.of_nat (length t) + 1 < 2 ^ 31 →
  vsnprintf m buf size fmt args =
    Some (if 0 <? size then splice (Z.to_nat buf) (take (Z.to_nat size - 1) t ++ [0]) m' else m',
          Z.of_nat (length t) + (if 0 <? size then 1 else 0)).
Proof.
  intros Hb Hs H32 Hm Hf Ht H31. rewrite (vsnprintf_ok m buf size fmt args m' t) by done.
  unfold s32. rewrite Z.mod_small by (destruct (0 <? size); lia). do 2 f_equal. lia.
Qed.

(** "%d" into eight and into three bytes. *)
Lemma vsnprintf_correct_witness :
  vsnprintf (replicate 12 255) 2 3 [37; 100] [AInt (2 ^ 32 - 123)] =
  Some (if 0 <? 3 then splice (Z.to_nat 2) (take (Z.to_nat 3 - 1) [45; 49; 50; 51] ++ [0]) (replicate 12 255) else replicate 12 255,
        Z.of_nat (length [45; 49; 50; 51]) + (if 0 <? 3 then 1 else 0)).
Proof. apply (vsnprintf_correct _ _ _ _ _ _ [45; 49; 50; 51]); [lia|lia|lia|simpl; lia|reflexivity|simpl; lia|simpl; lia]. Defined.

(** C0: [vsprintf] (either configuration) and [vsnprintf] agree on a text that
    fits: the text and a NUL are written, and nothing else changes; without
    [CONFIG_SYS_VSNPRINTF] the length of the text is returned. *)
Theorem vsprintf_correct m buf n fmt args m' t :
  0 ≤ buf → (Z.to_nat buf + n ≤ length m)%nat → (length t < n)%nat → Z.of_nat (length t) < 2 ^ 31 →
  format_text false buf n m fmt args = Some (m', t) →
  vsprintf false m buf fmt args = Some (splice (Z.to_nat buf) (t ++ [0]) m', Z.of_nat (length t)).
Proof.
  intros Hb Hm Hl H31 Hf. destruct (format_holds false buf n m fmt args m' t) as (Hm' & _ & E); [done..|].
  unfold vsprintf, vsnprintf_internal. cbn [andb].
  change (OutBuf false buf (u32 (buf + INT_MAX))) with (OutBuf false buf (buf + Z.of_nat n)).
  rewrite E. cbn [mbind option_bind o_mem o_str].
  unfold store8. rewrite with_text_length by done. rewrite (proj2 (Z.leb_le _ _)), (proj2 (Z.ltb_lt _ _)) by lia.
  cbn [andb mbind option_bind]. do 2 f_equal; [|unfold s32; rewrite Z.mod_small by lia; lia]. unfold with_text. rewrite take_ge by lia.
  rewrite Z2Nat.inj_add, Nat2Z.id by lia. apply splice_snoc. lia.
Qed.

(** "%s=%#x" with a string that is in memory. *)
Lemma vsprintf_correct_witness :
  vsprintf false ([0; 97; 98; 0] ++ replicate 12 255) 4 [37; 115; 61; 37; 35; 120] [APtr 1; AInt 31] =
  Some (splice (Z.to_nat 4) ([97; 98; 61; 48; 120; 49; 102] ++ [0]) ([0; 97; 98; 0] ++ replicate 12 255), Z.of_nat (length [97; 98; 61; 48; 120; 49; 102])).
Proof. apply (vsprintf_correct _ 4 9); [lia|simpl; lia|simpl; lia|simpl; lia|reflexivity]. Defined.

(** A conversion to a number writes the text of the number. *)
Lemma format_number safe buf n m base flags num :
  number_base base → 0 ≤ num < 2 ^ 64 → safe = true ∨ (length (number_text num base (-1) (-1) flags) ≤ n)%nat →
  buf + Z.of_nat (length (number_text num base (-1) (-1) flags)) < 2 ^ 32 →
  number (H := TextSink safe buf n) num base (-1) (-1) flags (mkText m []) =
    Some (mkText m (number_text num base (-1) (-1) flags)).
Proof.
  intros Hb Hn Hs H32. rewrite (number_ok (H := TextSink safe buf n)) by done.
  assert (Hp : ∀ l t, safe = true ∨ (length (t ++ l) ≤ n)%nat → buf + Z.of_nat (length (t ++ l)) < 2 ^ 32 →
    put_all (H := TextSink safe buf n) l (mkText m t) = Some (mkText m (t ++ l))).
  { induction l as [|c l IH]; intros t Ht Hlt; [by rewrite app_nil_r|]. cbn [put_all addch TextSink t_text t_mem].
    rewrite length_app in Ht, Hlt. cbn [length] in Ht, Hlt. rewrite (proj2 (Z.ltb_lt (_ + 1) _)), andb_true_r by lia.
    assert (Eg : safe || (length t <? n)%nat = true).
    { destruct Ht as [->|Ht]; [done|]. rewrite (proj2 (Nat.ltb_lt _ _)) by lia. apply orb_true_r. }
    rewrite Eg. cbn [mbind option_bind]. rewrite IH; [by rewrite <-app_assoc| |rewrite !length_app; simpl; lia].
    destruct Ht as [->|Ht]; [by left|]. right. rewrite !length_app. simpl. lia. }
  by apply (Hp _ []).
Qed.
