(* ===== verification/KconfigSymtab.v ===== *)
(** * Kconfig symbols: data and the symbol table

    The structures of [support/kconfig/expr.h] behind the symbols, and the
    functions of [support/kconfig/symbol.c] that find and create symbols and
    handle their names and values as text. A [struct symbol *] is the [symp] of
    [KconfigExpr]; what it points to is in a store, so that the aliasing of the
    C pointers is that of the keys. *)

From stdpp Require Import base option list strings gmap countable.
From Stdlib Require Import ZArith Lia Ascii.
From S2P Require Import Prelude Word32 KconfigExpr.
Local Open Scope nat_scope.

#[export] Instance symp_countable : Countable symp.
Proof.
  refine (inj_countable'
    (λ s, match s with
          | symbol_yes => inl 0 | symbol_mod => inl 1 | symbol_no => inl 2 | symbol_empty => inl 3
          | sym_at n => inr n end)
    (λ x, match x with
          | inl 0 => symbol_yes | inl 1 => symbol_mod | inl 2 => symbol_no | inl _ => symbol_empty
          | inr n => sym_at n end) _).
  by intros [].
Defined.

(** ** Text *)

(** A C string without its NUL. *)
Abbreviation cstring := (list ascii).

#[export] Instance ascii_eq_dec_inst : EqDecision ascii := ascii_dec.

Definition lit (s : string) : cstring := String.list_ascii_of_string s.

(** The value of a [char], which is signed. *)
Definition char_val (c : ascii) : Z :=
  let z := Z.of_nat (nat_of_ascii c) in if (z <? 128)%Z then z else (z - 256)%Z.

Definition in_range_char (lo hi : Z) (c : ascii) : bool :=
  ((lo <=? char_val c) && (char_val c <=? hi))%Z.

(** [isdigit], [isxdigit] and [isalnum] of the C locale. *)
Definition isdigit (c : ascii) : bool := in_range_char 48 57 c.
Definition isxdigit (c : ascii) : bool :=
  isdigit c || in_range_char 65 70 c || in_range_char 97 102 c.
Definition isalnum (c : ascii) : bool :=
  isdigit c || in_range_char 65 90 c || in_range_char 97 122 c.

Definition dquote : ascii := "034"%char.
Definition bslash : ascii := "092"%char.
Definition newline : ascii := "010"%char.
Definition creturn : ascii := "013"%char.

(** ** Symbols *)

(** [void *val] of [struct symbol_value]: null, a string or a symbol. *)
Inductive sval := V_null | V_str (s : cstring) | V_sym (p : symp).

#[export] Instance sval_eq_dec : EqDecision sval.
Proof. solve_decision. Defined.

Record symbol_value := mkVal { val : sval; tri : tristate }.

#[export] Instance symbol_value_eq_dec : EqDecision symbol_value.
Proof. solve_decision. Defined.

Record expr_value := mkEV { ev_expr : option expr; ev_tri : tristate }.

Inductive prop_type :=
  P_UNKNOWN | P_PROMPT | P_COMMENT | P_MENU | P_DEFAULT | P_CHOICE | P_SELECT | P_RANGE | P_ENV
  | P_SYMBOL.

#[export] Instance prop_type_eq_dec : EqDecision prop_type.
Proof. solve_decision. Defined.

(** [struct property]; the members that only locate it in a file are left
    out. *)
Record property := mkProp {
  p_type : prop_type;
  p_text : option cstring;
  p_visible : expr_value;
  p_expr : option expr;
  p_menu : option positive;
}.

Record symbol := mkSym {
  name : option cstring;
  type : symbol_type;
  curr : symbol_value;
  def : list symbol_value;
  visible : tristate;
  flags : Z;
  props : list property;
  dir_dep : expr_value;
  rev_dep : expr_value;
}.

Definition SYMBOL_CONST : Z := 0x1.
Definition SYMBOL_CHOICE : Z := 0x10.
Definition SYMBOL_CHOICEVAL : Z := 0x20.
Definition SYMBOL_VALID : Z := 0x80.
Definition SYMBOL_OPTIONAL : Z := 0x100.
Definition SYMBOL_WRITE : Z := 0x200.
Definition SYMBOL_CHANGED : Z := 0x400.
Definition SYMBOL_AUTO : Z := 0x1000.
Definition SYMBOL_DEF : Z := 0x10000.
Definition SYMBOL_DEF_USER : Z := 0x10000.
Definition SYMBOL_NEED_SET_CHOICE_VALUES : Z := 0x100000.
Definition SYMBOL_HASHSIZE : Z := 9973.

(** The indices of [def]. *)
Definition S_DEF_USER : nat := 0.
Definition S_DEF_AUTO : nat := 1.
Definition S_DEF_COUNT : nat := 4.

(** [sym->flags & f]. *)
Definition has_flag (f : Z) (s : symbol) : bool := negb (Z.land (flags s) f =? 0)%Z.

Definition set_flags (f : Z) (s : symbol) : symbol :=
  mkSym (name s) (type s) (curr s) (def s) (visible s) f (props s) (dir_dep s) (rev_dep s).
Definition add_flag (f : Z) (s : symbol) : symbol := set_flags (Z.lor (flags s) f) s.
Definition clear_flag (f : Z) (s : symbol) : symbol := set_flags (Z.ldiff (flags s) f) s.
Definition set_type (t : symbol_type) (s : symbol) : symbol :=
  mkSym (name s) t (curr s) (def s) (visible s) (flags s) (props s) (dir_dep s) (rev_dep s).
Definition set_def (d : nat) (v : symbol_value) (s : symbol) : symbol :=
  mkSym (name s) (type s) (curr s) (<[d := v]> (def s)) (visible s) (flags s) (props s)
    (dir_dep s) (rev_dep s).
Definition get_def (d : nat) (s : symbol) : symbol_value :=
  default (mkVal V_null tri_no) (def s !! d).

Definition sym_is_choice : symbol → bool := has_flag SYMBOL_CHOICE.
Definition sym_is_choice_value : symbol → bool := has_flag SYMBOL_CHOICEVAL.
Definition sym_is_optional : symbol → bool := has_flag SYMBOL_OPTIONAL.
Definition sym_has_value : symbol → bool := has_flag SYMBOL_DEF_USER.

(** The cleared memory of a new symbol, and the fields that [sym_lookup]
    sets. *)
Definition new_symbol (nm : option cstring) (fl : Z) : symbol :=
  mkSym nm S_UNKNOWN (mkVal V_null tri_no) (replicate S_DEF_COUNT (mkVal V_null tri_no)) tri_no fl
    [] (mkEV None tri_no) (mkEV None tri_no).

Definition const_symbol (nm : string) (t : tristate) (fl : Z) : symbol :=
  mkSym (Some (lit nm)) S_UNKNOWN (mkVal (V_str (lit nm)) t)
    (replicate S_DEF_COUNT (mkVal V_null tri_no)) tri_no fl [] (mkEV None tri_no) (mkEV None tri_no).

(** ** The table *)

(** The symbols, and [symbol_hash]: the chains, the newest symbol first. *)
Record symtab := mkTab {
  syms : gmap symp symbol;
  symbol_hash : gmap Z (list symp);
  next_sym : positive;
}.

(** The four static symbols. *)
Definition empty_tab : symtab :=
  mkTab (list_to_map
    [(symbol_yes, const_symbol "y" tri_yes (Z.lor SYMBOL_CONST SYMBOL_VALID));
     (symbol_mod, const_symbol "m" tri_mod (Z.lor SYMBOL_CONST SYMBOL_VALID));
     (symbol_no, const_symbol "n" tri_no (Z.lor SYMBOL_CONST SYMBOL_VALID));
     (symbol_empty, const_symbol "" tri_no SYMBOL_VALID)]) ∅ 1.

Definition sym (st : symtab) (p : symp) : symbol := default (new_symbol None 0) (syms st !! p).

Definition upd (p : symp) (f : symbol → symbol) (st : symtab) : symtab :=
  mkTab (alter f p (syms st)) (symbol_hash st) (next_sym st).

Definition chain (st : symtab) (h : Z) : list symp := default [] (symbol_hash st !! h).

(** The FNV hash. *)
Definition strhash (s : cstring) : Z :=
  foldl (λ hash c, u32 (Z.lxor hash (u32 (char_val c)) * 0x01000193)) 2166136261%Z s.

Definition bucket (nm : cstring) : Z := (strhash nm mod SYMBOL_HASHSIZE)%Z.

(** The names of the constant symbols. *)
Definition static_symbol (nm : cstring) : option symp :=
  match nm with
  | [c] => if decide (c = "y"%char) then Some symbol_yes
           else if decide (c = "m"%char) then Some symbol_mod
           else if decide (c = "n"%char) then Some symbol_no else None
  | _ => None
  end.

(** The test of [sym_lookup] on a symbol of the chain. *)
Definition lookup_match (st : symtab) (nm : cstring) (fl : Z) (p : symp) : bool :=
  bool_decide (name (sym st p) = Some nm) &&
  (if (fl =? 0)%Z then negb (has_flag (Z.lor SYMBOL_CONST SYMBOL_CHOICE) (sym st p))
   else has_flag fl (sym st p)).

Definition new_sym (nm : option cstring) (hash : Z) (fl : Z) (st : symtab) : symp * symtab :=
  let p := sym_at (next_sym st) in
  (p, mkTab (<[p := new_symbol nm fl]> (syms st))
        (<[hash := p :: chain st hash]> (symbol_hash st)) (Pos.succ (next_sym st))).

Definition sym_lookup (nm : option cstring) (fl : Z) (st : symtab) : symp * symtab :=
  match nm with
  | None => new_sym None 0 fl st
  | Some n =>
      match static_symbol n with
      | Some p => (p, st)
      | None =>
          match filter (λ p, lookup_match st n fl p = true) (chain st (bucket n)) with
          | p :: _ => (p, st)
          | [] => new_sym nm (bucket n) fl st
          end
      end
  end.

Definition find_match (st : symtab) (nm : cstring) (p : symp) : bool :=
  bool_decide (name (sym st p) = Some nm) && negb (has_flag SYMBOL_CONST (sym st p)).

Definition sym_find (nm : option cstring) (st : symtab) : option symp :=
  n ← nm;
  match static_symbol n with
  | Some p => Some p
  | None => head (filter (λ p, find_match st n p = true) (chain st (bucket n)))
  end.

(** ** Values as text *)

Fixpoint all_chars (f : ascii → bool) (s : cstring) : bool :=
  match s with [] => true | c :: s => f c && all_chars f s end.

(** [sym_string_valid]; [str[1]] of an empty string is not read. *)
Definition sym_string_valid (t : symbol_type) (str : cstring) : bool :=
  match t with
  | S_STRING => true
  | S_INT =>
      let str := match str with c :: s => if decide (c = "-"%char) then s else str | [] => [] end in
      match str with
      | [] => false
      | ch :: str =>
          if negb (isdigit ch) then false
          else if bool_decide (ch = "0"%char) && bool_decide (str ≠ []) then false
          else all_chars isdigit str
      end
  | S_HEX =>
      let str := match str with
                 | c :: x :: s =>
                     if bool_decide (c = "0"%char) &&
                        (bool_decide (x = "x"%char) || bool_decide (x = "X"%char)) then s else str
                 | _ => str
                 end in
      match str with [] => false | _ => all_chars isxdigit str end
  | S_BOOLEAN | S_TRISTATE =>
      match str with
      | c :: _ => bool_decide (c ∈ [ "y"; "Y"; "m"; "M"; "n"; "N" ]%char)
      | [] => false
      end
  | _ => false
  end.

(** [sym_escape_string_value]: the length computed first, and the text. *)
Definition is_special (c : ascii) : bool := bool_decide (c = dquote) || bool_decide (c = bslash).

Definition escape_reslen (s : cstring) : nat :=
  length s + 2 + 1 + length (filter (λ c, is_special c = true) s).

Fixpoint escape_chars (s : cstring) : cstring :=
  match s with
  | [] => []
  | c :: s => if is_special c then bslash :: c :: escape_chars s else c :: escape_chars s
  end.

Definition sym_escape_string_value (s : cstring) : cstring :=
  [dquote] ++ escape_chars s ++ [dquote].

(** ** Lemmas: flags and updates *)

Lemma has_flag_add f g s : Z.land f g = 0%Z → has_flag f (add_flag g s) = has_flag f s.
Proof.
  intros H. unfold has_flag. simpl. f_equal. f_equal.
  rewrite Z.land_lor_distr_l, (Z.land_comm g), H. apply Z.lor_0_r.
Qed.

Lemma has_flag_clear f g s : Z.land f g = 0%Z → has_flag f (clear_flag g s) = has_flag f s.
Proof.
  intros H. unfold has_flag. simpl. f_equal. f_equal. apply Z.bits_inj'. intros n _.
  rewrite !Z.land_spec, Z.ldiff_spec. apply (f_equal (λ z, Z.testbit z n)) in H.
  rewrite Z.land_spec, Z.bits_0 in H.
  destruct (Z.testbit (flags s) n), (Z.testbit f n), (Z.testbit g n); done.
Qed.

Lemma has_flag_clear_sub f g s : Z.land f g = f → has_flag f (clear_flag g s) = false.
Proof.
  intros H. unfold has_flag. simpl. apply negb_false_iff, Z.eqb_eq, Z.bits_inj'. intros n _.
  rewrite Z.land_spec, Z.ldiff_spec, Z.bits_0. apply (f_equal (λ z, Z.testbit z n)) in H.
  rewrite Z.land_spec in H.
  destruct (Z.testbit (flags s) n), (Z.testbit f n), (Z.testbit g n); done.
Qed.

Lemma has_flag_mono f g s : has_flag f s = true → has_flag f (add_flag g s) = true.
Proof.
  unfold has_flag. rewrite !negb_true_iff, !Z.eqb_neq. simpl. intros H E. apply H.
  apply Z.bits_inj'. intros n _. apply (f_equal (λ z, Z.testbit z n)) in E.
  rewrite Z.land_spec, Z.lor_spec, Z.bits_0 in E. rewrite Z.land_spec, Z.bits_0.
  destruct (Z.testbit (flags s) n), (Z.testbit f n), (Z.testbit g n); done.
Qed.

Lemma has_flag_add_self f s : f ≠ 0%Z → has_flag f (add_flag f s) = true.
Proof.
  intros Hf. unfold has_flag. simpl. apply negb_true_iff, Z.eqb_neq. intros E. apply Hf.
  apply Z.bits_inj'. intros n _. apply (f_equal (λ z, Z.testbit z n)) in E.
  rewrite Z.land_spec, Z.lor_spec, Z.bits_0 in E. rewrite Z.bits_0.
  destruct (Z.testbit (flags s) n), (Z.testbit f n); done.
Qed.

Lemma sym_Some st p s : syms st !! p = Some s → sym st p = s.
Proof. unfold sym. by intros ->. Qed.

Lemma upd_lookup p f st : syms (upd p f st) !! p = f <$> syms st !! p.
Proof. apply lookup_alter_eq. Qed.

Lemma upd_lookup_ne p q f st : p ≠ q → syms (upd p f st) !! q = syms st !! q.
Proof. apply lookup_alter_ne. Qed.

Lemma upd_sym p f st : is_Some (syms st !! p) → sym (upd p f st) p = f (sym st p).
Proof. intros [s Hs]. unfold sym. by rewrite upd_lookup, Hs. Qed.

Lemma upd_sym_ne p q f st : p ≠ q → sym (upd p f st) q = sym st q.
Proof. intros H. unfold sym. by rewrite upd_lookup_ne. Qed.
