(* ===== verification/KconfigConf.v ===== *)
(** * Kconfig configuration files: reading and writing

    Translation of the part of [support/kconfig/confdata.c] that prints a
    symbol as a line of [.config], [autoconf.h] or [tristate.conf], and of the
    reader of [.config]. The file is a list of characters; the prefix
    [CONFIG_], which comes from the environment or from the build (it is empty
    in Buildroot), is a parameter. *)

From stdpp Require Import base option list strings gmap.
From Stdlib Require Import ZArith Lia Ascii.
From S2P Require Import Prelude KconfigExpr KconfigSymtab.
Local Open Scope nat_scope.

(** ** Scanning *)

(** [strchr]: what is before and after the first [c]. *)
Fixpoint split_at (c : ascii) (s : cstring) : option (cstring * cstring) :=
  match s with
  | [] => None
  | x :: s =>
      if decide (x = c) then Some ([], s)
      else '(a, b) ← split_at c s; Some (x :: a, b)
  end.

(** A comparison of the first bytes ([memcmp] with a constant, [strncmp]). *)
Fixpoint starts_with (pre s : cstring) : bool :=
  match pre, s with
  | [], _ => true
  | p :: pre, x :: s => bool_decide (p = x) && starts_with pre s
  | _ :: _, [] => false
  end.

(** The loop of [conf_set_sym_val] that removes the backslashes of a quoted
    string and stops at the closing quote; [None] when there is none. A
    backslash at the very end of the string is overwritten by the NUL, and
    [strpbrk] goes on at the old NUL. *)
Fixpoint unescape (s : cstring) : option cstring :=
  match s with
  | [] => None
  | c :: r =>
      if decide (c = dquote) then Some []
      else if decide (c = bslash) then
        match r with [] => None | d :: r' => t ← unescape r'; Some (d :: t) end
      else t ← unescape r; Some (c :: t)
  end.

(** One line with its newline; [None] at the end of the stream. The line grows
    as needed ([add_byte]); [realloc] succeeds. *)
Fixpoint getline_loop (acc : cstring) (stream : list ascii) : option (cstring * list ascii) :=
  match stream with
  | [] => match acc with [] => None | _ => Some (reverse acc, []) end
  | c :: r => if decide (c = newline) then Some (reverse (c :: acc), r)
              else getline_loop (c :: acc) r
  end.

Definition compat_getline (stream : list ascii) : option (cstring * list ascii) :=
  getline_loop [] stream.

(** ** State of the reader *)

(** The symbols, [conf_warnings] and [sym_change_count]. *)
Record conf_state := mkConf { tab : symtab; conf_warnings : nat; change_count : nat }.

Definition on_tab (f : symtab → symtab) (st : conf_state) : conf_state :=
  mkConf (f (tab st)) (conf_warnings st) (change_count st).
Definition conf_warning (st : conf_state) : conf_state :=
  mkConf (tab st) (S (conf_warnings st)) (change_count st).
Definition sym_add_change_count (n : nat) (st : conf_state) : conf_state :=
  mkConf (tab st) (conf_warnings st) (n + change_count st).

(** [if (def != S_DEF_AUTO) conf_warning(...)]. *)
Definition warn_unless_auto (d : nat) (st : conf_state) : conf_state :=
  if d =? S_DEF_AUTO then st else conf_warning st.

Definition def_flags (d : nat) : Z := Z.shiftl SYMBOL_DEF (Z.of_nat d).

Definition set_def_tri (d : nat) (t : tristate) (s : symbol) : symbol :=
  set_def d (mkVal (val (get_def d s)) t) s.
Definition set_def_val (d : nat) (v : sval) (s : symbol) : symbol :=
  set_def d (mkVal v (tri (get_def d s))) s.

(** The result and the state; a result other than 0 is [true]. *)
Definition assign_tri (p : symp) (d : nat) (t : tristate) (st : conf_state) : bool * conf_state :=
  (false, on_tab (upd p (λ s, add_flag (def_flags d) (set_def_tri d t s))) st).

(** The label [done] of [conf_set_sym_val]. *)
Definition assign_str (p : symp) (d : nat) (v : cstring) (st : conf_state) : bool * conf_state :=
  if sym_string_valid (type (sym (tab st) p)) v then
    (false, on_tab (upd p (λ s, add_flag (def_flags d) (set_def_val d (V_str v) s))) st)
  else (true, warn_unless_auto d st).

(** A quoted string, from the case [S_STRING] on. *)
Definition assign_quoted (p : symp) (d : nat) (v : cstring) (st : conf_state) : bool * conf_state :=
  match v with
  | c :: v =>
      if decide (c = dquote) then
        match unescape v with
        | Some v => assign_str p d v st
        | None => (true, warn_unless_auto d st)
        end
      else (false, st)
  | [] => (false, st)
  end.

Definition conf_set_sym_val (p : symp) (d : nat) (v : cstring) (st : conf_state) : bool * conf_state :=
  let c := head v in
  let boolean st :=
    if decide (c = Some "y"%char) then assign_tri p d tri_yes st
    else if decide (c = Some "n"%char) then assign_tri p d tri_no st
    else (true, warn_unless_auto d st) in
  match type (sym (tab st) p) with
  | S_TRISTATE => if decide (c = Some "m"%char) then assign_tri p d tri_mod st else boolean st
  | S_BOOLEAN => boolean st
  | S_OTHER =>
      if decide (c = Some dquote) then assign_quoted p d v st
      else assign_str p d v (on_tab (upd p (set_type S_STRING)) st)
  | S_STRING => assign_quoted p d v st
  | S_INT | S_HEX => assign_str p d v st
  | S_UNKNOWN => (false, st)
  end.

(** [prop_get_symbol] on a property with one symbol. The C code also lets a list
    through, whose first member is no symbol; no caller has one. *)
Definition prop_get_symbol (pr : property) : option symp :=
  match p_expr pr with Some (E_SYMBOL s) => Some s | _ => None end.

Definition sym_get_choice_prop (s : symbol) : option property :=
  head (filter (λ pr, p_type pr = P_CHOICE) (props s)).

(** The label [setsym]: a choice value tells its choice. [menu_finalize] gives
    every choice value its choice property, so that there is a choice. *)
Definition setsym (p : option symp) (d : nat) (st : conf_state) : conf_state :=
  match p with
  | None => st
  | Some p =>
      let s := sym (tab st) p in
      if sym_is_choice_value s then
        match sym_get_choice_prop s ≫= prop_get_symbol with
        | None => st
        | Some cs =>
            let t := tri (get_def d s) in
            let ct := tri (get_def d (sym (tab st) cs)) in
            let st :=
              match t with
              | tri_no => st
              | tri_mod =>
                  if decide (ct = tri_yes) then
                    on_tab (upd cs (clear_flag (def_flags d))) (conf_warning st)
                  else st
              | tri_yes =>
                  let st := if decide (ct = tri_no) then st else conf_warning st in
                  on_tab (upd cs (set_def_val d (V_sym p))) st
              end in
            on_tab (upd cs (λ c, set_def_tri d (EXPR_OR (tri (get_def d c)) t) c)) st
        end
      else st
  end.

(** ** Reading *)

Section Reader.
Context (CONFIG_ : cstring).

Definition is_not_set : cstring := lit "is not set".

(** The warning about a symbol that already has a value. *)
Definition warn_override (p : symp) (d : nat) (st : conf_state) : conf_state :=
  if has_flag (def_flags d) (sym (tab st) p) then conf_warning st else st.

(** [sym_find], or [sym_lookup] with a type for a new symbol. *)
Definition conf_symbol (nm : cstring) (d : nat) (newtype : symbol_type) (st : conf_state)
  : option symp * conf_state :=
  if d =? S_DEF_USER then
    match sym_find (Some nm) (tab st) with
    | Some p => (Some p, st)
    | None => (None, sym_add_change_count 1 st)
    end
  else
    let '(p, t) := sym_lookup (Some nm) 0 (tab st) in
    let st := mkConf t (conf_warnings st) (change_count st) in
    (Some p, if decide (type (sym t p) = S_UNKNOWN) then on_tab (upd p (set_type newtype)) st
             else st).

(** A line "# NAME is not set"; [l] is the line without its first two
    characters. (The code also skips two characters of a line that is a lone
    "#" at the end of a file, and looks at what an earlier line left there.) *)
Definition read_unset (d : nat) (l : cstring) (st : conf_state) : conf_state :=
  if starts_with CONFIG_ l then
    match split_at " "%char (drop (length CONFIG_) l) with
    | None => st
    | Some (nm, p) =>
        if starts_with is_not_set p then
          let '(s, st) := conf_symbol nm d S_BOOLEAN st in
          match s with
          | None => setsym None d st
          | Some p =>
              let st := warn_override p d st in
              let st :=
                match type (sym (tab st) p) with
                | S_BOOLEAN | S_TRISTATE => (assign_tri p d tri_no st).2
                | _ => st
                end in
              setsym (Some p) d st
          end
        else st
    end
  else st.

(** The value of a line, up to the newline and without a carriage return
    before it. *)
Definition trim_value (p : cstring) : cstring :=
  match split_at newline p with
  | Some (v, _) => if decide (last v = Some creturn) then removelast v else v
  | None => p
  end.

(** A line "NAME=value". *)
Definition read_set (d : nat) (l : cstring) (st : conf_state) : conf_state :=
  match split_at "="%char (drop (length CONFIG_) l) with
  | None => st
  | Some (nm, p) =>
      let v := trim_value p in
      let '(s, st) := conf_symbol nm d S_OTHER st in
      match s with
      | None => setsym None d st
      | Some p =>
          let st := warn_override p d st in
          let '(failed, st) := conf_set_sym_val p d v st in
          if failed : bool then st else setsym (Some p) d st
      end
  end.

(** The body of the loop of [conf_read_simple]. *)
Definition conf_read_line (d : nat) (line : cstring) (st : conf_state) : conf_state :=
  if bool_decide (head line = Some "#"%char) then read_unset d (drop 2 line) st
  else if starts_with CONFIG_ line then read_set d line st
  else if bool_decide (head line = Some creturn) || bool_decide (head line = Some newline) then st
  else conf_warning st.

Fixpoint conf_read_lines (k d : nat) (stream : list ascii) (st : conf_state) : option conf_state :=
  match k with
  | O => None
  | S k =>
      match compat_getline stream with
      | None => Some st
      | Some (line, stream) => conf_read_lines k d stream (conf_read_line d line st)
      end
  end.

(** The loop over the symbols before a file is read. [for_all_symbols] visits
    the symbols of the chains; the static ones are not in them. *)
Definition reset_symbol (d : nat) (s : symbol) : symbol :=
  if decide (type s = S_OTHER) then s
  else
    let s := add_flag SYMBOL_CHANGED s in
    let s := clear_flag (Z.lor (def_flags d) SYMBOL_VALID) s in
    let s := if sym_is_choice s then add_flag (def_flags d) s else s in
    set_def d (mkVal V_null tri_no) s.

Definition is_static (p : symp) : bool := match p with sym_at _ => false | _ => true end.

Definition reset_symbols (d : nat) (st : symtab) : symtab :=
  mkTab (map_imap (λ p s, Some (if is_static p then s else reset_symbol d s)) (syms st))
    (symbol_hash st) (next_sym st).

(** [conf_read_simple] from the label [load] to the end of the file; the
    calculation of [modules_sym] that follows is a call of the other
    component. *)
Definition conf_read_simple (d : nat) (stream : list ascii) (st : conf_state) : option conf_state :=
  conf_read_lines (S (length stream)) d stream
    (mkConf (reset_symbols d (tab st)) 0 (change_count st)).

(** ** Printing *)

Definition kconfig_print_symbol (t : symbol_type) (nm value : cstring) (skip_unset : bool) : cstring :=
  let line := CONFIG_ ++ nm ++ lit "=" ++ value ++ [newline] in
  match t with
  | S_BOOLEAN | S_TRISTATE =>
      if decide (head value = Some "n"%char) then
        if skip_unset then []
        else lit "# " ++ CONFIG_ ++ nm ++ lit " is not set" ++ [newline]
      else line
  | _ => line
  end.

(** The lines of a comment, separated by newlines in [value]. *)
Fixpoint comment_lines (cur value : cstring) : list cstring :=
  match value with
  | [] => [reverse cur]
  | c :: r => if decide (c = newline) then reverse cur :: comment_lines [] r
              else comment_lines (c :: cur) r
  end.

Definition comment_line (mark : string) (l : cstring) : cstring :=
  lit mark ++ (match l with [] => [] | _ => lit " " ++ l end) ++ [newline].

Definition kconfig_print_comment (value : cstring) : cstring :=
  concat (comment_line "#" <$> comment_lines [] value).

Definition header_print_comment (value : cstring) : cstring :=
  lit "/*" ++ [newline] ++ concat (comment_line " *" <$> comment_lines [] value) ++
  lit " */" ++ [newline].

Definition header_print_symbol (t : symbol_type) (nm value : cstring) : cstring :=
  let define suffix v := lit "#define " ++ CONFIG_ ++ nm ++ lit suffix ++ lit " " ++ v ++ [newline] in
  match t with
  | S_BOOLEAN | S_TRISTATE =>
      if decide (head value = Some "n"%char) then []
      else if decide (head value = Some "m"%char) then define "_MODULE" (lit "1")
      else define "" (lit "1")
  | S_HEX =>
      let prefixed := match value with
                      | c :: x :: _ => bool_decide (c = "0"%char) &&
                          (bool_decide (x = "x"%char) || bool_decide (x = "X"%char))
                      | _ => false
                      end in
      define "" ((if prefixed then [] else lit "0x") ++ value)
  | S_STRING | S_INT => define "" value
  | _ => []
  end.

Definition toupper (c : ascii) : ascii :=
  if in_range_char 97 122 c then ascii_of_nat (nat_of_ascii c - 32) else c.

Definition tristate_print_symbol (t : symbol_type) (nm value : cstring) : cstring :=
  match t, value with
  | S_TRISTATE, c :: _ =>
      if decide (c = "n"%char) then []
      else CONFIG_ ++ nm ++ lit "=" ++ [toupper c] ++ [newline]
  | _, _ => []
  end.

(** [conf_write_symbol] with a printer; [str] is the value that
    [sym_get_string_value] returns. *)
Definition conf_write_symbol (printer : symbol_type → cstring → cstring → cstring)
    (t : symbol_type) (nm str : cstring) : cstring :=
  match t with
  | S_OTHER | S_UNKNOWN => []
  | S_STRING => printer t nm (sym_escape_string_value str)
  | _ => printer t nm str
  end.

(** [conf_write_heading]: the text is cut to the size of its buffer. *)
Definition conf_heading (title : cstring) : cstring :=
  take 255 ([newline] ++ lit "Automatically generated file; DO NOT EDIT." ++ [newline] ++
            title ++ [newline]).

Definition conf_write_heading (title : cstring) : cstring :=
  kconfig_print_comment (conf_heading title).

End Reader.

(** ** The menus *)

(** What [conf_write] does with a menu without a symbol: a comment block with
    its prompt. *)
Definition menu_block (prompt : cstring) : cstring :=
  [newline] ++ lit "#" ++ [newline] ++ lit "# " ++ prompt ++ [newline] ++ lit "#" ++ [newline].
