(* ===== verification/KconfigConfSpec.v ===== *)
(** * Kconfig configuration files: what is written is read back

    The symbol table interns names, the escaping of strings is inverted by the
    reader and stays in its buffer, and a file written from a configuration is
    read back as that configuration. *)

From Stdlib Require Import ZArith Lia Ascii.
From stdpp Require Import base option strings gmap list.
From S2P Require Import Prelude KconfigExpr KconfigSymtab KconfigConf.
Local Open Scope nat_scope.

(** ** The symbol table *)

Record chained (st : symtab) (h : Z) (p : symp) : Prop := {
  ch_static : is_static p = false;
  ch_sym : ∃ s, syms st !! p = Some s ∧ h = match name s with Some nm => bucket nm | None => 0%Z end;
}.

Record tab_ok (st : symtab) : Prop := {
  ok_chain : ∀ h p, p ∈ chain st h → chained st h p;
  ok_nodup : ∀ h, NoDup (chain st h);
  ok_fresh : ∀ n, is_Some (syms st !! sym_at n) → (n < next_sym st)%positive;
  ok_static : ∀ nm p, static_symbol nm = Some p → name (sym st p) = Some nm;
  ok_defs : ∀ p s, syms st !! p = Some s → length (def s) = S_DEF_COUNT;
}.

Lemma static_symbol_static nm p : static_symbol nm = Some p → is_static p = true.
Proof.
  unfold static_symbol. intros H. destruct nm as [|c [|]]; try done.
  repeat case_decide; by simplify_eq.
Qed.

Lemma empty_tab_ok : tab_ok empty_tab.
Proof.
  split.
  - intros h p. unfold chain. simpl. rewrite lookup_empty. by intros ?%elem_of_nil.
  - intros h. unfold chain. simpl. rewrite lookup_empty. constructor.
  - intros n [s Hs]. simpl in Hs. repeat (rewrite lookup_insert_ne in Hs by done).
    by rewrite lookup_empty in Hs.
  - intros nm p. unfold static_symbol. destruct nm as [|c [|]]; try done.
    repeat case_decide; intros [= <-]; by subst.
  - intros p s. simpl. rewrite !lookup_insert_Some, lookup_empty. naive_solver.
Qed.

Section Insert.
Context (st : symtab) (nm : option cstring) (h : Z) (fl : Z).
Context (Hok : tab_ok st) (Hh : h = match nm with Some n => bucket n | None => 0%Z end).

Let p := sym_at (next_sym st).
Let st' := (new_sym nm h fl st).2.

Lemma fresh_absent : syms st !! p = None.
Proof.
  destruct (syms st !! p) eqn:E; [|done].
  apply mk_is_Some, (ok_fresh _ Hok) in E. lia.
Qed.

Lemma new_sym_old q s : syms st !! q = Some s → syms st' !! q = Some s.
Proof.
  intros H. simpl. rewrite lookup_insert_ne; [done|]. intros E.
  pose proof fresh_absent. unfold p in *. congruence.
Qed.

Lemma new_sym_same q : q ≠ p → sym st' q = sym st q.
Proof. intros H. unfold sym. simpl. by rewrite lookup_insert_ne. Qed.

Lemma new_sym_new : sym st' p = new_symbol nm fl.
Proof. apply sym_Some. simpl. apply lookup_insert_eq. Qed.

Lemma new_sym_chain g : chain st' g = if decide (g = h) then p :: chain st g else chain st g.
Proof.
  unfold chain. simpl. case_decide as E.
  - rewrite E. by rewrite lookup_insert_eq.
  - by rewrite lookup_insert_ne.
Qed.

Lemma chain_old g q : q ∈ chain st g → q ≠ p.
Proof.
  intros Hq ->. apply (ok_chain _ Hok) in Hq as [_ (s & Hs & _)].
  by rewrite fresh_absent in Hs.
Qed.

Lemma new_sym_ok : tab_ok st'.
Proof.
  split.
  - intros g q. rewrite new_sym_chain.
    assert (Hold : q ∈ chain st g → chained st' g q).
    { intros Hq. apply (ok_chain _ Hok) in Hq as [A (s & Hs & Hg)].
      split; [done|]. exists s. split; [by apply new_sym_old|done]. }
    case_decide as E; [|done]. intros [->|Hq]%elem_of_cons; [|by apply Hold].
    split; [done|]. exists (new_symbol nm fl). split; [apply lookup_insert_eq|by subst].
  - intros g. rewrite new_sym_chain. pose proof (ok_nodup _ Hok g).
    case_decide; [|done]. constructor; [|done]. intros Hq. by apply chain_old in Hq.
  - intros n [s Hs]. simpl in *. apply lookup_insert_Some in Hs as [[E _]|[_ Hs]].
    + injection E as <-. lia.
    + apply mk_is_Some, (ok_fresh _ Hok) in Hs. lia.
  - intros n q Hq. rewrite new_sym_same; [by apply Hok|].
    intros ->. by apply static_symbol_static in Hq.
  - intros q s Hs. simpl in Hs. apply lookup_insert_Some in Hs as [[_ <-]|[_ Hs]]; [done|].
    by apply (ok_defs _ Hok) in Hs.
Qed.

End Insert.

Lemma filter_head {A} (P : A → Prop) `{∀ x, Decision (P x)} l x r :
  filter P l = x :: r → x ∈ l ∧ P x.
Proof.
  intros E. assert (Hx : x ∈ filter P l) by (rewrite E; left).
  by apply list_elem_of_filter in Hx as [? ?].
Qed.

(** Interning: the symbol found or made is found again, the other symbols and
    the other names are not touched. *)
Record interned (st st' : symtab) (nm : cstring) (fl : Z) (p : symp) : Prop := {
  in_ok : tab_ok st';
  in_again : sym_lookup (Some nm) fl st' = (p, st');
  in_name : name (sym st' p) = Some nm;
  in_old : ∀ q s, syms st !! q = Some s → syms st' !! q = Some s;
  in_other : ∀ n, n ≠ nm → sym_find (Some n) st' = sym_find (Some n) st;
}.

Lemma find_match_ext st st' n q : sym st q = sym st' q → find_match st n q = find_match st' n q.
Proof. unfold find_match. by intros ->. Qed.

Lemma sym_find_chain st st' n :
  (∀ q, q ∈ chain st (bucket n) → sym st' q = sym st q) →
  head (filter (λ q, find_match st' n q = true) (chain st (bucket n))) =
  head (filter (λ q, find_match st n q = true) (chain st (bucket n))).
Proof.
  intros H. f_equal. induction (chain st (bucket n)) as [|q l IH]; [done|].
  rewrite !filter_cons. rewrite (find_match_ext st' st n q) by (apply H; left).
  rewrite IH; [done|]. intros r Hr. apply H. by right.
Qed.

(** C16: [sym_lookup] interns names: it keeps the invariant of the table (every
    chain holds distinct symbols of its bucket, the constant symbols have their
    names), the symbol that it returns has the name and is the one that the next
    lookup with these flags returns, without changing the table again; the
    symbols that existed are untouched, and other names are found as before. *)
Theorem sym_lookup_interns st nm fl p st' :
  tab_ok st → sym_lookup (Some nm) fl st = (p, st') → interned st st' nm fl p.
Proof.
  intros Hok. unfold sym_lookup. destruct (static_symbol nm) as [q|] eqn:Es.
  { intros [= <- <-]. split; try done.
    - unfold sym_lookup. by rewrite Es.
    - by apply Hok. }
  destruct (filter _ (chain st (bucket nm))) as [|q r] eqn:Ef.
  - intros [= <- <-].
    pose proof (new_sym_ok st (Some nm) (bucket nm) fl Hok eq_refl) as Hok'.
    pose proof (new_sym_new st (Some nm) (bucket nm) fl) as Hnew.
    split.
    + done.
    + unfold sym_lookup. rewrite Es.
      pose proof (new_sym_chain st (Some nm) (bucket nm) fl (bucket nm)) as Hc.
      rewrite decide_True in Hc by done. simpl in Hc, Hnew |- *. rewrite Hc.
      rewrite filter_cons_True; [done|]. unfold lookup_match. rewrite Hnew. simpl.
      rewrite bool_decide_true by done. simpl. unfold has_flag. simpl.
      destruct (Z.eqb_spec fl 0) as [->|Hfl]; [done|]. by rewrite Z.land_diag, (proj2 (Z.eqb_neq _ _)).
    + simpl in Hnew. by rewrite Hnew.
    + intros q s. by apply (new_sym_old st (Some nm) (bucket nm) fl).
    + intros n Hn. unfold sym_find. simpl mbind. destruct (static_symbol n) eqn:E2; [done|].
      pose proof (new_sym_chain st (Some nm) (bucket nm) fl (bucket n)) as Hc. simpl in Hc. rewrite Hc.
      assert (Hch : ∀ q, q ∈ chain st (bucket n) → sym (new_sym (Some nm) (bucket nm) fl st).2 q = sym st q).
      { intros q Hq. apply new_sym_same. by eapply chain_old. }
      case_decide.
      * rewrite filter_cons_False.
        -- by apply (sym_find_chain st (new_sym (Some nm) (bucket nm) fl st).2).
        -- unfold find_match. simpl in Hnew. rewrite Hnew. simpl.
           rewrite bool_decide_false by (intros [=]; done). done.
      * by apply (sym_find_chain st (new_sym (Some nm) (bucket nm) fl st).2).
  - intros [= <- <-]. split; try done.
    + unfold sym_lookup. by rewrite Es, Ef.
    + apply filter_head in Ef as [_ Hm]. unfold lookup_match in Hm.
      apply andb_true_iff in Hm as [Hm _]. by apply bool_decide_eq_true in Hm.
Qed.

(** ** Text *)

(** Writing a string and reading it back. *)

(** The reader's loop gives back the string that was escaped, whatever its
    characters. *)
Lemma unescape_escape_chars s r : unescape (escape_chars s ++ dquote :: r) = Some s.
Proof.
  induction s as [|c s IH]; [done|]. simpl. unfold is_special.
  case_bool_decide; simpl; [by rewrite IH|case_bool_decide; simpl; [by rewrite IH|]].
  by rewrite !decide_False, IH.
Qed.

(** The length that [sym_escape_string_value] computes for its buffer is that
    of the text and its NUL. *)
Lemma sym_escape_string_value_length s : length (sym_escape_string_value s) + 1 = escape_reslen s.
Proof.
  unfold sym_escape_string_value, escape_reslen.
  enough (length (escape_chars s) = length s + length (filter (λ c, is_special c = true) s)).
  { simpl. rewrite length_app. simpl. lia. }
  induction s as [|c s IH]; [done|]. simpl. rewrite filter_cons.
  destruct (is_special c) eqn:E; simpl.
  all: lia.
Qed.

Lemma split_at_app c a b : c ∉ a → split_at c (a ++ c :: b) = Some (a, b).
Proof.
  induction a as [|x a IH]; simpl; intros H.
  - by rewrite decide_True.
  - apply not_elem_of_cons in H as [? ?]. by rewrite decide_False, IH.
Qed.

Lemma split_at_None c s : c ∉ s → split_at c s = None.
Proof.
  induction s as [|x s IH]; simpl; intros H; [done|].
  apply not_elem_of_cons in H as [? ?]. by rewrite decide_False, IH.
Qed.

Lemma starts_with_app pre s : starts_with pre (pre ++ s) = true.
Proof. induction pre as [|p pre IH]; [by destruct s|]. simpl. by rewrite bool_decide_true. Qed.

Lemma getline_loop_app acc l rest :
  newline ∉ l → getline_loop acc (l ++ newline :: rest) = Some (reverse acc ++ l ++ [newline], rest).
Proof.
  revert acc. induction l as [|c l IH]; intros acc H; simpl.
  - by rewrite reverse_cons.
  - apply not_elem_of_cons in H as [? ?].
    rewrite decide_False, IH by done. by rewrite reverse_cons, <-app_assoc.
Qed.

(** A line is what stands before a newline, and the newline. *)
Definition is_line (l : cstring) : Prop := ∃ b, l = b ++ [newline] ∧ newline ∉ b.

Lemma compat_getline_line l rest : is_line l → compat_getline (l ++ rest) = Some (l, rest).
Proof.
  intros (b & -> & Hb). unfold compat_getline. rewrite <-app_assoc. simpl.
  by rewrite getline_loop_app.
Qed.

(** The loop of the reader on a file of whole lines. *)
Lemma conf_read_lines_concat CONFIG_ d ls k st :
  Forall is_line ls → length ls < k →
  conf_read_lines CONFIG_ k d (concat ls) st =
    Some (foldl (λ st l, conf_read_line CONFIG_ d l st) st ls).
Proof.
  intros H. revert k st. induction H as [|l ls Hl H IH]; intros [|k] st Hk; simpl in *; try lia; [done|].
  rewrite compat_getline_line by done. apply IH. lia.
Qed.

(** The characters of names and of numbers. *)
Definition plain (c : ascii) : bool := isalnum c || bool_decide (c = "_"%char) || bool_decide (c = "-"%char).

Lemma plain_neq c x : plain c = true → plain x = false → c ≠ x.
Proof. congruence. Qed.

Lemma plain_not_in s x : all_chars plain s = true → plain x = false → x ∉ s.
Proof.
  intros H Hx. induction s as [|c s IH]; simpl in *; [by apply not_elem_of_nil|].
  apply andb_true_iff in H as [Hc Hs]. apply not_elem_of_cons. split; [congruence|auto].
Qed.

Lemma all_chars_impl (f g : ascii → bool) s :
  (∀ c, f c = true → g c = true) → all_chars f s = true → all_chars g s = true.
Proof.
  intros H. induction s as [|c s IH]; [done|]. simpl. rewrite !andb_true_iff. naive_solver.
Qed.

Lemma isdigit_plain c : isdigit c = true → plain c = true.
Proof. unfold plain, isalnum. by intros ->. Qed.

Lemma isxdigit_plain c : isxdigit c = true → plain c = true.
Proof.
  unfold plain, isalnum, isxdigit, isdigit, in_range_char.
  rewrite !orb_true_iff, !andb_true_iff, !Z.leb_le. lia.
Qed.

Lemma sym_string_valid_plain t s :
  t = S_INT ∨ t = S_HEX → sym_string_valid t s = true → all_chars plain s = true ∧ s ≠ [].
Proof.
  intros [-> | ->]; simpl.
  - destruct s as [|c s]; [done|]. intros H. split; [|done].
    case_decide as E; [destruct s as [|c' s]; [done|]|].
    all: match type of H with context [negb (isdigit ?c)] => destruct (isdigit c) eqn:Ed; [|done] end.
    all: simpl in H; match type of H with context [if ?b then _ else _] => destruct b; [done|] end.
    + subst c. simpl. by rewrite (isdigit_plain c'), (all_chars_impl _ _ _ isdigit_plain).
    + simpl. by rewrite (isdigit_plain c), (all_chars_impl _ _ _ isdigit_plain).
  - destruct s as [|c [|x s]]; [done| |].
    + intros H. split; [|done]. by apply (all_chars_impl _ _ _ isxdigit_plain).
    + case_bool_decide as E; simpl.
      2: { intros H. split; [|done]. by apply (all_chars_impl _ _ (c :: x :: s) isxdigit_plain). }
      destruct (_ || _) eqn:E2; simpl.
      * intros H. split; [|done]. subst c. destruct s; [done|].
        apply orb_true_iff in E2 as [->%bool_decide_eq_true | ->%bool_decide_eq_true];
          by apply (all_chars_impl _ _ _ isxdigit_plain) in H.
      * intros H. split; [|done]. by apply (all_chars_impl _ _ (c :: x :: s) isxdigit_plain).
Qed.

(** ** Identity of symbols *)

(** What [sym_find] looks at. *)
Definition same_ident (s s' : symbol) : Prop :=
  name s = name s' ∧ has_flag SYMBOL_CONST s = has_flag SYMBOL_CONST s'.

Lemma sym_find_same st st' n :
  symbol_hash st = symbol_hash st' → (∀ q, same_ident (sym st q) (sym st' q)) →
  sym_find n st = sym_find n st'.
Proof.
  intros Hh Hs. unfold sym_find. destruct n as [n|]; [|done]. simpl.
  destruct (static_symbol n); [done|]. unfold chain. rewrite Hh. f_equal.
  apply list_filter_iff. intros q. unfold find_match. destruct (Hs q) as [-> ->]. done.
Qed.

Lemma sym_find_upd p f st n :
  (∀ s, same_ident (f s) s) → sym_find n (upd p f st) = sym_find n st.
Proof.
  intros H. apply sym_find_same; [done|]. intros q. unfold sym. destruct (decide (p = q)) as [<-|Hq].
  - rewrite upd_lookup. destruct (syms st !! p); simpl; [apply H|by split].
  - rewrite upd_lookup_ne by done. by split.
Qed.

(** ** One line *)

Section RoundTrip.
Context (CONFIG_ : cstring).
Context (Cnl : newline ∉ CONFIG_) (Chash : head CONFIG_ ≠ Some "#"%char).

Definition printer : symbol_type → cstring → cstring → cstring :=
  λ t n v, kconfig_print_symbol CONFIG_ t n v false.

Definition tri_of (v : cstring) : tristate :=
  if decide (v = lit "y") then tri_yes else if decide (v = lit "m") then tri_mod else tri_no.

(** The values that a symbol of a type is written with. *)
Definition good_value (t : symbol_type) (v : cstring) : Prop :=
  match t with
  | S_BOOLEAN => v = lit "y" ∨ v = lit "n"
  | S_TRISTATE => v = lit "y" ∨ v = lit "m" ∨ v = lit "n"
  | S_INT | S_HEX => sym_string_valid t v = true
  | S_STRING => newline ∉ v
  | _ => False
  end.

#[export] Instance good_value_dec t v : Decision (good_value t v).
Proof. destruct t; simpl; apply _. Defined.

(** The value as [conf_set_sym_val] leaves it in the symbol. *)
Definition stored (d : nat) (v : cstring) (s : symbol) : symbol :=
  add_flag (def_flags d)
    (match type s with
     | S_BOOLEAN | S_TRISTATE => set_def_tri d (tri_of v) s
     | _ => set_def_val d (V_str v) s
     end).

(** A symbol that a configuration file can hold: it is found by its name, which
    is a word, and it is neither a choice nor a value of one. *)
Record writable (st : symtab) (p : symp) (nm : cstring) : Prop := {
  w_find : sym_find (Some nm) st = Some p;
  w_mem : is_Some (syms st !! p);
  w_static : is_static p = false;
  w_chars : all_chars plain nm = true;
  w_nonempty : nm ≠ [];
  w_choice : sym_is_choice (sym st p) = false;
  w_choiceval : sym_is_choice_value (sym st p) = false;
}.

Definition symbol_line (t : symbol_type) (nm v : cstring) : cstring :=
  conf_write_symbol printer t nm v.

Lemma stored_same_ident d v s : def_flags d = SYMBOL_DEF_USER → same_ident (stored d v s) s.
Proof.
  intros Hd. unfold stored. rewrite Hd. split; [by destruct (type s)|].
  rewrite has_flag_add by done. by destruct (type s).
Qed.

Lemma no_newline_plain nm : all_chars plain nm = true → newline ∉ nm.
Proof. intros H. by apply plain_not_in. Qed.

Lemma newline_escape v : newline ∉ v → newline ∉ escape_chars v.
Proof.
  induction v as [|c v IH]; [done|]. intros [Hc Hv]%not_elem_of_cons. simpl.
  destruct (is_special c); rewrite !not_elem_of_cons; auto.
Qed.

(** The value as it stands in the line. *)
Definition value_text (t : symbol_type) (v : cstring) : cstring :=
  match t with S_STRING => sym_escape_string_value v | _ => v end.

Lemma value_text_clean t v : good_value t v → newline ∉ value_text t v ∧ last (value_text t v) ≠ Some creturn.
Proof.
  destruct t; simpl; intros Hv; try done.
  - destruct Hv as [-> | ->]; split; (apply plain_not_in; reflexivity) || done.
  - destruct Hv as [-> | [-> | ->]]; split; (apply plain_not_in; reflexivity) || done.
  - apply (sym_string_valid_plain S_INT) in Hv as [Hp _]; [|auto]. split; [by apply plain_not_in|].
    intros Hl%last_Some_elem_of. by apply (plain_not_in _ _ Hp) in Hl.
  - apply (sym_string_valid_plain S_HEX) in Hv as [Hp _]; [|auto]. split; [by apply plain_not_in|].
    intros Hl%last_Some_elem_of. by apply (plain_not_in _ _ Hp) in Hl.
  - split.
    + unfold sym_escape_string_value. rewrite !not_elem_of_app. split_and!; [by apply not_elem_of_cons; split; [|apply not_elem_of_nil]| by apply newline_escape|by apply not_elem_of_cons; split; [|apply not_elem_of_nil]].
    + unfold sym_escape_string_value. by rewrite app_assoc, last_snoc.
Qed.

(** Every symbol is one of the two kinds of lines. *)
Lemma symbol_line_cases t nm v :
  good_value t v →
  (symbol_line t nm v = lit "# " ++ CONFIG_ ++ nm ++ lit " is not set" ++ [newline] ∧
     (t = S_BOOLEAN ∨ t = S_TRISTATE) ∧ v = lit "n") ∨
  (symbol_line t nm v = CONFIG_ ++ nm ++ lit "=" ++ value_text t v ++ [newline] ∧
     ((t = S_BOOLEAN ∨ t = S_TRISTATE) → v ≠ lit "n")).
Proof.
  destruct t; simpl; intros Hv; try done.
  - destruct Hv as [-> | ->]; [right|left]; split; auto.
  - destruct Hv as [-> | [-> | ->]]; [right|right|left]; split; auto.
  - right. split; [done|]. by intros [|].
  - right. split; [done|]. by intros [|].
  - right. split; [done|]. by intros [|].
Qed.

Lemma symbol_line_is_line t nm v :
  good_value t v → all_chars plain nm = true → is_line (symbol_line t nm v).
Proof.
  intros Hv Hn. destruct (symbol_line_cases t nm v Hv) as [(-> & _)|(-> & _)].
  - exists (lit "# " ++ CONFIG_ ++ nm ++ lit " is not set"). split; [by rewrite <-!app_assoc|].
    rewrite !not_elem_of_app. split_and!; [vm_compute|done|by apply no_newline_plain|vm_compute];
      intros H; repeat (apply elem_of_cons in H as [H|H]; [done|]); by apply elem_of_nil in H.
  - exists (CONFIG_ ++ nm ++ lit "=" ++ value_text t v). split; [by rewrite <-!app_assoc|].
    rewrite !not_elem_of_app. split_and!; [done|by apply no_newline_plain| |by apply value_text_clean].
    intros H; repeat (apply elem_of_cons in H as [H|H]; [done|]); by apply elem_of_nil in H.
Qed.

Lemma alter_ext_at {A} (f g : A → A) (m : gmap symp A) p :
  (∀ s, m !! p = Some s → f s = g s) → alter f p m = alter g p m.
Proof.
  intros H. apply map_eq. intros q. destruct (decide (p = q)) as [<-|Hq].
  - rewrite !lookup_alter_eq. destruct (m !! p) eqn:E; [|done]. simpl. by rewrite H.
  - by rewrite !lookup_alter_ne.
Qed.

Lemma on_tab_ext f g p st s :
  syms (tab st) !! p = Some s → f s = g s → on_tab (upd p f) st = on_tab (upd p g) st.
Proof.
  intros Hs H. unfold on_tab, upd. rewrite (alter_ext_at f g); [done|]. congruence.
Qed.

Lemma setsym_plain p d st : sym_is_choice_value (sym (tab st) p) = false → setsym (Some p) d st = st.
Proof. intros H. unfold setsym. by rewrite H. Qed.

Lemma head_plain nm r : all_chars plain nm = true → nm ≠ [] → head (CONFIG_ ++ nm ++ r) ≠ Some "#"%char.
Proof.
  destruct CONFIG_; simpl; [|done]. destruct nm as [|c nm]; [done|]. simpl.
  rewrite andb_true_iff. intros [Hc _] _ [= ->]. done.
Qed.

(** The value of a line is stored. *)
Lemma conf_set_sym_val_good p v st s :
  syms (tab st) !! p = Some s → good_value (type s) v →
  conf_set_sym_val p S_DEF_USER (value_text (type s) v) st =
    (false, on_tab (upd p (stored S_DEF_USER v)) st).
Proof.
  intros Hs Hv. unfold conf_set_sym_val, assign_quoted, assign_tri, assign_str.
  rewrite (sym_Some _ _ _ Hs). destruct (type s) eqn:Ht; simpl in Hv; try done.
  - destruct Hv as [-> | ->]; simpl; f_equal; apply (on_tab_ext _ _ _ _ _ Hs);
      unfold stored; by rewrite Ht.
  - destruct Hv as [-> | [-> | ->]]; simpl; f_equal; apply (on_tab_ext _ _ _ _ _ Hs);
      unfold stored; by rewrite Ht.
  - unfold value_text. rewrite (Hv : sym_string_valid S_INT v = true). f_equal. apply (on_tab_ext _ _ _ _ _ Hs).
    unfold stored. by rewrite Ht.
  - unfold value_text. rewrite (Hv : sym_string_valid S_HEX v = true). f_equal. apply (on_tab_ext _ _ _ _ _ Hs).
    unfold stored. by rewrite Ht.
  - unfold value_text, sym_escape_string_value. simpl. rewrite unescape_escape_chars. simpl.
    f_equal. apply (on_tab_ext _ _ _ _ _ Hs). unfold stored. by rewrite Ht.
Qed.

Lemma conf_symbol_found nm p t st :
  sym_find (Some nm) (tab st) = Some p → conf_symbol nm S_DEF_USER t st = (Some p, st).
Proof. intros H. unfold conf_symbol. by rewrite H. Qed.

(** Reading the line of a symbol stores its value and does nothing else. *)
Lemma conf_read_symbol_line p nm v st s :
  writable (tab st) p nm → syms (tab st) !! p = Some s → good_value (type s) v →
  has_flag SYMBOL_DEF_USER s = false →
  conf_read_line CONFIG_ S_DEF_USER (symbol_line (type s) nm v) st =
    on_tab (upd p (stored S_DEF_USER v)) st.
Proof.
  intros [Hfind _ _ Hch Hne _ Hcv] Hs Hv Hdef. pose proof (sym_Some _ _ _ Hs) as Hsym.
  assert (Hsp : sym_is_choice_value (sym (upd p (stored S_DEF_USER v) (tab st)) p) = false).
  { rewrite upd_sym by eauto. rewrite Hsym in *. unfold stored, sym_is_choice_value in *.
    rewrite has_flag_add by done. by destruct (type s). }
  unfold conf_read_line.
  destruct (symbol_line_cases (type s) nm v Hv) as [(-> & Ht & ->)|(-> & Ht)].
  - rewrite bool_decide_true by done. unfold read_unset.
    change (drop 2 _) with (CONFIG_ ++ nm ++ lit " is not set" ++ [newline]).
    rewrite starts_with_app, drop_app_length.
    change (lit " is not set" ++ [newline]) with (" "%char :: (lit "is not set" ++ [newline])).
    rewrite split_at_app by (apply plain_not_in; [exact Hch|reflexivity]).
    rewrite starts_with_app. rewrite (conf_symbol_found _ _ _ _ Hfind).
    cbv zeta beta. unfold warn_override. rewrite Hsym.
    change (def_flags S_DEF_USER) with SYMBOL_DEF_USER. rewrite Hdef, Hsym.
    transitivity (setsym (Some p) S_DEF_USER (on_tab (upd p (stored S_DEF_USER (lit "n"))) st)).
    + f_equal. destruct Ht as [Ht|Ht]; rewrite Ht; simpl; apply (on_tab_ext _ _ _ _ _ Hs);
        unfold stored; by rewrite Ht.
    + by apply setsym_plain.
  - rewrite bool_decide_false by (by apply head_plain). rewrite starts_with_app.
    unfold read_set. rewrite drop_app_length.
    change (lit "=" ++ ?x) with ("="%char :: x).
    rewrite split_at_app by (apply plain_not_in; [exact Hch|reflexivity]).
    destruct (value_text_clean _ _ Hv) as [Hnl Hcr].
    unfold trim_value. rewrite split_at_app by done. rewrite decide_False by done.
    rewrite (conf_symbol_found _ _ _ _ Hfind).
    cbv zeta beta. unfold warn_override. rewrite Hsym.
    change (def_flags S_DEF_USER) with SYMBOL_DEF_USER. rewrite Hdef.
    rewrite (conf_set_sym_val_good _ _ _ _ Hs Hv). by apply setsym_plain.
Qed.

(** ** Comments *)

(** A comment is inert when it is not of the form "NAME is not set". *)
Definition inert (l : cstring) : bool :=
  negb (starts_with CONFIG_ l &&
        match split_at " "%char (drop (length CONFIG_) l) with
        | Some (_, p) => starts_with is_not_set p
        | None => false
        end).

Lemma read_unset_inert d l st : inert l = true → read_unset CONFIG_ d l st = st.
Proof.
  unfold inert, read_unset. destruct (starts_with CONFIG_ l); [|done]. rewrite andb_true_l.
  destruct (split_at " "%char _) as [[nm p]|]; [|done]. by destruct (starts_with is_not_set p).
Qed.

Lemma inert_blank : inert ([] ++ [newline]) = true.
Proof.
  unfold inert. rewrite split_at_None; [by rewrite andb_false_r|].
  destruct (length CONFIG_) as [|[|k]]; simpl; [|apply not_elem_of_nil..].
  by intros H%list_elem_of_singleton.
Qed.

Lemma read_blank_line d st : conf_read_line CONFIG_ d [newline] st = st.
Proof.
  unfold conf_read_line. rewrite bool_decide_false by done.
  destruct (starts_with CONFIG_ [newline]) eqn:E; [|done].
  unfold read_set. destruct CONFIG_ as [|c C]; [done|]. simpl in E.
  apply andb_true_iff in E as [->%bool_decide_eq_true _]. exfalso. apply Cnl. left.
Qed.

(** The lines of the comment that a text is printed as. *)
Definition comment_file_lines (text : cstring) : list cstring :=
  comment_line "#" <$> comment_lines [] text.

Lemma comment_lines_clean cur text l :
  newline ∉ cur → l ∈ comment_lines cur text → newline ∉ l.
Proof.
  revert cur. induction text as [|c text IH]; intros cur Hc; simpl.
  - intros ->%list_elem_of_singleton. by rewrite elem_of_reverse.
  - case_decide.
    + intros [->|Hl]%elem_of_cons; [by rewrite elem_of_reverse|].
      apply (IH [] (not_elem_of_nil _) Hl).
    + apply IH. rewrite not_elem_of_cons. by split.
Qed.

Lemma comment_line_is_line l : newline ∉ l → is_line (comment_line "#" l).
Proof.
  intros H. exists (lit "#" ++ match l with [] => [] | _ => lit " " ++ l end). split.
  { unfold comment_line. by rewrite <-app_assoc. }
  destruct l; simpl in *; rewrite !not_elem_of_cons in *; repeat split; try done; try apply H;
    apply not_elem_of_nil.
Qed.

Lemma read_comment_line d l st :
  inert (l ++ [newline]) = true → conf_read_line CONFIG_ d (comment_line "#" l) st = st.
Proof.
  intros H. unfold conf_read_line. rewrite bool_decide_true by done. apply read_unset_inert.
  destruct l as [|c l]; [|exact H]. unfold inert. by destruct CONFIG_.
Qed.

(** ** A file *)

(** What a configuration file is made of: the comment at its top, the blocks
    that name menus, the symbols with their values. *)
Inductive chunk :=
  | Heading (title : cstring)
  | Menu_block (prompt : cstring)
  | Symbol_line (p : symp) (nm v : cstring).

Definition chunk_lines (st : symtab) (c : chunk) : list cstring :=
  match c with
  | Heading title => comment_file_lines (conf_heading title)
  | Menu_block prompt =>
      [[newline]; lit "#" ++ [newline]; lit "# " ++ prompt ++ [newline]; lit "#" ++ [newline]]
  | Symbol_line p nm v => [symbol_line (type (sym st p)) nm v]
  end.

Definition chunk_text (st : symtab) (c : chunk) : cstring :=
  match c with
  | Heading title => conf_write_heading title
  | Menu_block prompt => menu_block prompt
  | Symbol_line p nm v => symbol_line (type (sym st p)) nm v
  end.

(** What makes a part of a file readable: a comment must not look like an
    unset symbol, a symbol must be writable and its value valid. *)
Definition chunk_ok (st : symtab) (c : chunk) : Prop :=
  match c with
  | Heading title => Forall (λ l, inert (l ++ [newline]) = true) (comment_lines [] (conf_heading title))
  | Menu_block prompt => newline ∉ prompt ∧ prompt ≠ [] ∧ inert (prompt ++ [newline]) = true
  | Symbol_line p nm v => writable st p nm ∧ good_value (type (sym st p)) v
  end.

Definition chunk_symbol (c : chunk) : option (symp * cstring) :=
  match c with Symbol_line p _ v => Some (p, v) | _ => None end.

(** The symbols of a file with the values that it gives them. *)
Definition assignments (cs : list chunk) : list (symp * cstring) := omap chunk_symbol cs.

Definition apply_assignment (t : symtab) (a : symp * cstring) : symtab :=
  upd a.1 (stored S_DEF_USER a.2) t.

Lemma chunk_text_lines st c : chunk_text st c = concat (chunk_lines st c).
Proof.
  destruct c as [title|prompt|p nm v]; simpl; [done| |by rewrite app_nil_r].
  unfold menu_block. by rewrite <-!app_assoc.
Qed.

Lemma chunk_lines_ok st c : chunk_ok st c → Forall is_line (chunk_lines st c).
Proof.
  destruct c as [title|prompt|p nm v]; simpl.
  - intros _. apply Forall_fmap, Forall_forall. intros l Hl. simpl. apply comment_line_is_line.
    by eapply comment_lines_clean, Hl; apply not_elem_of_nil.
  - intros (Hn & Hne & _). assert (Hb : is_line [newline]).
    { exists []. split; [done|apply not_elem_of_nil]. }
    assert (He : is_line (lit "#" ++ [newline])).
    { apply (comment_line_is_line []). apply not_elem_of_nil. }
    repeat constructor; try done. destruct prompt as [|c l]; [done|].
    by apply (comment_line_is_line (c :: l)).
  - intros [Hw Hv]. constructor; [|done]. apply symbol_line_is_line; [done|apply Hw].
Qed.

(** Storing a value keeps what makes a symbol writable. *)
Lemma stored_keeps v s :
  type (stored S_DEF_USER v s) = type s ∧
  sym_is_choice (stored S_DEF_USER v s) = sym_is_choice s ∧
  sym_is_choice_value (stored S_DEF_USER v s) = sym_is_choice_value s.
Proof.
  unfold stored, sym_is_choice, sym_is_choice_value.
  rewrite !has_flag_add by done. by destruct (type s) eqn:E.
Qed.

Lemma upd_sym_keeps {A} (f : symbol → A) p g t :
  (∀ s, f (g s) = f s) → ∀ q, f (sym (upd p g t) q) = f (sym t q).
Proof.
  intros H q. unfold sym. destruct (decide (p = q)) as [<-|Hq].
  - rewrite upd_lookup. by destruct (syms t !! p); simpl.
  - by rewrite upd_lookup_ne.
Qed.

(** Two tables that agree on what the writer looks at. *)
Record same_shape (t t' : symtab) : Prop := {
  sh_find : ∀ n, sym_find n t = sym_find n t';
  sh_mem : ∀ p, is_Some (syms t !! p) → is_Some (syms t' !! p);
  sh_type : ∀ p, type (sym t p) = type (sym t' p);
  sh_choice : ∀ p, sym_is_choice (sym t p) = sym_is_choice (sym t' p);
  sh_choiceval : ∀ p, sym_is_choice_value (sym t p) = sym_is_choice_value (sym t' p);
}.

Lemma same_shape_chunk t t' c :
  same_shape t t' → chunk_lines t c = chunk_lines t' c ∧ (chunk_ok t c → chunk_ok t' c).
Proof.
  intros [Hf Hm Ht Hc Hv]. destruct c as [| |p nm v]; simpl; [done|done|].
  rewrite <-Ht. split; [done|]. intros [[] ?]. split; [|done].
  split; [by rewrite <-Hf|auto|done|done|done|by rewrite <-Hc|by rewrite <-Hv].
Qed.

Lemma same_shape_assign t a : same_shape t (apply_assignment t a).
Proof.
  destruct a as [p v]. unfold apply_assignment. split.
  - intros n. symmetry. apply sym_find_upd. intros s. by apply stored_same_ident.
  - intros q Hq. simpl. destruct (decide (p = q)) as [<-|Hn].
    + rewrite lookup_alter_eq. by apply fmap_is_Some.
    + by rewrite lookup_alter_ne.
  - intros q. symmetry. apply (upd_sym_keeps type). intros s. apply stored_keeps.
  - intros q. symmetry. apply (upd_sym_keeps sym_is_choice). intros s. apply stored_keeps.
  - intros q. symmetry. apply (upd_sym_keeps sym_is_choice_value). intros s. apply stored_keeps.
Qed.

Lemma reset_symbol_keeps d s :
  d = S_DEF_USER →
  same_ident (reset_symbol d s) s ∧ type (reset_symbol d s) = type s ∧
  sym_is_choice (reset_symbol d s) = sym_is_choice s ∧
  sym_is_choice_value (reset_symbol d s) = sym_is_choice_value s.
Proof.
  intros ->. unfold reset_symbol. case_decide as Ho; [done|].
  set (s1 := clear_flag _ _).
  assert (H : ∀ f, Z.land f SYMBOL_CHANGED = 0%Z → Z.land f (Z.lor (def_flags S_DEF_USER) SYMBOL_VALID) = 0%Z →
    has_flag f s1 = has_flag f s).
  { intros f H1 H2. unfold s1. by rewrite has_flag_clear, has_flag_add. }
  assert (H' : ∀ f, Z.land f SYMBOL_CHANGED = 0%Z → Z.land f (Z.lor (def_flags S_DEF_USER) SYMBOL_VALID) = 0%Z →
    Z.land f (def_flags S_DEF_USER) = 0%Z →
    has_flag f (if sym_is_choice s1 then add_flag (def_flags S_DEF_USER) s1 else s1) = has_flag f s).
  { intros f H1 H2 H3. destruct (sym_is_choice s1); [rewrite has_flag_add by done|]; auto. }
  unfold same_ident, sym_is_choice, sym_is_choice_value in *.
  set (s2 := if has_flag SYMBOL_CHOICE s1 then add_flag (def_flags S_DEF_USER) s1 else s1) in *.
  assert (name s2 = name s ∧ type s2 = type s) as [? ?].
  { unfold s2. by destruct (has_flag _ s1). }
  split_and!; try done; by apply H'.
Qed.

Lemma reset_lookup d t p :
  syms (reset_symbols d t) !! p = (if is_static p then id else reset_symbol d) <$> syms t !! p.
Proof.
  unfold reset_symbols. simpl. rewrite map_lookup_imap.
  destruct (syms t !! p); simpl; [|done]. by destruct (is_static p).
Qed.

Lemma same_shape_reset t : same_shape t (reset_symbols S_DEF_USER t).
Proof.
  assert (H : ∀ p, same_ident (sym (reset_symbols S_DEF_USER t) p) (sym t p) ∧
    type (sym (reset_symbols S_DEF_USER t) p) = type (sym t p) ∧
    sym_is_choice (sym (reset_symbols S_DEF_USER t) p) = sym_is_choice (sym t p) ∧
    sym_is_choice_value (sym (reset_symbols S_DEF_USER t) p) = sym_is_choice_value (sym t p)).
  { intros p. unfold sym. rewrite reset_lookup. destruct (syms t !! p) as [s|]; simpl; [|done].
    destruct (is_static p); simpl; [done|]. by apply reset_symbol_keeps. }
  split; try (intros p; symmetry; apply H).
  - intros n. symmetry. apply sym_find_same; [done|]. intros q. apply H.
  - intros p Hp. rewrite reset_lookup. by apply fmap_is_Some.
Qed.

(** A symbol without a value is what the reader starts from. *)
Lemma reset_no_value t p :
  is_static p = false → is_Some (syms t !! p) → type (sym t p) ≠ S_OTHER →
  sym_is_choice (sym t p) = false →
  has_flag SYMBOL_DEF_USER (sym (reset_symbols S_DEF_USER t) p) = false.
Proof.
  intros Hp [s Hs] Ht Hc. unfold sym in *. rewrite reset_lookup, Hs, Hp. rewrite Hs in *. simpl in *.
  unfold reset_symbol. rewrite decide_False by done. unfold sym_is_choice in *.
  rewrite has_flag_clear, has_flag_add, Hc by done.
  by apply (has_flag_clear_sub SYMBOL_DEF_USER (Z.lor (def_flags S_DEF_USER) SYMBOL_VALID)).
Qed.

Lemma read_comment_lines d ls st :
  Forall (λ l, inert (l ++ [newline]) = true) ls →
  foldl (λ st l, conf_read_line CONFIG_ d l st) st (comment_line "#" <$> ls) = st.
Proof.
  induction 1 as [|l ls Hl _ IH]; [done|]. cbn [fmap list_fmap foldl].
  by rewrite read_comment_line.
Qed.

(** The loop of the reader over the parts of a file. *)
Lemma read_chunk c t w n :
  chunk_ok t c →
  (∀ a, chunk_symbol c = Some a → has_flag SYMBOL_DEF_USER (sym t a.1) = false) →
  foldl (λ st l, conf_read_line CONFIG_ S_DEF_USER l st) (mkConf t w n) (chunk_lines t c) =
    mkConf (foldl apply_assignment t (omap chunk_symbol [c])) w n.
Proof.
  destruct c as [title|prompt|p nm v]; intros Hok Hf; [by apply read_comment_lines|simpl..].
  - destruct Hok as (_ & Hne & Hi). rewrite read_blank_line.
    rewrite (read_comment_line _ []) by apply inert_blank.
    destruct prompt as [|c l]; [done|].
    rewrite (read_comment_line _ (c :: l)) by done.
    by rewrite (read_comment_line _ []) by apply inert_blank.
  - destruct Hok as [Hw Hv]. destruct (w_mem _ _ _ Hw) as [s Hs].
    specialize (Hf (p, v) eq_refl). simpl in Hf. rewrite (sym_Some _ _ _ Hs) in *.
    by apply conf_read_symbol_line.
Qed.

Lemma assignments_cons c cs :
  assignments (c :: cs) =
    match chunk_symbol c with Some a => a :: assignments cs | None => assignments cs end.
Proof. done. Qed.

Lemma read_chunks cs t w n :
  Forall (chunk_ok t) cs → NoDup (assignments cs).*1 →
  Forall (λ a, has_flag SYMBOL_DEF_USER (sym t a.1) = false) (assignments cs) →
  foldl (λ st l, conf_read_line CONFIG_ S_DEF_USER l st) (mkConf t w n)
    (concat (chunk_lines t <$> cs)) =
    mkConf (foldl apply_assignment t (assignments cs)) w n.
Proof.
  revert t. induction cs as [|c cs IH]; intros t Hok Hnd Hf; [done|].
  apply Forall_cons in Hok as [Hc Hok]. rewrite fmap_cons. cbn [concat].
  rewrite assignments_cons in *. rewrite foldl_app, read_chunk; [|done|].
  2: { intros a Ha. rewrite Ha in Hf. by apply Forall_cons in Hf as [? _]. }
  assert (Hstep : ∀ t', same_shape t t' →
    (chunk_lines t <$> cs) = (chunk_lines t' <$> cs) ∧ Forall (chunk_ok t') cs).
  { intros t' Hsh. split.
    - apply list_fmap_ext. intros _ x _. by apply same_shape_chunk.
    - eapply Forall_impl; [exact Hok|]. intros x. by apply same_shape_chunk. }
  cbn [omap list_omap]. destruct (chunk_symbol c) as [[p v]|] eqn:Ec; cbn [foldl].
  - apply NoDup_cons in Hnd as [Hp Hnd]. apply Forall_cons in Hf as [_ Hf].
    destruct (Hstep _ (same_shape_assign t (p, v))) as [-> Hok'].
    apply IH; [done|done|]. apply Forall_forall. intros [q u] Hq. simpl.
    unfold apply_assignment. rewrite upd_sym_ne; simpl.
    + rewrite Forall_forall in Hf. by apply (Hf (q, u)).
    + intros ->. apply Hp. by apply (list_elem_of_fmap_2 fst) in Hq.
  - by apply IH.
Qed.

(** What a file leaves in the symbols: the written value in those that it has,
    the cleared one in the others. *)
Definition read_back (t : symtab) (cs : list chunk) (p : symp) : symbol :=
  let s := sym (reset_symbols S_DEF_USER t) p in
  match list_to_map (M := gmap symp cstring) (assignments cs) !! p with
  | Some v => stored S_DEF_USER v s
  | None => s
  end.

Lemma apply_assignments t cs p :
  NoDup cs.*1 → Forall (λ a, is_Some (syms t !! a.1)) cs →
  sym (foldl apply_assignment t cs) p =
    match list_to_map (M := gmap symp cstring) cs !! p with
    | Some v => stored S_DEF_USER v (sym t p)
    | None => sym t p
    end.
Proof.
  revert t. induction cs as [|[q v] cs IH]; intros t; [done|].
  intros [Hq Hnd]%NoDup_cons [Hm Hf]%Forall_cons. simpl.
  rewrite IH; [|done|].
  2: { eapply Forall_impl; [exact Hf|]. intros a. by apply same_shape_assign. }
  unfold apply_assignment. simpl. destruct (decide (q = p)) as [->|Hne].
  - rewrite lookup_insert_eq, (not_elem_of_list_to_map_1 _ _ Hq). by apply upd_sym.
  - by rewrite lookup_insert_ne, upd_sym_ne.
Qed.

Lemma chunk_assigned t c a :
  chunk_ok t c → chunk_symbol c = Some a → ∃ nm, writable t a.1 nm ∧ good_value (type (sym t a.1)) a.2.
Proof. destruct c; simpl; [done|done|]. intros [Hw Hv] [= <-]. eauto. Qed.

Lemma assigned_ok t cs a :
  Forall (chunk_ok t) cs → a ∈ assignments cs →
  ∃ nm, writable t a.1 nm ∧ good_value (type (sym t a.1)) a.2.
Proof.
  intros Hok (c & Hc & Ha)%list_elem_of_omap. rewrite Forall_forall in Hok.
  eauto using chunk_assigned.
Qed.

Lemma lines_length ls : Forall is_line ls → length ls ≤ length (concat ls).
Proof.
  induction 1 as [|l ls (b & -> & _) _ IH]; simpl; [done|]. rewrite !length_app. simpl. lia.
Qed.

(** Reading a file of such parts makes its assignments. *)
Lemma read_written st cs :
  Forall (chunk_ok (tab st)) cs → NoDup (assignments cs).*1 →
  conf_read_simple CONFIG_ S_DEF_USER (concat (chunk_text (tab st) <$> cs)) st =
    Some (mkConf (foldl apply_assignment (reset_symbols S_DEF_USER (tab st)) (assignments cs)) 0 (change_count st)) ∧
  Forall (λ a, is_Some (syms (reset_symbols S_DEF_USER (tab st)) !! a.1)) (assignments cs).
Proof.
  intros Hok Hnd. set (t0 := reset_symbols S_DEF_USER (tab st)).
  assert (Hok0 : Forall (chunk_ok t0) cs).
  { eapply Forall_impl; [exact Hok|]. intros c. apply same_shape_chunk, same_shape_reset. }
  assert (Hw0 : Forall (λ a, has_flag SYMBOL_DEF_USER (sym t0 a.1) = false) (assignments cs)).
  { apply Forall_forall. intros a Ha. destruct (assigned_ok _ _ _ Hok Ha) as (nm & [] & Hg).
    apply reset_no_value; try done. by intros Ht; rewrite Ht in Hg. }
  assert (Htext : concat (chunk_text (tab st) <$> cs) = concat (concat (chunk_lines t0 <$> cs))).
  { unfold t0. clear. induction cs as [|c cs IH]; [done|].
    rewrite !fmap_cons. cbn [concat]. rewrite concat_app, IH, chunk_text_lines. f_equal. f_equal.
    apply same_shape_chunk, same_shape_reset. }
  assert (Hlines : Forall is_line (concat (chunk_lines t0 <$> cs))).
  { apply Forall_concat, Forall_fmap. eapply Forall_impl; [exact Hok0|].
    intros c. apply chunk_lines_ok. }
  split.
  - unfold conf_read_simple. rewrite Htext, conf_read_lines_concat.
    + by rewrite read_chunks.
    + done.
    + apply le_n_S. by apply lines_length.
  - apply Forall_forall. intros a Ha. by destruct (assigned_ok _ _ _ Hok0 Ha) as (nm & [] & _).
Qed.

(** Reading a configuration file gives back what was written. For a file
    made of a heading, menu blocks and the lines of distinct symbols with values
    of their types, as [conf_write] prints them, the reader returns without a
    warning, every symbol of the file has its value and the user flag, strings
    with quotes and backslashes included, and every other symbol is as the reset
    at the start of the reader leaves it. *)
Theorem conf_round_trip st cs :
  Forall (chunk_ok (tab st)) cs → NoDup (assignments cs).*1 →
  ∃ st', conf_read_simple CONFIG_ S_DEF_USER (concat (chunk_text (tab st) <$> cs)) st = Some st' ∧
    conf_warnings st' = 0 ∧ change_count st' = change_count st ∧
    ∀ p, sym (tab st') p = read_back (tab st) cs p.
Proof.
  intros Hok Hnd. destruct (read_written st cs Hok Hnd) as [Hrun Hmem]. eexists.
  split; [exact Hrun|]. split_and!; [done|done|]. intros p. by apply apply_assignments.
Qed.

End RoundTrip.

(** ** Examples *)

Definition example_tab : symtab :=
  let '(a, st) := sym_lookup (Some (lit "BR2_arm")) 0 empty_tab in
  let '(b, st) := sym_lookup (Some (lit "BR2_JLEVEL")) 0 st in
  let '(c, st) := sym_lookup (Some (lit "BR2_DL_DIR")) 0 st in
  let '(d, st) := sym_lookup (Some (lit "BR2_CCACHE")) 0 st in
  upd a (set_type S_BOOLEAN) (upd b (set_type S_INT) (upd c (set_type S_STRING)
    (upd d (set_type S_BOOLEAN) st))).

Definition example_chunks : list chunk :=
  [Heading (lit "Buildroot 2014.05 Configuration");
   Symbol_line (sym_at 1) (lit "BR2_arm") (lit "y");
   Menu_block (lit "Commands");
   Symbol_line (sym_at 3) (lit "BR2_DL_DIR") (lit "a\b" ++ [dquote]);
   Symbol_line (sym_at 2) (lit "BR2_JLEVEL") (lit "-1");
   Symbol_line (sym_at 4) (lit "BR2_CCACHE") (lit "n")].

Ltac example_symbol :=
  split; [split; vm_compute; by eauto|by apply (bool_decide_unpack _); vm_compute].

Lemma conf_round_trip_witness :
  ∃ st', conf_read_simple [] S_DEF_USER
           (concat (chunk_text [] example_tab <$> example_chunks)) (mkConf example_tab 7 0) = Some st' ∧
    conf_warnings st' = 0 ∧ change_count st' = 0 ∧
    ∀ p, sym (tab st') p = read_back example_tab example_chunks p.
Proof.
  apply (conf_round_trip [] (not_elem_of_nil _) ltac:(discriminate) (mkConf example_tab 7 0)
    example_chunks).
  - apply Forall_cons; split; [by apply (bool_decide_unpack _); vm_compute|].
    apply Forall_cons; split; [example_symbol|].
    apply Forall_cons; split.
    { split; [by apply (bool_decide_unpack _); vm_compute|split; [done|by vm_compute]]. }
    do 3 (apply Forall_cons; split; [example_symbol|]). by apply Forall_nil.
  - apply (bool_decide_unpack _). by vm_compute.
Defined.

Lemma sym_lookup_interns_witness :
  tab_ok empty_tab ∧
  interned empty_tab (sym_lookup (Some (lit "BR2_arm")) 0 empty_tab).2 (lit "BR2_arm") 0
    (sym_lookup (Some (lit "BR2_arm")) 0 empty_tab).1.
Proof.
  split; [exact empty_tab_ok|].
  apply (sym_lookup_interns empty_tab (lit "BR2_arm") 0); [exact empty_tab_ok|by destruct (sym_lookup _ _ _)].
Defined.
