(* ===== verification/KconfigSym.v ===== *)
(** * Kconfig symbols: calculation of values

    Translation of the part of [support/kconfig/symbol.c] that calculates the
    visibility and the value of a symbol and that changes values, of
    [expr_calc_value] as the symbols use it, and of [set_all_choice_values] of
    [confdata.c].

    The C functions call each other through the graph of the symbols and mark
    what they have done in the symbols: here they are computations on a state
    with the symbol store ([Effects]). *)

From stdpp Require Import base option list strings gmap.
From Stdlib Require Import ZArith Lia Ascii.
From S2P Require Import Prelude Effects Word32 KconfigExpr KconfigSymtab KconfigConf.
Local Open Scope nat_scope.

(** ** State and outcomes *)

(** The symbols, [modules_sym], [modules_val], the menus with [MENU_CHANGED],
    [sym_change_count], and the symbols about which an unmet dependency was
    reported on [stderr]. *)
Record sym_state := mkSt {
  stab : symtab;
  modules_sym : option symp;
  modules_val : tristate;
  changed_menus : list positive;
  sym_change_count : nat;
  unmet : list symp;
}.

Abbreviation M := (Eff sym_state).

Definition set_stab (t : symtab) (st : sym_state) : sym_state :=
  mkSt t (modules_sym st) (modules_val st) (changed_menus st) (sym_change_count st) (unmet st).

(** [*p] of a symbol pointer, and an assignment to its members. *)
Definition load (p : symp) : M symbol := λ st,
  match syms (stab st) !! p with Some s => Ret s st | None => Fault end.
Definition store (p : symp) (f : symbol → symbol) : M unit := λ st,
  match syms (stab st) !! p with
  | Some _ => Ret tt (set_stab (upd p f (stab st)) st)
  | None => Fault
  end.

Definition set_curr (v : symbol_value) (s : symbol) : symbol :=
  mkSym (name s) (type s) v (def s) (visible s) (flags s) (props s) (dir_dep s) (rev_dep s).
Definition set_visible (t : tristate) (s : symbol) : symbol :=
  mkSym (name s) (type s) (curr s) (def s) t (flags s) (props s) (dir_dep s) (rev_dep s).
Definition set_props (l : list property) (s : symbol) : symbol :=
  mkSym (name s) (type s) (curr s) (def s) (visible s) (flags s) l (dir_dep s) (rev_dep s).
Definition set_dir_tri (t : tristate) (s : symbol) : symbol :=
  mkSym (name s) (type s) (curr s) (def s) (visible s) (flags s) (props s)
    (mkEV (ev_expr (dir_dep s)) t) (rev_dep s).
Definition set_rev_tri (t : tristate) (s : symbol) : symbol :=
  mkSym (name s) (type s) (curr s) (def s) (visible s) (flags s) (props s) (dir_dep s)
    (mkEV (ev_expr (rev_dep s)) t).
Definition set_prop_tri (t : tristate) (pr : property) : property :=
  mkProp (p_type pr) (p_text pr) (mkEV (ev_expr (p_visible pr)) t) (p_expr pr) (p_menu pr).

(** A pointer to a string that is used as one. *)
Definition cstr (v : sval) : M cstring :=
  match v with V_str s => mret s | _ => fault end.

(** ** Numbers as text *)

Definition LLONG_MAX : Z := 2 ^ 63 - 1.
Definition LLONG_MIN : Z := - 2 ^ 63.

Definition isspace (c : ascii) : bool :=
  in_range_char 9 13 c || bool_decide (c = " "%char).

Fixpoint skip_space (s : cstring) : cstring :=
  match s with c :: r => if isspace c then skip_space r else s | [] => [] end.

Definition digit_val (c : ascii) : Z :=
  if isdigit c then char_val c - 48
  else if in_range_char 97 122 c then char_val c - 87
  else if in_range_char 65 90 c then char_val c - 55
  else 36.

(** The value of the longest prefix of digits of the base. *)
Fixpoint digits_val (base acc : Z) (s : cstring) : Z :=
  match s with
  | c :: r => if (digit_val c <? base)%Z then digits_val base (acc * base + digit_val c) r else acc
  | [] => acc
  end.

(** [strtoll] of the C library with base 10 or 16; the value is cut to the
    range of [long long]. With base 0 the prefix tells the base. *)
Definition strtoll (s : cstring) (base : Z) : Z :=
  let s := skip_space s in
  let '(neg, s) := match s with
                   | c :: r => if decide (c = "-"%char) then (true, r)
                               else if decide (c = "+"%char) then (false, r) else (false, s)
                   | [] => (false, [])
                   end in
  let hex := match s with
             | c :: x :: d :: _ =>
                 bool_decide (c = "0"%char) && (bool_decide (x = "x"%char) || bool_decide (x = "X"%char)) &&
                 isxdigit d
             | _ => false
             end in
  let base := if (base =? 0)%Z
              then if hex then 16%Z
                   else if decide (head s = Some "0"%char) then 8%Z else 10%Z
              else base in
  let s := if hex && (base =? 16)%Z then drop 2 s else s in
  let v := digits_val base 0 s in
  Z.max LLONG_MIN (Z.min LLONG_MAX (if neg then - v else v)).

Definition digit_char (d : Z) : ascii :=
  ascii_of_nat (Z.to_nat (if (d <? 10)%Z then d + 48 else d + 87)).

(** The digits of a number below [base ^ n]; at least one. *)
Fixpoint print_digits (base : Z) (n : nat) (v : Z) : cstring :=
  match n with
  | O => []
  | S n => (if (v <? base)%Z then [] else print_digits base n (v / base)) ++ [digit_char (v mod base)]
  end.

(** [%lld] and [0x%llx]. *)
Definition print_lld (v : Z) : cstring :=
  if (v <? 0)%Z then "-"%char :: print_digits 10 20 (- v) else print_digits 10 20 v.
Definition print_0xllx (v : Z) : cstring := lit "0x" ++ print_digits 16 17 (v mod 2 ^ 64).

(** ** Properties and lists *)

(** The symbols of an [expr_list_for_each_sym] loop. *)
Fixpoint expr_list_syms (e : expr) : list symp :=
  match e with
  | E_LIST l r => r :: match l with Some l => expr_list_syms l | None => [] end
  | _ => []
  end.

(** The first property of a type. *)
Definition first_prop (t : prop_type) (s : symbol) : option property :=
  head (filter (λ pr, p_type pr = t) (props s)).
Definition sym_get_env_prop (s : symbol) : option property := first_prop P_ENV s.

(** The choice that a choice value belongs to: [prop_get_symbol] of its choice
    property. *)
Definition choice_of (s : symbol) : M symp :=
  match sym_get_choice_prop s with
  | Some pr => match prop_get_symbol pr with Some cs => mret cs | None => fault end
  | None => fault
  end.

(** The values of a choice. *)
Definition choice_values (s : symbol) : M (list symp) :=
  match sym_get_choice_prop s with
  | Some pr => mret (match p_expr pr with Some e => expr_list_syms e | None => [] end)
  | None => fault
  end.

Definition sym_set_changed (p : symp) : M unit := λ st,
  match syms (stab st) !! p with
  | Some s =>
      Ret tt (mkSt (upd p (add_flag SYMBOL_CHANGED) (stab st)) (modules_sym st) (modules_val st)
                (omap p_menu (props s) ++ changed_menus st) (sym_change_count st) (unmet st))
  | None => Fault
  end.

(** The symbols of a [for_all_symbols] loop: those of the chains, in the order
    of the buckets, that are not [S_OTHER]. *)
Definition all_symbols (t : symtab) : list symp :=
  filter (λ p, type (sym t p) ≠ S_OTHER)
    (concat (chain t <$> (Z.of_nat <$> seq 0 (Z.to_nat SYMBOL_HASHSIZE)))).

Definition sym_set_all_changed : M unit :=
  ps ← gets (λ st, all_symbols (stab st)); for_each sym_set_changed ps.

Definition set_modules_val (t : tristate) : M unit := λ st,
  Ret tt (mkSt (stab st) (modules_sym st) t (changed_menus st) (sym_change_count st) (unmet st)).
(** The warning about an unmet dependency: of the text on stderr only the symbol
    is kept. What the code computes for it, [expr_simplify_unmet_dep], is in
    KconfigExpr; it follows the left operands of a reverse dependency down to a
    symbol, which [menu_finalize] puts there for every select. *)
Definition report_unmet (p : symp) : M unit := λ st,
  Ret tt (mkSt (stab st) (modules_sym st) (modules_val st) (changed_menus st) (sym_change_count st)
            (p :: unmet st)).
Definition add_change_count (n : nat) : M unit := λ st,
  Ret tt (mkSt (stab st) (modules_sym st) (modules_val st) (changed_menus st)
            (n + sym_change_count st) (unmet st)).

(** [sym_get_type] of a symbol that has been read. *)
Definition sym_get_type (s : symbol) (modules_val : tristate) : symbol_type :=
  if decide (type s = S_TRISTATE) then
    if sym_is_choice_value s && bool_decide (visible s = tri_yes) then S_BOOLEAN
    else if decide (modules_val = tri_no) then S_BOOLEAN
    else S_TRISTATE
  else type s.

Definition set_all_choice_values (csym : symp) : M unit :=
  s ← load csym;
  vs ← choice_values s;
  _ ← for_each (λ v, x ← load v; when (negb (sym_has_value x)) (store v (set_def_tri S_DEF_USER tri_no))) vs;
  store csym (λ s, clear_flag (Z.lor SYMBOL_VALID SYMBOL_NEED_SET_CHOICE_VALUES)
                     (add_flag SYMBOL_DEF_USER s)).

(** ** Calculation *)

(** The address comparison [memcmp(&oldval, &sym->curr, sizeof(oldval))]: it
    compares pointers to strings, and padding, which are not in the model. *)
Class ValueBytes := {
  bytes_differ : symbol_value → symbol_value → bool;
  bytes_differ_ne : ∀ a b, a ≠ b → bytes_differ a b = true;
}.

Section Calc.
Context (calc : symp → M unit).

(** The calls [sym_calc_value(modules_sym)] and [modules_sym->curr.tri]. *)
Definition calc_opt (p : option symp) : M unit := match p with Some p => calc p | None => skip end.
Definition curr_tri (p : symp) : M tristate := s ← load p; mret (tri (curr s)).
Definition modules_tri : M tristate :=
  m ← gets modules_sym; match m with Some m => curr_tri m | None => fault end.

Definition sym_get_string_value (p : symp) : M sval :=
  s ← load p;
  match type s with
  | S_BOOLEAN | S_TRISTATE =>
      match tri (curr s) with
      | tri_no => mret (V_str (lit "n"))
      | tri_mod =>
          m ← gets modules_sym;
          _ ← calc_opt m;
          t ← modules_tri;
          mret (V_str (lit (if decide (t = tri_no) then "n" else "m")))
      | tri_yes => mret (V_str (lit "y"))
      end
  | _ => mret (val (curr s))
  end.

(** [!strcmp(str1, str2)] on the string values of two symbols. *)
Definition same_strings (l r : symp) : M bool :=
  _ ← calc l;
  _ ← calc r;
  v1 ← sym_get_string_value l;
  v2 ← sym_get_string_value r;
  s1 ← cstr v1;
  s2 ← cstr v2;
  mret (bool_decide (s1 = s2)).

Fixpoint calc_expr (e : expr) : M tristate :=
  match e with
  | E_SYMBOL s => _ ← calc s; curr_tri s
  | E_AND l r => a ← calc_expr l; b ← calc_expr r; mret (EXPR_AND a b)
  | E_OR l r => a ← calc_expr l; b ← calc_expr r; mret (EXPR_OR a b)
  | E_NOT l => a ← calc_expr l; mret (EXPR_NOT a)
  | E_EQUAL l r => b ← same_strings l r; mret (if b : bool then tri_yes else tri_no)
  | E_UNEQUAL l r => b ← same_strings l r; mret (if b : bool then tri_no else tri_yes)
  | E_LIST _ _ | E_RANGE _ _ => mret tri_no
  end.

Definition calc_expr_opt (e : option expr) : M tristate :=
  match e with None => mret tri_yes | Some e => calc_expr e end.

(** [prop->visible.tri = expr_calc_value(prop->visible.expr)] for the property
    [i] of the symbol. *)
Definition calc_prop_visible (p : symp) (i : nat) (pr : property) : M tristate :=
  t ← calc_expr_opt (ev_expr (p_visible pr));
  _ ← store p (λ s, set_props (alter (set_prop_tri t) i (props s)) s);
  mret t.

(** The first property of a type that is visible, with its visibility; [n] of
    the properties from number [i] on are looked at. *)
Fixpoint visible_prop (t : prop_type) (p : symp) (n i : nat) : M (option (property * tristate)) :=
  match n with
  | O => mret None
  | S n =>
      s ← load p;
      match props s !! i with
      | None => mret None
      | Some pr =>
          if decide (p_type pr = t) then
            v ← calc_prop_visible p i pr;
            if decide (v = tri_no) then visible_prop t p n (S i) else mret (Some (pr, v))
          else visible_prop t p n (S i)
      end
  end.

Definition sym_get_visible_prop (t : prop_type) (p : symp) : M (option (property * tristate)) :=
  s ← load p; visible_prop t p (length (props s)) 0.

Definition sym_get_default_prop : symp → M (option (property * tristate)) :=
  sym_get_visible_prop P_DEFAULT.
Definition sym_get_range_prop : symp → M (option (property * tristate)) :=
  sym_get_visible_prop P_RANGE.

(** The loop over the prompts: the best of their visibilities. *)
Fixpoint prompts_visible (p : symp) (n i : nat) (acc : tristate) : M tristate :=
  match n with
  | O => mret acc
  | S n =>
      s ← load p;
      match props s !! i with
      | None => mret acc
      | Some pr =>
          match p_text pr with
          | Some _ => v ← calc_prop_visible p i pr; prompts_visible p n (S i) (EXPR_OR acc v)
          | None => prompts_visible p n (S i) acc
          end
      end
  end.

(** [if (sym->member != tri) { sym->member = tri; sym_set_changed(sym); }] *)
Definition update_tri (p : symp) (get : symbol → tristate) (set : tristate → symbol → symbol)
    (t : tristate) : M unit :=
  s ← load p;
  if decide (get s = t) then skip else _ ← store p (set t); sym_set_changed p.

Definition sym_calc_visibility (p : symp) : M unit :=
  s ← load p;
  t ← prompts_visible p (length (props s)) 0 tri_no;
  mv ← gets modules_val;
  let t := if decide (t = tri_mod ∧ (type s ≠ S_TRISTATE ∨ mv = tri_no)) then tri_yes else t in
  _ ← update_tri p visible set_visible t;
  if sym_is_choice_value s then skip
  else
    t ← match ev_expr (dir_dep s) with None => mret tri_yes | Some e => calc_expr e end;
    let t := if decide (t = tri_mod) then tri_yes else t in
    _ ← update_tri p (λ s, ev_tri (dir_dep s)) set_dir_tri t;
    t ← match ev_expr (rev_dep s) with None => mret tri_no | Some e => calc_expr e end;
    s' ← load p;
    mv ← gets modules_val;
    let t := if decide (t = tri_mod ∧ sym_get_type s' mv = S_BOOLEAN) then tri_yes else t in
    update_tri p (λ s, ev_tri (rev_dep s)) set_rev_tri t.

(** Ranges. *)
Definition range_base (t : symbol_type) (base : Z) : Z :=
  match t with S_INT => 10%Z | S_HEX => 16%Z | _ => base end.

Definition curr_strtoll (p : symp) (base : Z) : M Z :=
  s ← load p; v ← cstr (val (curr s)); mret (strtoll v base).

Definition sym_get_range_val (p : symp) (base : Z) : M Z :=
  _ ← calc p;
  s ← load p;
  curr_strtoll p (range_base (type s) base).

(** [prop->expr->left.sym] and [prop->expr->right.sym] of a range. *)
Definition range_syms (pr : property) : M (symp * symp) :=
  match p_expr pr with Some (E_RANGE l r) => mret (l, r) | _ => fault end.

(** [sym->curr.val = strdup(str)] with the text of a number. *)
Definition store_number (p : symp) (v : Z) : M unit :=
  store p (λ s, set_curr (mkVal (V_str (if decide (type s = S_INT) then print_lld v
                                        else print_0xllx v)) (tri (curr s))) s).

Definition validate_number (p : symp) (base : Z) : M unit :=
  r ← sym_get_range_prop p;
  match r with
  | None => skip
  | Some (pr, _) =>
      v ← curr_strtoll p base;
      '(l, r) ← range_syms pr;
      lo ← sym_get_range_val l base;
      if (lo <=? v)%Z then
        hi ← sym_get_range_val r base;
        if (v <=? hi)%Z then skip else store_number p hi
      else store_number p lo
  end.

Definition sym_validate_range (p : symp) : M unit :=
  s ← load p;
  match type s with
  | S_INT | S_HEX => validate_number p (range_base (type s) 0)
  | _ => skip
  end.

(** Choices. *)
Fixpoint first_visible (ps : list symp) : M (option symp) :=
  match ps with
  | [] => mret None
  | p :: ps => s ← load p; if decide (visible s = tri_no) then first_visible ps else mret (Some p)
  end.

(** The first visible default of a choice that names a visible symbol. *)
Fixpoint choice_default_prop (p : symp) (n i : nat) : M (option symp) :=
  match n with
  | O => mret None
  | S n =>
      s ← load p;
      match props s !! i with
      | None => mret None
      | Some pr =>
          if decide (p_type pr = P_DEFAULT) then
            v ← calc_prop_visible p i pr;
            if decide (v = tri_no) then choice_default_prop p n (S i)
            else
              match prop_get_symbol pr with
              | None => fault
              | Some d =>
                  x ← load d;
                  if decide (visible x = tri_no) then choice_default_prop p n (S i)
                  else mret (Some d)
              end
          else choice_default_prop p n (S i)
      end
  end.

Definition sym_choice_default (p : symp) : M (option symp) :=
  s ← load p;
  d ← choice_default_prop p (length (props s)) 0;
  match d with
  | Some d => mret (Some d)
  | None => s ← load p; vs ← choice_values s; first_visible vs
  end.

(** The loop over the values of a choice: their visibilities, and the flags
    that the visible ones have in common. *)
Fixpoint choice_flags (vs : list symp) (fl : Z) : M Z :=
  match vs with
  | [] => mret fl
  | v :: vs =>
      _ ← sym_calc_visibility v;
      s ← load v;
      choice_flags vs (if decide (visible s = tri_no) then fl else Z.land fl (flags s))
  end.

Definition user_choice (s : symbol) : M (option symp) :=
  match val (get_def S_DEF_USER s) with
  | V_null => mret None
  | V_sym q => x ← load q; mret (if decide (visible x = tri_no) then None else Some q)
  | V_str _ => fault
  end.

Definition sym_calc_choice (p : symp) : M (option symp) :=
  s ← load p;
  vs ← choice_values s;
  fl ← choice_flags vs (flags s);
  _ ← store p (λ s, set_flags (Z.land (flags s) (Z.lor fl (Z.lnot SYMBOL_DEF_USER))) s);
  s ← load p;
  u ← user_choice s;
  match u with
  | Some q => mret (Some q)
  | None =>
      d ← sym_choice_default p;
      match d with
      | Some q => mret (Some q)
      | None => _ ← store p (λ s, set_curr (mkVal (val (curr s)) tri_no) s); mret None
      end
  end.

Definition sval_of (p : option symp) : sval := match p with Some p => V_sym p | None => V_null end.

(** The label [calc_newval]. *)
Definition calc_newval (p : symp) (t : tristate) : M tristate :=
  s ← load p;
  _ ← when (bool_decide (ev_tri (dir_dep s) = tri_no) && bool_decide (ev_tri (rev_dep s) ≠ tri_no))
        (report_unmet p);
  mret (EXPR_OR t (ev_tri (rev_dep s))).

Definition set_write (p : symp) : M unit := store p (add_flag SYMBOL_WRITE).

(** [EXPR_AND(expr_calc_value(e), v)]: the macro evaluates the smaller of its
    arguments a second time. *)
Definition and_calc (e : option expr) (v : tristate) : M tristate :=
  t ← calc_expr_opt e;
  if (tri_val t <? tri_val v)%Z then calc_expr_opt e else mret v.

(** The value of a boolean or tristate symbol. *)
Definition calc_tristate (p : symp) (newval : tristate) : M tristate :=
  s ← load p;
  if sym_is_choice_value s && bool_decide (visible s = tri_yes) then
    cs ← choice_of s;
    c ← load cs;
    mret (if decide (val (curr c) = V_sym p) then tri_yes else tri_no)
  else
    _ ← when (bool_decide (visible s ≠ tri_no)) (set_write p);
    if bool_decide (visible s ≠ tri_no) && sym_has_value s then
      calc_newval p (EXPR_AND (tri (get_def S_DEF_USER s)) (visible s))
    else
      _ ← when (bool_decide (ev_tri (rev_dep s) ≠ tri_no)) (set_write p);
      t ← (if sym_is_choice s then mret newval
           else
             d ← sym_get_default_prop p;
             match d with
             | None => mret newval
             | Some (pr, v) => _ ← set_write p; and_calc (p_expr pr) v
             end);
      calc_newval p t.

(** The value of a symbol with a string. *)
Definition calc_string (p : symp) (newval : sval) : M sval :=
  s ← load p;
  _ ← when (bool_decide (visible s ≠ tri_no)) (set_write p);
  if bool_decide (visible s ≠ tri_no) && sym_has_value s then mret (val (get_def S_DEF_USER s))
  else
    d ← sym_get_default_prop p;
    match d with
    | None => mret newval
    | Some (pr, _) =>
        match prop_get_symbol pr with
        | None => mret newval
        | Some ds =>
            _ ← set_write p;
            _ ← calc ds;
            x ← load ds;
            mret (val (curr x))
        end
    end.

(** The value by the type that the symbol has now. *)
Definition calc_newvalue (p : symp) (newval : symbol_value) : M symbol_value :=
  s ← load p;
  mv ← gets modules_val;
  match sym_get_type s mv with
  | S_BOOLEAN | S_TRISTATE =>
      t ← calc_tristate p (tri newval);
      s ← load p;
      mv ← gets modules_val;
      mret (mkVal (val newval)
              (if decide (t = tri_mod ∧ sym_get_type s mv = S_BOOLEAN) then tri_yes else t))
  | S_STRING | S_HEX | S_INT =>
      v ← calc_string p (val newval); mret (mkVal v (tri newval))
  | _ => mret newval
  end.

Context `{ValueBytes}.

(** What follows when the value has been stored. *)
Definition note_change (p : symp) (oldval : symbol_value) : M unit :=
  s ← load p;
  if bytes_differ oldval (curr s) then
    _ ← sym_set_changed p;
    m ← gets modules_sym;
    if decide (m = Some p) then _ ← sym_set_all_changed; set_modules_val (tri (curr s)) else skip
  else skip.

Definition update_choice_values (p : symp) : M unit :=
  s ← load p;
  if sym_is_choice s then
    vs ← choice_values s;
    for_each (λ v,
      x ← load v;
      s ← load p;
      _ ← when (has_flag SYMBOL_WRITE s && bool_decide (visible x ≠ tri_no)) (set_write v);
      s ← load p;
      when (has_flag SYMBOL_CHANGED s) (sym_set_changed v)) vs
  else skip.

(** A value from the environment is not written. *)
Definition clear_auto (p : symp) : M unit :=
  s ← load p; when (has_flag SYMBOL_AUTO s) (store p (clear_flag SYMBOL_WRITE)).

(** The request to set the values of a choice. *)
Definition serve_request (p : symp) : M unit :=
  s ← load p; when (has_flag SYMBOL_NEED_SET_CHOICE_VALUES s) (set_all_choice_values p).

(** [sym_calc_value] from the calculation of the visibility on. *)
Definition calc_rest (p : symp) (oldval newval : symbol_value) : M unit :=
  s ← load p;
  _ ← when (negb (sym_is_choice_value s)) (store p (clear_flag SYMBOL_WRITE));
  _ ← sym_calc_visibility p;
  _ ← store p (set_curr newval);
  v ← calc_newvalue p newval;
  _ ← store p (set_curr v);
  s ← load p;
  _ ← when (sym_is_choice s && bool_decide (tri v = tri_yes))
        (c ← sym_calc_choice p;
         store p (λ s, set_curr (mkVal (sval_of c) (tri (curr s))) s));
  _ ← sym_validate_range p;
  _ ← note_change p oldval;
  _ ← update_choice_values p;
  _ ← clear_auto p;
  serve_request p.

(** The body of [sym_calc_value]. *)
Definition calc_body (p : symp) : M unit :=
  s ← load p;
  if has_flag SYMBOL_VALID s then skip
  else
    _ ← when (sym_is_choice_value s && has_flag SYMBOL_NEED_SET_CHOICE_VALUES s)
          (_ ← store p (clear_flag SYMBOL_NEED_SET_CHOICE_VALUES);
           match sym_get_choice_prop s with
           | Some pr => calc_opt (prop_get_symbol pr)
           | None => fault
           end);
    _ ← store p (add_flag SYMBOL_VALID);
    s ← load p;
    match type s with
    | S_INT | S_HEX | S_STRING =>
        x ← load symbol_empty; calc_rest p (curr s) (curr x)
    | S_BOOLEAN | S_TRISTATE =>
        x ← load symbol_no; calc_rest p (curr s) (curr x)
    | _ =>
        store p (set_curr (mkVal (match name s with Some n => V_str n | None => V_null end) tri_no))
    end.

End Calc.

(** ** The functions *)

Section Functions.
Context `{ValueBytes}.

Fixpoint sym_calc_value (fuel : nat) (p : symp) : M unit :=
  match fuel with
  | O => out_of_fuel
  | S fuel => calc_body (sym_calc_value fuel) p
  end.

Definition sym_clear_all_valid (fuel : nat) : M unit :=
  ps ← gets (λ st, all_symbols (stab st));
  _ ← for_each (λ p, store p (clear_flag SYMBOL_VALID)) ps;
  _ ← add_change_count 1;
  m ← gets modules_sym;
  calc_opt (sym_calc_value fuel) m.

(** [a <= b] on tristates. *)
Definition tri_leb (a b : tristate) : bool := (tri_val a <=? tri_val b)%Z.

Definition tristate_within_range (s : symbol) (modules_val val : tristate) : bool :=
  let t := sym_get_type s modules_val in
  if bool_decide (visible s = tri_no) then false
  else if negb (bool_decide (t = S_BOOLEAN ∨ t = S_TRISTATE)) then false
  else if bool_decide (t = S_BOOLEAN ∧ val = tri_mod) then false
  else if tri_leb (visible s) (ev_tri (rev_dep s)) then false
  else if sym_is_choice_value s && bool_decide (visible s = tri_yes) then bool_decide (val = tri_yes)
  else tri_leb (ev_tri (rev_dep s)) val && tri_leb val (visible s).

Definition sym_tristate_within_range (p : symp) (val : tristate) : M bool :=
  s ← load p; mv ← gets modules_val; mret (tristate_within_range s mv val).

(** A symbol becomes one that the user has set. *)
Definition set_user (p : symp) : M unit :=
  s ← load p;
  when (negb (has_flag SYMBOL_DEF_USER s))
    (_ ← store p (add_flag SYMBOL_DEF_USER); sym_set_changed p).

Definition sym_set_tristate_value (fuel : nat) (p : symp) (val : tristate) : M bool :=
  oldval ← curr_tri p;
  ok ← sym_tristate_within_range p val;
  if bool_decide (oldval ≠ val) && negb ok then mret false
  else
    _ ← set_user p;
    s ← load p;
    _ ← when (sym_is_choice_value s && bool_decide (val = tri_yes))
          (cs ← choice_of s;
           _ ← store cs (λ c, add_flag SYMBOL_DEF_USER (set_def_val S_DEF_USER (V_sym p) c));
           c ← load cs;
           vs ← choice_values c;
           for_each (λ v, x ← load v;
             when (bool_decide (visible x ≠ tri_no)) (store v (add_flag SYMBOL_DEF_USER))) vs);
    _ ← store p (set_def_tri S_DEF_USER val);
    _ ← (if decide (oldval = val) then skip else sym_clear_all_valid fuel);
    mret true.

Definition next_tri (t : tristate) : tristate :=
  match t with tri_no => tri_mod | tri_mod => tri_yes | tri_yes => tri_no end.

(** The loop of [sym_toggle_tristate_value]; after three steps the value is the
    old one. *)
Fixpoint toggle_loop (fuel : nat) (p : symp) (oldval newval : tristate) (n : nat) : M tristate :=
  match n with
  | O => mret newval
  | S n =>
      let newval := next_tri newval in
      ok ← sym_set_tristate_value fuel p newval;
      if ok : bool then mret newval
      else if decide (oldval = newval) then mret newval
      else toggle_loop fuel p oldval newval n
  end.

Definition sym_toggle_tristate_value (fuel : nat) (p : symp) : M tristate :=
  v ← curr_tri p; toggle_loop fuel p v v 3.

(** A number inside the range that applies to the symbol. *)
Definition number_within_range (fuel : nat) (p : symp) (str : cstring) (base : Z) : M bool :=
  r ← sym_get_range_prop (sym_calc_value fuel) p;
  match r with
  | None => mret true
  | Some (pr, _) =>
      '(l, r) ← range_syms pr;
      lo ← sym_get_range_val (sym_calc_value fuel) l base;
      if (lo <=? strtoll str base)%Z then
        hi ← sym_get_range_val (sym_calc_value fuel) r base;
        mret (strtoll str base <=? hi)%Z
      else mret false
  end.

(** The tristate that a string starts with. *)
Definition tri_char (str : cstring) : option tristate :=
  match str with
  | c :: _ =>
      if bool_decide (c = "y"%char ∨ c = "Y"%char) then Some tri_yes
      else if bool_decide (c = "m"%char ∨ c = "M"%char) then Some tri_mod
      else if bool_decide (c = "n"%char ∨ c = "N"%char) then Some tri_no
      else None
  | [] => None
  end.

Definition sym_string_within_range (fuel : nat) (p : symp) (str : cstring) : M bool :=
  s ← load p;
  match type s with
  | S_STRING => mret (sym_string_valid S_STRING str)
  | S_INT | S_HEX =>
      if sym_string_valid (type s) str then number_within_range fuel p str (range_base (type s) 0)
      else mret false
  | S_BOOLEAN | S_TRISTATE =>
      match tri_char str with
      | Some t => sym_tristate_within_range p t
      | None => mret false
      end
  | _ => mret false
  end.

Definition has_0x (str : cstring) : bool :=
  match str with
  | c :: x :: _ => bool_decide (c = "0"%char) && (bool_decide (x = "x"%char) || bool_decide (x = "X"%char))
  | _ => false
  end.

Definition sym_set_string_value (fuel : nat) (p : symp) (newval : cstring) : M bool :=
  s ← load p;
  match type s with
  | S_BOOLEAN | S_TRISTATE =>
      match tri_char newval with
      | Some t => sym_set_tristate_value fuel p t
      | None => mret false
      end
  | _ =>
      ok ← sym_string_within_range fuel p newval;
      if negb ok then mret false
      else
        _ ← set_user p;
        s ← load p;
        let set v := _ ← store p (set_def_val S_DEF_USER (V_str v));
                     _ ← sym_clear_all_valid fuel; mret true in
        if bool_decide (type s = S_HEX) && negb (has_0x newval) then set (lit "0x" ++ newval)
        else if bool_decide (val (get_def S_DEF_USER s) = V_str newval) then mret true
        else set newval
  end.

Definition sym_is_changable (s : symbol) : bool := negb (tri_leb (visible s) (ev_tri (rev_dep s))).

Definition sym_get_string_default (fuel : nat) (p : symp) : M sval :=
  let calc := sym_calc_value fuel in
  _ ← sym_calc_visibility calc p;
  m ← gets modules_sym;
  _ ← calc_opt calc m;
  n ← load symbol_no;
  e ← load symbol_empty;
  d ← sym_get_default_prop calc p;
  s ← load p;
  '(t, str) ← match d with
    | None => mret (tri (curr n), val (curr e))
    | Some (pr, v) =>
        match type s with
        | S_BOOLEAN | S_TRISTATE => t ← and_calc calc (p_expr pr) v; mret (t, val (curr e))
        | _ =>
            match prop_get_symbol pr with
            | None => mret (tri (curr n), val (curr e))
            | Some ds => _ ← calc ds; x ← load ds; mret (tri (curr n), val (curr x))
            end
        end
    end;
  s ← load p;
  let t := EXPR_OR t (ev_tri (rev_dep s)) in
  t ← (if bool_decide (t = tri_mod) && negb (sym_is_choice_value s) then
         mt ← modules_tri; mret (if decide (mt = tri_no) then tri_yes else t)
       else mret t);
  let t := if decide (type s = S_BOOLEAN ∧ t = tri_mod) then tri_yes else t in
  mret (match type s with
        | S_BOOLEAN | S_TRISTATE =>
            V_str (lit (match t with tri_no => "n" | tri_mod => "m" | tri_yes => "y" end))
        | S_INT | S_HEX | S_STRING => str
        | _ => V_str []
        end).

(** The name after a dollar sign. *)
Fixpoint span_name (s : cstring) : cstring * cstring :=
  match s with
  | c :: r => if isalnum c || bool_decide (c = "_"%char) then
                let '(a, b) := span_name r in (c :: a, b) else ([], s)
  | [] => ([], [])
  end.

(** [sym_expand_string_value]; every step of the loop drops a dollar sign, so
    that the length of the text bounds their number. The name is copied to a
    buffer of [SYMBOL_MAXLENGTH] bytes, which a longer name overruns. *)
Fixpoint expand_loop (n fuel : nat) (res s : cstring) : M cstring :=
  match n with
  | O => out_of_fuel
  | S n =>
      match split_at "$"%char s with
      | None => mret (res ++ s)
      | Some (a, b) =>
          let '(nm, r) := span_name b in
          if 256 <=? length nm then fault
          else
            t ← gets stab;
            v ← match sym_find (Some nm) t with
                | None => mret []
                | Some p =>
                    _ ← sym_calc_value fuel p;
                    v ← sym_get_string_value (sym_calc_value fuel) p;
                    cstr v
                end;
            expand_loop n fuel (res ++ a ++ v) r
      end
  end.

Definition sym_expand_string_value (fuel : nat) (s : cstring) : M cstring :=
  expand_loop (S (length s)) fuel [] s.

End Functions.
