(* ===== verification/KconfigSymTerm.v ===== *)
(** * Kconfig symbols: the calculation always returns

    Symbols refer to each other in any way a Kconfig file says, cycles
    included. [sym_calc_value] marks a symbol before it follows its references;
    this file shows that the marks bound the depth of the recursion for every
    symbol table, although the marks of a choice are taken back once. *)

From stdpp Require Import base option strings gmap list.
From Stdlib Require Import ZArith Lia.
From S2P Require Import Prelude Effects KconfigExpr KconfigSymtab KconfigConf KconfigSym.
Local Open Scope nat_scope.

(** ** The measure *)

(** What a symbol can still cost: its value, and the second calculation of a
    choice whose values are to be set. *)
Definition weight (s : symbol) : nat :=
  (if has_flag SYMBOL_VALID s then 0 else 1) +
  (if has_flag SYMBOL_NEED_SET_CHOICE_VALUES s then 2 else 0).

Definition measure (st : sym_state) : nat := map_total weight (syms (stab st)).

(** ** Computations that do not raise the measure *)

(** From states with at most [k], the computation returns or faults, and the
    measure is not higher after it. *)
Definition bounded {A} (k : nat) (m : M A) : Prop :=
  ∀ st, measure st ≤ k → spec True m st (λ _ st', measure st' ≤ measure st).

Create HintDb bounded.

Section Bounded.
Context (k : nat).

Lemma bounded_ret {A} (a : A) : bounded k (mret a).
Proof. intros st _. by apply spec_ret. Qed.

Lemma bounded_skip : bounded k skip.
Proof. apply bounded_ret. Qed.

Lemma bounded_fault {A} : bounded k (fault : M A).
Proof. intros st _. exact I. Qed.

Lemma bounded_gets {A} (f : sym_state → A) : bounded k (gets f).
Proof. intros st _. unfold spec, gets. done. Qed.

Lemma bounded_load p : bounded k (load p).
Proof. intros st _. unfold spec, load. by destruct (_ !! p). Qed.

Lemma bounded_bind {A B} (m : M A) (f : A → M B) :
  bounded k m → (∀ a, bounded k (f a)) → bounded k (m ≫= f).
Proof.
  intros Hm Hf st Hst. apply spec_bind. eapply spec_mono; [by apply Hm|].
  cbv beta. intros a st' H. eapply spec_mono; [apply Hf; lia|]. cbv beta. lia.
Qed.

Lemma bounded_store p f : (∀ s, weight (f s) ≤ weight s) → bounded k (store p f).
Proof.
  intros Hf st _. unfold spec, store. destruct (_ !! p) as [s|] eqn:E; [|done].
  unfold measure. simpl. pose proof (map_total_alter weight f _ _ _ E). specialize (Hf s). lia.
Qed.

Lemma bounded_when b m : bounded k m → bounded k (when b m).
Proof. destruct b; [done|]. intros _. apply bounded_ret. Qed.

Lemma bounded_for_each {A} (f : A → M unit) l :
  (∀ a, bounded k (f a)) → bounded k (for_each f l).
Proof.
  intros Hf. induction l as [|x l IH]; simpl; [apply bounded_ret|].
  apply bounded_bind; [apply Hf|done].
Qed.

Lemma bounded_cstr v : bounded k (cstr v).
Proof. destruct v; simpl; apply bounded_ret || apply bounded_fault. Qed.

End Bounded.

#[export] Hint Resolve bounded_ret bounded_skip bounded_fault bounded_gets bounded_load bounded_when bounded_for_each
  bounded_cstr : bounded.

(** *** Weights *)

Lemma weight_le s s' :
  (has_flag SYMBOL_VALID s = true → has_flag SYMBOL_VALID s' = true) →
  (has_flag SYMBOL_NEED_SET_CHOICE_VALUES s = false →
   has_flag SYMBOL_NEED_SET_CHOICE_VALUES s' = false) →
  weight s' ≤ weight s.
Proof.
  unfold weight. intros Hv Hn.
  destruct (has_flag SYMBOL_VALID s); [rewrite Hv by done|destruct (has_flag SYMBOL_VALID s')];
  (destruct (has_flag SYMBOL_NEED_SET_CHOICE_VALUES s); [destruct (has_flag SYMBOL_NEED_SET_CHOICE_VALUES s')|rewrite Hn by done]); lia.
Qed.

Lemma weight_add f s : Z.land SYMBOL_NEED_SET_CHOICE_VALUES f = 0%Z → weight (add_flag f s) ≤ weight s.
Proof. intros H. apply weight_le; [apply has_flag_mono|by rewrite has_flag_add]. Qed.

Lemma weight_clear f s :
  Z.land SYMBOL_VALID f = 0%Z → Z.land SYMBOL_NEED_SET_CHOICE_VALUES f = 0%Z →
  weight (clear_flag f s) ≤ weight s.
Proof. intros H1 H2. apply weight_le; by rewrite has_flag_clear. Qed.

(** Clearing [DEF_USER] through the flags of the values of a choice. *)
Lemma weight_and s fl :
  weight (set_flags (Z.land (flags s) (Z.lor fl (Z.lnot SYMBOL_DEF_USER))) s) ≤ weight s.
Proof.
  assert (H : ∀ f, Z.land f SYMBOL_DEF_USER = 0%Z →
    has_flag f (set_flags (Z.land (flags s) (Z.lor fl (Z.lnot SYMBOL_DEF_USER))) s) = has_flag f s).
  { intros f Hf. unfold has_flag. simpl. f_equal. f_equal. apply Z.bits_inj'. intros n Hn.
    apply (f_equal (λ z, Z.testbit z n)) in Hf. rewrite Z.land_spec, Z.bits_0 in Hf.
    rewrite !Z.land_spec, Z.lor_spec, Z.lnot_spec by done.
    destruct (Z.testbit (flags s) n), (Z.testbit f n), (Z.testbit SYMBOL_DEF_USER n), (Z.testbit fl n); done. }
  apply weight_le; by rewrite H.
Qed.

Lemma weight_valid s : weight (add_flag SYMBOL_VALID s) + (if has_flag SYMBOL_VALID s then 0 else 1) ≤ weight s.
Proof.
  unfold weight. rewrite has_flag_add_self, (has_flag_add SYMBOL_NEED_SET_CHOICE_VALUES) by done.
  destruct (has_flag SYMBOL_VALID s); lia.
Qed.

Lemma weight_need s :
  has_flag SYMBOL_NEED_SET_CHOICE_VALUES s = true →
  weight (clear_flag SYMBOL_NEED_SET_CHOICE_VALUES s) + 2 = weight s.
Proof.
  intros H. unfold weight. rewrite H.
  rewrite (has_flag_clear_sub SYMBOL_NEED_SET_CHOICE_VALUES), (has_flag_clear SYMBOL_VALID) by done. lia.
Qed.

(** The mark of a choice is taken back together with its pending request. *)
Lemma weight_reset s :
  has_flag SYMBOL_NEED_SET_CHOICE_VALUES s = true →
  weight (clear_flag (Z.lor SYMBOL_VALID SYMBOL_NEED_SET_CHOICE_VALUES) (add_flag SYMBOL_DEF_USER s)) ≤ weight s.
Proof.
  intros H. unfold weight at 2. rewrite H. unfold weight.
  rewrite (has_flag_clear_sub SYMBOL_NEED_SET_CHOICE_VALUES) by done.
  destruct (has_flag SYMBOL_VALID _), (has_flag SYMBOL_VALID s); lia.
Qed.

#[export] Hint Resolve weight_add weight_clear weight_and : bounded.

(** ** The calculation *)

Ltac bounded :=
  repeat match goal with
  | |- bounded _ (_ ≫= _) => apply bounded_bind; [|intros ?]
  | |- bounded _ (store _ _) => apply bounded_store; intros ?; auto with bounded
  | |- bounded _ (let '(_, _) := ?x in _) => destruct x
  | |- bounded _ (if ?b then _ else _) => destruct b
  | |- bounded _ (when _ _) => apply bounded_when
  | |- bounded _ (for_each _ _) => apply bounded_for_each; intros ?
  | |- bounded _ (match ?x with _ => _ end) => destruct x
  | |- _ => solve [auto with bounded]
  end.

Section Calc.
Context `{ValueBytes} (k : nat) (calc : symp → M unit).
Context (Hcalc : ∀ p, bounded k (calc p)).

Lemma bounded_calc_opt p : bounded k (calc_opt calc p).
Proof. unfold calc_opt. bounded. Qed.

Lemma bounded_curr_tri p : bounded k (curr_tri p).
Proof. unfold curr_tri. bounded. Qed.

Lemma bounded_string_value p : bounded k (sym_get_string_value calc p).
Proof.
  pose proof bounded_calc_opt. pose proof bounded_curr_tri.
  unfold sym_get_string_value, modules_tri. bounded.
Qed.

Lemma bounded_expr e : bounded k (calc_expr calc e).
Proof.
  pose proof bounded_string_value. pose proof bounded_curr_tri.
  induction e; simpl; unfold same_strings; bounded.
Qed.

Lemma bounded_expr_opt e : bounded k (calc_expr_opt calc e).
Proof. destruct e; simpl; [apply bounded_expr|apply bounded_ret]. Qed.

Lemma bounded_prop_visible p i pr : bounded k (calc_prop_visible calc p i pr).
Proof. pose proof bounded_expr_opt. unfold calc_prop_visible. bounded. Qed.

Lemma bounded_visible_prop t p n i : bounded k (visible_prop calc t p n i).
Proof. pose proof bounded_prop_visible. revert i. induction n; intros i; simpl; bounded. Qed.

Lemma bounded_get_visible_prop t p : bounded k (sym_get_visible_prop calc t p).
Proof. pose proof bounded_visible_prop. unfold sym_get_visible_prop. bounded. Qed.

Lemma bounded_set_changed p : bounded k (sym_set_changed p).
Proof.
  intros st _. unfold spec, sym_set_changed. destruct (_ !! p) as [s|] eqn:E; [|done].
  unfold measure. simpl. pose proof (map_total_alter weight (add_flag SYMBOL_CHANGED) _ _ _ E).
  pose proof (weight_add SYMBOL_CHANGED s eq_refl). lia.
Qed.

Lemma bounded_prompts p n i t : bounded k (prompts_visible calc p n i t).
Proof. pose proof bounded_prop_visible. revert i t. induction n; intros i t; simpl; bounded. Qed.

Lemma bounded_update_tri p get set t :
  (∀ s, weight (set t s) ≤ weight s) → bounded k (update_tri p get set t).
Proof. pose proof bounded_set_changed. intros Hs. unfold update_tri. bounded. Qed.

Lemma bounded_visibility p : bounded k (sym_calc_visibility calc p).
Proof.
  pose proof bounded_prompts. pose proof bounded_expr. pose proof bounded_update_tri.
  unfold sym_calc_visibility. bounded.
Qed.

Lemma bounded_range_val p b : bounded k (sym_get_range_val calc p b).
Proof. unfold sym_get_range_val, curr_strtoll. bounded. Qed.

Lemma bounded_validate_range p : bounded k (sym_validate_range calc p).
Proof.
  pose proof bounded_range_val. pose proof bounded_get_visible_prop.
  unfold sym_validate_range, validate_number, store_number, sym_get_range_prop, curr_strtoll, range_syms. bounded.
Qed.

Lemma bounded_first_visible ps : bounded k (first_visible ps).
Proof. induction ps; simpl; bounded. Qed.

Lemma bounded_choice_default p n i : bounded k (choice_default_prop calc p n i).
Proof. pose proof bounded_prop_visible. revert i. induction n; intros i; simpl; bounded. Qed.

Lemma bounded_choice_values s : bounded k (choice_values s).
Proof. unfold choice_values. bounded. Qed.

Lemma bounded_choice_flags vs fl : bounded k (choice_flags calc vs fl).
Proof. pose proof bounded_visibility. revert fl. induction vs; intros fl; simpl; bounded. Qed.

Lemma bounded_calc_choice p : bounded k (sym_calc_choice calc p).
Proof.
  pose proof bounded_choice_flags. pose proof bounded_choice_default. pose proof bounded_first_visible.
  pose proof bounded_choice_values.
  unfold sym_calc_choice, user_choice, sym_choice_default. bounded.
Qed.

Lemma bounded_report p : bounded k (report_unmet p).
Proof. intros st _. unfold spec, report_unmet. done. Qed.

Lemma bounded_newvalue p v : bounded k (calc_newvalue calc p v).
Proof.
  pose proof bounded_get_visible_prop. pose proof bounded_expr_opt. pose proof bounded_report.
  unfold calc_newvalue, calc_tristate, calc_string, choice_of, calc_newval, and_calc, set_write,
    sym_get_default_prop. bounded.
Qed.

Lemma bounded_note_change p v : bounded k (note_change p v).
Proof.
  pose proof bounded_set_changed. unfold note_change, sym_set_all_changed, set_modules_val. bounded.
  intros st _. unfold spec. done.
Qed.

Lemma bounded_update_choice p : bounded k (update_choice_values p).
Proof.
  pose proof bounded_set_changed. pose proof bounded_choice_values.
  unfold update_choice_values, set_write. bounded.
Qed.

(** A request is not lost while other members are set. *)
Definition requested (p : symp) (st : sym_state) : Prop :=
  ∀ s, syms (stab st) !! p = Some s → has_flag SYMBOL_NEED_SET_CHOICE_VALUES s = true.

Lemma requested_loop p vs st :
  requested p st →
  spec True (for_each (λ v, x ← load v;
    when (negb (sym_has_value x)) (store v (set_def_tri S_DEF_USER tri_no))) vs) st
    (λ _ st', requested p st' ∧ measure st' ≤ measure st).
Proof.
  revert st. induction vs as [|v vs IH]; intros st Hr; cbn [for_each]; [by apply spec_ret|].
  apply spec_bind, spec_bind. unfold load at 1, spec at 1. destruct (_ !! v) as [x|] eqn:E; [|done].
  unfold when. destruct (negb _).
  - unfold store, spec at 1. rewrite E.
    assert (Hm : measure (set_stab (upd v (set_def_tri S_DEF_USER tri_no) (stab st)) st) ≤ measure st).
    { unfold measure. simpl.
      pose proof (map_total_alter weight (set_def_tri S_DEF_USER tri_no) _ _ _ E) as Ht.
      change (weight (set_def_tri S_DEF_USER tri_no x)) with (weight x) in Ht. lia. }
    eapply spec_mono; [apply IH|].
    + intros s. simpl. destruct (decide (v = p)) as [->|Hne].
      * rewrite lookup_alter_eq, E. intros [= <-]. apply (Hr x E).
      * rewrite lookup_alter_ne by done. apply Hr.
    + intros _ st' [? ?]. split; [done|lia].
  - unfold spec at 1, skip. by apply IH.
Qed.

Lemma bounded_serve p : bounded k (serve_request p).
Proof.
  intros st Hk. unfold serve_request. apply spec_bind. unfold load at 1, spec at 1.
  destruct (_ !! p) as [s|] eqn:E; [|done]. unfold when.
  destruct (has_flag SYMBOL_NEED_SET_CHOICE_VALUES s) eqn:En; [|by apply spec_ret].
  unfold set_all_choice_values. apply spec_bind. unfold load at 1, spec at 1. rewrite E.
  apply spec_bind. eapply spec_mono with (Q := λ _ st', st' = st).
  { unfold spec, choice_values. by destruct (sym_get_choice_prop s). }
  intros vs st' ->. apply spec_bind. eapply spec_mono; [apply (requested_loop p)|].
  { intros s' Hs'. congruence. }
  intros _ st' [Hr Hm]. unfold store, spec. destruct (syms (stab st') !! p) as [s'|] eqn:E'; [|done].
  unfold measure in *. simpl.
  pose proof (map_total_alter weight (λ s, clear_flag (Z.lor SYMBOL_VALID SYMBOL_NEED_SET_CHOICE_VALUES)
                     (add_flag SYMBOL_DEF_USER s)) _ _ _ E') as Ht.
  pose proof (weight_reset s' (Hr _ E')). cbv beta in *. lia.
Qed.

Lemma bounded_rest p o n : bounded k (calc_rest calc p o n).
Proof.
  pose proof bounded_visibility. pose proof bounded_newvalue. pose proof bounded_calc_choice.
  pose proof bounded_validate_range. pose proof bounded_note_change. pose proof bounded_update_choice.
  pose proof bounded_serve. unfold calc_rest, clear_auto. bounded.
Qed.

End Calc.

(** ** The depth of the recursion *)

Section Functions.
Context `{ValueBytes}.

Lemma spec_load {F} p st (Q : symbol → sym_state → Prop) :
  (∀ s, syms (stab st) !! p = Some s → Q s st) → (syms (stab st) !! p = None → F) →
  spec F (load p) st Q.
Proof. unfold spec, load. destruct (_ !! p); auto. Qed.

Lemma spec_store {F} p f st (Q : unit → sym_state → Prop) :
  (∀ s, syms (stab st) !! p = Some s → Q tt (set_stab (upd p f (stab st)) st)) →
  (syms (stab st) !! p = None → F) → spec F (store p f) st Q.
Proof. unfold spec, store. destruct (_ !! p); eauto. Qed.

Lemma measure_upd p f st s :
  syms (stab st) !! p = Some s →
  measure (set_stab (upd p f (stab st)) st) + weight s = measure st + weight (f s).
Proof. intros E. unfold measure. simpl. by apply (map_total_alter weight). Qed.

(** One level: what is below may use one unit less. *)
Lemma bounded_body k calc :
  (∀ p, bounded k (calc p)) → ∀ p, bounded (S k) (calc_body calc p).
Proof.
  intros Hc p st Hk. unfold calc_body. apply spec_bind, spec_load; [|done]. intros s E.
  destruct (has_flag SYMBOL_VALID s) eqn:Ev; [by apply spec_ret|].
  set (from := _ ← store p (add_flag SYMBOL_VALID); _).
  (* after the mark nothing costs more than k *)
  assert (Hfrom : ∀ st', measure st' ≤ S k →
    (measure st' ≤ k ∨ ∀ x, syms (stab st') !! p = Some x → has_flag SYMBOL_VALID x = false) →
    spec True from st' (λ _ st'', measure st'' ≤ measure st')).
  { intros st' Hk' Hv. apply spec_bind, spec_store; [|done]. intros x Ex.
    pose proof (measure_upd p (add_flag SYMBOL_VALID) _ _ Ex) as Hm.
    pose proof (weight_valid x) as Hw.
    eapply spec_mono with (Q := λ _ st'', measure st'' ≤ measure (set_stab (upd p (add_flag SYMBOL_VALID) (stab st')) st')).
    - apply (bounded_bind k); [apply bounded_load|intros y|].
      + pose proof (bounded_rest k calc Hc). bounded.
      + destruct Hv as [Hv|Hv]; [lia|]. rewrite (Hv x Ex) in Hw. lia.
    - cbv beta. lia. }
  apply spec_bind. unfold when. destruct (_ && _) eqn:En.
  - apply andb_true_iff in En as [_ En].
    apply spec_bind, spec_store; [|done]. intros x Ex. rewrite E in Ex. injection Ex as <-.
    pose proof (measure_upd p (clear_flag SYMBOL_NEED_SET_CHOICE_VALUES) _ _ E) as Hm.
    pose proof (weight_need _ En) as Hw.
    eapply spec_mono with (Q := λ _ st', measure st' ≤ measure (set_stab (upd p (clear_flag SYMBOL_NEED_SET_CHOICE_VALUES) (stab st)) st)).
    + pose proof (bounded_calc_opt k calc Hc) as Hb.
      destruct (sym_get_choice_prop s); [apply Hb; lia|exact I].
    + cbv beta. intros _ st' Hst'. eapply spec_mono; [apply Hfrom; [lia|left; lia]|]. cbv beta. lia.
  - apply spec_ret. apply Hfrom; [done|]. right. intros x Ex. congruence.
Qed.

Lemma bounded_calc k p : bounded k (sym_calc_value (S k) p).
Proof.
  revert p. induction k as [|k IH]; intros p; [|by apply bounded_body].
  intros st Hk. simpl. unfold calc_body. apply spec_bind, spec_load; [|done]. intros s E.
  assert (has_flag SYMBOL_VALID s = true) as ->; [|by apply spec_ret].
  pose proof (map_total_lookup weight _ _ _ E) as Hw. unfold measure in Hk.
  assert (Hw0 : weight s = 0) by lia. unfold weight in Hw0.
  destruct (has_flag SYMBOL_VALID s); [done|lia].
Qed.

Lemma weight_bound s : weight s ≤ 3.
Proof. unfold weight. destruct (has_flag _ _), (has_flag _ _); lia. Qed.

(** C18: [sym_calc_value] never recurses deeper than three times the number of
    symbols, for every table: with cycles of references, with choices whose
    marks are taken back, from every state of the marks. It returns or follows
    a null pointer, and what is still to be calculated does not grow. *)
Theorem sym_calc_value_terminates fuel p st :
  3 * size (syms (stab st)) < fuel →
  sym_calc_value fuel p st = Fault ∨
  ∃ st', sym_calc_value fuel p st = Ret tt st' ∧ measure st' ≤ measure st.
Proof.
  intros Hf. pose proof (map_total_size weight 3 (syms (stab st)) weight_bound) as Hs. destruct fuel as [|k]; [lia|].
  pose proof (bounded_calc k p st ltac:(unfold measure; lia)) as Hb. unfold spec in Hb.
  destruct (sym_calc_value (S k) p st) as [[] st'| |]; [right; eauto|by left|done].
Qed.

End Functions.

(** ** Example *)

(** The comparison of addresses as that of values. *)
#[export] Instance compare_values : ValueBytes := {|
  bytes_differ a b := bool_decide (a ≠ b);
  bytes_differ_ne a b H := bool_decide_eq_true_2 _ H;
|}.

Definition mk_bool (nm : string) (fl : Z) (ps : list property) : symbol :=
  mkSym (Some (lit nm)) S_BOOLEAN (mkVal V_null tri_no) (replicate S_DEF_COUNT (mkVal V_null tri_no))
    tri_no fl ps (mkEV None tri_no) (mkEV None tri_no).

Definition default_prop (e : expr) : property := mkProp P_DEFAULT None (mkEV None tri_no) (Some e) None.

(** Two symbols that are each the default of the other. *)
Definition cyclic_state : sym_state :=
  mkSt (mkTab (<[sym_at 1 := mk_bool "A" 0 [default_prop (E_SYMBOL (sym_at 2))]]>
              (<[sym_at 2 := mk_bool "B" 0 [default_prop (E_NOT (E_SYMBOL (sym_at 1)))]]>
              (syms empty_tab))) ∅ 3)
    None tri_no [] 0 [].

Lemma sym_calc_value_terminates_witness :
  3 * size (syms (stab cyclic_state)) < 19 ∧
  (sym_calc_value 19 (sym_at 1) cyclic_state = Fault ∨
   ∃ st', sym_calc_value 19 (sym_at 1) cyclic_state = Ret tt st' ∧ measure st' ≤ measure cyclic_state).
Proof.
  assert (H : 3 * size (syms (stab cyclic_state)) < 19) by (vm_compute; lia).
  split; [exact H|]. exact (sym_calc_value_terminates 19 (sym_at 1) cyclic_state H).
Defined.
