(* ===== verification/KconfigSymType.v ===== *)
(** * Kconfig symbols: values have the type of their symbol

    Whatever a table looks like, with choices, selections, modules and cycles,
    a calculation never leaves a boolean symbol at [m], and never gives a
    tristate to a number or a string. The invariant is shown once for the
    monad's operations and follows for the calculation by its structure. *)

From stdpp Require Import base option strings gmap list.
From Stdlib Require Import ZArith Lia.
From S2P Require Import Prelude Effects KconfigExpr KconfigSymtab KconfigConf KconfigSym KconfigSymTerm.
Local Open Scope nat_scope.

(** ** The invariant *)

(** The tristate that a type admits. *)
Definition tri_fits (t : symbol_type) (v : tristate) : Prop :=
  match t with
  | S_BOOLEAN => v ≠ tri_mod
  | S_INT | S_HEX | S_STRING => v = tri_no
  | _ => True
  end.

(** The symbols whose values start a calculation: they have no type, and are
    [n]. *)
Definition is_start (p : symp) : Prop := p = symbol_no ∨ p = symbol_empty.

Record fits (p : symp) (s : symbol) : Prop := {
  fits_tri : tri_fits (type s) (tri (curr s));
  fits_start : is_start p → type s = S_UNKNOWN ∧ tri (curr s) = tri_no;
}.

Definition typed (st : sym_state) : Prop := ∀ p s, syms (stab st) !! p = Some s → fits p s.

(** ** Computations that keep it *)

Section Keeps.
Context (tys : symp → option symbol_type).

(** The invariant, with the types of the table. *)
Definition typed_as (st : sym_state) : Prop :=
  typed st ∧ ∀ p, type <$> syms (stab st) !! p = tys p.

Definition keeps {A} (c : M A) (Q : A → Prop) : Prop :=
  ∀ st, typed_as st → match c st with Ret a st' => typed_as st' ∧ Q a | _ => True end.

Definition any {A} (a : A) : Prop := True.

Lemma keeps_typed_bind {A B} (c : M A) (f : A → M B) Q R :
  keeps c Q → (∀ a, Q a → keeps (f a) R) → keeps (c ≫= f) R.
Proof.
  intros Hc Hf st Hst. unfold mbind, Eff_bind. specialize (Hc st Hst).
  destruct (c st) as [a st'| |]; [|done|done]. destruct Hc as [Hi Ha]. by apply Hf.
Qed.

Lemma keeps_then {A B} (c : M A) (f : A → M B) R :
  keeps c any → (∀ a, keeps (f a) R) → keeps (c ≫= f) R.
Proof. intros Hc Hf. apply (keeps_typed_bind _ _ any); [done|]. intros a _. apply Hf. Qed.

Lemma keeps_mono {A} (c : M A) (Q R : A → Prop) : keeps c Q → (∀ a, Q a → R a) → keeps c R.
Proof. intros Hc H st Hst. specialize (Hc st Hst). destruct (c st); [|done|done]. destruct Hc; auto. Qed.

Lemma keeps_any {A} (c : M A) Q : keeps c Q → keeps c any.
Proof. intros Hc. by eapply keeps_mono. Qed.

Lemma keeps_typed_ret {A} (a : A) (Q : A → Prop) : Q a → keeps (mret a) Q.
Proof. by intros Ha st Hst. Qed.

Lemma keeps_skip : keeps skip any.
Proof. by apply keeps_typed_ret. Qed.

Lemma keeps_typed_fault {A} Q : keeps (fault : M A) Q.
Proof. by intros st _. Qed.

Lemma keeps_typed_fuel {A} Q : keeps (out_of_fuel : M A) Q.
Proof. by intros st _. Qed.

Lemma keeps_gets {A} (f : sym_state → A) : keeps (gets f) any.
Proof. by intros st Hst. Qed.

(** What is read is typed, with the type of the table. *)
Lemma keeps_load p : keeps (load p) (λ s, tys p = Some (type s) ∧ fits p s).
Proof.
  intros st [Ht Hty]. unfold load. destruct (syms (stab st) !! p) as [s|] eqn:E; [|done].
  split; [by split|]. split; [|by apply Ht]. by rewrite <-Hty, E.
Qed.

Lemma keeps_load_any p : keeps (load p) any.
Proof. eapply keeps_any, keeps_load. Qed.

Lemma keeps_store p f :
  (∀ s, tys p = Some (type s) → fits p s → type (f s) = type s ∧ fits p (f s)) → keeps (store p f) any.
Proof.
  intros Hf st [Ht Hty]. unfold store. destruct (syms (stab st) !! p) as [s|] eqn:E; [|done].
  assert (Hp : tys p = Some (type s)) by (by rewrite <-Hty, E).
  destruct (Hf s Hp (Ht p s E)) as [Hft Hff].
  assert (Hcase : ∀ q, syms (stab (set_stab (upd p f (stab st)) st)) !! q =
    if decide (p = q) then Some (f s) else syms (stab st) !! q).
  { intros q. cbn. destruct (decide (p = q)) as [<-|Hq].
    - by rewrite lookup_alter_eq, E.
    - by rewrite lookup_alter_ne. }
  split; [|done]. split.
  - intros q x. rewrite Hcase. case_decide as Eq; [subst; by intros [= <-]|apply Ht].
  - intros q. rewrite Hcase. case_decide as Eq; [subst; cbn; by rewrite Hft|apply Hty].
Qed.

(** An update that leaves the type and the value alone. *)
Lemma keeps_meta p f :
  (∀ s, type (f s) = type s) → (∀ s, tri (curr (f s)) = tri (curr s)) → keeps (store p f) any.
Proof.
  intros Ht Hc. apply keeps_store. intros s _ [H1 H2]. split; [done|]. by split; rewrite ?Ht, ?Hc.
Qed.

Lemma keeps_when b c : keeps c any → keeps (when b c) any.
Proof. intros Hc. destruct b; [done|apply keeps_skip]. Qed.

Lemma keeps_for_each {A} (f : A → M unit) l : (∀ a, keeps (f a) any) → keeps (for_each f l) any.
Proof. intros Hf. induction l as [|x l IH]; simpl; [apply keeps_skip|]. by apply keeps_then. Qed.

Lemma keeps_cstr v : keeps (cstr v) any.
Proof. destruct v; simpl; by apply keeps_typed_ret || apply keeps_typed_fault. Qed.

Lemma keeps_same {A} (c : M A) :
  (∀ st, match c st with Ret _ st' => stab st' = stab st | _ => True end) → keeps c any.
Proof.
  intros Hc st Hst. specialize (Hc st). destruct (c st) as [a st'| |]; [|done|done].
  split; [|done]. unfold typed_as, typed in *. by rewrite Hc.
Qed.

Lemma keeps_set_changed p : keeps (sym_set_changed p) any.
Proof.
  intros st Hst. pose proof (keeps_meta p (add_flag SYMBOL_CHANGED) (λ _, eq_refl) (λ _, eq_refl) st Hst) as Hs.
  unfold store, sym_set_changed in *. by destruct (syms (stab st) !! p).
Qed.

End Keeps.

Create HintDb keeps.
#[export] Hint Resolve keeps_skip keeps_typed_fault keeps_typed_fuel keeps_gets keeps_load_any keeps_cstr keeps_set_changed
  keeps_for_each : keeps.

Ltac keeps :=
  repeat match goal with
  | |- keeps _ (mret _) _ => by apply keeps_typed_ret
  | |- keeps _ (_ ≫= _) _ => apply keeps_then; [|intros ?]
  | |- keeps _ (store _ _) _ => apply keeps_meta; done
  | |- keeps _ (let '(_, _) := ?x in _) _ => destruct x
  | |- keeps _ (if ?b then _ else _) _ => destruct b
  | |- keeps _ (when _ _) _ => apply keeps_when
  | |- keeps _ (for_each _ _) _ => apply keeps_for_each; intros ?
  | |- keeps _ (match ?x with _ => _ end) _ => destruct x
  | |- _ => solve [auto with keeps]
  end.

(** ** The calculation *)

Section Calc.
Context `{ValueBytes} (tys : symp → option symbol_type) (calc : symp → M unit).
Context (Hcalc : ∀ p, keeps tys (calc p) any).

Lemma keeps_calc_opt p : keeps tys (calc_opt calc p) any.
Proof. unfold calc_opt. keeps. Qed.

Lemma keeps_curr_tri p : keeps tys (curr_tri p) any.
Proof. unfold curr_tri. keeps. Qed.

Lemma keeps_string_value p : keeps tys (sym_get_string_value calc p) any.
Proof.
  pose proof keeps_calc_opt. pose proof keeps_curr_tri. unfold sym_get_string_value, modules_tri. keeps.
Qed.

Lemma keeps_expr e : keeps tys (calc_expr calc e) any.
Proof.
  pose proof keeps_string_value. pose proof keeps_curr_tri. induction e; simpl; unfold same_strings; keeps.
Qed.

Lemma keeps_expr_opt e : keeps tys (calc_expr_opt calc e) any.
Proof. destruct e; simpl; [apply keeps_expr|by apply keeps_typed_ret]. Qed.

Lemma keeps_prop_visible p i pr : keeps tys (calc_prop_visible calc p i pr) any.
Proof. pose proof keeps_expr_opt. unfold calc_prop_visible. keeps. Qed.

Lemma keeps_visible_prop t p n i : keeps tys (visible_prop calc t p n i) any.
Proof. pose proof keeps_prop_visible. revert i. induction n; intros i; simpl; keeps. Qed.

Lemma keeps_get_visible_prop t p : keeps tys (sym_get_visible_prop calc t p) any.
Proof. pose proof keeps_visible_prop. unfold sym_get_visible_prop. keeps. Qed.

Lemma keeps_prompts p n i t : keeps tys (prompts_visible calc p n i t) any.
Proof. pose proof keeps_prop_visible. revert i t. induction n; intros i t; simpl; keeps. Qed.

Lemma keeps_update_tri p get set t :
  (∀ t s, type (set t s) = type s) → (∀ t s, tri (curr (set t s)) = tri (curr s)) →
  keeps tys (update_tri p get set t) any.
Proof. intros H1 H2. unfold update_tri. keeps. Qed.

Lemma keeps_visibility p : keeps tys (sym_calc_visibility calc p) any.
Proof.
  pose proof keeps_prompts. pose proof keeps_expr. pose proof keeps_update_tri.
  unfold sym_calc_visibility. keeps.
Qed.

Lemma keeps_range_val p b : keeps tys (sym_get_range_val calc p b) any.
Proof. unfold sym_get_range_val, curr_strtoll. keeps. Qed.

Lemma keeps_validate_range p : keeps tys (sym_validate_range calc p) any.
Proof.
  pose proof keeps_range_val. pose proof keeps_get_visible_prop.
  unfold sym_validate_range, validate_number, store_number, sym_get_range_prop, curr_strtoll, range_syms. keeps.
Qed.

Lemma keeps_first_visible ps : keeps tys (first_visible ps) any.
Proof. induction ps; simpl; keeps. Qed.

Lemma keeps_choice_default p n i : keeps tys (choice_default_prop calc p n i) any.
Proof. pose proof keeps_prop_visible. revert i. induction n; intros i; simpl; keeps. Qed.

Lemma keeps_choice_values s : keeps tys (choice_values s) any.
Proof. unfold choice_values. keeps. Qed.

Lemma keeps_choice_flags vs fl : keeps tys (choice_flags calc vs fl) any.
Proof. pose proof keeps_visibility. revert fl. induction vs; intros fl; simpl; keeps. Qed.

Lemma tri_fits_no t : tri_fits t tri_no.
Proof. by destruct t. Qed.

(** A store of [n] as the value. *)
Lemma keeps_store_no p f :
  (∀ s, type (f s) = type s) → (∀ s, tri (curr (f s)) = tri_no) → keeps tys (store p f) any.
Proof.
  intros Ht Hc. apply keeps_store. intros s _ [H1 H2]. split; [done|].
  split; rewrite Ht, Hc; [apply tri_fits_no|]. intros Hp. by destruct (H2 Hp).
Qed.

Lemma keeps_calc_choice p : keeps tys (sym_calc_choice calc p) any.
Proof.
  pose proof keeps_choice_flags. pose proof keeps_choice_default. pose proof keeps_first_visible.
  pose proof keeps_choice_values.
  assert (∀ p, keeps tys (store p (λ s, set_curr (mkVal (val (curr s)) tri_no) s)) any)
    by (intros q; by apply keeps_store_no).
  unfold sym_calc_choice, user_choice, sym_choice_default.
  repeat match goal with
  | H : ∀ p, keeps _ (store p _) _ |- keeps _ (store _ (λ s, set_curr _ _)) _ => apply H
  | _ => progress keeps
  end.
Qed.

Lemma keeps_report p : keeps tys (report_unmet p) any.
Proof. by apply keeps_same. Qed.

Lemma keeps_tristate p t : keeps tys (calc_tristate calc p t) any.
Proof.
  pose proof keeps_get_visible_prop. pose proof keeps_expr_opt. pose proof keeps_report.
  unfold calc_tristate, choice_of, calc_newval, and_calc, set_write, sym_get_default_prop. keeps.
Qed.

Lemma keeps_string p v : keeps tys (calc_string calc p v) any.
Proof.
  pose proof keeps_get_visible_prop. unfold calc_string, set_write, sym_get_default_prop. keeps.
Qed.

(** The new value fits the type of the symbol. *)
Lemma keeps_newvalue p v t :
  tys p = Some t → tri v = tri_no → keeps tys (calc_newvalue calc p v) (λ x, tri_fits t (tri x)).
Proof.
  intros Hp Hv. unfold calc_newvalue.
  eapply keeps_typed_bind; [apply keeps_load|]. intros s [Hs _]. assert (type s = t) as Hst by congruence.
  apply keeps_then; [keeps|]. intros mv.
  assert (Hno : tri_fits t (tri v)) by (rewrite Hv; apply tri_fits_no).
  assert (Htri : t = S_BOOLEAN ∨ t = S_TRISTATE →
    keeps tys (t' ← calc_tristate calc p (tri v); s ← load p; mv ← gets modules_val;
      mret (mkVal (val v) (if decide (t' = tri_mod ∧ sym_get_type s mv = S_BOOLEAN) then tri_yes else t')))
      (λ x, tri_fits t (tri x))).
  { intros Ht. apply keeps_then; [apply keeps_tristate|]. intros t'.
    eapply keeps_typed_bind; [apply keeps_load|]. intros s' [Hs' _]. apply keeps_then; [keeps|]. intros mv'.
    apply keeps_typed_ret. cbn [tri]. destruct Ht as [-> | ->]; [|done].
    assert (sym_get_type s' mv' = S_BOOLEAN) as -> by (unfold sym_get_type; rewrite decide_False by congruence; congruence).
    case_decide as Em; [done|]. intros ->. by apply Em. }
  assert (Hstr : t = S_INT ∨ t = S_HEX ∨ t = S_STRING →
    keeps tys (x ← calc_string calc p (val v); mret (mkVal x (tri v))) (λ x, tri_fits t (tri x))).
  { intros _. apply keeps_then; [apply keeps_string|]. intros x. by apply keeps_typed_ret. }
  unfold sym_get_type. rewrite Hst.
  destruct t; repeat case_decide; try done; try (by apply keeps_typed_ret); auto;
    destruct (_ && _); auto.
Qed.

Lemma keeps_note_change p v : keeps tys (note_change p v) any.
Proof.
  unfold note_change, sym_set_all_changed, set_modules_val. keeps. by apply keeps_same.
Qed.

Lemma keeps_update_choice p : keeps tys (update_choice_values p) any.
Proof. pose proof keeps_choice_values. unfold update_choice_values, set_write. keeps. Qed.

Lemma keeps_serve p : keeps tys (serve_request p) any.
Proof. pose proof keeps_choice_values. unfold serve_request, set_all_choice_values. keeps. Qed.

Lemma keeps_rest p o v t :
  tys p = Some t → t ≠ S_UNKNOWN → tri v = tri_no → keeps tys (calc_rest calc p o v) any.
Proof.
  intros Hp Ht Hv. unfold calc_rest.
  apply keeps_then; [keeps|intros s]. apply keeps_then; [keeps|intros _].
  apply keeps_then; [apply keeps_visibility|intros _].
  apply keeps_then; [by apply keeps_store_no|intros _].
  eapply keeps_typed_bind; [by apply (keeps_newvalue p v t)|]. intros x Hx.
  apply keeps_then.
  { apply keeps_store. intros s' Hs' [H1 H2]. split; [done|]. assert (type s' = t) as Hst by congruence. split.
    - cbn. by rewrite Hst.
    - intros Hp'. destruct (H2 Hp') as [Hu _]. congruence. }
  intros _. pose proof keeps_calc_choice. pose proof keeps_validate_range. pose proof keeps_note_change.
  pose proof keeps_update_choice. pose proof keeps_serve. unfold clear_auto. keeps.
Qed.

Lemma keeps_body p : keeps tys (calc_body calc p) any.
Proof.
  pose proof keeps_calc_opt. unfold calc_body. apply keeps_then; [keeps|intros s].
  destruct (has_flag SYMBOL_VALID s); [apply keeps_skip|].
  apply keeps_then; [keeps|intros _]. apply keeps_then; [keeps|intros _].
  eapply keeps_typed_bind; [apply keeps_load|]. intros x [Hx _].
  assert (Hrest : ∀ q, is_start q → type x ≠ S_UNKNOWN →
    keeps tys (y ← load q; calc_rest calc p (curr x) (curr y)) any).
  { intros q Hq Hu. eapply keeps_typed_bind; [apply keeps_load|]. intros y [_ [_ Hy]].
    apply (keeps_rest p _ _ (type x)); [done|done|by apply Hy]. }
  destruct (type x); first [by apply keeps_store_no|apply Hrest; [by (left + right)|done]].
Qed.

End Calc.

(** ** The theorem *)

Section Functions.
Context `{ValueBytes}.

Lemma keeps_calc tys fuel p : keeps tys (sym_calc_value fuel p) any.
Proof. revert p. induction fuel as [|fuel IH]; intros p; [apply keeps_typed_fuel|]. by apply keeps_body. Qed.

Lemma typed_string calc q s st :
  typed st → syms (stab st) !! q = Some s → type s = S_BOOLEAN →
  ∃ b : bool, sym_get_string_value calc q st = Ret (V_str (lit (if b then "y" else "n"))) st.
Proof.
  intros Ht Hq Hs. destruct (Ht q s Hq) as [Hf _]. rewrite Hs in Hf.
  unfold sym_get_string_value, mbind, Eff_bind, load. rewrite Hq, Hs.
  destruct (tri (curr s)); [by exists false|done|by exists true].
Qed.

(** C20: Values have the type of their symbol, for every table: with choices,
    selections, modules and cycles. If no boolean symbol is at [m], no number or
    string has a tristate, and the constant [n] and the empty symbol, with whose
    values calculations start, have no type and are [n], then a calculation,
    which returns or follows a null pointer, leaves it so for every symbol of the
    table, changes no type, and the text of a boolean symbol afterwards is [y] or
    [n]. *)
Theorem calculated_values_typed fuel p st :
  3 * size (syms (stab st)) < fuel → typed st →
  sym_calc_value fuel p st = Fault ∨
  ∃ st', sym_calc_value fuel p st = Ret tt st' ∧ typed st' ∧
    (∀ q, type <$> syms (stab st') !! q = type <$> syms (stab st) !! q) ∧
    ∀ calc q s, syms (stab st') !! q = Some s → type s = S_BOOLEAN →
      ∃ b : bool, sym_get_string_value calc q st' = Ret (V_str (lit (if b then "y" else "n"))) st'.
Proof.
  intros Hf Ht. pose proof (map_total_size weight 3 (syms (stab st)) weight_bound) as Hs.
  destruct fuel as [|k]; [lia|].
  pose proof (bounded_calc k p st ltac:(unfold measure; lia)) as Hb. unfold spec in Hb.
  pose proof (keeps_calc (λ q, type <$> syms (stab st) !! q) (Datatypes.S k) p st (conj Ht (λ _, eq_refl))) as Hk.
  destruct (sym_calc_value (Datatypes.S k) p st) as [[] st'| |]; [|by left|done].
  destruct Hk as [[Ht' Hty] _]. right. exists st'. split_and!; [done|done|done|].
  intros calc q s Hq Hb'. by eapply typed_string.
Qed.

End Functions.

(** ** Example *)

(** A boolean that defaults to [m], and a number with the user's text. *)
Definition typed_state : sym_state :=
  mkSt (mkTab (<[sym_at 1 := mk_bool "A" 0 [default_prop (E_SYMBOL symbol_mod)]]>
              (<[sym_at 2 := set_type S_INT (mk_bool "B" 0 [])]> (syms empty_tab))) ∅ 3)
    None tri_no [] 0 [].

Lemma calculated_values_typed_witness :
  3 * size (syms (stab typed_state)) < 19 ∧ typed typed_state ∧
  (sym_calc_value 19 (sym_at 1) typed_state = Fault ∨
   ∃ st', sym_calc_value 19 (sym_at 1) typed_state = Ret tt st' ∧ typed st' ∧
     (∀ q, type <$> syms (stab st') !! q = type <$> syms (stab typed_state) !! q) ∧
     ∀ calc q s, syms (stab st') !! q = Some s → type s = S_BOOLEAN →
       ∃ b : bool, sym_get_string_value calc q st' = Ret (V_str (lit (if b then "y" else "n"))) st').
Proof.
  assert (H : 3 * size (syms (stab typed_state)) < 19) by (vm_compute; lia).
  assert (Ht : typed typed_state).
  { intros p s Hs. apply elem_of_map_to_list in Hs. vm_compute in Hs.
    repeat (apply elem_of_cons in Hs as [Hs|Hs]; [injection Hs as -> ->; split; [done|by intros [|]]|]).
    by apply elem_of_nil in Hs. }
  split; [exact H|]. split; [exact Ht|]. exact (calculated_values_typed 19 (sym_at 1) typed_state H Ht).
Defined.

(** The calculation stores [y] for the boolean, not [m]. *)
Example typed_state_value :
  match sym_calc_value 19 (sym_at 1) typed_state with
  | Ret _ st' => tri (curr (sym (stab st') (sym_at 1)))
  | _ => tri_no
  end = tri_yes.
Proof. by vm_compute. Qed.
