(* ===== verification/KconfigSymSpec.v ===== *)
(** * Kconfig symbols: what the calculation computes

    The value of a symbol is defined by equations: its prompts, its
    dependencies, its selections, its user value, its defaults and its range,
    over the values of the symbols that these name. [sym_calc_value] fills the
    symbols on demand, in place, with marks against recursion; here it is shown
    to compute the solution of the equations when the references are acyclic
    and there are no choices, and to leave what was calculated before alone. *)

From stdpp Require Import base option strings gmap list.
From Stdlib Require Import ZArith Lia.
From S2P Require Import Prelude Effects KconfigExpr KconfigExprSem KconfigSymtab KconfigConf KconfigSym KconfigSymTerm.
Local Open Scope nat_scope.

(** ** The equations *)

Section Equations.
Context (mv : tristate) (ty : symp → symbol_type) (sem : symp → symbol_value).

Definition as_str (v : sval) : cstring := match v with V_str t => t | _ => [] end.

(** The string value of a symbol. *)
Definition str_spec (t : symbol_type) (v : symbol_value) : cstring :=
  match t with
  | S_BOOLEAN | S_TRISTATE =>
      match tri v with
      | tri_no => lit "n"
      | tri_mod => lit (if decide (mv = tri_no) then "n" else "m")
      | tri_yes => lit "y"
      end
  | _ => as_str (val v)
  end.

(** The valuation of expressions. *)
Definition val_spec : valuation := {|
  v_tri p := tri (sem p);
  v_str p := String.string_of_list_ascii (str_spec (ty p) (sem p));
|}.

Definition ev (e : option expr) : tristate := expr_calc_value_opt val_spec e.

(** The type when modules are off. *)
Definition type_spec (s : symbol) : symbol_type :=
  if decide (type s = S_TRISTATE) then if decide (mv = tri_no) then S_BOOLEAN else S_TRISTATE
  else type s.

Definition prompt_or (acc : tristate) (pr : property) : tristate :=
  match p_text pr with Some _ => EXPR_OR acc (ev (ev_expr (p_visible pr))) | None => acc end.

Definition vis_spec (s : symbol) : tristate :=
  let t := foldl prompt_or tri_no (props s) in
  if decide (t = tri_mod ∧ (type s ≠ S_TRISTATE ∨ mv = tri_no)) then tri_yes else t.

Definition dir_spec (s : symbol) : tristate :=
  let t := ev (ev_expr (dir_dep s)) in if decide (t = tri_mod) then tri_yes else t.

Definition rev_spec (s : symbol) : tristate :=
  let t := match ev_expr (rev_dep s) with None => tri_no | Some e => ev (Some e) end in
  if decide (t = tri_mod ∧ type_spec s = S_BOOLEAN) then tri_yes else t.

(** The first visible property of a type: its expression and visibility. *)
Fixpoint find_visible (t : prop_type) (l : list property) : option (option expr * tristate) :=
  match l with
  | [] => None
  | pr :: l =>
      if decide (p_type pr = t) then
        let v := ev (ev_expr (p_visible pr)) in
        if decide (v = tri_no) then find_visible t l else Some (p_expr pr, v)
      else find_visible t l
  end.

Definition user_wins (s : symbol) : bool := bool_decide (vis_spec s ≠ tri_no) && sym_has_value s.

Definition tri_spec (s : symbol) : tristate :=
  let t := EXPR_OR
    (if user_wins s then EXPR_AND (tri (get_def S_DEF_USER s)) (vis_spec s)
     else match find_visible P_DEFAULT (props s) with
          | Some (e, v) => EXPR_AND (ev e) v
          | None => tri_no
          end)
    (rev_spec s) in
  if decide (t = tri_mod ∧ type_spec s = S_BOOLEAN) then tri_yes else t.

Definition expr_symbol (e : option expr) : option symp :=
  match e with Some (E_SYMBOL s) => Some s | _ => None end.

Definition raw_spec (s : symbol) : sval :=
  if user_wins s then val (get_def S_DEF_USER s)
  else match find_visible P_DEFAULT (props s) ≫= (λ ev, expr_symbol ev.1) with
       | Some ds => val (sem ds)
       | None => V_str []
       end.

Definition number (p : symp) (base : Z) : Z :=
  strtoll (as_str (val (sem p))) (range_base (ty p) base).

Definition print_number (t : symbol_type) (v : Z) : cstring :=
  if decide (t = S_INT) then print_lld v else print_0xllx v.

(** A number is moved into its range. *)
Definition clamp_number (s : symbol) (base : Z) (v : sval) : sval :=
  match find_visible P_RANGE (props s) with
  | Some (Some (E_RANGE l r), _) =>
      let x := strtoll (as_str v) base in
      if (number l base <=? x)%Z then
        if (x <=? number r base)%Z then v else V_str (print_number (type s) (number r base))
      else V_str (print_number (type s) (number l base))
  | _ => v
  end.

Definition clamp_spec (s : symbol) (v : sval) : sval :=
  match type s with
  | S_INT | S_HEX => clamp_number s (range_base (type s) 0) v
  | _ => v
  end.

Definition value_spec (s : symbol) : symbol_value :=
  match type s with
  | S_BOOLEAN | S_TRISTATE => mkVal (V_str (lit "n")) (tri_spec s)
  | S_INT | S_HEX | S_STRING => mkVal (clamp_spec s (raw_spec s)) tri_no
  | _ => mkVal (match name s with Some n => V_str n | None => V_null end) tri_no
  end.

Definition present {A} (o : option A) : bool := match o with Some _ => true | None => false end.

(** Whether the symbol is written to the configuration. *)
Definition write_spec (s : symbol) : bool :=
  negb (has_flag SYMBOL_AUTO s) &&
  (bool_decide (vis_spec s ≠ tri_no) ||
   match type s with
   | S_BOOLEAN | S_TRISTATE =>
       bool_decide (rev_spec s ≠ tri_no) || present (find_visible P_DEFAULT (props s))
   | _ => present (find_visible P_DEFAULT (props s) ≫= (λ ev, expr_symbol ev.1))
   end).

End Equations.

(** ** What does not change *)

Definition erase (pr : property) : property := set_prop_tri tri_no pr.

(** The members that a calculation never changes. *)
Definition static_flags : Z := Z.lnot (Z.lor SYMBOL_VALID (Z.lor SYMBOL_WRITE SYMBOL_CHANGED)).

Definition static (s : symbol) : symbol :=
  mkSym (name s) (type s) (mkVal V_null tri_no) (def s) tri_no (Z.land (flags s) static_flags)
    (erase <$> props s) (mkEV (ev_expr (dir_dep s)) tri_no) (mkEV (ev_expr (rev_dep s)) tri_no).

Lemma has_flag_static f s : Z.land f static_flags = f → has_flag f (static s) = has_flag f s.
Proof.
  intros H. unfold has_flag. simpl. rewrite <-Z.land_assoc, (Z.land_comm static_flags), H. done.
Qed.

Section Static.
Context (mv : tristate) (ty : symp → symbol_type) (sem : symp → symbol_value).

Lemma prompts_static acc l :
  foldl (prompt_or mv ty sem) acc (erase <$> l) = foldl (prompt_or mv ty sem) acc l.
Proof. revert acc. induction l as [|pr l IH]; intros acc; [done|]. apply IH. Qed.

Lemma find_static t l : find_visible mv ty sem t (erase <$> l) = find_visible mv ty sem t l.
Proof. induction l as [|pr l IH]; [done|]. cbn. by rewrite IH. Qed.

Lemma vis_static s : vis_spec mv ty sem (static s) = vis_spec mv ty sem s.
Proof. unfold vis_spec. simpl. by rewrite prompts_static. Qed.

Lemma user_static s : user_wins mv ty sem (static s) = user_wins mv ty sem s.
Proof. unfold user_wins, sym_has_value. by rewrite vis_static, has_flag_static. Qed.

Lemma tri_static s : tri_spec mv ty sem (static s) = tri_spec mv ty sem s.
Proof. unfold tri_spec. rewrite user_static, vis_static. simpl. by rewrite find_static. Qed.

Lemma value_static s : value_spec mv ty sem (static s) = value_spec mv ty sem s.
Proof.
  unfold value_spec. rewrite tri_static. unfold clamp_spec, clamp_number, raw_spec. rewrite user_static. simpl.
  by rewrite !find_static.
Qed.

Lemma write_static s : write_spec mv ty sem (static s) = write_spec mv ty sem s.
Proof. unfold write_spec. rewrite vis_static, has_flag_static by done. simpl. by rewrite find_static. Qed.

End Static.

(** ** The tables for which the equations are solved *)

(** The symbols that an expression refers to, and those that the calculation of
    a symbol reads: the conditions of its prompts, the conditions and the values
    of its defaults and ranges, its dependencies and the conditions under which
    others select it. The targets of its own [select] statements, and the
    property that records where it is declared, are never evaluated. *)
Fixpoint expr_deps (e : expr) : list symp :=
  match e with
  | E_AND l r | E_OR l r => expr_deps l ++ expr_deps r
  | E_NOT l => expr_deps l
  | E_SYMBOL s => [s]
  | E_EQUAL l r | E_UNEQUAL l r | E_RANGE l r => [l; r]
  | E_LIST _ _ => []
  end.

Definition opt_deps (e : option expr) : list symp :=
  match e with Some e => expr_deps e | None => [] end.

(** A property whose expression the calculation evaluates, and one whose
    condition it evaluates. *)
Definition is_value_prop (pr : property) : bool :=
  bool_decide (p_type pr = P_DEFAULT) || bool_decide (p_type pr = P_RANGE).
Definition is_evaluated (pr : property) : bool := present (p_text pr) || is_value_prop pr.

Definition prop_deps (pr : property) : list symp :=
  (if is_evaluated pr then opt_deps (ev_expr (p_visible pr)) else []) ++
  (if is_value_prop pr then opt_deps (p_expr pr) else []).

Definition deps (s : symbol) : list symp :=
  (props s ≫= prop_deps) ++ opt_deps (ev_expr (dir_dep s)) ++ opt_deps (ev_expr (rev_dep s)).

Definition choice_flags_mask : Z :=
  Z.lor SYMBOL_CHOICE (Z.lor SYMBOL_CHOICEVAL SYMBOL_NEED_SET_CHOICE_VALUES).

Definition is_number (s : symbol) : bool :=
  bool_decide (type s = S_INT) || bool_decide (type s = S_HEX).

Section Solution.
Context (rank : symp → nat) (t0 : gmap symp symbol) (m : symp) (mv : tristate).
Context (sem : symp → symbol_value).
(** The symbols whose write flag has been taken back since, as [conf_write]
    does with what it has written. *)
Context (W : symp → Prop).

Definition ty (p : symp) : symbol_type := from_option type S_UNKNOWN (t0 !! p).

(** A symbol without choices, whose references go down. *)
Record sym_wf (p : symp) (s : symbol) : Prop := {
  wf_static : static s = s;
  wf_deps : ∀ d, d ∈ deps s → rank d < rank p ∧ is_Some (t0 !! d);
  wf_flags : Z.land (flags s) choice_flags_mask = 0%Z;
  wf_range : ∀ pr, pr ∈ props s → p_type pr = P_RANGE → ∃ l r, p_expr pr = Some (E_RANGE l r);
  wf_user : (type s = S_INT ∨ type s = S_HEX ∨ type s = S_STRING) → sym_has_value s = true →
            ∃ t, val (get_def S_DEF_USER s) = V_str t;
}.

(** [sem] solves the equations of the table [t0], with strings as values. *)
Record solves : Prop := {
  sol_wf : ∀ p s, t0 !! p = Some s → is_static p = false → sym_wf p s;
  sol_eq : ∀ p s, t0 !! p = Some s → is_static p = false → sem p = value_spec mv ty sem s;
  sol_str : ∀ p s, t0 !! p = Some s → ∃ t, val (sem p) = V_str t;
  sol_mod : tri (sem m) = mv;
}.

Context (Hsol : solves).

(** A calculated symbol. *)
Definition solved (p : symp) (s : symbol) : Prop :=
  curr s = sem p ∧
  (is_static p = false → type s ≠ S_UNKNOWN → type s ≠ S_OTHER →
     visible s = vis_spec mv ty sem s ∧ ev_tri (dir_dep s) = dir_spec mv ty sem s ∧
     ev_tri (rev_dep s) = rev_spec mv ty sem s ∧
     (¬ W p → has_flag SYMBOL_WRITE s = write_spec mv ty sem s)).

Definition at_sym (p : symp) (st : sym_state) (s : symbol) : Prop := syms (stab st) !! p = Some s.

(** A literal, or a symbol that only a configuration file knows. *)
Definition untyped (s : symbol) : Prop := type s = S_UNKNOWN ∨ type s = S_OTHER.

(** The state while symbols below the rank [n] are calculated: those that are
    marked are solved. *)
Record inv (n : nat) (st : sym_state) : Prop := {
  inv_static : ∀ p, static <$> syms (stab st) !! p = t0 !! p;
  inv_mod : modules_sym st = Some m;
  inv_mv : modules_val st = mv;
  inv_m : ∃ s, at_sym m st s ∧ has_flag SYMBOL_VALID s = true ∧ curr s = sem m;
  inv_no : ∃ s, at_sym symbol_no st s ∧ has_flag SYMBOL_VALID s = true ∧
             curr s = mkVal (V_str (lit "n")) tri_no;
  inv_empty : ∃ s, at_sym symbol_empty st s ∧ has_flag SYMBOL_VALID s = true ∧
             curr s = mkVal (V_str []) tri_no;
  inv_const : ∀ p s, is_static p = true → at_sym p st s → has_flag SYMBOL_VALID s = true;
  inv_untyped : ∀ p s, is_static p = false → at_sym p st s → untyped s → has_flag SYMBOL_WRITE s = false;
  inv_solved : ∀ p s, at_sym p st s → rank p < n → has_flag SYMBOL_VALID s = true → solved p s;
}.

(** What is marked or has rank [n] or more stays as it is, [X] apart. *)
Definition frame (n : nat) (X : option symp) (st st' : sym_state) : Prop :=
  ∀ q s, at_sym q st s → has_flag SYMBOL_VALID s = true ∨ n ≤ rank q → Some q ≠ X → at_sym q st' s.

Lemma frame_refl n X st : frame n X st st.
Proof. by intros q s. Qed.

Lemma frame_trans n X st1 st2 st3 : frame n X st1 st2 → frame n X st2 st3 → frame n X st1 st3.
Proof. intros H1 H2 q s Hq Hv HX. apply H2; [by apply H1|done|done]. Qed.

Lemma frame_weaken n X st st' : frame n None st st' → frame n X st st'.
Proof. intros H q s Hq Hv _. by apply H. Qed.

Lemma inv_below n k st : k ≤ n → inv n st → inv k st.
Proof. intros Hk []. split; try done. intros p s Hp Hr. apply inv_solved0; [done|lia]. Qed.

Lemma inv_lookup n st p s0 : inv n st → t0 !! p = Some s0 → ∃ s, at_sym p st s ∧ static s = s0.
Proof.
  intros Hi Hp. rewrite <-(inv_static _ _ Hi p) in Hp. apply fmap_Some in Hp as (s & Hs & ->). eauto.
Qed.

Lemma inv_type n st p s : inv n st → at_sym p st s → t0 !! p = Some (static s) ∧ ty p = type s.
Proof.
  intros Hi Hp. assert (H : t0 !! p = Some (static s)).
  { rewrite <-(inv_static _ _ Hi p). unfold at_sym in Hp. by rewrite Hp. }
  split; [done|]. unfold ty. by rewrite H.
Qed.

(** The value that [str_spec] gives a solved symbol is the string that the
    code sees. *)

(** ** The calculation of symbols of lower rank *)

(** What a call for a symbol of rank below [n] does. *)
Definition calc_ok (n : nat) (calc : symp → M unit) : Prop :=
  ∀ p st, rank p < n → is_Some (t0 !! p) → inv n st →
  spec False (calc p) st (λ _ st', inv n st' ∧ frame n None st st' ∧
    ∃ s, at_sym p st' s ∧ has_flag SYMBOL_VALID s = true).

(** A call for a marked symbol does nothing. *)
Definition calc_valid (calc : symp → M unit) : Prop :=
  ∀ p st s, at_sym p st s → has_flag SYMBOL_VALID s = true → calc p st = Ret tt st.

Section Body.
Context (n : nat) (calc : symp → M unit) (Hcalc : calc_ok n calc) (Hvalid : 0 < n → calc_valid calc).

(** The triple of the computations that only calculate other symbols. *)
Definition pure {A} (c : M A) (st : sym_state) (Q : A → sym_state → Prop) : Prop :=
  spec False c st (λ a st', inv n st' ∧ frame n None st st' ∧ Q a st').

Lemma pure_bind {A B} (c : M A) (f : A → M B) st (Q : A → sym_state → Prop) (R : B → sym_state → Prop) :
  pure c st Q → (∀ a st', inv n st' → frame n None st st' → Q a st' → pure (f a) st' R) →
  pure (c ≫= f) st R.
Proof.
  intros Hc Hf. apply spec_bind. eapply spec_mono; [exact Hc|]. intros a st' (Hi & Hfr & Ha).
  eapply spec_mono; [by apply Hf|]. intros b st'' (Hi' & Hfr' & Hb).
  split; [done|]. split; [by eapply frame_trans|done].
Qed.

Lemma pure_ret {A} (a : A) st (Q : A → sym_state → Prop) : inv n st → Q a st → pure (mret a) st Q.
Proof. intros Hi HQ. apply spec_ret. split; [done|]. split; [apply frame_refl|done]. Qed.

Lemma pure_load p st s (Q : symbol → sym_state → Prop) :
  inv n st → at_sym p st s → Q s st → pure (load p) st Q.
Proof.
  intros Hi Hp HQ. apply spec_load; unfold at_sym in Hp; [|congruence].
  intros s' Hs'. assert (s' = s) as -> by congruence. split; [done|]. split; [apply frame_refl|done].
Qed.

Lemma pure_calc p st :
  inv n st → rank p < n → is_Some (t0 !! p) →
  pure (calc p) st (λ _ st', ∃ s, at_sym p st' s ∧ has_flag SYMBOL_VALID s = true ∧ solved p s).
Proof.
  intros Hi Hr Hp. eapply spec_mono; [by apply Hcalc|]. intros _ st' (Hi' & Hf & s & Hs & Hv).
  split; [done|]. split; [done|]. exists s. split; [done|]. split; [done|].
  by apply (inv_solved _ _ Hi').
Qed.

Lemma pure_curr_tri p st s :
  inv n st → at_sym p st s → pure (curr_tri p) st (λ t st', t = tri (curr s)).
Proof. intros Hi Hs. eapply pure_bind; [by eapply pure_load with (Q := λ x _, x = s)|]. intros ? st' ? _ ->. by apply pure_ret. Qed.

Lemma pure_gets {A} (f : sym_state → A) st (Q : A → sym_state → Prop) :
  inv n st → Q (f st) st → pure (gets f) st Q.
Proof. intros Hi HQ. split; [done|]. split; [apply frame_refl|done]. Qed.

(** The state of modules is that of the symbol. *)
Lemma pure_modules_tri st : inv n st → pure modules_tri st (λ t _, t = mv).
Proof.
  intros Hi. eapply pure_bind; [by apply pure_gets with (Q := λ o _, o = Some m); [|apply Hi]|].
  intros ? st' Hi' _ ->. destruct (inv_m _ _ Hi') as (sm & Hm & _ & Hc).
  eapply spec_mono; [by eapply pure_curr_tri|]. intros t st'' (? & ? & ->).
  rewrite Hc, (sol_mod Hsol). done.
Qed.

Lemma pure_calc_modules st :
  0 < n → inv n st → pure (m ← gets modules_sym; calc_opt calc m) st (λ _ _, True).
Proof.
  intros Hn Hi. eapply pure_bind; [by apply pure_gets with (Q := λ o _, o = Some m); [|apply Hi]|].
  intros ? st' Hi' _ ->. destruct (inv_m _ _ Hi') as (sm & Hm & Hv & _).
  unfold pure, spec. simpl. rewrite (Hvalid Hn _ _ _ Hm Hv). split; [done|]. split; [apply frame_refl|done].
Qed.

(** The string of a solved symbol. *)
Lemma pure_string p st s :
  0 < n → inv n st → at_sym p st s → solved p s →
  pure (sym_get_string_value calc p) st (λ v _, v = V_str (str_spec mv (ty p) (sem p))).
Proof.
  intros Hn Hi Hs [Hc _]. destruct (inv_type _ _ _ _ Hi Hs) as [Ht Hty].
  destruct (sol_str Hsol p _ Ht) as [x Hx].
  eapply pure_bind; [by eapply pure_load with (Q := λ x _, x = s)|]. intros ? st' Hi' Hf ->.
  rewrite Hty, Hc. unfold str_spec.
  assert (Hmod : pure (m ← gets modules_sym; _ ← calc_opt calc m; t ← modules_tri;
      mret (V_str (lit (if decide (t = tri_no) then "n" else "m")))) st'
      (λ v _, v = V_str (lit (if decide (mv = tri_no) then "n" else "m")))).
  { pose proof (pure_calc_modules st' Hn Hi') as Hcm. unfold pure, spec in Hcm. simpl in Hcm.
    unfold pure, spec. simpl. unfold mbind, Eff_bind, gets in *.
    destruct (calc_opt calc (modules_sym st') st') as [[] st2| |]; try done.
    destruct Hcm as (Hi2 & Hf2 & _). pose proof (pure_modules_tri st2 Hi2) as Hm. unfold pure, spec in Hm.
    destruct (modules_tri st2) as [t st3| |]; try done. destruct Hm as (Hi3 & Hf3 & ->).
    split; [done|]. split; [by eapply frame_trans|done]. }
  destruct (type s); try (apply pure_ret; [done|]; by rewrite Hx).
  all: destruct (tri (sem p)); [by apply pure_ret|exact Hmod|by apply pure_ret].
Qed.

Lemma string_inj (a b : cstring) :
  String.string_of_list_ascii a = String.string_of_list_ascii b ↔ a = b.
Proof.
  split; [|by intros ->]. intros H. apply (f_equal String.list_ascii_of_string) in H.
  by rewrite !String.list_ascii_of_string_of_list_ascii in H.
Qed.

Lemma pure_same_strings l r st :
  inv n st → (∀ d, d ∈ [l; r] → rank d < n ∧ is_Some (t0 !! d)) →
  pure (same_strings calc l r) st (λ b _, b = bool_decide (v_str (val_spec mv ty sem) l = v_str (val_spec mv ty sem) r)).
Proof.
  intros Hi Hd. destruct (Hd l ltac:(left)) as [Hl Hl0].
  destruct (Hd r ltac:(right; left)) as [Hr Hr0].
  eapply pure_bind; [by apply pure_calc|]. intros _ st1 Hi1 _ (sl & Hsl & Hvl & Hsol1).
  eapply pure_bind; [by apply pure_calc|]. intros _ st2 Hi2 Hf2 (sr & Hsr & Hvr & Hsol2).
  pose proof (Hf2 _ _ Hsl (or_introl Hvl) ltac:(done)) as Hsl2.
  eapply pure_bind; [by eapply pure_string; [lia|..]|]. intros v1 st3 Hi3 Hf3 ->.
  pose proof (Hf3 _ _ Hsr (or_introl Hvr) ltac:(done)) as Hsr3.
  eapply pure_bind; [by eapply pure_string; [lia|..]|]. intros v2 st4 Hi4 _ ->.
  apply pure_ret; [done|]. simpl. apply bool_decide_ext. symmetry. apply string_inj.
Qed.

(** Expressions have the value that the solution gives them. *)
Lemma pure_expr e st :
  inv n st → (∀ d, d ∈ expr_deps e → rank d < n ∧ is_Some (t0 !! d)) →
  pure (calc_expr calc e) st (λ t _, t = expr_calc_value (val_spec mv ty sem) e).
Proof.
  revert st. induction e as [l IHl r IHr|l IHl r IHr|l IHl|l r|l r|l r|p|l r]; intros st Hi Hd;
    simpl in Hd |- *; try (by apply pure_ret).
  - eapply pure_bind; [apply IHl; [done|]; intros d ?; apply Hd; set_solver|]. intros ? st1 Hi1 _ ->.
    eapply pure_bind; [apply IHr; [done|]; intros d ?; apply Hd; set_solver|]. intros ? st2 Hi2 _ ->.
    by apply pure_ret.
  - eapply pure_bind; [apply IHl; [done|]; intros d ?; apply Hd; set_solver|]. intros ? st1 Hi1 _ ->.
    eapply pure_bind; [apply IHr; [done|]; intros d ?; apply Hd; set_solver|]. intros ? st2 Hi2 _ ->.
    by apply pure_ret.
  - eapply pure_bind; [apply IHl; [done|]; intros d ?; apply Hd; set_solver|]. intros ? st1 Hi1 _ ->.
    by apply pure_ret.
  - eapply pure_bind; [by apply pure_same_strings|]. intros ? st1 Hi1 _ ->. by apply pure_ret.
  - eapply pure_bind; [by apply pure_same_strings|]. intros ? st1 Hi1 _ ->. by apply pure_ret.
  - destruct (Hd p ltac:(left)) as [Hr Hp].
    eapply pure_bind; [by apply pure_calc|]. intros _ st1 Hi1 _ (s & Hs & _ & Hc & _).
    eapply spec_mono; [by eapply pure_curr_tri|]. intros t st2 (? & ? & ->).
    split; [done|]. split; [done|]. simpl. by rewrite Hc.
Qed.

Lemma pure_expr_opt e st :
  inv n st → (∀ d, d ∈ opt_deps e → rank d < n ∧ is_Some (t0 !! d)) →
  pure (calc_expr_opt calc e) st (λ t _, t = ev mv ty sem e).
Proof. intros Hi Hd. destruct e; [by apply pure_expr|by apply pure_ret]. Qed.

(** ** The symbol being calculated *)

Section Self.
Context (p : symp) (s0 : symbol).
Context (Hp0 : t0 !! p = Some s0) (Hps : is_static p = false) (Hpm : p ≠ m) (Hrank : n = rank p).

(** The triple of the computations that also change [p]. *)
Definition prog {A} (c : M A) (st : sym_state) (Q : A → sym_state → Prop) : Prop :=
  spec False c st (λ a st', inv n st' ∧ frame n (Some p) st st' ∧ Q a st').

(** The record of [p] while it is calculated. *)
Definition self (st : sym_state) (s : symbol) : Prop :=
  at_sym p st s ∧ has_flag SYMBOL_VALID s = true.

Lemma prog_bind {A B} (c : M A) (f : A → M B) st (Q : A → sym_state → Prop) (R : B → sym_state → Prop) :
  prog c st Q → (∀ a st', inv n st' → Q a st' → prog (f a) st' R) → prog (c ≫= f) st R.
Proof.
  intros Hc Hf. apply spec_bind. eapply spec_mono; [exact Hc|]. intros a st' (Hi & Hfr & Ha).
  eapply spec_mono; [by apply Hf|]. intros b st'' (Hi' & Hfr' & Hb).
  split; [done|]. split; [by eapply frame_trans|done].
Qed.

Lemma prog_mono {A} (c : M A) st (Q R : A → sym_state → Prop) :
  prog c st Q → (∀ a st', inv n st' → Q a st' → R a st') → prog c st R.
Proof. intros Hc H. eapply spec_mono; [exact Hc|]. intros a st' (? & ? & ?). auto. Qed.

Lemma prog_ret {A} (a : A) st (Q : A → sym_state → Prop) : inv n st → Q a st → prog (mret a) st Q.
Proof. intros Hi HQ. apply spec_ret. split; [done|]. split; [apply frame_refl|done]. Qed.

Lemma prog_pure {A} (c : M A) st s (Q : A → sym_state → Prop) :
  self st s → pure c st Q → prog c st (λ a st', Q a st' ∧ self st' s).
Proof.
  intros [Hs Hv] Hc. eapply spec_mono; [exact Hc|]. intros a st' (Hi & Hf & HQ).
  split; [done|]. split; [by apply frame_weaken|]. split; [done|]. split; [|done]. apply Hf; auto.
Qed.

Lemma prog_load st s (R : symbol → sym_state → Prop) :
  inv n st → self st s → R s st → prog (load p) st R.
Proof.
  intros Hi [Hs _] HR. apply spec_load; unfold at_sym in Hs; [|congruence].
  intros x Hx. assert (x = s) as -> by congruence. split; [done|]. split; [apply frame_refl|done].
Qed.

Lemma self_static st s : inv n st → self st s → static s = s0.
Proof. intros Hi [Hs _]. destruct (inv_type _ _ _ _ Hi Hs) as [H _]. congruence. Qed.

(** An assignment to a member of [p] that is not static. *)
Lemma prog_store_at st s f :
  inv n st → at_sym p st s → static (f s) = static s → has_flag SYMBOL_VALID (f s) = true →
  (untyped s → has_flag SYMBOL_WRITE s = false → has_flag SYMBOL_WRITE (f s) = false) →
  prog (store p f) st (λ _ st', self st' (f s)).
Proof.
  intros Hi Hs Hst Hv' Hun. apply spec_store; unfold at_sym in Hs; [|congruence]. intros x Hx.
  assert (x = s) as -> by congruence.
  assert (Hne : ∀ q, q ≠ p → syms (upd p f (stab st)) !! q = syms (stab st) !! q).
  { intros q Hq. by apply upd_lookup_ne. }
  assert (Heq : syms (upd p f (stab st)) !! p = Some (f s)) by (rewrite upd_lookup, Hs; done).
  assert (Hcase : ∀ q x, syms (upd p f (stab st)) !! q = Some x →
    q = p ∧ x = f s ∨ q ≠ p ∧ syms (stab st) !! q = Some x).
  { intros q x Hq. destruct (decide (q = p)) as [->|Hn]; [left|right; by rewrite <-Hne].
    split; [done|congruence]. }
  split_and!.
  - destruct Hi. split; try done; unfold at_sym in *; cbn [stab set_stab].
    + intros q. destruct (decide (q = p)) as [->|Hq]; [|by rewrite Hne].
      rewrite Heq. specialize (inv_static0 p). rewrite Hs in inv_static0. simpl in *. congruence.
    + by rewrite Hne.
    + rewrite Hne by (by intros <-). done.
    + rewrite Hne by (by intros <-). done.
    + intros q y Hq [[-> ->]|[_ Hy]]%Hcase; [done|by eapply inv_const0].
    + intros q y Hq [[-> ->]|[_ Hy]]%Hcase Hy'; [|by eapply inv_untyped0].
      assert (untyped s) by (unfold untyped in *; by rewrite <-(f_equal type Hst : type s = type (f s)) || by rewrite (f_equal type (eq_sym Hst) : type s = type (f s))).
      apply Hun; [done|by eapply inv_untyped0].
    + intros q y [[-> ->]|[_ Hy]]%Hcase; [lia|by apply inv_solved0].
  - intros q y Hy Hvy Hq. unfold at_sym. cbn [stab set_stab]. rewrite Hne; [done|]. by intros ->.
  - by split.
Qed.

Lemma prog_store st s f :
  inv n st → self st s → static (f s) = static s → has_flag SYMBOL_VALID (f s) = true →
  (untyped s → has_flag SYMBOL_WRITE s = false → has_flag SYMBOL_WRITE (f s) = false) →
  prog (store p f) st (λ _ st', self st' (f s)).
Proof. intros Hi [Hs _]. by apply prog_store_at. Qed.

Lemma deps_wf d : d ∈ deps s0 → rank d < n ∧ is_Some (t0 !! d).
Proof. rewrite Hrank. apply (sol_wf Hsol p s0 Hp0 Hps). Qed.

Lemma erase_alter t i (l : list property) : erase <$> alter (set_prop_tri t) i l = erase <$> l.
Proof.
  revert i. induction l as [|pr l IH]; intros [|i]; [done|done|done|].
  change (alter (set_prop_tri t) (S i) (pr :: l)) with (pr :: alter (set_prop_tri t) i l).
  by rewrite !fmap_cons, IH.
Qed.

Lemma set_props_static s (l : list property) : erase <$> l = erase <$> props s → static (set_props l s) = static s.
Proof. intros H. unfold static. simpl. by rewrite H. Qed.

(** The properties as the table has them. *)
Lemma self_props st s : inv n st → self st s → props s0 = erase <$> props s.
Proof. intros Hi Hs. by rewrite <-(self_static st s Hi Hs). Qed.

Lemma self_lookup st s i pr :
  inv n st → self st s → props s !! i = Some pr → props s0 !! i = Some (erase pr).
Proof. intros Hi Hs Hpr. rewrite (self_props st s Hi Hs), list_lookup_fmap, Hpr. done. Qed.

Lemma prop_deps_wf i pr d : props s0 !! i = Some pr → d ∈ prop_deps pr → rank d < n ∧ is_Some (t0 !! d).
Proof.
  intros Hi Hd. apply deps_wf. unfold deps. apply elem_of_app. left.
  apply list_elem_of_bind. exists pr. split; [done|]. by eapply list_elem_of_lookup_2.
Qed.

(** Some properties of [p] have been evaluated. *)
Definition self_props_of (st : sym_state) (s : symbol) : Prop := ∃ l, self st (set_props l s).

Lemma self_props_refl st s : self st s → self_props_of st s.
Proof. intros Hs. exists (props s). by destruct s. Qed.

Lemma self_props_trans st s l : self_props_of st (set_props l s) → self_props_of st s.
Proof. intros [l' Hs]. by exists l'. Qed.

Lemma calc_prop_visible_ok st s i pr :
  inv n st → self st s → props s !! i = Some pr → is_evaluated pr = true →
  prog (calc_prop_visible calc p i pr) st
    (λ t st', t = ev mv ty sem (ev_expr (p_visible pr)) ∧ self_props_of st' s).
Proof.
  intros Hi Hs Hpr Hev. pose proof (self_lookup _ _ _ _ Hi Hs Hpr) as Hpr0.
  eapply prog_bind; [eapply prog_pure; [exact Hs|]|].
  { apply pure_expr_opt; [done|]. intros d Hd. eapply prop_deps_wf; [exact Hpr0|].
    unfold prop_deps. apply elem_of_app. left.
    change (is_evaluated (erase pr)) with (is_evaluated pr). by rewrite Hev. }
  intros t st1 Hi1 [-> Hs1]. eapply prog_bind.
  { apply (prog_store st1 s); [done|done| |by destruct Hs1|done].
    apply set_props_static, erase_alter. }
  cbv beta. intros ? st2 Hi2 Hs2. apply prog_ret; [done|]. split; [done|]. eexists. exact Hs2.
Qed.

Definition found (t : prop_type) (l : list property) (r : option (property * tristate)) : Prop :=
  match r with
  | None => find_visible mv ty sem t l = None
  | Some (pr, v) => find_visible mv ty sem t l = Some (p_expr pr, v) ∧ p_type pr = t ∧ erase pr ∈ l
  end.

Lemma found_skip t l pr r :
  (p_type pr = t → ev mv ty sem (ev_expr (p_visible pr)) = tri_no) → found t l r → found t (erase pr :: l) r.
Proof.
  intros Hpr Hf. assert (H : find_visible mv ty sem t (erase pr :: l) = find_visible mv ty sem t l).
  { simpl. case_decide as E; [|done]. by rewrite decide_True by (by apply Hpr). }
  destruct r as [[pr' v]|]; unfold found in *; rewrite H; [|done].
  destruct Hf as (? & ? & ?). split_and!; [done|done|by right].
Qed.

Lemma value_prop_of t pr : t = P_DEFAULT ∨ t = P_RANGE → p_type pr = t → is_value_prop pr = true.
Proof. intros Ht <-. unfold is_value_prop. by destruct Ht as [-> | ->]. Qed.

Lemma visible_prop_ok t k i st s :
  t = P_DEFAULT ∨ t = P_RANGE → inv n st → self st s → i + k = length (props s) →
  prog (visible_prop calc t p k i) st (λ r st', self_props_of st' s ∧ found t (drop i (props s0)) r).
Proof.
  intros Hvt. revert i st s. induction k as [|k IH]; intros i st s Hi Hs Hk.
  - simpl. apply prog_ret; [done|]. split; [by apply self_props_refl|].
    rewrite (self_props st s Hi Hs), drop_ge; [done|]. rewrite length_fmap. lia.
  - simpl. eapply prog_bind; [by eapply prog_load with (R := λ x st', x = s ∧ self st' s)|].
    intros ? st1 Hi1 [-> Hs1]. destruct (lookup_lt_is_Some_2 (props s) i) as [pr Hpr]; [lia|].
    rewrite Hpr. pose proof (self_lookup _ _ _ _ Hi Hs Hpr) as Hpr0.
    rewrite (drop_S _ _ _ Hpr0). case_decide as Et.
    + eapply prog_bind.
      { apply calc_prop_visible_ok; [done..|]. unfold is_evaluated.
        by rewrite (value_prop_of t pr), orb_true_r. } intros v st2 Hi2 [-> [l Hs2]].
      case_decide as Ev.
      * assert (Hlen : S i + k = length (props (set_props l s))).
        { pose proof (self_props _ _ Hi2 Hs2) as H2. rewrite (self_props _ _ Hi Hs) in H2.
          apply (f_equal length) in H2. rewrite !length_fmap in H2. lia. }
        eapply prog_mono; [by apply (IH (S i) st2 (set_props l s))|]. intros r st3 _ [Hsp Hf].
        split; [by eapply self_props_trans|]. by apply found_skip.
      * apply prog_ret; [done|]. split; [by eexists|]. simpl.
        rewrite decide_True, decide_False by done. split_and!; [done|done|by left].
    + eapply prog_mono; [apply (IH (S i) st1 s); [done|done|lia]|]. intros r st2 _ [Hsp Hf].
      split; [done|]. by apply found_skip.
Qed.

Lemma get_visible_prop_ok t st s :
  t = P_DEFAULT ∨ t = P_RANGE → inv n st → self st s →
  prog (sym_get_visible_prop calc t p) st (λ r st', self_props_of st' s ∧ found t (props s0) r).
Proof.
  intros Hvt Hi Hs. eapply prog_bind; [by eapply prog_load with (R := λ x st', x = s ∧ self st' s)|].
  intros ? st1 Hi1 [-> Hs1]. by apply visible_prop_ok.
Qed.

Lemma prompts_ok k i acc st s :
  inv n st → self st s → i + k = length (props s) →
  prog (prompts_visible calc p k i acc) st
    (λ t st', self_props_of st' s ∧ t = foldl (prompt_or mv ty sem) acc (drop i (props s0))).
Proof.
  revert i acc st s. induction k as [|k IH]; intros i acc st s Hi Hs Hk.
  - simpl. apply prog_ret; [done|]. split; [by apply self_props_refl|].
    rewrite (self_props st s Hi Hs), drop_ge; [done|]. rewrite length_fmap. lia.
  - simpl. eapply prog_bind; [by eapply prog_load with (R := λ x st', x = s ∧ self st' s)|].
    intros ? st1 Hi1 [-> Hs1]. destruct (lookup_lt_is_Some_2 (props s) i) as [pr Hpr]; [lia|].
    rewrite Hpr. pose proof (self_lookup _ _ _ _ Hi Hs Hpr) as Hpr0.
    rewrite (drop_S _ _ _ Hpr0). simpl. unfold prompt_or at 2. simpl.
    destruct (p_text pr) as [txt|] eqn:Etxt.
    + eapply prog_bind.
      { apply calc_prop_visible_ok; [done..|]. unfold is_evaluated. by rewrite Etxt. } intros v st2 Hi2 [-> [l Hs2]].
      assert (Hlen : S i + k = length (props (set_props l s))).
      { pose proof (self_props _ _ Hi2 Hs2) as H2. rewrite (self_props _ _ Hi Hs) in H2.
        apply (f_equal length) in H2. rewrite !length_fmap in H2. lia. }
      eapply prog_mono; [by apply (IH (S i) _ st2 (set_props l s))|]. intros r st3 _ [Hsp Hf].
      split; [by eapply self_props_trans|done].
    + apply (IH (S i) _ st1 s); [done|done|lia].
Qed.

(** The menus are not part of the invariant. *)
Lemma inv_same st st' :
  stab st' = stab st → modules_sym st' = modules_sym st → modules_val st' = modules_val st →
  inv n st → inv n st'.
Proof.
  intros Hs Hm Hv []. unfold at_sym in *. split; unfold at_sym; rewrite ?Hs, ?Hm, ?Hv; done.
Qed.

Lemma static_add f s : Z.land f static_flags = 0%Z → static (add_flag f s) = static s.
Proof.
  intros H. unfold static. simpl. f_equal. by rewrite Z.land_lor_distr_l, H, Z.lor_0_r.
Qed.

Lemma static_clear f s : Z.land f static_flags = 0%Z → static (clear_flag f s) = static s.
Proof.
  intros H. unfold static. simpl. f_equal. apply Z.bits_inj'. intros k _.
  apply (f_equal (λ z, Z.testbit z k)) in H. rewrite Z.land_spec, Z.bits_0 in H.
  rewrite !Z.land_spec, Z.ldiff_spec.
  destruct (Z.testbit (flags s) k), (Z.testbit f k), (Z.testbit static_flags k); done.
Qed.

Lemma set_changed_ok st s :
  inv n st → self st s →
  prog (sym_set_changed p) st (λ _ st', self st' (add_flag SYMBOL_CHANGED s)).
Proof.
  intros Hi Hs. pose proof Hs as [Hat Hv].
  assert (Hst : prog (store p (add_flag SYMBOL_CHANGED)) st (λ _ st', self st' (add_flag SYMBOL_CHANGED s))).
  { apply prog_store; [done|done|by apply static_add|by apply has_flag_mono|]. intros _. by rewrite has_flag_add. }
  unfold prog, spec, store, sym_set_changed in *. unfold at_sym in Hat. rewrite Hat in *.
  destruct Hst as (Hi' & Hf & Hs'). split_and!; [by eapply inv_same; [..|exact Hi']|done|done].
Qed.

(** Records that agree on what a calculation produces. *)
Record agree (s s' : symbol) : Prop := {
  ag_curr : curr s' = curr s;
  ag_vis : visible s' = visible s;
  ag_dir : ev_tri (dir_dep s') = ev_tri (dir_dep s);
  ag_rev : ev_tri (rev_dep s') = ev_tri (rev_dep s);
  ag_write : has_flag SYMBOL_WRITE s' = has_flag SYMBOL_WRITE s;
}.

Definition self_like (st : sym_state) (s : symbol) : Prop := ∃ s', self st s' ∧ agree s s'.

Lemma agree_trans s1 s2 s3 : agree s1 s2 → agree s2 s3 → agree s1 s3.
Proof. intros [] []. split; congruence. Qed.

Lemma self_like_props st s : self_props_of st s → self_like st s.
Proof. intros [l Hs]. exists (set_props l s). by split. Qed.

Lemma self_like_trans st s s' : agree s s' → self_like st s' → self_like st s.
Proof. intros Ha (x & Hx & Ha'). exists x. split; [done|by eapply agree_trans]. Qed.

Lemma update_tri_ok get set t st s :
  inv n st → self st s → (∀ t s, static (set t s) = static s) →
  (∀ t s, flags (set t s) = flags s) → (get s = t → set t s = s) →
  prog (update_tri p get set t) st
    (λ _ st', self_like st' (set t s)).
Proof.
  intros Hi Hs Hst Hfl Hget. unfold update_tri.
  eapply prog_bind; [by eapply prog_load with (R := λ x st', x = s ∧ self st' s)|].
  intros ? st1 Hi1 [-> Hs1]. case_decide as E.
  - apply prog_ret; [done|]. rewrite Hget by done. by exists s.
  - eapply prog_bind; [apply (prog_store st1 s); [done|done|done|..]|].
    { unfold has_flag. rewrite Hfl. apply Hs1. } { unfold has_flag. by rewrite Hfl. }
    cbv beta. intros ? st2 Hi2 Hs2. eapply prog_mono; [by apply set_changed_ok|].
    intros ? st3 _ Hs3. eexists. split; [exact Hs3|]. split; try done. by apply has_flag_add.
Qed.

(** The three tristates that the visibility step calculates. *)
Definition calculated (s : symbol) : Prop :=
  visible s = vis_spec mv ty sem s0 ∧ ev_tri (dir_dep s) = dir_spec mv ty sem s0 ∧
  ev_tri (rev_dep s) = rev_spec mv ty sem s0.

Lemma choice_flags_off s : static s = s0 →
  sym_is_choice_value s = false ∧ sym_is_choice s = false ∧
  has_flag SYMBOL_NEED_SET_CHOICE_VALUES s = false.
Proof.
  intros Hs. pose proof (wf_flags _ _ (sol_wf Hsol p s0 Hp0 Hps)) as Hfl. rewrite <-Hs in Hfl.
  assert (H : ∀ f, Z.land f choice_flags_mask = f → Z.land f static_flags = f → has_flag f s = false).
  { intros f Hc Hf. rewrite <-(has_flag_static f s Hf). unfold has_flag. apply negb_false_iff, Z.eqb_eq.
    by rewrite <-Hc, (Z.land_comm f), Z.land_assoc, Hfl. }
  split_and!; by apply H.
Qed.

Lemma not_choice_value st s : inv n st → self st s →
  sym_is_choice_value s = false ∧ sym_is_choice s = false ∧
  has_flag SYMBOL_NEED_SET_CHOICE_VALUES s = false.
Proof. intros Hi Hs. by apply choice_flags_off, (self_static st). Qed.

Lemma opt_dep_wf st s e d :
  inv n st → self st s → e = ev_expr (dir_dep s) ∨ e = ev_expr (rev_dep s) →
  d ∈ opt_deps e → rank d < n ∧ is_Some (t0 !! d).
Proof.
  intros Hi Hs He Hd. apply deps_wf. rewrite <-(self_static _ _ Hi Hs). unfold deps. simpl.
  rewrite !elem_of_app. right. destruct He as [-> | ->]; auto.
Qed.

Lemma type_get st s v : inv n st → self st s → v = mv → sym_get_type s v = type_spec mv s.
Proof.
  intros Hi Hs ->. unfold sym_get_type, type_spec.
  destruct (not_choice_value _ _ Hi Hs) as (-> & _). simpl. by repeat case_decide.
Qed.

Lemma opt_expr_ok st s e dflt :
  inv n st → self st s → (∀ d, d ∈ opt_deps e → rank d < n ∧ is_Some (t0 !! d)) →
  prog (match e with None => mret dflt | Some e => calc_expr calc e end) st
    (λ t st', t = match e with None => dflt | Some e => ev mv ty sem (Some e) end ∧ self st' s).
Proof.
  intros Hi Hs Hd. destruct e as [e|]; [|by apply prog_ret].
  apply prog_pure; [done|]. by apply pure_expr.
Qed.

Lemma self_fields st s : inv n st → self st s →
  type s = type s0 ∧ ev_expr (dir_dep s) = ev_expr (dir_dep s0) ∧
  ev_expr (rev_dep s) = ev_expr (rev_dep s0) ∧ type_spec mv s = type_spec mv s0.
Proof. intros Hi Hs. rewrite <-(self_static _ _ Hi Hs). done. Qed.

Lemma ev_opt e :
  match e with None => tri_yes | Some e => ev mv ty sem (Some e) end = ev mv ty sem e.
Proof. by destruct e. Qed.

Lemma visibility_ok st s :
  inv n st → self st s →
  prog (sym_calc_visibility calc p) st (λ _ st', ∃ s', self st' s' ∧ calculated s' ∧
    curr s' = curr s ∧ has_flag SYMBOL_WRITE s' = has_flag SYMBOL_WRITE s).
Proof.
  intros Hi Hs. destruct (self_fields _ _ Hi Hs) as (Ht & Hd & Hr & Hty).
  eapply prog_bind; [by eapply prog_load with (R := λ x st', x = s ∧ self st' s)|].
  intros ? st1 Hi1 [-> Hs1]. eapply prog_bind; [by apply prompts_ok|].
  intros t st2 Hi2 [[l Hs2] ->].
  eapply prog_bind; [apply (prog_pure _ _ _ (λ v _, v = mv) Hs2), pure_gets; [done|apply Hi2]|].
  intros ? st3 Hi3 [-> Hs3]. rewrite Ht, drop_0.
  fold (vis_spec mv ty sem s0). eapply prog_bind.
  { apply (update_tri_ok visible set_visible (vis_spec mv ty sem s0) st3 _ Hi3 Hs3); [done|done|].
    intros <-. by destruct s. }
  intros ? st4 Hi4 (s4 & Hs4 & Ha4).
  destruct (not_choice_value _ _ Hi1 Hs1) as (-> & _).
  eapply prog_bind; [apply (opt_expr_ok st4 s4); [done|done|]|].
  { intros d Hd'. apply (opt_dep_wf _ _ _ _ Hi1 Hs1 (or_introl eq_refl) Hd'). }
  intros t5 st5 Hi5 [-> Hs5]. rewrite Hd, ev_opt. fold (dir_spec mv ty sem s0). eapply prog_bind.
  { apply (update_tri_ok (λ s, ev_tri (dir_dep s)) set_dir_tri (dir_spec mv ty sem s0) st5 _ Hi5 Hs5); [done|done|].
    intros <-. by destruct s4 as [? ? ? ? ? ? ? [] ?]. }
  intros ? st6 Hi6 (s6 & Hs6 & Ha6).
  eapply prog_bind; [apply (opt_expr_ok st6 s6); [done|done|]|].
  { intros d Hd'. apply (opt_dep_wf _ _ _ _ Hi1 Hs1 (or_intror eq_refl) Hd'). }
  intros t7 st7 Hi7 [-> Hs7].
  eapply prog_bind; [by eapply prog_load with (R := λ x st', x = s6 ∧ self st' s6)|].
  intros ? st8 Hi8 [-> Hs8].
  eapply prog_bind; [apply (prog_pure _ _ _ (λ v _, v = mv) Hs8), pure_gets; [done|apply Hi8]|].
  intros ? st9 Hi9 [-> Hs9].
  destruct (self_fields _ _ Hi9 Hs9) as (_ & _ & _ & Hty6).
  rewrite Hr, (type_get st9 s6 mv Hi9 Hs9 eq_refl), Hty6. fold (rev_spec mv ty sem s0).
  eapply prog_mono.
  { apply (update_tri_ok (λ s, ev_tri (rev_dep s)) set_rev_tri (rev_spec mv ty sem s0) st9 _ Hi9 Hs9); [done|done|].
    intros <-. by destruct s6 as [? ? ? ? ? ? ? ? []]. }
  intros ? st10 Hi10 (s10 & Hs10 & Ha10). exists s10. split; [done|].
  destruct Ha4, Ha6, Ha10. unfold has_flag in *. simpl in *. unfold calculated. split_and!; congruence.
Qed.

(** ** The value *)

(** The state of [p] between the visibility and the end: its current value and
    whether it is to be written. *)
Definition self_w (st : sym_state) (c : symbol_value) (w : bool) : Prop :=
  ∃ s, self st s ∧ calculated s ∧ curr s = c ∧ has_flag SYMBOL_WRITE s = w.

Lemma set_write_ok st c w b :
  ¬ untyped s0 → inv n st → self_w st c w → prog (when b (set_write p)) st (λ _ st', self_w st' c (w || b)).
Proof.
  intros Hun Hi (s & Hs & Hc & Hcu & Hw). destruct b; simpl.
  - eapply prog_mono; [apply (prog_store st s); [done|done|by apply static_add|by apply has_flag_mono, Hs|]|].
    { intros Hu. destruct Hun. by rewrite <-(self_static _ _ Hi Hs). }
    cbv beta. intros ? st' _ Hs'. rewrite orb_true_r. eexists. split_and!; [exact Hs'|done|done|].
    by apply has_flag_add_self.
  - apply prog_ret; [done|]. rewrite orb_false_r. by exists s.
Qed.

Lemma set_write_true st c w :
  ¬ untyped s0 → inv n st → self_w st c w → prog (set_write p) st (λ _ st', self_w st' c true).
Proof.
  intros Hun Hi Hw. eapply prog_mono; [by apply (set_write_ok st c w true)|].
  cbv beta. intros ? st' _. by rewrite orb_true_r.
Qed.

Lemma load_w st c w :
  inv n st → self_w st c w →
  prog (load p) st (λ s st', self st' s ∧ calculated s ∧ curr s = c ∧ has_flag SYMBOL_WRITE s = w).
Proof. intros Hi (s & Hs & H). by eapply prog_load. Qed.

Lemma pure_w {A} (c : M A) st v w (Q : A → sym_state → Prop) :
  self_w st v w → pure c st Q → prog c st (λ a st', Q a st' ∧ self_w st' v w).
Proof.
  intros (s & Hs & H) Hc. eapply prog_mono; [by eapply prog_pure|].
  intros a st' _ [HQ Hs']. split; [done|by exists s].
Qed.

Lemma props_w st s c w : calculated s → curr s = c → has_flag SYMBOL_WRITE s = w →
  self_props_of st s → self_w st c w.
Proof. intros Hc Hcu Hw [l Hs]. by exists (set_props l s). Qed.

Lemma calc_newval_ok t st c w :
  inv n st → self_w st c w →
  prog (calc_newval p t) st (λ r st', r = EXPR_OR t (rev_spec mv ty sem s0) ∧ self_w st' c w).
Proof.
  intros Hi Hw. eapply prog_bind; [by apply load_w|]. intros s st1 Hi1 (Hs & Hc & Hcu & Hwr).
  eapply prog_bind with (Q := λ _ st', self st' s).
  { destruct (_ && _); simpl; [|by apply prog_ret].
    split_and!; [by eapply inv_same; [..|exact Hi1]|by intros q x|exact Hs]. }
  intros ? st2 Hi2 Hs2. apply prog_ret; [done|]. destruct Hc as (? & ? & Hrev).
  split; [by rewrite Hrev|]. by exists s.
Qed.

Lemma has_value_self st s : inv n st → self st s →
  sym_has_value s = sym_has_value s0 ∧ get_def S_DEF_USER s = get_def S_DEF_USER s0.
Proof.
  intros Hi Hs. rewrite <-(self_static _ _ Hi Hs). split; [|done]. symmetry. by apply has_flag_static.
Qed.

Lemma found_expr t l r :
  found t l r → find_visible mv ty sem t l = (λ x, (p_expr x.1, x.2)) <$> r.
Proof. destruct r as [[pr v]|]; simpl; [by intros [? _]|done]. Qed.

(** The expression of a property that was found refers to known symbols. *)
Lemma found_deps t pr v d :
  t = P_DEFAULT ∨ t = P_RANGE →
  found t (props s0) (Some (pr, v)) → d ∈ opt_deps (p_expr pr) → rank d < n ∧ is_Some (t0 !! d).
Proof.
  intros Hvt (_ & Ht & Hin) Hd. apply list_elem_of_lookup_1 in Hin as [i Hi].
  eapply prop_deps_wf; [exact Hi|]. unfold prop_deps. apply elem_of_app. right.
  change (is_value_prop (erase pr)) with (is_value_prop pr). by rewrite (value_prop_of t pr).
Qed.

Lemma and_calc_ok e v st c w :
  inv n st → self_w st c w → (∀ d, d ∈ opt_deps e → rank d < n ∧ is_Some (t0 !! d)) →
  prog (and_calc calc e v) st (λ t st', t = EXPR_AND (ev mv ty sem e) v ∧ self_w st' c w).
Proof.
  intros Hi Hw Hd. eapply prog_bind; [by eapply pure_w, pure_expr_opt|].
  intros t st1 Hi1 [-> Hw1]. unfold EXPR_AND. destruct (_ <? _)%Z.
  - by eapply pure_w, pure_expr_opt.
  - by apply prog_ret.
Qed.

Lemma tristate_ok st c :
  inv n st → self_w st c false → (type s0 = S_BOOLEAN ∨ type s0 = S_TRISTATE) →
  prog (calc_tristate calc p tri_no) st (λ t st',
    tri_spec mv ty sem s0 = (if decide (t = tri_mod ∧ type_spec mv s0 = S_BOOLEAN) then tri_yes else t) ∧
    self_w st' c (bool_decide (vis_spec mv ty sem s0 ≠ tri_no) || (bool_decide (rev_spec mv ty sem s0 ≠ tri_no)
      || present (find_visible mv ty sem P_DEFAULT (props s0))))).
Proof.
  intros Hi Hw Hty. assert (Hun : ¬ untyped s0) by (unfold untyped; by destruct Hty as [-> | ->]; intros [?|?]).
  eapply prog_bind; [by apply load_w|]. intros s st1 Hi1 (Hs & Hc & Hcu & Hwr).
  destruct (not_choice_value _ _ Hi1 Hs) as (-> & Hch & _). simpl.
  destruct (has_value_self _ _ Hi1 Hs) as [Hhv Hdef]. pose proof Hc as (Hvis & _ & Hrev).
  rewrite Hvis, Hrev, Hhv, Hdef, Hch.
  eapply prog_bind; [apply (set_write_ok st1 c false); [done|done|by exists s]|].
  intros ? st2 Hi2 Hw2. simpl in Hw2. unfold tri_spec. unfold user_wins.
  destruct (bool_decide (vis_spec mv ty sem s0 ≠ tri_no) && sym_has_value s0) eqn:Eu.
  - apply andb_true_iff in Eu as [Ev _]. rewrite Ev in Hw2 |- *.
    eapply prog_mono; [by apply calc_newval_ok|]. intros r st3 _ [-> Hw3]. done.
  - eapply prog_bind; [by apply set_write_ok|]. intros ? st3 Hi3 Hw3.
    destruct Hw3 as (s3 & Hs3 & Hc3 & Hcu3 & Hwr3).
    eapply prog_bind with (Q := λ t st', t = match find_visible mv ty sem P_DEFAULT (props s0) with
        | Some (e, v) => EXPR_AND (ev mv ty sem e) v | None => tri_no end ∧
        self_w st' c (bool_decide (vis_spec mv ty sem s0 ≠ tri_no) || bool_decide (rev_spec mv ty sem s0 ≠ tri_no)
          || present (find_visible mv ty sem P_DEFAULT (props s0)))).
    { eapply prog_bind; [by apply get_visible_prop_ok; [auto|..]|]. intros r st4 Hi4 [Hp4 Hf].
      pose proof (props_w _ _ _ _ Hc3 Hcu3 Hwr3 Hp4) as Hw4.
      pose proof (found_expr _ _ _ Hf) as ->. destruct r as [[pr v]|]; simpl.
      - rewrite orb_true_r.
        eapply prog_bind; [by eapply set_write_true|]. intros ? st5 Hi5 Hw5.
        apply and_calc_ok; [done|done|]. intros d. by apply (found_deps _ _ _ d (or_introl eq_refl) Hf).
      - apply prog_ret; [done|]. by rewrite orb_false_r. }
    intros t st4 Hi4 [-> Hw4]. rewrite <-orb_assoc in Hw4.
    eapply prog_mono; [by apply calc_newval_ok|]. intros r st5 _ [-> Hw5]. done.
Qed.

Definition is_text (t : symbol_type) : Prop := t = S_INT ∨ t = S_HEX ∨ t = S_STRING.

Lemma known_curr q st s : inv n st → at_sym q st s → curr s = sem q → ∃ x, val (curr s) = V_str x ∧ sem q = curr s.
Proof.
  intros Hi Hs Hc. destruct (inv_type _ _ _ _ Hi Hs) as [Ht _].
  destruct (sol_str Hsol q _ Ht) as [x Hx]. exists x. by rewrite Hc.
Qed.

Lemma raw_str : is_text (type s0) → ∃ x, raw_spec mv ty sem s0 = V_str x.
Proof.
  intros Ht. unfold raw_spec. destruct (user_wins _ _ _ _) eqn:Eu.
  - apply andb_true_iff in Eu as [_ Hv]. by apply (wf_user _ _ (sol_wf Hsol p s0 Hp0 Hps)).
  - destruct (find_visible mv ty sem P_DEFAULT (props s0)) as [[e v]|] eqn:Ef; simpl; [|by eexists].
    destruct e as [[]|]; simpl; try by eexists.
    assert (Hd : ∀ l', find_visible mv ty sem P_DEFAULT l' = Some (Some (E_SYMBOL l), v) →
      ∃ pr, pr ∈ l' ∧ p_type pr = P_DEFAULT ∧ p_expr pr = Some (E_SYMBOL l)).
    { clear. induction l' as [|pr l' IH]; simpl; [done|]. case_decide; [case_decide|].
      - intros H1. destruct (IH H1) as (x & ? & ?). exists x. split; [by right|done].
      - intros [= ? _]. exists pr. split; [by left|done].
      - intros H1. destruct (IH H1) as (x & ? & ?). exists x. split; [by right|done]. }
    destruct (Hd _ Ef) as (pr & Hin & Htp & He). apply list_elem_of_lookup_1 in Hin as [i Hin].
    destruct (prop_deps_wf i pr l Hin) as [_ [x Hx]]; [|by apply (sol_str Hsol l x)].
    unfold prop_deps. rewrite (value_prop_of P_DEFAULT pr), He by auto. simpl.
    apply elem_of_app. right. by left.
Qed.

Lemma string_ok st c :
  inv n st → self_w st c false → is_text (type s0) →
  prog (calc_string calc p (V_str [])) st (λ v st',
    v = raw_spec mv ty sem s0 ∧
    self_w st' c (bool_decide (vis_spec mv ty sem s0 ≠ tri_no) ||
      present (find_visible mv ty sem P_DEFAULT (props s0) ≫= (λ ev, expr_symbol ev.1)))).
Proof.
  intros Hi Hw Hty. assert (Hun : ¬ untyped s0) by (unfold untyped; by destruct Hty as [-> |[-> | ->]]; intros [?|?]).
  eapply prog_bind; [by apply load_w|]. intros s st1 Hi1 (Hs & Hc & Hcu & Hwr).
  destruct (has_value_self _ _ Hi1 Hs) as [Hhv Hdef]. pose proof Hc as (Hvis & _ & _).
  rewrite Hvis, Hhv, Hdef.
  eapply prog_bind; [apply (set_write_ok st1 c false); [done|done|by exists s]|].
  intros ? st2 Hi2 Hw2. simpl in Hw2. unfold raw_spec, user_wins.
  destruct (bool_decide (vis_spec mv ty sem s0 ≠ tri_no) && sym_has_value s0) eqn:Eu.
  - apply andb_true_iff in Eu as [Ev _]. rewrite Ev in Hw2 |- *. by apply prog_ret.
  - destruct Hw2 as (s2 & Hs2 & Hc2 & Hcu2 & Hwr2).
    eapply prog_bind; [by apply get_visible_prop_ok; [auto|..]|]. intros r st4 Hi4 [Hp4 Hf].
    pose proof (props_w _ _ _ _ Hc2 Hcu2 Hwr2 Hp4) as Hw4.
    pose proof (found_expr _ _ _ Hf) as ->. destruct r as [[pr v]|]; simpl.
    2: { apply prog_ret; [done|]. by rewrite orb_false_r. }
    change (prop_get_symbol pr) with (expr_symbol (p_expr pr)).
    destruct (expr_symbol (p_expr pr)) as [ds|] eqn:Ed; simpl.
    2: { apply prog_ret; [done|]. by rewrite orb_false_r. }
    destruct (found_deps _ _ _ ds (or_introl eq_refl) Hf) as [Hr Hd].
    { destruct (p_expr pr) as [[]|]; simplify_eq/=. by left. }
    eapply prog_bind; [by eapply set_write_true|]. intros ? st5 Hi5 Hw5.
    eapply prog_bind; [eapply pure_w; [exact Hw5|by apply pure_calc]|].
    intros ? st6 Hi6 [(sd & Hsd & _ & Hcd & _) Hw6].
    eapply prog_bind; [eapply pure_w; [exact Hw6|]; by eapply pure_load with (Q := λ x _, x = sd)|].
    intros ? st7 Hi7 [-> Hw7]. apply prog_ret; [done|]. rewrite orb_true_r, Hcd. done.
Qed.

Lemma range_val_ok q base st c w :
  inv n st → self_w st c w → rank q < n ∧ is_Some (t0 !! q) →
  prog (sym_get_range_val calc q base) st (λ v st', v = number ty sem q base ∧ self_w st' c w).
Proof.
  intros Hi Hw [Hr Hq]. eapply prog_bind; [eapply pure_w; [exact Hw|by apply pure_calc]|].
  intros ? st1 Hi1 [(s & Hs & Hv & Hc & _) Hw1].
  eapply prog_mono; [eapply pure_w; [exact Hw1|]|intros x st2 _ H; exact H].
  eapply pure_bind; [by eapply pure_load with (Q := λ x _, x = s)|]. intros ? st2 Hi2 Hf2 ->.
  pose proof (Hf2 _ _ Hs (or_introl Hv) ltac:(done)) as Hs2.
  eapply pure_bind; [by eapply pure_load with (Q := λ x _, x = s)|]. intros ? st3 Hi3 _ ->.
  destruct (known_curr _ _ _ Hi1 Hs Hc) as (x & Hx & Hsem). rewrite Hx. simpl.
  destruct (inv_type _ _ _ _ Hi1 Hs) as [_ Hty].
  eapply pure_bind; [by apply pure_ret with (Q := λ y _, y = x)|]. intros ? st4 Hi4 _ ->.
  apply pure_ret; [done|]. unfold number. by rewrite Hsem, Hx, Hty.
Qed.

Lemma store_number_ok z st v w :
  inv n st → self_w st (mkVal v tri_no) w →
  prog (store_number p z) st (λ _ st', self_w st' (mkVal (V_str (print_number (type s0) z)) tri_no) w).
Proof.
  intros Hi (s & Hs & Hc & Hcu & Hw). destruct (self_fields _ _ Hi Hs) as (Ht & _).
  eapply prog_mono; [by apply (prog_store st s); [| |done|apply Hs|]|].
  cbv beta. intros ? st' _ Hs'. eexists. split; [exact Hs'|]. rewrite Ht, Hcu. by split_and!.
Qed.

Lemma validate_number_ok base st x w :
  inv n st → self_w st (mkVal (V_str x) tri_no) w →
  prog (validate_number calc p base) st (λ _ st',
    self_w st' (mkVal (clamp_number mv ty sem s0 base (V_str x)) tri_no) w).
Proof.
  intros Hi (s & Hs & Hc & Hcu & Hwr).
  eapply prog_bind; [by apply get_visible_prop_ok; [auto|..]|]. intros r st2 Hi2 [Hp2 Hf].
  pose proof (props_w _ _ _ _ Hc Hcu Hwr Hp2) as Hw2. unfold clamp_number.
  pose proof (found_expr _ _ _ Hf) as ->. destruct r as [[pr v]|]; simpl; [|by apply prog_ret].
  destruct (wf_range _ _ (sol_wf Hsol p s0 Hp0 Hps) (erase pr)) as (l & r & He); [by apply Hf..|].
  simpl in He. rewrite He.
  assert (Hlr : ∀ d, d ∈ [l; r] → rank d < n ∧ is_Some (t0 !! d)).
  { intros d Hd. eapply found_deps; [by right|exact Hf|]. by rewrite He. }
  eapply prog_bind with (Q := λ z st', z = strtoll x base ∧ self_w st' _ _).
  { eapply prog_bind; [by apply load_w|]. intros s2 st3 Hi3 (Hs3 & Hc3 & Hcu3 & Hw3).
    rewrite Hcu3. simpl. apply prog_ret; [done|]. split; [done|by exists s2]. }
  intros ? st3 Hi3 [-> Hw3]. unfold range_syms. rewrite He.
  eapply prog_bind with (Q := λ z st', z = (l, r) ∧ self_w st' _ _); [by apply prog_ret|].
  intros ? st4 Hi4 [-> Hw4].
  eapply prog_bind; [apply range_val_ok; [done|exact Hw4|apply Hlr; left]|]. intros ? st5 Hi5 [-> Hw5].
  destruct (_ <=? _)%Z; [|by eapply store_number_ok].
  eapply prog_bind; [apply range_val_ok; [done|exact Hw5|apply Hlr; right; left]|].
  intros ? st6 Hi6 [-> Hw6]. destruct (_ <=? _)%Z; [by apply prog_ret|by eapply store_number_ok].
Qed.

Lemma range_ok st x w :
  inv n st → self_w st (mkVal (V_str x) tri_no) w →
  prog (sym_validate_range calc p) st (λ _ st',
    self_w st' (mkVal (clamp_spec mv ty sem s0 (V_str x)) tri_no) w).
Proof.
  intros Hi Hw. eapply prog_bind; [by apply load_w|]. intros s st1 Hi1 (Hs & Hc & Hcu & Hwr).
  destruct (self_fields _ _ Hi1 Hs) as (Ht & _). rewrite Ht. unfold clamp_spec.
  assert (Hw1 : self_w st1 (mkVal (V_str x) tri_no) w) by (by exists s).
  destruct (type s0); try (by apply prog_ret); by apply validate_number_ok.
Qed.

(** *** The end *)

(** The value by the type, and whether it is written. *)
Definition newval_of (t : symbol_type) : symbol_value :=
  match t with S_BOOLEAN | S_TRISTATE => mkVal (V_str (lit "n")) tri_no | _ => mkVal (V_str []) tri_no end.

Definition unranged : symbol_value :=
  match type s0 with
  | S_BOOLEAN | S_TRISTATE => mkVal (V_str (lit "n")) (tri_spec mv ty sem s0)
  | _ => mkVal (raw_spec mv ty sem s0) tri_no
  end.

Definition wanted : bool :=
  bool_decide (vis_spec mv ty sem s0 ≠ tri_no) ||
  match type s0 with
  | S_BOOLEAN | S_TRISTATE =>
      bool_decide (rev_spec mv ty sem s0 ≠ tri_no) || present (find_visible mv ty sem P_DEFAULT (props s0))
  | _ => present (find_visible mv ty sem P_DEFAULT (props s0) ≫= (λ ev, expr_symbol ev.1))
  end.

Lemma newvalue_ok st c :
  inv n st → self_w st c false → type s0 ≠ S_UNKNOWN → type s0 ≠ S_OTHER →
  prog (calc_newvalue calc p (newval_of (type s0))) st (λ v st', v = unranged ∧ self_w st' c wanted).
Proof.
  intros Hi Hw Hu Ho. eapply prog_bind; [by apply load_w|]. intros s st1 Hi1 (Hs & Hc & Hcu & Hwr).
  assert (Hw1 : self_w st1 c false) by (by exists s).
  eapply prog_bind; [apply (prog_pure _ _ _ (λ v _, v = mv) Hs), pure_gets; [done|apply Hi1]|].
  intros ? st2 Hi2 [-> Hs2]. assert (Hw2 : self_w st2 c false) by (by exists s).
  rewrite (type_get _ _ _ Hi2 Hs2 eq_refl). destruct (self_fields _ _ Hi2 Hs2) as (_ & _ & _ & ->).
  unfold unranged, wanted.
  assert (Htri : type s0 = S_BOOLEAN ∨ type s0 = S_TRISTATE →
    prog (t ← calc_tristate calc p (tri (newval_of (type s0))); s ← load p; mv ← gets modules_val;
          mret (mkVal (val (newval_of (type s0)))
            (if decide (t = tri_mod ∧ sym_get_type s mv = S_BOOLEAN) then tri_yes else t))) st2
      (λ v st', v = mkVal (V_str (lit "n")) (tri_spec mv ty sem s0) ∧
         self_w st' c (bool_decide (vis_spec mv ty sem s0 ≠ tri_no) || (bool_decide (rev_spec mv ty sem s0 ≠ tri_no)
      || present (find_visible mv ty sem P_DEFAULT (props s0)))))).
  { intros Ht. assert (newval_of (type s0) = mkVal (V_str (lit "n")) tri_no) as ->.
    { by destruct Ht as [-> | ->]. }
    eapply prog_bind; [by apply tristate_ok|]. intros t st3 Hi3 [-> Hw3].
    eapply prog_bind; [by apply load_w|]. intros s3 st4 Hi4 (Hs4 & Hc4 & Hcu4 & Hwr4).
    eapply prog_bind; [apply (prog_pure _ _ _ (λ v _, v = mv) Hs4), pure_gets; [done|apply Hi4]|].
    intros ? st5 Hi5 [-> Hs5]. apply prog_ret; [done|].
    rewrite (type_get _ _ _ Hi5 Hs5 eq_refl). destruct (self_fields _ _ Hi5 Hs5) as (_ & _ & _ & ->).
    split; [done|by exists s3]. }
  assert (Htxt : is_text (type s0) →
    prog (v ← calc_string calc p (val (newval_of (type s0))); mret (mkVal v (tri (newval_of (type s0))))) st2
      (λ v st', v = mkVal (raw_spec mv ty sem s0) tri_no ∧
         self_w st' c (bool_decide (vis_spec mv ty sem s0 ≠ tri_no) ||
           present (find_visible mv ty sem P_DEFAULT (props s0) ≫= (λ ev, expr_symbol ev.1))))).
  { intros Ht. assert (newval_of (type s0) = mkVal (V_str []) tri_no) as ->.
    { by destruct Ht as [-> | [-> | ->]]. }
    eapply prog_bind; [by apply string_ok|]. intros v st3 Hi3 [-> Hw3]. by apply prog_ret. }
  unfold type_spec, is_text in *.
  destruct (type s0) eqn:Et; simpl; try done.
  - apply Htri; auto.
  - destruct (decide (mv = tri_no)); apply Htri; auto.
  - apply Htxt; auto.
  - apply Htxt; auto.
  - apply Htxt; auto.
Qed.

Context `{ValueBytes}.

Lemma note_change_ok old st c w :
  inv n st → self_w st c w → prog (note_change p old) st (λ _ st', self_w st' c w).
Proof.
  intros Hi Hw. eapply prog_bind; [by apply load_w|]. intros s st1 Hi1 (Hs & Hc & Hcu & Hwr).
  destruct (bytes_differ _ _); [|by apply prog_ret; [|exists s]].
  eapply prog_bind; [by apply set_changed_ok|]. intros ? st2 Hi2 Hs2.
  eapply prog_bind; [apply (prog_pure _ _ _ (λ v _, v = Some m) Hs2), pure_gets; [done|apply Hi2]|].
  intros ? st3 Hi3 [-> Hs3]. rewrite decide_False by congruence. apply prog_ret; [done|].
  eexists. split_and!; [exact Hs3|done|done|]. by rewrite has_flag_add.
Qed.

Lemma update_choice_ok st c w :
  inv n st → self_w st c w → prog (update_choice_values p) st (λ _ st', self_w st' c w).
Proof.
  intros Hi Hw. eapply prog_bind; [by apply load_w|]. intros s st1 Hi1 (Hs & Hc & Hcu & Hwr).
  destruct (not_choice_value _ _ Hi1 Hs) as (_ & -> & _). apply prog_ret; [done|by exists s].
Qed.

Lemma serve_ok st c w :
  inv n st → self_w st c w → prog (serve_request p) st (λ _ st', self_w st' c w).
Proof.
  intros Hi Hw. eapply prog_bind; [by apply load_w|]. intros s st1 Hi1 (Hs & Hc & Hcu & Hwr).
  destruct (not_choice_value _ _ Hi1 Hs) as (_ & _ & ->). apply prog_ret; [done|by exists s].
Qed.

Lemma auto_ok st c w :
  inv n st → self_w st c w →
  prog (clear_auto p) st
    (λ _ st', self_w st' c (negb (has_flag SYMBOL_AUTO s0) && w)).
Proof.
  intros Hi Hw. eapply prog_bind; [by apply load_w|]. intros s st1 Hi1 (Hs & Hc & Hcu & Hwr).
  assert (has_flag SYMBOL_AUTO s = has_flag SYMBOL_AUTO s0) as ->.
  { rewrite <-(self_static _ _ Hi1 Hs). symmetry. by apply has_flag_static. }
  destruct (has_flag SYMBOL_AUTO s0); simpl; [|by apply prog_ret; [|exists s]].
  eapply prog_mono; [apply (prog_store st1 s); [done|done|by apply static_clear|..]|].
  { rewrite has_flag_clear by done. apply Hs. } { intros _ _. by apply has_flag_clear_sub. }
  cbv beta. intros ? st2 _ Hs2. eexists. split_and!; [exact Hs2|done|done|].
  by apply has_flag_clear_sub.
Qed.

(** A record with the calculated members solves its equations. *)
Lemma solved_w st : inv n st → self_w st (sem p) (write_spec mv ty sem s0) →
  ∃ s, self st s ∧ solved p s.
Proof.
  intros Hi (s & Hs & (Hv & Hd & Hr) & Hc & Hw). exists s. split; [done|]. split; [done|].
  intros _ _ _. rewrite <-(self_static _ _ Hi Hs) in *.
  by rewrite vis_static, write_static in *.
Qed.

Lemma clear_write_ok st s :
  inv n st → self st s →
  prog (when (negb (sym_is_choice_value s)) (store p (clear_flag SYMBOL_WRITE))) st
    (λ _ st', ∃ s', self st' s' ∧ has_flag SYMBOL_WRITE s' = false).
Proof.
  intros Hi Hs. destruct (not_choice_value _ _ Hi Hs) as (-> & _). simpl.
  eapply prog_mono; [apply (prog_store st s); [done|done|by apply static_clear|..]|].
  { rewrite has_flag_clear by done. apply Hs. } { intros _ _. by apply has_flag_clear_sub. }
  cbv beta. intros ? st' _ Hs'. eexists. split; [exact Hs'|]. by apply has_flag_clear_sub.
Qed.

(** The range is the last step of the value. *)
Lemma range_step st w :
  inv n st → self_w st unranged w → type s0 ≠ S_UNKNOWN → type s0 ≠ S_OTHER →
  prog (sym_validate_range calc p) st (λ _ st', self_w st' (sem p) w).
Proof.
  intros Hi Hw Hu Ho. rewrite (sol_eq Hsol p s0 Hp0 Hps).
  assert (Htri : type s0 = S_BOOLEAN ∨ type s0 = S_TRISTATE →
    prog (sym_validate_range calc p) st (λ _ st', self_w st' unranged w)).
  { intros Ht. eapply prog_bind; [by apply load_w|]. intros s st1 Hi1 (Hs & Hc & Hcu & Hwr).
    destruct (self_fields _ _ Hi1 Hs) as (-> & _).
    destruct Ht as [-> | ->]; (apply prog_ret; [done|by exists s]). }
  assert (Htxt : is_text (type s0) →
    prog (sym_validate_range calc p) st (λ _ st',
      self_w st' (mkVal (clamp_spec mv ty sem s0 (raw_spec mv ty sem s0)) tri_no) w)).
  { intros Ht. destruct (raw_str Ht) as [x Hx]. rewrite Hx. apply range_ok; [done|].
    unfold unranged in Hw. rewrite Hx in Hw. by destruct Ht as [E|[E|E]]; rewrite E in Hw. }
  unfold unranged, value_spec, is_text in *. destruct (type s0); try done; auto.
Qed.

Lemma rest_ok st s old :
  inv n st → self st s → type s0 ≠ S_UNKNOWN → type s0 ≠ S_OTHER →
  prog (calc_rest calc p old (newval_of (type s0))) st (λ _ st', ∃ s', self st' s' ∧ solved p s').
Proof.
  intros Hi Hs Hu Ho. unfold calc_rest.
  eapply prog_bind; [by eapply prog_load with (R := λ x st', x = s ∧ self st' s)|].
  intros ? st1 Hi1 [-> Hs1]. eapply prog_bind; [by apply clear_write_ok|].
  intros ? st2 Hi2 (s2 & Hs2 & Hw2). eapply prog_bind; [by apply visibility_ok|].
  intros ? st3 Hi3 (s3 & Hs3 & Hc3 & _ & Hw3). rewrite Hw2 in Hw3. eapply prog_bind.
  { by apply (prog_store st3 s3); [..|apply Hs3|]. }
  cbv beta. intros ? st4 Hi4 Hs4.
  assert (Hw4 : self_w st4 (newval_of (type s0)) false) by (eexists; split_and!; [exact Hs4|done..]).
  eapply prog_bind; [by apply newvalue_ok|]. intros ? st5 Hi5 [-> (s5 & Hs5 & Hc5 & _ & Hw5)].
  eapply prog_bind; [by apply (prog_store st5 s5); [..|apply Hs5|]|]. cbv beta. intros ? st6 Hi6 Hs6.
  eapply prog_bind; [eapply prog_load with (R := λ x st', x = set_curr unranged s5 ∧ self st' (set_curr unranged s5)); done|].
  intros ? st7 Hi7 [-> Hs7]. destruct (not_choice_value _ _ Hi7 Hs7) as (_ & -> & _). simpl.
  assert (Hw7 : self_w st7 unranged wanted) by (eexists; split_and!; [exact Hs7|done..]).
  eapply prog_bind; [by apply prog_ret with (Q := λ _ st', self_w st' unranged wanted)|].
  intros ? st8 Hi8 Hw8.
  eapply prog_bind; [by apply (range_step st8 wanted)|].
  intros ? st9 Hi9 Hw9. eapply prog_bind; [by apply (note_change_ok old st9 (sem p) wanted)|]. intros ? st10 Hi10 Hw10.
  eapply prog_bind; [by apply (update_choice_ok st10 (sem p) wanted)|]. intros ? st11 Hi11 Hw11.
  eapply prog_bind; [by apply (auto_ok st11 (sem p) wanted)|]. intros ? st12 Hi12 Hw12.
  eapply prog_mono; [by apply (serve_ok st12 (sem p) (write_spec mv ty sem s0))|]. intros ? st13 Hi13 Hw13. by apply solved_w.
Qed.

(** *** The whole body *)

Lemma body_ok st s :
  inv n st → at_sym p st s → has_flag SYMBOL_VALID s = false →
  prog (calc_body calc p) st (λ _ st', ∃ s', self st' s' ∧ solved p s').
Proof.
  intros Hi Hs Hv. destruct (inv_type _ _ _ _ Hi Hs) as [Hst _].
  assert (Hss : static s = s0) by congruence.
  apply spec_bind, spec_load; unfold at_sym in Hs; [|congruence]. intros x Hx.
  assert (x = s) as -> by congruence. rewrite Hv.
  destruct (choice_flags_off s Hss) as (-> & _).
  simpl. eapply prog_bind; [by apply prog_ret with (Q := λ _ st', st' = st)|]. intros ? ? _ ->.
  eapply prog_bind.
  { apply (prog_store_at st s); [done|done|by apply static_add|by apply has_flag_add_self|].
    intros _. by rewrite has_flag_add. }
  cbv beta. intros ? st1 Hi1 Hs1.
  eapply prog_bind; [eapply prog_load with (R := λ x st', x = add_flag SYMBOL_VALID s ∧ self st' (add_flag SYMBOL_VALID s)); done|].
  intros ? st2 Hi2 [-> Hs2]. destruct (self_fields _ _ Hi2 Hs2) as (Ht & _). rewrite Ht.
  assert (Hdef : type s0 = S_UNKNOWN ∨ type s0 = S_OTHER →
    prog (store p (set_curr (mkVal (match name s with Some n => V_str n | None => V_null end) tri_no))) st2
      (λ _ st', ∃ s', self st' s' ∧ solved p s')).
  { intros Hty. eapply prog_mono; [by apply (prog_store st2 (add_flag SYMBOL_VALID s)); [..|apply Hs2|]|].
    cbv beta. intros ? st3 _ Hs3. eexists. split; [exact Hs3|]. split.
    - rewrite (sol_eq Hsol p s0 Hp0 Hps). unfold value_spec. rewrite <-Hss in *. simpl in *.
      by destruct Hty as [-> | ->].
    - rewrite <-Hss in Hty. simpl in Hty. intros _ H1 H2. simpl in *. by destruct Hty. }
  assert (Hrest : ∀ q, type s0 ≠ S_UNKNOWN → type s0 ≠ S_OTHER →
    (∃ s, at_sym q st2 s ∧ has_flag SYMBOL_VALID s = true ∧ curr s = newval_of (type s0)) → q ≠ p →
    prog (x ← load q; calc_rest calc p (curr (add_flag SYMBOL_VALID s)) (curr x)) st2
      (λ _ st', ∃ s', self st' s' ∧ solved p s')).
  { intros q Hu Ho (y & Hy & Hvy & Hcy) Hqp.
    eapply prog_bind; [apply (prog_pure _ _ _ (λ x _, x = y) Hs2); by eapply pure_load|].
    intros ? st3 Hi3 [-> Hs3]. rewrite Hcy. by eapply rest_ok. }
  destruct (type s0) eqn:Et; simpl; auto; (apply Hrest; [done|done|simpl|by intros <-]);
    apply Hi2.
Qed.

End Self.
End Body.

(** ** The theorem *)

Context `{ValueBytes}.

Lemma calc_step n N calc p st :
  calc_ok n calc → (0 < n → calc_valid calc) → rank p = n → n < N → is_Some (t0 !! p) → inv N st →
  spec False (calc_body calc p) st (λ _ st', inv N st' ∧ frame N None st st' ∧
    ∃ s, at_sym p st' s ∧ has_flag SYMBOL_VALID s = true).
Proof.
  intros Hc Hv Hr HN [s0 Hp0] Hi. destruct (inv_lookup _ _ _ _ Hi Hp0) as (s & Hs & _).
  destruct (has_flag SYMBOL_VALID s) eqn:Ev.
  - unfold calc_body. apply spec_bind, spec_load; unfold at_sym in Hs; [|congruence].
    intros x Hx. assert (x = s) as -> by congruence. rewrite Ev. apply spec_ret.
    split; [done|]. split; [apply frame_refl|by exists s].
  - assert (Hps : is_static p = false).
    { destruct (is_static p) eqn:E; [|done]. by rewrite (inv_const _ _ Hi p s E Hs) in Ev. }
    assert (Hpm : p ≠ m).
    { intros ->. destruct (inv_m _ _ Hi) as (x & Hx & Hvx & _). unfold at_sym in *. congruence. }
    pose proof (inv_below N n st ltac:(lia) Hi) as Hin.
    eapply spec_mono; [by apply (body_ok n calc Hc Hv p s0 Hp0 Hps Hpm (eq_sym Hr) st s)|].
    intros ? st' (Hi' & Hf & s' & [Hs' Hv'] & Hsolved).
    assert (Hkeep : ∀ q x, at_sym q st x → has_flag SYMBOL_VALID x = true ∨ n ≤ rank q → q ≠ p →
      at_sym q st' x).
    { intros q x Hq Hd Hne. apply Hf; [done|done|]. by intros [=]. }
    split_and!; [|intros q x Hq Hd _; apply Hkeep; [done| |]|by exists s'].
    + destruct Hi' as [H1 H2 H3 H4 H5 H6 H7 Hunt H8]. split; try done.
      intros q x Hq Hrq Hvq. destruct (decide (q = p)) as [->|Hne].
      { unfold at_sym in *. by assert (x = s') as -> by congruence. }
      destruct (decide (rank q < n)) as [Hlt|Hge]; [by apply H8|].
      assert (∃ y, at_sym q st y) as [y Hy].
      { unfold at_sym in *. pose proof (H1 q) as E1. pose proof (inv_static _ _ Hi q) as E2.
        rewrite Hq in E1. simpl in E1. rewrite <-E1 in E2. apply fmap_Some in E2 as (y & Hy & _). eauto. }
      pose proof (Hkeep q y Hy (or_intror (proj1 (Nat.nlt_ge _ _) Hge)) Hne) as Hy'.
      assert (x = y) as -> by (unfold at_sym in *; congruence). by apply (inv_solved _ _ Hi).
    + destruct Hd as [Hd|Hd]; [by left|right; lia].
    + intros ->. destruct Hd as [Hd|Hd]; [unfold at_sym in *; congruence|lia].
Qed.

Lemma calc_all n fuel N p st :
  rank p < n → rank p < fuel → rank p < N → is_Some (t0 !! p) → inv N st →
  spec False (sym_calc_value fuel p) st (λ _ st', inv N st' ∧ frame N None st st' ∧
    ∃ s, at_sym p st' s ∧ has_flag SYMBOL_VALID s = true).
Proof.
  revert fuel N p st. induction n as [|n IH]; intros fuel N p st Hn Hf HN Hp Hi; [lia|].
  destruct fuel as [|fuel]; [lia|]. simpl. apply (calc_step (rank p)); try done.
  - intros q st' Hq Hq0 Hi'. apply IH; try done; lia.
  - intros Hpos q st' s Hs Hv. destruct fuel as [|fuel]; [lia|].
    simpl. unfold calc_body, mbind, Eff_bind, load. unfold at_sym in Hs. rewrite Hs, Hv. done.
Qed.

End Solution.

(** C3: Calculating a symbol of an acyclic table without choices, selections
    included, returns, with fuel above its rank, if the modules symbol has been
    calculated before, and leaves the symbol with the value, the visibility,
    the dependencies and the write flag that solve its equations; every symbol
    that was marked stays as it was, every symbol that is marked afterwards is
    solved, and symbols of higher rank are not touched. The write flag is that of
    the equations except for symbols in [W], which have been written since. *)
Theorem sym_calc_value_correct `{ValueBytes} rank t0 m mv sem W fuel n p st :
  solves rank t0 m mv sem → inv rank t0 m mv sem W n st → is_Some (t0 !! p) →
  rank p < n → rank p < fuel →
  ∃ st' s, sym_calc_value fuel p st = Ret tt st' ∧
    at_sym p st' s ∧ has_flag SYMBOL_VALID s = true ∧ solved t0 mv sem W p s ∧
    inv rank t0 m mv sem W n st' ∧ frame rank n None st st'.
Proof.
  intros Hsol Hi Hp Hn Hf.
  pose proof (calc_all _ _ _ _ _ W Hsol (S (rank p)) fuel n p st ltac:(lia) Hf Hn Hp Hi) as Hc.
  unfold spec in Hc. destruct (sym_calc_value fuel p st) as [[] st'| |]; try done.
  destruct Hc as (Hi' & Hfr & s & Hs & Hv). exists st', s. split_and!; try done.
  by apply (inv_solved _ _ _ _ _ _ _ _ Hi').
Qed.

(** No symbol has been written. *)
Definition unwritten (p : symp) : Prop := False.

(** ** The solution and the expressions *)

(** The constant symbols of a table: they have no type, and are told apart by
    their names. *)
Record constants (t0 : gmap symp symbol) (sem : symp → symbol_value) : Prop := {
  cst_untyped : ∀ p s, t0 !! p = Some s → is_static p = true ∨ has_flag SYMBOL_CONST s = true →
    type s = S_UNKNOWN;
  cst_yes : sem symbol_yes = mkVal (V_str (lit "y")) tri_yes;
  cst_mod : sem symbol_mod = mkVal (V_str (lit "m")) tri_mod;
  cst_no : sem symbol_no = mkVal (V_str (lit "n")) tri_no;
  cst_static : ∀ p s, t0 !! p = Some s → is_static p = true →
    has_flag SYMBOL_CONST s = true → ∃ nm, name s = Some nm ∧ val (sem p) = V_str nm;
  cst_named : ∀ p s, t0 !! p = Some s → has_flag SYMBOL_CONST s = true → ∃ nm, name s = Some nm;
  cst_inj : ∀ p q s r, t0 !! p = Some s → t0 !! q = Some r →
    has_flag SYMBOL_CONST s = true → has_flag SYMBOL_CONST r = true → name s = name r → p = q;
}.

(** What the expression functions read of a table. *)
Definition table_symtab (t0 : gmap symp symbol) : SymTab := {|
  sym_type p := ty t0 p;
  sym_const p := from_option (has_flag SYMBOL_CONST) false (t0 !! p);
|}.

Lemma tri_spec_bool mv ty sem s : type_spec mv s = S_BOOLEAN → tri_spec mv ty sem s ≠ tri_mod.
Proof. intros H. unfold tri_spec. case_decide as E; [done|]. intros Ht. apply E. by split. Qed.

Lemma table_type t0 p t : ty t0 p = t → t ≠ S_UNKNOWN → ∃ s, t0 !! p = Some s ∧ type s = t.
Proof. unfold ty. destruct (t0 !! p) as [s|]; simpl; [by exists s|congruence]. Qed.

Lemma constant_string rank t0 m mv sem p s nm :
  solves rank t0 m mv sem → constants t0 sem → t0 !! p = Some s →
  has_flag SYMBOL_CONST s = true → name s = Some nm →
  v_str (val_spec mv (ty t0) sem) p = String.string_of_list_ascii nm.
Proof.
  intros Hsol Hc Hs Hf Hn. simpl. f_equal.
  pose proof (cst_untyped _ _ Hc p s Hs (or_intror Hf)) as Ht. unfold ty. rewrite Hs. simpl. rewrite Ht. simpl.
  destruct (is_static p) eqn:Ep.
  - destruct (cst_static _ _ Hc p s Hs Ep Hf) as (nm' & Hn' & ->). simpl. congruence.
  - rewrite (sol_eq _ _ _ _ _ Hsol p s Hs Ep). unfold value_spec. rewrite Ht, Hn. done.
Qed.

(** The values that a calculation leaves are a valuation of the kind that
    the theorems about dependency expressions ask for: the constants have their
    own values, a boolean symbol is never [m], and the string of a boolean or
    tristate symbol is that of its value. *)
Theorem solution_valuation_ok rank t0 m mv sem :
  solves rank t0 m mv sem → constants t0 sem →
  @valuation_ok (table_symtab t0) (val_spec mv (ty t0) sem).
Proof.
  intros Hsol Hc.
  assert (Hty : ∀ p t, ty t0 p = t → t = S_BOOLEAN ∨ t = S_TRISTATE → ∃ s, type s = t ∧
    sem p = mkVal (V_str (lit "n")) (tri_spec mv (ty t0) sem s)).
  { intros p t Ht Hbt. destruct (table_type t0 p t Ht) as (s & Hs & Hst); [by destruct Hbt as [-> | ->]|].
    exists s. split; [done|]. destruct (is_static p) eqn:Ep.
    - rewrite (cst_untyped _ _ Hc p s Hs (or_introl Ep)) in Hst. by destruct Hbt as [-> | ->].
    - rewrite (sol_eq _ _ _ _ _ Hsol p s Hs Ep). unfold value_spec. rewrite Hst.
      by destruct Hbt as [-> | ->]. }
  assert (Hun : ∀ p, is_static p = true → ty t0 p = S_UNKNOWN).
  { intros p Hp. unfold ty. destruct (t0 !! p) eqn:E; [|done]. simpl. apply (cst_untyped _ _ Hc _ _ E). by left. }
  split.
  - split; simpl; rewrite ?Hun by done; simpl; rewrite ?(cst_yes _ _ Hc), ?(cst_mod _ _ Hc), ?(cst_no _ _ Hc); done.
  - intros p Hp. simpl in *. destruct (Hty p _ Hp (or_introl eq_refl)) as (s & Ht & ->). simpl.
    apply tri_spec_bool. unfold type_spec. rewrite Ht. by rewrite decide_False.
  - intros p Hp. simpl in *. unfold str_spec.
    assert (Hcase : ty t0 p = S_BOOLEAN ∨ ty t0 p = S_TRISTATE) by (destruct (ty t0 p); simpl in Hp; auto; done).
    destruct (Hty p _ eq_refl Hcase) as (s & Ht & Hsem). rewrite Hsem. simpl.
    pose proof (tri_spec_bool mv (ty t0) sem s) as Hb. unfold type_spec in Hb. rewrite Ht in Hb.
    destruct Hcase as [E|E]; rewrite E in *; simpl in *; destruct (tri_spec mv (ty t0) sem s); try done;
      destruct (decide (mv = tri_no)); try done; by destruct Hb.
  - intros a b Ha Hb Heq. unfold sym_const, table_symtab in Ha, Hb.
    destruct (t0 !! a) as [sa|] eqn:Ea; [|done]. destruct (t0 !! b) as [sb|] eqn:Eb; [|done].
    simpl in Ha, Hb. destruct (cst_named _ _ Hc a sa Ea Ha) as [na Hna].
    destruct (cst_named _ _ Hc b sb Eb Hb) as [nb Hnb].
    rewrite (constant_string _ _ _ _ _ _ _ _ Hsol Hc Ea Ha Hna), (constant_string _ _ _ _ _ _ _ _ Hsol Hc Eb Hb Hnb) in Heq.
    apply string_inj in Heq as ->. eapply (cst_inj _ _ Hc); eauto. congruence.
Qed.

(** ** Example *)

Definition prompt (nm : string) (e : option expr) : property :=
  mkProp P_PROMPT (Some (lit nm)) (mkEV e tri_no) None None.

Definition literal (nm : string) : symbol := new_symbol (Some (lit nm)) SYMBOL_CONST.

(** The property that records where a symbol is declared, and the two sides of a
    [select]: the property of the symbol that selects, and the reverse
    dependency of the one that is selected. *)
Definition declared_here (p : symp) : property :=
  mkProp P_SYMBOL None (mkEV None tri_no) (Some (E_SYMBOL p)) None.
Definition selects (p : symp) : property :=
  mkProp P_SELECT None (mkEV None tri_no) (Some (E_SYMBOL p)) None.
Definition selected_by (p : symp) (s : symbol) : symbol :=
  mkSym (name s) (type s) (curr s) (def s) (visible s) (flags s) (props s) (dir_dep s)
    (mkEV (Some (E_SYMBOL p)) tri_no).

(** No modules, a boolean that the user has set and that selects another, a
    tristate that defaults to [m], and a number with a range and a user value
    outside it. *)
Definition example_syms : gmap symp symbol :=
  list_to_map
    [(sym_at 2, set_def_tri S_DEF_USER tri_yes (mk_bool "BR2_A" SYMBOL_DEF_USER
        [declared_here (sym_at 2); prompt "a" None; selects (sym_at 7)]));
     (sym_at 3, set_type S_TRISTATE (mk_bool "BR2_B" 0
        [mkProp P_DEFAULT None (mkEV (Some (E_SYMBOL (sym_at 2))) tri_no) (Some (E_SYMBOL symbol_mod)) None]));
     (sym_at 4, set_type S_INT (set_def_val S_DEF_USER (V_str (lit "9")) (mk_bool "BR2_J" SYMBOL_DEF_USER
        [prompt "j" (Some (E_EQUAL (sym_at 3) symbol_yes));
         mkProp P_RANGE None (mkEV None tri_no) (Some (E_RANGE (sym_at 5) (sym_at 6))) None])));
     (sym_at 5, literal "1"); (sym_at 6, literal "5");
     (sym_at 7, selected_by (sym_at 2) (mk_bool "BR2_SEL" 0 [declared_here (sym_at 7)]))]
  ∪ syms empty_tab.

Definition example_st : sym_state := mkSt (mkTab example_syms ∅ 8) (Some symbol_no) tri_no [] 0 [].

Definition example_rank (p : symp) : nat :=
  match p with sym_at 3 | sym_at 7 => 2 | sym_at 4 => 3 | sym_at _ => 1 | _ => 0 end.

Definition example_final : sym_state :=
  match for_each (sym_calc_value 5) (sym_at <$> [2; 3; 4; 5; 6; 7]%positive) example_st with
  | Ret _ st => st
  | _ => example_st
  end.

Definition example_sem (p : symp) : symbol_value := curr (sym (stab example_final) p).

Definition example_t0 : gmap symp symbol := static <$> example_syms.

Lemma example_values :
  val (example_sem (sym_at 4)) = V_str (lit "5") ∧ tri (example_sem (sym_at 3)) = tri_yes ∧
  tri (example_sem (sym_at 7)) = tri_yes.
Proof. split_and!; by vm_compute. Qed.

Ltac each_symbol H :=
  apply elem_of_map_to_list in H; vm_compute in H;
  repeat (apply elem_of_cons in H as [H|H]; [injection H as -> ->|]);
  [..|by apply elem_of_nil in H].

Lemma example_solves : solves example_rank example_t0 symbol_no tri_no example_sem.
Proof.
  split.
  - intros p s H Hp. each_symbol H; try discriminate Hp.
    all: split; [by vm_compute| |by vm_compute| |].
    all: try (intros d Hd; vm_compute in Hd; repeat (apply elem_of_cons in Hd as [->|Hd]; [split; [vm_compute; lia|by vm_compute; eexists]|]); by apply elem_of_nil in Hd).
    all: try (intros pr Hpr; vm_compute in Hpr; repeat (apply elem_of_cons in Hpr as [->|Hpr]; [try done; simpl; eauto|]); by apply elem_of_nil in Hpr).
    all: try (simpl; intros; naive_solver).
  - intros p s H Hp. each_symbol H; try discriminate Hp; by vm_compute.
  - intros p s H. each_symbol H; vm_compute; by eexists.
  - by vm_compute.
Qed.

Lemma example_inv : inv example_rank example_t0 symbol_no tri_no example_sem unwritten 4 example_st.
Proof.
  split; try done.
  - intros p. by rewrite <-lookup_fmap.
  - eexists. by vm_compute.
  - eexists. by vm_compute.
  - eexists. by vm_compute.
  - intros p s Hp H. unfold at_sym in H. each_symbol H; try discriminate Hp; by vm_compute.
  - intros p s Hp H _. unfold at_sym in H. each_symbol H; by vm_compute.
  - intros p s H Hr Hv. unfold at_sym in H. each_symbol H; try (vm_compute in Hv; discriminate Hv).
    all: split; [by vm_compute|intros Hs; try discriminate Hs; intros; split_and!; by vm_compute].
Qed.

Lemma example_constants : constants example_t0 example_sem.
Proof.
  split; try by vm_compute.
  - intros p s H [Hp|Hp]; each_symbol H; try discriminate Hp; try done; vm_compute in Hp; discriminate Hp.
  - intros p s H Hp Hf. each_symbol H; try discriminate Hp; try (vm_compute in Hf; discriminate Hf);
      eexists; by vm_compute.
  - intros p s H Hf. each_symbol H; try (vm_compute in Hf; discriminate Hf); by eexists.
  - intros p q s r H H' Hf Hf' Hn.
    each_symbol H; try (vm_compute in Hf; discriminate Hf);
      each_symbol H'; try (vm_compute in Hf'; discriminate Hf'); try done.
Qed.

Lemma sym_calc_value_correct_witness :
  ∃ st' s, sym_calc_value 4 (sym_at 4) example_st = Ret tt st' ∧
    at_sym (sym_at 4) st' s ∧ has_flag SYMBOL_VALID s = true ∧
    solved example_t0 tri_no example_sem unwritten (sym_at 4) s ∧
    inv example_rank example_t0 symbol_no tri_no example_sem unwritten 4 st' ∧ frame example_rank 4 None example_st st'.
Proof.
  apply (sym_calc_value_correct example_rank example_t0 symbol_no tri_no example_sem unwritten 4 4).
  - exact example_solves.
  - exact example_inv.
  - vm_compute. by eexists.
  - vm_compute. lia.
  - vm_compute. lia.
Defined.

Lemma solution_valuation_ok_witness :
  @valuation_ok (table_symtab example_t0) (val_spec tri_no (ty example_t0) example_sem).
Proof.
  exact (solution_valuation_ok example_rank example_t0 symbol_no tri_no example_sem example_solves
    example_constants).
Defined.
