(* ===== verification/KconfigDeps.v ===== *)
(** * Kconfig symbols: the check for recursive dependencies

    Translation of the end of [support/kconfig/symbol.c]: the depth-first walk
    of [sym_check_deps] over the symbols that a symbol depends on, with its
    marks in the symbols and its stack of what is being checked, and the report
    of a loop. What is printed on [stderr] is a list of events: a loop, line by
    line, or the message about an unexpected error. *)

From stdpp Require Import base option strings gmap list.
From Stdlib Require Import ZArith Lia.
From S2P Require Import Prelude Effects KconfigExpr KconfigSymtab KconfigConf KconfigSym.
Local Open Scope nat_scope.

Definition SYMBOL_CHECK : Z := 0x8.
Definition SYMBOL_CHECKED : Z := 0x2000.

(** [struct dep_stack], without its links: the stack is a list. *)
Record dep_entry := mkEntry { e_sym : symp; e_prop : option property; e_expr : option expr }.

(** What a line of the report says about its symbol and the next one. *)
Inductive link :=
  | Value_contains (t : prop_type) | Depends_on | Choice_contains | Part_of_choice | Selected_by.

Record report_line := mkLine { l_sym : symp; l_link : link; l_next : symp }.

Inductive event := Loop (lines : list report_line) | Unexpected.

Record dep_state := mkDep { dtab : symtab; dep_stack : list dep_entry; events : list event }.

Abbreviation D := (Eff dep_state).

Definition dload (p : symp) : D symbol := λ st,
  match syms (dtab st) !! p with Some s => Ret s st | None => Fault end.
Definition dstore (p : symp) (f : symbol → symbol) : D unit := λ st,
  match syms (dtab st) !! p with
  | Some _ => Ret tt (mkDep (upd p f (dtab st)) (dep_stack st) (events st))
  | None => Fault
  end.

Definition dep_stack_insert (p : symp) : D unit :=
  modify (λ st, mkDep (dtab st) (mkEntry p None None :: dep_stack st) (events st)).
Definition dep_stack_remove : D unit :=
  modify (λ st, mkDep (dtab st) (tail (dep_stack st)) (events st)).

(** An assignment to the members of the entry on the top. *)
Definition set_top (f : dep_entry → dep_entry) : D unit :=
  modify (λ st, mkDep (dtab st) (match dep_stack st with e :: l => f e :: l | [] => [] end) (events st)).

Definition emit (e : event) : D unit := modify (λ st, mkDep (dtab st) (dep_stack st) (e :: events st)).

Definition check_choice_of (s : symbol) : D symp :=
  match sym_get_choice_prop s with
  | Some pr => match prop_get_symbol pr with Some cs => mret cs | None => fault end
  | None => fault
  end.

(** ** The report *)

(** The first property of a symbol that has a menu. *)
Definition menu_prop (s : symbol) : option property :=
  head (filter (λ pr, p_menu pr ≠ None) (props s)).

(** One line of the report. The property gives the place in the file: without
    one the code follows a null pointer. *)
Definition print_entry (last_sym : symp) (e : dep_entry) (next_sym : symp) : D report_line :=
  s ← dload (e_sym e);
  _ ← dload next_sym;
  let in_choice := sym_is_choice s || sym_is_choice_value s in
  let prop := if in_choice then menu_prop s
              else match e_prop e with Some pr => Some pr | None => head (props s) end in
  match e_expr e, e_prop e, prop with
  | Some _, _, Some pr => mret (mkLine (e_sym e) (Value_contains (p_type pr)) next_sym)
  | None, Some _, Some _ => mret (mkLine (e_sym e) Depends_on next_sym)
  | None, None, Some _ =>
      mret (mkLine (e_sym e)
        (if sym_is_choice s then Choice_contains
         else if sym_is_choice_value s then Part_of_choice else Selected_by) next_sym)
  | _, _, None => fault
  end.

(** The entries from that of [last_sym] on, the newest last. *)
Fixpoint loop_entries (last_sym : symp) (l acc : list dep_entry) : option (list dep_entry) :=
  match l with
  | [] => None
  | e :: l => if decide (e_sym e = last_sym) then Some (e :: acc) else loop_entries last_sym l (e :: acc)
  end.

Fixpoint print_entries (last_sym : symp) (l : list dep_entry) : D (list report_line) :=
  match l with
  | [] => mret []
  | e :: l =>
      x ← print_entry last_sym e (match l with e' :: _ => e_sym e' | [] => last_sym end);
      r ← print_entries last_sym l;
      mret (x :: r)
  end.

(** When the entry is not found, the function returns before it takes its own
    entry for a choice value off the stack. *)
Definition sym_check_print_recursive (last_sym : symp) : D unit :=
  s ← dload last_sym;
  last ← (if sym_is_choice_value s then
            _ ← dep_stack_insert last_sym; check_choice_of s
          else mret last_sym);
  st ← gets dep_stack;
  match loop_entries last st [] with
  | None => emit Unexpected
  | Some l =>
      lines ← print_entries last l;
      _ ← emit (Loop lines);
      when (sym_is_choice_value s) dep_stack_remove
  end.

(** ** The walk *)

Section Check.
Context (check : symp → D (option symp)).

Definition orelse (m : D (option symp)) (f : D (option symp)) : D (option symp) :=
  r ← m; match r with Some p => mret (Some p) | None => f end.

Fixpoint sym_check_expr_deps (e : expr) : D (option symp) :=
  match e with
  | E_OR l r | E_AND l r => orelse (sym_check_expr_deps l) (sym_check_expr_deps r)
  | E_NOT l => sym_check_expr_deps l
  | E_EQUAL l r | E_UNEQUAL l r => orelse (check l) (check r)
  | E_SYMBOL s => check s
  | E_LIST _ _ | E_RANGE _ _ => mret None
  end.

Definition check_opt (e : option expr) : D (option symp) :=
  match e with Some e => sym_check_expr_deps e | None => mret None end.

(** The loop over the properties. *)
Fixpoint check_props (choice : bool) (l : list property) : D (option symp) :=
  match l with
  | [] => mret None
  | pr :: l =>
      if bool_decide (p_type pr = P_CHOICE ∨ p_type pr = P_SELECT) then check_props choice l
      else
        _ ← set_top (λ e, mkEntry (e_sym e) (Some pr) (e_expr e));
        orelse (check_opt (ev_expr (p_visible pr)))
          (if bool_decide (p_type pr ≠ P_DEFAULT) || choice then check_props choice l
           else
             _ ← set_top (λ e, mkEntry (e_sym e) (e_prop e) (p_expr pr));
             orelse (check_opt (p_expr pr))
               (_ ← set_top (λ e, mkEntry (e_sym e) (e_prop e) None);
                check_props choice l))
  end.

Definition sym_check_sym_deps (p : symp) : D (option symp) :=
  _ ← dep_stack_insert p;
  s ← dload p;
  r ← orelse (check_opt (ev_expr (rev_dep s))) (check_props (sym_is_choice s) (props s));
  _ ← dep_stack_remove;
  mret r.

Definition dchoice_values (s : symbol) : D (list symp) :=
  match sym_get_choice_prop s with
  | Some pr => mret (match p_expr pr with Some e => expr_list_syms e | None => [] end)
  | None => fault
  end.

Fixpoint check_values (vs : list symp) : D (option symp) :=
  match vs with
  | [] => mret None
  | v :: vs => orelse (sym_check_sym_deps v) (check_values vs)
  end.

Definition set_checks : symbol → symbol := add_flag (Z.lor SYMBOL_CHECK SYMBOL_CHECKED).

Definition sym_check_choice_deps (choice : symp) : D (option symp) :=
  _ ← dep_stack_insert choice;
  s ← dload choice;
  vs ← dchoice_values s;
  _ ← for_each (λ v, dstore v set_checks) vs;
  _ ← dstore choice set_checks;
  r ← sym_check_sym_deps choice;
  _ ← dstore choice (clear_flag SYMBOL_CHECK);
  sym2 ← orelse (mret r) (check_values vs);
  _ ← for_each (λ v, dstore v (clear_flag SYMBOL_CHECK)) vs;
  sym2 ← match sym2 with
         | Some q =>
             x ← dload q;
             if sym_is_choice_value x then
               cs ← check_choice_of x; mret (Some (if decide (cs = choice) then choice else q))
             else mret (Some q)
         | None => mret None
         end;
  _ ← dep_stack_remove;
  mret sym2.

(** The body of [sym_check_deps]. *)
Definition check_body (p : symp) : D (option symp) :=
  s ← dload p;
  if has_flag SYMBOL_CHECK s then _ ← sym_check_print_recursive p; mret (Some p)
  else if has_flag SYMBOL_CHECKED s then mret None
  else
    r ← (if sym_is_choice_value s then
           _ ← dep_stack_insert p;
           cs ← check_choice_of s;
           r ← check cs;
           _ ← dep_stack_remove;
           mret r
         else if sym_is_choice s then sym_check_choice_deps p
         else
           _ ← dstore p set_checks;
           r ← sym_check_sym_deps p;
           _ ← dstore p (clear_flag SYMBOL_CHECK);
           mret r);
    mret (match r with Some q => if decide (q = p) then None else Some q | None => None end).

End Check.

Fixpoint sym_check_deps (fuel : nat) (p : symp) : D (option symp) :=
  match fuel with
  | O => out_of_fuel
  | S fuel => check_body (sym_check_deps fuel) p
  end.

(** The loop of [conf_parse] over all symbols: the number of errors that it
    counts. *)
Fixpoint check_all (fuel : nat) (ps : list symp) (errs : nat) : D nat :=
  match ps with
  | [] => mret errs
  | p :: ps =>
      r ← sym_check_deps fuel p;
      check_all fuel ps (match r with Some _ => S errs | None => errs end)
  end.
