(* ===== verification/KconfigDepsSpec.v ===== *)
(** * Kconfig symbols: the check finds exactly the loops

    For tables without choices, the walk of [sym_check_deps] reports a loop if
    and only if the references between the symbols have one, and every loop
    that it reports is one. *)

From stdpp Require Import base option strings gmap relations list.
From Stdlib Require Import ZArith Lia.
From S2P Require Import Prelude Effects KconfigExpr KconfigSymtab KconfigConf KconfigSym KconfigDeps.
Local Open Scope nat_scope.

(** ** The graph *)

(** The symbols that the walk visits from an expression, a property, a
    symbol. *)
Fixpoint walk_syms (e : expr) : list symp :=
  match e with
  | E_AND l r | E_OR l r => walk_syms l ++ walk_syms r
  | E_NOT l => walk_syms l
  | E_SYMBOL s => [s]
  | E_EQUAL l r | E_UNEQUAL l r => [l; r]
  | E_LIST _ _ | E_RANGE _ _ => []
  end.

Definition walk_opt (e : option expr) : list symp := from_option walk_syms [] e.

Definition prop_edges (pr : property) : list symp :=
  if bool_decide (p_type pr = P_CHOICE ∨ p_type pr = P_SELECT) then []
  else walk_opt (ev_expr (p_visible pr)) ++
       (if bool_decide (p_type pr ≠ P_DEFAULT) then [] else walk_opt (p_expr pr)).

Definition dep_edges (s : symbol) : list symp :=
  walk_opt (ev_expr (rev_dep s)) ++ (props s ≫= prop_edges).

(** The marks apart. *)
Definition core (s : symbol) : symbol := clear_flag (Z.lor SYMBOL_CHECK SYMBOL_CHECKED) s.

Definition unmarked (s : symbol) : nat := if has_flag SYMBOL_CHECKED s then 0 else 1.

Section Graph.
Context (t0 : gmap symp symbol).

Definition edge (p q : symp) : Prop := ∃ s, t0 !! p = Some s ∧ q ∈ dep_edges s.

(** A table without choices in which every reference leads to a symbol, and in
    which a symbol that refers to others has a property, from which the report
    takes the place in the file. *)
Record table_wf : Prop := {
  tw_closed : ∀ p q, edge p q → is_Some (t0 !! q);
  tw_choice : ∀ p s, t0 !! p = Some s → sym_is_choice s = false ∧ sym_is_choice_value s = false;
  tw_props : ∀ p s, t0 !! p = Some s → dep_edges s ≠ [] → props s ≠ [];
}.

Context (Hwf : table_wf).

(** ** Marks *)

Definition dat (st : dep_state) (p : symp) (s : symbol) : Prop := syms (dtab st) !! p = Some s.

Definition gray (st : dep_state) (p : symp) : Prop :=
  ∃ s, dat st p s ∧ has_flag SYMBOL_CHECK s = true.
Definition checked (st : dep_state) (p : symp) : Prop :=
  ∃ s, dat st p s ∧ has_flag SYMBOL_CHECKED s = true.
Definition black (st : dep_state) (p : symp) : Prop := checked st p ∧ ¬ gray st p.

Definition unchecked (st : dep_state) : nat := map_total unmarked (syms (dtab st)).

Definition stack_syms (st : dep_state) : list symp := e_sym <$> dep_stack st.

(** The stack, its top first, is a path. *)
Fixpoint path (l : list symp) : Prop :=
  match l with
  | p :: (q :: _) as r => edge q p ∧ path r
  | _ => True
  end.

(** A reported loop is one: each line's symbol refers to the next, and the last
    to the first. *)
Fixpoint chain_to (last : symp) (l : list report_line) : Prop :=
  match l with
  | [] => True
  | x :: r =>
      edge (l_sym x) (l_next x) ∧
      l_next x = match r with y :: _ => l_sym y | [] => last end ∧ chain_to last r
  end.

Definition event_ok (e : event) : Prop :=
  match e with
  | Loop (x :: r) => chain_to (l_sym x) (x :: r)
  | _ => False
  end.

Definition entry_ok (e : dep_entry) : Prop :=
  ∀ s, t0 !! e_sym e = Some s → props s ≠ [].

Record dwf (st : dep_state) : Prop := {
  dwf_core : ∀ p, core <$> syms (dtab st) !! p = core <$> t0 !! p;
  dwf_gray : ∀ p, gray st p ↔ p ∈ stack_syms st;
  dwf_checked : ∀ p, gray st p → checked st p;
  dwf_path : path (stack_syms st);
  dwf_events : Forall event_ok (events st);
  dwf_quiet : events st = [] → ∀ p, black st p → (∀ q, edge p q → black st q) ∧ ¬ tc edge p p;
}.

(** What a step of the walk changes. *)
Record ran (st st' : dep_state) : Prop := {
  ran_stack : stack_syms st' = stack_syms st;
  ran_gray : ∀ p, gray st' p ↔ gray st p;
  ran_checked : ∀ p, checked st p → checked st' p;
  ran_events : ∃ new, events st' = new ++ events st;
  ran_unchecked : unchecked st' ≤ unchecked st;
}.

Lemma ran_refl st : ran st st.
Proof. split; try done. by exists []. Qed.

Lemma ran_trans st1 st2 st3 : ran st1 st2 → ran st2 st3 → ran st1 st3.
Proof.
  intros [s1 g1 c1 [n1 e1] u1] [s2 g2 c2 [n2 e2] u2].
  split; [congruence|intros p; by rewrite g2|auto| |lia]. exists (n2 ++ n1). by rewrite e2, e1, app_assoc.
Qed.

Lemma ran_black st st' p : ran st st' → black st p → black st' p.
Proof. intros [_ g c _ _] [Hc Hg]. split; [auto|]. by rewrite g. Qed.

Lemma ran_silent st st' : ran st st' → events st' = [] → events st = [].
Proof. intros [_ _ _ [new ->] _]. by intros [_ ?]%app_eq_nil. Qed.

(** The triple of the walk over the symbols [l]. *)
Definition walks (l : list symp) (m : D (option symp)) (st : dep_state) : Prop :=
  spec False m st (λ r st', dwf st' ∧ ran st st' ∧ (∀ q, r = Some q → gray st q) ∧
    (events st' = [] → r = None ∧ ∀ q, q ∈ l → black st' q)).

Lemma walks_none st : dwf st → walks [] (mret None) st.
Proof.
  intros Hd. apply spec_ret. split_and!; [done|apply ran_refl|done|].
  intros _. split; [done|]. by intros q ?%elem_of_nil.
Qed.

Lemma walks_orelse l1 l2 m f st :
  walks l1 m st → (∀ st', dwf st' → ran st st' → walks l2 f st') → walks (l1 ++ l2) (orelse m f) st.
Proof.
  intros Hm Hf. apply spec_bind. eapply spec_mono; [exact Hm|].
  intros r st1 (Hd1 & Hr1 & Hg1 & Hq1). destruct r as [q|].
  - apply spec_ret. split_and!; [done|done|done|]. intros He. by destruct (Hq1 He).
  - eapply spec_mono; [by apply Hf|]. intros r2 st2 (Hd2 & Hr2 & Hg2 & Hq2).
    split_and!; [done|by eapply ran_trans| |].
    + intros q Hq. apply (ran_gray _ _ Hr1). by apply Hg2.
    + intros He. destruct (Hq2 He) as [-> Hb2]. split; [done|]. intros q [Hq|Hq]%elem_of_app; [|auto].
      destruct (Hq1 (ran_silent _ _ Hr2 He)) as [_ Hb1]. by eapply ran_black, Hb1.
Qed.

(** ** Records of the table *)

Lemma has_flag_core f s :
  Z.land f (Z.lor SYMBOL_CHECK SYMBOL_CHECKED) = 0%Z → has_flag f (core s) = has_flag f s.
Proof. intros H. by apply has_flag_clear. Qed.

Lemma core_eq s s0 : core s = core s0 →
  props s = props s0 ∧ rev_dep s = rev_dep s0 ∧ dep_edges s = dep_edges s0 ∧
  sym_is_choice s = sym_is_choice s0 ∧ sym_is_choice_value s = sym_is_choice_value s0.
Proof.
  intros H. pose proof (f_equal props H) as Hp. pose proof (f_equal rev_dep H) as Hr. simpl in Hp, Hr.
  split_and!; [done|done|unfold dep_edges; by rewrite Hp, Hr|..];
    unfold sym_is_choice, sym_is_choice_value;
    (rewrite <-(has_flag_core _ s), <-(has_flag_core _ s0) by done; by rewrite H).
Qed.

Definition same_core (st : dep_state) : Prop := ∀ p, core <$> syms (dtab st) !! p = core <$> t0 !! p.

Lemma table_record st p s : same_core st → dat st p s →
  ∃ s0, t0 !! p = Some s0 ∧ props s = props s0 ∧ rev_dep s = rev_dep s0 ∧ dep_edges s = dep_edges s0 ∧
    sym_is_choice s = false ∧ sym_is_choice_value s = false.
Proof.
  intros Hc Hp. specialize (Hc p). unfold dat in Hp. rewrite Hp in Hc. simpl in Hc.
  symmetry in Hc. apply fmap_Some in Hc as (s0 & Hs0 & Hcore).
  destruct (core_eq _ _ Hcore) as (? & ? & ? & -> & ->).
  destruct (tw_choice Hwf p s0 Hs0) as [-> ->]. by exists s0.
Qed.

Lemma table_dat st p : same_core st → is_Some (t0 !! p) → ∃ s, dat st p s.
Proof.
  intros Hc [s0 Hs0]. specialize (Hc p). rewrite Hs0 in Hc. simpl in Hc.
  apply fmap_Some in Hc as (s & Hs & _). by exists s.
Qed.

Lemma spec_dload F p st s (Q : symbol → dep_state → Prop) : dat st p s → Q s st → spec F (dload p) st Q.
Proof. unfold spec, dload, dat. by intros ->. Qed.

(** ** The report *)

Definition next_of (l : list dep_entry) (last : symp) : symp :=
  match l with e :: _ => e_sym e | [] => last end.

Fixpoint forward (l : list dep_entry) (last : symp) : Prop :=
  match l with
  | [] => True
  | e :: r => edge (e_sym e) (next_of r last) ∧ forward r last
  end.

Lemma loop_entries_ok last l acc :
  path (e_sym <$> l) → forward acc last →
  match l with e :: _ => edge (e_sym e) (next_of acc last) | [] => True end →
  last ∈ e_sym <$> l →
  ∃ e r, loop_entries last l acc = Some (e :: r) ∧ forward (e :: r) last ∧ e_sym e = last.
Proof.
  revert acc. induction l as [|e l IH]; intros acc Hp Hf He Hin; [by apply elem_of_nil in Hin|].
  simpl. case_decide as E; [by exists e, acc|].
  apply IH; [| |destruct l as [|e' l]; [done|]|].
  - destruct l; [done|]. apply Hp.
  - by split.
  - apply Hp.
  - simpl in Hin. apply elem_of_cons in Hin as [->|?]; done.
Qed.

Lemma print_entry_ok last e q st :
  same_core st → edge (e_sym e) q →
  spec False (print_entry last e q) st (λ x st', st' = st ∧ l_sym x = e_sym e ∧ l_next x = q).
Proof.
  intros Hc He. destruct (table_dat st q Hc (tw_closed Hwf _ _ He)) as [sq Hq].
  destruct He as (s0 & Hs0 & Hin). destruct (table_dat st (e_sym e) Hc) as [s Hs]; [by eexists|].
  destruct (table_record st _ s Hc Hs) as (s0' & Hs0' & Hprops & _ & _ & Hch & Hcv).
  assert (s0' = s0) as -> by congruence.
  assert (Hne : props s0 ≠ []) by (apply (tw_props Hwf _ _ Hs0); by intros E; rewrite E in Hin; apply elem_of_nil in Hin).
  apply spec_bind. eapply spec_dload; [exact Hs|]. apply spec_bind. eapply spec_dload; [exact Hq|].
  rewrite Hch, Hcv, Hprops. simpl. destruct (props s0) as [|pr l]; [done|]. simpl.
  by destruct (e_expr e), (e_prop e).
Qed.

Lemma print_entries_ok last l st :
  same_core st → forward l last →
  spec False (print_entries last l) st (λ r st', st' = st ∧ chain_to last r ∧ l_sym <$> r = e_sym <$> l).
Proof.
  intros Hc. induction l as [|e l IH]; intros Hf; [by apply spec_ret|]. destruct Hf as [He Hf].
  apply spec_bind. eapply spec_mono; [by apply print_entry_ok|]. intros x st' (-> & Hx & Hn).
  apply spec_bind. eapply spec_mono; [by apply IH|]. intros r st'' (-> & Hr & Hrs).
  apply spec_ret. split_and!; [done| |by rewrite !fmap_cons, Hx, Hrs].
  simpl. rewrite Hx, Hn. split_and!; [done| |done].
  destruct r as [|y r], l as [|e' l]; simplify_eq/=; congruence.
Qed.

(** The state apart from the report. *)
Lemma dwf_emit e st : event_ok e → dwf st → dwf (mkDep (dtab st) (dep_stack st) (e :: events st)).
Proof. intros He []. by split; [..|constructor|]. Qed.

(** A marked symbol is reported, as a loop. *)
Lemma report_ok q st :
  dwf st → gray st q → match stack_syms st with p :: _ => edge p q | [] => True end →
  spec False (sym_check_print_recursive q) st
    (λ _ st', dwf st' ∧ ran st st' ∧ events st' ≠ []).
Proof.
  intros Hd Hg He. pose proof (dwf_core _ Hd) as Hc. pose proof Hg as (s & Hs & _).
  destruct (table_record st q s Hc Hs) as (s0 & _ & _ & _ & _ & _ & Hcv).
  apply spec_bind. eapply spec_dload; [exact Hs|]. rewrite Hcv. apply spec_bind, spec_ret.
  apply spec_bind. change (gets dep_stack st) with (mret (M := Eff _) (dep_stack st) st).
  assert (Hgo : ∃ e r, loop_entries q (dep_stack st) [] = Some (e :: r) ∧ forward (e :: r) q ∧ e_sym e = q).
  { apply loop_entries_ok; [apply (dwf_path _ Hd)|done| |by apply (dwf_gray _ Hd)].
    unfold stack_syms in He. by destruct (dep_stack st). }
  destruct Hgo as (e & r & Hl & Hf & Hq). unfold spec at 1. simpl. rewrite Hl.
  apply spec_bind. eapply spec_mono; [by apply print_entries_ok|].
  intros lines st' (-> & Hch & Hsyms). apply spec_bind. unfold spec at 1, emit, modify. simpl.
  destruct lines as [|x lines]; [done|]. simplify_eq/=.
  split_and!; [|split|done]; try done; [|by exists [Loop (x :: lines)]].
  apply dwf_emit; [|done]. simpl. by rewrite H in *.
Qed.

(** ** The references of one symbol *)

Section Walk.
Context (check : symp → D (option symp)) (k : nat) (p : symp) (rest : list symp).

(** While the references of [p] are walked. *)
Definition walking (st : dep_state) : Prop :=
  dwf st ∧ unchecked st ≤ k ∧ stack_syms st = p :: rest.

Context (Hcheck : ∀ q st, walking st → edge p q → walks [q] (check q) st).

Lemma walking_ran st st' : walking st → dwf st' → ran st st' → walking st'.
Proof.
  intros (_ & Hk & Hs) Hd Hr. split; [done|]. split.
  - pose proof (ran_unchecked _ _ Hr). lia.
  - by rewrite (ran_stack _ _ Hr).
Qed.

Lemma walk_orelse l1 l2 m f st :
  walking st → walks l1 m st → (∀ st', walking st' → walks l2 f st') → walks (l1 ++ l2) (orelse m f) st.
Proof. intros Hw Hm Hf. apply walks_orelse; [done|]. intros st' Hd Hr. by eapply Hf, walking_ran. Qed.

Lemma walk_none st : walking st → walks [] (mret None) st.
Proof. intros (Hd & _). by apply walks_none. Qed.

Lemma walk_expr e st :
  walking st → (∀ q, q ∈ walk_syms e → edge p q) → walks (walk_syms e) (sym_check_expr_deps check e) st.
Proof.
  revert st. induction e as [l IHl r IHr|l IHl r IHr|l IHl|l r|l r|l r|q|l r]; intros st Hw He;
    simpl in He |- *; try (by apply walk_none).
  - apply walk_orelse; [done|apply IHl; [done|]|intros; apply IHr; [done|]]; set_solver.
  - apply walk_orelse; [done|apply IHl; [done|]|intros; apply IHr; [done|]]; set_solver.
  - by apply IHl.
  - apply (walk_orelse [l] [r]); [done|apply Hcheck; [done|]|intros; apply Hcheck; [done|]]; set_solver.
  - apply (walk_orelse [l] [r]); [done|apply Hcheck; [done|]|intros; apply Hcheck; [done|]]; set_solver.
  - apply Hcheck; [done|]. set_solver.
Qed.

Lemma walk_opt_ok e st :
  walking st → (∀ q, q ∈ walk_opt e → edge p q) → walks (walk_opt e) (check_opt check e) st.
Proof. intros Hw He. destruct e; [by apply walk_expr|by apply walk_none]. Qed.

(** Noting what is being checked changes nothing else. *)
Lemma walk_set_top l f m st :
  walking st → (∀ e, e_sym (f e) = e_sym e) → (∀ st', walking st' → walks l m st') →
  walks l (_ ← set_top f; m) st.
Proof.
  intros Hw Hf Hm. set (st1 := mkDep (dtab st)
    (match dep_stack st with e :: l => f e :: l | [] => [] end) (events st)).
  assert (Hs : stack_syms st1 = stack_syms st).
  { unfold stack_syms, st1. simpl. destruct (dep_stack st) as [|e es]; [done|]. by rewrite !fmap_cons, Hf. }
  destruct Hw as ([] & Hk & Htop).
  assert (Hw1 : walking st1).
  { split; [|split; [done|by rewrite Hs]]. by split; rewrite ?Hs. }
  specialize (Hm st1 Hw1). unfold walks in *. apply spec_bind. unfold set_top, modify, spec at 1.
  eapply spec_mono; [exact Hm|]. intros r st' (Hd' & Hr & Hg & Hq). split_and!; [done| |done|done].
  destruct Hr as [r1 r2 r3 r4 r5]. split; [by rewrite r1|done..].
Qed.

Lemma walk_props l st :
  walking st → (∀ q, q ∈ l ≫= prop_edges → edge p q) →
  walks (l ≫= prop_edges) (check_props check false l) st.
Proof.
  revert st. induction l as [|pr l IH]; intros st Hw He; [by apply walk_none|].
  change ((pr :: l) ≫= prop_edges) with (prop_edges pr ++ (l ≫= prop_edges)) in *.
  simpl. unfold prop_edges in * |- *. fold prop_edges in *.
  case_bool_decide as Et; [apply IH; [done|]; set_solver|].
  apply walk_set_top; [done|done|]. intros st1 Hw1. rewrite <-app_assoc. apply walk_orelse; [done| |].
  - apply walk_opt_ok; [done|]. set_solver.
  - intros st2 Hw2. rewrite orb_false_r. case_bool_decide as Ed; [apply IH; [done|]; set_solver|].
    apply walk_set_top; [done|done|]. intros st3 Hw3. apply walk_orelse; [done| |].
    + apply walk_opt_ok; [done|]. set_solver.
    + intros st4 Hw4. apply walk_set_top; [done|done|]. intros st5 Hw5. apply IH; [done|]. set_solver.
Qed.

End Walk.

(** ** The marks of one symbol *)

Section Marks.
Context (st st' : dep_state) (q : symp) (s : symbol) (f : symbol → symbol).
Context (Hq : dat st q s) (Htab : dtab st' = upd q f (dtab st)).

Lemma dat_upd x y : dat st' x y ↔ (x = q ∧ y = f s) ∨ (x ≠ q ∧ dat st x y).
Proof.
  unfold dat in *. rewrite Htab. destruct (decide (x = q)) as [->|Hx].
  - rewrite upd_lookup, Hq. simpl. naive_solver.
  - rewrite upd_lookup_ne by done. naive_solver.
Qed.

Lemma gray_upd x : gray st' x ↔ (x = q ∧ has_flag SYMBOL_CHECK (f s) = true) ∨ (x ≠ q ∧ gray st x).
Proof. unfold gray. setoid_rewrite dat_upd. naive_solver. Qed.

Lemma checked_upd x :
  checked st' x ↔ (x = q ∧ has_flag SYMBOL_CHECKED (f s) = true) ∨ (x ≠ q ∧ checked st x).
Proof. unfold checked. setoid_rewrite dat_upd. naive_solver. Qed.

Lemma core_upd : core (f s) = core s → same_core st → same_core st'.
Proof.
  intros Hf Hc x. specialize (Hc x). rewrite Htab. destruct (decide (x = q)) as [->|Hx].
  - rewrite upd_lookup. unfold dat in Hq. rewrite Hq in *. simpl in *. congruence.
  - by rewrite upd_lookup_ne.
Qed.

Lemma unchecked_upd : unchecked st' + unmarked s = unchecked st + unmarked (f s).
Proof. unfold unchecked. rewrite Htab. by apply (map_total_alter unmarked). Qed.

End Marks.

Lemma flag_bits_core s fl :
  Z.ldiff fl (Z.lor SYMBOL_CHECK SYMBOL_CHECKED) = Z.ldiff (flags s) (Z.lor SYMBOL_CHECK SYMBOL_CHECKED) →
  core (set_flags fl s) = core s.
Proof. intros H. unfold core, clear_flag. simpl. by rewrite H. Qed.

Lemma core_set s : core (set_checks s) = core s.
Proof.
  apply (flag_bits_core s (Z.lor (flags s) (Z.lor SYMBOL_CHECK SYMBOL_CHECKED))).
  apply Z.bits_inj'. intros n _. rewrite !Z.ldiff_spec, Z.lor_spec.
  destruct (Z.testbit (flags s) n), (Z.testbit (Z.lor SYMBOL_CHECK SYMBOL_CHECKED) n); done.
Qed.

Lemma core_clear s : core (clear_flag SYMBOL_CHECK s) = core s.
Proof.
  apply (flag_bits_core s (Z.ldiff (flags s) SYMBOL_CHECK)).
  apply Z.bits_inj'. intros n _. rewrite !Z.ldiff_spec, Z.lor_spec.
  destruct (Z.testbit (flags s) n), (Z.testbit SYMBOL_CHECK n), (Z.testbit SYMBOL_CHECKED n); done.
Qed.

Lemma black_path st x y : (∀ x, black st x → ∀ y, edge x y → black st y) → black st x → tc edge x y → black st y.
Proof. intros Hc Hx Ht. revert Hx. induction Ht; eauto. Qed.

(** ** One symbol *)

(** The mark is set and the symbol put on the stack. *)
Lemma enter_ok k q s st st1 :
  dwf st → dat st q s → has_flag SYMBOL_CHECKED s = false → unchecked st ≤ S k →
  match stack_syms st with p :: _ => edge p q | [] => True end →
  st1 = mkDep (upd q set_checks (dtab st)) (mkEntry q None None :: dep_stack st) (events st) →
  walking k q (stack_syms st) st1.
Proof.
  intros Hd Hq Hch Hk He ->. set (st1 := mkDep _ _ _).
  assert (Hng : ¬ checked st q).
  { intros (x & Hx & Hcx). unfold dat in *. congruence. }
  pose proof (gray_upd st st1 q s set_checks Hq eq_refl) as Hg.
  pose proof (checked_upd st st1 q s set_checks Hq eq_refl) as Hc.
  assert (Hset : has_flag SYMBOL_CHECK (set_checks s) = true ∧ has_flag SYMBOL_CHECKED (set_checks s) = true).
  { split; unfold set_checks, has_flag; simpl; apply negb_true_iff, Z.eqb_neq; intros E;
      [apply (f_equal (λ z, Z.testbit z 3)) in E|apply (f_equal (λ z, Z.testbit z 13)) in E];
      rewrite Z.land_spec, Z.lor_spec, Z.bits_0 in E; simpl in E; rewrite orb_true_r in E; done. }
  destruct Hset as [Hs1 Hs2]. rewrite Hs1 in Hg. rewrite Hs2 in Hc.
  split; [|split; [|done]].
  - split.
    + apply (core_upd st st1 q s set_checks Hq eq_refl (core_set s) (dwf_core _ Hd)).
    + intros x. change (stack_syms st1) with (q :: stack_syms st).
      rewrite Hg, elem_of_cons, (dwf_gray _ Hd x). destruct (decide (x = q)); tauto.
    + intros x. rewrite Hg, Hc. pose proof (dwf_checked _ Hd x). naive_solver.
    + change (stack_syms st1) with (q :: stack_syms st). pose proof (dwf_path _ Hd) as Hp.
      by destruct (stack_syms st).
    + apply (dwf_events _ Hd).
    + intros Hev x [Hcx Hgx]. rewrite Hc in Hcx. rewrite Hg in Hgx.
      destruct (decide (x = q)) as [->|Hne]; [naive_solver|].
      assert (Hb : black st x) by (split; naive_solver).
      destruct (dwf_quiet _ Hd Hev x Hb) as [Hcl Hac]. split; [|done].
      intros y Hy. destruct (Hcl y Hy) as [Hcy Hgy].
      assert (y ≠ q) by (by intros ->). split; [rewrite Hc|rewrite Hg]; naive_solver.
  - pose proof (unchecked_upd st st1 q s set_checks Hq eq_refl) as Hu. unfold unmarked in Hu.
    rewrite Hch, Hs2 in Hu. lia.
Qed.

(** The mark is taken back and the symbol taken off the stack. *)
Lemma leave_ok q rest st st' s :
  dwf st → stack_syms st = q :: rest → dat st q s → ¬ q ∈ rest →
  (events st = [] → ∀ x, edge q x → black st x) →
  st' = mkDep (upd q (clear_flag SYMBOL_CHECK) (dtab st)) (tail (dep_stack st)) (events st) →
  dwf st' ∧ stack_syms st' = rest ∧ (∀ x, gray st' x ↔ x ≠ q ∧ gray st x) ∧
  (∀ x, checked st x → checked st' x) ∧ unchecked st' ≤ unchecked st ∧ black st' q.
Proof.
  intros Hd Hst Hq Hnr Hbl ->. set (st' := mkDep _ _ _).
  pose proof (gray_upd st st' q s (clear_flag SYMBOL_CHECK) Hq eq_refl) as Hg.
  pose proof (checked_upd st st' q s (clear_flag SYMBOL_CHECK) Hq eq_refl) as Hc.
  pose proof (unchecked_upd st st' q s (clear_flag SYMBOL_CHECK) Hq eq_refl) as Hu.
  assert (Hgq : gray st q) by (apply (dwf_gray _ Hd); rewrite Hst; left).
  assert (Hcq : has_flag SYMBOL_CHECKED s = true).
  { destruct (dwf_checked _ Hd q Hgq) as (x & Hx & Hcx). unfold dat in *. congruence. }
  rewrite has_flag_clear_sub in Hg by done. rewrite has_flag_clear, Hcq in Hc by done.
  unfold unmarked in Hu. rewrite has_flag_clear, Hcq in Hu by done.
  assert (Hg' : ∀ x, gray st' x ↔ x ≠ q ∧ gray st x) by (intros x; rewrite Hg; naive_solver).
  assert (Hc' : ∀ x, checked st' x ↔ checked st x).
  { intros x. rewrite Hc. destruct (decide (x = q)) as [->|]; [|tauto].
    split; [intros _; by apply (dwf_checked _ Hd)|by left]. }
  assert (Hs' : stack_syms st' = rest).
  { unfold stack_syms in *. simpl. destruct (dep_stack st); [done|]. by injection Hst. }
  assert (Hb : ∀ x, black st' x ↔ x = q ∨ black st x).
  { intros x. unfold black. rewrite Hg', Hc'. destruct (decide (x = q)) as [->|]; [|tauto].
    split; [by left|]. intros _. split; [by apply (dwf_checked _ Hd)|tauto]. }
  split_and!; [|done|done|intros x; by rewrite Hc'|lia|by apply Hb; left].
  split.
  - apply (core_upd st st' q s _ Hq eq_refl (core_clear s) (dwf_core _ Hd)).
  - intros x. rewrite Hg', (dwf_gray _ Hd x), Hst, Hs', elem_of_cons.
    destruct (decide (x = q)) as [->|]; tauto.
  - intros x. rewrite Hg', Hc'. intros [_ Hx]. by apply (dwf_checked _ Hd).
  - rewrite Hs'. pose proof (dwf_path _ Hd) as Hp. rewrite Hst in Hp. destruct rest; [done|apply Hp].
  - apply (dwf_events _ Hd).
  - intros Hev. assert (Hcl : ∀ x, black st x → ∀ y, edge x y → black st y).
    { intros x Hx. by apply (dwf_quiet _ Hd Hev x Hx). }
    intros x [->|Hx]%Hb; (split; [intros y Hy; apply Hb; right|]).
    + by apply Hbl.
    + intros Ht. assert (black st q) as [_ Hn]; [|done].
      inversion Ht as [? ? He|? y ? He Ht']; subst; [by apply Hbl|].
      eapply (black_path st y q Hcl); [by apply Hbl|done].
    + by eapply Hcl.
    + by apply (dwf_quiet _ Hd Hev).
Qed.

Lemma set_checks_flags s :
  has_flag SYMBOL_CHECK (set_checks s) = true ∧ has_flag SYMBOL_CHECKED (set_checks s) = true.
Proof.
  split; unfold set_checks, has_flag; simpl; apply negb_true_iff, Z.eqb_neq; intros E;
    [apply (f_equal (λ z, Z.testbit z 3)) in E|apply (f_equal (λ z, Z.testbit z 13)) in E];
    rewrite Z.land_spec, Z.lor_spec, Z.bits_0 in E; simpl in E; rewrite orb_true_r in E; done.
Qed.

(** The walk over the references of an unmarked symbol. *)
Definition visit (check : symp → D (option symp)) (q : symp) : D (option symp) :=
  _ ← dstore q set_checks;
  r ← sym_check_sym_deps check q;
  _ ← dstore q (clear_flag SYMBOL_CHECK);
  mret r.

Section Visit.
Context (check : symp → D (option symp)) (k : nat).
Context (Hcheck : ∀ p rest q st, walking k p rest st → edge p q → walks [q] (check q) st).

(** The references of the symbol on the top. *)
Lemma walk_refs q rest st s0 b :
  walking k q rest st → t0 !! q = Some s0 → b = false →
  walks (dep_edges s0)
    (orelse (check_opt check (ev_expr (rev_dep s0))) (check_props check b (props s0))) st.
Proof.
  intros Hw Hs0 ->. assert (Hedge : ∀ x, x ∈ dep_edges s0 → edge q x) by (intros x Hx; by exists s0).
  apply (walk_orelse k q rest); [done| |].
  - apply (walk_opt_ok check k q rest); [intros; by eapply Hcheck|done|].
    intros x Hx. apply Hedge, elem_of_app. by left.
  - intros st2 Hw2. apply (walk_props check k q rest); [intros; by eapply Hcheck|done|].
    intros x Hx. apply Hedge, elem_of_app. by right.
Qed.

Lemma visit_ok q s st :
  dwf st → unchecked st ≤ S k → dat st q s → has_flag SYMBOL_CHECKED s = false →
  match stack_syms st with p :: _ => edge p q | [] => True end →
  spec False (visit check q) st (λ r st', dwf st' ∧ ran st st' ∧
    (∀ x, r = Some x → x = q ∨ gray st x) ∧ (events st' = [] → r = None ∧ black st' q)).
Proof.
  intros Hd Hk Hs Ech He.
  destruct (table_record st q s (dwf_core _ Hd) Hs) as (s0 & Hs0 & Hpr & Hrev & _ & Hch & _).
  assert (Hnc : ¬ checked st q) by (intros (x & Hx & Hcx); unfold dat in *; congruence).
  assert (Hng : ¬ gray st q) by (intros Hg; by apply Hnc, (dwf_checked _ Hd)).
  apply spec_bind. unfold spec at 1, dstore. rewrite Hs. apply spec_bind, spec_bind.
  unfold spec at 1, dep_stack_insert, modify. simpl. set (st1 := mkDep _ _ _).
  assert (Hw : walking k q (stack_syms st) st1) by (by eapply enter_ok).
  assert (Hs1 : dat st1 q (set_checks s)) by (unfold dat; simpl; by rewrite lookup_alter_eq, Hs).
  apply spec_bind. eapply spec_dload; [exact Hs1|]. apply spec_bind.
  simpl rev_dep. simpl props. rewrite Hpr, Hrev.
  eapply spec_mono; [eapply walk_refs; [exact Hw|exact Hs0|]|].
  { unfold set_checks, sym_is_choice. by rewrite has_flag_add. }
  intros r st2 (Hd2 & Hr2 & Hg2 & Hq2). apply spec_bind. unfold spec at 1, dep_stack_remove, modify. simpl.
  apply spec_ret. apply spec_bind.
  assert (Hgq : gray st2 q).
  { apply (ran_gray _ _ Hr2). exists (set_checks s). split; [done|apply set_checks_flags]. }
  destruct Hgq as (s2 & Hs2 & _). unfold spec at 1, dstore. simpl. unfold dat in Hs2. rewrite Hs2.
  apply spec_ret. simpl.
  assert (Hnin : ¬ q ∈ stack_syms st) by (intros Hin; by apply Hng, (dwf_gray _ Hd)).
  assert (Hbl : events st2 = [] → ∀ x, edge q x → black st2 x).
  { intros Hev x (s0' & Hs0' & Hx). assert (s0' = s0) as -> by congruence. by apply Hq2. }
  destruct (leave_ok q (stack_syms st) st2 _ s2 Hd2 (ran_stack _ _ Hr2) Hs2 Hnin Hbl (eq_refl _))
    as (Hd3 & Hst3 & Hg3 & Hc3 & Hu3 & Hb3).
  pose proof (gray_upd st st1 q s set_checks Hs eq_refl) as Hg1.
  pose proof (checked_upd st st1 q s set_checks Hs eq_refl) as Hc1.
  pose proof (unchecked_upd st st1 q s set_checks Hs eq_refl) as Hu1.
  unfold unmarked in Hu1. destruct (set_checks_flags s) as [_ Hf]. rewrite Hf, Ech in Hu1.
  split_and!; [done| | |].
  - split; [done| | |apply (ran_events _ _ Hr2)|pose proof (ran_unchecked _ _ Hr2); lia].
    + intros x. rewrite Hg3, (ran_gray _ _ Hr2 x), Hg1. destruct (decide (x = q)) as [->|]; tauto.
    + intros x Hx. apply Hc3, (ran_checked _ _ Hr2), Hc1. right. split; [by intros ->|done].
  - intros x Hx. pose proof (Hg2 x Hx) as Hgx. rewrite Hg1 in Hgx. tauto.
  - intros Hev. split; [by apply Hq2|done].
Qed.

End Visit.

Lemma body_step check n :
  (∀ k, n = S k → ∀ p rest q st, walking k p rest st → edge p q → walks [q] (check q) st) →
  ∀ q st, dwf st → unchecked st ≤ n → is_Some (t0 !! q) →
    match stack_syms st with p :: _ => edge p q | [] => True end →
    walks [q] (check_body check q) st.
Proof.
  intros Hcheck q st Hd Hk Hq He. destruct (table_dat st q (dwf_core _ Hd) Hq) as [s Hs].
  destruct (table_record st q s (dwf_core _ Hd) Hs) as (s0 & _ & _ & _ & _ & Hch & Hcv).
  apply spec_bind. eapply spec_dload; [exact Hs|].
  destruct (has_flag SYMBOL_CHECK s) eqn:Egr.
  { assert (Hg : gray st q) by (by exists s). apply spec_bind.
    eapply spec_mono; [by apply report_ok|]. intros _ st' (Hd' & Hr & Hev). apply spec_ret.
    split_and!; [done|done|by intros ? [= <-]|by intros]. }
  assert (Hng : ¬ gray st q) by (intros (x & Hx & Hgx); unfold dat in *; congruence).
  destruct (has_flag SYMBOL_CHECKED s) eqn:Ech.
  { apply spec_ret. split_and!; [done|apply ran_refl|done|]. intros _. split; [done|].
    intros x ->%list_elem_of_singleton. split; [by exists s|done]. }
  pose proof (map_total_lookup unmarked _ _ _ Hs) as Hu. unfold unmarked at 1 in Hu. rewrite Ech in Hu.
  fold (unchecked st) in Hu. destruct n as [|k]; [lia|].
  rewrite Hch, Hcv. apply spec_bind. eapply spec_mono; [by apply (visit_ok check k (Hcheck k eq_refl) q s)|].
  intros r st' (Hd' & Hr & Hg & Hq'). apply spec_ret. split_and!; [done|done| |].
  - intros x. destruct r as [y|]; [|done]. case_decide as Ey; [done|]. intros [= ->].
    destruct (Hg x eq_refl) as [->|?]; done.
  - intros Hev. destruct (Hq' Hev) as [-> Hb]. split; [done|]. by intros x ->%list_elem_of_singleton.
Qed.

Lemma check_ok n q st :
  dwf st → unchecked st ≤ n → is_Some (t0 !! q) →
  match stack_syms st with p :: _ => edge p q | [] => True end →
  walks [q] (sym_check_deps (S n) q) st.
Proof.
  revert q st. induction n as [|n IH]; intros q st Hd Hn Hq He.
  - by apply (body_step (sym_check_deps 0) 0).
  - apply (body_step (sym_check_deps (S n)) (S n)); [|done..].
    intros k [= <-] p rest x st' (Hd' & Hk' & Hs') Hx.
    apply IH; [done|done|by eapply tw_closed|by rewrite Hs'].
Qed.

(** ** The whole table *)

(** Nothing is marked and nothing reported. *)
Record fresh (st : dep_state) : Prop := {
  fr_core : same_core st;
  fr_marks : ∀ p, ¬ checked st p ∧ ¬ gray st p;
  fr_stack : dep_stack st = [];
  fr_events : events st = [];
}.

Lemma fresh_dwf st : fresh st → dwf st.
Proof.
  intros [Hc Hm Hs He]. split; [done| | | |by rewrite He|].
  - intros p. unfold stack_syms. rewrite Hs. split; [by intros ?%Hm|by intros ?%elem_of_nil].
  - by intros p ?%Hm.
  - unfold stack_syms. by rewrite Hs.
  - intros _ p [Hp _]. by apply Hm in Hp.
Qed.

Lemma check_all_ok n ps errs st :
  dwf st → unchecked st ≤ n → dep_stack st = [] → Forall (λ p, is_Some (t0 !! p)) ps →
  spec False (check_all (S n) ps errs) st (λ r st', r = errs ∧ dwf st' ∧ dep_stack st' = [] ∧
    (∀ p, black st p → black st' p) ∧
    (events st' = [] → events st = [] ∧ Forall (black st') ps)).
Proof.
  revert errs st. induction ps as [|p ps IH]; intros errs st Hd Hn Hs Hps.
  - apply spec_ret. split_and!; done.
  - apply Forall_cons in Hps as [Hp Hps]. apply spec_bind.
    assert (Hst : stack_syms st = []) by (unfold stack_syms; by rewrite Hs).
    eapply spec_mono; [apply (check_ok n p st Hd Hn Hp); by rewrite Hst|].
    intros r st1 (Hd1 & Hr1 & Hg1 & Hq1).
    assert (r = None) as ->.
    { destruct r as [x|]; [|done]. specialize (Hg1 x eq_refl).
      apply (dwf_gray _ Hd) in Hg1. rewrite Hst in Hg1. by apply elem_of_nil in Hg1. }
    assert (Hs1 : dep_stack st1 = []).
    { pose proof (ran_stack _ _ Hr1) as H1. rewrite Hst in H1. unfold stack_syms in H1.
      by destruct (dep_stack st1). }
    pose proof (ran_unchecked _ _ Hr1).
    eapply spec_mono; [apply (IH errs st1); [done|lia|done|done]|].
    intros r st2 (-> & Hd2 & Hs2 & Hb2 & Hq2). split_and!; [done|done|done| |].
    + intros x Hx. by eapply Hb2, ran_black.
    + intros He. destruct (Hq2 He) as [He1 Hps2]. split; [by eapply ran_silent|].
      constructor; [|done]. apply Hb2. apply (Hq1 He1). by left.
Qed.

(** A reported loop is a cycle of references. *)
Lemma chain_cycle last x r : chain_to last (x :: r) → tc edge (l_sym x) last.
Proof.
  revert x. induction r as [|y r IH]; intros x (He & Hn & Hr); simpl in Hn.
  - rewrite Hn in He. by apply tc_once.
  - rewrite Hn in He. eapply tc_l; [exact He|]. by apply IH.
Qed.

Lemma event_cycle e : event_ok e → ∃ p, tc edge p p.
Proof. destruct e as [[|x r]|]; simpl; [done| |done]. intros H. exists (l_sym x). by eapply chain_cycle. Qed.

Lemma edge_dom p q : edge p q → is_Some (t0 !! p).
Proof. intros (s & Hs & _). by eexists. Qed.

Lemma cycle_dom p q : tc edge p q → is_Some (t0 !! p).
Proof. intros Ht. inversion Ht; subst; by eapply edge_dom. Qed.

End Graph.

(** C19: Checking all symbols of a table without choices returns, faults on
    nothing, and reports a loop exactly when the references have one; each
    reported loop is a chain of references that closes. The count of errors
    that the caller looks at stays what it was, loops or not. *)
Theorem check_all_correct t0 ps errs st fuel :
  table_wf t0 → fresh t0 st → (∀ p, p ∈ ps ↔ is_Some (t0 !! p)) → size t0 < fuel →
  ∃ st', check_all fuel ps errs st = Ret errs st' ∧ Forall (event_ok t0) (events st') ∧
    (events st' ≠ [] ↔ ∃ p, tc (edge t0) p p).
Proof.
  intros Hwf Hf Hps Hfuel. pose proof (fresh_dwf _ _ Hf) as Hd. destruct fuel as [|n]; [lia|].
  assert (Hu : unchecked st ≤ n).
  { pose proof (map_total_size unmarked 1 (syms (dtab st))) as H1.
    assert (Hsz : size (syms (dtab st)) = size t0).
    { rewrite <-(map_size_fmap core t0), <-(map_size_fmap core (syms (dtab st))). f_equal.
      apply map_eq. intros p. rewrite !lookup_fmap. apply (fr_core _ _ Hf). }
    unfold unchecked. rewrite <-Hsz in Hfuel.
    assert (map_total unmarked (syms (dtab st)) ≤ 1 * size (syms (dtab st))); [|lia].
    apply H1. intros s. unfold unmarked. destruct (has_flag _ _); lia. }
  assert (Hall : Forall (λ p, is_Some (t0 !! p)) ps) by (apply Forall_forall; intros p; apply Hps).
  pose proof (check_all_ok t0 Hwf n ps errs st Hd Hu (fr_stack _ _ Hf) Hall) as Hc.
  unfold spec in Hc. destruct (check_all (S n) ps errs st) as [r st'| |]; [|done|done].
  destruct Hc as (-> & Hd' & _ & _ & Hq). exists st'. split; [done|].
  pose proof (dwf_events _ _ Hd') as Hev. split; [done|]. split.
  - intros Hne. destruct (events st') as [|e l]; [done|]. apply Forall_cons in Hev as [He _].
    by eapply event_cycle.
  - intros (p & Hp) He. destruct (Hq He) as [_ Hb]. rewrite Forall_forall in Hb.
    apply (dwf_quiet _ _ Hd' He p); [|done]. apply Hb, Hps. by eapply cycle_dom.
Qed.

(** ** Example *)

Definition dep_bool (nm : string) (e : expr) : symbol :=
  mkSym (Some (lit nm)) S_BOOLEAN (mkVal V_null tri_no) (replicate S_DEF_COUNT (mkVal V_null tri_no))
    tri_no 0 [mkProp P_PROMPT (Some (lit nm)) (mkEV (Some e) tri_no) None None]
    (mkEV (Some e) tri_no) (mkEV None tri_no).

(** Two symbols that depend on each other, and one that depends on the first. *)
Definition loop_syms : gmap symp symbol :=
  list_to_map
    [(sym_at 1, dep_bool "A" (E_SYMBOL (sym_at 2)));
     (sym_at 2, dep_bool "B" (E_NOT (E_SYMBOL (sym_at 1))));
     (sym_at 3, dep_bool "C" (E_SYMBOL (sym_at 1)))].

Definition loop_state : dep_state := mkDep (mkTab loop_syms ∅ 4) [] [].

Definition loop_list : list symp := sym_at <$> [1; 2; 3]%positive.

Lemma loop_dom p : p ∈ loop_list ↔ is_Some (loop_syms !! p).
Proof.
  split.
  - intros Hp. unfold loop_list in Hp. simpl in Hp.
    repeat (apply elem_of_cons in Hp as [->|Hp]; [by eexists|]). by apply elem_of_nil in Hp.
  - intros [s Hs]. unfold loop_syms in Hs. apply elem_of_list_to_map_2 in Hs.
    repeat (apply elem_of_cons in Hs as [Hs|Hs]; [injection Hs as -> ->; vm_compute; set_solver|]).
    by apply elem_of_nil in Hs.
Qed.

Ltac each_loop H :=
  apply elem_of_list_to_map_2 in H;
  repeat (apply elem_of_cons in H as [H|H]; [injection H as -> ->|]); [..|by apply elem_of_nil in H].

Lemma loop_wf : table_wf loop_syms.
Proof.
  split.
  - intros p q (s & Hs & Hq). each_loop Hs;
      vm_compute in Hq; apply elem_of_cons in Hq as [->|Hq]; try (by eexists); by apply elem_of_nil in Hq.
  - intros p s Hs. each_loop Hs; by vm_compute.
  - intros p s Hs. each_loop Hs; done.
Qed.

Lemma loop_fresh : fresh loop_syms loop_state.
Proof.
  split; try done. intros p.
  split; intros (s & Hs & Hf); unfold dat in Hs; simpl in Hs; each_loop Hs; vm_compute in Hf; discriminate Hf.
Qed.

Lemma check_all_correct_witness :
  ∃ st', check_all 4 loop_list 0 loop_state = Ret 0 st' ∧ Forall (event_ok loop_syms) (events st') ∧
    (events st' ≠ [] ↔ ∃ p, tc (edge loop_syms) p p).
Proof.
  apply (check_all_correct loop_syms loop_list 0 loop_state 4).
  - exact loop_wf.
  - exact loop_fresh.
  - exact loop_dom.
  - vm_compute. lia.
Defined.

(** The loop is reported once, and no error is counted. *)
Example check_all_loop :
  match check_all 4 loop_list 0 loop_state with
  | Ret errs st =>
      errs = 0 ∧ events st = [Loop [mkLine (sym_at 1) Depends_on (sym_at 2);
                                    mkLine (sym_at 2) Depends_on (sym_at 1)]]
  | _ => False
  end.
Proof. vm_compute. by split. Qed.
