(* ===== verification/KconfigSymSet.v ===== *)
(** * Kconfig symbols: numbers and settings

    The text of a number is read back as that number, so that a calculated
    number lies in the range of its symbol; and the values that the symbol code
    accepts from the user are those that the calculation then gives. *)

From stdpp Require Import base option strings gmap list.
From Stdlib Require Import ZArith Lia Ascii.
From S2P Require Import Prelude Effects KconfigExpr KconfigSymtab KconfigConf KconfigSym KconfigSymTerm.
From S2P Require Import KconfigSymSpec KconfigConfSpec.
Local Open Scope Z_scope.

(** ** Digits *)

Lemma ascii_small k : (k < 128)%nat → char_val (Ascii.ascii_of_nat k) = Z.of_nat k.
Proof.
  intros Hk. unfold char_val. rewrite Ascii.nat_ascii_embedding by lia. cbv zeta.
  destruct (Z.ltb_spec (Z.of_nat k) 128); lia.
Qed.

Lemma digit_char_val d : 0 ≤ d < 16 →
  char_val (digit_char d) = if d <? 10 then d + 48 else d + 87.
Proof.
  intros Hd. unfold digit_char. destruct (Z.ltb_spec d 10); rewrite ascii_small; lia.
Qed.

Lemma digit_val_char d : 0 ≤ d < 16 → digit_val (digit_char d) = d.
Proof.
  intros Hd. unfold digit_val, isdigit, in_range_char. rewrite digit_char_val by done.
  destruct (Z.ltb_spec d 10).
  - rewrite (proj2 (Z.leb_le 48 (d + 48))), (proj2 (Z.leb_le (d + 48) 57)) by lia. simpl. lia.
  - rewrite (proj2 (Z.leb_gt (d + 87) 57)) by lia. rewrite andb_false_r.
    rewrite (proj2 (Z.leb_le 97 (d + 87))), (proj2 (Z.leb_le (d + 87) 122)) by lia. simpl. lia.
Qed.

(** A digit of the base. *)
Definition is_digit (base : Z) (c : Ascii.ascii) : Prop := digit_val c < base.

Lemma digits_acc_app base acc s c :
  Forall (is_digit base) s → is_digit base c →
  digits_val base acc (s ++ [c]) = digits_val base acc s * base + digit_val c.
Proof.
  intros Hs Hc. revert acc. induction Hs as [|x s Hx Hs IH]; intros acc; simpl.
  - by rewrite (proj2 (Z.ltb_lt _ _) Hc).
  - by rewrite (proj2 (Z.ltb_lt _ _) Hx).
Qed.

Lemma print_digits_ok base n v :
  2 ≤ base ≤ 16 → (0 < n)%nat → 0 ≤ v < base ^ Z.of_nat n →
  Forall (is_digit base) (print_digits base n v) ∧ digits_val base 0 (print_digits base n v) = v.
Proof.
  intros Hb Hn. revert v. induction n as [|n IH]; intros v Hv; [lia|]. cbn [print_digits].
  pose proof (Z.mod_pos_bound v base ltac:(lia)) as Hm.
  pose proof (Z.div_mod v base ltac:(lia)) as Hdm.
  assert (Hd : is_digit base (digit_char (v mod base))).
  { unfold is_digit. rewrite digit_val_char; lia. }
  destruct (Z.ltb_spec v base) as [Hlt|Hge].
  - split; [constructor; [done|constructor]|]. rewrite (digits_acc_app base 0 []); [|constructor|done].
    rewrite digit_val_char by lia. simpl. rewrite Z.mod_small by lia. lia.
  - destruct n as [|n].
    { rewrite Z.pow_1_r in Hv. lia. }
    assert (Hq : 0 ≤ v / base < base ^ Z.of_nat (S n)).
    { split; [apply Z.div_pos; lia|]. apply Z.div_lt_upper_bound; [lia|].
      replace (base * base ^ Z.of_nat (S n)) with (base ^ Z.of_nat (S (S n))); [lia|].
      rewrite (Nat2Z.inj_succ (S n)), Z.pow_succ_r; lia. }
    destruct (IH ltac:(lia) _ Hq) as [Hf Hval]. split.
    + apply Forall_app. split; [done|constructor; [done|constructor]].
    + rewrite digits_acc_app by done. rewrite Hval, digit_val_char by lia. lia.
Qed.

(** The first character of a printed number is a digit of the base. *)
Lemma print_digits_cons base n v :
  (0 < n)%nat → ∃ c r, print_digits base n v = c :: r ∧ ∃ w, c = digit_char (w mod base).
Proof.
  revert v. induction n as [|n IH]; intros v Hn; [lia|]. cbn [print_digits].
  destruct (v <? base); [simpl; eauto|]. destruct n as [|n]; [simpl; eauto|].
  destruct (IH (v / base) ltac:(lia)) as (c & r & -> & w & ->). simpl. eauto.
Qed.

Lemma char_ne a b : char_val a ≠ char_val b → a ≠ b.
Proof. congruence. Qed.

(** A printed digit is no space, no sign and no letter [x]. *)
Lemma digit_char_plain d : 0 ≤ d < 16 →
  isspace (digit_char d) = false ∧ digit_char d ≠ "-"%char ∧ digit_char d ≠ "+"%char ∧
  digit_char d ≠ "x"%char ∧ digit_char d ≠ "X"%char.
Proof.
  intros Hd. pose proof (digit_char_val d Hd) as Hc.
  assert (H : 48 ≤ char_val (digit_char d) ≤ 102 ∧ char_val (digit_char d) ≠ 88).
  { rewrite Hc. destruct (Z.ltb_spec d 10); lia. }
  assert (Hk : char_val "-"%char = 45 ∧ char_val "+"%char = 43 ∧ char_val "x"%char = 120 ∧
    char_val "X"%char = 88 ∧ char_val " "%char = 32) by done.
  split_and!; try (apply char_ne; lia).
  unfold isspace, in_range_char. rewrite (proj2 (Z.leb_gt (char_val (digit_char d)) 13)) by lia.
  rewrite andb_false_r. apply bool_decide_false, char_ne. lia.
Qed.

Lemma skip_space_digit c r : isspace c = false → skip_space (c :: r) = c :: r.
Proof. intros H. simpl. by rewrite H. Qed.

Lemma clip v : LLONG_MIN ≤ v ≤ LLONG_MAX → Z.max LLONG_MIN (Z.min LLONG_MAX v) = v.
Proof. lia. Qed.

(** The prefix of a hexadecimal number. *)
Definition hex_prefix (s : cstring) : bool :=
  match s with
  | c :: x :: d :: _ =>
      bool_decide (c = "0"%char) && (bool_decide (x = "x"%char) || bool_decide (x = "X"%char)) && isxdigit d
  | _ => false
  end.

Lemma strtoll_unsigned s c r base :
  s = c :: r → isspace c = false → c ≠ "-"%char → c ≠ "+"%char → base ≠ 0 →
  strtoll s base = Z.max LLONG_MIN (Z.min LLONG_MAX
    (digits_val base 0 (if hex_prefix s && (base =? 16) then drop 2 s else s))).
Proof.
  intros -> Hs Hm Hp Hb. unfold strtoll. rewrite skip_space_digit by done.
  rewrite decide_False by done. rewrite decide_False by done. cbv zeta beta iota.
  fold (hex_prefix (c :: r)). by rewrite (proj2 (Z.eqb_neq base 0) Hb).
Qed.

Lemma strtoll_minus s c r base :
  s = c :: r → base = 10 →
  strtoll ("-"%char :: s) base = Z.max LLONG_MIN (Z.min LLONG_MAX (- digits_val base 0 s)).
Proof.
  intros -> ->. unfold strtoll. simpl skip_space. cbv iota.
  rewrite decide_True by done. cbv zeta beta iota. by rewrite andb_false_r.
Qed.

Lemma strtoll_digits n v :
  0 ≤ v ≤ LLONG_MAX → v < 10 ^ Z.of_nat n → (0 < n)%nat → strtoll (print_digits 10 n v) 10 = v.
Proof.
  intros Hv Hn Hpos. destruct (print_digits_ok 10 n v ltac:(lia) Hpos ltac:(lia)) as [_ Hd].
  destruct (print_digits_cons 10 n v Hpos) as (c & r & Hs & w & Hc).
  pose proof (Z.mod_pos_bound w 10 ltac:(lia)) as Hw.
  destruct (digit_char_plain (w mod 10) ltac:(lia)) as (H1 & H2 & H3 & _). rewrite <-Hc in *.
  rewrite (strtoll_unsigned _ c r 10 Hs H1 H2 H3) by lia. rewrite andb_false_r, Hd.
  apply clip. unfold LLONG_MIN. lia.
Qed.

(** [%lld] and [strtoll] with base 10. *)
Lemma strtoll_print_lld v : LLONG_MIN ≤ v ≤ LLONG_MAX → strtoll (print_lld v) 10 = v.
Proof.
  intros Hv. unfold print_lld. destruct (Z.ltb_spec v 0) as [Hneg|Hpos].
  - destruct (print_digits_cons 10 20 (- v) ltac:(lia)) as (c & r & Hs & _).
    rewrite (strtoll_minus _ c r 10 Hs eq_refl).
    destruct (print_digits_ok 10 20 (- v) ltac:(lia) ltac:(lia)) as [_ ->].
    + unfold LLONG_MIN in Hv. lia.
    + rewrite Z.opp_involutive. by apply clip.
  - apply strtoll_digits; [lia| |lia]. unfold LLONG_MAX in Hv. lia.
Qed.

Lemma isxdigit_digit d : 0 ≤ d < 16 → isxdigit (digit_char d) = true.
Proof.
  intros Hd. unfold isxdigit, isdigit, in_range_char. rewrite digit_char_val by done.
  rewrite !orb_true_iff, !andb_true_iff, !Z.leb_le. destruct (Z.ltb_spec d 10); lia.
Qed.

(** [0x%llx] and [strtoll] with base 16, for the numbers that [long long]
    has. *)
Lemma strtoll_print_0xllx v : 0 ≤ v ≤ LLONG_MAX → strtoll (print_0xllx v) 16 = v.
Proof.
  intros Hv. unfold print_0xllx. rewrite Z.mod_small by (unfold LLONG_MAX in Hv; lia).
  destruct (print_digits_cons 16 17 v ltac:(lia)) as (c & r & Hs & w & Hc).
  pose proof (Z.mod_pos_bound w 16 ltac:(lia)) as Hw.
  rewrite (strtoll_unsigned (lit "0x" ++ print_digits 16 17 v) "0"%char ("x"%char :: print_digits 16 17 v)
    16 eq_refl); try done.
  assert (hex_prefix (lit "0x" ++ print_digits 16 17 v) = true) as ->.
  { rewrite Hs. simpl. by rewrite Hc, isxdigit_digit by lia. }
  change (drop 2 (lit "0x" ++ print_digits 16 17 v)) with (print_digits 16 17 v). simpl andb. cbv iota.
  destruct (print_digits_ok 16 17 v ltac:(lia) ltac:(lia)) as [_ ->]; [unfold LLONG_MAX in Hv; lia|].
  apply clip. unfold LLONG_MIN. lia.
Qed.

Lemma strtoll_bounds s base : LLONG_MIN ≤ strtoll s base ≤ LLONG_MAX.
Proof. unfold strtoll. destruct (match _ with [] => _ | _ => _ end) as [b t]. unfold LLONG_MIN, LLONG_MAX. lia. Qed.

(** ** Ranges *)

Lemma print_number_read t v :
  t = S_INT ∨ t = S_HEX → LLONG_MIN ≤ v ≤ LLONG_MAX → (t = S_HEX → 0 ≤ v) →
  strtoll (print_number t v) (range_base t 0) = v.
Proof.
  intros [-> | ->] Hv Hh; unfold print_number; simpl.
  - by apply strtoll_print_lld.
  - apply strtoll_print_0xllx. split; [by apply Hh|lia].
Qed.

Lemma clamped mv ty sem s l r v x :
  type s = S_INT ∨ type s = S_HEX →
  find_visible mv ty sem P_RANGE (props s) = Some (Some (E_RANGE l r), v) →
  number ty sem l (range_base (type s) 0) ≤ number ty sem r (range_base (type s) 0) →
  (type s = S_HEX → 0 ≤ number ty sem l (range_base (type s) 0)) →
  ∃ y, clamp_spec mv ty sem s (V_str x) = V_str y ∧
    number ty sem l (range_base (type s) 0) ≤ strtoll y (range_base (type s) 0) ≤
    number ty sem r (range_base (type s) 0).
Proof.
  intros Ht Hf Hle Hh. set (base := range_base (type s) 0) in *.
  assert (Hn : ∀ q, LLONG_MIN ≤ number ty sem q base ≤ LLONG_MAX) by (intros q; apply strtoll_bounds).
  pose proof (Hn l) as Hl. pose proof (Hn r) as Hr.
  assert (clamp_spec mv ty sem s (V_str x) = clamp_number mv ty sem s base (V_str x)) as ->.
  { unfold clamp_spec, base. by destruct Ht as [E|E]; rewrite E. }
  unfold clamp_number. rewrite Hf. simpl.
  destruct (Z.leb_spec (number ty sem l base) (strtoll x base)); [destruct (Z.leb_spec (strtoll x base) (number ty sem r base))|].
  - exists x. split; [done|lia].
  - eexists. split; [done|]. subst base. rewrite print_number_read; [lia|done..|intros E; specialize (Hh E); lia].
  - eexists. split; [done|]. subst base. rewrite print_number_read; [lia|done..].
Qed.

(** C21: In an acyclic table without choices, a calculated number lies in the
    range that applies to its symbol, read with the base of its type, if the
    range is not empty and, for a hexadecimal symbol, not negative (a negative
    bound is printed as a large number): whatever the user or a default gave, the
    text that is stored is a number between the bounds. *)
Theorem calculated_number_in_range `{ValueBytes} rank t0 m mv sem W fuel n p st s l r v :
  solves rank t0 m mv sem → inv rank t0 m mv sem W n st → (rank p < n)%nat → (rank p < fuel)%nat →
  t0 !! p = Some s → is_static p = false → type s = S_INT ∨ type s = S_HEX →
  find_visible mv (ty t0) sem P_RANGE (props s) = Some (Some (E_RANGE l r), v) →
  let base := range_base (type s) 0 in
  let lo := number (ty t0) sem l base in
  let hi := number (ty t0) sem r base in
  lo ≤ hi → (type s = S_HEX → 0 ≤ lo) →
  ∃ st' s' y, sym_calc_value fuel p st = Ret tt st' ∧ at_sym p st' s' ∧
    val (curr s') = V_str y ∧ lo ≤ strtoll y base ≤ hi.
Proof.
  intros Hsol Hi Hn Hf Hp Hps Ht Hr base lo hi Hle Hh.
  pose proof (calc_all _ _ _ _ _ W Hsol (S (rank p)) fuel n p st ltac:(lia) Hf Hn (mk_is_Some _ _ Hp) Hi) as Hc.
  unfold spec in Hc. destruct (sym_calc_value fuel p st) as [[] st'| |]; try done.
  destruct Hc as (Hi' & _ & s' & Hs' & Hv).
  destruct (inv_solved _ _ _ _ _ _ _ _ Hi' p s' Hs' Hn Hv) as [Hcur _].
  assert (Htext : is_text (type s)) by (unfold is_text; tauto).
  destruct (raw_str _ _ _ _ _ Hsol (rank p) p s Hp Hps eq_refl Htext) as [x Hx].
  destruct (clamped mv (ty t0) sem s l r v x Ht Hr Hle Hh) as (y & Hy & Hrange).
  exists st', s', y. split_and!; try done; try apply Hrange.
  rewrite Hcur, (sol_eq _ _ _ _ _ Hsol p s Hp Hps). unfold value_spec. rewrite Hx, Hy.
  by destruct Ht as [-> | ->].
Qed.

Lemma calculated_number_in_range_witness :
  ∃ st' s' y, sym_calc_value 4 (sym_at 4) example_st = Ret tt st' ∧ at_sym (sym_at 4) st' s' ∧
    val (curr s') = V_str y ∧ 1 ≤ strtoll y 10 ≤ 5.
Proof.
  refine (calculated_number_in_range example_rank example_t0 symbol_no tri_no example_sem unwritten 4 4 (sym_at 4)
    example_st (static (sym example_st.(stab) (sym_at 4))) (sym_at 5) (sym_at 6) tri_yes
    example_solves example_inv _ _ _ _ _ _ _ _).
  - vm_compute. lia.
  - vm_compute. lia.
  - by vm_compute.
  - done.
  - by left.
  - by vm_compute.
  - vm_compute. discriminate.
  - intros H. vm_compute in H. discriminate H.
Defined.

(** ** Settings *)

(** Adding the user value of a symbol. *)
Definition user_set (v : tristate) (s : symbol) : symbol :=
  set_def_tri S_DEF_USER v (add_flag SYMBOL_DEF_USER s).

Lemma tri_leb_AND a b : tri_leb a b = true → EXPR_AND a b = a.
Proof. by destruct a, b. Qed.

Lemma tri_leb_OR a b : tri_leb b a = true → EXPR_OR a b = a.
Proof. by destruct a, b. Qed.

(** A user value inside the range is the value that the equations give. *)
Lemma accepted_value mv ty sem s v :
  length (def s) = S_DEF_COUNT → sym_is_choice_value s = false →
  visible s = vis_spec mv ty sem s → ev_tri (rev_dep s) = rev_spec mv ty sem s →
  tristate_within_range s mv v = true → tri_spec mv ty sem (user_set v s) = v.
Proof.
  intros Hd Hcv Hvis Hrev Hr. unfold tristate_within_range in Hr. rewrite Hcv in Hr. simpl in Hr.
  case_bool_decide as Hv; [done|]. destruct (negb _); [done|]. case_bool_decide as Hm; [done|].
  destruct (tri_leb (visible s) _); [done|]. apply andb_true_iff in Hr as [Hlo Hhi].
  assert (Hty : sym_get_type s mv = type_spec mv s).
  { unfold sym_get_type, type_spec. by rewrite Hcv. }
  assert (Hvs : vis_spec mv ty sem (user_set v s) = vis_spec mv ty sem s) by done.
  assert (Hrs : rev_spec mv ty sem (user_set v s) = rev_spec mv ty sem s) by done.
  assert (Hts : type_spec mv (user_set v s) = type_spec mv s) by done.
  unfold tri_spec, user_wins. rewrite Hvs, Hrs, Hts, <-Hvis, <-Hrev, <-Hty.
  rewrite bool_decide_true by done. simpl.
  assert (sym_has_value (user_set v s) = true) as ->.
  { apply (has_flag_add_self SYMBOL_DEF_USER). done. }
  assert (tri (get_def S_DEF_USER (user_set v s)) = v) as ->.
  { unfold get_def, user_set, set_def_tri, set_def. simpl. rewrite list_lookup_insert_eq; [done|].
    rewrite Hd. unfold S_DEF_USER, S_DEF_COUNT. lia. }
  rewrite (tri_leb_AND _ _ Hhi), (tri_leb_OR _ _ Hlo).
  case_decide as E; [|done]. destruct Hm. tauto.
Qed.

(** A record without the mark of a calculated symbol, if it is in a list. *)
Definition unmarked_in (ps : list symp) (q : symp) (s : symbol) : symbol :=
  if decide (q ∈ ps) then clear_flag SYMBOL_VALID s else s.

Lemma unmarked_clear ps q s : clear_flag SYMBOL_VALID (unmarked_in ps q s) = clear_flag SYMBOL_VALID s.
Proof.
  unfold unmarked_in. case_decide; [|done]. unfold clear_flag, set_flags. simpl. f_equal.
  by rewrite Z.ldiff_ldiff_l, Z.lor_diag.
Qed.

(** The loop that takes the marks of calculated symbols back. *)
Lemma clear_loop ps st :
  (∀ q, q ∈ ps → ∃ s, at_sym q st s) →
  ∃ st', for_each (λ p, store p (clear_flag SYMBOL_VALID)) ps st = Ret tt st' ∧
    modules_sym st' = modules_sym st ∧ modules_val st' = modules_val st ∧
    ∀ q, syms (stab st') !! q = unmarked_in ps q <$> syms (stab st) !! q.
Proof.
  revert st. induction ps as [|p ps IH]; intros st Hps.
  - exists st. split_and!; [done..|]. intros q. by destruct (syms (stab st) !! q).
  - destruct (Hps p ltac:(left)) as [sp Hsp].
    set (st1 := set_stab (upd p (clear_flag SYMBOL_VALID) (stab st)) st).
    assert (Hat : ∀ q, syms (stab st1) !! q =
      (λ s, if decide (q = p) then clear_flag SYMBOL_VALID s else s) <$> syms (stab st) !! q).
    { intros q. unfold st1. cbn [stab set_stab]. case_decide as E.
      - subst q. by rewrite upd_lookup.
      - rewrite upd_lookup_ne by done. by destruct (syms (stab st) !! q). }
    destruct (IH st1) as (st' & Hrun & Hm & Hv & Hrec).
    { intros q Hq. destruct (Hps q ltac:(by right)) as [s Hs]. unfold at_sym in *. rewrite Hat, Hs.
      by eexists. }
    exists st'. split_and!; [|done|done|].
    + simpl. unfold mbind, Eff_bind, store. unfold at_sym in Hsp. rewrite Hsp. exact Hrun.
    + intros q. rewrite Hrec, Hat, <-option_fmap_compose. apply option_fmap_ext. intros s. simpl.
      unfold unmarked_in. destruct (decide (q = p)) as [->|Hne].
      * rewrite (decide_True (P := p ∈ p :: ps)) by left. case_decide; [|done].
        apply (unmarked_clear [p] p s) || (unfold clear_flag, set_flags; simpl; f_equal; by rewrite Z.ldiff_ldiff_l, Z.lor_diag).
      * destruct (decide (q ∈ ps)); [rewrite decide_True by (by right); done|].
        rewrite decide_False; [done|]. by intros [?|?]%elem_of_cons.
Qed.

Lemma all_symbols_known t t' p :
  tab_ok t → symbol_hash t' = symbol_hash t → p ∈ all_symbols t' →
  (∃ s, syms t !! p = Some s) ∧ is_static p = false.
Proof.
  intros Hok Hh [_ Hp]%list_elem_of_filter. apply list_elem_of_In, List.in_concat in Hp as (l & Hl & Hp).
  apply list_elem_of_In in Hl, Hp. apply list_elem_of_fmap in Hl as (h & -> & _).
  unfold chain in Hp. rewrite Hh in Hp. destruct (ok_chain _ Hok h p Hp) as [Hst (s & Hs & _)].
  split; [by exists s|done].
Qed.

Lemma set_changed_run p st s :
  at_sym p st s → ∃ st', sym_set_changed p st = Ret tt st' ∧ modules_sym st' = modules_sym st ∧
    syms (stab st') = syms (upd p (add_flag SYMBOL_CHANGED) (stab st)) ∧
    symbol_hash (stab st') = symbol_hash (stab st).
Proof.
  intros Hs. unfold sym_set_changed. unfold at_sym in Hs. rewrite Hs. by eexists.
Qed.

(** The flags that a setting may change besides those of the user value. *)
Definition set_noise : Z := Z.lor SYMBOL_VALID SYMBOL_CHANGED.

Lemma noise_eq fl s : Z.ldiff fl set_noise = Z.ldiff (flags s) set_noise →
  clear_flag set_noise (set_flags fl s) = clear_flag set_noise s.
Proof. intros H. unfold clear_flag. simpl. by rewrite H. Qed.

Lemma noise_add f s : Z.ldiff f set_noise = 0 → clear_flag set_noise (add_flag f s) = clear_flag set_noise s.
Proof.
  intros H. apply (noise_eq (Z.lor (flags s) f)). apply Z.bits_inj'. intros n _.
  apply (f_equal (λ z, Z.testbit z n)) in H. rewrite Z.ldiff_spec, Z.bits_0 in H.
  rewrite !Z.ldiff_spec, Z.lor_spec.
  destruct (Z.testbit (flags s) n), (Z.testbit f n), (Z.testbit set_noise n); done.
Qed.

(** The user flag, and the mark of a change when it was not set. *)
Lemma set_user_run p st s :
  at_sym p st s → ∃ st' s', set_user p st = Ret tt st' ∧ modules_sym st' = modules_sym st ∧
    symbol_hash (stab st') = symbol_hash (stab st) ∧ at_sym p st' s' ∧
    clear_flag set_noise s' = clear_flag set_noise (add_flag SYMBOL_DEF_USER s) ∧
    (∀ q, q ≠ p → syms (stab st') !! q = syms (stab st) !! q).
Proof.
  intros Hs. unfold set_user, mbind, Eff_bind, load. unfold at_sym in Hs. rewrite Hs. unfold when.
  destruct (has_flag SYMBOL_DEF_USER s) eqn:Ef; simpl.
  - exists st, s. split_and!; try done. unfold clear_flag, add_flag, set_flags. simpl. f_equal. f_equal.
    unfold has_flag in Ef. apply negb_true_iff, Z.eqb_neq in Ef.
    change SYMBOL_DEF_USER with (2 ^ 16) in *. symmetry. apply Z.bits_inj'. intros n Hn.
    rewrite Z.lor_spec, Z.pow2_bits_eqb by lia. destruct (Z.eqb_spec 16 n) as [<-|]; [|by rewrite orb_false_r].
    rewrite orb_true_r. destruct (Z.testbit (flags s) 16) eqn:Eb; [done|]. exfalso. apply Ef.
    apply Z.bits_inj'. intros k Hk. rewrite Z.land_spec, Z.pow2_bits_eqb, Z.bits_0 by lia.
    destruct (Z.eqb_spec 16 k) as [<-|]; [by rewrite Eb|by rewrite andb_false_r].
  - unfold store, mbind, Eff_bind. rewrite Hs.
    destruct (set_changed_run p (set_stab (upd p (add_flag SYMBOL_DEF_USER) (stab st)) st) (add_flag SYMBOL_DEF_USER s))
      as (st' & -> & Hm & Hsy & Hh).
    { unfold at_sym. cbn [stab set_stab]. by rewrite upd_lookup, Hs. }
    exists st', (add_flag SYMBOL_CHANGED (add_flag SYMBOL_DEF_USER s)). split_and!; [done..| | |].
    + unfold at_sym. rewrite Hsy. cbn [stab set_stab]. by rewrite !upd_lookup, Hs.
    + by apply noise_add.
    + intros q Hq. rewrite Hsy. cbn [stab set_stab]. by rewrite !upd_lookup_ne.
Qed.

Lemma noise_static s s' : clear_flag set_noise s' = clear_flag set_noise s → static s' = static s.
Proof.
  intros H. unfold static.
  assert (Hf : Z.ldiff (flags s') set_noise = Z.ldiff (flags s) set_noise) by (by injection H).
  assert (Hfl : Z.land (flags s') static_flags = Z.land (flags s) static_flags).
  { apply Z.bits_inj'. intros n Hn. apply (f_equal (λ z, Z.testbit z n)) in Hf.
    rewrite !Z.ldiff_spec in Hf. unfold static_flags, set_noise in *. rewrite Z.lor_spec in Hf.
    rewrite !Z.land_spec, Z.lnot_spec, !Z.lor_spec by done.
    destruct (Z.testbit (flags s') n), (Z.testbit (flags s) n), (Z.testbit SYMBOL_VALID n),
      (Z.testbit SYMBOL_WRITE n), (Z.testbit SYMBOL_CHANGED n); done. }
  unfold clear_flag, set_flags in H. injection H as H1 H2 H3 H4 H5 H6 H7 H8 H9.
  by rewrite Hfl, H1, H2, H4, H7, H8, H9.
Qed.

Lemma noise_clear s s' : clear_flag SYMBOL_VALID s' = clear_flag SYMBOL_VALID s →
  clear_flag set_noise s' = clear_flag set_noise s.
Proof.
  intros H. assert (Hf : Z.ldiff (flags s') SYMBOL_VALID = Z.ldiff (flags s) SYMBOL_VALID) by (by injection H).
  unfold clear_flag, set_flags in *.
  assert (Z.ldiff (flags s') set_noise = Z.ldiff (flags s) set_noise) as ->.
  { unfold set_noise. by rewrite <-!Z.ldiff_ldiff_l, Hf. }
  injection H as H1 H2 H3 H4 H5 H6 H7 H8 H9. by rewrite H1, H2, H3, H4, H5, H7, H8, H9.
Qed.

(** [sym_clear_all_valid] when there is no modules symbol but [n]. *)
Lemma clear_all_run `{ValueBytes} fuel st :
  (0 < fuel)%nat → (∀ q, q ∈ all_symbols (stab st) → (∃ s, at_sym q st s) ∧ is_static q = false) →
  modules_sym st = Some symbol_no → (∃ x, at_sym symbol_no st x ∧ has_flag SYMBOL_VALID x = true) →
  ∃ st', sym_clear_all_valid fuel st = Ret tt st' ∧
    modules_sym st' = Some symbol_no ∧ modules_val st' = modules_val st ∧
    ∀ q, syms (stab st') !! q = unmarked_in (all_symbols (stab st)) q <$> syms (stab st) !! q.
Proof.
  intros Hfuel Hall Hm (x & Hx & Hvx).
  destruct (clear_loop (all_symbols (stab st)) st (λ q Hq, proj1 (Hall q Hq))) as (st1 & Hrun & Hm1 & Hv1 & Hrec).
  set (st2 := mkSt (stab st1) (modules_sym st1) (modules_val st1) (changed_menus st1)
                (1 + sym_change_count st1) (unmet st1)).
  exists st2. split_and!; [|by rewrite <-Hm, <-Hm1|done|done].
  unfold st2. unfold sym_clear_all_valid, mbind, Eff_bind, gets. rewrite Hrun. simpl. rewrite Hm1, Hm. simpl.
  destruct fuel as [|fuel]; [lia|]. unfold at_sym in Hx.
  assert (Hy : syms (stab st1) !! symbol_no = Some x).
  { rewrite Hrec, Hx. simpl. unfold unmarked_in. rewrite decide_False; [done|].
    intros Hin. by destruct (Hall _ Hin). }
  simpl. unfold calc_body, mbind, Eff_bind, load. cbn [stab]. rewrite Hy, Hvx. done.
Qed.

(** The assignments that make [v] the user value. *)
Lemma user_set_run p v st s :
  at_sym p st s → sym_is_choice_value s = false →
  ∃ st1 s1 st2 s2, set_user p st = Ret tt st1 ∧ at_sym p st1 s1 ∧ sym_is_choice_value s1 = false ∧
    store p (set_def_tri S_DEF_USER v) st1 = Ret tt st2 ∧ modules_sym st2 = modules_sym st ∧
    symbol_hash (stab st2) = symbol_hash (stab st) ∧ at_sym p st2 s2 ∧
    clear_flag set_noise s2 = clear_flag set_noise (user_set v s) ∧
    (∀ q, q ≠ p → syms (stab st2) !! q = syms (stab st) !! q).
Proof.
  intros Hs Hcv. destruct (set_user_run p st s Hs) as (st1 & s1 & Hrun1 & Hm1 & Hh1 & Hs1 & Hn1 & Hother).
  exists st1, s1, (set_stab (upd p (set_def_tri S_DEF_USER v) (stab st1)) st1), (set_def_tri S_DEF_USER v s1).
  unfold at_sym in *. split_and!; try done.
  - assert (static s1 = static (add_flag SYMBOL_DEF_USER s)) as E by (by apply noise_static).
    unfold sym_is_choice_value in *. rewrite <-has_flag_static, E, has_flag_static by done.
    by rewrite has_flag_add.
  - unfold store. by rewrite Hs1.
  - cbn [stab set_stab]. by rewrite upd_lookup, Hs1.
  - by apply (f_equal (λ x, set_def S_DEF_USER (mkVal (val (get_def S_DEF_USER x)) v) x)) in Hn1.
  - intros q Hq. cbn [stab set_stab]. rewrite upd_lookup_ne by done. by apply Hother.
Qed.

(** Setting a boolean or tristate symbol that is no choice value. A value
    that is neither the current one nor inside the range is refused and nothing
    changes. Otherwise the call succeeds, and the symbol differs from what it
    was by the user value and the marks; for a value inside the range the
    equations then give that value, so that the next calculation shows it. *)
Theorem sym_set_tristate_value_correct `{ValueBytes} fuel p v st s :
  tab_ok (stab st) → at_sym p st s → is_static p = false → sym_is_choice_value s = false →
  modules_sym st = Some symbol_no →
  (∃ x, at_sym symbol_no st x ∧ has_flag SYMBOL_VALID x = true) → (0 < fuel)%nat →
  let ok := tristate_within_range s (modules_val st) v in
  if bool_decide (tri (curr s) ≠ v) && negb ok then sym_set_tristate_value fuel p v st = Ret false st
  else ∃ st' s', sym_set_tristate_value fuel p v st = Ret true st' ∧ at_sym p st' s' ∧
    clear_flag set_noise s' = clear_flag set_noise (user_set v s) ∧
    (ok = true → ∀ ty sem, visible s = vis_spec (modules_val st) ty sem s →
       ev_tri (rev_dep s) = rev_spec (modules_val st) ty sem s →
       tri_spec (modules_val st) ty sem s' = v).
Proof.
  intros Hok Hs Hps Hcv Hm (x & Hx & Hvx) Hfuel ok.
  assert (Hgoal : ∀ s', clear_flag set_noise s' = clear_flag set_noise (user_set v s) →
    ok = true → ∀ ty sem, visible s = vis_spec (modules_val st) ty sem s →
       ev_tri (rev_dep s) = rev_spec (modules_val st) ty sem s → tri_spec (modules_val st) ty sem s' = v).
  { intros s' Hn Hr ty sem Hv Hrv. rewrite <-tri_static, (noise_static _ _ Hn), tri_static.
    apply accepted_value; try done. by apply (ok_defs _ Hok p). }
  destruct (user_set_run p v st s Hs Hcv)
    as (st1 & s1 & st2 & s2 & Hrun1 & Hs1 & Hcv1 & Hstore & Hm2 & Hh2 & Hs2 & Hn2 & Hother).
  assert (sym_set_tristate_value fuel p v st =
    if bool_decide (tri (curr s) ≠ v) && negb ok then Ret false st
    else (_ ← (if decide (tri (curr s) = v) then skip else sym_clear_all_valid fuel); mret true) st2) as ->.
  { unfold sym_set_tristate_value, curr_tri, sym_tristate_within_range, mbind, Eff_bind, load, gets, mret, Eff_ret.
    unfold at_sym in Hs, Hs1. rewrite Hs, Hs. fold ok. destruct (_ && _); [done|].
    rewrite Hrun1, Hs1, Hcv1. cbn [andb when skip]. unfold skip, mret, Eff_ret. by rewrite Hstore. }
  destruct (bool_decide _ && negb ok); [done|]. unfold mbind, Eff_bind. case_decide.
  { exists st2, s2. split_and!; [done..|by apply Hgoal]. }
  assert (Hne : ∀ q, is_static q = true → q ≠ p) by (intros q Hq ->; by rewrite Hps in Hq).
  destruct (clear_all_run fuel st2 Hfuel) as (st3 & -> & _ & _ & Hrec).
  - intros q Hq. destruct (all_symbols_known _ _ q Hok Hh2 Hq) as [[y Hy] Hst]. split; [|done].
    destruct (decide (q = p)) as [->|Hqp]; [by exists s2|]. exists y. unfold at_sym. by rewrite Hother.
  - by rewrite Hm2.
  - exists x. split; [|done]. unfold at_sym in *. rewrite Hother; [done|by apply Hne].
  - exists st3, (unmarked_in (all_symbols (stab st2)) p s2).
    assert (Hn3 : clear_flag set_noise (unmarked_in (all_symbols (stab st2)) p s2) =
                  clear_flag set_noise (user_set v s)) by (by rewrite (noise_clear _ _ (unmarked_clear _ p s2))).
    split_and!; [done| |done|by apply Hgoal]. unfold at_sym in *. by rewrite Hrec, Hs2.
Qed.

Lemma upd_tab_ok p f t :
  tab_ok t → (∀ s, name (f s) = name s ∧ length (def (f s)) = length (def s)) → tab_ok (upd p f t).
Proof.
  intros [H1 H2 H3 H4 H5] Hf.
  assert (Hl : ∀ q s, syms (upd p f t) !! q = Some s → ∃ s0, syms t !! q = Some s0 ∧
    name s = name s0 ∧ length (def s) = length (def s0)).
  { intros q s Hq. destruct (decide (p = q)) as [<-|Hne].
    - rewrite upd_lookup in Hq. apply fmap_Some in Hq as (s0 & Hs0 & ->). exists s0. split; [done|apply Hf].
    - rewrite upd_lookup_ne in Hq by done. by exists s. }
  split.
  - intros h q Hq. destruct (H1 h q Hq) as [Hst (s & Hs & Hh)]. split; [done|].
    destruct (decide (p = q)) as [<-|Hne].
    + exists (f s). split; [by rewrite upd_lookup, Hs|]. by rewrite (proj1 (Hf s)).
    + exists s. by rewrite upd_lookup_ne.
  - exact H2.
  - intros k [s Hs]. destruct (Hl _ _ Hs) as (s0 & Hs0 & _). apply H3. by exists s0.
  - intros nm q Hq. specialize (H4 nm q Hq). unfold sym in *. destruct (decide (p = q)) as [<-|Hne].
    + rewrite upd_lookup. destruct (syms t !! p) as [s|]; [|done]. simpl in *. by rewrite (proj1 (Hf s)).
    + by rewrite upd_lookup_ne.
  - intros q s Hs. destruct (Hl _ _ Hs) as (s0 & Hs0 & _ & ->). by eapply H5.
Qed.

(** ** Example *)

Definition setting_tab : symtab :=
  upd (sym_at 1) (λ s, set_visible tri_yes (set_type S_BOOLEAN s))
    (sym_lookup (Some (lit "BR2_A")) 0 empty_tab).2.

Definition setting_st : sym_state := mkSt setting_tab (Some symbol_no) tri_no [] 0 [].

Lemma setting_ok : tab_ok setting_tab.
Proof.
  apply upd_tab_ok; [|by intros s]. unfold sym_lookup.
  apply (new_sym_ok empty_tab (Some (lit "BR2_A"))); [apply empty_tab_ok|done].
Qed.

Lemma sym_set_tristate_value_correct_witness :
  ∃ st' s', sym_set_tristate_value 1 (sym_at 1) tri_yes setting_st = Ret true st' ∧
    at_sym (sym_at 1) st' s' ∧
    clear_flag set_noise s' = clear_flag set_noise (user_set tri_yes (sym setting_tab (sym_at 1))) ∧
    (true = true → ∀ ty sem, visible (sym setting_tab (sym_at 1)) = vis_spec tri_no ty sem (sym setting_tab (sym_at 1)) →
       ev_tri (rev_dep (sym setting_tab (sym_at 1))) = rev_spec tri_no ty sem (sym setting_tab (sym_at 1)) →
       tri_spec tri_no ty sem s' = tri_yes).
Proof.
  apply (sym_set_tristate_value_correct 1 (sym_at 1) tri_yes setting_st (sym setting_tab (sym_at 1)) setting_ok).
  - by vm_compute.
  - done.
  - by vm_compute.
  - done.
  - eexists. by vm_compute.
  - lia.
Defined.
