(* ===== verification/KconfigMenu.v ===== *)
(** * Kconfig menus

    Translation of [support/kconfig/menu.c]: the tree of menu entries with its
    links ([next], [parent], [list]), and what decides whether an entry is
    shown. An entry is an address; its prompt is a property of its symbol, given
    by its place in the list of the symbol, or of its own when the entry has no
    symbol (menus and comments). *)

From stdpp Require Import base option strings gmap list.
From Stdlib Require Import ZArith Lia.
From S2P Require Import Prelude Effects KconfigExpr KconfigSymtab KconfigConf KconfigSym.
Local Open Scope nat_scope.

(** ** Data *)

Inductive prompt_ref :=
  | Sym_prompt (i : nat)
  | Own_prompt (pr : property).

(** [struct menu]; the places in files and the help text are left out. *)
Record menu := mkMenu {
  m_next : option positive;
  m_parent : option positive;
  m_list : option positive;
  m_sym : option symp;
  m_prompt : option prompt_ref;
  m_visibility : option expr;
  m_dep : option expr;
}.

(** [struct menu rootmenu]. *)
Definition rootmenu : positive := 1.

(** The symbols and the menu entries. *)
Record menu_state := mkMenus { msyms : sym_state; menus : gmap positive menu }.

Abbreviation MM := (Eff menu_state).

(** A computation on the symbols. *)
Definition on_syms {A} (c : M A) : MM A := λ st,
  match c (msyms st) with
  | Ret a s => Ret a (mkMenus s (menus st))
  | Fault => Fault
  | NoFuel => NoFuel
  end.

Definition mload (a : positive) : MM menu := λ st,
  match menus st !! a with Some x => Ret x st | None => Fault end.
Definition mstore (a : positive) (f : menu → menu) : MM unit := λ st,
  match menus st !! a with
  | Some _ => Ret tt (mkMenus (msyms st) (alter f a (menus st)))
  | None => Fault
  end.

Definition set_next (n : option positive) (x : menu) : menu :=
  mkMenu n (m_parent x) (m_list x) (m_sym x) (m_prompt x) (m_visibility x) (m_dep x).
Definition set_parent (n : option positive) (x : menu) : menu :=
  mkMenu (m_next x) n (m_list x) (m_sym x) (m_prompt x) (m_visibility x) (m_dep x).
Definition set_list (n : option positive) (x : menu) : menu :=
  mkMenu (m_next x) (m_parent x) n (m_sym x) (m_prompt x) (m_visibility x) (m_dep x).
Definition set_prompt (r : option prompt_ref) (x : menu) : menu :=
  mkMenu (m_next x) (m_parent x) (m_list x) (m_sym x) r (m_visibility x) (m_dep x).
Definition set_visibility (e : option expr) (x : menu) : menu :=
  mkMenu (m_next x) (m_parent x) (m_list x) (m_sym x) (m_prompt x) e (m_dep x).
Definition set_dep (e : option expr) (x : menu) : menu :=
  mkMenu (m_next x) (m_parent x) (m_list x) (m_sym x) (m_prompt x) (m_visibility x) e.

(** [*menu->prompt]. *)
Definition prompt_prop (x : menu) (r : prompt_ref) : MM property :=
  match r, m_sym x with
  | Own_prompt pr, _ => mret pr
  | Sym_prompt i, Some p =>
      s ← on_syms (load p);
      match props s !! i with Some pr => mret pr | None => fault end
  | Sym_prompt _, None => fault
  end.

(** [menu->prompt->visible.tri = t] for an entry without a symbol. *)
Definition set_own_tri (a : positive) (t : tristate) : MM unit :=
  mstore a (λ x, match m_prompt x with
                 | Some (Own_prompt pr) => set_prompt (Some (Own_prompt (set_prop_tri t pr))) x
                 | _ => x
                 end).

(** ** What is shown *)

Section Visible.
Context `{ValueBytes} (fuel : nat).

(** The loop over the children: whether one of them is visible. *)
Fixpoint child_visible (visible : positive → MM bool) (n : nat) (child : option positive) : MM bool :=
  match child, n with
  | None, _ => mret false
  | Some _, O => out_of_fuel
  | Some c, S n =>
      v ← visible c;
      if v : bool then mret true
      else x ← mload c; child_visible visible n (m_next x)
  end.

(** The visibility of the prompt, calculated. *)
Definition prompt_visible (a : positive) (x : menu) (r : prompt_ref) : MM tristate :=
  match m_sym x with
  | Some p =>
      _ ← on_syms (sym_calc_value fuel p);
      pr ← prompt_prop x r;
      mret (ev_tri (p_visible pr))
  | None =>
      pr ← prompt_prop x r;
      t ← on_syms (calc_expr_opt (sym_calc_value fuel) (ev_expr (p_visible pr)));
      _ ← set_own_tri a t;
      mret t
  end.

Definition hidden (e : option expr) : MM bool :=
  match e with
  | None => mret false
  | Some e => t ← on_syms (calc_expr (sym_calc_value fuel) e); mret (bool_decide (t = tri_no))
  end.

(** [n] bounds the depth of the tree and the number of children. *)
Fixpoint menu_is_visible (n : nat) (a : positive) : MM bool :=
  match n with
  | O => out_of_fuel
  | S n =>
      x ← mload a;
      match m_prompt x with
      | None => mret false
      | Some r =>
          h ← hidden (m_visibility x);
          if h : bool then mret false
          else
            t ← prompt_visible a x r;
            if decide (t ≠ tri_no) then mret true
            else
              match m_sym x with
              | None => mret false
              | Some p =>
                  t ← on_syms (curr_tri p);
                  if decide (t = tri_no) then mret false
                  else
                    v ← child_visible (menu_is_visible n) (S n) (m_list x);
                    if v : bool then
                      _ ← on_syms (store p (add_flag SYMBOL_DEF_USER)); mret true
                    else mret false
              end
      end
  end.

Definition menu_is_empty (n : nat) (a : positive) : MM bool :=
  x ← mload a; v ← child_visible (menu_is_visible n) n (m_list x); mret (negb v).

End Visible.

Definition menu_has_prompt (x : menu) : bool := match m_prompt x with Some _ => true | None => false end.

(** The text of the prompt, or the name of the symbol. *)
Definition menu_get_prompt (a : positive) : MM (option cstring) :=
  x ← mload a;
  match m_prompt x, m_sym x with
  | Some r, _ => pr ← prompt_prop x r; mret (p_text pr)
  | None, Some p => s ← on_syms (load p); mret (name s)
  | None, None => mret None
  end.

(** The enclosing menu of an entry. *)
Fixpoint menu_get_parent_menu (n : nat) (a : positive) : MM positive :=
  match n with
  | O => out_of_fuel
  | S n =>
      if decide (a = rootmenu) then mret a
      else
        x ← mload a;
        t ← match m_prompt x with
            | Some r => pr ← prompt_prop x r; mret (p_type pr)
            | None => mret P_UNKNOWN
            end;
        if decide (t = P_MENU) then mret a
        else match m_parent x with Some q => menu_get_parent_menu n q | None => fault end
  end.
