(* ===== verification/KconfigWrite.v ===== *)
(** * Kconfig: writing configurations

    Translation of [conf_write] and [conf_write_defconfig] of
    [support/kconfig/confdata.c] from the open file on, and of the check of
    [conf_read] between calculated and saved values: the walk over the tree of
    menu entries, which calculates a symbol when it comes to it and writes it if
    it carries the mark [SYMBOL_WRITE]. A file is the text that was printed to
    it. *)

From stdpp Require Import base option strings gmap list.
From Stdlib Require Import ZArith Lia.
From S2P Require Import Prelude Effects KconfigExpr KconfigSymtab KconfigConf KconfigSym KconfigMenu.
Local Open Scope nat_scope.

(** ** The walk *)

(** From the last entry of a list up to the next entry of an enclosing list. *)
Fixpoint climb (n : nat) (parent : option positive) : MM (option positive) :=
  match parent, n with
  | None, _ => mret None
  | Some _, O => out_of_fuel
  | Some q, S n =>
      x ← mload q;
      match m_next x with
      | Some c => mret (Some c)
      | None => climb n (m_parent x)
      end
  end.

(** The entry after an entry: its first child, its next sibling, or that of an
    enclosing one. *)
Definition next_menu (n : nat) (a : positive) : MM (option positive) :=
  x ← mload a;
  match m_list x, m_next x with
  | Some c, _ => mret (Some c)
  | None, Some c => mret (Some c)
  | None, None => climb n (m_parent x)
  end.

(** The loop of both writers; [visit] prints an entry. *)
Fixpoint menu_walk (n : nat) (visit : positive → MM cstring) (k : nat) (a : option positive) : MM cstring :=
  match a, k with
  | None, _ => mret []
  | Some _, O => out_of_fuel
  | Some a, S k =>
      t ← visit a;
      next ← next_menu n a;
      r ← menu_walk n visit k next;
      mret (t ++ r)
  end.

(** ** Symbols *)

Section Write.
Context (CONFIG_ : cstring) `{ValueBytes} (fuel : nat).

(** [conf_write_symbol(out, sym, &kconfig_printer_cb, NULL)]. *)
Definition write_symbol (p : symp) : M cstring :=
  s ← load p;
  match type s with
  | S_OTHER | S_UNKNOWN => mret []
  | _ =>
      v ← sym_get_string_value (sym_calc_value fuel) p;
      str ← cstr v;
      match name s with
      | Some nm =>
          mret (conf_write_symbol (λ t n v, kconfig_print_symbol CONFIG_ t n v false) (type s) nm str)
      | None => fault
      end
  end.

(** The body of the loop of [conf_write]. *)
Definition conf_write_entry (n : nat) (a : positive) : MM cstring :=
  x ← mload a;
  match m_sym x with
  | None =>
      v ← menu_is_visible fuel n a;
      if v : bool then
        str ← menu_get_prompt a;
        match str with Some t => mret (menu_block t) | None => fault end
      else mret []
  | Some p =>
      s ← on_syms (load p);
      if sym_is_choice s then mret []
      else
        _ ← on_syms (sym_calc_value fuel p);
        s ← on_syms (load p);
        if has_flag SYMBOL_WRITE s then
          _ ← on_syms (store p (clear_flag SYMBOL_WRITE));
          on_syms (write_symbol p)
        else mret []
  end.

(** [rootmenu.prompt->text] at the top of the file. *)
Definition heading : MM cstring :=
  x ← mload rootmenu;
  match m_prompt x with
  | Some r =>
      pr ← prompt_prop x r;
      match p_text pr with Some t => mret (conf_write_heading t) | None => fault end
  | None => fault
  end.

Definition set_change_count (n : nat) : M unit := λ st,
  Ret tt (mkSt (stab st) (modules_sym st) (modules_val st) (changed_menus st) n (unmet st)).

Definition conf_write (n k : nat) : MM cstring :=
  h ← heading;
  c ← on_syms (gets sym_change_count);
  _ ← on_syms (if c =? 0 then sym_clear_all_valid fuel else skip);
  x ← mload rootmenu;
  t ← menu_walk n (conf_write_entry n) k (m_list x);
  _ ← on_syms (set_change_count 0);
  mret (h ++ t).

(** ** The minimal configuration *)

(** A choice value that is the default of its choice and set. *)
Definition is_choice_default (p : symp) (s : symbol) : M bool :=
  if sym_is_choice_value s then
    cs ← choice_of s;
    ds ← sym_choice_default (sym_calc_value fuel) cs;
    c ← load cs;
    s ← load p;
    mret (negb (sym_is_optional c) && bool_decide (ds = Some p) &&
          bool_decide (type s = S_BOOLEAN) && bool_decide (tri (curr s) = tri_yes))
  else mret false.

(** Whether a marked symbol differs from its default; the arguments of [strcmp]
    are computed from left to right. *)
Definition differs_from_default (p : symp) : M bool :=
  s ← load p;
  if negb (sym_is_changable s) then mret false
  else
    v ← sym_get_string_value (sym_calc_value fuel) p;
    v ← cstr v;
    d ← sym_get_string_default fuel p;
    d ← cstr d;
    if decide (v = d) then mret false
    else
      s ← load p;
      b ← is_choice_default p s;
      mret (negb b).

Definition defconfig_entry (n : nat) (a : positive) : MM cstring :=
  x ← mload a;
  match m_sym x with
  | None => _ ← menu_is_visible fuel n a; mret []
  | Some p =>
      s ← on_syms (load p);
      if sym_is_choice s then mret []
      else
        _ ← on_syms (sym_calc_value fuel p);
        s ← on_syms (load p);
        if has_flag SYMBOL_WRITE s then
          _ ← on_syms (store p (clear_flag SYMBOL_WRITE));
          b ← on_syms (differs_from_default p);
          if b : bool then on_syms (write_symbol p) else mret []
        else mret []
  end.

Definition conf_write_defconfig (n k : nat) : MM cstring :=
  _ ← on_syms (sym_clear_all_valid fuel);
  x ← mload rootmenu;
  menu_walk n (defconfig_entry n) k (m_list x).

End Write.
