(* ===== verification/KconfigWriteSpec.v ===== *)
(** * Kconfig: what is written

    Properties of [KconfigWrite]: the walk over the linked menu entries visits
    them in the order of the tree. *)

From stdpp Require Import base option strings gmap list.
From Stdlib Require Import ZArith Lia.
From S2P Require Import Prelude Effects KconfigExpr KconfigSymtab KconfigConf KconfigConfSpec KconfigSym KconfigSymTerm.
From S2P Require Import KconfigSymSpec KconfigSymSet KconfigMenu KconfigWrite.
Local Open Scope nat_scope.

(** ** Trees of menu entries *)

(** A list of entries with what is below each. *)
Inductive forest := Nil | Cons (a : positive) (children rest : forest).

Fixpoint preorder (f : forest) : list positive :=
  match f with Nil => [] | Cons a c r => a :: preorder c ++ preorder r end.

Fixpoint height (f : forest) : nat :=
  match f with Nil => 0 | Cons _ c r => Nat.max (S (height c)) (height r) end.

(** The entries are linked as the tree says, from [first] on, below [parent]. *)
Fixpoint forest_at (L : gmap positive menu) (parent first : option positive) (f : forest) : Prop :=
  match f with
  | Nil => first = None
  | Cons a c r =>
      first = Some a ∧ ∃ x, L !! a = Some x ∧ m_parent x = parent ∧
        forest_at L (Some a) (m_list x) c ∧ forest_at L parent (m_next x) r
  end.

Definition links (x : menu) : option positive * option positive * option positive :=
  (m_next x, m_parent x, m_list x).

(** Two states with the same tree. *)
Definition same_links (L L' : gmap positive menu) : Prop := links <$> L = links <$> L'.

Lemma same_links_lookup L L' a x :
  same_links L L' → L !! a = Some x →
  ∃ x', L' !! a = Some x' ∧ m_next x' = m_next x ∧ m_parent x' = m_parent x ∧ m_list x' = m_list x.
Proof.
  intros H Hx. assert (E : links <$> L' !! a = Some (links x)).
  { rewrite <-lookup_fmap, <-H, lookup_fmap, Hx. done. }
  apply fmap_Some in E as (x' & Hx' & E). injection E as ???. eauto.
Qed.

Lemma forest_at_links L L' f parent first :
  same_links L L' → forest_at L parent first f → forest_at L' parent first f.
Proof.
  intros HL. revert parent first. induction f as [|a c IHc r IHr]; intros parent first; simpl; [done|].
  intros (-> & x & Hx & <- & Hc & Hr). split; [done|].
  destruct (same_links_lookup _ _ _ _ HL Hx) as (x' & Hx' & En & Ep & El).
  exists x'. rewrite En, Ep, El. auto.
Qed.

(** Climbing from [parent] leads to [up] in at most [d] steps. *)
Fixpoint ups (L : gmap positive menu) (d : nat) (parent up : option positive) : Prop :=
  match parent with
  | None => up = None
  | Some q =>
      match d with
      | O => False
      | S d =>
          ∃ x, L !! q = Some x ∧
            match m_next x with Some c => up = Some c | None => ups L d (m_parent x) up end
      end
  end.

Lemma ups_links L L' d parent up : same_links L L' → ups L d parent up → ups L' d parent up.
Proof.
  intros HL. revert parent. induction d as [|d IH]; intros [q|]; simpl; try done.
  intros (x & Hx & H). destruct (same_links_lookup _ _ _ _ HL Hx) as (x' & Hx' & En & Ep & _).
  exists x'. rewrite En, Ep. split; [done|]. destruct (m_next x); auto.
Qed.

Lemma climb_ups L d n parent up st :
  menus st = L → ups L d parent up → d ≤ n → climb n parent st = Ret up st.
Proof.
  intros <-. revert n parent. induction d as [|d IH]; intros n [q|] H Hn; simpl in H; try done.
  - subst. by destruct n.
  - destruct H as (x & Hx & H). destruct n as [|n]; [lia|]. simpl.
    unfold mbind, Eff_bind, mload. rewrite Hx. destruct (m_next x); [by subst|]. apply IH; [done|lia].
  - subst. by destruct n.
Qed.

(** ** The walk *)

(** Text in front of what a computation returns. *)
Definition prepend (t : cstring) (o : outcome menu_state cstring) : outcome menu_state cstring :=
  match o with Ret r st => Ret (t ++ r) st | Fault => Fault | NoFuel => NoFuel end.

Definition followed (o : outcome menu_state cstring) (g : menu_state → outcome menu_state cstring) :
    outcome menu_state cstring :=
  match o with Ret t st => prepend t (g st) | Fault => Fault | NoFuel => NoFuel end.

Lemma prepend_app t u o : prepend (t ++ u) o = prepend t (prepend u o).
Proof. destruct o; simpl; [by rewrite app_assoc|done|done]. Qed.

Lemma prepend_followed t o g : followed (prepend t o) g = prepend t (followed o g).
Proof. destruct o; simpl; [by rewrite prepend_app|done|done]. Qed.

Lemma followed_assoc o g h : followed (followed o g) h = followed o (λ st, followed (g st) h).
Proof. destruct o; simpl; [by rewrite prepend_followed|done|done]. Qed.

Lemma followed_ext o g h : (∀ t st, o = Ret t st → g st = h st) → followed o g = followed o h.
Proof. destruct o; simpl; [|done..]. intros H. by erewrite H. Qed.

(** The visits in the order of a list. *)
Fixpoint collect (visit : positive → MM cstring) (l : list positive) : MM cstring :=
  match l with
  | [] => mret []
  | a :: l => λ st, followed (visit a st) (collect visit l)
  end.

Lemma collect_app visit l1 l2 st :
  collect visit (l1 ++ l2) st = followed (collect visit l1 st) (collect visit l2).
Proof.
  revert st. induction l1 as [|a l1 IH]; intros st; simpl.
  { by destruct (collect visit l2 st). }
  rewrite followed_assoc. by apply followed_ext.
Qed.

Section Walk.
Context (n : nat) (visit : positive → MM cstring).

(** A visit does not change the tree. *)
Definition keeps_links : Prop :=
  ∀ a st t st', visit a st = Ret t st' → same_links (menus st) (menus st').

Context (Hvisit : keeps_links).

Lemma collect_links l st t st' : collect visit l st = Ret t st' → same_links (menus st) (menus st').
Proof.
  revert st t. induction l as [|a l IH]; intros st t; simpl; [by intros [= _ <-]|].
  destruct (visit a st) as [u st1| |] eqn:E; simpl; try done.
  destruct (collect visit l st1) as [v st2| |] eqn:E2; simpl; try done. intros [= _ <-].
  etransitivity; [by eapply Hvisit|by eapply IH].
Qed.

Lemma walk_step k a st :
  menu_walk n visit (S k) (Some a) st =
    followed (visit a st) (λ st, match next_menu n a st with
      | Ret next st => menu_walk n visit k next st
      | Fault => Fault | NoFuel => NoFuel end).
Proof.
  simpl. unfold mbind, Eff_bind. destruct (visit a st) as [t st1| |]; simpl; try done.
  destruct (next_menu n a st1) as [x st2| |]; simpl; try done.
Qed.

Lemma next_menu_first f a x st parent up d :
  menus st !! a = Some x → m_parent x = parent → ups (menus st) d parent up → d ≤ n →
  match f with
  | Cons b _ _ => m_list x = Some b
  | Nil => m_list x = None
  end →
  next_menu n a st =
    Ret (match f with Cons b _ _ => Some b
         | Nil => match m_next x with Some c => Some c | None => up end end) st.
Proof.
  intros Hx <- Hu Hd Hf. unfold next_menu, mbind, Eff_bind, mload. rewrite Hx.
  destruct f as [|b c r]; rewrite Hf; [|done]. destruct (m_next x); [done|].
  by eapply climb_ups.
Qed.

(** Walking from the first entry of a list visits the list and goes on above
    it. *)
Lemma walk_forest f st parent first up d k :
  f ≠ Nil → forest_at (menus st) parent first f → ups (menus st) d parent up → d + height f ≤ S n →
  menu_walk n visit (length (preorder f) + k) first st =
    followed (collect visit (preorder f) st) (menu_walk n visit k up).
Proof.
  revert st parent first up d k. induction f as [|a c IHc r IHr]; intros st parent first up d k; [done|].
  intros _ (-> & x & Hx & Hp & Hc & Hr) Hu Hh. cbn [preorder length height] in *.
  rewrite Nat.add_succ_l, walk_step. cbn [collect]. rewrite followed_assoc. apply followed_ext.
  intros t st1 Ht. pose proof (Hvisit _ _ _ _ Ht) as HL.
  destruct (same_links_lookup _ _ _ _ HL Hx) as (x1 & Hx1 & En & Ep & El).
  apply (forest_at_links _ _ _ _ _ HL) in Hc, Hr. apply (ups_links _ _ _ _ _ HL) in Hu.
  rewrite <-El in Hc. rewrite <-En in Hr. clear Hx El En.
  rewrite (next_menu_first c a x1 st1 parent up d); [|done|congruence|done|lia|].
  2: { destruct c; simpl in Hc; [done|apply Hc]. }
  assert (Hrest : ∀ st2, same_links (menus st1) (menus st2) →
    menu_walk n visit (length (preorder r) + k) (match m_next x1 with Some b => Some b | None => up end) st2 =
      followed (collect visit (preorder r) st2) (menu_walk n visit k up)).
  { intros st2 HL2. apply (forest_at_links _ _ _ _ _ HL2) in Hr. apply (ups_links _ _ _ _ _ HL2) in Hu.
    destruct r as [|b rc rr] eqn:Er.
    - simpl in Hr. rewrite Hr. simpl. by destruct (menu_walk n visit k up st2).
    - assert (Hf : m_next x1 = Some b) by apply Hr. rewrite Hf in *.
      eapply IHr; [done|exact Hr|exact Hu|lia]. }
  rewrite length_app, collect_app, followed_assoc. destruct c as [|b cc cr] eqn:Ec.
  - simpl. rewrite Hrest by done. by destruct (collect _ _ _) as [? ?| |]; simpl; [destruct (menu_walk _ _ _ _ _)|..].
  - assert (Hf : m_list x1 = Some b) by apply Hc. rewrite Hf in Hc. rewrite <-Nat.add_assoc.
    rewrite (IHc st1 (Some a) (Some b) (match m_next x1 with Some e => Some e | None => up end) (S d)).
    + apply followed_ext. intros t2 st2 Ht2. apply Hrest. by eapply collect_links.
    + done.
    + exact Hc.
    + simpl. exists x1. split; [done|]. destruct (m_next x1); [done|]. by rewrite Ep, Hp.
    + cbn [height] in *. lia.
Qed.

End Walk.

(** The tree of all entries hangs below [rootmenu]. *)
Definition menu_tree (L : gmap positive menu) (f : forest) : Prop :=
  ∃ x, L !! rootmenu = Some x ∧ m_next x = None ∧ m_parent x = None ∧
    forest_at L (Some rootmenu) (m_list x) f.

Lemma height_preorder f : height f ≤ length (preorder f).
Proof. induction f; simpl; [done|]. rewrite length_app. lia. Qed.

Lemma walk_tree n visit k st f x :
  keeps_links visit → menus st !! rootmenu = Some x → menu_tree (menus st) f →
  length (preorder f) ≤ n → length (preorder f) ≤ k →
  menu_walk n visit k (m_list x) st = collect visit (preorder f) st.
Proof.
  intros Hv Hx (y & Hy & Hn & Hp & Hf) Hd Hk. rewrite Hx in Hy. injection Hy as <-.
  destruct f as [|a c r] eqn:Ef.
  { simpl in Hf. rewrite Hf. by destruct k. }
  rewrite <-Ef in *.
  replace k with (length (preorder f) + (k - length (preorder f))) by lia.
  rewrite (walk_forest n visit Hv f st (Some rootmenu) (m_list x) None 1).
  - destruct (collect visit (preorder f) st) as [t st'| |]; simpl; try done.
    destruct (k - length (preorder f)); simpl; by rewrite app_nil_r.
  - by rewrite Ef.
  - done.
  - simpl. exists x. by rewrite Hn, Hp.
  - pose proof (height_preorder f). lia.
Qed.

(** ** What an entry prints *)

(** The members of an entry that a calculation never changes. *)
Definition static_menu (x : menu) : menu :=
  match m_prompt x with
  | Some (Own_prompt pr) => set_prompt (Some (Own_prompt (erase pr))) x
  | _ => x
  end.

Lemma static_menu_links x : links (static_menu x) = links x.
Proof. unfold static_menu. by destruct (m_prompt x) as [[]|]. Qed.

Lemma same_static L L' : static_menu <$> L = static_menu <$> L' → same_links L L'.
Proof.
  intros H. unfold same_links. apply (f_equal (fmap links)) in H. rewrite <-!map_fmap_compose in H.
  assert (E : ∀ M : gmap positive menu, links ∘ static_menu <$> M = links <$> M).
  { intros M. apply map_fmap_ext. intros i x _. apply static_menu_links. }
  by rewrite !E in H.
Qed.

Lemma spec_on_syms {A} (c : M A) st (Q : A → menu_state → Prop) :
  spec False c (msyms st) (λ a s, Q a (mkMenus s (menus st))) → spec False (on_syms c) st Q.
Proof. unfold spec, on_syms. by destruct (c (msyms st)). Qed.

(** The calls of [sym_calc_value] in the terms of [KconfigSymSpec]. *)
Lemma calc_is_ok `{ValueBytes} fuel rank t0 m mv sem W :
  solves rank t0 m mv sem → calc_ok rank t0 m mv sem W fuel (sym_calc_value fuel).
Proof. intros Hsol p st Hr Hp Hi. by apply (calc_all rank t0 m mv sem W Hsol (S (rank p))); [lia|..]. Qed.

Lemma calc_is_valid `{ValueBytes} fuel : 0 < fuel → calc_valid (sym_calc_value fuel).
Proof.
  intros Hf p st s Hs Hv. destruct fuel as [|k]; [lia|]. simpl.
  unfold calc_body, mbind, Eff_bind, load. unfold at_sym in Hs. by rewrite Hs, Hv.
Qed.

Section Output.
Context (CONFIG_ : cstring) `{ValueBytes} (fuel n : nat) (Hn : 0 < n).
Context (rank : symp → nat) (t0 : gmap symp symbol) (m : symp) (mv : tristate).
Context (sem : symp → symbol_value) (Hsol : solves rank t0 m mv sem).
Context (Hrank : ∀ p, is_Some (t0 !! p) → rank p < fuel).
Context (L0 : gmap positive menu).
(** The table that the types are read from. *)
Context (T : symtab) (HT : ∀ p s, t0 !! p = Some s → type (sym T p) = type s).

(** An entry with a symbol that has a name and a type, or a menu or comment
    with a text; the blocks of [if] have neither. *)
Definition entry_wf (x : menu) : Prop :=
  match m_sym x, m_prompt x with
  | Some p, _ => ∃ s, t0 !! p = Some s ∧ is_static p = false ∧ type s ≠ S_UNKNOWN ∧
      type s ≠ S_OTHER ∧ is_Some (name s)
  | None, Some (Own_prompt pr) => is_Some (p_text pr) ∧
      ∀ d, d ∈ opt_deps (m_visibility x) ++ opt_deps (ev_expr (p_visible pr)) → is_Some (t0 !! d)
  | None, Some (Sym_prompt _) => False
  | None, None => True
  end.

(** The title of a menu or comment that is shown. *)
Definition shown (x : menu) : option cstring :=
  match m_prompt x with
  | Some (Own_prompt pr) =>
      if bool_decide (ev mv (ty t0) sem (m_visibility x) = tri_no) then None
      else if bool_decide (ev mv (ty t0) sem (ev_expr (p_visible pr)) = tri_no) then None
      else p_text pr
  | _ => None
  end.

(** The line of a symbol that is written. *)
Definition symbol_chunk (p : symp) : option chunk :=
  s ← t0 !! p; nm ← name s;
  if write_spec mv (ty t0) sem s then Some (Symbol_line p nm (str_spec mv (type s) (sem p))) else None.

(** What an entry prints when the symbols in [W] have been written, and what has
    been written then. *)
Definition entry_chunk (W : gset symp) (x : menu) : option chunk :=
  match m_sym x with
  | Some p => if decide (p ∈ W) then None else symbol_chunk p
  | None => Menu_block <$> shown x
  end.

Definition entry_written (W : gset symp) (x : menu) : gset symp :=
  match m_sym x, entry_chunk W x with Some p, Some _ => {[p]} ∪ W | _, _ => W end.

(** The parts of the file that the entries of a list give. *)
Fixpoint chunks (W : gset symp) (l : list positive) : list chunk :=
  match l with
  | [] => []
  | a :: l =>
      match L0 !! a with
      | None => []
      | Some x => option_list (entry_chunk W x) ++ chunks (entry_written W x) l
      end
  end.

(** The state while a file is written. *)
Record writing (W : gset symp) (st : menu_state) : Prop := {
  wr_inv : inv rank t0 m mv sem (λ p, p ∈ W) fuel (msyms st);
  wr_done : ∀ p, p ∈ W →
    ∃ s, at_sym p (msyms st) s ∧ has_flag SYMBOL_VALID s = true ∧ has_flag SYMBOL_WRITE s = false;
  wr_menus : static_menu <$> menus st = L0;
}.

(** Calculating keeps what has been written. *)
Lemma writing_frame W st s :
  writing W st → inv rank t0 m mv sem (λ p, p ∈ W) fuel s → frame rank fuel None (msyms st) s →
  writing W (mkMenus s (menus st)).
Proof.
  intros [Hi Hd Hm] Hi' Hf. split; [done| |done]. intros p Hp. destruct (Hd p Hp) as (x & Hx & Hv & Hw).
  exists x. split; [|done]. apply Hf; [done|by left|done].
Qed.

Lemma writing_pure {A} W (c : M A) st (Q : A → Prop) :
  writing W st → pure rank t0 m mv sem (λ p, p ∈ W) fuel c (msyms st) (λ a _, Q a) →
  spec False (on_syms c) st (λ a st', Q a ∧ writing W st' ∧ menus st' = menus st).
Proof.
  intros Hw Hc. apply spec_on_syms. eapply spec_mono; [exact Hc|]. intros a s (Hi & Hf & HQ).
  split; [done|]. split; [by apply writing_frame|done].
Qed.

Lemma writing_expr W e st :
  writing W st → (∀ d, d ∈ opt_deps e → is_Some (t0 !! d)) →
  spec False (on_syms (calc_expr_opt (sym_calc_value fuel) e)) st
    (λ t st', t = ev mv (ty t0) sem e ∧ writing W st' ∧ menus st' = menus st).
Proof.
  intros Hw Hd. apply (writing_pure W); [done|].
  apply pure_expr_opt; [done|by apply calc_is_ok|apply calc_is_valid|apply Hw|]. intros d ?. split; auto.
Qed.

(** *** Menus and comments *)

Lemma writing_menu W st a x :
  writing W st → L0 !! a = Some x → ∃ y, menus st !! a = Some y ∧ static_menu y = x.
Proof.
  intros [_ _ Hm] Hx. rewrite <-Hm, lookup_fmap in Hx. apply fmap_Some in Hx as (y & Hy & ->). eauto.
Qed.

Lemma static_menu_own y pr : m_prompt (static_menu y) = Some (Own_prompt pr) →
  ∃ pr', m_prompt y = Some (Own_prompt pr') ∧ erase pr' = pr.
Proof.
  unfold static_menu. destruct (m_prompt y) as [[i|pr']|] eqn:E; simpl; intros H1; rewrite ?E in H1; try done.
  injection H1 as <-. eauto.
Qed.

Lemma static_menu_sym y : m_sym (static_menu y) = m_sym y.
Proof. unfold static_menu. by destruct (m_prompt y) as [[]|]. Qed.

Lemma static_menu_vis y : m_visibility (static_menu y) = m_visibility y.
Proof. unfold static_menu. by destruct (m_prompt y) as [[]|]. Qed.

Lemma set_own_tri_ok W st a y t :
  writing W st → menus st !! a = Some y →
  spec False (set_own_tri a t) st (λ _ st', writing W st' ∧ msyms st' = msyms st ∧
    ∀ pr, m_prompt y = Some (Own_prompt pr) →
      ∃ y', menus st' !! a = Some y' ∧ m_prompt y' = Some (Own_prompt (set_prop_tri t pr)) ∧ m_sym y' = m_sym y).
Proof.
  intros [Hi Hd Hm] Hy. unfold spec, set_own_tri, mstore. rewrite Hy.
  split_and!; [split; simpl; [done|done|]|done|].
  - rewrite <-Hm. apply map_eq. intros b. rewrite !lookup_fmap.
    destruct (decide (b = a)) as [->|Hne]; [|by rewrite lookup_alter_ne].
    rewrite lookup_alter_eq, Hy. simpl. f_equal. unfold static_menu.
    destruct (m_prompt y) as [[i|pr]|] eqn:E; simpl; by rewrite ?E.
  - intros pr Hpr. simpl. rewrite lookup_alter_eq, Hy. eexists. split; [done|]. simpl. by rewrite Hpr.
Qed.

Lemma hidden_ok W e st :
  writing W st → (∀ d, d ∈ opt_deps e → is_Some (t0 !! d)) →
  spec False (hidden fuel e) st
    (λ b st', b = bool_decide (ev mv (ty t0) sem e = tri_no) ∧ writing W st' ∧ menus st' = menus st).
Proof.
  intros Hw Hd. destruct e as [e|]; [|by apply spec_ret].
  apply spec_bind. eapply spec_mono; [by apply (writing_expr W (Some e))|].
  intros t st' (-> & Hw' & Hm). by apply spec_ret.
Qed.

Lemma visible_ok W st a y pr :
  writing W st → menus st !! a = Some y → m_sym y = None → m_prompt y = Some (Own_prompt pr) →
  entry_wf (static_menu y) →
  spec False (menu_is_visible fuel n a) st (λ b st', writing W st' ∧
    (b = true → ∃ t, shown (static_menu y) = Some t ∧ menu_get_prompt a st' = Ret (Some t) st') ∧
    (b = false → shown (static_menu y) = None)).
Proof.
  intros Hw Hy Hs Hp. unfold entry_wf, shown. rewrite static_menu_sym, static_menu_vis, Hs.
  unfold static_menu. rewrite !Hp. cbn [m_prompt set_prompt]. intros [[txt Htxt] Hd].
  replace n with (S (pred n)) by lia. cbn [menu_is_visible].
  apply spec_bind. unfold mload at 1, spec at 1. rewrite Hy, Hp.
  apply spec_bind. eapply spec_mono; [apply hidden_ok; [done|]; intros; apply Hd; set_solver|].
  intros b st1 (-> & Hw1 & Hm1). case_bool_decide; [by apply spec_ret|].
  apply spec_bind. unfold prompt_visible. rewrite Hs. apply spec_bind.
  apply spec_ret.
  apply spec_bind. eapply spec_mono; [apply (writing_expr W); [done|]; intros; apply Hd; set_solver|].
  intros t st2 (-> & Hw2 & Hm2). apply spec_bind. rewrite Hm1, <-Hm2 in *.
  assert (Hy2 : menus st2 !! a = Some y) by congruence.
  eapply spec_mono; [by apply (set_own_tri_ok W)|]. intros _ st3 (Hw3 & _ & Hp3). apply spec_ret.
  destruct (Hp3 _ Hp) as (y' & Hy' & Hp' & Hs').
  destruct (decide _) as [E|E]; apply spec_ret.
  - split; [done|]. split; [|done]. intros _. exists txt.
    cbn in *. rewrite bool_decide_false by done. split; [done|].
    unfold menu_get_prompt, mbind, Eff_bind, mload. rewrite Hy', Hp'. simpl. unfold prompt_prop. simpl.
    by rewrite <-Htxt.
  - split; [done|]. split; [done|]. intros _. apply dec_stable in E. by rewrite bool_decide_true.
Qed.

(** *** Symbols *)

Lemma mark_upd st p s q x :
  at_sym p st s → at_sym q (set_stab (upd p (clear_flag SYMBOL_WRITE) (stab st)) st) x →
  ∃ y, at_sym q st y ∧ x = (if decide (q = p) then clear_flag SYMBOL_WRITE y else y).
Proof.
  unfold at_sym. cbn [stab set_stab]. intros Hp Hq. case_decide as E.
  - subst q. rewrite upd_lookup, Hp in Hq. injection Hq as <-. eauto.
  - rewrite upd_lookup_ne in Hq by done. eauto.
Qed.

Lemma mark_at st p s q y :
  at_sym p st s → at_sym q st y →
  at_sym q (set_stab (upd p (clear_flag SYMBOL_WRITE) (stab st)) st)
    (if decide (q = p) then clear_flag SYMBOL_WRITE y else y).
Proof.
  unfold at_sym. cbn [stab set_stab]. intros Hp Hq. case_decide as E.
  - subst q. by rewrite upd_lookup, Hq.
  - by rewrite upd_lookup_ne.
Qed.

(** Taking the mark of a written symbol back. *)
Lemma mark_inv (W : gset symp) st p s :
  inv rank t0 m mv sem (λ q, q ∈ W) fuel st → at_sym p st s → has_flag SYMBOL_VALID s = true →
  inv rank t0 m mv sem (λ q, q ∈ {[p]} ∪ W) fuel (set_stab (upd p (clear_flag SYMBOL_WRITE) (stab st)) st).
Proof.
  intros Hi Hs Hv. pose proof Hi as [H1 H2 H3 H4 H5 H6 H7 Hunt H8].
  assert (Hex : ∀ q v, (∃ x, at_sym q st x ∧ has_flag SYMBOL_VALID x = true ∧ curr x = v) →
    ∃ x, at_sym q (set_stab (upd p (clear_flag SYMBOL_WRITE) (stab st)) st) x ∧
      has_flag SYMBOL_VALID x = true ∧ curr x = v).
  { intros q v (x & Hx & Hvx & Hc). eexists. split; [by eapply mark_at|].
    case_decide; [|done]. by rewrite has_flag_clear. }
  split; try done; try (by apply Hex).
  - intros q. rewrite <-H1. cbn [stab set_stab]. destruct (decide (q = p)) as [->|Hne].
    + rewrite upd_lookup. unfold at_sym in Hs. rewrite Hs. simpl. by rewrite static_clear.
    + by rewrite upd_lookup_ne.
  - intros q x Hq Hx. destruct (mark_upd _ _ _ _ _ Hs Hx) as (y & Hy & ->).
    specialize (H7 q y Hq Hy). case_decide; [|done]. by rewrite has_flag_clear.
  - intros q x Hq Hx Hun. destruct (mark_upd _ _ _ _ _ Hs Hx) as (y & Hy & ->).
    case_decide; [by apply has_flag_clear_sub|by eapply Hunt].
  - intros q x Hx Hr Hvx. destruct (mark_upd _ _ _ _ _ Hs Hx) as (y & Hy & ->).
    assert (Hvy : has_flag SYMBOL_VALID y = true) by (case_decide; [by rewrite has_flag_clear in Hvx|done]).
    destruct (H8 q y Hy Hr Hvy) as [Hc Hrest]. case_decide as E.
    + subst q. split; [done|]. intros Hst Hu Ho. destruct (Hrest Hst Hu Ho) as (? & ? & ? & _).
      split_and!; try done. intros HW. destruct HW. set_solver.
    + split; [done|]. intros Hst Hu Ho. destruct (Hrest Hst Hu Ho) as (? & ? & ? & Hw).
      split_and!; try done. intros HW. apply Hw. set_solver.
Qed.

Lemma writing_mark W st p s :
  writing W st → at_sym p (msyms st) s → has_flag SYMBOL_VALID s = true →
  spec False (on_syms (store p (clear_flag SYMBOL_WRITE))) st (λ _ st', writing ({[p]} ∪ W) st').
Proof.
  intros [Hi Hd Hm] Hs Hv. apply spec_on_syms. unfold spec, store. unfold at_sym in Hs. rewrite Hs.
  split; simpl; [by eapply mark_inv| |done].
  intros q Hq. destruct (decide (q = p)) as [->|Hne].
  - eexists. split; [by eapply mark_at|]. rewrite decide_True by done.
    by rewrite has_flag_clear, has_flag_clear_sub.
  - destruct (Hd q) as (y & Hy & Hvy & Hwy); [set_solver|]. exists y. split; [|done].
    pose proof (mark_at _ _ _ _ _ Hs Hy) as Hy'. by rewrite decide_False in Hy'.
Qed.

Lemma spec_load_sym p st s (Q : symbol → menu_state → Prop) :
  at_sym p (msyms st) s → Q s st → spec False (on_syms (load p)) st Q.
Proof.
  intros Hs HQ. apply spec_on_syms. unfold spec, load. unfold at_sym in Hs. rewrite Hs. by destruct st.
Qed.

(** What a symbol is written as. *)
Lemma write_symbol_ok W st p s0 nm :
  writing W st → t0 !! p = Some s0 → is_static p = false → type s0 ≠ S_UNKNOWN → type s0 ≠ S_OTHER →
  name s0 = Some nm → (∃ s, at_sym p (msyms st) s ∧ has_flag SYMBOL_VALID s = true) →
  spec False (on_syms (write_symbol CONFIG_ fuel p)) st (λ t st', writing W st' ∧
    t = chunk_text CONFIG_ T (Symbol_line p nm (str_spec mv (type s0) (sem p)))).
Proof.
  intros Hw Hp Hst Hu Ho Hnm (s & Hs & Hv). pose proof (wr_inv _ _ Hw) as Hi.
  destruct (inv_type _ _ _ _ _ _ _ _ _ _ Hi Hs) as [Hss Hty]. assert (static s = s0) as Es by congruence.
  assert (Ht : type s = type s0) by (by rewrite <-Es). assert (Hn' : name s = Some nm) by (by rewrite <-Es in Hnm).
  pose proof (inv_solved _ _ _ _ _ _ _ _ Hi p s Hs (Hrank p (mk_is_Some _ _ Hp)) Hv) as Hsolved.
  assert (Hpos : 0 < fuel) by (pose proof (Hrank p (mk_is_Some _ _ Hp)); lia).
  assert (Hstr : ty t0 p = type s0) by (by rewrite Hty).
  eapply spec_mono with (Q := λ t st', t = _ ∧ writing W st' ∧ menus st' = menus st).
  2: { intros t st' (-> & ? & _). split; [done|reflexivity]. }
  apply writing_pure with (Q := λ t, t = _); [done|]. unfold write_symbol.
  eapply pure_bind; [by eapply pure_load with (Q := λ x _, x = s)|]. intros ? st1 Hi1 Hf1 ->.
  pose proof (Hf1 _ _ Hs (or_introl Hv) ltac:(done)) as Hs1.
  assert (Hgo : pure rank t0 m mv sem (λ q, q ∈ W) fuel
    (v ← sym_get_string_value (sym_calc_value fuel) p; str ← cstr v;
     match name s with
     | Some nm => mret (conf_write_symbol (λ t n v, kconfig_print_symbol CONFIG_ t n v false) (type s) nm str)
     | None => fault
     end) st1 (λ a _, a = chunk_text CONFIG_ T (Symbol_line p nm (str_spec mv (type s0) (sem p))))).
  { eapply pure_bind; [by apply (pure_string _ _ _ _ _ _ Hsol fuel _ (calc_is_valid fuel) p st1 s)|].
    intros v st2 Hi2 Hf2 ->. eapply pure_bind; [by apply pure_ret with (Q := λ a _, a = str_spec mv (ty t0 p) (sem p))|].
    intros ? st3 Hi3 _ ->. rewrite Hn'. apply pure_ret; [done|]. simpl.
    by rewrite (HT p s0 Hp), Ht, Hstr. }
  rewrite Ht in *. destruct (type s0); try done; exact Hgo.
Qed.

(** *** Entries *)

Definition chunk_texts (cs : list chunk) : cstring := concat (chunk_text CONFIG_ T <$> cs).

Lemma entry_choice W st p s : writing W st → at_sym p (msyms st) s → is_static p = false →
  sym_is_choice s = false.
Proof.
  intros Hw Hs Hst. destruct (inv_type _ _ _ _ _ _ _ _ _ _ (wr_inv _ _ Hw) Hs) as [Hp _].
  by apply (choice_flags_off rank t0 m mv sem Hsol p (static s) Hp Hst).
Qed.

Lemma symbol_entry_ok W st p s0 nm :
  writing W st → t0 !! p = Some s0 → is_static p = false → type s0 ≠ S_UNKNOWN → type s0 ≠ S_OTHER →
  name s0 = Some nm →
  spec False
    (s ← on_syms (load p);
     if sym_is_choice s then mret []
     else
       _ ← on_syms (sym_calc_value fuel p);
       s ← on_syms (load p);
       if has_flag SYMBOL_WRITE s then
         _ ← on_syms (store p (clear_flag SYMBOL_WRITE)); on_syms (write_symbol CONFIG_ fuel p)
       else mret []) st
    (λ t st', let c := if decide (p ∈ W) then None else symbol_chunk p in
       t = chunk_texts (option_list c) ∧
       writing (match c with Some _ => {[p]} ∪ W | None => W end) st').
Proof.
  intros Hw Hp Hst Hu Ho Hnm. destruct (inv_lookup _ _ _ _ _ _ _ _ _ _ (wr_inv _ _ Hw) Hp) as (s & Hs & _).
  apply spec_bind. eapply spec_load_sym; [exact Hs|]. rewrite (entry_choice W st p s Hw Hs Hst).
  apply spec_bind. pose proof (Hrank p (mk_is_Some _ _ Hp)) as Hr.
  eapply spec_mono with (Q := λ _ st', writing W st' ∧ ∃ s1, at_sym p (msyms st') s1 ∧ has_flag SYMBOL_VALID s1 = true).
  { apply spec_on_syms. eapply spec_mono; [apply (calc_is_ok fuel rank t0 m mv sem (λ q, q ∈ W) Hsol p); [done|done|apply Hw]|].
    intros ? s' (Hi' & Hf' & Hv'). split; [by apply writing_frame|done]. }
  intros _ st1 (Hw1 & s1 & Hs1 & Hv1). apply spec_bind. eapply spec_load_sym; [exact Hs1|].
  destruct (inv_type _ _ _ _ _ _ _ _ _ _ (wr_inv _ _ Hw1) Hs1) as [Hp1 _].
  assert (Es : static s1 = s0) by congruence.
  destruct (inv_solved _ _ _ _ _ _ _ _ (wr_inv _ _ Hw1) p s1 Hs1 Hr Hv1) as [_ Hsol1].
  destruct (Hsol1 Hst) as (_ & _ & _ & Hwr).
  { by rewrite <-Es in Hu. } { by rewrite <-Es in Ho. }
  destruct (decide (p ∈ W)) as [HpW|HpW].
  - destruct (wr_done _ _ Hw1 p HpW) as (s2 & Hs2 & _ & Hw2).
    assert (s2 = s1) as -> by (unfold at_sym in *; congruence). rewrite Hw2. by apply spec_ret.
  - rewrite (Hwr HpW). unfold symbol_chunk. rewrite Hp. simpl. rewrite Hnm. simpl.
    rewrite <-(write_static mv (ty t0) sem s1), Es.
    destruct (write_spec mv (ty t0) sem s0) eqn:Ewr; [|by apply spec_ret].
    apply spec_bind. eapply spec_mono with (Q := λ _ st', writing ({[p]} ∪ W) st').
    { by apply (writing_mark W st1 p s1). }
    intros _ st2 Hw2. destruct (wr_done _ _ Hw2 p) as (s2 & Hs2 & Hv2 & _); [set_solver|].
    eapply spec_mono; [apply (write_symbol_ok _ st2 p s0 nm Hw2); [done..|by exists s2]|].
    intros t st3 [Hw3 ->]. split; [|done]. unfold chunk_texts. simpl. by rewrite app_nil_r.
Qed.

Lemma entry_ok W st a x :
  writing W st → L0 !! a = Some x → entry_wf x →
  spec False (conf_write_entry CONFIG_ fuel n a) st (λ t st',
    t = chunk_texts (option_list (entry_chunk W x)) ∧ writing (entry_written W x) st').
Proof.
  intros Hw Hx Hwf. destruct (writing_menu _ _ _ _ Hw Hx) as (y & Hy & <-).
  apply spec_bind. unfold mload at 1, spec at 1. rewrite Hy.
  unfold entry_written, entry_chunk. rewrite static_menu_sym.
  destruct (m_sym y) as [p|] eqn:Es.
  - unfold entry_wf in Hwf. rewrite static_menu_sym, Es in Hwf. destruct Hwf as (s0 & Hp & Hst & Hu & Ho & nm & Hnm).
    by apply symbol_entry_ok with (nm := nm) (s0 := s0).
  - destruct (m_prompt y) as [[i|pr]|] eqn:Ep.
    + exfalso. unfold entry_wf in Hwf. rewrite static_menu_sym, Es in Hwf.
      unfold static_menu in Hwf. rewrite Ep in Hwf. by rewrite Ep in Hwf.
    + apply spec_bind. eapply spec_mono; [by apply (visible_ok W st a y pr)|].
      intros b st1 (Hw1 & Htrue & Hfalse). destruct b.
      * destruct (Htrue eq_refl) as (t & -> & Hget). apply spec_bind. unfold spec at 1. rewrite Hget.
        apply spec_ret. split; [|done]. unfold chunk_texts. simpl. by rewrite app_nil_r.
      * rewrite (Hfalse eq_refl). by apply spec_ret.
    + apply spec_bind. replace n with (S (pred n)) by lia. cbn [menu_is_visible]. apply spec_bind.
      unfold mload at 1, spec at 1. rewrite Hy, Ep. apply spec_ret. apply spec_ret.
      unfold shown, static_menu. by rewrite Ep, Ep.
Qed.

Lemma collect_ok l : ∀ W st,
  writing W st → (∀ a, a ∈ l → ∃ x, L0 !! a = Some x ∧ entry_wf x) →
  ∃ st' W', collect (conf_write_entry CONFIG_ fuel n) l st = Ret (chunk_texts (chunks W l)) st' ∧ writing W' st'.
Proof.
  induction l as [|a l IH]; intros W st Hw Hl; [by exists st, W|].
  destruct (Hl a ltac:(left)) as (x & Hx & Hwf). pose proof (entry_ok W st a x Hw Hx Hwf) as He.
  unfold spec in He. simpl. rewrite Hx. destruct (conf_write_entry CONFIG_ fuel n a st) as [t st1| |]; try done.
  destruct He as [-> Hw1]. destruct (IH _ st1 Hw1) as (st2 & W2 & Hc & Hw2); [intros b ?; apply Hl; by right|].
  exists st2, W2. simpl. rewrite Hc. split; [|done]. simpl. unfold chunk_texts.
  by rewrite fmap_app, concat_app.
Qed.

End Output.

(** ** Visits keep the tree *)

Definition keeps {A} (c : MM A) : Prop :=
  ∀ st a st', c st = Ret a st' → same_links (menus st) (menus st').

Lemma keeps_bind {A B} (c : MM A) (f : A → MM B) : keeps c → (∀ a, keeps (f a)) → keeps (c ≫= f).
Proof.
  intros Hc Hf st b st'. unfold mbind, Eff_bind. destruct (c st) as [a st1| |] eqn:E; try done.
  intros H. etransitivity; [by eapply Hc|by eapply Hf].
Qed.

Lemma keeps_ret {A} (a : A) : keeps (mret a).
Proof. by intros st b st' [= _ <-]. Qed.

Lemma keeps_fault {A} : keeps (A := A) fault.
Proof. by intros st b st'. Qed.

Lemma keeps_fuel {A} : keeps (A := A) out_of_fuel.
Proof. by intros st b st'. Qed.

Lemma keeps_on_syms {A} (c : M A) : keeps (on_syms c).
Proof. intros st a st'. unfold on_syms. destruct (c (msyms st)); try done. by intros [= _ <-]. Qed.

Lemma keeps_mload a : keeps (mload a).
Proof. intros st x st'. unfold mload. destruct (menus st !! a); try done. by intros [= _ <-]. Qed.

Lemma keeps_own_tri a t : keeps (set_own_tri a t).
Proof.
  intros st x st'. unfold set_own_tri, mstore. destruct (menus st !! a) as [y|] eqn:E; [|done].
  intros [= _ <-]. simpl. apply map_eq. intros b. rewrite !lookup_fmap.
  destruct (decide (b = a)) as [->|Hne]; [|by rewrite lookup_alter_ne].
  rewrite lookup_alter_eq, E. simpl. f_equal. by destruct (m_prompt y) as [[]|].
Qed.

Create HintDb keeps.
#[export] Hint Resolve keeps_ret keeps_fault keeps_fuel keeps_on_syms keeps_mload keeps_own_tri : keeps.

Ltac keeps :=
  repeat first
    [ apply keeps_bind; [|intros ?]
    | progress auto with keeps
    | match goal with |- keeps (match ?x with _ => _ end) => destruct x end ].

Lemma keeps_prompt_prop x r : keeps (prompt_prop x r).
Proof. unfold prompt_prop. keeps. Qed.
#[export] Hint Resolve keeps_prompt_prop : keeps.

Lemma keeps_child f k c : (∀ a, keeps (f a)) → keeps (child_visible f k c).
Proof. intros Hf. revert c. induction k as [|k IH]; intros [c|]; simpl; keeps; done. Qed.

Lemma keeps_visible `{ValueBytes} fuel k a : keeps (menu_is_visible fuel k a).
Proof.
  revert a. induction k as [|k IH]; intros a; cbn [menu_is_visible]; [keeps|].
  unfold hidden, prompt_visible. keeps; by apply keeps_child.
Qed.
#[export] Hint Resolve keeps_visible : keeps.

Lemma keeps_entry `{ValueBytes} CONFIG_ fuel k : keeps_links (conf_write_entry CONFIG_ fuel k).
Proof. intros a. change (keeps (conf_write_entry CONFIG_ fuel k a)). unfold conf_write_entry, menu_get_prompt. keeps. Qed.

(** ** The file *)

Section File.
Context `{ValueBytes} (fuel : nat) (rank : symp → nat) (t0 : gmap symp symbol) (mv : tristate).
Context (sem : symp → symbol_value) (L0 : gmap positive menu).

(** The table when no calculated value is known to be up to date: the constant
    symbols have their values, there is no modules symbol but [n]. *)
Record table (st : sym_state) : Prop := {
  tb_static : ∀ p, static <$> syms (stab st) !! p = t0 !! p;
  tb_mod : modules_sym st = Some symbol_no;
  tb_mv : modules_val st = mv;
  tb_no : is_Some (syms (stab st) !! symbol_no);
  tb_empty : is_Some (syms (stab st) !! symbol_empty);
  tb_const : ∀ p s, is_static p = true → at_sym p st s → has_flag SYMBOL_VALID s = true ∧ curr s = sem p;
  tb_untyped : ∀ p s, is_static p = false → at_sym p st s → untyped s → has_flag SYMBOL_WRITE s = false;
  tb_sem_no : sem symbol_no = mkVal (V_str (lit "n")) tri_no;
  tb_sem_empty : sem symbol_empty = mkVal (V_str []) tri_no;
}.

(** The chains of the hash table hold all but the constant symbols. *)
Definition listed (st : sym_state) : Prop :=
  ∀ p, p ∈ all_symbols (stab st) ↔ is_static p = false ∧ is_Some (syms (stab st) !! p).

(** When no other symbol is marked, the invariant of the calculation holds. *)
Lemma table_inv W st :
  table st → (∀ p s, is_static p = false → at_sym p st s → has_flag SYMBOL_VALID s = false) →
  inv rank t0 symbol_no mv sem W fuel st.
Proof.
  intros [Hst Hm Hmv [xn Hn] [xe He] Hc Hunt Hsn Hse] Hun.
  destruct (Hc symbol_no xn eq_refl Hn) as [Hvn Hcn]. destruct (Hc symbol_empty xe eq_refl He) as [Hve Hce].
  split; try done.
  - by exists xn.
  - exists xn. by rewrite Hcn.
  - exists xe. by rewrite Hce.
  - intros p s Hp Hs. by apply (Hc p).
  - intros p s Hs _ Hv. destruct (is_static p) eqn:Hp.
    + split; [by apply Hc|]. congruence.
    + by rewrite (Hun p s Hp Hs) in Hv.
Qed.

(** After [sym_clear_all_valid] nothing is calculated. *)
Lemma clear_inv W st :
  0 < fuel → table st → listed st →
  ∃ st', sym_clear_all_valid fuel st = Ret tt st' ∧ inv rank t0 symbol_no mv sem W fuel st'.
Proof.
  intros Hf Ht Hl. pose proof Ht as [Hst Hm Hmv [xn Hn] [xe He] Hc Hunt Hsn Hse].
  destruct (clear_all_run fuel st Hf) as (st' & Hrun & Hm' & Hv' & Hrec).
  - intros q [Hq [s Hs]]%Hl. split; [by exists s|done].
  - done.
  - exists xn. split; [done|]. by apply (Hc symbol_no).
  - exists st'. split; [done|].
    assert (Hkeep : ∀ p, is_static p = true → syms (stab st') !! p = syms (stab st) !! p).
    { intros p Hp. rewrite Hrec. destruct (syms (stab st) !! p) as [x|]; [|done]. simpl.
      unfold unmarked_in. rewrite decide_False; [done|]. intros [Hq _]%Hl. congruence. }
    apply table_inv.
    + split; try done.
      * intros p. rewrite Hrec, <-Hst. destruct (syms (stab st) !! p) as [s|]; [|done]. simpl.
        unfold unmarked_in. case_decide; [|done]. by rewrite static_clear.
      * by rewrite Hv'.
      * by rewrite Hkeep.
      * by rewrite Hkeep.
      * intros p s Hp Hs. unfold at_sym in Hs. rewrite Hkeep in Hs by done. by apply Hc.
      * intros p s' Hp Hs Hu. unfold at_sym in Hs. rewrite Hrec in Hs. apply fmap_Some in Hs as (x & Hx & ->).
        unfold unmarked_in, untyped in *. case_decide; [rewrite has_flag_clear by done|]; by apply (Hunt p).
    + intros p s' Hp Hs. unfold at_sym in Hs. rewrite Hrec in Hs. apply fmap_Some in Hs as (x & Hx & ->).
      unfold unmarked_in. rewrite decide_True by (apply Hl; split; [done|by exists x]).
      by apply has_flag_clear_sub.
Qed.

(** A symbol that is written, and its value. *)
Definition written_as (p : symp) (v : cstring) : Prop :=
  ∃ s, t0 !! p = Some s ∧ is_Some (name s) ∧ write_spec mv (ty t0) sem s = true ∧
    v = str_spec mv (type s) (sem p).

Lemma symbol_chunk_cases p :
  (symbol_chunk t0 mv sem p = None ∧ ∀ v, ¬ written_as p v) ∨
  ∃ nm v, symbol_chunk t0 mv sem p = Some (Symbol_line p nm v) ∧ ∀ u, written_as p u ↔ u = v.
Proof.
  unfold symbol_chunk, written_as. destruct (t0 !! p) as [s|] eqn:Es; simpl.
  2: { left. split; [done|]. by intros v (x & ? & _). }
  destruct (name s) as [nm|] eqn:En; simpl.
  2: { left. split; [done|]. intros v (x & [= <-] & Hn & _). rewrite En in Hn. by apply is_Some_None in Hn. }
  destruct (write_spec mv (ty t0) sem s) eqn:Ew.
  - right. do 2 eexists. split; [done|]. intros u. split.
    + by intros (x & [= <-] & _ & _ & ->).
    + intros ->. exists s. by rewrite En.
  - left. split; [done|]. intros v (x & [= <-] & _ & Hw & _). congruence.
Qed.

(** Every symbol of the tree that is written is written once. *)
Lemma chunks_assigned l W :
  (∀ a, a ∈ l → is_Some (L0 !! a)) →
  NoDup (assignments (chunks t0 mv sem L0 W l)).*1 ∧
  ∀ p v, (p, v) ∈ assignments (chunks t0 mv sem L0 W l) ↔
    p ∉ W ∧ (∃ a x, a ∈ l ∧ L0 !! a = Some x ∧ m_sym x = Some p) ∧ written_as p v.
Proof.
  revert W. induction l as [|a l IH]; intros W Hl.
  { simpl. split; [constructor|]. intros p v. split; [by intros ?%elem_of_nil|].
    intros (_ & (a & x & Ha & _) & _). by apply elem_of_nil in Ha. }
  destruct (Hl a ltac:(left)) as [x Hx]. cbn [chunks]. rewrite Hx.
  assert (Hl' : ∀ b, b ∈ l → is_Some (L0 !! b)) by (intros b ?; apply Hl; by right).
  assert (Hskip : entry_written t0 mv sem W x = W → assignments (option_list (entry_chunk t0 mv sem W x)) = [] →
    (∀ p v, m_sym x = Some p → p ∉ W → ¬ written_as p v) →
    NoDup (assignments (option_list (entry_chunk t0 mv sem W x) ++ chunks t0 mv sem L0 (entry_written t0 mv sem W x) l)).*1 ∧
    ∀ p v, (p, v) ∈ assignments (option_list (entry_chunk t0 mv sem W x) ++ chunks t0 mv sem L0 (entry_written t0 mv sem W x) l) ↔
      p ∉ W ∧ (∃ b y, b ∈ a :: l ∧ L0 !! b = Some y ∧ m_sym y = Some p) ∧ written_as p v).
  { intros -> He Hno. destruct (IH W Hl') as [Hnd Hin]. unfold assignments in *.
    rewrite omap_app, He. simpl. split; [done|]. intros p v. rewrite Hin. split.
    - intros (? & (b & y & Hb & ? & ?) & ?). split_and!; [done| |done]. exists b, y. split; [by right|done].
    - intros (Hp & (b & y & [->|Hb]%elem_of_cons & Hy & Hs) & Hv).
      + exfalso. assert (y = x) as -> by congruence. by eapply Hno.
      + split_and!; [done| |done]. by exists b, y. }
  destruct (m_sym x) as [p|] eqn:Es.
  - unfold entry_written, entry_chunk in *. rewrite Es in *.
    destruct (decide (p ∈ W)) as [HpW|HpW]; [apply Hskip; [done|done|by intros ? ? [= <-]]|].
    destruct (symbol_chunk_cases p) as [[Hc Hno]|(nm & v & Hc & Hv)]; rewrite Hc in *.
    { apply Hskip; [done|done|]. intros q v [= <-] _. apply Hno. }
    destruct (IH ({[p]} ∪ W) Hl') as [Hnd Hin]. unfold assignments in *. simpl. split.
    + apply NoDup_cons. split; [|done]. intros ([q u] & -> & Hq)%list_elem_of_fmap. simpl in *.
      apply Hin in Hq as [Hq _]. set_solver.
    + intros q u. rewrite elem_of_cons, Hin. split.
      * intros [[= -> ->]|(Hq & (b & y & Hb & ? & ?) & ?)].
        -- split_and!; [done| |by apply Hv]. exists a, x. by split; [left|].
        -- split_and!; [set_solver| |done]. exists b, y. split; [by right|done].
      * intros (Hq & (b & y & [->|Hb]%elem_of_cons & Hy & Hs) & Hu).
        -- left. assert (y = x) as -> by congruence. rewrite Es in Hs. injection Hs as <-.
           by apply Hv in Hu as ->.
        -- destruct (decide (q = p)) as [->|Hne]; [left; by apply Hv in Hu as ->|right].
           split_and!; [set_solver| |done]. by exists b, y.
  - apply Hskip; [by unfold entry_written; rewrite Es| |done]. unfold entry_chunk. rewrite Es.
    by destruct (shown _ _ _ x).
Qed.

(** The state that [conf_write] starts from: nothing has changed since the last
    file, and then all values are calculated anew, or the values are those of
    the equations. *)
Definition write_ready (st : sym_state) : Prop :=
  if sym_change_count st =? 0 then table st ∧ listed st
  else inv rank t0 symbol_no mv sem unwritten fuel st.

Context (T : symtab) (HT : ∀ p s, t0 !! p = Some s → type (sym T p) = type s).
Context (CONFIG_ : cstring).

Lemma inv_unwritten st : inv rank t0 symbol_no mv sem unwritten fuel st →
  inv rank t0 symbol_no mv sem (λ p, p ∈ (∅ : gset symp)) fuel st.
Proof.
  intros [H1 H2 H3 H4 H5 H6 H7 Hunt H8]. split; try done. intros p s Hs Hr Hv. destruct (H8 p s Hs Hr Hv) as [Hc Hrest].
  split; [done|]. intros Hst Hu Ho. destruct (Hrest Hst Hu Ho) as (? & ? & ? & Hw). split_and!; try done.
  intros _. apply Hw. by intros ?.
Qed.

(** The text of the parts that the entries give, from the state that the walk
    starts from. *)
Lemma walk_ok n k f x st :
  solves rank t0 symbol_no mv sem → (∀ p, is_Some (t0 !! p) → rank p < fuel) →
  static_menu <$> menus st = L0 → menu_tree L0 f → 0 < n → length (preorder f) ≤ n → length (preorder f) ≤ k →
  (∀ a, a ∈ preorder f → ∃ x, L0 !! a = Some x ∧ entry_wf t0 x) →
  inv rank t0 symbol_no mv sem (λ p, p ∈ (∅ : gset symp)) fuel (msyms st) →
  menus st !! rootmenu = Some x →
  ∃ st' W', menu_walk n (conf_write_entry CONFIG_ fuel n) k (m_list x) st =
    Ret (chunk_texts CONFIG_ T (chunks t0 mv sem L0 ∅ (preorder f))) st' ∧
    writing fuel rank t0 symbol_no mv sem L0 W' st'.
Proof.
  intros Hsol Hrank Hm Ht Hn Hln Hlk Hwf Hi Hx.
  assert (Hlinks : same_links L0 (menus st)).
  { unfold same_links. rewrite <-Hm, <-map_fmap_compose. apply map_fmap_ext. intros. apply static_menu_links. }
  rewrite (walk_tree n _ k st f x (keeps_entry CONFIG_ fuel n) Hx); [| |done|done].
  - apply (collect_ok CONFIG_ fuel n Hn rank t0 symbol_no mv sem Hsol Hrank L0 T HT (preorder f) ∅ st); [|done].
    split; [done| |done]. intros p Hp. set_solver.
  - destruct Ht as (y & Hy & En & Ep & Hf). destruct (same_links_lookup _ _ _ _ Hlinks Hy) as (z & Hz & E1 & E2 & E3).
    exists z. rewrite E1, E2, E3. split_and!; [done..|]. by eapply forest_at_links.
Qed.

(** The symbols of the entries. *)
Definition in_tree (f : forest) (p : symp) : Prop :=
  ∃ a x, a ∈ preorder f ∧ L0 !! a = Some x ∧ m_sym x = Some p.

(** The tree of entries in a state: [rootmenu] has a title, its entries are
    well-formed and linked as the tree [f]. *)
Record entries_ok (st : menu_state) (f : forest) (title : cstring) : Prop := {
  eo_static : static_menu <$> menus st = L0;
  eo_tree : menu_tree L0 f;
  eo_wf : ∀ a, a ∈ preorder f → ∃ x, L0 !! a = Some x ∧ entry_wf t0 x;
  eo_title : ∃ x pr, menus st !! rootmenu = Some x ∧ m_prompt x = Some (Own_prompt pr) ∧ p_text pr = Some title;
}.

(** The parts of the file that a tree gives. *)
Definition file_chunks (f : forest) (title : cstring) : list chunk :=
  Heading title :: chunks t0 mv sem L0 ∅ (preorder f).

Lemma conf_write_text n k f title st :
  solves rank t0 symbol_no mv sem → (∀ p, is_Some (t0 !! p) → rank p < fuel) →
  entries_ok st f title → write_ready (msyms st) → length (preorder f) < n → length (preorder f) ≤ k →
  ∃ st', conf_write CONFIG_ fuel n k st = Ret (chunk_texts CONFIG_ T (file_chunks f title)) st' ∧
    sym_change_count (msyms st') = 0 ∧
    (∀ p, static <$> syms (stab (msyms st')) !! p = t0 !! p) ∧
    NoDup (assignments (file_chunks f title)).*1 ∧
    ∀ p v, (p, v) ∈ assignments (file_chunks f title) ↔ in_tree f p ∧ written_as p v.
Proof.
  intros Hsol Hrank [Hm Ht Hwf (x & pr & Hx & Hp & Htitle)] Hr Hn Hk.
  assert (Hready : ∃ s1, (if sym_change_count (msyms st) =? 0 then sym_clear_all_valid fuel else skip) (msyms st) =
    Ret tt s1 ∧ inv rank t0 symbol_no mv sem (λ p, p ∈ (∅ : gset symp)) fuel s1).
  { unfold write_ready in Hr. destruct (_ =? 0).
    - destruct Hr as [Htb Hl]. apply clear_inv; [|done|done]. destruct (tb_no _ Htb) as [sn Hsn].
      pose proof (tb_static _ Htb symbol_no) as E. rewrite Hsn in E. simpl in E.
      pose proof (Hrank symbol_no). rewrite <-E in H0. specialize (H0 (mk_is_Some _ _ eq_refl)). lia.
    - exists (msyms st). split; [done|by apply inv_unwritten]. }
  destruct Hready as (s1 & Hrun & Hi1).
  destruct (walk_ok n k f x (mkMenus s1 (menus st)) Hsol Hrank Hm Ht ltac:(lia) ltac:(lia) Hk Hwf Hi1 Hx)
    as (st2 & W & Hwalk & Hw).
  assert (Hknown : ∀ a, a ∈ preorder f → is_Some (L0 !! a)).
  { intros a Ha. destruct (Hwf a Ha) as (y & Hy & _). by exists y. }
  destruct (chunks_assigned (preorder f) ∅ Hknown) as [Hnd Hin].
  exists (mkMenus (mkSt (stab (msyms st2)) (modules_sym (msyms st2)) (modules_val (msyms st2))
    (changed_menus (msyms st2)) 0 (unmet (msyms st2))) (menus st2)).
  assert (Hroot : ∀ s, mload rootmenu (mkMenus s (menus st)) = Ret x (mkMenus s (menus st))).
  { intros s. unfold mload. simpl. by rewrite Hx. }
  split_and!; [|done|apply (wr_inv _ _ _ _ _ _ _ _ _ Hw)|exact Hnd|].
  - unfold conf_write, heading, mbind, Eff_bind. destruct st as [s0 L]. simpl in *. rewrite Hroot, Hp. simpl.
    rewrite Htitle. unfold on_syms, gets. simpl. rewrite Hrun, Hroot, Hwalk. done.
  - intros p v. unfold file_chunks, assignments in *. simpl. rewrite Hin.
    split; [intros (_ & ? & ?); by split|intros [? ?]; split_and!; [set_solver|done|done]].
Qed.

(** C2: Writing a configuration, of an acyclic table without choices and without
    a modules option. With a bound above the number of entries the
    walk along the links ends, and the file holds the heading, the titles of
    the menus and comments that are shown, and every symbol that the equations
    call for, once, with the value that they give it, in the order of the tree;
    nothing counts as changed afterwards. *)
Theorem conf_write_correct n k f title st :
  solves rank t0 symbol_no mv sem → (∀ p, is_Some (t0 !! p) → rank p < fuel) →
  entries_ok st f title → write_ready (msyms st) → length (preorder f) < n → length (preorder f) ≤ k →
  ∃ st', conf_write CONFIG_ fuel n k st = Ret (chunk_texts CONFIG_ T (file_chunks f title)) st' ∧
    sym_change_count (msyms st') = 0 ∧
    (∀ p, static <$> syms (stab (msyms st')) !! p = t0 !! p) ∧
    NoDup (assignments (file_chunks f title)).*1 ∧
    ∀ p v, (p, v) ∈ assignments (file_chunks f title) ↔ in_tree f p ∧ written_as p v.
Proof. apply conf_write_text. Qed.

End File.
