(* ===== verification/KconfigLoad.v ===== *)
(** * Kconfig: loading a configuration

    Translation of [conf_read] of [support/kconfig/confdata.c] from the open
    file on: the file is read, all symbols are calculated and compared with what
    the file says, and user values that no longer apply are dropped. *)

From stdpp Require Import base option strings gmap list.
From Stdlib Require Import ZArith Lia.
From S2P Require Import Prelude Effects KconfigExpr KconfigSymtab KconfigConf KconfigSym KconfigWrite.
Local Open Scope nat_scope.

Section Load.
Context (CONFIG_ : cstring) `{ValueBytes} (fuel : nat).

(** [conf_read_simple(name, S_DEF_USER)] with the calculation of [modules_sym]
    at its end; the number of warnings. *)
Definition read_file (stream : list Ascii.ascii) : M nat := λ st,
  match conf_read_simple CONFIG_ S_DEF_USER stream (mkConf (stab st) 0 (sym_change_count st)) with
  | None => NoFuel
  | Some c =>
      (_ ← calc_opt (sym_calc_value fuel) (modules_sym st); mret (conf_warnings c))
        (mkSt (tab c) (modules_sym st) (modules_val st) (changed_menus st) (change_count c) (unmet st))
  end.

(** The body of the first loop: whether the calculated value of a symbol
    disagrees with the saved one. *)
Definition unsaved (p : symp) : M bool :=
  _ ← sym_calc_value fuel p;
  s ← load p;
  if sym_is_choice s || has_flag SYMBOL_AUTO s then mret false
  else if sym_has_value s && has_flag SYMBOL_WRITE s then
    match type s with
    | S_BOOLEAN | S_TRISTATE => mret (bool_decide (tri (get_def S_DEF_USER s) ≠ tri (curr s)))
    | _ =>
        c ← cstr (val (curr s));
        d ← cstr (val (get_def S_DEF_USER s));
        mret (bool_decide (c ≠ d))
    end
  else mret (negb (negb (sym_has_value s) && negb (has_flag SYMBOL_WRITE s))).

Fixpoint count_unsaved (ps : list symp) (conf_unsaved : nat) : M nat :=
  match ps with
  | [] => mret conf_unsaved
  | p :: ps => b ← unsaved p; count_unsaved ps (if b : bool then S conf_unsaved else conf_unsaved)
  end.

(** Whether the user value of a symbol is outside its range. The range check of
    a string does not look at it. *)
Definition out_of_range (p : symp) : M bool :=
  s ← load p;
  match type s with
  | S_STRING | S_INT | S_HEX =>
      match val (get_def S_DEF_USER s) with
      | V_str d => ok ← sym_string_within_range fuel p d; mret (negb ok)
      | _ => if decide (type s = S_STRING) then mret false else fault
      end
  | _ => mret false
  end.

(** The body of the second loop: a generated value is to appear as new, a value
    out of range is dropped. *)
Definition drop_user (p : symp) (conf_unsaved : nat) : M nat :=
  s ← load p;
  if sym_has_value s && negb (sym_is_choice_value s) then
    _ ← when (bool_decide (visible s = tri_no) && (conf_unsaved =? 0))
          (store p (clear_flag SYMBOL_DEF_USER));
    bad ← out_of_range p;
    if bad : bool then
      _ ← store p (clear_flag (Z.lor SYMBOL_VALID SYMBOL_DEF_USER)); mret (S conf_unsaved)
    else mret conf_unsaved
  else mret conf_unsaved.

Fixpoint drop_all (ps : list symp) (conf_unsaved : nat) : M nat :=
  match ps with
  | [] => mret conf_unsaved
  | p :: ps => u ← drop_user p conf_unsaved; drop_all ps u
  end.

Definition conf_read (stream : list Ascii.ascii) : M unit :=
  _ ← set_change_count 0;
  conf_warnings ← read_file stream;
  ps ← gets (λ st, all_symbols (stab st));
  u ← count_unsaved ps 0;
  ps ← gets (λ st, all_symbols (stab st));
  u ← drop_all ps u;
  add_change_count (if (conf_warnings =? 0) && (u =? 0) then 0 else 1).

End Load.
