(* ===== verification/KconfigSteady.v ===== *)
(** * Kconfig symbols: what a calculation leaves alone

    Calculating a value neither changes the chains of the symbol table nor the
    count of changes; the loops over all symbols rely on it. *)

From stdpp Require Import base option strings gmap list.
From Stdlib Require Import ZArith.
From S2P Require Import Prelude Effects KconfigExpr KconfigSymtab KconfigConf KconfigSym KconfigLoad.
Local Open Scope nat_scope.

Definition steady {A} (c : M A) : Prop :=
  ∀ st a st', c st = Ret a st' →
    symbol_hash (stab st') = symbol_hash (stab st) ∧ sym_change_count st' = sym_change_count st.

Lemma steady_bind {A B} (c : M A) (f : A → M B) : steady c → (∀ a, steady (f a)) → steady (c ≫= f).
Proof.
  intros Hc Hf st b st'. unfold mbind, Eff_bind. destruct (c st) as [a st1| |] eqn:E; try done.
  intros H. destruct (Hc _ _ _ E) as [H1 H2]. destruct (Hf _ _ _ _ H) as [H3 H4]. split; congruence.
Qed.

Lemma steady_ret {A} (a : A) : steady (mret a).
Proof. by intros st b st' [= _ <-]. Qed.

Lemma steady_skip : steady skip.
Proof. apply steady_ret. Qed.

Lemma steady_fault {A} : steady (A := A) fault.
Proof. by intros st b st'. Qed.

Lemma steady_fuel {A} : steady (A := A) out_of_fuel.
Proof. by intros st b st'. Qed.

Lemma steady_gets {A} (f : sym_state → A) : steady (gets f).
Proof. by intros st b st' [= _ <-]. Qed.

Lemma steady_load p : steady (load p).
Proof. intros st a st'. unfold load. destruct (syms (stab st) !! p); [|done]. by intros [= _ <-]. Qed.

Lemma steady_store p f : steady (store p f).
Proof. intros st a st'. unfold store. destruct (syms (stab st) !! p); [|done]. by intros [= _ <-]. Qed.

Lemma steady_changed p : steady (sym_set_changed p).
Proof. intros st a st'. unfold sym_set_changed. destruct (syms (stab st) !! p); [|done]. by intros [= _ <-]. Qed.

Lemma steady_modules t : steady (set_modules_val t).
Proof. by intros st a st' [= _ <-]. Qed.

Lemma steady_unmet p : steady (report_unmet p).
Proof. by intros st a st' [= _ <-]. Qed.

Lemma steady_when b c : steady c → steady (when b c).
Proof. destruct b; [done|]. intros _. apply steady_skip. Qed.

Lemma steady_each {A} (f : A → M unit) l : (∀ a, steady (f a)) → steady (for_each f l).
Proof. intros Hf. induction l; simpl; [apply steady_skip|by apply steady_bind]. Qed.

Create HintDb steady.
#[export] Hint Resolve steady_ret steady_skip steady_fault steady_fuel steady_gets steady_load steady_store
  steady_changed steady_modules steady_unmet : steady.

Ltac steady :=
  repeat first
    [ solve [auto with steady]
    | apply steady_bind; [|intros ?]
    | apply steady_when
    | apply steady_each; intros ?
    | match goal with
      | |- steady (match ?x with _ => _ end) => destruct x
      | |- steady (let _ := _ in _) => cbv zeta
      end ].

Lemma steady_cstr v : steady (cstr v).
Proof. unfold cstr. steady. Qed.
Lemma steady_choice_of s : steady (choice_of s).
Proof. unfold choice_of. steady. Qed.
Lemma steady_choice_values s : steady (choice_values s).
Proof. unfold choice_values. steady. Qed.
Lemma steady_all_changed : steady sym_set_all_changed.
Proof. unfold sym_set_all_changed. steady. Qed.
Lemma steady_curr_tri p : steady (curr_tri p).
Proof. unfold curr_tri. steady. Qed.
Lemma steady_modules_tri : steady modules_tri.
Proof. unfold modules_tri. steady. Qed.
#[export] Hint Resolve steady_cstr steady_choice_of steady_choice_values steady_all_changed steady_curr_tri
  steady_modules_tri : steady.

Section Calc.
Context (calc : symp → M unit) (Hcalc : ∀ p, steady (calc p)).
Local Hint Resolve Hcalc : steady.

Lemma steady_opt p : steady (calc_opt calc p).
Proof. unfold calc_opt. steady. Qed.
Local Hint Resolve steady_opt : steady.

Lemma steady_string p : steady (sym_get_string_value calc p).
Proof. unfold sym_get_string_value. steady. Qed.
Local Hint Resolve steady_string : steady.

Lemma steady_expr e : steady (calc_expr calc e).
Proof. induction e; simpl; unfold same_strings; steady. Qed.
Local Hint Resolve steady_expr : steady.

Lemma steady_expr_opt e : steady (calc_expr_opt calc e).
Proof. unfold calc_expr_opt. steady. Qed.
Local Hint Resolve steady_expr_opt : steady.

Lemma steady_prop_visible p i pr : steady (calc_prop_visible calc p i pr).
Proof. unfold calc_prop_visible. steady. Qed.
Local Hint Resolve steady_prop_visible : steady.

Lemma steady_visible_prop t p n i : steady (visible_prop calc t p n i).
Proof. revert i. induction n as [|n IH]; intros i; simpl; steady. Qed.
Lemma steady_get_visible t p : steady (sym_get_visible_prop calc t p).
Proof. unfold sym_get_visible_prop. steady. apply steady_visible_prop. Qed.
Lemma steady_default p : steady (sym_get_default_prop calc p).
Proof. apply steady_get_visible. Qed.
Lemma steady_range_prop p : steady (sym_get_range_prop calc p).
Proof. apply steady_get_visible. Qed.
Lemma steady_prompts p n i acc : steady (prompts_visible calc p n i acc).
Proof. revert i acc. induction n as [|n IH]; intros i acc; simpl; steady. Qed.
Lemma steady_update p get set t : steady (update_tri p get set t).
Proof. unfold update_tri. steady. Qed.
Local Hint Resolve steady_default steady_range_prop steady_prompts steady_update : steady.

Lemma steady_visibility p : steady (sym_calc_visibility calc p).
Proof. unfold sym_calc_visibility. steady. Qed.
Local Hint Resolve steady_visibility : steady.

Lemma steady_range_val p b : steady (sym_get_range_val calc p b).
Proof. unfold sym_get_range_val, curr_strtoll. steady. Qed.
Local Hint Resolve steady_range_val : steady.

Lemma steady_range p : steady (sym_validate_range calc p).
Proof. unfold sym_validate_range, validate_number, curr_strtoll, range_syms, store_number. steady. Qed.

Lemma steady_first_visible ps : steady (first_visible ps).
Proof. induction ps; simpl; steady. Qed.
Lemma steady_choice_prop p n i : steady (choice_default_prop calc p n i).
Proof. revert i. induction n as [|n IH]; intros i; simpl; steady. Qed.
Lemma steady_choice_flags vs fl : steady (choice_flags calc vs fl).
Proof. revert fl. induction vs as [|v vs IH]; intros fl; simpl; steady. Qed.
Local Hint Resolve steady_range steady_first_visible steady_choice_prop steady_choice_flags : steady.

Lemma steady_choice p : steady (sym_calc_choice calc p).
Proof. unfold sym_calc_choice, user_choice, sym_choice_default. steady. Qed.
Local Hint Resolve steady_choice : steady.

Lemma steady_newvalue p v : steady (calc_newvalue calc p v).
Proof. unfold calc_newvalue, calc_tristate, calc_string, calc_newval, and_calc, set_write. steady. Qed.
Local Hint Resolve steady_newvalue : steady.

Context `{ValueBytes}.

Lemma steady_body p : steady (calc_body calc p).
Proof.
  unfold calc_body, calc_rest, note_change, update_choice_values, clear_auto, serve_request, set_all_choice_values, set_write.
  steady.
Qed.

End Calc.

Lemma steady_calc `{ValueBytes} fuel p : steady (sym_calc_value fuel p).
Proof.
  revert p. induction fuel as [|fuel IH]; intros p; simpl; [apply steady_fuel|]. by apply steady_body.
Qed.
#[export] Hint Resolve steady_calc : steady.

Lemma steady_count `{ValueBytes} fuel ps u : steady (count_unsaved fuel ps u).
Proof. revert u. induction ps as [|p ps IH]; intros u; simpl; unfold unsaved; steady. Qed.

Lemma steady_within `{ValueBytes} fuel p str : steady (sym_string_within_range fuel p str).
Proof.
  unfold sym_string_within_range, number_within_range, range_syms, sym_tristate_within_range.
  assert (Hr : ∀ p, steady (sym_get_range_prop (sym_calc_value fuel) p)) by (intros; apply steady_range_prop; auto with steady).
  assert (Hv : ∀ p b, steady (sym_get_range_val (sym_calc_value fuel) p b)) by (intros; apply steady_range_val; auto with steady).
  steady.
Qed.
#[export] Hint Resolve steady_within : steady.

Lemma steady_drop `{ValueBytes} fuel ps u : steady (drop_all fuel ps u).
Proof.
  revert u. induction ps as [|p ps IH]; intros u; simpl; unfold drop_user, out_of_range; steady.
Qed.
