(* ===== verification/KconfigLoadSpec.v ===== *)
(** * Kconfig: saving and loading

    A configuration that is written and read back is the same configuration:
    the written values solve the equations again, and [conf_read] finds nothing
    that is unsaved. *)

From stdpp Require Import base option strings gmap list.
From Stdlib Require Import ZArith Ascii Lia.
From S2P Require Import Prelude Effects KconfigExpr KconfigSymtab KconfigConf KconfigConfSpec KconfigSym KconfigSymTerm.
From S2P Require Import KconfigSymSpec KconfigSymSet KconfigMenu KconfigWrite KconfigWriteSpec KconfigLoad KconfigSteady.
Local Open Scope nat_scope.

(** ** The equations look at the types pointwise *)

Section Types.
Context (mv : tristate) (ty ty' : symp → symbol_type) (sem : symp → symbol_value).
Context (Hty : ∀ p, ty p = ty' p).

Lemma ev_ty e : ev mv ty sem e = ev mv ty' sem e.
Proof.
  destruct e as [e|]; [|done]. unfold ev, expr_calc_value_opt.
  induction e; simpl in *; rewrite ?Hty; congruence.
Qed.

Lemma find_ty t l : find_visible mv ty sem t l = find_visible mv ty' sem t l.
Proof. induction l as [|pr l IH]; [done|]. simpl. by rewrite ev_ty, IH. Qed.

Lemma vis_ty s : vis_spec mv ty sem s = vis_spec mv ty' sem s.
Proof.
  unfold vis_spec.
  assert (E : ∀ acc, foldl (prompt_or mv ty sem) acc (props s) = foldl (prompt_or mv ty' sem) acc (props s)).
  { induction (props s) as [|pr l IH]; intros acc; [done|]. simpl. rewrite IH. unfold prompt_or at 2 4.
    by rewrite ev_ty. }
  by rewrite E.
Qed.

Lemma dir_ty s : dir_spec mv ty sem s = dir_spec mv ty' sem s.
Proof. unfold dir_spec. by rewrite ev_ty. Qed.

Lemma rev_ty s : rev_spec mv ty sem s = rev_spec mv ty' sem s.
Proof. unfold rev_spec. destruct (ev_expr (rev_dep s)); [by rewrite ev_ty|done]. Qed.

Lemma user_ty s : user_wins mv ty sem s = user_wins mv ty' sem s.
Proof. unfold user_wins. by rewrite vis_ty. Qed.

Lemma tri_ty s : tri_spec mv ty sem s = tri_spec mv ty' sem s.
Proof.
  unfold tri_spec. rewrite user_ty, vis_ty, rev_ty, find_ty.
  destruct (find_visible mv ty' sem P_DEFAULT (props s)) as [[e v]|]; [by rewrite ev_ty|done].
Qed.

Lemma number_ty p base : number ty sem p base = number ty' sem p base.
Proof. unfold number. by rewrite Hty. Qed.

Lemma value_ty s : value_spec mv ty sem s = value_spec mv ty' sem s.
Proof.
  unfold value_spec, clamp_spec, clamp_number, raw_spec. rewrite tri_ty, user_ty, !find_ty.
  destruct (find_visible mv ty' sem P_RANGE (props s)) as [[[[]|] v]|]; by rewrite ?number_ty.
Qed.

Lemma write_ty s : write_spec mv ty sem s = write_spec mv ty' sem s.
Proof. unfold write_spec. by rewrite vis_ty, rev_ty, find_ty. Qed.

End Types.

(** ** What the Kconfig files say about a symbol *)

Definition decl_flags : Z :=
  Z.lnot (Z.lor SYMBOL_VALID (Z.lor SYMBOL_WRITE (Z.lor SYMBOL_CHANGED SYMBOL_DEF_USER))).

(** A symbol without what was calculated and without its user value. *)
Definition decl (s : symbol) : symbol :=
  mkSym (name s) (type s) (mkVal V_null tri_no) [] tri_no (Z.land (flags s) decl_flags)
    (erase <$> props s) (mkEV (ev_expr (dir_dep s)) tri_no) (mkEV (ev_expr (rev_dep s)) tri_no).

Lemma has_flag_decl f s : Z.land f decl_flags = f → has_flag f (decl s) = has_flag f s.
Proof.
  intros H. unfold has_flag. simpl. rewrite <-Z.land_assoc, (Z.land_comm decl_flags), H. done.
Qed.

Lemma decl_static s : decl (static s) = decl s.
Proof.
  assert (E : erase <$> (erase <$> props s) = erase <$> props s).
  { rewrite <-list_fmap_compose. by apply list_fmap_ext. }
  assert (F : Z.land (Z.land (flags s) static_flags) decl_flags = Z.land (flags s) decl_flags).
  { rewrite <-Z.land_assoc. reflexivity. }
  unfold decl, static. cbn [name type flags props dir_dep rev_dep ev_expr]. by rewrite E, F.
Qed.

Section Decl.
Context (mv : tristate) (ty : symp → symbol_type) (sem : symp → symbol_value) (s s' : symbol).
Context (Hdecl : decl s = decl s').

Lemma decl_fields : name s = name s' ∧ type s = type s' ∧ erase <$> props s = erase <$> props s' ∧
  ev_expr (dir_dep s) = ev_expr (dir_dep s') ∧ ev_expr (rev_dep s) = ev_expr (rev_dep s') ∧
  Z.land (flags s) decl_flags = Z.land (flags s') decl_flags.
Proof. unfold decl in Hdecl. injection Hdecl as ??????. split_and!; done. Qed.

Lemma decl_flag f : Z.land f decl_flags = f → has_flag f s = has_flag f s'.
Proof. intros Hf. by rewrite <-(has_flag_decl f s), <-(has_flag_decl f s'), Hdecl. Qed.

Lemma decl_find t : find_visible mv ty sem t (props s) = find_visible mv ty sem t (props s').
Proof. destruct decl_fields as (_ & _ & E & _). by rewrite <-(find_static mv ty sem t (props s)), E, find_static. Qed.

Lemma decl_vis : vis_spec mv ty sem s = vis_spec mv ty sem s'.
Proof.
  destruct decl_fields as (_ & Et & E & _). unfold vis_spec.
  by rewrite <-(prompts_static mv ty sem _ (props s)), E, prompts_static, Et.
Qed.

Lemma decl_rev : rev_spec mv ty sem s = rev_spec mv ty sem s'.
Proof. destruct decl_fields as (_ & Et & _ & _ & Er & _). unfold rev_spec, type_spec. by rewrite Er, Et. Qed.

Lemma decl_dir : dir_spec mv ty sem s = dir_spec mv ty sem s'.
Proof. destruct decl_fields as (_ & _ & _ & Ed & _). unfold dir_spec. by rewrite Ed. Qed.

Lemma decl_write : write_spec mv ty sem s = write_spec mv ty sem s'.
Proof.
  destruct decl_fields as (_ & Et & _). unfold write_spec.
  by rewrite (decl_flag SYMBOL_AUTO), decl_vis, decl_rev, decl_find, Et by done.
Qed.

Lemma deps_erase : deps s = deps s'.
Proof.
  destruct decl_fields as (_ & _ & Ep & Ed & Er & _). unfold deps. rewrite Ed, Er. f_equal.
  assert (E : ∀ l, l ≫= prop_deps = (erase <$> l) ≫= prop_deps).
  { induction l as [|pr l IH]; [done|]. cbn. by rewrite IH. }
  by rewrite (E (props s)), Ep, <-E.
Qed.

End Decl.

(** ** Saved values solve the equations again *)

Section Stable.
Context (ty : symp → symbol_type) (sem : symp → symbol_value).

(** A range that is not empty; a hexadecimal one is not negative. *)
Definition range_fits (s : symbol) : Prop :=
  ∀ l r v, find_visible tri_no ty sem P_RANGE (props s) = Some (Some (E_RANGE l r), v) →
    let base := range_base (type s) 0 in
    (number ty sem l base ≤ number ty sem r base)%Z ∧ (type s = S_HEX → 0 ≤ number ty sem l base)%Z.

(** The user value of a symbol after its value [v] was saved, if it was. *)
Definition saved (w : bool) (v : symbol_value) (s : symbol) : Prop :=
  sym_has_value s = w ∧
  (w = true → match type s with
              | S_BOOLEAN | S_TRISTATE => tri (get_def S_DEF_USER s) = tri v
              | _ => val (get_def S_DEF_USER s) = val v
              end).

Lemma vis_not_mod s : vis_spec tri_no ty sem s ≠ tri_mod.
Proof.
  unfold vis_spec. case_decide as E; [done|]. intros Hm. apply E. split; [exact Hm|by right].
Qed.

Lemma type_no_modules s : type s = S_BOOLEAN ∨ type s = S_TRISTATE → type_spec tri_no s = S_BOOLEAN.
Proof. unfold type_spec. by intros [-> | ->]. Qed.

Lemma rev_not_mod s : type s = S_BOOLEAN ∨ type s = S_TRISTATE → rev_spec tri_no ty sem s ≠ tri_mod.
Proof.
  intros Ht. unfold rev_spec. rewrite type_no_modules by done.
  case_decide as E; [done|]. intros Hm. by apply E.
Qed.

Lemma tri_not_mod s : type s = S_BOOLEAN ∨ type s = S_TRISTATE → tri_spec tri_no ty sem s ≠ tri_mod.
Proof.
  intros Ht. unfold tri_spec. rewrite type_no_modules by done.
  case_decide as E; [done|]. intros Hm. by apply E.
Qed.

(** A visible symbol that is set to its value keeps it. *)
Lemma tri_stable s s' :
  decl s' = decl s → type s = S_BOOLEAN ∨ type s = S_TRISTATE →
  vis_spec tri_no ty sem s ≠ tri_no → sym_has_value s' = true →
  tri (get_def S_DEF_USER s') = tri_spec tri_no ty sem s →
  tri_spec tri_no ty sem s' = tri_spec tri_no ty sem s.
Proof.
  intros Hd Ht Hv Hu Hval. destruct (decl_fields _ _ Hd) as (_ & Et & _).
  pose proof (vis_not_mod s) as Hvm. pose proof (rev_not_mod s Ht) as Hr. pose proof (tri_not_mod s Ht) as Hm.
  assert (Htop : EXPR_OR (tri_spec tri_no ty sem s) (rev_spec tri_no ty sem s) = tri_spec tri_no ty sem s).
  { unfold tri_spec. rewrite type_no_modules by done.
    generalize (if user_wins tri_no ty sem s then EXPR_AND (tri (get_def S_DEF_USER s)) (vis_spec tri_no ty sem s)
      else match find_visible tri_no ty sem P_DEFAULT (props s) with
           | Some (e, v) => EXPR_AND (ev tri_no ty sem e) v | None => tri_no end).
    intros x. by destruct x, (rev_spec tri_no ty sem s). }
  revert Hval. generalize dependent (tri_spec tri_no ty sem s). intros v Hm Htop Hval.
  unfold tri_spec. rewrite (type_no_modules s') by (by rewrite Et).
  unfold user_wins. rewrite (decl_vis tri_no ty sem _ _ Hd), (decl_rev tri_no ty sem _ _ Hd), Hu, Hval.
  rewrite bool_decide_true by done. cbn [andb].
  by destruct v, (vis_spec tri_no ty sem s), (rev_spec tri_no ty sem s).
Qed.

Lemma clamp_decl s s' v : decl s' = decl s → clamp_spec tri_no ty sem s' v = clamp_spec tri_no ty sem s v.
Proof.
  intros Hd. destruct (decl_fields _ _ Hd) as (_ & Et & _). unfold clamp_spec, clamp_number.
  by rewrite (decl_find tri_no ty sem _ _ Hd), Et.
Qed.

(** A number in its range is not moved. *)
Lemma clamp_stable s x : range_fits s → is_text (type s) →
  clamp_spec tri_no ty sem s (clamp_spec tri_no ty sem s (V_str x)) = clamp_spec tri_no ty sem s (V_str x).
Proof.
  intros Hr Ht. destruct Ht as [Ht|[Ht|Ht]]; [| |unfold clamp_spec; by rewrite Ht].
  all: destruct (find_visible tri_no ty sem P_RANGE (props s)) as [[[[]|] v]|] eqn:E;
    try (unfold clamp_spec, clamp_number; by rewrite Ht, E).
  all: match type of E with _ = Some (Some (E_RANGE ?l ?r), _) =>
    destruct (Hr l r v E) as [Hle Hh];
    destruct (clamped tri_no ty sem s l r v x ltac:(tauto) E Hle Hh) as (y & -> & Hlo & Hhi) end.
  all: unfold clamp_spec, clamp_number; rewrite Ht, E; rewrite Ht in Hlo, Hhi; cbn zeta in *.
  all: cbn [as_str]; by rewrite (proj2 (Z.leb_le _ _) Hlo), (proj2 (Z.leb_le _ _) Hhi).
Qed.

Lemma value_saved s s' :
  decl s' = decl s → saved (write_spec tri_no ty sem s) (value_spec tri_no ty sem s) s' →
  (has_flag SYMBOL_AUTO s = true → vis_spec tri_no ty sem s = tri_no) →
  range_fits s → (is_text (type s) → ∃ x, raw_spec tri_no ty sem s = V_str x) →
  value_spec tri_no ty sem s' = value_spec tri_no ty sem s.
Proof.
  intros Hd [Hu Hval] Hauto Hr Hraw. destruct (decl_fields _ _ Hd) as (En & Et & _). rewrite Et in Hval.
  assert (Hw : vis_spec tri_no ty sem s ≠ tri_no → write_spec tri_no ty sem s = true).
  { intros Hv. unfold write_spec. rewrite (bool_decide_true (vis_spec _ _ _ _ ≠ _)) by done. simpl.
    destruct (has_flag SYMBOL_AUTO s); [by destruct Hv; apply Hauto|done]. }
  assert (Hlose : vis_spec tri_no ty sem s = tri_no →
    user_wins tri_no ty sem s' = false ∧ user_wins tri_no ty sem s = false).
  { intros Hv. unfold user_wins. by rewrite (decl_vis tri_no ty sem _ _ Hd), Hv. }
  assert (Htri : type s = S_BOOLEAN ∨ type s = S_TRISTATE → tri_spec tri_no ty sem s' = tri_spec tri_no ty sem s).
  { intros Ht. destruct (decide (vis_spec tri_no ty sem s = tri_no)) as [Hv|Hv].
    - destruct (Hlose Hv) as [H1 H2]. unfold tri_spec, type_spec.
      by rewrite H1, H2, (decl_rev tri_no ty sem _ _ Hd), (decl_find tri_no ty sem _ _ Hd), Et.
    - specialize (Hval (Hw Hv)). apply tri_stable; [done|done|done|by rewrite Hu, Hw|].
      unfold value_spec in Hval. by destruct Ht as [Ht|Ht]; rewrite Ht in Hval. }
  assert (Htxt : is_text (type s) → clamp_spec tri_no ty sem s' (raw_spec tri_no ty sem s') =
    clamp_spec tri_no ty sem s (raw_spec tri_no ty sem s)).
  { intros Ht. rewrite (clamp_decl _ _ _ Hd). destruct (decide (vis_spec tri_no ty sem s = tri_no)) as [Hv|Hv].
    - destruct (Hlose Hv) as [H1 H2]. unfold raw_spec. by rewrite H1, H2, (decl_find tri_no ty sem _ _ Hd).
    - specialize (Hval (Hw Hv)). destruct (Hraw Ht) as [x Hx]. rewrite Hx.
      assert (raw_spec tri_no ty sem s' = clamp_spec tri_no ty sem s (V_str x)) as ->.
      { unfold raw_spec, user_wins. rewrite (decl_vis tri_no ty sem _ _ Hd), Hu, (Hw Hv).
        rewrite bool_decide_true by done. simpl. unfold value_spec in Hval. rewrite Hx in Hval.
        by destruct Ht as [Ht|[Ht|Ht]]; rewrite Ht in Hval. }
      by apply clamp_stable. }
  unfold value_spec. rewrite Et, En. unfold is_text in Htxt.
  destruct (type s) eqn:E; try done; f_equal; auto 6.
Qed.

End Stable.

(** ** The table after reading *)

Section Read.
Context (rank : symp → nat) (t0 : gmap symp symbol) (sem : symp → symbol_value).
Context (Hsol : solves rank t0 symbol_no tri_no sem).
Context (asg : gmap symp cstring).

(** The symbols that are written, with their values. *)
Definition saves : Prop :=
  ∀ p s, t0 !! p = Some s → is_static p = false →
    asg !! p = if write_spec tri_no (ty t0) sem s then Some (str_spec tri_no (type s) (sem p)) else None.

(** What reading makes of a symbol. *)
Definition after_read (p : symp) (s : symbol) : symbol :=
  let s := if is_static p then s else reset_symbol S_DEF_USER s in
  match asg !! p with Some v => stored S_DEF_USER v s | None => s end.

Lemma decl_add f s : Z.land f decl_flags = 0%Z → decl (add_flag f s) = decl s.
Proof.
  intros H. unfold decl. cbn [name type flags props dir_dep rev_dep add_flag set_flags]. f_equal.
  by rewrite Z.land_lor_distr_l, H, Z.lor_0_r.
Qed.

Lemma decl_clear f s : Z.land f decl_flags = 0%Z → decl (clear_flag f s) = decl s.
Proof.
  intros H. unfold decl. cbn [name type flags props dir_dep rev_dep clear_flag set_flags]. f_equal.
  apply Z.bits_inj'. intros k _. apply (f_equal (λ z, Z.testbit z k)) in H. rewrite Z.land_spec, Z.bits_0 in H.
  rewrite !Z.land_spec, Z.ldiff_spec.
  destruct (Z.testbit (flags s) k), (Z.testbit f k), (Z.testbit decl_flags k); done.
Qed.

Lemma decl_stored v s : decl (stored S_DEF_USER v s) = decl s.
Proof.
  unfold stored. change (def_flags S_DEF_USER) with SYMBOL_DEF_USER. rewrite decl_add by done.
  by destruct (type s).
Qed.

Lemma decl_reset s : decl (reset_symbol S_DEF_USER s) = decl s.
Proof.
  unfold reset_symbol. change (def_flags S_DEF_USER) with SYMBOL_DEF_USER. case_decide; [done|].
  assert (Hd : ∀ v x, decl (set_def S_DEF_USER v x) = decl x) by done. rewrite Hd.
  destruct (sym_is_choice _); rewrite ?decl_add, ?decl_clear, ?decl_add by done; done.
Qed.

Lemma decl_after p s : decl (after_read p s) = decl s.
Proof.
  unfold after_read. destruct (asg !! p); rewrite ?decl_stored; destruct (is_static p); rewrite ?decl_reset; done.
Qed.

(** The table before the file is read declares the same symbols as [t0]. *)
Context (S : gmap symp symbol).
Context (HS : ∀ p, decl <$> S !! p = decl <$> t0 !! p).
Context (Hdefs : ∀ p s, S !! p = Some s → length (def s) = S_DEF_COUNT).
Context (Hother : ∀ p s, S !! p = Some s → is_static p = false → type s ≠ S_OTHER).
Context (Hasg : saves).

Lemma declared p s : S !! p = Some s → ∃ s0, t0 !! p = Some s0 ∧ decl s = decl s0.
Proof.
  intros Hs. pose proof (HS p) as E. rewrite Hs in E. symmetry in E. apply fmap_Some in E as (s0 & H0 & E). eauto.
Qed.

Lemma declared_back p s0 : t0 !! p = Some s0 → ∃ s, S !! p = Some s ∧ decl s = decl s0.
Proof.
  intros Hs. pose proof (HS p) as E. rewrite Hs in E. apply fmap_Some in E as (s & H0 & E). eauto.
Qed.

Definition read_table : gmap symp symbol := map_imap (λ p s, Some (static (after_read p s))) S.

Lemma read_lookup p : read_table !! p = (λ s, static (after_read p s)) <$> S !! p.
Proof. unfold read_table. rewrite map_lookup_imap. by destruct (S !! p). Qed.

Lemma read_ty p : ty read_table p = ty t0 p.
Proof.
  unfold ty. rewrite read_lookup. destruct (S !! p) as [s|] eqn:Es; simpl.
  - destruct (declared p s Es) as (s0 & -> & E). simpl. destruct (decl_fields _ _ E) as (_ & <- & _).
    by destruct (decl_fields _ _ (decl_after p s)) as (_ & -> & _).
  - pose proof (HS p) as E. rewrite Es in E. destruct (t0 !! p); done.
Qed.

Lemma no_choice p s0 s : t0 !! p = Some s0 → is_static p = false → decl s = decl s0 →
  sym_is_choice s = false ∧ sym_is_choice_value s = false.
Proof.
  intros Hp Hst E. destruct (choice_flags_off rank t0 symbol_no tri_no sem Hsol p s0 Hp Hst s0) as (H1 & H2 & _).
  { by apply (wf_static _ _ _ _ (sol_wf _ _ _ _ _ Hsol p s0 Hp Hst)). }
  unfold sym_is_choice, sym_is_choice_value in *. by rewrite !(decl_flag _ _ E) by done.
Qed.

Lemma has_value_reset s : type s ≠ S_OTHER → sym_is_choice s = false →
  sym_has_value (reset_symbol S_DEF_USER s) = false.
Proof.
  intros Ht Hc. unfold reset_symbol. change (def_flags S_DEF_USER) with SYMBOL_DEF_USER. rewrite decide_False by done.
  assert (sym_is_choice (clear_flag (Z.lor SYMBOL_DEF_USER SYMBOL_VALID) (add_flag SYMBOL_CHANGED s)) = false) as ->.
  { unfold sym_is_choice in *. by rewrite has_flag_clear, has_flag_add by done. }
  by apply (has_flag_clear_sub SYMBOL_DEF_USER).
Qed.

Lemma reset_def_length s : length (def (reset_symbol S_DEF_USER s)) = length (def s).
Proof.
  unfold reset_symbol. case_decide; [done|]. destruct (sym_is_choice _); simpl; by rewrite length_insert.
Qed.

Lemma stored_user v s :
  length (def s) = S_DEF_COUNT →
  sym_has_value (stored S_DEF_USER v s) = true ∧
  match type s with
  | S_BOOLEAN | S_TRISTATE => tri (get_def S_DEF_USER (stored S_DEF_USER v s)) = tri_of v
  | _ => val (get_def S_DEF_USER (stored S_DEF_USER v s)) = V_str v
  end.
Proof.
  intros Hl. split.
  { unfold stored, sym_has_value. change (def_flags S_DEF_USER) with SYMBOL_DEF_USER. by apply has_flag_add_self. }
  assert (Hget : ∀ x, get_def S_DEF_USER (set_def S_DEF_USER x s) = x).
  { intros x. unfold get_def, set_def. cbn [def]. rewrite list_lookup_insert_eq; [done|].
    rewrite Hl. unfold S_DEF_USER, S_DEF_COUNT. lia. }
  unfold stored. destruct (type s); unfold set_def_tri, set_def_val;
    change (get_def S_DEF_USER (add_flag ?f ?x)) with (get_def S_DEF_USER x); by rewrite Hget.
Qed.

Lemma after_saved p s s0 :
  S !! p = Some s → t0 !! p = Some s0 → is_static p = false →
  saved (write_spec tri_no (ty t0) sem s0) (sem p) (after_read p s).
Proof.
  intros Hs H0 Hst. destruct (declared p s Hs) as (s0' & H0' & E). assert (s0' = s0) as -> by congruence.
  destruct (no_choice p s0 s H0 Hst E) as [Hc _].
  assert (Hv : sym_has_value (reset_symbol S_DEF_USER s) = false).
  { apply has_value_reset; [by eapply Hother|done]. }
  unfold after_read. rewrite Hst, (Hasg p s0 H0 Hst).
  destruct (write_spec tri_no (ty t0) sem s0) eqn:Ew; [|by split].
  set (v := str_spec tri_no (type s0) (sem p)).
  destruct (stored_user v (reset_symbol S_DEF_USER s)) as [Hu Hd].
  { rewrite reset_def_length. by eapply Hdefs. }
  split; [done|]. intros _.
  destruct (decl_fields _ _ (eq_trans (decl_stored v _) (eq_trans (decl_reset s) E))) as (_ & Et & _).
  destruct (decl_fields _ _ (eq_trans (decl_reset s) E)) as (_ & Et' & _).
  rewrite Et. rewrite Et' in Hd.
  assert (Htri : type s0 = S_BOOLEAN ∨ type s0 = S_TRISTATE → tri_of v = tri (sem p)).
  { intros Ht. pose proof (tri_not_mod (ty t0) sem s0 Ht) as Hm. unfold v.
    rewrite (sol_eq _ _ _ _ _ Hsol p s0 H0 Hst). unfold value_spec.
    destruct Ht as [Ht|Ht]; rewrite Ht; simpl; by destruct (tri_spec tri_no (ty t0) sem s0). }
  assert (Htxt : type s0 ≠ S_BOOLEAN → type s0 ≠ S_TRISTATE → V_str v = val (sem p)).
  { intros Hb Ht. destruct (sol_str _ _ _ _ _ Hsol p s0 H0) as [x Hx]. unfold v, str_spec. rewrite Hx.
    by destruct (type s0). }
  destruct (type s0) eqn:Ety; rewrite Hd; auto.
Qed.

Lemma static_static s : static (static s) = static s.
Proof.
  assert (E : erase <$> (erase <$> props s) = erase <$> props s).
  { rewrite <-list_fmap_compose. by apply list_fmap_ext. }
  assert (F : Z.land (Z.land (flags s) static_flags) static_flags = Z.land (flags s) static_flags).
  { rewrite <-Z.land_assoc. reflexivity. }
  unfold static. cbn [name type def flags props dir_dep rev_dep ev_expr]. by rewrite E, F.
Qed.

Lemma erased_in pr (l l' : list property) : erase <$> l = erase <$> l' → pr ∈ l → ∃ pr', pr' ∈ l' ∧ erase pr = erase pr'.
Proof.
  intros E Hpr. apply (list_elem_of_fmap_2 erase) in Hpr. rewrite E in Hpr.
  apply list_elem_of_fmap in Hpr as (pr' & H1 & H2). eauto.
Qed.

(** Environment symbols have no visible prompt, ranges are not empty. *)
Context (Hauto : ∀ p s, t0 !! p = Some s → is_static p = false →
  has_flag SYMBOL_AUTO s = true → vis_spec tri_no (ty t0) sem s = tri_no).
Context (Hrange : ∀ p s, t0 !! p = Some s → is_static p = false → range_fits (ty t0) sem s).

Lemma read_wf p s s0 :
  S !! p = Some s → t0 !! p = Some s0 → is_static p = false →
  sym_wf rank read_table p (static (after_read p s)).
Proof.
  intros Hs H0 Hst. destruct (declared p s Hs) as (s0' & H0' & E). assert (s0' = s0) as -> by congruence.
  pose proof (sol_wf _ _ _ _ _ Hsol p s0 H0 Hst) as [_ Wd Wf Wr Wu].
  assert (E1 : decl (static (after_read p s)) = decl s0) by (rewrite decl_static, decl_after; done).
  destruct (decl_fields _ _ E1) as (_ & Et & Ep & _ & _ & Ef). destruct (after_saved p s s0 Hs H0 Hst) as [Hu Hv].
  split.
  - apply static_static.
  - rewrite (deps_erase _ _ E1). intros d Hd. destruct (Wd d Hd) as [Hr [sd Hsd]]. split; [done|].
    destruct (declared_back d sd Hsd) as (x & Hx & _). rewrite read_lookup, Hx. by eexists.
  - assert (Hm : ∀ x, Z.land x choice_flags_mask = Z.land (Z.land x decl_flags) choice_flags_mask).
    { intros x. rewrite <-Z.land_assoc. reflexivity. }
    by rewrite Hm, Ef, <-Hm.
  - intros pr Hpr Hty. destruct (erased_in pr _ _ Ep Hpr) as (pr' & Hin & Epr).
    assert (p_type pr' = P_RANGE) by (by injection Epr as <-). assert (p_expr pr = p_expr pr') as -> by (by injection Epr).
    by apply Wr.
  - intros Hty Hh. unfold sym_has_value in Hh. rewrite has_flag_static in Hh by done.
    unfold sym_has_value in Hu. rewrite <-Hu in Hv. specialize (Hv Hh).
    destruct (sol_str _ _ _ _ _ Hsol p s0 H0) as [x Hx]. rewrite Hx in Hv.
    change (type (after_read p s)) with (type (static (after_read p s))) in Hv.
    exists x. by destruct Hty as [Ht|[Ht|Ht]]; rewrite Ht in Hv.
Qed.

Lemma read_solves : solves rank read_table symbol_no tri_no sem.
Proof.
  assert (Hin : ∀ p s1, read_table !! p = Some s1 →
    ∃ s s0, S !! p = Some s ∧ t0 !! p = Some s0 ∧ s1 = static (after_read p s) ∧ decl s = decl s0).
  { intros p s1 H1. rewrite read_lookup in H1. apply fmap_Some in H1 as (s & Hs & ->).
    destruct (declared p s Hs) as (s0 & H0 & E). by exists s, s0. }
  split.
  - intros p s1 (s & s0 & Hs & H0 & -> & E)%Hin Hst. by eapply read_wf.
  - intros p s1 (s & s0 & Hs & H0 & -> & E)%Hin Hst.
    rewrite (value_ty tri_no _ _ sem read_ty), value_static, (value_saved (ty t0) sem s0).
    + by apply (sol_eq _ _ _ _ _ Hsol).
    + by rewrite decl_after.
    + rewrite <-(sol_eq _ _ _ _ _ Hsol p s0 H0 Hst). by apply after_saved.
    + by apply Hauto with p.
    + by apply Hrange with p.
    + by apply (raw_str _ _ _ _ _ Hsol (rank p) p s0 H0 Hst eq_refl).
  - intros p s1 (s & s0 & Hs & H0 & -> & E)%Hin. by apply (sol_str _ _ _ _ _ Hsol p s0).
  - apply Hsol.
Qed.

End Read.

(** ** The loops over all symbols *)

Section Check.
Context `{ValueBytes} (fuel : nat) (rank : symp → nat) (sem : symp → symbol_value).

(** [t] is solved and its calculation is the one that the state is in. *)
Definition calculating (t : gmap symp symbol) (st : sym_state) : Prop :=
  inv rank t symbol_no tri_no sem unwritten fuel st.

Definition small_ranks (t : gmap symp symbol) : Prop := ∀ p, is_Some (t !! p) → rank p < fuel.

Section Unsaved.
Context (t : gmap symp symbol) (Hsol : solves rank t symbol_no tri_no sem) (Hrank : small_ranks t).
Context (Hsaved : ∀ p s, t !! p = Some s → is_static p = false →
  saved (write_spec tri_no (ty t) sem s) (sem p) s).
Context (Huntyped : ∀ p s, t !! p = Some s → is_static p = false → untyped s →
  write_spec tri_no (ty t) sem s = false).

(** A saved symbol agrees with its calculated value. *)
Lemma unsaved_ok p s0 st :
  t !! p = Some s0 → is_static p = false → calculating t st →
  spec False (unsaved fuel p) st (λ b st', b = false ∧ calculating t st' ∧ frame rank fuel None st st' ∧
    ∃ s, at_sym p st' s ∧ has_flag SYMBOL_VALID s = true).
Proof.
  intros Hp Hst Hi. pose proof (Hrank p (mk_is_Some _ _ Hp)) as Hr. apply spec_bind.
  eapply spec_mono; [by apply (calc_is_ok fuel rank t symbol_no tri_no sem unwritten Hsol p)|].
  intros _ st1 (Hi1 & Hf1 & s & Hs & Hv). apply spec_bind, spec_load; unfold at_sym in Hs; [|congruence].
  intros x Hx. assert (x = s) as -> by congruence. clear Hx.
  assert (Hdone : ∀ b : bool, b = false → spec False (mret b) st1
    (λ b st', b = false ∧ calculating t st' ∧ frame rank fuel None st st' ∧
     ∃ s, at_sym p st' s ∧ has_flag SYMBOL_VALID s = true)).
  { intros b ->. apply spec_ret. split_and!; [done|done|done|by exists s]. }
  destruct (inv_type _ _ _ _ _ _ _ _ _ _ Hi1 Hs) as [Hp1 _]. assert (Es : static s = s0) by congruence.
  destruct (choice_flags_off rank t symbol_no tri_no sem Hsol p s0 Hp Hst s Es) as (_ & -> & _). cbn [orb].
  destruct (has_flag SYMBOL_AUTO s); [by apply Hdone|].
  destruct (Hsaved p s0 Hp Hst) as [Hu Hval].
  assert (Hhas : sym_has_value s = write_spec tri_no (ty t) sem s0).
  { rewrite <-Hu, <-Es. unfold sym_has_value. by rewrite has_flag_static. }
  assert (Hdef : get_def S_DEF_USER s = get_def S_DEF_USER s0) by (by rewrite <-Es).
  assert (Ht : type s = type s0) by (by rewrite <-Es).
  destruct (inv_solved _ _ _ _ _ _ _ _ Hi1 p s Hs Hr Hv) as [Hc Hrest].
  assert (Hwr : has_flag SYMBOL_WRITE s = write_spec tri_no (ty t) sem s0).
  { destruct (decide (type s = S_UNKNOWN)) as [E|E]; [|destruct (decide (type s = S_OTHER)) as [E'|E']].
    - rewrite (Huntyped p s0 Hp Hst) by (left; congruence). apply (inv_untyped _ _ _ _ _ _ _ _ Hi1 p s Hst Hs). by left.
    - rewrite (Huntyped p s0 Hp Hst) by (right; congruence). apply (inv_untyped _ _ _ _ _ _ _ _ Hi1 p s Hst Hs). by right.
    - destruct (Hrest Hst E E') as (_ & _ & _ & Hw). rewrite Hw by (by intros ?).
      by rewrite <-write_static, Es. }
  rewrite Hhas, Hwr, Ht, Hdef, Hc. destruct (write_spec tri_no (ty t) sem s0); [|by apply Hdone].
  cbn [andb]. specialize (Hval eq_refl). destruct (sol_str _ _ _ _ _ Hsol p s0 Hp) as [y Hy].
  assert (Htxt : val (get_def S_DEF_USER s0) = val (sem p) →
    spec False (c ← cstr (val (sem p)); d ← cstr (val (get_def S_DEF_USER s0)); mret (bool_decide (c ≠ d))) st1
    (λ b st', b = false ∧ calculating t st' ∧ frame rank fuel None st st' ∧
     ∃ s, at_sym p st' s ∧ has_flag SYMBOL_VALID s = true)).
  { intros ->. rewrite Hy. apply spec_bind, spec_ret, spec_bind, spec_ret, Hdone.
    apply bool_decide_eq_false. by intros []. }
  destruct (type s0); try (by apply Htxt); apply Hdone, bool_decide_eq_false; by rewrite Hval; intros [].
Qed.

Lemma count_unsaved_ok ps u st :
  (∀ p, p ∈ ps → is_static p = false ∧ is_Some (t !! p)) → calculating t st →
  spec False (count_unsaved fuel ps u) st (λ v st', v = u ∧ calculating t st' ∧ frame rank fuel None st st' ∧
    ∀ p, p ∈ ps → ∃ s, at_sym p st' s ∧ has_flag SYMBOL_VALID s = true).
Proof.
  revert st. induction ps as [|p ps IH]; intros st Hps Hi.
  - apply spec_ret. split_and!; [done|done|apply frame_refl|]. by intros p ?%elem_of_nil.
  - destruct (Hps p ltac:(left)) as [Hst [s0 Hp]]. apply spec_bind.
    eapply spec_mono; [by apply (unsaved_ok p s0)|]. intros b st1 (-> & Hi1 & Hf1 & s & Hs & Hv).
    eapply spec_mono; [apply IH; [intros q ?; apply Hps; by right|done]|].
    intros v st2 (-> & Hi2 & Hf2 & Hall). split_and!; [done|done|by eapply frame_trans|].
    intros q [->|Hq]%elem_of_cons; [|by apply Hall]. exists s. split; [|done].
    apply Hf2; [done|by left|done].
Qed.

End Unsaved.

(** *** When everything is calculated *)

Definition settled (t : gmap symp symbol) (st : sym_state) : Prop :=
  calculating t st ∧ ∀ p s, at_sym p st s → has_flag SYMBOL_VALID s = true.

Section Settled.
Context (t : gmap symp symbol) (Hsol : solves rank t symbol_no tri_no sem) (Hrank : small_ranks t).

Lemma settled_calc p st : settled t st → is_Some (t !! p) → sym_calc_value fuel p st = Ret tt st.
Proof.
  intros [Hi Hall] [s0 Hp]. destruct (inv_lookup _ _ _ _ _ _ _ _ _ _ Hi Hp) as (s & Hs & _).
  apply calc_is_valid with s; [|done|by eapply Hall]. pose proof (Hrank p (mk_is_Some _ _ Hp)). lia.
Qed.

(** A symbol with some of its properties evaluated is still settled. *)
Lemma settled_self p s0 s st st' :
  settled t st → t !! p = Some s0 → is_static p = false → at_sym p st s →
  inv rank t symbol_no tri_no sem unwritten (rank p) st' → frame rank (rank p) (Some p) st st' →
  self_props_of p st' s → settled t st'.
Proof.
  intros [Hi Hall] Hp Hst Hs Hi' Hf [l [Hs' Hv']].
  assert (Hcase : ∀ q x, at_sym q st' x → q = p ∧ x = set_props l s ∨ q ≠ p ∧ at_sym q st x).
  { intros q x Hq. destruct (decide (q = p)) as [->|Hne].
    { left. split; [done|]. unfold at_sym in *. congruence. }
    right. split; [done|]. destruct (inv_type _ _ _ _ _ _ _ _ _ _ Hi' Hq) as [Hq0 _].
    destruct (inv_lookup _ _ _ _ _ _ _ _ _ _ Hi Hq0) as (y & Hy & _).
    pose proof (Hf q y Hy (or_introl (Hall q y Hy)) ltac:(by intros [=])) as Hy'.
    unfold at_sym in *. congruence. }
  destruct Hi' as [H1 H2 H3 H4 H5 H6 H7 H8 H9]. split.
  - split; try done. intros q x Hq Hrq Hvq. destruct (Hcase q x Hq) as [[-> ->]|[Hne Hqx]].
    + pose proof (H1 p) as E. unfold at_sym in Hs'. rewrite Hs', Hp in E. injection E as E.
      destruct (inv_solved _ _ _ _ _ _ _ _ Hi p s Hs Hrq (Hall p s Hs)) as [Hc Hrest]. split; [done|].
      intros Hst' Hu Ho. destruct (Hrest Hst' Hu Ho) as (Hvis & Hd & Hr & Hw).
      assert (E' : static s = s0).
      { destruct (inv_type _ _ _ _ _ _ _ _ _ _ Hi Hs) as [E' _]. congruence. }
      rewrite <-(vis_static _ _ _ (set_props l s)), <-(write_static _ _ _ (set_props l s)), E, <-E', vis_static, write_static.
      done.
    + by apply (inv_solved _ _ _ _ _ _ _ _ Hi q x Hqx Hrq), (Hall q).
  - intros q x [[-> ->]|[_ Hq]]%Hcase; [done|by eapply Hall].
Qed.

Lemma range_prop_ok p s0 st :
  settled t st → t !! p = Some s0 → is_static p = false →
  spec False (sym_get_range_prop (sym_calc_value fuel) p) st (λ r st', settled t st' ∧
    found t tri_no sem P_RANGE (props s0) r ∧
    ∀ s, at_sym p st s → ∃ l, at_sym p st' (set_props l s)).
Proof.
  intros Hset Hp Hst. pose proof Hset as [Hi Hall].
  destruct (inv_lookup _ _ _ _ _ _ _ _ _ _ Hi Hp) as (s & Hs & _).
  pose proof (Hrank p (mk_is_Some _ _ Hp)) as Hr.
  eapply spec_mono.
  { apply (get_visible_prop_ok rank t symbol_no tri_no sem unwritten Hsol (rank p) (sym_calc_value fuel)) with (s0 := s0) (s := s).
    - intros q st' Hq Hq0 Hi'. by apply (calc_all rank t symbol_no tri_no sem unwritten Hsol (Datatypes.S (rank q))); [lia|lia|..].
    - intros _. apply calc_is_valid. lia.
    - done.
    - done.
    - by intros ->.
    - done.
    - by right.
    - by apply (inv_below _ _ _ _ _ _ fuel (rank p)); [lia|].
    - split; [done|by eapply Hall]. }
  intros r st' (Hi' & Hf & Hsp & Hfound). split; [|split; [done|]].
  - by apply (settled_self p s0 s st).
  - intros x Hx. assert (x = s) as -> by (unfold at_sym in *; congruence). destruct Hsp as [l [Hl _]]. by exists l.
Qed.

Lemma settled_range_val q base st :
  settled t st → is_Some (t !! q) →
  sym_get_range_val (sym_calc_value fuel) q base st = Ret (number (ty t) sem q base) st.
Proof.
  intros Hset Hq. unfold sym_get_range_val, mbind, Eff_bind. rewrite settled_calc by done.
  destruct Hset as [Hi Hall]. destruct Hq as [s0 Hq].
  destruct (inv_lookup _ _ _ _ _ _ _ _ _ _ Hi Hq) as (s & Hs & _).
  destruct (inv_type _ _ _ _ _ _ _ _ _ _ Hi Hs) as [_ Hty].
  destruct (inv_solved _ _ _ _ _ _ _ _ Hi q s Hs (Hrank q (mk_is_Some _ _ Hq)) (Hall q s Hs)) as [Hc _].
  destruct (sol_str _ _ _ _ _ Hsol q s0 Hq) as [x Hx]. unfold at_sym in Hs.
  unfold load. rewrite Hs. unfold curr_strtoll, mbind, Eff_bind, load. rewrite Hs, Hc, Hx. simpl.
  unfold number. by rewrite Hx, Hty.
Qed.

(** A calculated number is in its range. *)
Lemma number_within_ok p s0 x st :
  settled t st → t !! p = Some s0 → is_static p = false → type s0 = S_INT ∨ type s0 = S_HEX →
  range_fits (ty t) sem s0 → val (sem p) = V_str x →
  spec False (number_within_range fuel p x (range_base (type s0) 0)) st (λ b st', b = true ∧ settled t st' ∧
    ∀ s, at_sym p st s → ∃ l, at_sym p st' (set_props l s)).
Proof.
  intros Hset Hp Hst Hty Hfit Hx. apply spec_bind. eapply spec_mono; [by apply (range_prop_ok p s0)|].
  intros [[pr v]|] st1 (Hset1 & Hf & Hself); [|by apply spec_ret].
  destruct Hf as (Hf & Hprt & Hin). pose proof (sol_wf _ _ _ _ _ Hsol p s0 Hp Hst) as [_ Wd _ Wr _].
  destruct (Wr (erase pr) Hin Hprt) as (l & r & Elr). change (p_expr (erase pr)) with (p_expr pr) in Elr.
  unfold range_syms. rewrite Elr in *. apply spec_bind, spec_ret.
  assert (Hd : ∀ d, d ∈ [l; r] → is_Some (t !! d)).
  { intros d Hd. apply Wd. unfold deps. apply elem_of_app. left. apply list_elem_of_bind. exists (erase pr).
    split; [|done]. apply elem_of_app. right.
    rewrite (value_prop_of P_RANGE (erase pr)) by auto. change (p_expr (erase pr)) with (p_expr pr). by rewrite Elr. }
  destruct (Hfit l r v Hf) as [Hle Hh].
  assert (Htext : is_text (type s0)) by (unfold is_text; tauto).
  destruct (raw_str _ _ _ _ _ Hsol (rank p) p s0 Hp Hst eq_refl Htext) as [raw Hraw].
  destruct (clamped tri_no (ty t) sem s0 l r v raw Hty Hf Hle Hh) as (y & Hy & Hlo & Hhi).
  assert (x = y) as ->.
  { assert (V_str x = V_str y) as [= ->]; [|done]. rewrite <-Hx, (sol_eq _ _ _ _ _ Hsol p s0 Hp Hst), <-Hy, <-Hraw.
    unfold value_spec. by destruct Hty as [-> | ->]. }
  apply spec_bind. unfold spec at 1. rewrite settled_range_val; [|done|apply Hd; set_solver].
  rewrite (proj2 (Z.leb_le _ _) Hlo). apply spec_bind. unfold spec at 1.
  rewrite settled_range_val; [|done|apply Hd; set_solver]. apply spec_ret. by rewrite (proj2 (Z.leb_le _ _) Hhi).
Qed.

End Settled.

(** *** The second loop *)

(** The user values that are left are the calculated ones, valid and in their
    ranges. *)
Definition kept (t : gmap symp symbol) : Prop :=
  ∀ p s, t !! p = Some s → is_static p = false → sym_has_value s = true →
    ¬ untyped s ∧ (is_text (type s) → val (get_def S_DEF_USER s) = val (sem p) ∧
      sym_string_valid (type s) (as_str (val (sem p))) = true ∧ range_fits (ty t) sem s).

Record good (t : gmap symp symbol) : Prop := {
  gd_sol : solves rank t symbol_no tri_no sem;
  gd_rank : small_ranks t;
  gd_kept : kept t;
}.

Definition without_user (p : symp) (s0 : symbol) (t : gmap symp symbol) : gmap symp symbol :=
  <[p := clear_flag SYMBOL_DEF_USER s0]> t.

Section Drop.
Context (t : gmap symp symbol) (Hgood : good t) (p : symp) (s0 : symbol).
Context (Hp : t !! p = Some s0) (Hst : is_static p = false).

Lemma without_ty q : ty (without_user p s0 t) q = ty t q.
Proof.
  unfold ty, without_user. destruct (decide (q = p)) as [->|Hne].
  - by rewrite lookup_insert_eq, Hp.
  - by rewrite lookup_insert_ne.
Qed.

Lemma static_clear_user s : static (clear_flag SYMBOL_DEF_USER s) = clear_flag SYMBOL_DEF_USER (static s).
Proof.
  unfold static, clear_flag, set_flags. cbn [name type def flags props dir_dep rev_dep curr visible]. f_equal.
  apply Z.bits_inj'. intros k _. rewrite !Z.land_spec, !Z.ldiff_spec, !Z.land_spec.
  destruct (Z.testbit (flags s) k), (Z.testbit SYMBOL_DEF_USER k), (Z.testbit static_flags k); done.
Qed.

Lemma value_invisible ty' : vis_spec tri_no ty' sem s0 = tri_no →
  value_spec tri_no ty' sem (clear_flag SYMBOL_DEF_USER s0) = value_spec tri_no ty' sem s0.
Proof.
  intros Hv. assert (H1 : user_wins tri_no ty' sem s0 = false) by (unfold user_wins; by rewrite Hv).
  assert (H2 : user_wins tri_no ty' sem (clear_flag SYMBOL_DEF_USER s0) = false).
  { unfold user_wins. change (vis_spec tri_no ty' sem (clear_flag SYMBOL_DEF_USER s0)) with (vis_spec tri_no ty' sem s0).
    by rewrite Hv. }
  unfold value_spec, tri_spec, raw_spec. by rewrite H1, H2.
Qed.

Lemma cleared_value s : sym_has_value (clear_flag SYMBOL_DEF_USER s) = false.
Proof. by apply (has_flag_clear_sub SYMBOL_DEF_USER). Qed.

Lemma without_good : vis_spec tri_no (ty t) sem s0 = tri_no → good (without_user p s0 t).
Proof.
  intros Hv. destruct Hgood as [Hsol Hrank Hkept].
  assert (Hdom : ∀ q, is_Some (without_user p s0 t !! q) ↔ is_Some (t !! q)).
  { intros q. unfold without_user. destruct (decide (q = p)) as [->|Hne].
    - rewrite lookup_insert_eq, Hp. split; by eexists.
    - by rewrite lookup_insert_ne. }
  assert (Hcase : ∀ q s, without_user p s0 t !! q = Some s →
    q = p ∧ s = clear_flag SYMBOL_DEF_USER s0 ∨ t !! q = Some s).
  { intros q s. unfold without_user. destruct (decide (q = p)) as [->|Hne].
    - rewrite lookup_insert_eq. intros [= <-]. by left.
    - rewrite lookup_insert_ne by done. by right. }
  split; [split| |].
  - intros q s [[-> ->]|Hq]%Hcase Hsq.
    + destruct (sol_wf _ _ _ _ _ Hsol p s0 Hp Hst) as [Ws Wd Wf Wr Wu]. split; try done.
      * by rewrite static_clear_user, Ws.
      * intros d Hd. destruct (Wd d Hd). split; [done|by apply Hdom].
      * change (flags (clear_flag SYMBOL_DEF_USER s0)) with (Z.ldiff (flags s0) SYMBOL_DEF_USER).
        rewrite Z.ldiff_land, <-Z.land_assoc, (Z.land_comm (Z.lnot _)), Z.land_assoc, Wf. done.
      * intros _. by rewrite cleared_value.
    + destruct (sol_wf _ _ _ _ _ Hsol q s Hq Hsq) as [Ws Wd Wf Wr Wu]. split; try done.
      intros d Hd. destruct (Wd d Hd). split; [done|by apply Hdom].
  - intros q s [[-> ->]|Hq]%Hcase Hsq; rewrite (value_ty tri_no _ _ sem without_ty).
    + rewrite value_invisible by done. by apply (sol_eq _ _ _ _ _ Hsol).
    + by apply (sol_eq _ _ _ _ _ Hsol).
  - intros q s Hq. assert (is_Some (t !! q)) as [x Hx] by (apply Hdom; by exists s).
    by apply (sol_str _ _ _ _ _ Hsol q x).
  - apply Hsol.
  - intros q Hq. by apply Hrank, Hdom.
  - intros q s [[-> ->]|Hq]%Hcase Hsq Hh; [by rewrite cleared_value in Hh|].
    destruct (Hkept q s Hq Hsq Hh) as [Hu Ht]. split; [done|]. intros Htx.
    destruct (Ht Htx) as (H1 & H2 & H3). split_and!; [done|done|].
    intros l r v Hf. rewrite (find_ty tri_no _ _ sem without_ty) in Hf.
    cbn zeta. rewrite !(number_ty _ _ sem without_ty). by apply (H3 l r v).
Qed.

Lemma without_settled st s :
  settled t st → at_sym p st s →
  settled (without_user p s0 t) (set_stab (upd p (clear_flag SYMBOL_DEF_USER) (stab st)) st).
Proof.
  intros [Hi Hall] Hs. destruct Hgood as [Hsol Hrank _].
  set (st' := set_stab (upd p (clear_flag SYMBOL_DEF_USER) (stab st)) st).
  assert (Hcase : ∀ q x, at_sym q st' x →
    q = p ∧ x = clear_flag SYMBOL_DEF_USER s ∨ q ≠ p ∧ at_sym q st x).
  { intros q x. unfold at_sym, st'. cbn [stab set_stab]. destruct (decide (q = p)) as [->|Hne].
    - rewrite upd_lookup. unfold at_sym in Hs. rewrite Hs. intros [= <-]. by left.
    - rewrite upd_lookup_ne by done. by right. }
  assert (Hkeep : ∀ q x, is_static q = true → at_sym q st x → at_sym q st' x).
  { intros q x Hq Hx. unfold at_sym, st' in *. cbn [stab set_stab]. rewrite upd_lookup_ne; [done|].
    intros <-. congruence. }
  assert (Hex : ∀ q v, is_static q = true →
    (∃ x, at_sym q st x ∧ has_flag SYMBOL_VALID x = true ∧ curr x = v) →
    ∃ x, at_sym q st' x ∧ has_flag SYMBOL_VALID x = true ∧ curr x = v).
  { intros q v Hq (x & Hx & H1 & H2). exists x. split; [by apply Hkeep|done]. }
  pose proof Hi as [H1 H2 H3 H4 H5 H6 H7 H8 H9]. destruct (inv_type _ _ _ _ _ _ _ _ _ _ Hi Hs) as [Hp' _].
  split; [split; try done; try (by apply Hex)|].
  - intros q. unfold without_user, st'. cbn [stab set_stab]. destruct (decide (q = p)) as [->|Hne].
    + rewrite lookup_insert_eq, upd_lookup. unfold at_sym in Hs. rewrite Hs. simpl.
      rewrite static_clear_user. congruence.
    + by rewrite lookup_insert_ne, upd_lookup_ne.
  - intros q x Hq [[-> ->]|[_ Hx]]%Hcase; [congruence|by apply (H7 q)].
  - intros q x Hq [[-> ->]|[_ Hx]]%Hcase Hun; [|by apply (H8 q)].
    rewrite has_flag_clear by done. by apply (H8 p).
  - intros q x Hx Hr _.
    assert (Hsol_q : ∀ y, at_sym q st y → curr x = curr y → decl x = decl y → visible x = visible y →
      ev_tri (dir_dep x) = ev_tri (dir_dep y) → ev_tri (rev_dep x) = ev_tri (rev_dep y) →
      has_flag SYMBOL_WRITE x = has_flag SYMBOL_WRITE y →
      solved (without_user p s0 t) tri_no sem unwritten q x).
    { intros y Hy E1 E2 E3 E4 E5 E6. destruct (H9 q y Hy Hr (Hall q y Hy)) as [Hc Hrest].
      split; [congruence|]. intros Hsq Hu Ho. destruct (decl_fields _ _ E2) as (_ & Et & _).
      rewrite Et in Hu, Ho. destruct (Hrest Hsq Hu Ho) as (Hv & Hd & Hre & Hw).
      rewrite (vis_ty tri_no _ _ sem without_ty), (dir_ty tri_no _ _ sem without_ty),
        (rev_ty tri_no _ _ sem without_ty), (write_ty tri_no _ _ sem without_ty),
        (decl_vis _ _ _ _ _ E2), (decl_dir _ _ _ _ _ E2), (decl_rev _ _ _ _ _ E2), (decl_write _ _ _ _ _ E2).
      split_and!; [congruence..|]. intros HW. rewrite E6. by apply Hw. }
    destruct (Hcase q x Hx) as [[-> ->]|[_ Hy]]; [|by apply (Hsol_q x)].
    apply (Hsol_q s); [done|done|by apply decl_clear|done|done|done|by rewrite has_flag_clear].
  - intros q x [[-> ->]|[_ Hx]]%Hcase; [|by apply (Hall q)]. rewrite has_flag_clear by done. by apply (Hall p).
Qed.

End Drop.

(** Dropping user values does not change what is declared. *)
Definition same_decls (t t' : gmap symp symbol) : Prop := ∀ p, decl <$> t' !! p = decl <$> t !! p.

Lemma same_decls_in t t' p : same_decls t t' → is_Some (t !! p) → is_Some (t' !! p).
Proof. intros E [s Hs]. specialize (E p). rewrite Hs in E. apply fmap_Some in E as (x & -> & _). by eexists. Qed.

Lemma out_of_range_ok t p s0 st s :
  good t → settled t st → t !! p = Some s0 → is_static p = false → at_sym p st s →
  (is_text (type s0) → val (get_def S_DEF_USER s) = val (sem p) ∧
     sym_string_valid (type s0) (as_str (val (sem p))) = true ∧ range_fits (ty t) sem s0) →
  spec False (out_of_range fuel p) st (λ b st', b = false ∧ settled t st').
Proof.
  intros [Hsol Hrank _] Hset Hp Hst Hs Htext. apply spec_bind, spec_load; unfold at_sym in Hs; [|congruence].
  intros x Hx. assert (x = s) as -> by congruence. destruct (inv_type _ _ _ _ _ _ _ _ _ _ (proj1 Hset) Hs) as [Hp' _].
  assert (Ht : type s = type s0) by (assert (s0 = static s) as -> by congruence; done).
  destruct (sol_str _ _ _ _ _ Hsol p s0 Hp) as [y Hy].
  assert (Hrun : is_text (type s) → spec False (sym_string_within_range fuel p y) st (λ b st', b = true ∧ settled t st')).
  { intros Htx. rewrite Ht in Htx. destruct (Htext Htx) as (_ & Hval & Hfit). rewrite Hy in Hval. cbn [as_str] in Hval.
    apply spec_bind, spec_load; [|congruence]. intros x' Hx'. assert (x' = s) as -> by congruence. rewrite Ht.
    assert (Hnum : type s0 = S_INT ∨ type s0 = S_HEX →
      spec False (number_within_range fuel p y (range_base (type s0) 0)) st (λ b st', b = true ∧ settled t st')).
    { intros Hn. eapply spec_mono; [by apply (number_within_ok t Hsol Hrank p s0)|]. by intros b st' (? & ? & _). }
    destruct Htx as [E|[E|E]]; rewrite E in Hval, Hnum |- *; try rewrite Hval; auto. by apply spec_ret. }
  assert (Hgo : is_text (type s) → spec False
    (match val (get_def S_DEF_USER s) with
     | V_str d => ok ← sym_string_within_range fuel p d; mret (negb ok)
     | _ => if decide (type s = S_STRING) then mret false else fault
     end) st (λ b st', b = false ∧ settled t st')).
  { intros Htx. destruct (Htext ltac:(by rewrite <-Ht)) as (-> & _). rewrite Hy. apply spec_bind.
    eapply spec_mono; [by apply Hrun|]. intros b st' [-> Hs']. by apply spec_ret. }
  unfold is_text in Hgo. destruct (type s); try (by apply spec_ret); apply Hgo; auto.
Qed.

Lemma drop_user_ok t p s0 st :
  good t → settled t st → t !! p = Some s0 → is_static p = false →
  spec False (drop_user fuel p 0) st (λ u st', u = 0 ∧ ∃ t', good t' ∧ settled t' st' ∧ same_decls t t').
Proof.
  intros Hg Hset Hp Hst. pose proof Hset as [Hi Hall].
  destruct (inv_lookup _ _ _ _ _ _ _ _ _ _ Hi Hp) as (s & Hs & Es).
  apply spec_bind, spec_load; pose proof Hs as Hs'; unfold at_sym in Hs'; [|congruence].
  intros x Hx. assert (x = s) as -> by congruence.
  destruct (choice_flags_off rank t symbol_no tri_no sem (gd_sol _ Hg) p s0 Hp Hst s Es) as (-> & _).
  destruct (sym_has_value s) eqn:Eh; [|by apply spec_ret; split; [|exists t]]. cbn [andb negb].
  assert (Hh0 : sym_has_value s0 = true) by (rewrite <-Es; unfold sym_has_value; by rewrite has_flag_static).
  destruct (gd_kept _ Hg p s0 Hp Hst Hh0) as [Hun Htext].
  assert (Hdef : get_def S_DEF_USER s = get_def S_DEF_USER s0) by (by rewrite <-Es).
  assert (Hend : ∀ t' s1 st1, good t' → settled t' st1 → same_decls t t' → at_sym p st1 s1 →
    get_def S_DEF_USER s1 = get_def S_DEF_USER s0 →
    spec False (bad ← out_of_range fuel p;
      if bad : bool then _ ← store p (clear_flag (Z.lor SYMBOL_VALID SYMBOL_DEF_USER)); mret 1 else mret 0) st1
      (λ u st', u = 0 ∧ ∃ t', good t' ∧ settled t' st' ∧ same_decls t t')).
  { intros t' s1 st1 Hg' Hset' Hdecl Hs1 Hd1. pose proof (Hdecl p) as E. rewrite Hp in E.
    apply fmap_Some in E as (s0' & Hp1 & E1). symmetry in E1. destruct (decl_fields _ _ (eq_sym E1)) as (_ & Et & _).
    apply spec_bind. eapply spec_mono.
    { apply (out_of_range_ok t' p s0' st1 s1); [done|done|done|done|done|]. rewrite <-Et, Hd1. intros Htx.
      destruct (Htext Htx) as (H1 & H2 & H3). split_and!; [done|done|].
      assert (Hty : ∀ q, ty t' q = ty t q).
      { intros q. unfold ty. specialize (Hdecl q). destruct (t' !! q) as [a|], (t !! q) as [b|]; try done.
        by injection Hdecl. }
      intros l r v Hf. rewrite (find_ty tri_no _ _ sem Hty), (decl_find tri_no (ty t) sem _ _ E1) in Hf.
      cbn zeta. rewrite !(number_ty _ _ sem Hty), <-Et. by apply (H3 l r v). }
    intros b st2 [-> Hset2]. apply spec_ret. split; [done|]. by exists t'. }
  destruct (inv_solved _ _ _ _ _ _ _ _ Hi p s Hs (gd_rank _ Hg p (mk_is_Some _ _ Hp)) (Hall p s Hs)) as [_ Hrest].
  assert (Hu : type s ≠ S_UNKNOWN ∧ type s ≠ S_OTHER).
  { rewrite <-Es in Hun. unfold untyped in Hun. simpl in Hun. tauto. }
  destruct (Hrest Hst (proj1 Hu) (proj2 Hu)) as (Hvis & _). apply spec_bind. rewrite Hvis.
  rewrite <-vis_static, Es. case_bool_decide as Ev; cbn [andb Nat.eqb when].
  - apply spec_store; [|congruence]. intros y Hy. assert (y = s) as -> by congruence.
    apply (Hend (without_user p s0 t) (clear_flag SYMBOL_DEF_USER s)).
    + by apply (without_good t Hg p s0 Hp Hst).
    + by apply (without_settled t Hg p s0 Hp Hst st s).
    + intros q. unfold without_user. destruct (decide (q = p)) as [->|Hne]; [|by rewrite lookup_insert_ne].
      rewrite lookup_insert_eq, Hp. simpl. by rewrite decl_clear.
    + unfold at_sym. cbn [stab set_stab]. by rewrite upd_lookup, Hs'.
    + done.
  - apply spec_ret. by apply (Hend t s).
Qed.

Lemma drop_all_ok ps t st :
  good t → settled t st → (∀ p, p ∈ ps → is_static p = false ∧ is_Some (t !! p)) →
  spec False (drop_all fuel ps 0) st (λ u st', u = 0 ∧ ∃ t', good t' ∧ settled t' st' ∧ same_decls t t').
Proof.
  revert t st. induction ps as [|p ps IH]; intros t st Hg Hset Hps.
  - apply spec_ret. split; [done|by exists t].
  - destruct (Hps p ltac:(left)) as [Hst [s0 Hp]]. apply spec_bind.
    eapply spec_mono; [by apply (drop_user_ok t p s0)|]. intros u st1 (-> & t1 & Hg1 & Hset1 & Hd1).
    eapply spec_mono.
    { apply (IH t1 st1 Hg1 Hset1). intros q Hq. destruct (Hps q ltac:(by right)) as [H1 H2].
      split; [done|by eapply same_decls_in]. }
    intros u st2 (-> & t2 & Hg2 & Hset2 & Hd2). split; [done|]. exists t2. split_and!; [done|done|].
    intros q. by rewrite Hd2, Hd1.
Qed.

End Check.

(** ** Saving and loading *)

Section Final.
Context (CONFIG_ : cstring) (Cnl : newline ∉ CONFIG_) (Chash : head CONFIG_ ≠ Some "#"%char).
Context `{ValueBytes} (fuel : nat) (rank : symp → nat) (t0 : gmap symp symbol) (sem : symp → symbol_value).

(** The state of a process that has read the same Kconfig files, with whatever
    user values. *)
Record loadable (st : sym_state) : Prop := {
  ld_decl : ∀ p, decl <$> syms (stab st) !! p = decl <$> t0 !! p;
  ld_defs : ∀ p s, at_sym p st s → length (def s) = S_DEF_COUNT;
  ld_listed : listed st;
  ld_mod : modules_sym st = Some symbol_no;
  ld_mv : modules_val st = tri_no;
  ld_no : is_Some (syms (stab st) !! symbol_no);
  ld_empty : is_Some (syms (stab st) !! symbol_empty);
  ld_const : ∀ p s, is_static p = true → at_sym p st s → has_flag SYMBOL_VALID s = true ∧ curr s = sem p;
  ld_untyped : ∀ p s, is_static p = false → at_sym p st s → untyped s → has_flag SYMBOL_WRITE s = false;
}.

(** A solved table that can be saved: what is written has an entry and a name
    (so that it is no literal), symbols from the environment have no visible
    prompt, ranges are not empty. *)
Record savable (L0 : gmap positive menu) (f : forest) : Prop := {
  sv_sol : solves rank t0 symbol_no tri_no sem;
  sv_rank : small_ranks fuel rank t0;
  sv_no : sem symbol_no = mkVal (V_str (lit "n")) tri_no;
  sv_empty : sem symbol_empty = mkVal (V_str []) tri_no;
  sv_auto : ∀ p s, t0 !! p = Some s → is_static p = false →
    has_flag SYMBOL_AUTO s = true → vis_spec tri_no (ty t0) sem s = tri_no;
  sv_range : ∀ p s, t0 !! p = Some s → is_static p = false → range_fits (ty t0) sem s;
  sv_covered : ∀ p s, t0 !! p = Some s → is_static p = false →
    write_spec tri_no (ty t0) sem s = true → in_tree L0 f p ∧ is_Some (name s) ∧ ¬ untyped s;
}.

Lemma assigned_lookup t cs p :
  NoDup cs.*1 →
  syms (foldl apply_assignment t cs) !! p =
    (λ s, match list_to_map (M := gmap symp cstring) cs !! p with
          | Some v => stored S_DEF_USER v s | None => s end) <$> syms t !! p.
Proof.
  revert t. induction cs as [|[q v] cs IH]; intros t.
  { simpl. destruct (syms t !! p); simpl; by rewrite ?lookup_empty. }
  intros [Hq Hnd]%NoDup_cons. simpl. rewrite IH by done. unfold apply_assignment. simpl.
  destruct (decide (q = p)) as [->|Hne].
  - rewrite lookup_alter_eq, lookup_insert_eq, (not_elem_of_list_to_map_1 _ _ Hq). by destruct (syms t !! p).
  - by rewrite lookup_alter_ne, lookup_insert_ne.
Qed.

Lemma assigned_hash t cs : symbol_hash (foldl apply_assignment t cs) = symbol_hash t.
Proof. revert t. induction cs as [|a cs IH]; intros t; [done|]. simpl. by rewrite IH. Qed.

(** The symbols of the chains stay those of the chains. *)
Lemma all_symbols_same t t' p :
  symbol_hash t' = symbol_hash t → type (sym t' p) = type (sym t p) →
  p ∈ all_symbols t' ↔ p ∈ all_symbols t.
Proof.
  intros Hh Ht. unfold all_symbols. rewrite !list_elem_of_filter, Ht. unfold chain. by rewrite Hh.
Qed.

Section Reader.
Context (st : sym_state) (Hst : loadable st) (Hcount : sym_change_count st = 0).
Context (asg : gmap symp cstring) (Hsaves : saves t0 sem asg).
Context (Hstatic : ∀ p, is_static p = true → asg !! p = None).
Context (Hsol : solves rank t0 symbol_no tri_no sem) (Hrank : small_ranks fuel rank t0).
Context (Hno : sem symbol_no = mkVal (V_str (lit "n")) tri_no).
Context (Hempty : sem symbol_empty = mkVal (V_str []) tri_no).
Context (T : symtab) (HT : ∀ p, syms T !! p = after_read asg p <$> syms (stab st) !! p).
Context (Hhash : symbol_hash T = symbol_hash (stab st)).

(** The state when the file has been read. *)
Definition read_state : sym_state :=
  mkSt T (modules_sym st) (modules_val st) (changed_menus st) 0 (unmet st).

Definition final_table : gmap symp symbol := read_table asg (syms (stab st)).

Lemma after_flag f p s :
  Z.land f (Z.lor SYMBOL_VALID (Z.lor SYMBOL_CHANGED SYMBOL_DEF_USER)) = 0%Z →
  has_flag f (after_read asg p s) = has_flag f s.
Proof.
  intros Hf. assert (Hg : ∀ g, Z.land g (Z.lor SYMBOL_VALID (Z.lor SYMBOL_CHANGED SYMBOL_DEF_USER)) = g → Z.land f g = 0%Z).
  { intros g Hg. by rewrite <-Hg, (Z.land_comm g), Z.land_assoc, Hf. }
  assert (Hr : has_flag f (reset_symbol S_DEF_USER s) = has_flag f s).
  { unfold reset_symbol. change (def_flags S_DEF_USER) with SYMBOL_DEF_USER. case_decide; [done|].
    change (has_flag f (set_def ?d ?v ?x)) with (has_flag f x).
    destruct (sym_is_choice _); rewrite ?has_flag_add, ?has_flag_clear, ?has_flag_add by (by apply Hg); done. }
  assert (Hs : ∀ v x, has_flag f (stored S_DEF_USER v x) = has_flag f x).
  { intros v x. unfold stored. change (def_flags S_DEF_USER) with SYMBOL_DEF_USER.
    rewrite has_flag_add by (by apply Hg). by destruct (type x). }
  unfold after_read. destruct (asg !! p), (is_static p); rewrite ?Hs, ?Hr; done.
Qed.

Lemma after_type p s : type (after_read asg p s) = type s.
Proof. by destruct (decl_fields _ _ (decl_after asg p s)) as (_ & E & _). Qed.

Lemma after_static p s : is_static p = true → after_read asg p s = s.
Proof. intros Hp. unfold after_read. by rewrite Hp, (Hstatic p Hp). Qed.

Lemma after_unmarked p s : is_static p = false → type s ≠ S_OTHER →
  has_flag SYMBOL_VALID (after_read asg p s) = false.
Proof.
  intros Hp Ht. unfold after_read. rewrite Hp.
  assert (Hr : has_flag SYMBOL_VALID (reset_symbol S_DEF_USER s) = false).
  { unfold reset_symbol. change (def_flags S_DEF_USER) with SYMBOL_DEF_USER. rewrite decide_False by done.
    change (has_flag SYMBOL_VALID (set_def ?d ?v ?x)) with (has_flag SYMBOL_VALID x).
    destruct (sym_is_choice _); rewrite ?has_flag_add by done; by apply has_flag_clear_sub. }
  destruct (asg !! p) as [v|]; [|done]. unfold stored. change (def_flags S_DEF_USER) with SYMBOL_DEF_USER.
  rewrite has_flag_add by done. generalize dependent (reset_symbol S_DEF_USER s). intros x. by destruct (type x).
Qed.

Lemma listed_typed p s : at_sym p st s → is_static p = false → type s ≠ S_OTHER.
Proof.
  intros Hs Hp. assert (Hin : p ∈ all_symbols (stab st)) by (apply ld_listed; [done|split; [done|by exists s]]).
  apply list_elem_of_filter in Hin as [Hin _]. unfold sym in Hin. unfold at_sym in Hs. by rewrite Hs in Hin.
Qed.

Lemma read_calculating : calculating fuel rank sem final_table read_state.
Proof.
  destruct Hst as [Hd Hl Hls Hm Hv [xn Hn] [xe He] Hc Hu]. apply table_inv.
  - split; try done.
    + intros p. unfold final_table. rewrite read_lookup. cbn [stab read_state]. rewrite HT.
      by destruct (syms (stab st) !! p).
    + cbn [stab read_state]. rewrite HT, Hn. by eexists.
    + cbn [stab read_state]. rewrite HT, He. by eexists.
    + intros p s Hp Hs. unfold at_sym in Hs. cbn [stab read_state] in Hs. rewrite HT in Hs.
      apply fmap_Some in Hs as (x & Hx & ->). rewrite after_static by done. by apply (Hc p).
    + intros p s Hp Hs Hun. unfold at_sym in Hs. cbn [stab read_state] in Hs. rewrite HT in Hs.
      apply fmap_Some in Hs as (x & Hx & ->). rewrite after_flag by done. apply (Hu p); [done|done|].
      unfold untyped in *. by rewrite after_type in Hun.
  - intros p s Hp Hs. unfold at_sym in Hs. cbn [stab read_state] in Hs. rewrite HT in Hs.
    apply fmap_Some in Hs as (x & Hx & ->). apply after_unmarked; [done|by eapply listed_typed].
Qed.

Lemma final_saved p s1 : final_table !! p = Some s1 → is_static p = false →
  ∃ s0, t0 !! p = Some s0 ∧ decl s1 = decl s0 ∧ saved (write_spec tri_no (ty t0) sem s0) (sem p) s1.
Proof.
  destruct Hst as [Hd Hl _ _ _ _ _ _ _]. unfold final_table. rewrite read_lookup. intros Hs Hp.
  apply fmap_Some in Hs as (s & Hs & ->).
  destruct (declared t0 (syms (stab st)) Hd p s Hs) as (s0 & H0 & E). exists s0.
  split; [done|]. split; [by rewrite decl_static, decl_after|].
  destruct (after_saved rank t0 sem Hsol asg (syms (stab st)) Hd Hl (λ p s Hs Hp, listed_typed p s Hs Hp) Hsaves
    p s s0 Hs H0 Hp) as [H1 H2].
  split; [|exact H2]. rewrite <-H1. unfold sym_has_value. by rewrite has_flag_static.
Qed.

Lemma final_ty p : ty final_table p = ty t0 p.
Proof. apply read_ty, Hst. Qed.

Lemma final_ranks : small_ranks fuel rank final_table.
Proof.
  intros p Hp. apply Hrank. unfold final_table in Hp. rewrite read_lookup, fmap_is_Some in Hp.
  destruct Hp as [s Hs]. destruct (declared t0 _ (ld_decl _ Hst) p s Hs) as (s0 & -> & _). by eexists.
Qed.

End Reader.

(** *** The file is read *)

Lemma symbol_no_calculated st x :
  0 < fuel → at_sym symbol_no st x → has_flag SYMBOL_VALID x = true →
  sym_calc_value fuel symbol_no st = Ret tt st.
Proof. intros Hf Hx Hv. by apply calc_is_valid with x. Qed.

Lemma read_file_ok st cs :
  0 < fuel → loadable st → sym_change_count st = 0 →
  Forall (chunk_ok CONFIG_ (stab st)) cs → NoDup (assignments cs).*1 →
  let asg := list_to_map (M := gmap symp cstring) (assignments cs) in
  ∃ T, read_file CONFIG_ fuel (chunk_texts CONFIG_ (stab st) cs) st = Ret 0 (read_state st T) ∧
    (∀ p, syms T !! p = after_read asg p <$> syms (stab st) !! p) ∧ symbol_hash T = symbol_hash (stab st).
Proof.
  intros Hf Hld Hcount Hok Hnd asg.
  destruct (read_written CONFIG_ Cnl Chash (mkConf (stab st) 0 (sym_change_count st)) cs Hok Hnd) as [Hrun Hmem].
  cbn [tab change_count] in *.
  exists (foldl apply_assignment (reset_symbols S_DEF_USER (stab st)) (assignments cs)).
  split; [|split; [|by rewrite assigned_hash]].
  2: { intros p. rewrite assigned_lookup, reset_lookup by done. fold asg.
       destruct (syms (stab st) !! p); [|done]. simpl. unfold after_read. by destruct (is_static p). }
  unfold read_file, chunk_texts. rewrite Hrun. cbn [conf_warnings tab change_count].
  rewrite (ld_mod _ Hld), Hcount. destruct (ld_no _ Hld) as [x Hx].
  destruct (ld_const _ Hld symbol_no x eq_refl Hx) as [Hv _].
  set (st' := mkSt _ _ _ _ _ _).
  unfold calc_opt, mbind, Eff_bind.
  rewrite (symbol_no_calculated st' x Hf); [by unfold read_state; rewrite (ld_mod _ Hld)| |done].
  unfold at_sym, st'. cbn [stab]. rewrite assigned_lookup, reset_lookup by done. rewrite Hx. simpl. f_equal.
  destruct (list_to_map _ !! symbol_no) eqn:E; [|done].
  apply elem_of_list_to_map_2 in E. by destruct (assigned_ok _ _ _ _ Hok E) as (nm & [] & _).
Qed.

(** *** All together *)

(** What the parts of a file assign, as a map. *)
Lemma assigned_saves L0 f (asg : list (symp * cstring)) :
  savable L0 f → NoDup asg.*1 →
  (∀ p v, (p, v) ∈ asg ↔ in_tree L0 f p ∧ written_as t0 tri_no sem p v) →
  saves t0 sem (list_to_map asg).
Proof.
  intros Hsv Hnd Hin p s Hp Hst. destruct (write_spec tri_no (ty t0) sem s) eqn:Ew.
  - apply elem_of_list_to_map; [done|]. apply Hin. destruct (sv_covered _ _ Hsv p s Hp Hst Ew) as (? & ? & ?).
    split; [done|]. by exists s.
  - apply not_elem_of_list_to_map. intros ([q v] & -> & Hq)%list_elem_of_fmap.
    apply Hin in Hq as (_ & s' & Hs' & _ & Hw & _). simpl in *. congruence.
Qed.

Lemma assigned_static T cs p :
  Forall (chunk_ok CONFIG_ T) cs → is_static p = true →
  list_to_map (M := gmap symp cstring) (assignments cs) !! p = None.
Proof.
  intros Hok Hp. apply not_elem_of_list_to_map. intros ([q v] & -> & Hq)%list_elem_of_fmap.
  destruct (assigned_ok _ _ _ _ Hok Hq) as (nm & [] & _). simpl in *. congruence.
Qed.

Lemma savable_range L0 f p s0 s1 t' :
  savable L0 f → t0 !! p = Some s0 → is_static p = false → decl s1 = decl s0 → (∀ q, t' q = ty t0 q) →
  range_fits t' sem s1.
Proof.
  intros Hsv H0 Hp E Hty l r v. rewrite (find_ty tri_no _ _ sem Hty), (decl_find tri_no (ty t0) sem _ _ E).
  cbn zeta. rewrite !(number_ty _ _ sem Hty). destruct (decl_fields _ _ E) as (_ & -> & _).
  by apply (sv_range _ _ Hsv p s0).
Qed.

(** The values that are read back are kept. *)
Lemma final_good L0 f st cs :
  savable L0 f → loadable st → Forall (chunk_ok CONFIG_ (stab st)) cs → NoDup (assignments cs).*1 →
  (∀ p v, (p, v) ∈ assignments cs ↔ in_tree L0 f p ∧ written_as t0 tri_no sem p v) →
  good fuel rank sem (final_table st (list_to_map (assignments cs))).
Proof.
  intros Hsv Hld Hok Hnd Hin. pose proof Hsv as [Hsol Hrank Hno Hempty Hauto Hrange Hcov].
  pose proof (assigned_saves _ _ _ Hsv Hnd Hin) as Hsaves. set (asg := list_to_map (assignments cs)) in *.
  split.
  - apply (read_solves rank t0 sem Hsol asg); try done; try apply Hld.
    intros p s Hs Hp. by apply (listed_typed st Hld p).
  - by apply final_ranks.
  - intros p s1 H1 Hp Hh.
    destruct (final_saved st Hld asg Hsaves Hsol p s1 H1 Hp) as (s0 & H0 & E & Hw & Hv).
    rewrite Hh in Hw. symmetry in Hw. specialize (Hv Hw). destruct (decl_fields _ _ E) as (_ & Et & _).
    destruct (Hcov p s0 H0 Hp Hw) as (Htree & Hname & Hty). split; [unfold untyped; by rewrite Et|].
    intros Htx. split_and!.
    + by destruct Htx as [Ht|[Ht|Ht]]; rewrite Ht in Hv.
    + assert (Ha : (p, str_spec tri_no (type s0) (sem p)) ∈ assignments cs) by (apply Hin; split; [done|by exists s0]).
      destruct (assigned_ok _ _ _ _ Hok Ha) as (nm & _ & Hg). simpl in Hg.
      destruct (declared_back t0 _ (ld_decl _ Hld) p s0 H0) as (x & Hx & Ex). destruct (decl_fields _ _ Ex) as (_ & Etx & _).
      rewrite (sym_Some _ _ _ Hx), Etx, <-Et in Hg. unfold str_spec in Hg.
      destruct Htx as [Ht|[Ht|Ht]]; rewrite Ht in Hg |- *; done.
    + apply (savable_range L0 f p s0); try done. by apply final_ty.
Qed.

Lemma calculating_types t st st' p :
  calculating fuel rank sem t st → calculating fuel rank sem t st' →
  type (sym (stab st') p) = type (sym (stab st) p).
Proof.
  intros H1 H2. pose proof (inv_static _ _ _ _ _ _ _ _ H1 p) as E. rewrite <-(inv_static _ _ _ _ _ _ _ _ H2 p) in E.
  unfold sym. destruct (syms (stab st) !! p), (syms (stab st') !! p); try done. by injection E.
Qed.

(** The loops leave the chains and the count of changes alone. *)
Lemma spec_steady {A} (c : M A) st (Q : A → sym_state → Prop) :
  steady c → spec False c st Q →
  spec False c st (λ a st', Q a st' ∧ symbol_hash (stab st') = symbol_hash (stab st) ∧
    sym_change_count st' = sym_change_count st).
Proof. intros Hs. unfold spec. destruct (c st) eqn:E; [|done|done]. intros HQ. by split; [|apply (Hs _ _ _ E)]. Qed.

Lemma settled_all (ps : list symp) t st :
  (∀ p, is_static p = false → is_Some (t !! p) → p ∈ ps) →
  calculating fuel rank sem t st →
  (∀ p, p ∈ ps → ∃ s, at_sym p st s ∧ has_flag SYMBOL_VALID s = true) →
  settled fuel rank sem t st.
Proof.
  intros Hps Hi Hall. split; [done|]. intros p s Hs. destruct (is_static p) eqn:Hp.
  - by apply (inv_const _ _ _ _ _ _ _ _ Hi p).
  - destruct (inv_type _ _ _ _ _ _ _ _ _ _ Hi Hs) as [Ht _].
    destruct (Hall p (Hps p Hp (mk_is_Some _ _ Ht))) as (s' & Hs' & Hv). unfold at_sym in *. congruence.
Qed.

(** The state at the end: every symbol of the configuration has the value that
    was saved, and nothing is unsaved. *)
Definition restored (st : sym_state) : Prop :=
  sym_change_count st = 0 ∧ (∀ p, decl <$> syms (stab st) !! p = decl <$> t0 !! p) ∧
  ∀ p s, at_sym p st s → has_flag SYMBOL_VALID s = true ∧ curr s = sem p.

Lemma settled_restored t st :
  small_ranks fuel rank t → settled fuel rank sem t st → sym_change_count st = 0 →
  (∀ p, decl <$> t !! p = decl <$> t0 !! p) → restored st.
Proof.
  intros Hr [Hi Hall] Hc Hd. split_and!; [done| |].
  - intros p. rewrite <-Hd, <-(inv_static _ _ _ _ _ _ _ _ Hi p). destruct (syms (stab st) !! p); [|done].
    simpl. by rewrite decl_static.
  - intros p s Hs. split; [by apply (Hall p)|]. destruct (inv_type _ _ _ _ _ _ _ _ _ _ Hi Hs) as [Ht _].
    by apply (inv_solved _ _ _ _ _ _ _ _ Hi p s Hs (Hr p (mk_is_Some _ _ Ht))), (Hall p).
Qed.

Lemma loadable_count st n : loadable st →
  loadable (mkSt (stab st) (modules_sym st) (modules_val st) (changed_menus st) n (unmet st)).
Proof. by intros []. Qed.

Lemma final_decl st asg p : loadable st → decl <$> final_table st asg !! p = decl <$> t0 !! p.
Proof.
  intros Hld. rewrite <-(ld_decl _ Hld). unfold final_table. rewrite read_lookup.
  destruct (syms (stab st) !! p); [|done]. simpl. by rewrite decl_static, decl_after.
Qed.

Lemma conf_read_restores L0 f st cs :
  savable L0 f → loadable st → Forall (chunk_ok CONFIG_ (stab st)) cs → NoDup (assignments cs).*1 →
  (∀ p v, (p, v) ∈ assignments cs ↔ in_tree L0 f p ∧ written_as t0 tri_no sem p v) →
  spec False (conf_read CONFIG_ fuel (chunk_texts CONFIG_ (stab st) cs)) st (λ _ st', restored st').
Proof.
  intros Hsv Hld Hok Hnd Hin. pose proof Hsv as [Hsol Hrank Hno Hempty Hauto Hrange Hcov].
  apply spec_bind. unfold spec at 1, set_change_count. apply loadable_count with (n := 0) in Hld.
  set (st0 := mkSt _ _ _ _ 0 _) in *. change (stab st) with (stab st0) in Hok |- *.
  assert (Hf : 0 < fuel).
  { destruct (ld_no _ Hld) as [x Hx]. destruct (declared t0 _ (ld_decl _ Hld) _ x Hx) as (x0 & Hx0 & _).
    pose proof (Hrank symbol_no (mk_is_Some _ _ Hx0)). lia. }
  destruct (read_file_ok st0 cs Hf Hld eq_refl Hok Hnd) as (T & Hread & HT & Hhash).
  pose proof (final_good _ _ _ _ Hsv Hld Hok Hnd Hin) as Hgood. pose proof (assigned_saves _ _ _ Hsv Hnd Hin) as Hsaves.
  set (asg := list_to_map (assignments cs)) in *. set (t := final_table st0 asg) in *.
  assert (Hstatic : ∀ p, is_static p = true → asg !! p = None) by (intros p Hp; by apply (assigned_static (stab st0))).
  pose proof (read_calculating st0 Hld asg Hstatic Hno Hempty T HT) as Hi. fold t in Hi.
  apply spec_bind. unfold spec at 1. rewrite Hread.
  assert (Hlisted : ∀ p, p ∈ all_symbols T ↔ is_static p = false ∧ is_Some (t !! p)).
  { intros p. rewrite (all_symbols_same (stab st0)); [|done|].
    - rewrite (ld_listed _ Hld p). unfold t, final_table. by rewrite read_lookup, fmap_is_Some.
    - unfold sym. rewrite HT. destruct (syms (stab st0) !! p); [|done]. simpl. by rewrite after_type. }
  assert (Hsaved : ∀ p s, t !! p = Some s → is_static p = false → saved (write_spec tri_no (ty t) sem s) (sem p) s ∧
    (untyped s → write_spec tri_no (ty t) sem s = false)).
  { intros p s Hs Hp. destruct (final_saved st0 Hld asg Hsaves Hsol p s Hs Hp) as (s0 & H0 & E & Hv).
    rewrite (write_ty tri_no _ _ sem (final_ty st0 Hld asg)), (decl_write _ _ _ _ _ E). split; [done|].
    intros Hun. destruct (write_spec tri_no (ty t0) sem s0) eqn:Ew; [|done].
    destruct (Hcov p s0 H0 Hp Ew) as (_ & _ & []). destruct (decl_fields _ _ E) as (_ & Et & _).
    unfold untyped in *. by rewrite <-Et. }
  apply spec_bind. unfold spec at 1, gets. cbn [stab read_state].
  apply spec_bind. eapply spec_mono.
  { apply spec_steady; [apply steady_count|].
    apply (count_unsaved_ok fuel rank sem t (gd_sol _ _ _ _ Hgood) (gd_rank _ _ _ _ Hgood)
      (λ p s Hs Hp, proj1 (Hsaved p s Hs Hp)) (λ p s Hs Hp, proj2 (Hsaved p s Hs Hp)) (all_symbols T) 0 _); [|exact Hi].
    intros p. apply Hlisted. }
  intros u st1 ((-> & Hi1 & _ & Hall) & Hh1 & Hc1).
  assert (Hset : settled fuel rank sem t st1).
  { apply (settled_all (all_symbols T)); [|done|done]. intros p Hp Ht. by apply Hlisted. }
  apply spec_bind. unfold spec at 1, gets. apply spec_bind. eapply spec_mono.
  { apply spec_steady; [apply steady_drop|]. apply (drop_all_ok fuel rank sem _ t st1 Hgood Hset).
    intros p Hp. apply Hlisted. revert Hp. apply (all_symbols_same T (stab st1) p); [done|].
    by apply (calculating_types t (read_state st0 T)). }
  intros u st2 ((-> & t2 & Hg2 & Hset2 & Hd2) & _ & Hc2). simpl. unfold spec, add_change_count. simpl.
  apply (settled_restored t2); [apply Hg2| |by simpl; rewrite Hc2, Hc1|].
  - destruct Hset2 as [[] ?]. by split.
  - intros p. rewrite Hd2. by apply final_decl.
Qed.

(** C1: Saving and loading, for an acyclic table without choices and without a
    modules option, whose ranges are not empty (and not negative for hexadecimal
    numbers), where a value from the environment has no visible prompt and every
    symbol to be written is named, typed and in the menu tree. Writing such a
    configuration gives a file, and reading that file in another state of the
    same symbols, whatever their user values were, ends, if the lines fit the
    reader's buffer and syntax: every symbol has the value that was saved, and
    the configuration does not count as changed. *)
Theorem save_then_load n k f title L0 s1 s2 :
  savable L0 f → entries_ok t0 L0 s1 f title → write_ready fuel rank t0 tri_no sem (msyms s1) →
  length (preorder f) < n → length (preorder f) ≤ k →
  loadable s2 → Forall (chunk_ok CONFIG_ (stab s2)) (file_chunks t0 tri_no sem L0 f title) →
  ∃ file s1' s2',
    conf_write CONFIG_ fuel n k s1 = Ret file s1' ∧ sym_change_count (msyms s1') = 0 ∧
    conf_read CONFIG_ fuel file s2 = Ret tt s2' ∧ restored s2'.
Proof.
  intros Hsv He Hw Hn Hk Hld Hok.
  destruct (conf_write_text fuel rank t0 tri_no sem L0 (stab s2)) with (CONFIG_ := CONFIG_) (n := n) (k := k)
    (f := f) (title := title) (st := s1) as (s1' & Hrun & Hc & _ & Hnd & Hin); try done; try apply Hsv.
  { intros p s0 H0. destruct (declared_back t0 _ (ld_decl _ Hld) p s0 H0) as (s & Hs & E).
    rewrite (sym_Some _ _ _ Hs). by apply decl_fields. }
  pose proof (conf_read_restores L0 f s2 _ Hsv Hld Hok Hnd Hin) as Hr. unfold spec in Hr.
  destruct (conf_read _ _ _ s2) as [[] s2'| |] eqn:E; try done. by exists (chunk_texts CONFIG_ (stab s2) (file_chunks t0 tri_no sem L0 f title)), s1', s2'.
Qed.

End Final.
