(* ===== verification/KconfigExample.v ===== *)
(** * Kconfig: a small configuration

    A table of symbols as the parser builds it, a tree of menu entries, and the
    solution of its equations; the theorems on writing and reading a
    configuration apply to it. *)

From stdpp Require Import base option strings gmap list.
From Stdlib Require Import ZArith Ascii Lia.
From S2P Require Import Prelude Effects KconfigExpr KconfigSymtab KconfigConf KconfigConfSpec KconfigSym KconfigSymTerm.
From S2P Require Import KconfigSymSpec KconfigSymSet KconfigMenu KconfigWrite KconfigWriteSpec KconfigLoad KconfigLoadSpec.
Local Open Scope nat_scope.

(** ** The symbols *)

(** The names in the order in which the parser meets them; numbers are symbols
    without a type. *)
Definition small_names : list string := ["BR2_A"; "BR2_B"; "BR2_J"; "1"; "5"; "BR2_DIR"; "BR2_SEL"].

Definition small_lookups : symtab :=
  foldl (λ t nm, (sym_lookup (Some (lit nm)) 0 t).2) empty_tab small_names.

Definition declare (t : symbol_type) (ps : list property) (s : symbol) : symbol :=
  set_props ps (set_type t s).

(** A boolean that selects another, a tristate with a default, a number with a
    range whose prompt depends on the tristate, a string, and the boolean that
    is selected, which has no prompt. *)
Definition small_declared : symtab :=
  upd (sym_at 1) (declare S_BOOLEAN [declared_here (sym_at 1); prompt "a" None; selects (sym_at 7)])
  (upd (sym_at 2) (declare S_TRISTATE
     [declared_here (sym_at 2); mkProp P_DEFAULT None (mkEV (Some (E_SYMBOL (sym_at 1))) tri_no) (Some (E_SYMBOL symbol_yes)) None])
  (upd (sym_at 3) (declare S_INT
     [declared_here (sym_at 3); prompt "j" (Some (E_EQUAL (sym_at 2) symbol_yes));
      mkProp P_RANGE None (mkEV None tri_no) (Some (E_RANGE (sym_at 4) (sym_at 5))) None])
  (upd (sym_at 6) (declare S_STRING [declared_here (sym_at 6); prompt "dir" None])
  (upd (sym_at 7) (λ s, selected_by (sym_at 1) (declare S_BOOLEAN [declared_here (sym_at 7)] s))
   small_lookups)))).

Definition user_val (v : symbol_value) (s : symbol) : symbol :=
  add_flag SYMBOL_DEF_USER (set_def S_DEF_USER v s).

(** The user has set the boolean, a number out of range and a string. *)
Definition small_tab : symtab :=
  upd (sym_at 1) (user_val (mkVal V_null tri_yes))
  (upd (sym_at 3) (user_val (mkVal (V_str (lit "9")) tri_no))
  (upd (sym_at 6) (user_val (mkVal (V_str (lit "a\b")) tri_no)) small_declared)).

Definition start (t : symtab) (n : nat) : sym_state := mkSt t (Some symbol_no) tri_no [] n [].

Definition small_st : sym_state := start small_tab 0.

(** Another process with the same Kconfig files, where only the number is set. *)
Definition other_st : sym_state :=
  start (upd (sym_at 3) (user_val (mkVal (V_str (lit "2")) tri_no)) small_declared) 3.

Definition small_rank (p : symp) : nat :=
  match p with sym_at 2 | sym_at 7 => 2 | sym_at 3 => 3 | sym_at _ => 1 | _ => 0 end.

(** The values of a calculation; the string of a boolean is never set. *)
Definition small_sem (p : symp) : symbol_value :=
  match p with
  | sym_at 1 | sym_at 2 | sym_at 7 => mkVal (V_str (lit "n")) tri_yes
  | sym_at 3 | sym_at 5 => mkVal (V_str (lit "5")) tri_no
  | sym_at 4 => mkVal (V_str (lit "1")) tri_no
  | sym_at _ => mkVal (V_str (lit "a\b")) tri_no
  | symbol_yes => mkVal (V_str (lit "y")) tri_yes
  | symbol_mod => mkVal (V_str (lit "m")) tri_mod
  | symbol_no => mkVal (V_str (lit "n")) tri_no
  | symbol_empty => mkVal (V_str []) tri_no
  end.
Definition small_t0 : gmap symp symbol := static <$> syms small_tab.

Lemma small_solves : solves small_rank small_t0 symbol_no tri_no small_sem.
Proof.
  split.
  - intros p s H Hp. each_symbol H; try discriminate Hp.
    all: split; [by vm_compute| |by vm_compute| |].
    all: try (intros d Hd; vm_compute in Hd; repeat (apply elem_of_cons in Hd as [->|Hd]; [split; [vm_compute; lia|by vm_compute; eexists]|]); by apply elem_of_nil in Hd).
    all: try (intros pr Hpr; vm_compute in Hpr; repeat (apply elem_of_cons in Hpr as [->|Hpr]; [try done; simpl; eauto|]); by apply elem_of_nil in Hpr).
    all: try (simpl; intros; naive_solver).
  - intros p s H Hp. each_symbol H; try discriminate Hp; by vm_compute.
  - intros p s H. each_symbol H; vm_compute; by eexists.
  - by vm_compute.
Qed.

(** The symbols of the loops, from the buckets that are not empty. *)
Lemma all_symbols_buckets t p :
  Forall (λ b, 0 ≤ b.1 < SYMBOL_HASHSIZE)%Z (map_to_list (symbol_hash t)) →
  p ∈ all_symbols t ↔ type (sym t p) ≠ S_OTHER ∧ p ∈ concat (map_to_list (symbol_hash t)).*2.
Proof.
  rewrite Forall_forall. intros Hb. unfold all_symbols. rewrite list_elem_of_filter.
  apply and_iff_compat_l. rewrite !list_elem_of_In, !in_concat. setoid_rewrite <-list_elem_of_In. split.
  - intros (l & (h & -> & _)%list_elem_of_fmap & Hp). unfold chain in Hp.
    destruct (symbol_hash t !! h) as [l|] eqn:E; [|by apply elem_of_nil in Hp].
    exists l. split; [|done]. apply list_elem_of_fmap. exists (h, l). by rewrite elem_of_map_to_list.
  - intros (l & ([h l'] & -> & Hl)%list_elem_of_fmap & Hp). pose proof (Hb _ Hl) as [H0 H1]. cbn [fst snd] in H0, H1, Hp.
    apply elem_of_map_to_list in Hl. exists (chain t h). split; [|unfold chain; by rewrite Hl].
    apply list_elem_of_fmap. exists h. split; [done|]. apply list_elem_of_fmap. exists (Z.to_nat h).
    split; [by rewrite Z2Nat.id|]. apply elem_of_seq. split; [apply Nat.le_0_l|by apply Z2Nat.inj_lt].
Qed.

Lemma small_buckets :
  concat (map_to_list (symbol_hash small_lookups)).*2 = sym_at <$> [3; 5; 6; 7; 1; 4; 2]%positive ∧
  Forall (λ b, 0 ≤ b.1 < SYMBOL_HASHSIZE)%Z (map_to_list (symbol_hash small_lookups)).
Proof. split; [by vm_compute|]. apply (bool_decide_unpack _). by vm_compute. Qed.

Lemma small_listed n t :
  symbol_hash t = symbol_hash small_lookups → (∀ p, type (sym t p) ≠ S_OTHER) →
  (∀ p, is_Some (syms t !! p) ↔ is_Some (small_t0 !! p)) → listed (start t n).
Proof.
  intros Hh Ht Hdom p. destruct small_buckets as [E Hb]. rewrite <-Hh in E, Hb. cbn [stab start].
  rewrite Hdom, all_symbols_buckets, E by done. clear Hh E Hb. split.
  - intros [_ Hp]. cbn in Hp.
    repeat (apply elem_of_cons in Hp as [->|Hp]; [split; [done|by vm_compute; eexists]|]). by apply elem_of_nil in Hp.
  - intros [Hst [s Hs]]. split; [apply Ht|].
    each_symbol Hs; try discriminate Hst; by apply (bool_decide_unpack _); vm_compute.
Qed.

Lemma no_other t : map_Forall (λ _ s, type s ≠ S_OTHER) (syms t) → ∀ p, type (sym t p) ≠ S_OTHER.
Proof. intros H p. unfold sym. destruct (syms t !! p) as [s|] eqn:E; [by apply (H p)|done]. Qed.

Lemma small_table n : table small_t0 tri_no small_sem (start small_tab n).
Proof.
  split; [|done|done|..].
  - intros p. unfold small_t0. by rewrite lookup_fmap.
  - by vm_compute; eexists.
  - by vm_compute; eexists.
  - intros p s Hp Hs. unfold at_sym in Hs. each_symbol Hs; try discriminate Hp; by vm_compute.
  - intros p s Hp Hs _. unfold at_sym in Hs. each_symbol Hs; by vm_compute.
  - by vm_compute.
  - by vm_compute.
Qed.

Lemma small_write_ready : write_ready 4 small_rank small_t0 tri_no small_sem small_st.
Proof.
  split; [apply small_table|]. apply small_listed; [by vm_compute|apply no_other, map_Forall_to_list, (bool_decide_unpack _); by vm_compute|].
  intros p. unfold small_t0. by rewrite lookup_fmap, fmap_is_Some.
Qed.

Lemma small_ranked : small_ranks 4 small_rank small_t0.
Proof. intros p [s Hs]. each_symbol Hs; vm_compute; lia. Qed.

(** ** The menu entries *)

Definition entry (next parent list : option positive) (sy : option symp) (r : option prompt_ref) : menu :=
  mkMenu next parent list sy r None None.

Definition titled (t : prop_type) (txt : string) : option prompt_ref :=
  Some (Own_prompt (mkProp t (Some (lit txt)) (mkEV None tri_no) None None)).

(** The root, the boolean, a menu with the tristate and the number, the string,
    the selected boolean. *)
Definition small_menus : gmap positive menu :=
  list_to_map
    [(1, entry None None (Some 2) None (titled P_MENU "Buildroot 2014.05 Configuration"));
     (2, entry (Some 3) (Some 1) None (Some (sym_at 1)) (Some (Sym_prompt 1)));
     (3, entry (Some 6) (Some 1) (Some 4) None (titled P_MENU "Build options"));
     (4, entry (Some 5) (Some 3) None (Some (sym_at 2)) None);
     (5, entry None (Some 3) None (Some (sym_at 3)) (Some (Sym_prompt 1)));
     (6, entry (Some 7) (Some 1) None (Some (sym_at 6)) (Some (Sym_prompt 1)));
     (7, entry None (Some 1) None (Some (sym_at 7)) None)]%positive.

Definition small_forest : forest :=
  Cons 2 Nil (Cons 3 (Cons 4 Nil (Cons 5 Nil Nil)) (Cons 6 Nil (Cons 7 Nil Nil))).

Definition small_state : menu_state := mkMenus small_st small_menus.

Definition small_title : cstring := lit "Buildroot 2014.05 Configuration".

Lemma small_entries : entries_ok small_t0 small_menus small_state small_forest small_title.
Proof.
  split.
  - apply map_eq. intros a. rewrite lookup_fmap. cbn [menus small_state].
    destruct (small_menus !! a) as [x|] eqn:E; [|done]. each_symbol E; done.
  - eexists. split; [by vm_compute|]. simpl. repeat (split_and!; try done; eexists).
  - intros a Ha. simpl in Ha.
    repeat (apply elem_of_cons in Ha as [->|Ha]; [eexists; split; [by vm_compute|]|]); [..|by apply elem_of_nil in Ha].
    all: vm_compute; try (eexists; split_and!; [done|done|done|done|by eexists]).
    split; [by eexists|]. by intros d ?%elem_of_nil.
  - do 2 eexists. split_and!; by vm_compute.
Qed.

(** ** Saving and loading *)

Ltac small_member :=
  (exists 2%positive + exists 4%positive + exists 5%positive + exists 6%positive + exists 7%positive); eexists;
  split_and!; [by apply (bool_decide_unpack _); vm_compute|by vm_compute|by vm_compute].

Lemma small_savable : savable 4 small_rank small_t0 small_sem small_menus small_forest.
Proof.
  split.
  - exact small_solves.
  - exact small_ranked.
  - by vm_compute.
  - by vm_compute.
  - intros p s H Hp Hf. each_symbol H; try discriminate Hp; by vm_compute in Hf.
  - intros p s H Hp l r v Hf. each_symbol H; try discriminate Hp; vm_compute in Hf; try discriminate Hf.
    injection Hf as <- <- <-. split; by vm_compute.
  - intros p s H Hp Hw. each_symbol H; try discriminate Hp; try (by vm_compute in Hw).
    all: clear Hw; split; [small_member|split; [by eexists|by intros [|]]].
Qed.

Lemma same_domain {A B} (m : gmap symp A) (m' : gmap symp B) :
  (λ _, tt) <$> m = (λ _, tt) <$> m' → ∀ p, is_Some (m !! p) ↔ is_Some (m' !! p).
Proof.
  intros E p. rewrite <-(fmap_is_Some (λ _, tt)), <-(fmap_is_Some (λ _, tt) (m' !! p)), <-!lookup_fmap. by rewrite E.
Qed.

Lemma other_loadable : loadable small_t0 small_sem other_st.
Proof.
  split; [| | |done|done|..].
  - intros p. assert (E : decl <$> syms (stab other_st) = decl <$> small_t0) by (apply map_eq_iff; vm_compute; reflexivity).
    by rewrite <-!lookup_fmap, E.
  - intros p s H. unfold at_sym in H. each_symbol H; by vm_compute.
  - apply small_listed; [by vm_compute|apply no_other, map_Forall_to_list, (bool_decide_unpack _); by vm_compute|]. apply same_domain. by vm_compute.
  - by vm_compute; eexists.
  - by vm_compute; eexists.
  - intros p s Hp H. unfold at_sym in H. each_symbol H; try discriminate Hp; by vm_compute.
  - intros p s Hp H _. unfold at_sym in H. each_symbol H; by vm_compute.
Qed.

Lemma small_chunks_ok :
  Forall (chunk_ok [] (stab other_st)) (file_chunks small_t0 tri_no small_sem small_menus small_forest small_title).
Proof.
  assert (E : file_chunks small_t0 tri_no small_sem small_menus small_forest small_title =
    [Heading small_title; Symbol_line (sym_at 1) (lit "BR2_A") (lit "y"); Menu_block (lit "Build options");
     Symbol_line (sym_at 2) (lit "BR2_B") (lit "y"); Symbol_line (sym_at 3) (lit "BR2_J") (lit "5");
     Symbol_line (sym_at 6) (lit "BR2_DIR") (lit "a\b"); Symbol_line (sym_at 7) (lit "BR2_SEL") (lit "y")]) by (by vm_compute).
  rewrite E. clear E. apply Forall_cons; split; [by apply (bool_decide_unpack _); vm_compute|].
  apply Forall_cons; split; [example_symbol|]. apply Forall_cons; split.
  { split; [by apply (bool_decide_unpack _); vm_compute|split; [done|by vm_compute]]. }
  do 4 (apply Forall_cons; split; [example_symbol|]). by apply Forall_nil.
Qed.

Lemma conf_write_correct_witness :
  ∃ st', conf_write [] 4 10 10 small_state =
      Ret (chunk_texts [] small_tab (file_chunks small_t0 tri_no small_sem small_menus small_forest small_title)) st' ∧
    sym_change_count (msyms st') = 0 ∧
    (∀ p, static <$> syms (stab (msyms st')) !! p = small_t0 !! p) ∧
    NoDup (assignments (file_chunks small_t0 tri_no small_sem small_menus small_forest small_title)).*1 ∧
    ∀ p v, (p, v) ∈ assignments (file_chunks small_t0 tri_no small_sem small_menus small_forest small_title) ↔
      in_tree small_menus small_forest p ∧ written_as small_t0 tri_no small_sem p v.
Proof.
  apply (conf_write_correct 4 small_rank small_t0 tri_no small_sem small_menus small_tab).
  - intros p s H. unfold small_t0 in H. rewrite lookup_fmap in H. apply fmap_Some in H as (x & Hx & ->).
    by rewrite (sym_Some _ _ _ Hx).
  - exact small_solves.
  - exact small_ranked.
  - exact small_entries.
  - exact small_write_ready.
  - vm_compute. lia.
  - vm_compute. lia.
Defined.

Lemma save_then_load_witness :
  ∃ file s1' s2',
    conf_write [] 4 10 10 small_state = Ret file s1' ∧ sym_change_count (msyms s1') = 0 ∧
    conf_read [] 4 file other_st = Ret tt s2' ∧ restored small_t0 small_sem s2'.
Proof.
  apply (save_then_load []) with (rank := small_rank) (f := small_forest) (title := small_title) (L0 := small_menus).
  - by apply not_elem_of_nil.
  - done.
  - exact small_savable.
  - exact small_entries.
  - exact small_write_ready.
  - vm_compute. lia.
  - vm_compute. lia.
  - exact other_loadable.
  - exact small_chunks_ok.
Defined.
