(* ===== verification/HashProbe.v ===== *)
(** * Double hashing with a prime table size

    The arithmetic behind [lib/hashtable.c]: the primality test that
    [hcreate_r] uses to choose the table size, and the probe sequence of
    [hsearch_r], which visits every slot because the size is prime. *)

From stdpp Require Import base option list.
From Stdlib Require Import ZArith Znumtheory Lia.
From S2P Require Import Prelude Word32.
Local Open Scope nat_scope.

(** ** The primality test *)

(** The loop [while (div * div < number && number % div != 0) div += 2]; the
    result is the last [div]. *)
Fixpoint isprime_loop (n : nat) (div number : Z) : option Z :=
  match n with
  | O => None
  | S n =>
      if (u32 (div * div) <? number)%Z && negb (number mod div =? 0)%Z
      then isprime_loop n (u32 (div + 2)) number
      else Some div
  end.

(** The number of iterations is at most half the number. *)
Definition isprime (number : Z) : option bool :=
  div ← isprime_loop (Z.to_nat number) 3 number; Some (negb (number mod div =? 0)%Z).

(** What the loop has established when it stops at [d'], having started at [d]. *)
Record trial_division (d number d' : Z) : Prop := {
  td_range : (d ≤ d')%Z;
  td_odd : (d' mod 2 = 1)%Z;
  td_stop : (number ≤ d' * d')%Z ∨ (number mod d' = 0)%Z;
  td_prev : d' = d ∨ ((d' - 2) * (d' - 2) < number)%Z;
  td_none m : (d ≤ m < d')%Z → (m mod 2 = 1)%Z → (number mod m ≠ 0)%Z;
}.

(** Below [65535 * 65535] neither [div * div] nor [div + 2] wraps around. *)
Lemma isprime_loop_ok n d number :
  (3 ≤ d ≤ 65535)%Z → (d mod 2 = 1)%Z → (0 < number ≤ 65535 * 65535)%Z →
  (1 ≤ Z.of_nat n)%Z → (number + 2 < d + 2 * Z.of_nat n)%Z →
  ∃ d', isprime_loop n d number = Some d' ∧ trial_division d number d'.
Proof.
  revert d. induction n as [|n IH]; intros d Hd Ho Hn Hf1 Hf; [lia|]. cbn [isprime_loop].
  replace (u32 (d * d)) with (d * d)%Z by (symmetry; apply Z.mod_small; nia).
  destruct (Z.ltb_spec (d * d) number) as [Hlt|Hge]; cbn [andb];
    [|exists d; split; [done|]; split; auto; lia].
  destruct (Z.eqb_spec (number mod d) 0) as [Hm|Hm]; cbn [negb];
    [exists d; split; [done|]; split; auto; lia|].
  assert (d < 65535)%Z by nia. assert (d < number)%Z by nia.
  assert (d + 2 ≤ 65535)%Z by (pose proof (Z.div_mod d 2); lia).
  replace (u32 (d + 2)) with (d + 2)%Z by (symmetry; apply Z.mod_small; lia).
  destruct (IH (d + 2)%Z) as (d' & -> & [R O S P N]); [lia| |lia..|].
  { rewrite <- Z.add_mod_idemp_r by lia. by rewrite Z.add_0_r. }
  exists d'. split; [done|]. split; auto; [lia|destruct P as [->|]; [right; nia|auto]|].
  intros m Hm1 Hm2. destruct (decide (m = d)) as [->|]; [done|].
  apply N; [|done]. assert (m ≠ d + 1)%Z; [|lia].
  intros ->. rewrite Z.add_mod, Ho in Hm2 by lia. by vm_compute in Hm2.
Qed.

Lemma odd_divisor number m k :
  (number mod 2 = 1 → number = m * k → 1 < m → m mod 2 = 1 ∧ 3 ≤ m)%Z.
Proof.
  intros Ho -> Hm. assert (m mod 2 = 1)%Z.
  { rewrite Z.mul_mod in Ho by lia. pose proof (Z.mod_pos_bound m 2).
    destruct (decide (m mod 2 = 0)%Z) as [E|]; [rewrite E in Ho; by vm_compute in Ho|lia]. }
  split; [done|]. assert (m ≠ 2)%Z by (intros ->; done). lia.
Qed.

Lemma trial_division_prime number d' :
  (number mod 2 = 1)%Z → (5 ≤ number)%Z → trial_division 3 number d' →
  (number mod d' ≠ 0 ↔ prime number)%Z.
Proof.
  intros Ho Hn [R O S P N]. split.
  - intros Hm. destruct S as [S|S]; [|done]. apply prime_alt. split; [lia|].
    intros m Hm1 [k Hk].
    destruct (odd_divisor number m k) as [Om Lm]; [done|lia|lia|].
    destruct (odd_divisor number k m) as [Ok Lk]; [done|lia|nia|].
    assert (Hle : (m ≤ d' ∨ k ≤ d')%Z) by nia.
    assert (D : ∀ q, (number mod q = 0 → q mod 2 = 1 → 3 ≤ q → q ≤ d' → False)%Z).
    { intros q Hq Oq Lq Lq'. destruct (decide (q = d')) as [->|]; [done|].
      apply (N q); [lia|done..]. }
    destruct Hle as [Hle|Hle]; [eapply (D m)|eapply (D k)]; eauto; rewrite Hk;
      [apply Z.mod_mul; lia|rewrite Z.mul_comm; apply Z.mod_mul; lia].
  - intros [_ Hp]%prime_alt Hm. apply (Hp d'); [|apply Z.mod_divide; [lia|done]].
    split; [lia|]. destruct P as [->|P]; [lia|nia].
Qed.

(** [isprime] decides primality of the odd numbers above 3 (it rejects 3). *)
Lemma isprime_ok number :
  (number mod 2 = 1)%Z → (5 ≤ number ≤ 65535 * 65535)%Z →
  ∃ b, isprime number = Some b ∧ (b = true ↔ prime number).
Proof.
  intros Ho Hn. unfold isprime.
  destruct (isprime_loop_ok (Z.to_nat number) 3 number) as (d & -> & T); [lia|done|lia..|].
  eexists. split; [reflexivity|]. rewrite <- (trial_division_prime number d) by (done || lia).
  rewrite negb_true_iff, Z.eqb_neq. done.
Qed.

(** ** The probe sequence *)

Section Probe.
Context (size hval hval2 : nat).

(** One step of the [do] loop of [hsearch_r]. *)
Definition probe_step (idx : nat) : nat :=
  if idx <=? hval2 then size + idx - hval2 else idx - hval2.

(** The index after [t] steps. *)
Definition probe (t : nat) : nat := Nat.iter t probe_step hval.

Context (Hprime : prime (Z.of_nat size)) (Hh : 1 ≤ hval ≤ size) (Hh2 : 1 ≤ hval2 < size).

Lemma probe_range t : 1 ≤ probe t ≤ size.
Proof.
  induction t as [|t IH]; simpl; [done|]. fold (probe t). unfold probe_step.
  destruct (Nat.leb_spec (probe t) hval2); lia.
Qed.

Lemma probe_mod t :
  (Z.of_nat (probe t) mod Z.of_nat size =
   (Z.of_nat hval - Z.of_nat t * Z.of_nat hval2) mod Z.of_nat size)%Z.
Proof.
  induction t as [|t IH]; [by rewrite Z.sub_0_r|].
  simpl. fold (probe t). pose proof (probe_range t).
  replace (Z.of_nat hval - Z.of_nat (S t) * Z.of_nat hval2)%Z
    with ((Z.of_nat hval - Z.of_nat t * Z.of_nat hval2) - Z.of_nat hval2)%Z by lia.
  rewrite Zminus_mod, <- IH, <- Zminus_mod. unfold probe_step.
  destruct (Nat.leb_spec (probe t) hval2).
  - rewrite <- (Z_mod_plus_full (Z.of_nat (probe t) - _) 1). f_equal. lia.
  - f_equal. lia.
Qed.

(** Two indices between 1 and [size] with the same residue are the same. *)
Lemma range_mod_inj a b :
  1 ≤ a ≤ size → 1 ≤ b ≤ size →
  (Z.of_nat a mod Z.of_nat size = Z.of_nat b mod Z.of_nat size)%Z → a = b.
Proof.
  intros Ha Hb E. destruct (decide (a = size)) as [->|], (decide (b = size)) as [->|]; auto.
  - rewrite Z_mod_same_full, Z.mod_small in E; lia.
  - rewrite Z_mod_same_full, Z.mod_small in E; lia.
  - rewrite !Z.mod_small in E; lia.
Qed.

Lemma rel_prime_hval2 : rel_prime (Z.of_nat size) (Z.of_nat hval2).
Proof. apply prime_rel_prime; [done|]. intros D%Z.divide_pos_le; lia. Qed.

Lemma probe_inj t u : t < size → u < size → probe t = probe u → t = u.
Proof.
  intros Ht Hu E. pose proof (probe_mod t) as Et. rewrite E, probe_mod in Et.
  assert (D : (Z.of_nat size | Z.of_nat hval2 * (Z.of_nat t - Z.of_nat u))%Z).
  { apply Z.mod_divide; [lia|].
    replace (Z.of_nat hval2 * (Z.of_nat t - Z.of_nat u))%Z with
      ((Z.of_nat hval - Z.of_nat u * Z.of_nat hval2) - (Z.of_nat hval - Z.of_nat t * Z.of_nat hval2))%Z by lia.
    by rewrite Zminus_mod, Et, Z.sub_diag. }
  apply Gauss in D; [|apply rel_prime_hval2].
  destruct D as [k Hk]. destruct (decide (k = 0)%Z) as [->|]; [lia|nia].
Qed.

Lemma probe_size : probe size = hval.
Proof.
  apply range_mod_inj; [apply probe_range|done|]. rewrite probe_mod.
  rewrite <- (Z_mod_plus_full (_ - _) (Z.of_nat hval2)). f_equal. lia.
Qed.

(** The probe sequence reaches every index from 1 to [size]. *)
Lemma probe_surj i : 1 ≤ i ≤ size → ∃ t, t < size ∧ probe t = i.
Proof.
  intros Hi.
  destruct (rel_prime_bezout _ _ rel_prime_hval2) as [u v Huv].
  set (z := ((Z.of_nat hval - Z.of_nat i) * v)%Z).
  exists (Z.to_nat (z mod Z.of_nat size)).
  pose proof (Z.mod_pos_bound z (Z.of_nat size)). split; [lia|].
  apply range_mod_inj; [apply probe_range|done|]. rewrite probe_mod, Z2Nat.id by lia.
  rewrite Zminus_mod, Z.mul_mod_idemp_l, <- Zminus_mod by lia.
  replace (Z.of_nat hval - z * Z.of_nat hval2)%Z with
    (Z.of_nat i + (Z.of_nat hval - Z.of_nat i) * u * Z.of_nat size)%Z; [apply Z_mod_plus_full|].
  unfold z. nia.
Qed.

Lemma probe_not_start t : 0 < t < size → probe t ≠ hval.
Proof. intros Ht E. assert (t = 0) by (apply probe_inj; [lia..|exact E]). lia. Qed.
End Probe.
