(* ===== verification/Hashtable.v ===== *)
(** * The environment hash table: data and operations

    Translation of [lib/hashtable.c] and [include/search.h]: an open-addressing
    table with double hashing that holds the U-Boot environment. The struct is
    a record, the slots a list indexed from 0 to [size], and every function
    takes the table and returns it. Pointers to entries are slot indices. *)

From S2P Require Import Prelude Word32 HashProbe.
From stdpp Require Import base option list strings gmap.
From Stdlib Require Import ZArith Lia Ascii.
Local Open Scope nat_scope.

(** ** Data *)

Inductive env_op := env_op_create | env_op_delete | env_op_overwrite.

Inductive ACTION := FIND | ENTER.

Inductive errno := EINVAL | ESRCH | EPERM | ENOMEM.

(** [ENTRY]; a function pointer is a number that [EnvHooks] interprets. *)
Record ENTRY := mkENTRY {
  key : option string;
  data : option string;
  callback : option positive;
  flags : Z;
}.

(** [_ENTRY]; the field [used] is 0 for a slot that was never used, -1 for a
    deleted one, and the first hash index otherwise. *)
Record _ENTRY := mkSlot { used : Z; entry : ENTRY }.

Record hsearch_data := mkHtab {
  table : option (list _ENTRY);
  size : nat;
  filled : nat;
  change_ok : option (ENTRY → option string → env_op → Z → bool);
}.

(** What the table code calls: the callbacks themselves (true means a nonzero
    return, that is a rejection), the two functions of [env_callback.c] and
    [env_flags.c] that set the fields of a new entry, and the allocator
    ([None] is a null pointer, false a failed [calloc]). The class describes
    functions that return and do not change the table. [on_flags] and
    [on_callbacks] do change it: [EnvFlags.env_hsearch_r] and
    [EnvFlags.env_hdelete_r] add what they do; it concerns the callbacks and the
    flags of the entries, not their keys and values. The two lookups return for
    names that are not empty, in lists without a reference in front of them. *)
Class EnvHooks := {
  run_callback : positive → string → option string → env_op → Z → bool;
  env_callback_init : hsearch_data → ENTRY → option positive;
  env_flags_init : hsearch_data → ENTRY → Z;
  strdup : string → option string;
  calloc_ok : nat → bool;
}.

(** The results of the functions: the return value, [*retval] as a slot
    index, and the value stored in [errno], if any. *)
Record hret := mkRet { h_ret : nat; h_retval : option nat; h_errno : option errno }.

(** ** Access to the slots *)

Definition zero_entry : ENTRY := mkENTRY None None None 0.
Definition zero_slot : _ENTRY := mkSlot 0 zero_entry.

(** [htab->table[i]]; the theorems show that every index used is in range. *)
Definition slot (htab : hsearch_data) (i : nat) : _ENTRY :=
  default zero_slot (default [] (table htab) !! i).

Definition set_slot (i : nat) (s : _ENTRY) (htab : hsearch_data) : hsearch_data :=
  mkHtab (<[i := s]> <$> table htab) (size htab) (filled htab) (change_ok htab).

Definition set_filled (n : nat) (htab : hsearch_data) : hsearch_data :=
  mkHtab (table htab) (size htab) n (change_ok htab).

Definition set_data (d : option string) (e : ENTRY) : ENTRY :=
  mkENTRY (key e) d (callback e) (flags e).

(** [htab->table[i].used > 0]. *)
Definition live (s : _ENTRY) : bool := (0 <? used s)%Z.

Section Hashtable.
Context `{EnvHooks}.

(** ** Creation and destruction *)

(** [nel |= 1; while (!isprime(nel)) nel += 2]. *)
Fixpoint first_prime (k : nat) (nel : Z) : option Z :=
  match k with
  | O => None
  | S k =>
      b ← isprime nel;
      if b : bool then Some nel else first_prime k (nel + 2)%Z
  end.

Definition hcreate_r (k nel : nat) (htab : hsearch_data) : option (nat * hsearch_data) :=
  match table htab with
  | Some _ => Some (0, htab)
  | None =>
      p ← first_prime k (Z.lor (Z.of_nat nel) 1);
      let size := Z.to_nat p in
      if calloc_ok (size + 1) then
        Some (1, mkHtab (Some (replicate (size + 1) zero_slot)) size 0 (change_ok htab))
      else Some (0, mkHtab None size 0 (change_ok htab))
  end.

(** The loop of [hdestroy_r] only releases memory. *)
Definition hdestroy_r (htab : hsearch_data) : hsearch_data :=
  mkHtab None (size htab) (filled htab) (change_ok htab).

(** ** Prefix search *)

Fixpoint hmatch_loop (k : nat) (mtch : string) (idx : nat) (htab : hsearch_data) : hret :=
  match k with
  | O => mkRet 0 None (Some ESRCH)
  | S k =>
      if idx <? size htab then
        let s := slot htab idx in
        if negb (live s) then hmatch_loop k mtch (idx + 1) htab
        else if match key (entry s) with Some ky => String.prefix mtch ky | None => false end
        then mkRet idx (Some idx) None
        else hmatch_loop k mtch (idx + 1) htab
      else mkRet 0 None (Some ESRCH)
  end.

Definition hmatch_r (mtch : string) (last_idx : nat) (htab : hsearch_data) : hret :=
  hmatch_loop (size htab) mtch (last_idx + 1) htab.

(** ** Search *)

(** A [char] is signed on this platform. *)
Definition schar (c : ascii) : Z :=
  let z := Z.of_nat (nat_of_ascii c) in if (z <? 128)%Z then z else (z - 256)%Z.

(** The hash value: the characters from the last to the first. *)
Definition hash_string (ky : string) : Z :=
  fold_right (λ c h, u32 (u32 (Z.shiftl h 4) + schar c))
    (u32 (Z.of_nat (String.length ky))) (String.list_ascii_of_string ky).

(** The first index: the hash value modulo the size, but never 0. *)
Definition hash1 (ky : string) (htab : hsearch_data) : nat :=
  let hval := Z.to_nat (hash_string ky mod Z.of_nat (size htab)) in
  if hval =? 0 then 1 else hval.

(** The second hash function. *)
Definition hash2 (hval : nat) (htab : hsearch_data) : nat := 1 + hval mod (size htab - 2).

(** The part of [_compare_and_overwrite_entry] that runs when the slot holds
    the key: overwrite the value when asked to, and return the slot. *)
Definition overwrite_entry (item_key : string) (item_data : option string)
    (action : ACTION) (htab : hsearch_data) (flag : Z) (idx : nat) : hret * hsearch_data :=
  let s := slot htab idx in
  match action, item_data with
  | ENTER, Some d =>
      if match change_ok htab with
         | Some f => f (entry s) item_data env_op_overwrite flag | None => false end
      then (mkRet 0 None (Some EPERM), htab)
      else if match callback (entry s) with
              | Some cb => run_callback cb item_key item_data env_op_overwrite flag
              | None => false end
      then (mkRet 0 None (Some EINVAL), htab)
      else
        let htab := set_slot idx (mkSlot (used s) (set_data (strdup d) (entry s))) htab in
        match strdup d with
        | None => (mkRet 0 None (Some ENOMEM), htab)
        | Some _ => (mkRet idx (Some idx) None, htab)
        end
  | _, _ => (mkRet idx (Some idx) None, htab)
  end.

(** [None] is the return value -1: keep searching. [strcmp] of the key with
    the null key that a failed [strdup] leaves behind is undefined in C; here
    such a key is different from all others. *)
Definition _compare_and_overwrite_entry (item_key : string) (item_data : option string)
    (action : ACTION) (htab : hsearch_data) (flag : Z) (hval idx : nat)
  : option (hret * hsearch_data) :=
  let s := slot htab idx in
  if bool_decide (used s = Z.of_nat hval) && bool_decide (key (entry s) = Some item_key)
  then Some (overwrite_entry item_key item_data action htab flag idx)
  else None.

(** The [do] loop: [inl] is a result to return, [inr] the index at which the
    loop ends. *)
Fixpoint hsearch_loop (k : nat) (item_key : string) (item_data : option string)
    (action : ACTION) (htab : hsearch_data) (flag : Z) (hval hval2 idx : nat)
  : (hret * hsearch_data) + nat :=
  match k with
  | O => inr idx
  | S k =>
      let idx := probe_step (size htab) hval2 idx in
      if idx =? hval then inr idx
      else
        match _compare_and_overwrite_entry item_key item_data action htab flag hval idx with
        | Some r => inl r
        | None =>
            if bool_decide (used (slot htab idx) ≠ 0%Z)
            then hsearch_loop k item_key item_data action htab flag hval hval2 idx
            else inr idx
        end
  end.

Definition _hdelete (idx : nat) (htab : hsearch_data) : hsearch_data :=
  let e := entry (slot htab idx) in
  set_filled (filled htab - 1)
    (set_slot idx (mkSlot (-1) (mkENTRY (key e) (data e) None 0)) htab).

(** The part of [hsearch_r] that creates a new entry in the bucket [idx]. *)
Definition hsearch_enter (item_key : string) (item_data : option string)
    (htab : hsearch_data) (flag : Z) (hval idx : nat) : hret * hsearch_data :=
  if filled htab =? size htab then (mkRet 0 None (Some ENOMEM), htab)
  else
    let ky := strdup item_key in
    let dt := item_data ≫= strdup in
    let e := mkENTRY ky dt (callback (entry (slot htab idx))) (flags (entry (slot htab idx))) in
    let htab := set_slot idx (mkSlot (Z.of_nat hval) e) htab in
    match ky, dt with
    | Some _, Some _ =>
        let htab := set_filled (filled htab + 1) htab in
        let e := mkENTRY ky dt (env_callback_init htab e) (flags e) in
        let htab := set_slot idx (mkSlot (Z.of_nat hval) e) htab in
        let e := mkENTRY ky dt (callback e) (env_flags_init htab e) in
        let htab := set_slot idx (mkSlot (Z.of_nat hval) e) htab in
        if match change_ok htab with
           | Some f => f e item_data env_op_create flag | None => false end
        then (mkRet 0 None (Some EPERM), _hdelete idx htab)
        else if match callback e with
                | Some cb => run_callback cb item_key item_data env_op_create flag
                | None => false end
        then (mkRet 0 None (Some EINVAL), _hdelete idx htab)
        else (mkRet 1 (Some idx) None, htab)
    | _, _ => (mkRet 0 None (Some ENOMEM), htab)
    end.

Definition hsearch_r (item_key : string) (item_data : option string) (action : ACTION)
    (htab : hsearch_data) (flag : Z) : hret * hsearch_data :=
  let hval := hash1 item_key htab in
  let finish first_deleted idx :=
    match action with
    | ENTER =>
        hsearch_enter item_key item_data htab flag hval
          (if first_deleted =? 0 then idx else first_deleted)
    | FIND => (mkRet 0 None (Some ESRCH), htab)
    end in
  let s := slot htab hval in
  if bool_decide (used s ≠ 0%Z) then
    let first_deleted := if bool_decide (used s = (-1)%Z) then hval else 0 in
    match _compare_and_overwrite_entry item_key item_data action htab flag hval hval with
    | Some r => r
    | None =>
        match hsearch_loop (size htab) item_key item_data action htab flag
                hval (hash2 hval htab) hval with
        | inl r => r
        | inr idx => finish first_deleted idx
        end
    end
  else finish 0 hval.

(** ** Deletion *)

Definition hdelete_r (ky : string) (htab : hsearch_data) (flag : Z) : hret * hsearch_data :=
  let '(r, htab) := hsearch_r ky None FIND htab 0 in
  let idx := h_ret r in
  if idx =? 0 then (mkRet 0 None (Some ESRCH), htab)
  else
    let e := entry (slot htab idx) in
    if match change_ok htab with Some f => f e None env_op_delete flag | None => false end
    then (mkRet 0 None (Some EPERM), htab)
    else if match callback e with
            | Some cb => run_callback cb ky None env_op_delete flag | None => false end
    then (mkRet 0 None (Some EINVAL), htab)
    else (mkRet 1 None None, _hdelete idx htab).

(** ** Iteration *)

(** [hwalk_r]: the entries in slot order, up to the first nonzero result. *)
Fixpoint hwalk_loop (k i : nat) (htab : hsearch_data) (cb : ENTRY → Z) : Z :=
  match k with
  | O => 0
  | S k =>
      let s := slot htab i in
      if live s then
        let retval := cb (entry s) in
        if (retval =? 0)%Z then hwalk_loop k (i + 1) htab cb else retval
      else hwalk_loop k (i + 1) htab cb
  end.

Definition hwalk_r (htab : hsearch_data) (cb : ENTRY → Z) : Z := hwalk_loop (size htab) 1 htab cb.

End Hashtable.
