(* ===== verification/HashRefine.v ===== *)
(** * The environment hash table: refinement of a finite map

    [env_of] reads the table as a finite map from names to values. Under the
    invariant [htab_wf], searching, entering and deleting are lookup, insert
    and delete of that map, on every branch, rejections included. *)

From stdpp Require Import base option list strings gmap.
From Stdlib Require Import ZArith Znumtheory Lia.
From S2P Require Import Prelude Word32 HashProbe Hashtable.
Local Open Scope nat_scope.

(** ** The table as a map *)

(** The binding of a slot. *)
Definition slot_kv (s : _ENTRY) : option (string * string) :=
  if live s then k ← key (entry s); d ← data (entry s); Some (k, d) else None.

Definition kv (htab : hsearch_data) (i : nat) : option (string * string) :=
  slot_kv (slot htab i).

Definition bind_slots (htab : hsearch_data) (l : list nat) : gmap string string :=
  foldr (λ i m, match kv htab i with Some (k, d) => <[k := d]> m | None => m end) ∅ l.

Definition env_of (htab : hsearch_data) : gmap string string :=
  bind_slots htab (seq 1 (size htab)).

Definition in_range (htab : hsearch_data) (i : nat) : Prop := 1 ≤ i ≤ size htab.

(** The probe sequence of a key. *)
Definition key_probe (htab : hsearch_data) (k : string) (t : nat) : nat :=
  probe (size htab) (hash1 k htab) (hash2 (hash1 k htab) htab) t.

(** The invariant of the slots. *)
Record htab_inv (htab : hsearch_data) : Prop := {
  wf_prime : prime (Z.of_nat (size htab));
  wf_big : 5 ≤ size htab;
  wf_table : ∃ t, table htab = Some t ∧ length t = S (size htab);
  wf_used i : live (slot htab i) = false →
    used (slot htab i) = 0%Z ∨ used (slot htab i) = (-1)%Z;
  wf_live i : in_range htab i → live (slot htab i) = true →
    ∃ k d, kv htab i = Some (k, d) ∧ used (slot htab i) = Z.of_nat (hash1 k htab);
  wf_unique i j k d d' : in_range htab i → in_range htab j →
    kv htab i = Some (k, d) → kv htab j = Some (k, d') → i = j;
  wf_path i k d t : in_range htab i → kv htab i = Some (k, d) →
    t < size htab → key_probe htab k t = i →
    ∀ u, u < t → used (slot htab (key_probe htab k u)) ≠ 0%Z;
}.

(** The whole invariant: [filled] counts the bindings. *)
Definition htab_wf (htab : hsearch_data) : Prop :=
  htab_inv htab ∧ filled htab = base.size (env_of htab).

Lemma kv_Some htab i k d :
  kv htab i = Some (k, d) ↔
  live (slot htab i) = true ∧ key (entry (slot htab i)) = Some k ∧
  data (entry (slot htab i)) = Some d.
Proof.
  unfold kv, slot_kv. destruct (live _), (key _), (data _); naive_solver.
Qed.

(** *** Lookup in the map of a list of slots with different keys *)

Definition keys_differ (htab : hsearch_data) (l : list nat) : Prop :=
  ∀ i j k d d', i ∈ l → j ∈ l → kv htab i = Some (k, d) → kv htab j = Some (k, d') → i = j.

Lemma bind_slots_lookup htab l k d :
  keys_differ htab l → (bind_slots htab l !! k = Some d ↔ ∃ i, i ∈ l ∧ kv htab i = Some (k, d)).
Proof.
  induction l as [|a l IH]; intros Hd; simpl; [set_solver|].
  assert (Hd' : keys_differ htab l).
  { intros i j k' d1 d2 Hi Hj. apply Hd; by right. }
  specialize (IH Hd'). destruct (kv htab a) as [[k' d']|] eqn:E.
  - rewrite lookup_insert_Some. split.
    + intros [[<- <-]|[Hne Hl]]; [exists a; split; [by left|done]|].
      apply IH in Hl as (i & ? & ?). exists i. split; [by right|done].
    + intros (i & Hi & Hk). destruct (decide (k' = k)) as [->|Hne].
      * left. split; [done|]. assert (a = i) as -> by (eapply (Hd a i k); eauto; by left). congruence.
      * right. split; [done|]. apply IH. apply elem_of_cons in Hi as [->|Hi]; [congruence|eauto].
  - rewrite IH. split; intros (i & Hi & Hk).
    + exists i. split; [by right|done].
    + apply elem_of_cons in Hi as [->|Hi]; [congruence|eauto].
Qed.

Lemma wf_keys_differ htab : htab_inv htab → keys_differ htab (seq 1 (size htab)).
Proof.
  intros W i j k d d' Hi Hj. apply elem_of_seq in Hi, Hj.
  apply (wf_unique _ W); unfold in_range; lia.
Qed.

Lemma env_of_lookup htab k d :
  htab_inv htab → (env_of htab !! k = Some d ↔ ∃ i, in_range htab i ∧ kv htab i = Some (k, d)).
Proof.
  intros W. unfold env_of. rewrite bind_slots_lookup by by apply wf_keys_differ.
  unfold in_range. setoid_rewrite elem_of_seq.
  split; intros (i & Hi & ?); exists i; (split; [lia|done]).
Qed.

Lemma env_of_None htab k :
  htab_inv htab → env_of htab !! k = None →
  ∀ i d, in_range htab i → kv htab i ≠ Some (k, d).
Proof.
  intros W Hn i d Hi Hk. assert (env_of htab !! k = Some d) by (apply env_of_lookup; eauto).
  congruence.
Qed.

(** Maps with the same bindings. *)
Lemma env_of_ext htab m :
  htab_inv htab →
  (∀ k d, m !! k = Some d ↔ ∃ i, in_range htab i ∧ kv htab i = Some (k, d)) → env_of htab = m.
Proof.
  intros W Hm. apply map_eq. intros k. apply option_eq. intros d.
  rewrite Hm. by apply env_of_lookup.
Qed.

(** ** Probing *)

Section Refine.
Context `{EnvHooks}.

Section Table.
Context (htab : hsearch_data) (W : htab_inv htab).

Lemma hash1_range k : 1 ≤ hash1 k htab ≤ size htab.
Proof.
  pose proof (wf_big _ W). unfold hash1.
  pose proof (Z.mod_pos_bound (hash_string k) (Z.of_nat (size htab))).
  destruct (Nat.eqb_spec (Z.to_nat (hash_string k mod Z.of_nat (size htab))) 0); lia.
Qed.

Lemma hash2_range h : 1 ≤ hash2 h htab < size htab.
Proof.
  pose proof (wf_big _ W). unfold hash2.
  pose proof (Nat.mod_upper_bound h (size htab - 2)). lia.
Qed.

Lemma key_probe_range k t : in_range htab (key_probe htab k t).
Proof. apply probe_range; [apply hash1_range|apply hash2_range]. Qed.

Lemma key_probe_inj k t u :
  t < size htab → u < size htab → key_probe htab k t = key_probe htab k u → t = u.
Proof. apply probe_inj; [apply (wf_prime _ W)|apply hash1_range|apply hash2_range]. Qed.

Lemma key_probe_surj k i : in_range htab i → ∃ t, t < size htab ∧ key_probe htab k t = i.
Proof. apply probe_surj; [apply (wf_prime _ W)|apply hash1_range|apply hash2_range]. Qed.

Lemma key_probe_start k t : t < size htab → key_probe htab k t = hash1 k htab → t = 0.
Proof.
  intros Ht E. pose proof (wf_big _ W). apply (key_probe_inj k); [done|lia|exact E].
Qed.

Lemma key_probe_size k : key_probe htab k (size htab) = hash1 k htab.
Proof. apply probe_size; [apply hash1_range|apply hash2_range]. Qed.

(** A slot answers to the key exactly when it binds it. *)
Lemma compare_spec k d action flag i :
  in_range htab i →
  _compare_and_overwrite_entry k d action htab flag (hash1 k htab) i =
  match kv htab i with
  | Some (k', _) => if bool_decide (k' = k)
                    then Some (overwrite_entry k d action htab flag i) else None
  | None => None
  end.
Proof.
  intros Hi. unfold _compare_and_overwrite_entry. pose proof (hash1_range k).
  destruct (live (slot htab i)) eqn:L.
  - destruct (wf_live _ W i Hi L) as (k' & d' & Hk & Hu). rewrite Hk.
    apply kv_Some in Hk as (_ & Hk & _). rewrite Hk.
    repeat case_bool_decide; simplify_eq; try done; lia.
  - unfold kv, slot_kv. rewrite L. rewrite bool_decide_eq_false_2; [done|]. intros Hu.
    unfold live in L. rewrite Hu in L. apply Z.ltb_ge in L. lia.
Qed.

(** The loop finds the slot of a bound key. *)
Lemma hsearch_loop_found k d d' action flag i t0 : ∀ n t,
  in_range htab i → kv htab i = Some (k, d') → t0 < size htab → key_probe htab k t0 = i →
  t < t0 → t0 - t ≤ n →
  hsearch_loop n k d action htab flag (hash1 k htab) (hash2 (hash1 k htab) htab)
    (key_probe htab k t) = inl (overwrite_entry k d action htab flag i).
Proof.
  intros n. induction n as [|n IH]; intros t Hi Hk Ht0 Hp Ht Hn; [lia|]. cbn [hsearch_loop].
  change (probe_step (size htab) (hash2 (hash1 k htab) htab) (key_probe htab k t))
    with (key_probe htab k (S t)).
  destruct (Nat.eqb_spec (key_probe htab k (S t)) (hash1 k htab)) as [E|_].
  { apply key_probe_start in E; lia. }
  rewrite compare_spec by apply key_probe_range.
  destruct (decide (S t = t0)) as [E|Hne].
  - rewrite E, Hp, Hk. by rewrite bool_decide_eq_true_2.
  - rewrite bool_decide_eq_true_2 by (eapply (wf_path _ W); eauto; lia).
    destruct (kv htab (key_probe htab k (S t))) as [[k' d'']|] eqn:Hk'; [|apply IH; auto; lia].
    case_bool_decide as Hkk; [subst k'|apply IH; auto; lia].
    exfalso. apply Hne. apply (key_probe_inj k); [lia..|]. rewrite Hp.
    eapply (wf_unique _ W); eauto using key_probe_range.
Qed.

(** For an unbound key the loop stops at the first slot that was never used,
    or after it has visited all of them. *)
Lemma hsearch_loop_absent k d action flag : ∀ n t,
  env_of htab !! k = None → t < size htab → size htab - t ≤ n →
  ∃ t', t < t' ≤ size htab ∧
    hsearch_loop n k d action htab flag (hash1 k htab) (hash2 (hash1 k htab) htab)
      (key_probe htab k t) = inr (key_probe htab k t') ∧
    (t' = size htab ∨ used (slot htab (key_probe htab k t')) = 0%Z) ∧
    (∀ u, t < u < t' → used (slot htab (key_probe htab k u)) ≠ 0%Z).
Proof.
  intros n. induction n as [|n IH]; intros t Hnone Ht Hn; [lia|]. cbn [hsearch_loop].
  change (probe_step (size htab) (hash2 (hash1 k htab) htab) (key_probe htab k t))
    with (key_probe htab k (S t)).
  destruct (Nat.eqb_spec (key_probe htab k (S t)) (hash1 k htab)) as [E|Hne].
  { exists (S t). split; [lia|]. split; [done|]. split; [|intros; lia]. left.
    destruct (decide (S t < size htab)); [apply key_probe_start in E; [done|lia]|lia]. }
  rewrite compare_spec by apply key_probe_range.
  assert (S t < size htab).
  { destruct (decide (S t = size htab)) as [E|]; [|lia]. rewrite E in Hne.
    by destruct Hne; apply key_probe_size. }
  assert (Hc : match kv htab (key_probe htab k (S t)) with
    | Some (k', _) => if bool_decide (k' = k)
        then Some (overwrite_entry k d action htab flag (key_probe htab k (S t))) else None
    | None => None end = None).
  { destruct (kv _ _) as [[k' d']|] eqn:Hk; [|done]. case_bool_decide; [subst|done].
    exfalso. eapply env_of_None; eauto using key_probe_range. }
  rewrite Hc. case_bool_decide as Hu.
  - destruct (IH (S t)) as (t' & Ht' & -> & Hend & Hpath); [done|lia..|].
    exists t'. split; [lia|]. split; [done|]. split; [done|]. intros u Hu'.
    destruct (decide (u = S t)) as [->|]; [done|]. apply Hpath. lia.
  - exists (S t). split; [lia|]. split; [done|]. split; [|intros; lia].
    by right.
Qed.

(** ** The whole search *)

Lemma hsearch_found k d d' action flag i :
  in_range htab i → kv htab i = Some (k, d') →
  hsearch_r k d action htab flag = overwrite_entry k d action htab flag i.
Proof.
  intros Hi Hk. unfold hsearch_r.
  destruct (key_probe_surj k i Hi) as (t0 & Ht0 & Hp). pose proof (wf_big _ W).
  assert (Hlive : live (slot htab i) = true) by (by apply kv_Some in Hk as (? & _)).
  rewrite bool_decide_eq_true_2; [rewrite compare_spec by apply hash1_range|].
  - destruct (decide (t0 = 0)) as [->|].
    + change (hash1 k htab = i) in Hp. rewrite Hp, Hk. by rewrite bool_decide_eq_true_2.
    + assert (Hne : hash1 k htab ≠ i).
      { rewrite <- Hp. intros E. symmetry in E. apply key_probe_start in E; lia. }
      pose proof (hsearch_loop_found k d d' action flag i t0 (size htab) 0
        Hi Hk Ht0 Hp ltac:(lia) ltac:(lia)) as E.
      change (key_probe htab k 0) with (hash1 k htab) in E.
      destruct (kv htab (hash1 k htab)) as [[k' d'']|] eqn:Hk0; [case_bool_decide|].
      { subst k'. exfalso. apply Hne. eapply (wf_unique _ W); eauto. apply hash1_range. }
      all: by rewrite E.
  - destruct (decide (t0 = 0)) as [->|].
    + change (hash1 k htab = i) in Hp. rewrite Hp. unfold live in Hlive. lia.
    + apply (wf_path _ W i k d' t0 Hi Hk Ht0 Hp 0). lia.
Qed.

(** The bucket that [hsearch_r] chooses for a new key, when some bucket was
    never used: it holds no live entry, and the key's probe sequence reaches
    it through used buckets. *)
Record free_bucket (k : string) (idx : nat) : Prop := {
  fb_range : in_range htab idx;
  fb_live : live (slot htab idx) = false;
  fb_path t : t < size htab → key_probe htab k t = idx →
    ∀ u, u < t → used (slot htab (key_probe htab k u)) ≠ 0%Z;
}.

Lemma free_bucket_at k t :
  t < size htab → live (slot htab (key_probe htab k t)) = false →
  (∀ u, u < t → used (slot htab (key_probe htab k u)) ≠ 0%Z) →
  free_bucket k (key_probe htab k t).
Proof.
  intros Ht Hl Hp. split; [apply key_probe_range|done|].
  intros t' Ht' E u Hu. apply key_probe_inj in E; [|done..]. subst. auto.
Qed.

Lemma hsearch_absent k d action flag :
  env_of htab !! k = None →
  (∃ i, in_range htab i ∧ used (slot htab i) = 0%Z) →
  ∃ idx, free_bucket k idx ∧
    hsearch_r k d action htab flag =
    match action with
    | ENTER => hsearch_enter k d htab flag (hash1 k htab) idx
    | FIND => (mkRet 0 None (Some ESRCH), htab)
    end.
Proof.
  intros Hnone (i & Hi & Hfree). unfold hsearch_r. pose proof (wf_big _ W).
  assert (Huse : ∀ j, used (slot htab j) = 0%Z → live (slot htab j) = false)
    by (intros j E; unfold live; rewrite E; done).
  case_bool_decide as Hu; cycle 1.
  { exists (hash1 k htab). split; [|done]. apply (free_bucket_at k 0); [lia| |lia].
    by apply Huse. }
  rewrite compare_spec by apply hash1_range.
  assert (Hc : match kv htab (hash1 k htab) with
    | Some (k', _) => if bool_decide (k' = k)
        then Some (overwrite_entry k d action htab flag (hash1 k htab)) else None
    | None => None end = None).
  { destruct (kv _ _) as [[k' d']|] eqn:Hk; [|done]. case_bool_decide; [subst|done].
    exfalso. exact (env_of_None htab k W Hnone _ d' (hash1_range k) Hk). }
  rewrite Hc.
  destruct (hsearch_loop_absent k d action flag (size htab) 0) as (t' & Ht' & E & Hend & Hpath);
    [done|lia..|].
  change (key_probe htab k 0) with (hash1 k htab) in E. rewrite E. clear E.
  case_bool_decide as Hdel.
  - exists (hash1 k htab). split; [apply (free_bucket_at k 0); [lia| |lia]|].
    { unfold live. change (key_probe htab k 0) with (hash1 k htab). by rewrite Hdel. }
    destruct action; [done|]. pose proof (hash1_range k).
    destruct (Nat.eqb_spec (hash1 k htab) 0); [lia|done].
  - assert (Ht : t' < size htab ∧ used (slot htab (key_probe htab k t')) = 0%Z).
    { destruct Hend as [->|]; [|split; [|done]].
      - exfalso. destruct (key_probe_surj k i Hi) as (t & Ht & <-).
        destruct (decide (t = 0)) as [->|]; [done|]. apply (Hpath t); [lia|done].
      - destruct (decide (t' = size htab)) as [->|]; [|lia].
        by rewrite key_probe_size in *. }
    destruct Ht as [Ht Hz]. exists (key_probe htab k t'). split; [|by destruct action].
    apply free_bucket_at; [done|by apply Huse|]. intros u Hu'.
    destruct (decide (u = 0)) as [->|]; [done|]. apply Hpath. lia.
Qed.

(** When every bucket has been used and the first one of a new key is live, the
    loop comes back to that bucket. *)
Lemma hsearch_crowded k d flag :
  env_of htab !! k = None → (∀ i, in_range htab i → used (slot htab i) ≠ 0%Z) →
  live (slot htab (hash1 k htab)) = true →
  hsearch_r k d ENTER htab flag = hsearch_enter k d htab flag (hash1 k htab) (hash1 k htab).
Proof.
  intros Hnone Hused Hl. unfold hsearch_r. pose proof (wf_big _ W).
  rewrite bool_decide_eq_true_2 by apply Hused, hash1_range. rewrite compare_spec by apply hash1_range.
  assert (Hc : match kv htab (hash1 k htab) with
    | Some (k', _) => if bool_decide (k' = k)
        then Some (overwrite_entry k d ENTER htab flag (hash1 k htab)) else None
    | None => None end = None).
  { destruct (kv _ _) as [[k' d']|] eqn:Hk; [|done]. case_bool_decide; [subst|done].
    exfalso. exact (env_of_None htab k W Hnone _ d' (hash1_range k) Hk). }
  rewrite Hc.
  destruct (hsearch_loop_absent k d ENTER flag (size htab) 0) as (t' & Ht' & E & Hend & _); [done|lia..|].
  change (key_probe htab k 0) with (hash1 k htab) in E. rewrite E.
  rewrite bool_decide_eq_false_2 by (intros Eu; unfold live in Hl; by rewrite Eu in Hl). cbn [Nat.eqb].
  destruct Hend as [->|Hz]; [by rewrite key_probe_size|]. destruct (Hused (key_probe htab k t')); [apply key_probe_range|done].
Qed.

Lemma hsearch_absent_find k d flag :
  env_of htab !! k = None →
  hsearch_r k d FIND htab flag = (mkRet 0 None (Some ESRCH), htab).
Proof.
  intros Hnone. unfold hsearch_r. case_bool_decide; [|done]. pose proof (wf_big _ W).
  rewrite compare_spec by apply hash1_range.
  assert (Hc : match kv htab (hash1 k htab) with
    | Some (k', _) => if bool_decide (k' = k)
        then Some (overwrite_entry k d FIND htab flag (hash1 k htab)) else None
    | None => None end = None).
  { destruct (kv _ _) as [[k' d']|] eqn:Hk; [|done]. case_bool_decide; [subst|done].
    exfalso. exact (env_of_None htab k W Hnone _ d' (hash1_range k) Hk). }
  rewrite Hc.
  destruct (hsearch_loop_absent k d FIND flag (size htab) 0) as (t' & _ & E & _);
    [done|lia..|].
  change (key_probe htab k 0) with (hash1 k htab) in E. by rewrite E.
Qed.

(** ** Writing a slot *)

(** The table with the slot [i] replaced and [filled] set. *)
Definition write (i : nat) (s : _ENTRY) (n : nat) : hsearch_data :=
  set_filled n (set_slot i s htab).

Lemma slot_write i s n j :
  in_range htab i → slot (write i s n) j = if decide (j = i) then s else slot htab j.
Proof.
  destruct (wf_table _ W) as (t & Ht & Hl). intros Hi. unfold slot, write, set_filled, set_slot.
  simpl. rewrite Ht. simpl. unfold in_range in Hi.
  case_decide as E; [subst; by rewrite list_lookup_insert_eq by lia|by rewrite list_lookup_insert_ne].
Qed.

Lemma kv_write i s n j :
  in_range htab i → kv (write i s n) j = if decide (j = i) then slot_kv s else kv htab j.
Proof. intros Hi. unfold kv. rewrite slot_write by done. by case_decide. Qed.

(** What a slot must satisfy to be written at [i]. *)
Record slot_ok (i : nat) (s : _ENTRY) : Prop := {
  sk_used : (used s ≠ 0)%Z;
  sk_dead : live s = false → used s = (-1)%Z;
  sk_live : live s = true → ∃ k d, slot_kv s = Some (k, d) ∧ used s = Z.of_nat (hash1 k htab);
  sk_unique k d j d' : slot_kv s = Some (k, d) → in_range htab j → j ≠ i → kv htab j ≠ Some (k, d');
  sk_path k d t : slot_kv s = Some (k, d) → t < size htab → key_probe htab k t = i →
    ∀ u, u < t → used (slot htab (key_probe htab k u)) ≠ 0%Z;
}.

Lemma inv_write i s n : in_range htab i → slot_ok i s → htab_inv (write i s n).
Proof.
  intros Hi [Hu Hdead Hlive Huniq Hpath].
  assert (Hnz : ∀ j, used (slot htab j) ≠ 0%Z → used (slot (write i s n) j) ≠ 0%Z).
  { intros j Hj. rewrite slot_write by done. by case_decide. }
  split.
  - apply (wf_prime _ W).
  - apply (wf_big _ W).
  - destruct (wf_table _ W) as (t & Ht & Hl). exists (<[i := s]> t).
    unfold write, set_filled, set_slot. simpl. rewrite Ht. split; [done|]. by rewrite length_insert.
  - intros j. rewrite slot_write by done. case_decide; [auto|apply (wf_used _ W)].
  - intros j Hj. rewrite slot_write, kv_write by done.
    case_decide; [exact Hlive|exact (wf_live _ W j Hj)].
  - intros j j' k d d'. change (in_range (write i s n)) with (in_range htab). intros Hj Hj'.
    rewrite !kv_write by done. repeat case_decide; subst; auto.
    + intros Hk Hk'. by destruct (Huniq k _ j' d' Hk).
    + intros Hk Hk'. by destruct (Huniq k _ j d Hk').
    + by apply (wf_unique _ W).
  - intros j k d t Hj. rewrite kv_write by done. intros Hk Ht Hp u Hlt. apply Hnz.
    revert Hk. case_decide; intros Hk; [subst; by eapply Hpath|].
    by apply (wf_path _ W j k d t Hj Hk Ht Hp u).
Qed.

Lemma env_of_write_live i s n k d :
  in_range htab i → slot_ok i s → slot_kv s = Some (k, d) →
  (kv htab i = None ∨ ∃ d', kv htab i = Some (k, d')) →
  env_of (write i s n) = <[k := d]> (env_of htab).
Proof.
  intros Hi Hs Hk Hold. apply env_of_ext; [by apply inv_write|]. intros k0 d0.
  change (in_range (write i s n)) with (in_range htab).
  rewrite lookup_insert_Some, env_of_lookup by done. split.
  - intros [[<- <-]|[Hne (j & Hj & Hkj)]].
    + exists i. split; [done|]. rewrite kv_write by done. by rewrite decide_True.
    + exists j. split; [done|]. rewrite kv_write by done. case_decide; [subst j|done].
      destruct Hold as [?|[d' ?]]; congruence.
  - intros (j & Hj & Hkj). rewrite kv_write in Hkj by done. case_decide; [left; naive_solver|].
    right. split; [|eauto]. intros ->. by eapply (sk_unique _ _ Hs).
Qed.

(** Over the slot of another key. *)
Lemma env_of_write_over i s n k d k0 d0 :
  in_range htab i → slot_ok i s → slot_kv s = Some (k, d) → kv htab i = Some (k0, d0) → k0 ≠ k →
  env_of (write i s n) = <[k := d]> (delete k0 (env_of htab)).
Proof.
  intros Hi Hs Hk Hold Hne. apply env_of_ext; [by apply inv_write|]. intros k1 d1.
  change (in_range (write i s n)) with (in_range htab).
  rewrite lookup_insert_Some, lookup_delete_Some, env_of_lookup by done. split.
  - intros [[<- <-]|(Hk1 & Hk0 & j & Hj & Hkj)].
    + exists i. split; [done|]. rewrite kv_write by done. by rewrite decide_True.
    + exists j. split; [done|]. rewrite kv_write by done. case_decide; [congruence|done].
  - intros (j & Hj & Hkj). rewrite kv_write in Hkj by done. case_decide as Ej; [left; naive_solver|].
    right. split; [intros ->; by eapply (sk_unique _ _ Hs)|]. split; [|eauto].
    intros ->. apply Ej. by eapply (wf_unique _ W).
Qed.

Lemma env_of_write_dead i s n :
  in_range htab i → slot_ok i s → live s = false →
  env_of (write i s n) =
  match kv htab i with Some (k, _) => delete k (env_of htab) | None => env_of htab end.
Proof.
  intros Hi Hs Hl. assert (Hk : slot_kv s = None) by (unfold slot_kv; by rewrite Hl).
  apply env_of_ext; [by apply inv_write|]. intros k0 d0.
  change (in_range (write i s n)) with (in_range htab).
  assert (Hw : (∃ j, in_range htab j ∧ kv (write i s n) j = Some (k0, d0)) ↔
    ∃ j, in_range htab j ∧ j ≠ i ∧ kv htab j = Some (k0, d0)).
  { split; intros (j & Hj & Hr).
    - rewrite kv_write in Hr by done. case_decide; [congruence|eauto].
    - exists j. split; [done|]. destruct Hr as [Hji Hr].
      rewrite kv_write by done. by rewrite decide_False. }
  rewrite Hw. destruct (kv htab i) as [[k d]|] eqn:Hki.
  - rewrite lookup_delete_Some, env_of_lookup by done. split.
    + intros [Hne (j & Hj & Hkj)]. exists j. split_and!; auto. intros ->. congruence.
    + intros (j & Hj & Hji & Hkj). split; [|eauto]. intros <-. apply Hji.
      by eapply (wf_unique _ W).
  - rewrite env_of_lookup by done. split.
    + intros (j & Hj & Hkj). exists j. split_and!; auto. intros ->. congruence.
    + intros (j & Hj & _ & Hkj). eauto.
Qed.
End Table.

(** ** The operations *)

Lemma set_slot_twice i s s' htab : set_slot i s (set_slot i s' htab) = set_slot i s htab.
Proof.
  unfold set_slot. simpl. f_equal. destruct (table htab); simpl; [|done].
  by rewrite list_insert_insert_eq.
Qed.

Lemma set_slot_filled i s n htab : set_slot i s (set_filled n htab) = set_filled n (set_slot i s htab).
Proof. done. Qed.

Lemma set_filled_twice n m htab : set_filled n (set_filled m htab) = set_filled n htab.
Proof. done. Qed.

Lemma write_write htab i s n s' m : write (write htab i s n) i s' m = write htab i s' m.
Proof. unfold write. by rewrite set_slot_filled, set_filled_twice, set_slot_twice. Qed.

Lemma hdelete_write htab i s n :
  htab_inv htab → in_range htab i →
  _hdelete i (write htab i s n) =
  write htab i (mkSlot (-1) (mkENTRY (key (entry s)) (data (entry s)) None 0)) (n - 1).
Proof.
  intros W Hi. unfold _hdelete. rewrite slot_write by done. rewrite decide_True by done.
  apply write_write.
Qed.

(** Why an operation can be rejected. *)
Definition rejected (htab : hsearch_data) (k : string) (v : option string) (op : env_op)
    (flag : Z) (e : errno) : Prop :=
  (e = EPERM ∧ ∃ f ent, change_ok htab = Some f ∧ f ent v op flag = true) ∨
  (e = EINVAL ∧ ∃ cb, run_callback cb k v op flag = true).

Context (strdup_ok : ∀ s, strdup s = Some s).

(** The slot of a new binding, and the one that a rejected creation leaves. *)
Definition new_slot (htab : hsearch_data) (k v : string) cb fl : _ENTRY :=
  mkSlot (Z.of_nat (hash1 k htab)) (mkENTRY (Some k) (Some v) cb fl).
Definition dead_slot (k v : string) : _ENTRY := mkSlot (-1) (mkENTRY (Some k) (Some v) None 0).

Lemma hsearch_enter_cases htab k v flag idx :
  htab_inv htab → in_range htab idx → filled htab ≠ size htab →
  (∃ cb fl, hsearch_enter k (Some v) htab flag (hash1 k htab) idx =
    (mkRet 1 (Some idx) None, write htab idx (new_slot htab k v cb fl) (filled htab + 1)) ∧
    ∀ f, change_ok htab = Some f → f (mkENTRY (Some k) (Some v) cb fl) (Some v) env_op_create flag = false) ∨
  (∃ e, rejected htab k (Some v) env_op_create flag e ∧
    hsearch_enter k (Some v) htab flag (hash1 k htab) idx =
    (mkRet 0 None (Some e), write htab idx (dead_slot k v) (filled htab))).
Proof.
  intros W Hi Hf. unfold hsearch_enter.
  destruct (Nat.eqb_spec (filled htab) (size htab)) as [|_]; [done|]. simpl (Some v ≫= _).
  rewrite !strdup_ok. cbn zeta iota beta.
  rewrite !set_slot_filled, !set_slot_twice.
  match goal with |- context [env_callback_init ?a ?b] => generalize (env_callback_init a b) end.
  intros cb. cbn [callback].
  match goal with |- context [env_flags_init ?a ?b] => generalize (env_flags_init a b) end.
  intros fl. change (filled (set_slot _ _ htab)) with (filled htab).
  change (set_filled (filled htab + 1) (set_slot idx ?s htab)) with (write htab idx s (filled htab + 1)).
  rewrite hdelete_write by done. cbn [key data entry].
  replace (filled htab + 1 - 1) with (filled htab) by lia.
  change (change_ok (write _ _ _ _)) with (change_ok htab).
  destruct (change_ok htab) as [f|] eqn:Hc.
  - match goal with |- context [f ?a ?b ?c ?d] => destruct (f a b c d) eqn:Hr end.
    + right. eexists. split; [|done]. left. split; [done|]. eauto.
    + assert (Hok : ∀ f', Some f = Some f' → f' (mkENTRY (Some k) (Some v) cb fl) (Some v) env_op_create flag = false) by (by intros f' [= <-]).
      destruct cb as [cb|]; [|left; eauto].
      destruct (run_callback cb k (Some v) env_op_create flag) eqn:Hb; [|left; eauto].
      right. eexists. split; [|done]. right. eauto.
  - destruct cb as [cb|]; [|left; eexists _, _; by split].
    destruct (run_callback cb k (Some v) env_op_create flag) eqn:Hb; [|left; eexists _, _; by split].
    right. eexists. split; [|done]. right. eauto.
Qed.

Lemma first_slot_ok htab k v cb fl :
  htab_inv htab → env_of htab !! k = None →
  slot_ok htab (hash1 k htab) (new_slot htab k v cb fl) ∧ slot_kv (new_slot htab k v cb fl) = Some (k, v).
Proof.
  intros W Hn. pose proof (hash1_range htab W k) as Hr.
  assert (L : live (new_slot htab k v cb fl) = true) by (apply Z.ltb_lt; simpl; lia).
  assert (K : slot_kv (new_slot htab k v cb fl) = Some (k, v)) by (unfold slot_kv; by rewrite L).
  split; [|done]. split.
  - simpl. lia.
  - by rewrite L.
  - intros _. exists k, v. done.
  - rewrite K. intros k' d j d' ? Hj Hne. simplify_eq. by apply env_of_None.
  - rewrite K. intros k' d t ? Ht Hp u Hu. simplify_eq. apply key_probe_start in Hp; [lia|done..].
Qed.

Lemma new_slot_ok htab k v cb fl idx :
  htab_inv htab → env_of htab !! k = None → free_bucket htab k idx →
  slot_ok htab idx (new_slot htab k v cb fl) ∧ slot_kv (new_slot htab k v cb fl) = Some (k, v).
Proof.
  intros W Hn [Hr Hl Hp]. pose proof (hash1_range htab W k).
  assert (L : live (new_slot htab k v cb fl) = true) by (apply Z.ltb_lt; simpl; lia).
  assert (K : slot_kv (new_slot htab k v cb fl) = Some (k, v)) by (unfold slot_kv; by rewrite L).
  split; [|done]. split.
  - simpl. lia.
  - by rewrite L.
  - intros _. exists k, v. done.
  - rewrite K. intros k' d j d' ? Hj Hne. simplify_eq. by apply env_of_None.
  - rewrite K. intros k' d t ?. simplify_eq. apply Hp.
Qed.

Lemma dead_slot_ok htab i e : slot_ok htab i (mkSlot (-1) e).
Proof. split; [done|done|done|..]; intros k d; unfold slot_kv; done. Qed.

(** [data] replaced in the slot of a bound key. *)
Lemma overwrite_slot_ok htab i k d v :
  htab_inv htab → in_range htab i → kv htab i = Some (k, d) →
  let s := mkSlot (used (slot htab i)) (set_data (Some v) (entry (slot htab i))) in
  slot_ok htab i s ∧ slot_kv s = Some (k, v).
Proof.
  intros W Hi Hk s. pose proof Hk as (Hl & Hky & Hd)%kv_Some.
  assert (L : live s = true) by done.
  assert (K : slot_kv s = Some (k, v)).
  { unfold slot_kv. rewrite L. simpl. by rewrite Hky. }
  destruct (wf_live _ W i Hi Hl) as (k' & d' & Hk' & Hu). rewrite Hk in Hk'. simplify_eq.
  split; [|done]. split.
  - unfold live in L. simpl in L. simpl. lia.
  - by rewrite L.
  - intros _. rewrite K. eauto.
  - rewrite K. intros k d j d2 ? Hj Hne Hkj. simplify_eq. apply Hne. by eapply (wf_unique _ W).
  - rewrite K. intros k d t ? Ht Hp. simplify_eq. by eapply (wf_path _ W).
Qed.

(** *** Search *)

Lemma hsearch_find_ok htab k v flag :
  htab_inv htab →
  (hsearch_r k v FIND htab flag).2 = htab ∧
  match env_of htab !! k with
  | Some d => ∃ i, in_range htab i ∧ kv htab i = Some (k, d) ∧
      (hsearch_r k v FIND htab flag).1 = mkRet i (Some i) None
  | None => (hsearch_r k v FIND htab flag).1 = mkRet 0 None (Some ESRCH)
  end.
Proof.
  intros W. destruct (env_of htab !! k) as [d|] eqn:E.
  - apply env_of_lookup in E as (i & Hi & Hk); [|done].
    rewrite (hsearch_found htab W k v d FIND flag i Hi Hk). simpl. eauto.
  - by rewrite hsearch_absent_find.
Qed.

(** The outcome of entering [k = v]: the new table is well formed and either
    has the binding, or, with an error that has a cause, the old bindings. *)
Record enter_ok (htab : hsearch_data) (k v : string) (flag : Z) (r : hret) (htab' : hsearch_data)
  : Prop := {
  en_wf : htab_wf htab';
  en_size : size htab' = size htab;
  en_change : change_ok htab' = change_ok htab;
  en_result :
    (h_errno r = None ∧ h_ret r ≠ 0 ∧ env_of htab' = <[k := v]> (env_of htab) ∧
     (∃ i, h_retval r = Some i ∧ in_range htab' i ∧ kv htab' i = Some (k, v)) ∧
     (∀ i, used (slot htab' i) = (-1)%Z → used (slot htab i) = (-1)%Z)) ∨
    (∃ e, r = mkRet 0 None (Some e) ∧ env_of htab' = env_of htab ∧
     ((e = ENOMEM ∧ env_of htab !! k = None ∧ filled htab = size htab) ∨
      ∃ op, rejected htab k (Some v) op flag e));
}.

Lemma write_live_wf htab i s n k d :
  htab_inv htab → in_range htab i → slot_ok htab i s → slot_kv s = Some (k, d) →
  (kv htab i = None ∨ ∃ d', kv htab i = Some (k, d')) →
  n = base.size (<[k := d]> (env_of htab)) →
  htab_wf (write htab i s n) ∧ env_of (write htab i s n) = <[k := d]> (env_of htab) ∧
  kv (write htab i s n) i = Some (k, d) ∧
  ∀ j, used (slot (write htab i s n) j) = (-1)%Z → used (slot htab j) = (-1)%Z.
Proof.
  intros W Hi Hs Hk Hold Hn. pose proof (env_of_write_live htab W i s n k d Hi Hs Hk Hold) as E.
  split; [split; [by apply inv_write|by rewrite E]|]. split; [done|]. split.
  - rewrite kv_write by done. by rewrite decide_True.
  - intros j. rewrite slot_write by done. case_decide; [|done].
    unfold slot_kv, live in Hk. destruct (Z.ltb_spec 0 (used s)); [lia|done].
Qed.

Lemma overwrite_ok htab k v d flag i :
  htab_wf htab → in_range htab i → kv htab i = Some (k, d) →
  let '(r, htab') := overwrite_entry k (Some v) ENTER htab flag i in
  enter_ok htab k v flag r htab'.
Proof.
  intros [W Hf] Hi Hk. unfold overwrite_entry.
  assert (Hrej : ∀ e, rejected htab k (Some v) env_op_overwrite flag e →
    enter_ok htab k v flag (mkRet 0 None (Some e)) htab).
  { intros e He. split; auto; [by split|]. right. eauto 10. }
  destruct (match change_ok htab with Some f => _ | None => false end) eqn:Hc.
  { apply Hrej. left. split; [done|]. destruct (change_ok htab) as [f|]; [|done]. eauto. }
  destruct (match callback _ with Some cb => _ | None => false end) eqn:Hb.
  { apply Hrej. right. split; [done|]. destruct (callback _) as [cb|]; [|done]. eauto. }
  rewrite strdup_ok. destruct (overwrite_slot_ok htab i k d v W Hi Hk) as [Hs Hkv].
  change (set_slot i ?s htab) with (write htab i s (filled htab)).
  assert (He : env_of htab !! k = Some d) by (apply env_of_lookup; eauto).
  destruct (write_live_wf htab i _ (filled htab) k v W Hi Hs Hkv) as (Hw & Henv & Hki & Hdl); [eauto| |].
  { by rewrite map_size_insert_Some by eauto. }
  split; auto. left. unfold in_range in Hi. simpl. split_and!; auto; [lia|]. by exists i.
Qed.

Lemma hsearch_enter_ok htab k v flag :
  htab_wf htab →
  (is_Some (env_of htab !! k) ∨ ∃ i, in_range htab i ∧ used (slot htab i) = 0%Z) →
  let '(r, htab') := hsearch_r k (Some v) ENTER htab flag in enter_ok htab k v flag r htab'.
Proof.
  intros [W Hf] Hfree. destruct (env_of htab !! k) as [d|] eqn:E.
  { apply env_of_lookup in E as (i & Hi & Hk); [|done].
    rewrite (hsearch_found htab W k _ d ENTER flag i Hi Hk). by eapply overwrite_ok. }
  destruct Hfree as [[? ?]|Hfree]; [done|].
  destruct (hsearch_absent htab W k (Some v) ENTER flag E Hfree) as (idx & Hb & ->).
  pose proof (fb_range _ _ _ Hb) as Hi.
  assert (Hk : kv htab idx = None) by (unfold kv, slot_kv; by rewrite (fb_live _ _ _ Hb)).
  destruct (decide (filled htab = size htab)) as [Hfull|Hfull].
  { unfold hsearch_enter. rewrite Hfull, Nat.eqb_refl. split; auto; [by split|]. right. eauto 10. }
  destruct (hsearch_enter_cases htab k v flag idx W Hi Hfull) as [(cb & fl & -> & _)|(e & He & ->)].
  - destruct (new_slot_ok htab k v cb fl idx W E Hb) as [Hs Hkv].
    destruct (write_live_wf htab idx _ (filled htab + 1) k v W Hi Hs Hkv) as (Hw & Henv & Hki & Hdl); auto.
    { rewrite map_size_insert_None by done. lia. }
    split; auto. left. simpl. split_and!; auto. by exists idx.
  - pose proof (dead_slot_ok htab idx (mkENTRY (Some k) (Some v) None 0)) as Hs.
    pose proof (env_of_write_dead htab W idx _ (filled htab) Hi Hs eq_refl) as Henv.
    rewrite Hk in Henv. split; auto.
    + split; [by apply inv_write|]. unfold dead_slot. by rewrite Henv.
    + right. exists e. eauto 10.
Qed.

(** With no dead bucket, a table that is not full has one that was never used. *)
Lemma bind_slots_full htab l :
  keys_differ htab l → NoDup l → (∀ i, i ∈ l → kv htab i ≠ None) →
  base.size (bind_slots htab l) = length l.
Proof.
  induction l as [|a l IH]; intros Hd Hn Hk; simpl; [done|]. apply NoDup_cons in Hn as [Ha Hn].
  assert (Hd' : keys_differ htab l) by (intros i j k d d' Hi Hj; apply Hd; by right).
  destruct (kv htab a) as [[k d]|] eqn:E; [|by destruct (Hk a); [left|]].
  rewrite map_size_insert_None.
  - rewrite IH; auto. intros i Hi. apply Hk. by right.
  - destruct (bind_slots htab l !! k) as [d'|] eqn:El; [|done].
    apply bind_slots_lookup in El as (j & Hj & Hkj); [|done].
    exfalso. apply Ha. by rewrite (Hd a j k d d') by (done || by left || by right).
Qed.

Lemma free_of_clean htab :
  htab_wf htab → (∀ i, used (slot htab i) ≠ (-1)%Z) → filled htab < size htab →
  ∃ i, in_range htab i ∧ used (slot htab i) = 0%Z.
Proof.
  intros [W Hf] Hc Hlt.
  destruct (decide (Exists (λ i, used (slot htab i) = 0%Z) (seq 1 (size htab)))) as [E|E].
  { apply Exists_exists in E as (i & Hi & ?). apply elem_of_seq in Hi.
    exists i. unfold in_range. split; [lia|done]. }
  exfalso. assert (F : base.size (env_of htab) = size htab); [|lia].
  unfold env_of. rewrite bind_slots_full, length_seq; auto using wf_keys_differ, NoDup_seq.
  intros i Hi Hk. apply E, Exists_exists. exists i. split; [done|]. apply elem_of_seq in Hi.
  destruct (live (slot htab i)) eqn:L.
  - destruct (wf_live _ W i) as (k & d & Hk' & _); [unfold in_range; lia|done|]. congruence.
  - destruct (wf_used _ W i L) as [|Hd]; [done|]. by destruct (Hc i).
Qed.

(** *** Deletion *)

Record delete_ok (htab : hsearch_data) (k : string) (flag : Z) (r : hret) (htab' : hsearch_data)
  : Prop := {
  de_wf : htab_wf htab';
  de_size : size htab' = size htab;
  de_change : change_ok htab' = change_ok htab;
  de_result :
    (r = mkRet 1 None None ∧ is_Some (env_of htab !! k) ∧
     env_of htab' = delete k (env_of htab)) ∨
    (r = mkRet 0 None (Some ESRCH) ∧ env_of htab !! k = None ∧ htab' = htab) ∨
    (∃ e, r = mkRet 0 None (Some e) ∧ rejected htab k None env_op_delete flag e ∧ htab' = htab);
}.

Lemma hdelete_ok htab k flag :
  htab_wf htab → let '(r, htab') := hdelete_r k htab flag in delete_ok htab k flag r htab'.
Proof.
  intros Hwf. pose proof Hwf as [W Hf]. unfold hdelete_r.
  destruct (hsearch_find_ok htab k None 0 W) as [E1 E2].
  destruct (hsearch_r k None FIND htab 0) as [r h]. simpl in E1, E2. subst h.
  destruct (env_of htab !! k) as [d|] eqn:E; cycle 1.
  { subst r. simpl. split; auto. }
  destruct E2 as (i & Hi & Hk & ->). simpl. pose proof Hi as Hi'. unfold in_range in Hi'.
  destruct (Nat.eqb_spec i 0); [lia|].
  assert (Hrej : ∀ e, rejected htab k None env_op_delete flag e →
    delete_ok htab k flag (mkRet 0 None (Some e)) htab).
  { intros e He. split; auto. right. right. eauto. }
  destruct (match change_ok htab with Some f => _ | None => false end) eqn:Hc.
  { apply Hrej. left. split; [done|]. destruct (change_ok htab) as [f|]; [|done]. eauto. }
  destruct (match callback _ with Some cb => _ | None => false end) eqn:Hb.
  { apply Hrej. right. split; [done|]. destruct (callback _) as [cb|]; [|done]. eauto. }
  set (e0 := entry (slot htab i)). unfold _hdelete. fold e0.
  change (set_filled (filled htab - 1) (set_slot i ?s htab)) with (write htab i s (filled htab - 1)).
  pose proof (dead_slot_ok htab i (mkENTRY (key e0) (data e0) None 0)) as Hs.
  pose proof (env_of_write_dead htab W i _ (filled htab - 1) Hi Hs eq_refl) as Henv.
  rewrite Hk in Henv. split; [|done|done|left; split_and!; eauto].
  split; [by apply inv_write|]. rewrite Henv, map_size_delete_Some by eauto.
  simpl. rewrite Hf. lia.
Qed.

(** *** Creation *)

Lemma slot_new p i f : slot (mkHtab (Some (replicate (p + 1) zero_slot)) p 0 f) i = zero_slot.
Proof.
  unfold slot. simpl. destruct (replicate (p + 1) zero_slot !! i) as [s|] eqn:E; [|done].
  apply lookup_replicate in E as [-> _]. done.
Qed.

Lemma bind_slots_empty htab l : (∀ i, kv htab i = None) → bind_slots htab l = ∅.
Proof. intros E. induction l as [|i l IH]; simpl; [done|]. by rewrite E. Qed.

Lemma new_table_wf p f :
  prime (Z.of_nat p) → 5 ≤ p →
  htab_wf (mkHtab (Some (replicate (p + 1) zero_slot)) p 0 f) ∧
  env_of (mkHtab (Some (replicate (p + 1) zero_slot)) p 0 f) = ∅.
Proof.
  intros Hp Hb. set (h := mkHtab _ _ _ _).
  assert (K : ∀ i, kv h i = None) by (intros i; unfold kv, h; by rewrite slot_new).
  assert (E : env_of h = ∅) by (by apply bind_slots_empty).
  split; [split; [|by rewrite E]|done]. split; try done.
  - eexists. split; [done|]. rewrite length_replicate. simpl. lia.
  - intros i. unfold h. rewrite slot_new. by left.
  - intros i _. unfold h. rewrite slot_new. done.
  - intros i j k d d' _ _. by rewrite K.
  - intros i k d t _. by rewrite K.
Qed.

(** The size that the loop of [hcreate_r] settles on. *)
Lemma first_prime_ok k nel p :
  (nel mod 2 = 1)%Z → (5 ≤ nel)%Z → (nel + 2 * Z.of_nat k ≤ 65535 * 65535)%Z →
  first_prime k nel = Some p → prime p ∧ (nel ≤ p)%Z.
Proof.
  revert nel. induction k as [|k IH]; intros nel Ho Hn Hb E; [done|]. cbn [first_prime] in E.
  destruct (isprime_ok nel) as (b & Hb' & Hp); [done|lia|]. rewrite Hb' in E. simpl in E.
  destruct b; [simplify_eq; split; [by apply Hp|lia]|].
  apply IH in E as [? ?]; [|..|lia|lia]; [split; [done|lia]|].
  rewrite <- Z.add_mod_idemp_r by lia. by rewrite Z.add_0_r.
Qed.
End Refine.
