(* ===== verification/HashSpec.v ===== *)
(** * The environment hash table: what the table code guarantees

    The statements about [lib/hashtable.c], from the lemmas of [HashProbe] and
    [HashRefine], with concrete instances, and the two situations in which the
    code does not behave as a map. *)

From stdpp Require Import base option list strings gmap.
From Stdlib Require Import ZArith Znumtheory Lia.
From S2P Require Import Prelude Word32 HashProbe Hashtable HashRefine.
Local Open Scope nat_scope.

(** ** A table for the instances: no callbacks, allocation succeeds *)
Module SampleTable.

#[export] Instance plain : EnvHooks := {|
  run_callback _ _ _ _ _ := false;
  env_callback_init _ _ := None;
  env_flags_init _ _ := 0%Z;
  strdup s := Some s;
  calloc_ok _ := true;
|}.

Definition no_table : hsearch_data := mkHtab None 0 0 None.

(** The table that [hcreate_r] makes for two entries: five slots. *)
Definition empty5 : hsearch_data :=
  mkHtab (Some (replicate 6 zero_slot)) 5 0 None.

Definition enter (k v : string) (h : hsearch_data) : hsearch_data :=
  (hsearch_r k (Some v) ENTER h 0).2.

(** Five entries, one of them deleted again: every bucket has been used. *)
Definition crowded : hsearch_data :=
  (hdelete_r "d" (enter "e" "5" (enter "d" "4" (enter "c" "3"
    (enter "b" "2" (enter "a" "1" empty5))))) 0).2.

End SampleTable.
Import SampleTable.

(** ** Creation *)

(** C26: [isprime] terminates and decides primality for the odd numbers from 5
    to [65535 * 65535], the range in which [div * div] does not wrap around. *)
Theorem isprime_correct number :
  (number mod 2 = 1)%Z → (5 ≤ number ≤ 65535 * 65535)%Z →
  ∃ b, isprime number = Some b ∧ (b = true ↔ prime number).
Proof. apply isprime_ok. Qed.

Lemma isprime_correct_witness : prime 521.
Proof.
  destruct (isprime_correct 521) as (b & Hb & Hp); [reflexivity|lia|].
  apply Hp. vm_compute in Hb. congruence.
Defined.

(** The size found for a number of elements: checked for all the numbers that
    [himport_r] can ask for. *)
Definition size_found (nel : nat) : bool :=
  let z := Z.lor (Z.of_nat nel) 1 in
  match first_prime 10 z with
  | Some p => (Z.of_nat nel <=? p)%Z && (p <=? 521)%Z && (5 <=? p)%Z &&
              (z mod 2 =? 1)%Z && (z <=? 513)%Z && ((5 <=? z) || (p =? 5))%Z
  | None => false
  end.

Lemma size_found_all : forallb size_found (seq 2 512) = true.
Proof. vm_compute. reflexivity. Qed.

Lemma first_prime_small nel :
  2 ≤ nel ≤ 513 → ∃ p, first_prime 10 (Z.lor (Z.of_nat nel) 1) = Some p ∧ prime p ∧
    (Z.of_nat nel ≤ p ≤ 521)%Z ∧ (5 ≤ p)%Z.
Proof.
  intros Hn. pose proof (proj1 (forallb_forall _ _) size_found_all nel) as F.
  rewrite in_seq in F. specialize (F ltac:(lia)). unfold size_found in F.
  destruct (first_prime 10 _) as [p|] eqn:E; [|done].
  repeat rewrite andb_true_iff in F. destruct F as [[[[[F1 F2] F3] F4] F5] F6].
  exists p. split; [done|]. split; [|lia]. apply orb_prop in F6 as [F6|F6].
  - eapply first_prime_ok; [..|exact E]; lia.
  - apply Z.eqb_eq in F6 as ->. destruct (isprime_ok 5) as (b & Hb & Hp); [done|lia|].
    apply Hp. vm_compute in Hb. congruence.
Qed.

Lemma hcreate_ok `{EnvHooks} nel htab :
  table htab = None → 2 ≤ nel ≤ 513 → (∀ n, calloc_ok n = true) →
  ∃ p, hcreate_r 10 nel htab =
         Some (1, mkHtab (Some (replicate (p + 1) zero_slot)) p 0 (change_ok htab)) ∧
    prime (Z.of_nat p) ∧ nel ≤ p ≤ 521 ∧ 5 ≤ p.
Proof.
  intros Ht Hn Hc. unfold hcreate_r. rewrite Ht.
  destruct (first_prime_small nel Hn) as (p & -> & Hp & Hr & H5). simpl. rewrite Hc.
  exists (Z.to_nat p). rewrite Z2Nat.id by lia. split; [done|]. split; [done|lia].
Qed.

(** C27: [hcreate_r] for 2 to 513 elements ([himport_r] asks for at most 512)
    terminates with a table of prime size, at least the size asked for, that
    satisfies the invariant and holds nothing. *)
Theorem hcreate_r_correct `{EnvHooks} nel htab :
  table htab = None → 2 ≤ nel ≤ 513 → (∀ n, calloc_ok n = true) →
  ∃ htab', hcreate_r 10 nel htab = Some (1, htab') ∧ htab_wf htab' ∧ env_of htab' = ∅ ∧
    prime (Z.of_nat (size htab')) ∧ nel ≤ size htab' ≤ 521.
Proof.
  intros Ht Hn Hc. destruct (hcreate_ok nel htab Ht Hn Hc) as (p & -> & Hp & Hr & H5).
  destruct (new_table_wf p (change_ok htab) Hp H5) as [Hw He].
  eexists. split; [done|]. split; [done|]. split; [done|]. simpl. split; [done|lia].
Qed.

Lemma hcreate_r_correct_witness :
  ∃ htab', hcreate_r 10 64 no_table = Some (1, htab') ∧ htab_wf htab'.
Proof.
  destruct (hcreate_r_correct 64 no_table) as (h & Hh & Hw & _);
    [reflexivity|lia|reflexivity|].
  exists h. split; [exact Hh|exact Hw].
Defined.

(** ** The operations *)

Lemma empty5_wf : htab_wf empty5 ∧ env_of empty5 = ∅.
Proof.
  apply (new_table_wf 5); [|lia]. destruct (isprime_ok 5) as (b & Hb & Hp); [done|lia|].
  apply Hp. vm_compute in Hb. congruence.
Qed.

(** The double hash visits every slot: the probe sequence of a key starts
    at its first hash index, goes through the slots 1 to [size] without
    repetition and is back after [size] steps. *)
Theorem hsearch_r_probes_all htab k :
  htab_inv htab →
  (∀ i, in_range htab i → ∃ t, t < size htab ∧ key_probe htab k t = i) ∧
  (∀ t, in_range htab (key_probe htab k t)) ∧
  (∀ t u, t < size htab → u < size htab → key_probe htab k t = key_probe htab k u → t = u) ∧
  key_probe htab k (size htab) = key_probe htab k 0.
Proof.
  intros W. split_and!; intros.
  - by apply key_probe_surj.
  - by apply key_probe_range.
  - by eapply key_probe_inj.
  - by apply key_probe_size.
Qed.

Lemma hsearch_r_probes_all_witness : ∃ t, t < 5 ∧ key_probe empty5 "a" t = 4.
Proof.
  apply (proj1 (hsearch_r_probes_all empty5 "a" (proj1 (proj1 empty5_wf))) 4).
  unfold in_range. simpl. lia.
Defined.

(** Searching is lookup: on a well-formed table [hsearch_r] with [FIND]
    changes nothing, returns the slot that holds the key and its value when
    the map has the key, and fails with [ESRCH] otherwise. *)
Theorem hsearch_r_find `{EnvHooks} htab k v flag :
  htab_wf htab →
  (hsearch_r k v FIND htab flag).2 = htab ∧
  match env_of htab !! k with
  | Some d => ∃ i, in_range htab i ∧ kv htab i = Some (k, d) ∧
      (hsearch_r k v FIND htab flag).1 = mkRet i (Some i) None
  | None => (hsearch_r k v FIND htab flag).1 = mkRet 0 None (Some ESRCH)
  end.
Proof. intros [W _]. by apply hsearch_find_ok. Qed.

Lemma hsearch_r_find_witness : (hsearch_r "a" None FIND empty5 0).2 = empty5.
Proof. apply (hsearch_r_find empty5 "a" None 0 (proj1 empty5_wf)). Defined.

(** C22: entering is insertion, if [strdup] succeeds, with hooks that return and
    leave the table alone: on a well-formed table that binds the key or
    has a bucket that was never used, [hsearch_r] with [ENTER] keeps the
    table well formed and either binds the key to the value and returns its
    slot, or reports an error and keeps all bindings; the error is [ENOMEM]
    only for a new key in a full table, and otherwise the rejection of the
    change by [change_ok] or by a callback. *)
Theorem hsearch_r_enter `{EnvHooks} htab k v flag :
  (∀ s, strdup s = Some s) → htab_wf htab →
  (is_Some (env_of htab !! k) ∨ ∃ i, in_range htab i ∧ used (slot htab i) = 0%Z) →
  let '(r, htab') := hsearch_r k (Some v) ENTER htab flag in enter_ok htab k v flag r htab'.
Proof. intros Hs. by apply hsearch_enter_ok. Qed.

Lemma hsearch_r_enter_witness :
  enter_ok empty5 "a" "1" 0 (hsearch_r "a" (Some "1"%string) ENTER empty5 0).1
    (hsearch_r "a" (Some "1"%string) ENTER empty5 0).2.
Proof.
  pose proof (hsearch_r_enter empty5 "a" "1" 0) as E.
  destruct (hsearch_r "a" (Some "1"%string) ENTER empty5 0) as [r h]. apply E.
  - reflexivity.
  - exact (proj1 empty5_wf).
  - right. exists 1. split; [unfold in_range; simpl; lia|reflexivity].
Defined.

(** C23: deletion: on a well-formed table [hdelete_r] removes exactly the
    binding of the key, or reports that there is none, or that [change_ok] or
    the entry's callback rejected the deletion, and then changes nothing. *)
Theorem hdelete_r_correct `{EnvHooks} htab k flag :
  htab_wf htab → let '(r, htab') := hdelete_r k htab flag in delete_ok htab k flag r htab'.
Proof. apply hdelete_ok. Qed.

Lemma hdelete_r_correct_witness :
  delete_ok empty5 "a" 0 (hdelete_r "a" empty5 0).1 (hdelete_r "a" empty5 0).2.
Proof.
  pose proof (hdelete_r_correct empty5 "a" 0 (proj1 empty5_wf)) as E.
  destruct (hdelete_r "a" empty5 0) as [r h]. exact E.
Defined.

(** ** Where the table is not a map *)

(** C40: once every bucket has been used, entering a new key whose first bucket
    is live writes over that bucket, although the table is not full: the entry
    that was there is lost, whether the change is accepted or rejected, and on
    success nothing is reported. *)
Theorem hsearch_r_drops_entry `{EnvHooks} htab k v k0 d0 flag :
  (∀ s, strdup s = Some s) → htab_wf htab → filled htab ≠ size htab →
  (∀ i, in_range htab i → used (slot htab i) ≠ 0%Z) →
  env_of htab !! k = None → kv htab (hash1 k htab) = Some (k0, d0) →
  let '(r, htab') := hsearch_r k (Some v) ENTER htab flag in
  env_of htab !! k0 = Some d0 ∧ env_of htab' !! k0 = None ∧
  ((r = mkRet 1 (Some (hash1 k htab)) None ∧ env_of htab' = <[k := v]> (delete k0 (env_of htab))) ∨
   (∃ e, rejected htab k (Some v) env_op_create flag e ∧ r = mkRet 0 None (Some e) ∧
      env_of htab' = delete k0 (env_of htab))).
Proof.
  intros Hs [W _] Hf Hused Hn Hk0. pose proof (hash1_range htab W k) as Hr.
  assert (E0 : env_of htab !! k0 = Some d0) by (apply env_of_lookup; eauto).
  assert (Hne : k0 ≠ k) by congruence.
  rewrite hsearch_crowded; [|done..|by apply kv_Some in Hk0 as (? & _)].
  destruct (hsearch_enter_cases Hs htab k v flag (hash1 k htab) W Hr Hf) as [(cb & fl & -> & _)|(e & He & ->)].
  - destruct (first_slot_ok htab k v cb fl W Hn) as [Hok Hkv].
    rewrite (env_of_write_over htab W _ _ _ k v k0 d0) by done. split; [done|].
    rewrite lookup_insert_ne, lookup_delete_eq by done. split; [done|]. by left.
  - rewrite env_of_write_dead, Hk0; [|done..|apply dead_slot_ok|done]. rewrite lookup_delete_eq. split_and!; [done..|]. right. eauto.
Qed.

(** The search for a free bucket as a test. *)
Definition has_free (htab : hsearch_data) : bool :=
  existsb (λ i, bool_decide (used (slot htab i) = 0%Z)) (seq 1 (size htab)).

Lemma enter_wf k v h : htab_wf h → has_free h = true → htab_wf (enter k v h).
Proof.
  intros Hw Hf. apply existsb_exists in Hf as (i & Hi & Hu%bool_decide_eq_true).
  apply in_seq in Hi. assert (Hroom : ∃ i, in_range h i ∧ used (slot h i) = 0%Z) by (exists i; split; [unfold in_range; lia|done]).
  pose proof (hsearch_enter_ok (λ s, eq_refl) h k v 0 Hw (or_intror Hroom)) as D. unfold enter.
  destruct (hsearch_r k (Some v) ENTER h 0). apply D.
Qed.

Lemma crowded_wf : htab_wf crowded.
Proof.
  assert (H : htab_wf (enter "e" "5" (enter "d" "4" (enter "c" "3" (enter "b" "2" (enter "a" "1" empty5)))))).
  { do 5 (apply enter_wf; [|vm_compute; reflexivity]). exact (proj1 empty5_wf). }
  pose proof (hdelete_ok _ "d" 0 H) as D. unfold crowded. destruct (hdelete_r "d" _ 0). apply D.
Qed.

(** Four of five buckets are filled; entering "f" loses "a". *)
Lemma hsearch_r_drops_entry_witness :
  filled crowded = 4 ∧ size crowded = 5 ∧ env_of (hsearch_r "f" (Some "9"%string) ENTER crowded 0).2 !! "a" = None.
Proof.
  split; [vm_compute; reflexivity|]. split; [vm_compute; reflexivity|].
  pose proof (hsearch_r_drops_entry crowded "f" "9" "a" "1" 0) as E.
  destruct (hsearch_r "f" (Some "9"%string) ENTER crowded 0) as [r h]. apply E.
  - reflexivity.
  - exact crowded_wf.
  - vm_compute. discriminate.
  - intros i Hi. unfold in_range in Hi. change (size crowded) with 5 in Hi.
    assert (i = 1 ∨ i = 2 ∨ i = 3 ∨ i = 4 ∨ i = 5) as [-> |[-> |[-> |[-> | ->]]]] by lia; vm_compute; discriminate.
  - vm_compute. reflexivity.
  - vm_compute. reflexivity.
Defined.

(** C33: [hmatch_r] stops before the slot [size], which [hsearch_r] uses: "e" is
    in the table and is not found. *)
Theorem hmatch_r_misses_last_slot :
  env_of crowded !! "e" = Some "5"%string ∧
  h_ret (hsearch_r "e" None FIND crowded 0).1 = size crowded ∧
  hmatch_r "e" 0 crowded = mkRet 0 None (Some ESRCH).
Proof. split_and!; vm_compute; reflexivity. Qed.
