(* ===== verification/CString.v ===== *)
(** * Memory and string functions: data and operations

    Translation of [lib/string.c]. Memory is a list of bytes, a pointer is an
    index into it, and every access outside the list makes the whole operation
    [None]. The functions that return a pointer return [Some p], or [None]
    inside the result for a null pointer. The word loops of [memset] and
    [memcpy] work on 32-bit little-endian words. *)

From stdpp Require Import base option list.
From Stdlib Require Import ZArith Lia.
From S2P Require Import Prelude.
Local Open Scope nat_scope.

Abbreviation mem := (list Z).

(** ** Access *)

Definition load8 (m : mem) (p : nat) : option Z := m !! p.

Definition store8 (m : mem) (p : nat) (v : Z) : option mem :=
  if p <? length m then Some (<[p := v]> m) else None.

(** The bytes of a 32-bit word, the lowest first. *)
Definition word_byte (w : Z) (i : Z) : Z := Z.land (Z.shiftr w (8 * i)) 255.

Definition load32 (m : mem) (p : nat) : option Z :=
  a ← load8 m p; b ← load8 m (p + 1); c ← load8 m (p + 2); d ← load8 m (p + 3);
  Some (Z.lor (Z.lor a (Z.shiftl b 8)) (Z.lor (Z.shiftl c 16) (Z.shiftl d 24))).

Definition store32 (m : mem) (p : nat) (w : Z) : option mem :=
  m ← store8 m p (word_byte w 0);
  m ← store8 m (p + 1) (word_byte w 1);
  m ← store8 m (p + 2) (word_byte w 2);
  store8 m (p + 3) (word_byte w 3).

(** ** Blocks *)

(** [while (count--) *s8++ = c], with [c] converted to [char]. *)
Fixpoint set_bytes (count : nat) (s : nat) (c : Z) (m : mem) : option mem :=
  match count with
  | O => Some m
  | S count => m ← store8 m s (Z.land c 255); set_bytes count (s + 1) c m
  end.

Fixpoint set_words (k count s : nat) (cl : Z) (m : mem) : option (nat * nat * mem) :=
  match k with
  | O => None
  | S k =>
      if 4 <=? count then m ← store32 m s cl; set_words k (count - 4) (s + 4) cl m
      else Some (count, s, m)
  end.

(** The word with the byte [c] in all four places. *)
Definition fill_word (c : Z) : Z :=
  Nat.iter 4 (λ cl, Z.lor (Z.land (Z.shiftl cl 8) (2 ^ 32 - 1)) (Z.land c 255)) 0%Z.

Definition memset (s : nat) (c : Z) (count : nat) (m : mem) : option mem :=
  if s mod 4 =? 0 then
    '(count, s, m) ← set_words (S count) count s (fill_word c) m;
    set_bytes count s c m
  else set_bytes count s c m.

Fixpoint copy_bytes (count dest src : nat) (m : mem) : option mem :=
  match count with
  | O => Some m
  | S count =>
      v ← load8 m src;
      m ← store8 m dest v;
      copy_bytes count (dest + 1) (src + 1) m
  end.

Definition bcopy (src dest count : nat) (m : mem) : option mem := copy_bytes count dest src m.

Fixpoint copy_words (k count dest src : nat) (m : mem) : option (nat * nat * nat * mem) :=
  match k with
  | O => None
  | S k =>
      if 4 <=? count then
        w ← load32 m src;
        m ← store32 m dest w;
        copy_words k (count - 4) (dest + 4) (src + 4) m
      else Some (count, dest, src, m)
  end.

Definition memcpy (dest src count : nat) (m : mem) : option mem :=
  if src =? dest then Some m
  else if (Nat.lor dest src) mod 4 =? 0 then
    '(count, dest, src, m) ← copy_words (S count) count dest src m;
    copy_bytes count dest src m
  else copy_bytes count dest src m.

(** [while (count--) *--tmp = *--s]. *)
Fixpoint copy_back (count tmp s : nat) (m : mem) : option mem :=
  match count with
  | O => Some m
  | S count =>
      let tmp := tmp - 1 in
      let s := s - 1 in
      v ← load8 m s;
      m ← store8 m tmp v;
      copy_back count tmp s m
  end.

Definition memmove (dest src count : nat) (m : mem) : option mem :=
  if src =? dest then Some m
  else if dest <=? src then copy_bytes count dest src m
  else copy_back count (dest + count) (src + count) m.

Fixpoint memcmp (count cs ct : nat) (m : mem) : option Z :=
  match count with
  | O => Some 0%Z
  | S count =>
      a ← load8 m cs;
      b ← load8 m ct;
      if (a - b =? 0)%Z then memcmp count (cs + 1) (ct + 1) m else Some (a - b)%Z
  end.

Fixpoint memscan (size addr : nat) (c : Z) (m : mem) : option nat :=
  match size with
  | O => Some addr
  | S size => v ← load8 m addr; if (v =? c)%Z then Some addr else memscan size (addr + 1) c m
  end.

Fixpoint memchr (n s : nat) (c : Z) (m : mem) : option (option nat) :=
  match n with
  | O => Some None
  | S n => v ← load8 m s;
      if (Z.land c 255 =? v)%Z then Some (Some s) else memchr n (s + 1) c m
  end.

Fixpoint check_bytes8 (bytes start : nat) (value : Z) (m : mem) : option (option nat) :=
  match bytes with
  | O => Some None
  | S bytes => v ← load8 m start;
      if (v =? value)%Z then check_bytes8 bytes (start + 1) value m else Some (Some start)
  end.

Definition load64 (m : mem) (p : nat) : option Z :=
  a ← load32 m p; b ← load32 m (p + 4); Some (Z.lor a (Z.shiftl b 32)).

Fixpoint check_words (words bytes start : nat) (value value64 : Z) (m : mem)
  : option (option nat) :=
  match words with
  | O => check_bytes8 (bytes mod 8) start value m
  | S words =>
      w ← load64 m start;
      if (w =? value64)%Z then check_words words bytes (start + 8) value value64 m
      else check_bytes8 8 start value m
  end.

(** [u8 value = c] in all eight bytes. *)
Definition value64_of (value : Z) : Z :=
  let v := Z.lor value (Z.shiftl value 8) in
  let v := Z.lor v (Z.shiftl v 16) in
  Z.lor v (Z.shiftl v 32).

Definition memchr_inv (bytes start : nat) (c : Z) (m : mem) : option (option nat) :=
  let value := Z.land c 255 in
  if bytes <=? 16 then check_bytes8 bytes start value m
  else
    let value64 := value64_of value in
    if start mod 8 =? 0 then check_words (bytes / 8) bytes start value value64 m
    else
      let prefix := 8 - start mod 8 in
      r ← check_bytes8 prefix start value m;
      match r with
      | Some p => Some (Some p)
      | None =>
          let bytes := bytes - prefix in
          check_words (bytes / 8) bytes (start + prefix) value value64 m
      end.

(** ** Strings

    The fuel of the loops that run up to the terminating NUL is the size of
    the memory: a loop that reaches its end reads outside it. *)

Fixpoint strlen_loop (k sc : nat) (m : mem) : option nat :=
  match k with
  | O => None
  | S k => v ← load8 m sc; if (v =? 0)%Z then Some sc else strlen_loop k (sc + 1) m
  end.

Definition strlen (s : nat) (m : mem) : option nat :=
  sc ← strlen_loop (S (length m)) s m; Some (sc - s).

Fixpoint strnlen_loop (count sc : nat) (m : mem) : option nat :=
  match count with
  | O => Some sc
  | S count => v ← load8 m sc; if (v =? 0)%Z then Some sc else strnlen_loop count (sc + 1) m
  end.

Definition strnlen (s count : nat) (m : mem) : option nat :=
  sc ← strnlen_loop count s m; Some (sc - s).

Fixpoint strcpy_loop (k dest src : nat) (m : mem) : option mem :=
  match k with
  | O => None
  | S k =>
      v ← load8 m src;
      m ← store8 m dest v;
      if (v =? 0)%Z then Some m else strcpy_loop k (dest + 1) (src + 1) m
  end.

Definition strcpy (dest src : nat) (m : mem) : option mem :=
  strcpy_loop (S (length m)) dest src m.

Fixpoint strncpy (count dest src : nat) (m : mem) : option mem :=
  match count with
  | O => Some m
  | S count =>
      v ← load8 m src;
      m ← store8 m dest v;
      if (v =? 0)%Z then Some m else strncpy count (dest + 1) (src + 1) m
  end.

Definition strcat (dest src : nat) (m : mem) : option mem :=
  d ← strlen_loop (S (length m)) dest m; strcpy_loop (S (length m)) d src m.

Fixpoint strncat_loop (k count dest src : nat) (m : mem) : option mem :=
  match k with
  | O => None
  | S k =>
      v ← load8 m src;
      m ← store8 m dest v;
      if (v =? 0)%Z then Some m
      else if count =? 1 then store8 m (dest + 1) 0
      else strncat_loop k (count - 1) (dest + 1) (src + 1) m
  end.

Definition strncat (dest src count : nat) (m : mem) : option mem :=
  if count =? 0 then Some m
  else d ← strlen_loop (S (length m)) dest m; strncat_loop (S count) count d src m.

(** A [char] is signed, and [__res] is a [signed char]: the difference is
    reduced to eight bits. *)
Definition signed8 (z : Z) : Z := ((z + 128) mod 256 - 128)%Z.

Fixpoint strcmp_loop (k cs ct : nat) (m : mem) : option Z :=
  match k with
  | O => None
  | S k =>
      a ← load8 m cs;
      b ← load8 m ct;
      let res := signed8 (signed8 a - signed8 b) in
      if negb (res =? 0)%Z || (a =? 0)%Z then Some res else strcmp_loop k (cs + 1) (ct + 1) m
  end.

Definition strcmp (cs ct : nat) (m : mem) : option Z := strcmp_loop (S (length m)) cs ct m.

Fixpoint strncmp (count cs ct : nat) (m : mem) : option Z :=
  match count with
  | O => Some 0%Z
  | S count =>
      a ← load8 m cs;
      b ← load8 m ct;
      let res := signed8 (signed8 a - signed8 b) in
      if negb (res =? 0)%Z || (a =? 0)%Z then Some res else strncmp count (cs + 1) (ct + 1) m
  end.

Fixpoint strchr_loop (k s : nat) (c : Z) (m : mem) : option (option nat) :=
  match k with
  | O => None
  | S k =>
      v ← load8 m s;
      if (v =? Z.land c 255)%Z then Some (Some s)
      else if (v =? 0)%Z then Some None
      else strchr_loop k (s + 1) c m
  end.

Definition strchr (s : nat) (c : Z) (m : mem) : option (option nat) :=
  strchr_loop (S (length m)) s c m.

(** [k] is [p - s + 1]: the loop ends when [p] falls below [s]. *)
Fixpoint strrchr_loop (k p : nat) (c : Z) (m : mem) : option (option nat) :=
  match k with
  | O => Some None
  | S k =>
      v ← load8 m p;
      if (v =? Z.land c 255)%Z then Some (Some p) else strrchr_loop k (p - 1) c m
  end.

Definition strrchr (s : nat) (c : Z) (m : mem) : option (option nat) :=
  l ← strlen s m; strrchr_loop (S l) (s + l) c m.

(** The position in the set [ct] at which the inner loops of [strspn] and
    [strpbrk] stop: at a byte equal to [v], or at the terminating NUL. *)
Fixpoint find_in_set (k ct : nat) (v : Z) (m : mem) : option bool :=
  match k with
  | O => None
  | S k =>
      a ← load8 m ct;
      if (a =? 0)%Z then Some false
      else if (v =? a)%Z then Some true
      else find_in_set k (ct + 1) v m
  end.

Fixpoint strspn_loop (k p accept count : nat) (m : mem) : option nat :=
  match k with
  | O => None
  | S k =>
      v ← load8 m p;
      if (v =? 0)%Z then Some count
      else
        f ← find_in_set (S (length m)) accept v m;
        if f : bool then strspn_loop k (p + 1) accept (count + 1) m else Some count
  end.

Definition strspn (s accept : nat) (m : mem) : option nat :=
  strspn_loop (S (length m)) s accept 0 m.

Fixpoint strpbrk_loop (k sc ct : nat) (m : mem) : option (option nat) :=
  match k with
  | O => None
  | S k =>
      v ← load8 m sc;
      if (v =? 0)%Z then Some None
      else
        f ← find_in_set (S (length m)) ct v m;
        if f : bool then Some (Some sc) else strpbrk_loop k (sc + 1) ct m
  end.

Definition strpbrk (cs ct : nat) (m : mem) : option (option nat) :=
  strpbrk_loop (S (length m)) cs ct m.

(** [strtok] with the static pointer [___strtok] as state; the result is the
    token, the new pointer and the memory. *)
Definition strtok (s : option nat) (ct : nat) (___strtok : option nat) (m : mem)
  : option (option nat * option nat * mem) :=
  match (match s with Some p => Some p | None => ___strtok end) with
  | None => Some (None, ___strtok, m)
  | Some sbegin =>
      l ← strspn sbegin ct m;
      let sbegin := sbegin + l in
      v ← load8 m sbegin;
      if (v =? 0)%Z then Some (None, None, m)
      else
        send ← strpbrk sbegin ct m;
        match send with
        | Some e =>
            v ← load8 m e;
            if (v =? 0)%Z then Some (Some sbegin, Some e, m)
            else m ← store8 m e 0; Some (Some sbegin, Some (e + 1), m)
        | None => Some (Some sbegin, None, m)
        end
  end.

(** [strsep]: the token, the new value of [*s] and the memory. *)
Definition strsep (s : option nat) (ct : nat) (m : mem)
  : option (option nat * option nat * mem) :=
  match s with
  | None => Some (None, None, m)
  | Some sbegin =>
      e ← strpbrk sbegin ct m;
      match e with
      | Some e => m ← store8 m e 0; Some (Some sbegin, Some (e + 1), m)
      | None => Some (Some sbegin, None, m)
      end
  end.

Fixpoint strswab_loop (k p : nat) (m : mem) : option mem :=
  match k with
  | O => None
  | S k =>
      a ← load8 m p;
      if (a =? 0)%Z then Some m
      else
        b ← load8 m (p + 1);
        if (b =? 0)%Z then Some m
        else
          m ← store8 m p b;
          m ← store8 m (p + 1) a;
          strswab_loop k (p + 2) m
  end.

Definition strswab (s : option nat) (m : mem) : option (option nat * mem) :=
  match s with
  | None => Some (None, m)
  | Some p =>
      v ← load8 m p;
      if (v =? 0)%Z then Some (None, m)
      else m ← strswab_loop (S (length m)) p m; Some (Some p, m)
  end.

(** [l1] is the number of bytes left from [s1]. *)
Fixpoint strstr_loop (k l1 l2 s1 s2 : nat) (m : mem) : option (option nat) :=
  match k with
  | O => None
  | S k =>
      if l2 <=? l1 then
        r ← memcmp l2 s1 s2 m;
        if (r =? 0)%Z then Some (Some s1) else strstr_loop k (l1 - 1) l2 (s1 + 1) s2 m
      else Some None
  end.

Definition strstr (s1 s2 : nat) (m : mem) : option (option nat) :=
  l2 ← strlen s2 m;
  if l2 =? 0 then Some (Some s1)
  else l1 ← strlen s1 m; strstr_loop (S l1) l1 l2 s1 s2 m.

(** The upper-case letters of the table [_ctype] of [lib/ctype.c] (Latin-1). *)
Definition isupper (c : Z) : bool :=
  ((65 <=? c) && (c <=? 90))%Z || ((192 <=? c) && (c <=? 222) && negb (c =? 215))%Z.

Definition tolower (c : Z) : Z := if isupper c then (c + 32)%Z else c.

Fixpoint strncasecmp_loop (len s1 s2 : nat) (m : mem) : option Z :=
  match len with
  | O => Some 0%Z
  | S len =>
      c1 ← load8 m s1;
      c2 ← load8 m s2;
      if (c1 =? 0)%Z || (c2 =? 0)%Z then Some (c1 - c2)%Z
      else if (c1 =? c2)%Z then
        (if len =? 0 then Some (c1 - c2)%Z else strncasecmp_loop len (s1 + 1) (s2 + 1) m)
      else
        let c1 := tolower c1 in
        let c2 := tolower c2 in
        if (c1 =? c2)%Z then
          (if len =? 0 then Some (c1 - c2)%Z else strncasecmp_loop len (s1 + 1) (s2 + 1) m)
        else Some (c1 - c2)%Z
  end.

Definition strncasecmp (s1 s2 len : nat) (m : mem) : option Z := strncasecmp_loop len s1 s2 m.

(** [strncasecmp(s1, s2, -1U)]: the bound is larger than any memory. *)
Definition strcasecmp (s1 s2 : nat) (m : mem) : option Z := strncasecmp s1 s2 (S (length m)) m.
