(* ===== verification/CStringSpec.v ===== *)
(** * Memory and string functions: what they guarantee

    The block functions are compared with their effect on the whole memory,
    the string functions with the strings that the memory holds. *)

From stdpp Require Import base option list.
From Stdlib Require Import ZArith Lia.
From S2P Require Import Prelude CString.
Local Open Scope nat_scope.

(** Memory holds bytes. *)
Definition bytes_ok (m : mem) : Prop := Forall (λ b, (0 ≤ b < 256)%Z) m.

Lemma store8_Some m p v : p < length m → store8 m p v = Some (<[p := v]> m).
Proof. intros H. unfold store8. by rewrite (proj2 (Nat.ltb_lt _ _) H). Qed.

Lemma load8_is_Some m p : p < length m → ∃ v, load8 m p = Some v.
Proof. apply lookup_lt_is_Some_2. Qed.

Lemma lookup_store (m : mem) p v i :
  p < length m → <[p := v]> m !! i = if decide (i = p) then Some v else m !! i.
Proof.
  intros H. case_decide; [subst; by rewrite list_lookup_insert_eq|by rewrite list_lookup_insert_ne].
Qed.

(** ** Copying *)

(** [m'] is [m] with the [n] bytes from [s] copied to [d]. *)
Definition copied (m : mem) (d s n : nat) (m' : mem) : Prop :=
  length m' = length m ∧
  ∀ i, m' !! i = if decide (d ≤ i < d + n) then m !! (s + (i - d)) else m !! i.

Lemma copied_0 m d s : copied m d s 0 m.
Proof. split; [done|]. intros i. by rewrite decide_False by lia. Qed.

(** Copying from the front: safe when the destination starts below the source
    or the two areas are apart. *)
Lemma copied_app m d s a b m1 m2 :
  d ≤ s ∨ s + a + b ≤ d → copied m d s a m1 → copied m1 (d + a) (s + a) b m2 →
  copied m d s (a + b) m2.
Proof.
  intros Hds [L1 H1] [L2 H2]. split; [congruence|]. intros i. rewrite H2, !H1.
  repeat case_decide; try lia; try done; f_equal; lia.
Qed.

(** Copying from the back: safe when the source starts below. *)
Lemma copied_app_back m d s a b m1 m2 :
  s ≤ d → copied m (d + a) (s + a) b m1 → copied m1 d s a m2 → copied m d s (a + b) m2.
Proof.
  intros Hds [L1 H1] [L2 H2]. split; [congruence|]. intros i. rewrite H2, !H1.
  repeat case_decide; try lia; try done; f_equal; lia.
Qed.

Lemma copied_1 (m : mem) d s v : d < length m → m !! s = Some v → copied m d s 1 (<[d := v]> m).
Proof.
  intros Hd Hs. split; [by rewrite length_insert|]. intros i. rewrite lookup_store by done.
  repeat case_decide; try lia; try done. subst. rewrite <- Hs. f_equal. lia.
Qed.

Lemma copy_bytes_ok n m d s :
  d ≤ s ∨ s + n ≤ d → d + n ≤ length m → s + n ≤ length m →
  ∃ m', copy_bytes n d s m = Some m' ∧ copied m d s n m'.
Proof.
  revert m d s. induction n as [|n IH]; intros m d s Hds Hd Hs; simpl; [eauto using copied_0|].
  destruct (load8_is_Some m s) as [v Hv]; [lia|]. rewrite Hv. simpl.
  rewrite store8_Some by lia. simpl.
  destruct (IH (<[d := v]> m) (d + 1) (s + 1)) as (m' & -> & Hc);
    [lia|rewrite length_insert; lia..|].
  exists m'. split; [done|]. apply (copied_app m d s 1 n (<[d := v]> m)); [lia| |done].
  apply copied_1; [lia|done].
Qed.

Lemma copy_back_ok n m d s :
  s ≤ d → d + n ≤ length m →
  ∃ m', copy_back n (d + n) (s + n) m = Some m' ∧ copied m d s n m'.
Proof.
  revert m. induction n as [|n IH]; intros m Hsd Hd; simpl; [eauto using copied_0|].
  replace (s + S n - 1) with (s + n) by lia. replace (d + S n - 1) with (d + n) by lia.
  destruct (load8_is_Some m (s + n)) as [v Hv]; [lia|]. rewrite Hv. simpl.
  rewrite store8_Some by lia. simpl.
  destruct (IH (<[d + n := v]> m)) as (m' & -> & Hc); [done|rewrite length_insert; lia|].
  exists m'. split; [done|]. replace (S n) with (n + 1) by lia.
  eapply copied_app_back; [done| |exact Hc]. apply copied_1; [lia|done].
Qed.

(** *** Words *)

Lemma byte_testbit b i : (0 ≤ b < 256)%Z → (8 ≤ i)%Z → Z.testbit b i = false.
Proof.
  intros Hb Hi. destruct (decide (b = 0)%Z) as [->|]; [apply Z.bits_0|].
  apply Z.bits_above_log2; [lia|]. assert (Z.log2 b < 8)%Z; [|lia].
  apply Z.log2_lt_pow2; lia.
Qed.

Lemma testbit_255 i : (0 ≤ i)%Z → Z.testbit 255 i = (i <? 8)%Z.
Proof. change 255%Z with (Z.ones 8). intros. apply Z.testbit_ones_nonneg; lia. Qed.

(** Decide the bits of an expression of shifted bytes. *)
Ltac byte_bits :=
  repeat first
    [ rewrite Z.land_spec | rewrite Z.lor_spec | rewrite Z.shiftr_spec by lia
    | rewrite Z.shiftl_spec by lia | rewrite testbit_255 by lia ];
  repeat match goal with
  | |- context [Z.testbit ?b ?i] =>
      first [ rewrite (Z.testbit_neg_r b i) by lia | rewrite (byte_testbit b i) by lia ]
  end.

Lemma word_byte_load a b c d i :
  (0 ≤ a < 256)%Z → (0 ≤ b < 256)%Z → (0 ≤ c < 256)%Z → (0 ≤ d < 256)%Z →
  (i = 0 ∨ i = 1 ∨ i = 2 ∨ i = 3)%Z →
  word_byte (Z.lor (Z.lor a (Z.shiftl b 8)) (Z.lor (Z.shiftl c 16) (Z.shiftl d 24))) i =
  (if (i =? 0)%Z then a else if (i =? 1)%Z then b else if (i =? 2)%Z then c else d).
Proof.
  intros Ha Hb Hc Hd Hi. unfold word_byte. apply Z.bits_inj'. intros n Hn.
  destruct (Z.ltb_spec n 8) as [H8|H8].
  - destruct Hi as [-> |[-> |[-> | ->]]]; simpl (_ =? _)%Z; cbn [Z.mul Z.eqb];
      byte_bits; rewrite (proj2 (Z.ltb_lt n 8)) by done; rewrite ?andb_true_r, ?orb_false_r;
      simpl; try (f_equal; lia).
  - byte_bits. rewrite (proj2 (Z.ltb_ge n 8)) by done. rewrite andb_false_r.
    destruct Hi as [-> |[-> |[-> | ->]]]; simpl; by rewrite byte_testbit by lia.
Qed.

Lemma store32_Some m p w :
  p + 4 ≤ length m →
  store32 m p w = Some (<[p + 3 := word_byte w 3]> (<[p + 2 := word_byte w 2]>
    (<[p + 1 := word_byte w 1]> (<[p := word_byte w 0]> m)))).
Proof.
  intros H. unfold store32.
  do 3 (rewrite store8_Some by (rewrite ?length_insert; lia); cbn [mbind option_bind]).
  by rewrite store8_Some by (rewrite ?length_insert; lia).
Qed.

Lemma bytes_ok_lookup m p v : bytes_ok m → m !! p = Some v → (0 ≤ v < 256)%Z.
Proof. intros H Hp. by eapply (Forall_lookup_1 _ _ _ _ H). Qed.

Lemma copy_word_ok m d s :
  bytes_ok m → d + 4 ≤ length m → s + 4 ≤ length m →
  ∃ w m', load32 m s = Some w ∧ store32 m d w = Some m' ∧ copied m d s 4 m'.
Proof.
  intros Hb Hd Hs. unfold load32.
  destruct (load8_is_Some m s) as [a Ha]; [lia|]. destruct (load8_is_Some m (s + 1)) as [b Hb']; [lia|].
  destruct (load8_is_Some m (s + 2)) as [c Hc]; [lia|].
  destruct (load8_is_Some m (s + 3)) as [e He]; [lia|].
  rewrite Ha, Hb', Hc, He. cbn [mbind option_bind]. eexists _, _. split; [done|].
  rewrite store32_Some by done. split; [done|].
  rewrite !word_byte_load by eauto using bytes_ok_lookup. cbn [Z.eqb Pos.eqb].
  split; [by rewrite !length_insert|]. intros i.
  repeat rewrite lookup_store by (rewrite ?length_insert; lia). unfold load8 in *.
  repeat case_decide; try lia; subst; try done;
    match goal with |- Some _ = m !! ?x =>
      first [ replace x with s by lia | replace x with (s + 1) by lia
            | replace x with (s + 2) by lia | replace x with (s + 3) by lia ]; congruence end.
Qed.

(** Copying keeps bytes. *)
Lemma copied_bytes_ok m d s n m' :
  bytes_ok m → s + n ≤ length m → copied m d s n m' → bytes_ok m'.
Proof.
  intros Hb Hs [_ Hc]. apply Forall_lookup. intros i x Hx. rewrite Hc in Hx.
  case_decide; by eapply bytes_ok_lookup.
Qed.

Lemma copy_words_ok k n m d s :
  bytes_ok m → d + 4 ≤ s ∨ s + n ≤ d → d + n ≤ length m → s + n ≤ length m → n < k →
  ∃ r m', copy_words k n d s m = Some (r, d + (n - r), s + (n - r), m') ∧ r ≤ n ∧
    copied m d s (n - r) m'.
Proof.
  revert n m d s. induction k as [|k IH]; intros n m d s Hb Hds Hd Hs Hk; [lia|].
  cbn [copy_words]. destruct (Nat.leb_spec 4 n); cycle 1.
  { exists n, m. rewrite Nat.sub_diag, !Nat.add_0_r. split; [done|]. split; [done|apply copied_0]. }
  destruct (copy_word_ok m d s) as (w & m1 & -> & Hst & Hc1); [done|lia..|].
  cbn [mbind option_bind]. rewrite Hst. cbn [mbind option_bind].
  pose proof (proj1 Hc1) as L1.
  destruct (IH (n - 4) m1 (d + 4) (s + 4)) as (r & m2 & E & Hr & Hc2);
    [eapply copied_bytes_ok; [done| |done]; lia|lia..|].
  exists r, m2. rewrite E. split.
  { replace (d + (n - r)) with (d + 4 + (n - 4 - r)) by lia.
    by replace (s + (n - r)) with (s + 4 + (n - 4 - r)) by lia. }
  split; [lia|].
  replace (n - r) with (4 + (n - 4 - r)) by lia.
  apply (copied_app m d s 4 (n - 4 - r) m1); [lia|done..].
Qed.

(** Both pointers are word aligned when their bitwise or is. *)
Lemma lor_aligned a b : Nat.lor a b mod 4 = 0 → a mod 4 = 0 ∧ b mod 4 = 0.
Proof.
  change 4 with (2 ^ 2). rewrite <- !Nat.land_ones, Nat.land_lor_distr_l.
  intros H. by apply Nat.lor_eq_0_iff in H.
Qed.

Lemma memcpy_ok d s n m :
  bytes_ok m → d ≤ s ∨ s + n ≤ d → d + n ≤ length m → s + n ≤ length m →
  ∃ m', memcpy d s n m = Some m' ∧ copied m d s n m'.
Proof.
  intros Hb Hds Hd Hs. unfold memcpy. destruct (Nat.eqb_spec s d) as [->|Hne].
  { exists m. split; [done|]. split; [done|]. intros i. case_decide; [f_equal; lia|done]. }
  destruct (Nat.eqb_spec (Nat.lor d s mod 4) 0) as [[Ad As]%lor_aligned|_];
    [|by apply copy_bytes_ok].
  assert (d + 4 ≤ s ∨ s + n ≤ d).
  { pose proof (Nat.div_mod_eq d 4). pose proof (Nat.div_mod_eq s 4). lia. }
  destruct (copy_words_ok (S n) n m d s) as (r & m1 & -> & Hr & Hc); auto.
  cbn [mbind option_bind]. pose proof (proj1 Hc) as L1.
  destruct (copy_bytes_ok r m1 (d + (n - r)) (s + (n - r))) as (m2 & -> & Hc2); [lia..|].
  exists m2. split; [done|]. replace n with (n - r + r) by lia.
  apply (copied_app m d s (n - r) r m1); [lia|done..].
Qed.

Lemma memmove_ok d s n m :
  d + n ≤ length m → s + n ≤ length m →
  ∃ m', memmove d s n m = Some m' ∧ copied m d s n m'.
Proof.
  intros Hd Hs. unfold memmove. destruct (Nat.eqb_spec s d) as [->|Hne].
  { exists m. split; [done|]. split; [done|]. intros i. case_decide; [f_equal; lia|done]. }
  destruct (Nat.leb_spec d s); [apply copy_bytes_ok; lia|apply copy_back_ok; lia].
Qed.

(** ** Filling *)

Definition filled_with (m : mem) (s n : nat) (c : Z) (m' : mem) : Prop :=
  length m' = length m ∧
  ∀ i, m' !! i = if decide (s ≤ i < s + n) then Some (Z.land c 255) else m !! i.

Lemma filled_app m s a b c m1 m2 :
  filled_with m s a c m1 → filled_with m1 (s + a) b c m2 → filled_with m s (a + b) c m2.
Proof.
  intros [L1 H1] [L2 H2]. split; [congruence|]. intros i. rewrite H2, H1.
  repeat case_decide; try lia; done.
Qed.

Lemma filled_0 m s c : filled_with m s 0 c m.
Proof. split; [done|]. intros i. by rewrite decide_False by lia. Qed.

Lemma set_bytes_ok n s c m :
  s + n ≤ length m → ∃ m', set_bytes n s c m = Some m' ∧ filled_with m s n c m'.
Proof.
  revert s m. induction n as [|n IH]; intros s m Hs; simpl; [eauto using filled_0|].
  rewrite store8_Some by lia. simpl.
  destruct (IH (s + 1) (<[s := Z.land c 255]> m)) as (m' & -> & Hf); [rewrite length_insert; lia|].
  exists m'. split; [done|]. apply (filled_app m s 1 n c (<[s := Z.land c 255]> m)); [|done].
  split; [by rewrite length_insert|]. intros i. rewrite lookup_store by lia.
  repeat case_decide; try lia; done.
Qed.

(** All four bytes of the word are [c]: checked for the 256 values of a byte. *)
Definition fill_check (b : nat) : bool :=
  let w := fill_word (Z.of_nat b) in
  forallb (λ i, word_byte w i =? Z.of_nat b)%Z [0; 1; 2; 3]%Z.

Lemma fill_check_all : forallb fill_check (seq 0 256) = true.
Proof. vm_compute. reflexivity. Qed.

Lemma land_255_range c : (0 ≤ Z.land c 255 < 256)%Z.
Proof. change 255%Z with (Z.ones 8). rewrite Z.land_ones by lia. apply Z.mod_pos_bound. lia. Qed.

Lemma fill_word_byte c i :
  In i [0; 1; 2; 3]%Z → word_byte (fill_word c) i = Z.land c 255.
Proof.
  intros Hi. pose proof (land_255_range c) as Hb.
  assert (E : fill_word c = fill_word (Z.land c 255)).
  { unfold fill_word. by rewrite <- Z.land_assoc, Z.land_diag. }
  rewrite E. pose proof (proj1 (forallb_forall _ _) fill_check_all (Z.to_nat (Z.land c 255))) as F.
  rewrite in_seq in F. specialize (F ltac:(lia)). unfold fill_check in F.
  rewrite Z2Nat.id in F by lia.
  apply (proj1 (forallb_forall _ _) F) in Hi. by apply Z.eqb_eq.
Qed.

Lemma set_words_ok k n s c m :
  s + n ≤ length m → n < k →
  ∃ r m', set_words k n s (fill_word c) m = Some (r, s + (n - r), m') ∧ r ≤ n ∧
    filled_with m s (n - r) c m'.
Proof.
  revert n s m. induction k as [|k IH]; intros n s m Hs Hk; [lia|]. cbn [set_words].
  destruct (Nat.leb_spec 4 n); cycle 1.
  { exists n, m. rewrite Nat.sub_diag, Nat.add_0_r. split; [done|]. split; [done|apply filled_0]. }
  rewrite store32_Some by lia. cbn [mbind option_bind]. rewrite !fill_word_byte by (simpl; tauto).
  set (m1 := <[s + 3 := _]> _).
  assert (F1 : filled_with m s 4 c m1).
  { unfold m1. split; [by rewrite !length_insert|]. intros i.
    repeat rewrite lookup_store by (rewrite ?length_insert; lia).
    repeat case_decide; try lia; done. }
  pose proof (proj1 F1).
  destruct (IH (n - 4) (s + 4) m1) as (r & m2 & E & Hr & F2); [lia..|].
  exists r, m2. rewrite E. split; [by replace (s + (n - r)) with (s + 4 + (n - 4 - r)) by lia|].
  split; [lia|]. replace (n - r) with (4 + (n - 4 - r)) by lia. by eapply filled_app.
Qed.

Lemma memset_ok s c n m :
  s + n ≤ length m → ∃ m', memset s c n m = Some m' ∧ filled_with m s n c m'.
Proof.
  intros Hs. unfold memset. destruct (_ =? _); [|by apply set_bytes_ok].
  destruct (set_words_ok (S n) n s c m) as (r & m1 & -> & Hr & F1); [lia..|].
  cbn [mbind option_bind]. pose proof (proj1 F1).
  destruct (set_bytes_ok r (s + (n - r)) c m1) as (m2 & -> & F2); [lia|].
  exists m2. split; [done|]. replace n with (n - r + r) by lia. by eapply filled_app.
Qed.

(** ** Strings *)

(** The memory holds the NUL-terminated string [s] at [p]. *)
Fixpoint cstr (m : mem) (p : nat) (s : list Z) : Prop :=
  match s with
  | [] => m !! p = Some 0%Z
  | c :: s => m !! p = Some c ∧ (0 < c < 256)%Z ∧ cstr m (p + 1) s
  end.

Lemma cstr_bound m p s : cstr m p s → p + length s < length m.
Proof.
  revert p. induction s as [|c s IH]; simpl; intros p.
  - intros H%lookup_lt_Some. lia.
  - intros (_ & _ & H%IH). lia.
Qed.

Lemma cstr_app m p s t : cstr m p (s ++ t) → cstr m (p + length s) t.
Proof.
  revert p. induction s as [|c s IH]; simpl; intros p; [by rewrite Nat.add_0_r|].
  intros (_ & _ & H%IH). by replace (p + S (length s)) with (p + 1 + length s) by lia.
Qed.

Lemma cstr_lookup m p s i c : cstr m p s → s !! i = Some c → m !! (p + i) = Some c ∧ (0 < c < 256)%Z.
Proof.
  revert p i. induction s as [|a s IH]; intros p i; [done|]. simpl.
  intros (Ha & Hr & Hs) Hi. destruct i as [|i]; simpl in Hi.
  - simplify_eq. by rewrite Nat.add_0_r.
  - apply (IH (p + 1)) in Hi; [|done]. by replace (p + S i) with (p + 1 + i) by lia.
Qed.

(** A string outside a changed area is still there. *)
Lemma cstr_unchanged m m' p s :
  cstr m p s → (∀ i, p ≤ i ≤ p + length s → m' !! i = m !! i) → cstr m' p s.
Proof.
  revert p. induction s as [|c s IH]; simpl; intros p.
  - intros Hp E. rewrite E by lia. done.
  - intros (Hp & Hc & Hs) E. rewrite E by lia. split_and!; auto; [lia..|].
    apply IH; [done|]. intros i Hi. apply E. lia.
Qed.

Lemma strlen_loop_ok k m p s :
  cstr m p s → length s < k → strlen_loop k p m = Some (p + length s).
Proof.
  revert p s. induction k as [|k IH]; intros p s Hs Hk; [lia|]. cbn [strlen_loop].
  destruct s as [|c s]; simpl in Hs, Hk.
  - unfold load8. rewrite Hs. simpl. f_equal. lia.
  - destruct Hs as (Hc & Hr & Hs). unfold load8. rewrite Hc. cbn [mbind option_bind].
    destruct (Z.eqb_spec c 0); [lia|]. rewrite (IH _ s) by (done || lia). simpl. f_equal. lia.
Qed.

Lemma strlen_ok m p s : cstr m p s → strlen p m = Some (length s).
Proof.
  intros Hs. pose proof (cstr_bound _ _ _ Hs). unfold strlen.
  rewrite (strlen_loop_ok _ m p s) by (done || lia). simpl. f_equal. lia.
Qed.

(** Copying a string copies its bytes and the NUL. *)
Lemma strcpy_loop_ok k m d p s :
  cstr m p s → length s < k → d + length s < length m → d ≤ p ∨ p + length s < d →
  ∃ m', strcpy_loop k d p m = Some m' ∧ copied m d p (length s + 1) m'.
Proof.
  revert m d p s. induction k as [|k IH]; intros m d p s Hs Hk Hd Hov; [lia|]. cbn [strcpy_loop].
  destruct s as [|c s]; simpl in Hs, Hk, Hd, Hov.
  - unfold load8. rewrite Hs. cbn [mbind option_bind]. rewrite store8_Some by lia.
    cbn [mbind option_bind]. eexists. split; [done|]. apply copied_1; [lia|done].
  - destruct Hs as (Hc & Hr & Hs). unfold load8. rewrite Hc. cbn [mbind option_bind].
    rewrite store8_Some by lia. cbn [mbind option_bind]. destruct (Z.eqb_spec c 0); [lia|].
    destruct (IH (<[d := c]> m) (d + 1) (p + 1) s) as (m' & -> & Hcp);
      [|lia|rewrite length_insert; lia|lia|].
    { eapply cstr_unchanged; [done|]. intros i Hi. rewrite list_lookup_insert_ne; [done|lia]. }
    exists m'. split; [done|]. simpl. replace (S (length s + 1)) with (1 + (length s + 1)) by lia.
    eapply copied_app; [lia| |exact Hcp]. apply copied_1; [lia|done].
Qed.

Lemma copied_cstr m d p s m' :
  cstr m p s → copied m d p (length s + 1) m' → cstr m' d s.
Proof.
  intros Hs [_ Hc].
  assert (E : ∀ i, i ≤ length s → m' !! (d + i) = m !! (p + i)).
  { intros i Hi. rewrite Hc, decide_True by lia. f_equal. lia. }
  clear Hc. revert p d Hs E. induction s as [|c s IH]; simpl; intros p d Hs E.
  - specialize (E 0). rewrite !Nat.add_0_r in E. rewrite E by lia. done.
  - destruct Hs as (Hc & Hr & Hs). pose proof (E 0) as E0. rewrite !Nat.add_0_r in E0.
    rewrite E0 by lia. split; [done|]. split; [done|]. apply (IH (p + 1)); [done|].
    intros i Hi. rewrite <- !Nat.add_assoc. apply E. lia.
Qed.

(** *** Comparison *)

(** The result of [strcmp] for two different bytes. *)
Definition byte_diff (a b : Z) : Z := signed8 (signed8 a - signed8 b).

(** [strcmp] on the strings themselves; the end of a string counts as 0. *)
Fixpoint str_cmp (s t : list Z) : Z :=
  match s, t with
  | [], [] => 0
  | [], b :: _ => byte_diff 0 b
  | a :: _, [] => byte_diff a 0
  | a :: s, b :: t => if (a =? b)%Z then str_cmp s t else byte_diff a b
  end.

Lemma byte_diff_0 a b : (0 ≤ a < 256)%Z → (0 ≤ b < 256)%Z → (byte_diff a b = 0 ↔ a = b)%Z.
Proof.
  intros Ha Hb. unfold byte_diff, signed8. split; [|intros ->; by rewrite Z.sub_diag].
  intros E.
  pose proof (Z.div_mod (a + 128) 256). pose proof (Z.div_mod (b + 128) 256).
  pose proof (Z.mod_pos_bound (a + 128) 256). pose proof (Z.mod_pos_bound (b + 128) 256).
  remember ((a + 128) mod 256 - 128 - ((b + 128) mod 256 - 128) + 128)%Z as z.
  pose proof (Z.div_mod z 256). lia.
Qed.

Lemma strcmp_loop_ok k m p q s t :
  cstr m p s → cstr m q t → length s < k → strcmp_loop k p q m = Some (str_cmp s t).
Proof.
  revert p q s t. induction k as [|k IH]; intros p q s t Hs Ht Hk; [lia|]. cbn [strcmp_loop].
  unfold load8.
  destruct s as [|a s], t as [|b t]; simpl in Hs, Ht, Hk.
  - rewrite Hs, Ht. done.
  - destruct Ht as (Ht & Hb & _). rewrite Hs, Ht. cbn [mbind option_bind]. by rewrite orb_true_r.
  - destruct Hs as (Hs & Ha & _). rewrite Hs, Ht. cbn [mbind option_bind].
    fold (byte_diff a 0). simpl str_cmp. pose proof (byte_diff_0 a 0).
    destruct (Z.eqb_spec (byte_diff a 0) 0); [lia|done].
  - destruct Hs as (Hs & Ha & Hs'), Ht as (Ht & Hb & Ht'). rewrite Hs, Ht. cbn [mbind option_bind].
    fold (byte_diff a b). simpl str_cmp. pose proof (byte_diff_0 a b).
    destruct (Z.eqb_spec (byte_diff a b) 0), (Z.eqb_spec a b), (Z.eqb_spec a 0); try lia; try done.
    cbn [negb orb]. apply IH; auto. lia.
Qed.

Lemma strcmp_ok m p q s t :
  cstr m p s → cstr m q t → strcmp p q m = Some (str_cmp s t).
Proof.
  intros Hs Ht. pose proof (cstr_bound _ _ _ Hs). unfold strcmp. apply strcmp_loop_ok; auto. lia.
Qed.

(** Bytes of a string, not NUL. *)
Definition nonzero (s : list Z) : Prop := Forall (λ c, (0 < c < 256)%Z) s.

Lemma str_cmp_0 s t : nonzero s → nonzero t → (str_cmp s t = 0%Z ↔ s = t).
Proof.
  unfold nonzero. revert t.
  induction s as [|a s IH]; intros [|b t] Hs Ht; simpl; try done.
  - apply Forall_cons in Ht as [Hb _]. rewrite byte_diff_0 by lia. split; [lia|done].
  - apply Forall_cons in Hs as [Ha _]. rewrite byte_diff_0 by lia. split; [lia|done].
  - apply Forall_cons in Hs as [Ha Hs], Ht as [Hb Ht].
    destruct (Z.eqb_spec a b) as [->|Hne]; [rewrite IH by done; naive_solver|].
    rewrite byte_diff_0 by lia. naive_solver.
Qed.

(** *** The order of 7-bit strings *)

Definition ascii7 (s : list Z) : Prop := Forall (λ c, (0 < c < 128)%Z) s.

Lemma signed8_small z : (-128 ≤ z < 128)%Z → signed8 z = z.
Proof. intros Hz. unfold signed8. rewrite Z.mod_small by lia. lia. Qed.

Lemma byte_diff_7 a b : (0 ≤ a < 128)%Z → (0 ≤ b < 128)%Z → byte_diff a b = (a - b)%Z.
Proof.
  intros Ha Hb. unfold byte_diff. by rewrite (signed8_small a), (signed8_small b), signed8_small by lia.
Qed.

Lemma str_cmp_antisym s t : ascii7 s → ascii7 t → str_cmp t s = (- str_cmp s t)%Z.
Proof.
  unfold ascii7. revert t. induction s as [|a s IH]; intros [|b t] Hs Ht; simpl; try done;
    repeat match goal with H : Forall _ (_ :: _) |- _ => apply Forall_cons in H as [? ?] end;
    rewrite ?byte_diff_7 by lia; try lia.
  rewrite Z.eqb_sym. destruct (Z.eqb_spec a b); [auto|lia].
Qed.

Lemma str_cmp_trans s t u :
  ascii7 s → ascii7 t → ascii7 u →
  (str_cmp s t ≤ 0 → str_cmp t u ≤ 0 → str_cmp s u ≤ 0)%Z.
Proof.
  unfold ascii7. revert t u. induction s as [|a s IH]; intros [|b t] [|c u] Hs Ht Hu; simpl; try done;
    repeat match goal with H : Forall _ (_ :: _) |- _ => apply Forall_cons in H as [? ?] end;
    repeat match goal with |- context [(?x =? ?y)%Z] => destruct (Z.eqb_spec x y) end;
    subst; rewrite ?byte_diff_7 by lia; try lia; eauto.
Qed.

(** ** Searching *)

Lemma memcmp_prefix m p q s t :
  cstr m p s → cstr m q t → length t ≤ length s →
  ∃ r, memcmp (length t) p q m = Some r ∧ (r = 0%Z ↔ t `prefix_of` s).
Proof.
  revert p q s. induction t as [|b t IH]; intros p q s Hs Ht Hl.
  { exists 0%Z. split; [done|]. split; [intros _; apply prefix_nil|done]. }
  destruct s as [|a s]; simpl in *; [lia|].
  destruct Hs as (Hs & Ha & Hs'), Ht as (Ht & Hb & Ht'). unfold load8. rewrite Hs, Ht.
  cbn [mbind option_bind]. destruct (Z.eqb_spec (a - b) 0).
  - assert (a = b) as -> by lia. destruct (IH (p + 1) (q + 1) s) as (r & -> & Hr); auto; [lia|].
    exists r. split; [done|]. rewrite Hr. split; [apply prefix_cons|apply prefix_cons_inv_2].
  - exists (a - b)%Z. split; [done|]. split; [done|]. intros Hp.
    apply prefix_cons_inv_1 in Hp. lia.
Qed.

(** What [strstr] returns: the first occurrence of [t] in [s]. *)
Definition first_occurrence (s t : list Z) (p : nat) (r : option nat) : Prop :=
  match r with
  | Some x => ∃ i, x = p + i ∧ i ≤ length s ∧ t `prefix_of` drop i s ∧
      ∀ j, j < i → ¬ t `prefix_of` drop j s
  | None => ∀ j, j ≤ length s → ¬ t `prefix_of` drop j s
  end.

Lemma strstr_loop_ok k m p q s t :
  cstr m p s → cstr m q t → 0 < length t → length s < k →
  ∃ r, strstr_loop k (length s) (length t) p q m = Some r ∧ first_occurrence s t p r.
Proof.
  revert p s. induction k as [|k IH]; intros p s Hs Ht Hl Hk; [lia|]. cbn [strstr_loop].
  destruct (Nat.leb_spec (length t) (length s)) as [Hle|Hgt]; cycle 1.
  { exists None. split; [done|]. intros j _ Hp%prefix_length. rewrite length_drop in Hp. lia. }
  destruct (memcmp_prefix m p q s t Hs Ht Hle) as (r & -> & Hr). cbn [mbind option_bind].
  destruct (Z.eqb_spec r 0) as [E|Hne].
  { exists (Some p). split; [done|]. exists 0. split_and!; [lia..|by apply Hr|lia]. }
  destruct s as [|a s]; simpl in *; [lia|]. destruct Hs as (_ & _ & Hs). rewrite Nat.sub_0_r.
  assert (H0 : ¬ t `prefix_of` a :: s) by naive_solver.
  destruct (IH (p + 1) s) as (o & -> & Ho); auto; [lia|]. exists o. split; [done|].
  destruct o as [x|]; simpl in *.
  - destruct Ho as (i & -> & Hi & Hp & Hn). exists (S i). split_and!; [lia..|done|].
    intros [|j] Hj; [done|]. simpl. apply Hn. lia.
  - intros [|j] Hj; [done|]. simpl. apply Ho. lia.
Qed.

Lemma strstr_ok m p q s t :
  cstr m p s → cstr m q t → ∃ r, strstr p q m = Some r ∧ first_occurrence s t p r.
Proof.
  intros Hs Ht. unfold strstr. rewrite (strlen_ok m q t Ht). cbn [mbind option_bind].
  destruct (Nat.eqb_spec (length t) 0) as [E|Hne].
  { exists (Some p). split; [done|]. exists 0. split_and!; [lia..| |lia].
    destruct t; [apply prefix_nil|done]. }
  rewrite (strlen_ok m p s Hs). cbn [mbind option_bind]. apply strstr_loop_ok; auto; lia.
Qed.

(** ** Statements *)

(** A memory with the strings "ab", "b" and the byte string [0x80 0x7f]. *)
Definition sample : mem := [97; 98; 0; 98; 0; 128; 127; 0; 0; 0; 0; 0]%Z.

Lemma sample_ok : bytes_ok sample.
Proof. unfold bytes_ok, sample. repeat constructor; lia. Qed.

(** C23: [memmove] copies any area within memory to any other, overlapping or
    not: afterwards the destination holds what the source held before, and
    the rest of memory is unchanged. *)
Theorem memmove_correct d s n m :
  d + n ≤ length m → s + n ≤ length m →
  ∃ m', memmove d s n m = Some m' ∧ copied m d s n m'.
Proof. apply memmove_ok. Qed.

Lemma memmove_correct_witness :
  ∃ m', memmove 1 0 4 sample = Some m' ∧ copied sample 1 0 4 m'.
Proof. apply (memmove_correct 1 0 4 sample); simpl; lia. Defined.

(** C26: [memcpy], which copies words when both pointers are aligned, has the
    same effect as long as the destination does not start inside the source. *)
Theorem memcpy_correct d s n m :
  bytes_ok m → d ≤ s ∨ s + n ≤ d → d + n ≤ length m → s + n ≤ length m →
  ∃ m', memcpy d s n m = Some m' ∧ copied m d s n m'.
Proof. apply memcpy_ok. Qed.

Lemma memcpy_correct_witness :
  ∃ m', memcpy 8 0 4 sample = Some m' ∧ copied sample 8 0 4 m'.
Proof. apply (memcpy_correct 8 0 4 sample); [exact sample_ok|simpl; lia..]. Defined.

(** C27: [memset], by words or by bytes, stores the low byte of its argument in
    every byte of the area and changes nothing else. *)
Theorem memset_correct s c n m :
  s + n ≤ length m → ∃ m', memset s c n m = Some m' ∧ filled_with m s n c m'.
Proof. apply memset_ok. Qed.

Lemma memset_correct_witness : ∃ m', memset 4 511 7 sample = Some m' ∧ filled_with sample 4 7 511 m'.
Proof. apply (memset_correct 4 511 7 sample). simpl. lia. Defined.

(** C21: [strcpy] into an area that has room for the string and does not start
    inside it leaves the string at the destination and changes only the bytes
    of the copy. *)
Theorem strcpy_correct m d p s :
  cstr m p s → d + length s < length m → d ≤ p ∨ p + length s < d →
  ∃ m', strcpy d p m = Some m' ∧ cstr m' d s ∧ copied m d p (length s + 1) m'.
Proof.
  intros Hs Hd Hov. pose proof (cstr_bound _ _ _ Hs). unfold strcpy.
  destruct (strcpy_loop_ok (S (length m)) m d p s) as (m' & -> & Hc); auto; [lia|].
  exists m'. split; [done|]. split; [by eapply copied_cstr|done].
Qed.

Lemma strcpy_correct_witness : ∃ m', strcpy 8 0 sample = Some m' ∧ cstr m' 8 [97; 98]%Z.
Proof.
  destruct (strcpy_correct sample 8 0 [97; 98]%Z) as (m' & E & H & _);
    [simpl; repeat split; lia|simpl; lia|simpl; lia|].
  exists m'. split; [exact E|exact H].
Defined.

(** C26: [strcmp] terminates on any two strings, returns 0 exactly for equal
    strings, and on 7-bit strings its sign is antisymmetric and transitive. *)
Theorem strcmp_correct m p q s t :
  cstr m p s → cstr m q t → nonzero s → nonzero t →
  strcmp p q m = Some (str_cmp s t) ∧ (str_cmp s t = 0%Z ↔ s = t) ∧
  (ascii7 s → ascii7 t → str_cmp t s = (- str_cmp s t)%Z ∧
    ∀ u, ascii7 u → (str_cmp s t ≤ 0 → str_cmp t u ≤ 0 → str_cmp s u ≤ 0)%Z).
Proof.
  intros Hs Ht Ns Nt. split; [by apply strcmp_ok|]. split; [by apply str_cmp_0|].
  intros As At. split; [by apply str_cmp_antisym|]. intros u Au. by apply str_cmp_trans.
Qed.

Lemma strcmp_correct_witness : strcmp 0 3 sample = Some (-1)%Z.
Proof.
  refine (proj1 (strcmp_correct sample 0 3 [97; 98]%Z [98]%Z _ _ _ _));
    [simpl; repeat split; lia..|repeat constructor; lia|repeat constructor; lia].
Defined.

(** On 8-bit strings the sign of [strcmp] is not an order, because the
    difference is truncated to a [signed char]: byte 1 is before 127, 127 is
    before 254, and 254 is before 1. *)
Theorem strcmp_not_transitive :
  (str_cmp [1] [127] < 0 ∧ str_cmp [127] [254] < 0 ∧ str_cmp [254] [1] < 0)%Z.
Proof. vm_compute. done. Qed.

(** C29: [strstr] returns the first occurrence of the second string in the
    first, and a null pointer only if there is none. *)
Theorem strstr_correct m p q s t :
  cstr m p s → cstr m q t → ∃ r, strstr p q m = Some r ∧ first_occurrence s t p r.
Proof. apply strstr_ok. Qed.

Lemma strstr_correct_witness :
  ∃ r, strstr 0 3 sample = Some r ∧ first_occurrence [97; 98]%Z [98]%Z 0 r.
Proof. apply (strstr_correct sample 0 3); simpl; repeat split; lia. Defined.
