(* ===== verification/HashExport.v ===== *)
(** * The environment hash table: export and import

    [hexport_r] writes the entries of the table, sorted by name, as
    "name=value" strings; [himport_r] parses such a buffer and enters what it
    finds. The parser is written against the interface [EnvStore] of what it
    needs from the table. *)

From stdpp Require Import base option list strings gmap sorting.
From Stdlib Require Import ZArith Lia Ascii.
From S2P Require Import Prelude Word32 HashProbe Hashtable CString CStringSpec Qsort.
Local Open Scope nat_scope.

Definition NUL : ascii := "000"%char.
Definition backslash : ascii := "092"%char.

#[export] Instance ascii_eq_dec' : EqDecision ascii := ascii_dec.

(** ** Export *)

Definition H_NOCLEAR : Z := 1.
Definition H_HIDE_DOT : Z := 8.
Definition H_MATCH_KEY : Z := 16.
Definition H_MATCH_DATA : Z := 32.
Definition H_MATCH_IDENT : Z := 64.
Definition H_MATCH_SUBSTR : Z := 128.
Definition H_MATCH_REGEX : Z := 256.
Definition H_MATCH_METHOD : Z := Z.lor (Z.lor H_MATCH_IDENT H_MATCH_SUBSTR) H_MATCH_REGEX.

Definition has_flag (flag bit : Z) : bool := negb (Z.land flag bit =? 0)%Z.

(** The bytes of a string. *)
Definition bytes_of (s : string) : list Z :=
  (λ c, Z.of_nat (nat_of_ascii c)) <$> String.list_ascii_of_string s.

Definition cmpkey (e1 e2 : string * string) : Z := str_cmp (bytes_of e1.1) (bytes_of e2.1).

(** Without [CONFIG_REGEX], as on this board. *)
Definition match_string (flag : Z) (str pat : string) : bool :=
  if (Z.land flag H_MATCH_METHOD =? H_MATCH_IDENT)%Z then bool_decide (str = pat)
  else if (Z.land flag H_MATCH_METHOD =? H_MATCH_SUBSTR)%Z then
    match String.index 0 pat str with Some _ => true | None => false end
  else false.

(** The arguments after [argv[0]]. *)
Definition match_entry (ep : string * string) (flag : Z) (argv : list string) : bool :=
  existsb (λ arg, (has_flag flag H_MATCH_KEY && match_string flag ep.1 arg) ||
                  (has_flag flag H_MATCH_DATA && match_string flag ep.2 arg)) (tail argv).

Definition starts_with_dot (k : string) : bool :=
  match k with String c _ => bool_decide (c = "."%char) | EmptyString => false end.

(** Pass 1: the entries to export, in slot order. *)
Definition selected (flag : Z) (argv : list string) (s : _ENTRY) : option (string * string) :=
  if live s then
    k ← key (entry s); d ← data (entry s);
    if (0 <? length argv) && negb (match_entry (k, d) flag argv) then None
    else if has_flag flag H_HIDE_DOT && starts_with_dot k then None
    else Some (k, d)
  else None.

Definition export_list (htab : hsearch_data) (flag : Z) (argv : list string)
  : list (string * string) :=
  omap (λ i, selected flag argv (slot htab i)) (seq 1 (size htab)).

(** The length computed in pass 1: escapes count only for a separator other
    than NUL. *)
Definition needs_escape (sep c : ascii) : bool := bool_decide (c = sep ∨ c = backslash).

Definition entry_len (sep : ascii) (e : string * string) : nat :=
  String.length e.1 + 2 +
  (if decide (sep = NUL) then String.length e.2
   else String.length e.2 + length (filter (λ c, needs_escape sep c = true)
                                      (String.list_ascii_of_string e.2))) + 2.

Definition totlen (sep : ascii) (l : list (string * string)) : nat :=
  foldr (λ e n, entry_len sep e + n) 0 l.

(** Pass 2: one entry, with its separator. *)
Fixpoint escape (sep : ascii) (s : list ascii) : list ascii :=
  match s with
  | [] => []
  | c :: s => if needs_escape sep c then backslash :: c :: escape sep s else c :: escape sep s
  end.

Definition print_entry (sep : ascii) (e : string * string) : list ascii :=
  String.list_ascii_of_string e.1 ++ ["="%char] ++
  escape sep (String.list_ascii_of_string e.2) ++ [sep].

Definition print_list (sep : ascii) (l : list (string * string)) : list ascii :=
  concat (print_entry sep <$> l).

(** The outcome of an export: an error, a buffer of the given size, or writes
    beyond the end of the buffer. *)
Inductive export_result :=
  | ExportErr (e : errno)
  | Exported (res : list ascii)
  | Overrun.

Definition hexport_r `{EnvHooks} (htab : hsearch_data) (sep : ascii) (flag : Z) (resp : bool)
    (size : nat) (argv : list string) : option export_result :=
  let l := export_list htab flag argv in
  let n := totlen sep l in
  l ← qsort cmpkey l;
  if (0 <? size) && (size <? n + 1) then Some (ExportErr ENOMEM)
  else
    let size := if size =? 0 then n + 1 else size in
    if negb resp && negb (calloc_ok size) then Some (ExportErr ENOMEM)
    else
      let out := print_list sep l ++ [NUL] in
      if length out <=? size then Some (Exported (out ++ replicate (size - length out) NUL))
      else Some Overrun.

(** ** Import *)

(** What the parser needs from the table. *)
Class EnvStore (T : Type) := {
  es_enter : Z → string → string → T → T;
  es_delete : Z → string → T → T;
}.

Definition isblank (c : ascii) : bool := bool_decide (c = " "%char ∨ c = "009"%char).

(** [None] is a read beyond the end of the buffer. *)
Fixpoint skip_blank (dp : list ascii) : option (list ascii) :=
  match dp with
  | [] => None
  | c :: r => if isblank c then skip_blank r else Some dp
  end.

(** [*dp && *dp != sep] is false. *)
Definition at_end (sep c : ascii) : bool := bool_decide (c = NUL ∨ c = sep).

Fixpoint skip_comment (sep : ascii) (dp : list ascii) : option (list ascii) :=
  match dp with
  | [] => None
  | c :: r => if at_end sep c then Some r else skip_comment sep r
  end.

Fixpoint take_name (sep : ascii) (dp : list ascii) : option (list ascii * list ascii) :=
  match dp with
  | [] => None
  | c :: r =>
      if bool_decide (c = "="%char) || at_end sep c then Some ([], dp)
      else '(name, dp) ← take_name sep r; Some (c :: name, dp)
  end.

(** The value with its escapes removed, and what follows the separator. *)
Fixpoint take_value (sep : ascii) (dp : list ascii) : option (list ascii * list ascii) :=
  match dp with
  | [] => None
  | c :: r =>
      if at_end sep c then Some ([], r)
      else if decide (c = backslash) then
        match r with
        | [] => None
        | d :: r' =>
            if decide (d = NUL) then '(v, dp) ← take_value sep r; Some (c :: v, dp)
            else '(v, dp) ← take_value sep r'; Some (d :: v, dp)
        end
      else '(v, dp) ← take_value sep r; Some (c :: v, dp)
  end.

Definition str_of (l : list ascii) : string := String.string_of_list_ascii l.

(** [None] in the list is a variable that was found already. *)
Definition drop_var_from_set (name : string) (vars : list (option string))
  : bool * list (option string) :=
  if length vars =? 0 then (true, vars)
  else (existsb (λ v, bool_decide (v = Some name)) vars,
        (λ v, if bool_decide (v = Some name) then None else v) <$> vars).

Section Parser.
Context {T : Type} `{EnvStore T} (sep : ascii) (flag : Z).

(** One iteration of the parser: [inl] is the return with an error (an empty
    name), [inr] the variables left, the table and the rest of the buffer. *)
Definition himport_step (vars : list (option string)) (t : T) (dp : list ascii)
  : option (T + (list (option string) * T * list ascii)) :=
  dp ← skip_blank dp;
  if bool_decide (head dp = Some "#"%char) then
    dp ← skip_comment sep dp; Some (inr (vars, t, dp))
  else
    '(name, dp) ← take_name sep dp;
    match dp with
    | [] => None
    | c :: r =>
        del ← (if bool_decide (c = NUL) then Some true
               else d ← head r; Some (bool_decide (d = NUL) || bool_decide (c = sep) ||
                                      bool_decide (d = sep)));
        if del : bool then
          let dp := if bool_decide (c = "="%char) then tail r else r in
          let '(found, vars) := drop_var_from_set (str_of name) vars in
          Some (inr (vars, if found : bool then es_delete flag (str_of name) t else t, dp))
        else
          '(value, dp) ← take_value sep r;
          if bool_decide (name = []) then Some (inl t)
          else
            let '(found, vars) := drop_var_from_set (str_of name) vars in
            Some (inr (vars, if found : bool then es_enter flag (str_of name) (str_of value) t
                             else t, dp))
    end.

(** The [do] loop; its condition is [dp < data + size && *dp]. *)
Fixpoint himport_loop (k : nat) (vars : list (option string)) (t : T) (dp : list ascii)
  : option (bool * list (option string) * T) :=
  match k with
  | O => None
  | S k =>
      r ← himport_step vars t dp;
      match r with
      | inl t => Some (false, vars, t)
      | inr (vars, t, dp) =>
          match dp with
          | [] => Some (true, vars, t)
          | c :: _ => if bool_decide (c = NUL) then Some (true, vars, t)
                      else himport_loop k vars t dp
          end
      end
  end.

(** The variables that were asked for and not imported are deleted. *)
Definition delete_rest (vars : list (option string)) (t : T) : T :=
  fold_left (λ t v, match v with Some k => es_delete flag k t | None => t end) vars t.

End Parser.

#[export] Instance htab_store `{EnvHooks} : EnvStore hsearch_data := {|
  es_enter flag k v htab := (hsearch_r k (Some v) ENTER htab flag).2;
  es_delete flag k htab := (hdelete_r k htab flag).2;
|}.

Definition CONFIG_ENV_MIN_ENTRIES : nat := 64.
Definition CONFIG_ENV_MAX_ENTRIES : nat := 512.

(** [himport_r]: the return value (true for 1) and the table. The allocation
    of the copy of [env] is assumed to succeed when [calloc_ok] says so. *)
Definition himport_r `{EnvHooks} (htab : hsearch_data) (env : list ascii) (sep : ascii)
    (flag : Z) (vars : list string) : option (bool * hsearch_data) :=
  if negb (calloc_ok (length env)) then Some (false, htab)
  else
    let htab :=
      if negb (has_flag flag H_NOCLEAR) then
        match table htab with Some _ => hdestroy_r htab | None => htab end
      else htab in
    '(ok, htab) ←
      match table htab with
      | Some _ => Some (true, htab)
      | None =>
          let nent := CONFIG_ENV_MIN_ENTRIES + length env / 8 in
          let nent := if CONFIG_ENV_MAX_ENTRIES <? nent then CONFIG_ENV_MAX_ENTRIES else nent in
          '(r, htab) ← hcreate_r 10 nent htab;
          Some (negb (r =? 0), htab)
      end;
    if negb ok then Some (false, htab)
    else
      '(ok, vars, htab) ← himport_loop sep flag (S (length env)) (Some <$> vars) htab env;
      if ok : bool then Some (true, delete_rest flag vars htab) else Some (false, htab).
