(* ===== verification/HashImport.v ===== *)
(** * The environment hash table: the export / import round trip

    What [hexport_r] writes, [himport_r] reads back to the same map. The proof
    goes through the printed text: the parser undoes the printer entry by
    entry, and entering the entries one by one rebuilds the map. *)

From stdpp Require Import base option list strings gmap sorting.
From Stdlib Require Import ZArith Znumtheory Lia Ascii.
From S2P Require Import Prelude Word32 HashProbe Hashtable HashRefine HashSpec CString CStringSpec Qsort HashExport.
Local Open Scope nat_scope.

(** ** The parser undoes the printer *)

Definition chars (s : string) : list ascii := String.list_ascii_of_string s.

Lemma str_of_chars s : str_of (chars s) = s.
Proof. apply String.string_of_list_ascii_of_string. Qed.

(** A separator that the format can use. *)
Definition sep_ok (sep : ascii) : Prop := sep ≠ "="%char ∧ sep ≠ backslash.

(** Names and values that the format can hold. *)
Definition name_ok (sep : ascii) (k : string) : Prop :=
  Forall (λ c, c ≠ NUL ∧ c ≠ "="%char ∧ c ≠ sep) (chars k) ∧
  ∃ c r, chars k = c :: r ∧ isblank c = false ∧ c ≠ "#"%char.

Definition value_ok (v : string) : Prop := v ≠ EmptyString ∧ Forall (λ c, c ≠ NUL) (chars v).

Definition entry_ok (sep : ascii) (e : string * string) : Prop := name_ok sep e.1 ∧ value_ok e.2.

Lemma take_name_ok sep name r :
  Forall (λ c, c ≠ NUL ∧ c ≠ "="%char ∧ c ≠ sep) name →
  take_name sep (name ++ "="%char :: r) = Some (name, "="%char :: r).
Proof.
  induction 1 as [|c name (? & ? & ?) _ IH]; simpl; [done|].
  unfold at_end. rewrite !bool_decide_eq_false_2 by naive_solver. simpl. by rewrite IH.
Qed.

Lemma take_value_ok sep v r :
  sep_ok sep → Forall (λ c, c ≠ NUL) v →
  take_value sep (escape sep v ++ sep :: r) = Some (v, r).
Proof.
  intros [Hs1 Hs2]. assert (NUL ≠ backslash) by done.
  induction 1 as [|c v Hc _ IH]; simpl.
  - unfold at_end. by rewrite bool_decide_eq_true_2 by auto.
  - unfold needs_escape. case_bool_decide as E; simpl; unfold at_end.
    + rewrite bool_decide_eq_false_2 by naive_solver.
      destruct (decide (backslash = backslash)); [|done].
      destruct (decide (c = NUL)); [done|]. by rewrite IH.
    + rewrite bool_decide_eq_false_2 by naive_solver.
      destruct (decide (c = backslash)); [naive_solver|]. by rewrite IH.
Qed.

(** The first character of an escaped value. *)
Lemma escape_head sep v r :
  sep_ok sep → v ≠ [] → Forall (λ c, c ≠ NUL) v →
  ∃ d r', escape sep v ++ r = d :: r' ∧ d ≠ NUL ∧ d ≠ sep.
Proof.
  intros [_ Hs] Hv Hn. destruct v as [|c v]; [done|]. apply Forall_cons in Hn as [Hc _].
  simpl. unfold needs_escape. case_bool_decide as E; simpl; eexists _, _; (split; [done|]);
    split; try done; naive_solver.
Qed.

Lemma himport_step_ok {T} `{EnvStore T} sep flag t e r :
  sep_ok sep → entry_ok sep e →
  himport_step sep flag [] t (print_entry sep e ++ r) = Some (inr ([], es_enter flag e.1 e.2 t, r)).
Proof.
  destruct e as [k v]. intros Hsep [[Hk (c & k' & Ek & Hb & Hh)] [Hv Hn]]. simpl in *.
  unfold himport_step, print_entry. simpl. fold (chars k) (chars v).
  rewrite <- app_assoc. simpl. rewrite <- app_assoc. simpl.
  assert (Hskip : skip_blank (chars k ++ "="%char :: escape sep (chars v) ++ sep :: r) =
    Some (chars k ++ "="%char :: escape sep (chars v) ++ sep :: r)).
  { rewrite Ek. simpl. by rewrite Hb. }
  rewrite Hskip. cbn [mbind option_bind].
  rewrite bool_decide_eq_false_2 by (rewrite Ek; simpl; congruence).
  rewrite take_name_ok by done. cbn [mbind option_bind].
  rewrite (bool_decide_eq_false_2 ("="%char = NUL)) by done.
  destruct (escape_head sep (chars v) (sep :: r)) as (d & r' & Ed & Hd1 & Hd2); auto.
  { intros E. apply Hv. rewrite <- (str_of_chars v), E. done. }
  destruct Hsep as [Hs1 Hs2].
  assert (Eh : head (escape sep (chars v) ++ sep :: r) = Some d) by (by rewrite Ed).
  rewrite Eh. cbn [mbind option_bind].
  rewrite (bool_decide_eq_false_2 (d = NUL)), (bool_decide_eq_false_2 ("="%char = sep)),
    (bool_decide_eq_false_2 (d = sep)) by congruence. cbn [orb].
  rewrite take_value_ok by (done || by split). cbn [mbind option_bind].
  rewrite (bool_decide_eq_false_2 (chars k = [])) by (rewrite Ek; done).
  simpl. by rewrite !str_of_chars.
Qed.

(** Entering a list of entries in order. *)
Definition enter_all {T} `{EnvStore T} (flag : Z) (l : list (string * string)) (t : T) : T :=
  fold_left (λ t e, es_enter flag e.1 e.2 t) l t.

Lemma print_entry_head sep e r :
  entry_ok sep e → ∃ c r', print_entry sep e ++ r = c :: r' ∧ c ≠ NUL.
Proof.
  destruct e as [k v]. intros [[Hk (c & k' & Ek & _)] _]. unfold print_entry. simpl in *.
  fold (chars k). rewrite Ek in *. apply Forall_cons in Hk as [(? & _) _]. simpl. eauto.
Qed.

Lemma himport_loop_ok {T} `{EnvStore T} sep flag pad : ∀ l k t,
  sep_ok sep → l ≠ [] → Forall (entry_ok sep) l → length l ≤ k →
  himport_loop sep flag k [] t (print_list sep l ++ NUL :: pad) =
  Some (true, [], enter_all flag l t).
Proof.
  induction l as [|e l IH]; intros k t Hs Hl He Hk; [done|]. apply Forall_cons in He as [He1 He].
  destruct k as [|k]; [simpl in Hk; lia|]. cbn [himport_loop].
  change (print_list sep (e :: l)) with (print_entry sep e ++ print_list sep l).
  rewrite <- app_assoc, himport_step_ok by done. cbn [mbind option_bind].
  destruct l as [|e' l].
  - simpl. done.
  - destruct (print_entry_head sep e' (print_list sep l ++ NUL :: pad)) as (c & r & E & Hc);
      [by apply Forall_cons in He as [? _]|].
    assert (E' : print_list sep (e' :: l) ++ NUL :: pad = c :: r).
    { change (print_list sep (e' :: l)) with (print_entry sep e' ++ print_list sep l).
      rewrite <- app_assoc. exact E. }
    rewrite E', bool_decide_eq_false_2 by done. rewrite <- E'.
    simpl in Hk. apply IH; auto; [simpl; lia].
Qed.

(** An empty environment is a single NUL: nothing is entered. *)
Lemma himport_loop_empty {T} `{EnvStore T} sep flag k t m :
  0 < k → himport_loop sep flag k [] t (NUL :: replicate m NUL) =
  Some (true, [], es_delete flag EmptyString t).
Proof.
  intros Hk. destruct k as [|k]; [lia|]. cbn [himport_loop]. unfold himport_step. simpl.
  by destruct m.
Qed.

(** ** Entering entries rebuilds the map *)

(** Inserting a list of bindings, the first one first. *)
Definition insert_all (l : list (string * string)) (m : gmap string string) : gmap string string :=
  fold_left (λ m e, <[e.1 := e.2]> m) l m.

Lemma insert_all_lookup l m k v :
  NoDup l.*1 →
  (insert_all l m !! k = Some v ↔ (k, v) ∈ l ∨ (k ∉ l.*1 ∧ m !! k = Some v)).
Proof.
  revert m. induction l as [|[k' v'] l IH]; intros m Hn; simpl.
  { split; [intros; right; split; [set_solver|done]|intros [?|[_ ?]]; [set_solver|done]]. }
  simpl in Hn. apply NoDup_cons in Hn as [Hk Hn]. rewrite IH by done.
  rewrite lookup_insert_Some, elem_of_cons, not_elem_of_cons. split.
  - intros [?|[Hnk [[-> ->]|[Hne Hm]]]]; [by left; right|by left; left|].
    right. split; [|done]. by split.
  - intros [[E|?]|[[Hne Hnk] Hm]]; [simplify_eq; right; split; [done|by left]|by left|].
    right. split; [done|]. right. by split.
Qed.

Lemma insert_all_size l m :
  NoDup l.*1 → (∀ k, k ∈ l.*1 → m !! k = None) →
  base.size (insert_all l m) = base.size m + length l.
Proof.
  revert m. induction l as [|[k v] l IH]; intros m Hn Hm; simpl; [lia|].
  simpl in Hn, Hm. apply NoDup_cons in Hn as [Hk Hn]. rewrite IH; [|done|].
  - rewrite map_size_insert_None by (apply Hm; by left). lia.
  - intros k' Hk'. rewrite lookup_insert_ne; [apply Hm; by right|]. intros ->. done.
Qed.

Section Store.
Context `{EnvHooks}
  (strdup_ok : ∀ s, strdup s = Some s)
  (no_reject : ∀ cb k v op flag, run_callback cb k v op flag = false).

(** A check of changes that rejects nothing. *)
Definition accepting (f : option (ENTRY → option string → env_op → Z → bool)) : Prop :=
  match f with Some f => ∀ e d op flag, f e d op flag = false | None => True end.

(** A table without dead buckets that rejects nothing. *)
Record clean (htab : hsearch_data) : Prop := {
  cl_wf : htab_wf htab;
  cl_dead i : used (slot htab i) ≠ (-1)%Z;
  cl_change : accepting (change_ok htab);
}.

Lemma enter_one flag k v htab :
  clean htab → filled htab < size htab →
  clean (es_enter flag k v htab) ∧ size (es_enter flag k v htab) = size htab ∧
  env_of (es_enter flag k v htab) = <[k := v]> (env_of htab).
Proof.
  intros [W Hd Hc] Hlt. pose proof (free_of_clean htab W Hd Hlt) as Hfree.
  pose proof (hsearch_enter_ok strdup_ok htab k v flag W (or_intror Hfree)) as E.
  simpl. destruct (hsearch_r k (Some v) ENTER htab flag) as [r htab']. simpl in *.
  destruct E as [W' Hs Hc' [(_ & _ & Henv & _ & Hdead)|(e & _ & _ & Hcause)]].
  - split; [|done]. split; [done| |by rewrite Hc']. intros i Hi. by apply (Hd i), Hdead.
  - exfalso. destruct Hcause as [(_ & _ & ?)|(op & [(_ & f & ent & Hf & Hrej)|(_ & cb & Hb)])].
    + lia.
    + rewrite Hf in Hc. by rewrite Hc in Hrej.
    + by rewrite no_reject in Hb.
Qed.

Lemma enter_all_ok flag l htab :
  clean htab → filled htab + length l ≤ size htab →
  clean (enter_all flag l htab) ∧ env_of (enter_all flag l htab) = insert_all l (env_of htab).
Proof.
  revert htab. induction l as [|[k v] l IH]; intros htab Hc Hf; simpl; [done|]. simpl in Hf.
  destruct (enter_one flag k v htab Hc) as (Hc' & Hs & He); [lia|].
  simpl in Hc', Hs, He. rewrite <- He. apply IH; [done|].
  pose proof (cl_wf _ Hc') as [_ Hf']. pose proof (cl_wf _ Hc) as [_ Hf0].
  rewrite Hs, Hf', He. rewrite Hf0 in Hf.
  destruct (env_of htab !! k) eqn:E.
  - rewrite map_size_insert_Some by eauto. lia.
  - rewrite map_size_insert_None by done. lia.
Qed.

(** Deleting a name that is not there does nothing. *)
Lemma delete_absent flag k htab :
  clean htab → env_of htab !! k = None → es_delete flag k htab = htab.
Proof.
  intros [W _ Hc] Hk. pose proof (hdelete_ok htab k flag W) as E. simpl.
  destruct (hdelete_r k htab flag) as [r htab']. simpl.
  destruct E as [_ _ _ [(_ & [? ?] & _)|[(_ & _ & ->)|(e & _ & _ & ->)]]]; [congruence|done..].
Qed.

End Store.

(** ** The exported list *)

Lemma export_list_all htab : export_list htab 0 [] = omap (kv htab) (seq 1 (size htab)).
Proof.
  assert (E : ∀ i, selected 0 [] (slot htab i) = kv htab i).
  { intros i. unfold selected, kv, slot_kv. destruct (live (slot htab i)); [|done].
    destruct (key _); [|done]. by destruct (data _). }
  unfold export_list. apply list_omap_ext, Forall_Forall2_diag, Forall_true, E.
Qed.

Lemma elem_of_export htab k v :
  htab_inv htab → ((k, v) ∈ export_list htab 0 [] ↔ env_of htab !! k = Some v).
Proof.
  intros W. rewrite export_list_all, list_elem_of_omap, env_of_lookup by done.
  unfold in_range. setoid_rewrite elem_of_seq.
  split; intros (i & Hi & ?); exists i; (split; [lia|done]).
Qed.

Lemma print_list_length_ge sep l : length l ≤ length (print_list sep l).
Proof.
  induction l as [|e l IH]; [done|].
  change (print_list sep (e :: l)) with (print_entry sep e ++ print_list sep l).
  rewrite length_app. unfold print_entry. rewrite !length_app. simpl. lia.
Qed.

Lemma export_keys_nodup htab l :
  keys_differ htab l → NoDup l → NoDup (omap (kv htab) l).*1.
Proof.
  induction l as [|a l IH]; intros Hd Hn; simpl; [constructor|].
  apply NoDup_cons in Hn as [Ha Hn].
  assert (Hd' : keys_differ htab l) by (intros i j k d d' Hi Hj; apply Hd; by right).
  specialize (IH Hd' Hn). destruct (kv htab a) as [[k d]|] eqn:E; [|done]. simpl.
  apply NoDup_cons. split; [|done]. intros Hk.
  apply list_elem_of_fmap in Hk as ([k' d'] & -> & Hin).
  apply list_elem_of_omap in Hin as (j & Hj & Hkj). apply Ha.
  by rewrite (Hd a j k' d d') by (done || by left || by right).
Qed.

(** A list with the bindings of a map rebuilds it. *)
Lemma insert_all_env htab l :
  htab_inv htab → l ≡ₚ export_list htab 0 [] → insert_all l ∅ = env_of htab.
Proof.
  intros W Hp. apply map_eq. intros k. apply option_eq. intros v. rewrite insert_all_lookup.
  - rewrite Hp, elem_of_export by done. split; [|by left].
    intros [?|[_ Hm]]; [done|]. by rewrite lookup_empty in Hm.
  - rewrite Hp, export_list_all. apply export_keys_nodup; [by apply wf_keys_differ|apply NoDup_seq].
Qed.

(** ** The size of the buffer *)

Lemma escape_length sep v :
  length (escape sep v) = length v + length (filter (λ c, needs_escape sep c = true) v).
Proof.
  induction v as [|c v IH]; [done|]. cbn [escape]. rewrite filter_cons.
  destruct (needs_escape sep c); simpl; rewrite IH; simpl; lia.
Qed.

Lemma length_chars s : length (String.list_ascii_of_string s) = String.length s.
Proof. induction s; simpl; auto. Qed.

(** With a separator other than NUL the computed length is enough. *)
Lemma print_list_length sep l :
  sep ≠ NUL → length (print_list sep l) ≤ totlen sep l.
Proof.
  intros Hs. induction l as [|[k v] l IH]; [done|].
  change (print_list sep ((k, v) :: l)) with (print_entry sep (k, v) ++ print_list sep l).
  cbn [totlen foldr]. fold (totlen sep l). rewrite length_app.
  unfold print_entry, entry_len. rewrite decide_False by done.
  rewrite !length_app, escape_length, !length_chars. simpl. lia.
Qed.

Section Statements.
Context `{EnvHooks}.

(** What an export that succeeds returns. *)
Lemma hexport_inv htab sep flag resp n argv buf :
  hexport_r htab sep flag resp n argv = Some (Exported buf) →
  ∃ l m, qsort cmpkey (export_list htab flag argv) = Some l ∧
    buf = print_list sep l ++ NUL :: replicate m NUL.
Proof.
  unfold hexport_r. intros (l & Hl & E)%bind_Some. exists l.
  destruct ((0 <? n) && _); [done|]. destruct (negb resp && _); [done|].
  destruct (_ <=? _); [|done]. simplify_eq. eexists. split; [done|].
  rewrite <- app_assoc. done.
Qed.

(** The number of entries that [himport_r] makes room for. *)
Definition import_room (buf : list ascii) : nat :=
  Nat.min CONFIG_ENV_MAX_ENTRIES (CONFIG_ENV_MIN_ENTRIES + length buf / 8).

(** The first half of [himport_r] without [H_NOCLEAR]: a new, empty table. *)
Lemma himport_fresh htab buf sep :
  (∀ n, calloc_ok n = true) →
  ∃ p, import_room buf ≤ p ∧ prime (Z.of_nat p) ∧ 5 ≤ p ∧
    himport_r htab buf sep 0 [] =
    ('(ok, vars, h) ← himport_loop sep 0 (S (length buf)) []
        (mkHtab (Some (replicate (p + 1) zero_slot)) p 0 (change_ok htab)) buf;
     if ok : bool then Some (true, delete_rest 0 vars h) else Some (false, h)).
Proof.
  intros Hc. unfold himport_r. rewrite Hc. cbn [negb].
  set (h0 := if negb (has_flag 0 H_NOCLEAR) then _ else _).
  assert (T0 : table h0 = None) by (unfold h0; simpl; by destruct (table htab) eqn:E).
  assert (C0 : change_ok h0 = change_ok htab) by (unfold h0; simpl; by destruct (table htab)).
  clearbody h0. rewrite T0.
  set (nent := if CONFIG_ENV_MAX_ENTRIES <? _ then _ else _).
  assert (Hn : nent = import_room buf).
  { unfold nent, import_room. destruct (Nat.ltb_spec CONFIG_ENV_MAX_ENTRIES
      (CONFIG_ENV_MIN_ENTRIES + length buf / 8)); lia. }
  rewrite Hn. clear Hn nent.
  assert (Hr : 2 ≤ import_room buf ≤ 513)
    by (unfold import_room, CONFIG_ENV_MAX_ENTRIES, CONFIG_ENV_MIN_ENTRIES; lia).
  destruct (hcreate_ok (import_room buf) h0 T0 Hr Hc) as (p & -> & Hp & Hb & H5).
  rewrite C0. exists p. split; [lia|]. done.
Qed.

Lemma import_export_ok sep resp n htab htab0 buf :
  (∀ s, strdup s = Some s) → (∀ n, calloc_ok n = true) →
  (∀ cb k v op flag, run_callback cb k v op flag = false) →
  sep_ok sep → htab_wf htab → accepting (change_ok htab0) →
  map_Forall (λ k v, entry_ok sep (k, v)) (env_of htab) →
  hexport_r htab sep 0 resp n [] = Some (Exported buf) →
  base.size (env_of htab) ≤ import_room buf →
  ∃ htab', himport_r htab0 buf sep 0 [] = Some (true, htab') ∧
    htab_wf htab' ∧ env_of htab' = env_of htab.
Proof.
  intros Hstr Hcal Hrej Hsep [W Hf] Hch Hent Hexp Hroom.
  destruct (hexport_inv _ _ _ _ _ _ _ Hexp) as (l & m & Hq & Hbuf).
  destruct (qsort_perm cmpkey (export_list htab 0 [])) as (l' & Hq' & Hp).
  rewrite Hq in Hq'. simplify_eq.
  destruct (himport_fresh htab0 (print_list sep l' ++ NUL :: replicate m NUL) sep Hcal)
    as (p & Hp1 & Hp2 & Hp3 & ->).
  set (h := mkHtab _ _ _ _). set (buf := print_list sep l' ++ _) in *.
  destruct (new_table_wf p (change_ok htab0) Hp2 Hp3) as [Hw He]. fold h in Hw, He.
  assert (Hc : clean h).
  { split; [done| |done]. intros i. unfold h. by rewrite slot_new. }
  assert (Hlen : base.size (env_of htab) = length l').
  { rewrite <- (insert_all_env htab l' W Hp). rewrite insert_all_size; [done| |done].
    rewrite Hp, export_list_all.
    apply export_keys_nodup; [by apply wf_keys_differ|apply NoDup_seq]. }
  assert (Hok : Forall (entry_ok sep) l').
  { rewrite Hp. apply Forall_forall. intros [k v] Hkv. apply elem_of_export in Hkv; [|done].
    by apply (Hent k v). }
  destruct (decide (l' = [])) as [->|Hne].
  - change buf with (NUL :: replicate m NUL) at 2. rewrite himport_loop_empty by lia. cbn [mbind option_bind].
    exists (es_delete 0 EmptyString h). split; [done|].
    rewrite delete_absent by (done || by rewrite He). split; [done|].
    rewrite He. symmetry. by apply map_size_empty_iff.
  - unfold buf at 2. rewrite himport_loop_ok; auto; cbn [mbind option_bind]; cycle 1.
    { unfold buf. rewrite length_app. pose proof (print_list_length_ge sep l'). lia. }
    destruct (enter_all_ok Hstr Hrej 0 l' h Hc) as [Hc' He']; [simpl; lia|].
    exists (enter_all 0 l' h). split; [done|]. split; [apply (cl_wf _ Hc')|].
    rewrite He', He. by apply insert_all_env.
Qed.

(** C26: round trip: importing what [hexport_r] exported gives the same map,
    for every separator other than '=' and backslash, whatever the size of
    the buffer, when the names and values are ones the format can hold, the
    entries fit into the new table and nothing rejects the changes. *)
Theorem himport_hexport sep resp n htab htab0 buf :
  (∀ s, strdup s = Some s) → (∀ n, calloc_ok n = true) →
  (∀ cb k v op flag, run_callback cb k v op flag = false) →
  sep_ok sep → htab_wf htab → accepting (change_ok htab0) →
  map_Forall (λ k v, entry_ok sep (k, v)) (env_of htab) →
  hexport_r htab sep 0 resp n [] = Some (Exported buf) →
  base.size (env_of htab) ≤ import_room buf →
  ∃ htab', himport_r htab0 buf sep 0 [] = Some (true, htab') ∧
    htab_wf htab' ∧ env_of htab' = env_of htab.
Proof. apply import_export_ok. Qed.

(** With a separator other than NUL, [hexport_r] never writes beyond the
    buffer, whether it computes the size itself or checks the one it is given. *)
Theorem hexport_r_fits htab sep flag resp n argv :
  sep ≠ NUL → hexport_r htab sep flag resp n argv ≠ Some Overrun ∧
    is_Some (hexport_r htab sep flag resp n argv).
Proof.
  intros Hs. unfold hexport_r.
  destruct (qsort_perm cmpkey (export_list htab flag argv)) as (l & -> & Hp).
  cbn [mbind option_bind].
  assert (Ht : totlen sep (export_list htab flag argv) = totlen sep l).
  { clear -Hp. unfold totlen. symmetry. induction Hp; simpl; lia. }
  rewrite Ht. pose proof (print_list_length sep l Hs) as Hl.
  destruct (Nat.ltb_spec 0 n) as [Hn|Hn], (Nat.ltb_spec n (totlen sep l + 1)) as [Hn'|Hn'];
    cbn [andb]; (split; [|repeat case_match; eauto]); try done;
    destruct (negb resp && _); try done; rewrite length_app; simpl length.
  - destruct (Nat.eqb_spec n 0); [lia|].
    rewrite (proj2 (Nat.leb_le _ _)) by lia. done.
  - replace n with 0 by lia. rewrite Nat.eqb_refl, (proj2 (Nat.leb_le _ _)) by lia. done.
  - lia.
Qed.
End Statements.

(** The sample table holds "a" = "1"; it is exported with the separator ';'. *)
Definition one_entry : hsearch_data := SampleTable.enter "a" "1" SampleTable.empty5.

Import SampleTable.

Lemma one_entry_wf : htab_wf one_entry ∧ env_of one_entry = {["a" := "1"]}%string.
Proof.
  pose proof (hsearch_enter_ok (λ s, eq_refl) empty5 "a" "1" 0 (proj1 empty5_wf)) as E.
  unfold one_entry, enter. destruct (hsearch_r "a" (Some "1"%string) ENTER empty5 0) as [r h] eqn:Er.
  destruct E as [Hw _ _ Hr].
  { right. exists 1. split; [unfold in_range; simpl; lia|done]. }
  split; [done|]. destruct Hr as [(_ & _ & He & _)|(e & -> & _)].
  - simpl. rewrite He, (proj2 empty5_wf). done.
  - vm_compute in Er. congruence.
Qed.

Lemma himport_hexport_witness :
  ∃ htab', himport_r no_table
      ["a"; "="; "1"; ";"; "000"; "000"; "000"]%char ";"%char 0 [] = Some (true, htab') ∧
    htab_wf htab' ∧ env_of htab' = env_of one_entry.
Proof.
  apply (himport_hexport ";"%char false 7 one_entry no_table).
  - reflexivity.
  - reflexivity.
  - reflexivity.
  - split; discriminate.
  - exact (proj1 one_entry_wf).
  - reflexivity.
  - rewrite (proj2 one_entry_wf). apply map_Forall_singleton. split.
    + split; [repeat constructor; discriminate|]. exists "a"%char, []. repeat split; discriminate.
    + split; [discriminate|repeat constructor; discriminate].
  - vm_compute. reflexivity.
  - rewrite (proj2 one_entry_wf), map_size_singleton. vm_compute. lia.
Defined.

Lemma hexport_r_fits_witness : hexport_r one_entry ";"%char 0 false 0 [] ≠ Some Overrun.
Proof. refine (proj1 (hexport_r_fits one_entry ";"%char 0 false 0 [] _)). discriminate. Defined.

(** With the separator NUL, which the environment is stored with, pass 1
    does not count the backslashes that pass 2 adds: a value with many of them
    is written beyond the end of the buffer that [hexport_r] allocates. *)
Theorem hexport_r_overrun :
  hexport_r (enter "p" "\\\\" empty5) NUL 0 false 0 [] = Some Overrun.
Proof. vm_compute. reflexivity. Qed.
