(* ===== verification/EnvCommon.v ===== *)
(** * The environment: common part and variables

    Translation of [common/env_common.c] and of the functions on variables of
    [common/cmd_nvedit.c]: reading variables from the text of the environment
    before it is imported, from the hash table afterwards, setting and deleting
    them, and the default environment. The global data and the table are one
    record that the functions take and return. [None] stands for an access
    outside of memory. *)

From S2P Require Import Prelude Word32 Crc Strtoul Vsprintf HashProbe Hashtable HashExport.
From stdpp Require Import base option list strings gmap.
From Stdlib Require Import ZArith Lia Ascii.
Local Open Scope nat_scope.

(** ** State *)

Definition GD_FLG_RELOC : Z := 0x00001.
Definition GD_FLG_ENV_READY : Z := 0x00080.
Definition GD_FLG_ENV_DEFAULT : Z := 0x00100.

(** The members of [gd] that concern the environment; [env_addr] is the text
    from that address on. *)
Record global_data := mkGd {
  gd_flags : Z;
  env_valid : Z;
  env_addr : list ascii;
  env_buf : list ascii;
}.

Record env := mkEnv { gd : global_data; env_htab : hsearch_data; env_id : Z }.

(** What a board configures. *)
Class EnvConfig := {
  CONFIG_ENV_SIZE : nat;
  ENV_HEADER_SIZE : nat;
  default_environment : list ascii;
  (** The byte order of the machine. *)
  big_endian : bool;
}.

Definition H_FORCE : Z := 2.
Definition H_INTERACTIVE : Z := 4.
Definition CMD_RET_USAGE : Z := -1.

Definition set_gd_flags (f : Z → Z) (g : global_data) : global_data :=
  mkGd (f (gd_flags g)) (env_valid g) (env_addr g) (env_buf g).
Definition set_env_valid (v : Z) (g : global_data) : global_data :=
  mkGd (gd_flags g) v (env_addr g) (env_buf g).
Definition set_env_buf (b : list ascii) (g : global_data) : global_data :=
  mkGd (gd_flags g) (env_valid g) (env_addr g) b.

Definition byte_of (c : ascii) : Z := Z.of_nat (nat_of_ascii c).
Definition char_of (b : Z) : ascii := ascii_of_nat (Z.to_nat (b mod 256)).

Section Env.
Context `{EnvHooks, EnvConfig}.

Definition ENV_SIZE : nat := CONFIG_ENV_SIZE - ENV_HEADER_SIZE.

(** ** Reading the text of the environment *)

Definition env_get_char_spec (g : global_data) (index : nat) : option ascii := env_addr g !! index.

Definition env_get_char_init (g : global_data) (index : nat) : option ascii :=
  if negb (env_valid g =? 0)%Z then env_get_char_spec g index else default_environment !! index.

(** What is at the address that [env_get_addr] returns. *)
Definition env_get_addr (g : global_data) (index : nat) : list ascii :=
  drop index (if negb (env_valid g =? 0)%Z then env_addr g else default_environment).

Definition env_get_char_memory (g : global_data) (index : nat) : option ascii := head (env_get_addr g index).

Definition env_get_char (g : global_data) (index : nat) : option ascii :=
  if has_flag (gd_flags g) GD_FLG_RELOC then env_get_char_memory g index else env_get_char_init g index.

(** [envmatch]; [s1] without its NUL. *)
Fixpoint envmatch (g : global_data) (s1 : list ascii) (i2 : nat) : option (option nat) :=
  c ← env_get_char g i2;
  match s1 with
  | d :: s1' =>
      if bool_decide (d = c) then
        if bool_decide (d = "="%char) then Some (Some (i2 + 1)) else envmatch g s1' (i2 + 1)
      else Some None
  | [] =>
      (** [*s1] is NUL; it equals [c] only at the end of the text, where the
          loop would go on behind the NUL of the name. *)
      if bool_decide (c = NUL) then None
      else if bool_decide (c = "="%char) then Some (Some (i2 + 1)) else Some None
  end.

(** The inner loop of [getenv_f]; [None] inside is the return with -1. *)
Fixpoint find_end (fuel : nat) (g : global_data) (nxt : nat) : option (option nat) :=
  match fuel with
  | O => None
  | S fuel =>
      c ← env_get_char g nxt;
      if bool_decide (c = NUL) then Some (Some nxt)
      else if CONFIG_ENV_SIZE <=? nxt then Some None
      else find_end fuel g (nxt + 1)
  end.

(** The value is copied: the number returned and what is written to [buf]. *)
Fixpoint copy_value (len n : nat) (g : global_data) (val : nat) (buf : list ascii) : option (nat * list ascii) :=
  match len with
  | O => Some (n, if n =? 0 then buf else take (n - 1) buf ++ [NUL])
  | S len =>
      c ← env_get_char g val;
      let buf := buf ++ [c] in
      if bool_decide (c = NUL) then Some (n, buf) else copy_value len (n + 1) g (val + 1) buf
  end.

(** The outer loop: [None] inside is the return value -1. *)
Fixpoint getenv_f_loop (fuel : nat) (name : list ascii) (len : nat) (g : global_data) (i : nat) :
    option (option (nat * list ascii)) :=
  match fuel with
  | O => None
  | S fuel =>
      c ← env_get_char g i;
      if bool_decide (c = NUL) then Some None
      else
        nxt ← find_end (S (S CONFIG_ENV_SIZE)) g i;
        match nxt with
        | None => Some None
        | Some nxt =>
            m ← envmatch g name i;
            match m with
            | None => getenv_f_loop fuel name len g (nxt + 1)
            | Some val => r ← copy_value len 0 g val []; Some (Some r)
            end
        end
  end.

Definition getenv_f (name : string) (len : nat) (g : global_data) : option (option (nat * list ascii)) :=
  getenv_f_loop (S (S CONFIG_ENV_SIZE)) (String.list_ascii_of_string name) len g 0.

(** A C string in a buffer. *)
Fixpoint c_string (l : list ascii) : string :=
  match l with
  | [] => EmptyString
  | c :: l => if bool_decide (c = NUL) then EmptyString else String c (c_string l)
  end.

(** [sizeof(gd->env_buf)]. *)
Definition env_buf_size : nat := 32.

(** What is written over the start of a buffer. *)
Definition overwrite {A} (new old : list A) : list A := new ++ drop (length new) old.

Definition getenv (name : string) (e : env) : option (option string * env) :=
  if has_flag (gd_flags (gd e)) GD_FLG_ENV_READY then
    let '(r, htab) := hsearch_r name None FIND (env_htab e) 0 in
    Some (match h_retval r with Some i => data (entry (slot htab i)) | None => None end, mkEnv (gd e) htab (env_id e))
  else
    r ← getenv_f name env_buf_size (gd e);
    match r with
    | None => Some (None, e)
    | Some (n, buf) =>
        let g := set_env_buf (overwrite buf (env_buf (gd e))) (gd e) in
        Some (if 0 <? n then Some (c_string (env_buf g)) else None, mkEnv g (env_htab e) (env_id e))
    end.

Definition getenv_yesno (var : string) (e : env) : option (Z * env) :=
  '(s, e) ← getenv var e;
  Some (match s with
        | None => (-1)%Z
        | Some s =>
            if bool_decide (head (String.list_ascii_of_string s) ∈
                (Some <$> ["1"; "y"; "Y"; "t"; "T"]%char : list (option ascii))) then 1%Z else 0%Z
        end, e).

Definition getenv_default (name : string) (e : env) : option (option string * env) :=
  let really_valid := env_valid (gd e) in
  let real_gd_flags := gd_flags (gd e) in
  let g := set_env_valid 0 (set_gd_flags (λ f, Z.land f (Z.lnot GD_FLG_ENV_READY)) (gd e)) in
  '(ret_val, e) ← getenv name (mkEnv g (env_htab e) (env_id e));
  Some (ret_val, mkEnv (set_gd_flags (λ _, real_gd_flags) (set_env_valid really_valid (gd e))) (env_htab e) (env_id e)).

(** ** The default environment and the import *)

(** The message [s] goes to the console; its first character sets the flags. *)
Definition set_default_env (s : option string) (e : env) : option env :=
  if ENV_SIZE <? length default_environment then Some e
  else
    let flags := match s with
                 | Some s => if bool_decide (head (String.list_ascii_of_string s) = Some "!"%char) then 0%Z else H_INTERACTIVE
                 | None => 0%Z
                 end in
    '(_, htab) ← himport_r (env_htab e) default_environment NUL flags [];
    Some (mkEnv (set_gd_flags (λ f, Z.lor f (Z.lor GD_FLG_ENV_READY GD_FLG_ENV_DEFAULT)) (gd e)) htab (env_id e)).

Definition set_default_vars (vars : list string) (e : env) : option (bool * env) :=
  '(ok, htab) ← himport_r (env_htab e) default_environment NUL (Z.lor H_NOCLEAR H_INTERACTIVE) vars;
  Some (ok, mkEnv (gd e) htab (env_id e)).

(** [env_t]. *)
Record env_t := mkEnvT { crc : Z; eflags : Z; edata : list ascii }.

(** The checksum of the data of a copy at address [p]. *)
Definition env_crc (p : Z) (d : list ascii) : Z := Crc.crc32 big_endian 0 p (byte_of <$> d).

Definition env_import (p : Z) (ep : env_t) (check : bool) (e : env) : option (Z * env) :=
  if check && negb (env_crc p (edata ep) =? crc ep)%Z then
    e ← set_default_env (Some "!bad CRC"%string) e; Some (0%Z, e)
  else
    '(ok, htab) ← himport_r (env_htab e) (edata ep) NUL 0 [];
    let e := mkEnv (gd e) htab (env_id e) in
    if ok : bool then
      Some (1%Z, mkEnv (set_gd_flags (λ f, Z.lor f GD_FLG_ENV_READY) (gd e)) htab (env_id e))
    else
      e ← set_default_env (Some "!import failed"%string) e; Some (0%Z, e).

(** The storage of the board loads the environment itself. *)
Definition env_relocate (env_relocate_spec : env → option env) (e : env) : option env :=
  if (env_valid (gd e) =? 0)%Z then set_default_env (Some "!bad CRC"%string) e else env_relocate_spec e.

(** ** Variables *)

(** The options before the name: the rest of the arguments and the flags;
    [None] is an unknown option. *)
Fixpoint set_options (argv : list string) (env_flag : Z) : option (list string * Z) :=
  match argv with
  | arg :: argv' =>
      match arg with
      | String "-" opts =>
          if forallb (λ c, bool_decide (c = "f"%char)) (String.list_ascii_of_string opts)
          then set_options argv' (if bool_decide (opts = EmptyString) then env_flag else Z.lor env_flag H_FORCE)
          else None
      | _ => Some (argv, env_flag)
      end
  | [] => Some ([], env_flag)
  end.

Definition contains (c : ascii) (s : string) : bool := existsb (λ d, bool_decide (d = c)) (String.list_ascii_of_string s).

(** The values, with a space between them. *)
Fixpoint join_values (values : list string) : string :=
  match values with
  | [] => EmptyString
  | [v] => v
  | v :: values => v +:+ " " +:+ join_values values
  end.

(** [_do_env_set] on the arguments after [argv[0]]: without any left, the name
    is a null pointer. *)
Definition _do_env_set (argv : list string) (e : env) : option (Z * env) :=
  match set_options argv H_INTERACTIVE with
  | None => Some (CMD_RET_USAGE, e)
  | Some ([], _) => None
  | Some (name :: values, env_flag) =>
      if contains "=" name then Some (1%Z, e)
      else
        let e := mkEnv (gd e) (env_htab e) (env_id e + 1)%Z in
        match values with
        | [] =>
            let '(r, htab) := hdelete_r name (env_htab e) env_flag in
            Some (if h_ret r =? 0 then 1%Z else 0%Z, mkEnv (gd e) htab (env_id e))
        | _ =>
            let value := join_values values in
            if negb (calloc_ok (String.length value + 1)) then Some (1%Z, e)
            else
              let '(r, htab) := hsearch_r name (Some value) ENTER (env_htab e) env_flag in
              Some (match h_retval r with None => 1%Z | Some _ => 0%Z end, mkEnv (gd e) htab (env_id e))
        end
  end.

Definition setenv (varname : string) (varvalue : option string) (e : env) : option (Z * env) :=
  if negb (has_flag (gd_flags (gd e)) GD_FLG_ENV_READY) then Some (1%Z, e)
  else match varvalue with
       | None | Some EmptyString => _do_env_set [varname] e
       | Some v => _do_env_set [varname; v] e
       end.

(** ** Numbers *)

Definition string_of_bytes (l : list Z) : string := String.string_of_list_ascii (char_of <$> l).
Definition bytes_of_string (s : string) : list Z := byte_of <$> String.list_ascii_of_string s.

Definition setenv_ulong (varname : string) (value : Z) (e : env) : option (Z * env) :=
  str ← simple_itoa value; setenv varname (Some (string_of_bytes str)) e.

(** [str] is an array of 17 characters. *)
Definition setenv_hex (safe : bool) (str : list Z) (varname : string) (value : Z) (e : env) : option (Z * env) :=
  '(str, _) ← vsprintf safe str 0 [37; 108; 120]%Z [AInt value];
  setenv varname (Some (c_string (char_of <$> str))) e.

Definition getenv_ulong (name : string) (base default_val : Z) (e : env) : option (Z * env) :=
  '(str, e) ← getenv name e;
  Some (match str with Some str => (simple_strtoul (bytes_of_string str) base).1 | None => default_val end, e).

Definition getenv_hex (varname : string) (default_val : Z) (e : env) : option (Z * env) :=
  '(s, e) ← getenv varname e;
  Some (match s with
        | None => default_val
        | Some s =>
            let b := bytes_of_string s in
            let '(value, endp) := simple_strtoul b 16 in
            if (length endp =? length b) then default_val else value
        end, e).

(** ** Commands *)

Definition do_env_set (argv : list string) (e : env) : option (Z * env) :=
  if length argv =? 0 then Some (CMD_RET_USAGE, e) else _do_env_set argv e.

(** The options of [env default]: [None] is an unknown option, for which the
    usage message is printed and 1 returned. The flag is not used. *)
Fixpoint default_options (argv : list string) (all : bool) (flag : Z) : option (list string * bool * Z) :=
  match argv with
  | String "-" opts :: argv' =>
      let opts := String.list_ascii_of_string opts in
      if forallb (λ c, bool_decide (c = "a"%char ∨ c = "f"%char)) opts then
        default_options argv' (all || existsb (λ c, bool_decide (c = "a"%char)) opts)
          (if existsb (λ c, bool_decide (c = "f"%char)) opts then Z.lor flag H_FORCE else flag)
      else None
  | _ => Some (argv, all, flag)
  end.

Definition do_env_default (argv : list string) (e : env) : option (Z * env) :=
  match default_options argv false 0 with
  | None => Some (1%Z, e)
  | Some (argv, all, flag) =>
      if all && (length argv =? 0) then
        e ← set_default_env (Some "## Resetting to default environment"%string) e; Some (0%Z, e)
      else if negb all && (0 <? length argv) then '(_, e) ← set_default_vars argv e; Some (0%Z, e)
      else Some (1%Z, e)
  end.

Fixpoint delete_all (names : list string) (flag : Z) (ret : Z) (e : env) : Z * env :=
  match names with
  | [] => (ret, e)
  | name :: names =>
      let '(r, htab) := hdelete_r name (env_htab e) flag in
      delete_all names flag (if h_ret r =? 0 then 1%Z else ret) (mkEnv (gd e) htab (env_id e))
  end.

Definition do_env_delete (argv : list string) (e : env) : Z * env :=
  match set_options argv H_INTERACTIVE with
  | None => (CMD_RET_USAGE, e)
  | Some (names, env_flag) => delete_all names env_flag 0 (mkEnv (gd e) (env_htab e) (env_id e + 1)%Z)
  end.

End Env.
