(* ===== verification/EnvSpec.v ===== *)
(** * The environment: what the variable functions promise

    Reading the text of an environment is looking up a list of variables;
    setting and reading variables through the table is updating and looking up
    the finite map that the table represents; numbers round trip. *)

From S2P Require Import Prelude Word32 Crc Ctype Div64 Strtoul Vsprintf VsprintfSpec VsprintfBuf HashProbe Hashtable HashRefine HashSpec CString CStringSpec Qsort HashExport HashImport EnvCommon.
From stdpp Require Import base option list strings gmap.
From Stdlib Require Import ZArith Lia Ascii.
Local Open Scope nat_scope.

Section Text.
Context `{EnvHooks, EnvConfig}.

(** The text that the functions read. *)
Definition env_text (g : global_data) : list ascii :=
  if negb (env_valid g =? 0)%Z then env_addr g else default_environment.

Lemma env_get_char_text g i : env_get_char g i = env_text g !! i.
Proof.
  unfold env_get_char, env_get_char_memory, env_get_addr, env_get_char_init, env_get_char_spec, env_text.
  destruct (has_flag _ _), (negb _); rewrite ?head_lookup, ?lookup_drop, ?Nat.add_0_r; done.
Qed.

(** The text from [i] on. *)
Lemma env_get_char_drop g i c r : drop i (env_text g) = c :: r →
  env_get_char g i = Some c ∧ drop (i + 1) (env_text g) = r.
Proof.
  intros E. rewrite env_get_char_text. split.
  - by rewrite <-(Nat.add_0_r i), <-lookup_drop, E.
  - by rewrite <-drop_drop, E.
Qed.

Definition no_nul (s : list ascii) : Prop := Forall (λ c, c ≠ NUL) s.
Definition no_eq (s : list ascii) : Prop := Forall (λ c, c ≠ "="%char) s.

(** Matching a name against the entry at [i]. *)
Lemma envmatch_ok g name k r i : no_eq name → no_eq k → no_nul k → drop i (env_text g) = k ++ "="%char :: r →
  envmatch g name i = Some (if decide (name = k) then Some (i + length k + 1) else None).
Proof.
  intros He Hk. revert name He i. induction Hk as [|c k Hc Hk IH]; intros name He i Hz E.
  - destruct (env_get_char_drop g i _ _ E) as [Eg _]. destruct name as [|d name]; cbn [envmatch]; rewrite Eg; cbn [mbind option_bind].
    + rewrite bool_decide_eq_false_2 by done. by rewrite bool_decide_eq_true_2, decide_True, Nat.add_0_r by done.
    + apply Forall_cons_1 in He as [Hd _]. by rewrite bool_decide_eq_false_2, decide_False by done.
  - apply Forall_cons_1 in Hz as [Hcz Hz]. destruct (env_get_char_drop g i _ _ E) as [Eg Er].
    destruct name as [|d name]; cbn [envmatch]; rewrite Eg; cbn [mbind option_bind].
    + by rewrite !bool_decide_eq_false_2, decide_False by done.
    + apply Forall_cons_1 in He as [Hd He]. case_bool_decide as Edc; [subst d|by rewrite decide_False by congruence].
      rewrite bool_decide_eq_false_2 by done. rewrite (IH name He (i + 1) Hz Er). f_equal.
      destruct (decide (name = k)) as [->|]; [rewrite decide_True by done; f_equal; simpl; lia|by rewrite decide_False by congruence].
Qed.

Lemma find_end_ok g s r i fuel : no_nul s → drop i (env_text g) = s ++ NUL :: r → i + length s ≤ CONFIG_ENV_SIZE →
  length s < fuel → find_end fuel g i = Some (Some (i + length s)).
Proof.
  intros Hs. revert i fuel. induction Hs as [|c s Hc Hs IH]; intros i fuel E Hi Hf; (destruct fuel as [|fuel]; [simpl in Hf; lia|]);
    destruct (env_get_char_drop g i _ _ E) as [Eg Er]; cbn [find_end]; rewrite Eg; cbn [mbind option_bind].
  - by rewrite bool_decide_eq_true_2, Nat.add_0_r by done.
  - rewrite bool_decide_eq_false_2 by done. simpl in Hi, Hf. destruct (Nat.leb_spec CONFIG_ENV_SIZE i); [lia|].
    rewrite (IH (i + 1)) by (done || lia). simpl. do 2 f_equal. lia.
Qed.

(** The copy of a value into a buffer. *)
Definition copied (len : nat) (v : list ascii) : nat * list ascii :=
  if length v <? len then (length v, v ++ [NUL]) else (len, take (len - 1) v ++ [NUL]).

Lemma copy_value_ok g v r len n val buf : no_nul v → drop val (env_text g) = v ++ NUL :: r → length buf = n → 0 < n + len →
  copy_value len n g val buf =
    Some (if length v <? len then (n + length v, buf ++ v ++ [NUL]) else (n + len, take (n + len - 1) (buf ++ v) ++ [NUL])).
Proof.
  intros Hv. revert len n val buf. induction Hv as [|c v Hc Hv IH]; intros len n val buf E Hb Hpos;
    (destruct len as [|len]; cbn [copy_value];
     [cbn [Nat.ltb Nat.leb]; destruct (Nat.eqb_spec n 0); [lia|]; rewrite Nat.add_0_r, take_app_le by lia; done|]);
    destruct (env_get_char_drop g val _ _ E) as [Eg Er]; rewrite Eg; cbn [mbind option_bind].
  - rewrite bool_decide_eq_true_2 by done. cbn. by rewrite Nat.add_0_r.
  - rewrite bool_decide_eq_false_2 by done. rewrite (IH len (n + 1) (val + 1) (buf ++ [c]) Er) by (rewrite ?length_app; simpl; lia).
    change (length (c :: v) <? S len) with (length v <? len). rewrite <-!app_assoc. cbn [length app].
    destruct (_ <? _); do 2 f_equal; try lia. do 2 f_equal. lia.
Qed.

(** The text of a list of variables, and the first one with a name. *)
Definition env_entry (e : string * string) : list ascii := chars e.1 ++ "="%char :: chars e.2 ++ [NUL].
Definition env_list (l : list (string * string)) : list ascii := concat (env_entry <$> l).

Fixpoint first_value (name : string) (l : list (string * string)) : option string :=
  match l with
  | [] => None
  | (k, v) :: l => if decide (name = k) then Some v else first_value name l
  end.

Definition entry_plain (e : string * string) : Prop :=
  no_nul (chars e.1) ∧ no_eq (chars e.1) ∧ no_nul (chars e.2).

Lemma env_entry_head e r : entry_plain e → ∃ c s, env_entry e ++ r = c :: s ∧ c ≠ NUL.
Proof.
  destruct e as [k v]. intros (Hz & _ & _). unfold env_entry. simpl in *. destruct (chars k) as [|c s]; [by eexists _, _|].
  apply Forall_cons_1 in Hz as [Hc _]. by eexists _, _.
Qed.

Lemma chars_inj a b : chars a = chars b → a = b.
Proof. intros E. by rewrite <-(str_of_chars a), E, str_of_chars. Qed.

Lemma getenv_f_loop_ok g name len l r i fuel :
  no_eq (chars name) → Forall entry_plain l → 0 < len → drop i (env_text g) = env_list l ++ NUL :: r →
  i + length (env_list l) ≤ CONFIG_ENV_SIZE → length l < fuel →
  getenv_f_loop fuel (chars name) len g i = Some ((λ v, copied len (chars v)) <$> first_value name l).
Proof.
  intros He Hl Hlen. revert i fuel. induction Hl as [|[k v] l Hkv Hl IH]; intros i fuel E Hi Hf; (destruct fuel as [|fuel]; [lia|]); cbn [getenv_f_loop].
  - destruct (env_get_char_drop g i _ _ E) as [Eg _]. rewrite Eg. cbn [mbind option_bind]. by rewrite bool_decide_eq_true_2 by done.
  - change (env_list ((k, v) :: l)) with (env_entry (k, v) ++ env_list l) in *. rewrite length_app in Hi.
    destruct (env_entry_head (k, v) (env_list l ++ NUL :: r) Hkv) as (c & s & Ec & Hc).
    rewrite <-app_assoc, Ec in E. destruct (env_get_char_drop g i _ _ E) as [Eg _]. rewrite Eg. cbn [mbind option_bind].
    rewrite bool_decide_eq_false_2 by done. rewrite <-Ec in E. clear c s Ec Hc Eg.
    destruct Hkv as (Hkz & Hke & Hvz). simpl in Hkz, Hke, Hvz.
    assert (E1 : drop i (env_text g) = (chars k ++ "="%char :: chars v) ++ NUL :: env_list l ++ NUL :: r).
    { rewrite E. unfold env_entry. simpl. by rewrite <-!app_assoc, <-app_comm_cons, <-app_assoc. }
    assert (El : length (env_entry (k, v)) = length (chars k ++ "="%char :: chars v) + 1).
    { unfold env_entry. simpl. rewrite !length_app. simpl. rewrite length_app. simpl. lia. }
    assert (Hs : no_nul (chars k ++ "="%char :: chars v)) by (apply Forall_app_2; [done|by constructor]).
    rewrite (find_end_ok g _ _ _ _ Hs E1) by lia. cbn [mbind option_bind].
    rewrite (envmatch_ok g (chars name) (chars k) (chars v ++ NUL :: env_list l ++ NUL :: r)) by (done || by rewrite E1, <-app_assoc).
    cbn [mbind option_bind first_value]. destruct (decide (name = k)) as [->|Hnk].
    + rewrite decide_True by done. rewrite (copy_value_ok g (chars v) (env_list l ++ NUL :: r) len 0 _ []); [done|done| |done|lia].
      rewrite <-Nat.add_assoc, <-drop_drop, E1, <-app_assoc. rewrite <-drop_drop, drop_app_length. done.
    + rewrite decide_False by (intros ?%chars_inj; done). apply IH; [|lia|simpl in Hf; lia].
      rewrite <-Nat.add_assoc, <-El, <-drop_drop, E. apply drop_app_length.
Qed.

Lemma env_list_length l : length l ≤ length (env_list l).
Proof.
  induction l as [|e l IH]; [done|]. change (env_list (e :: l)) with (env_entry e ++ env_list l).
  rewrite length_app. unfold env_entry. rewrite length_app. simpl. lia.
Qed.

Lemma c_string_nul s r : no_nul s → c_string (s ++ NUL :: r) = str_of s.
Proof.
  induction 1 as [|c s Hc Hs IH]; cbn [app c_string].
  - by rewrite bool_decide_eq_true_2 by done.
  - rewrite bool_decide_eq_false_2 by done. by rewrite IH.
Qed.

(** What a caller of [getenv] gets for a value before the import. *)
Definition short_value (v : string) : option string :=
  if bool_decide (v = EmptyString) then None else Some (str_of (take (env_buf_size - 1) (chars v))).

Lemma copied_short v old : no_nul (chars v) →
  let '(n, buf) := copied env_buf_size (chars v) in
  (if 0 <? n then Some (c_string (overwrite buf old)) else None) = short_value v.
Proof.
  intros Hv. unfold copied, short_value, overwrite. destruct (Nat.ltb_spec (length (chars v)) env_buf_size) as [Hl|Hl].
  - destruct (chars v) as [|c s] eqn:E.
    + simpl. rewrite bool_decide_eq_true_2; [done|]. by apply chars_inj.
    + rewrite bool_decide_eq_false_2 by (intros ->; done). change (0 <? length (c :: s)) with true. cbn iota.
      rewrite <-app_assoc. change ([NUL] ++ ?x) with (NUL :: x). rewrite c_string_nul by done. f_equal. rewrite take_ge; [done|]. unfold env_buf_size in *. simpl in *. lia.
  - rewrite bool_decide_eq_false_2 by (intros ->; unfold env_buf_size in Hl; simpl in Hl; lia).
    change (0 <? env_buf_size) with true. cbn iota. rewrite <-app_assoc. change ([NUL] ++ ?x) with (NUL :: x). rewrite c_string_nul; [done|]. by apply Forall_take.
Qed.

(** Before the import [getenv] looks the name up in the text of the
    environment: the first variable with it, cut to the 31 characters of the
    buffer, nothing for an empty value; [getenv_default] does so in the default
    environment, whatever the state, and restores it. *)
Theorem getenv_text_correct name l r e :
  no_eq (chars name) → Forall entry_plain l → length (env_list l) ≤ CONFIG_ENV_SIZE →
  (has_flag (gd_flags (gd e)) GD_FLG_ENV_READY = false → env_text (gd e) = env_list l ++ NUL :: r →
   ∃ e', getenv name e = Some (first_value name l ≫= short_value, e') ∧ env_htab e' = env_htab e ∧
     env_text (gd e') = env_text (gd e) ∧ gd_flags (gd e') = gd_flags (gd e)) ∧
  (default_environment = env_list l ++ NUL :: r →
   ∃ e', getenv_default name e = Some (first_value name l ≫= short_value, e') ∧ env_htab e' = env_htab e ∧
     env_text (gd e') = env_text (gd e) ∧ gd_flags (gd e') = gd_flags (gd e)).
Proof.
  intros He Hl Hsize. assert (Hget : ∀ e, has_flag (gd_flags (gd e)) GD_FLG_ENV_READY = false →
    env_text (gd e) = env_list l ++ NUL :: r →
    ∃ b, getenv name e = Some (first_value name l ≫= short_value, mkEnv (set_env_buf b (gd e)) (env_htab e) (env_id e))).
  { clear e. intros e Hf Ht. unfold getenv. rewrite Hf. unfold getenv_f. fold (chars name).
    assert (Hcount : length l < S (S CONFIG_ENV_SIZE)) by (pose proof (env_list_length l); lia).
    rewrite (getenv_f_loop_ok (gd e) name env_buf_size l r 0 (S (S CONFIG_ENV_SIZE)) He Hl ltac:(unfold env_buf_size; lia) Ht ltac:(lia) Hcount).
    cbn [mbind option_bind]. destruct (first_value name l) as [v|] eqn:Ev; cbn [fmap option_fmap option_map].
    - pose proof (copied_short v (env_buf (gd e))) as Hc. destruct (copied env_buf_size (chars v)) as [n buf].
      cbn [mbind option_bind env_buf set_env_buf]. rewrite Hc; [by eexists|].
      clear -Hl Ev. induction Hl as [|[k w] l (_ & _ & Hw) Hl IH]; [done|]. simpl in Ev. destruct (decide _); [by simplify_eq|by apply IH].
    - exists (env_buf (gd e)). by destruct e as [[]]. }
  split.
  - intros Hf Ht. destruct (Hget e Hf Ht) as [b ->]. eexists. by split_and!.
  - intros Hd. unfold getenv_default. cbv zeta. edestruct (Hget (mkEnv (set_env_valid 0 (set_gd_flags (λ f, Z.land f (Z.lnot GD_FLG_ENV_READY)) (gd e))) (env_htab e) (env_id e))) as [b ->].
    + simpl. unfold has_flag. rewrite <-Z.land_assoc, (Z.land_comm (Z.lnot _)), Z.land_lnot_diag, Z.land_0_r. done.
    + done.
    + cbn [mbind option_bind]. eexists. by split_and!.
Qed.

End Text.

(** ** Setting and reading variables *)

Section Variables.
Context `{EnvHooks, EnvConfig}
  (strdup_ok : ∀ s, strdup s = Some s) (calloc_always : ∀ n, calloc_ok n = true).

(** After the import. *)
Definition ready (e : env) : Prop :=
  has_flag (gd_flags (gd e)) GD_FLG_ENV_READY = true ∧ htab_wf (env_htab e).

Lemma getenv_ready name e : ready e → getenv name e = Some (env_of (env_htab e) !! name, e).
Proof.
  intros [Hf [W _]]. unfold getenv. rewrite Hf. destruct (hsearch_find_ok (env_htab e) name None 0 W) as [E1 E2].
  destruct (hsearch_r name None FIND (env_htab e) 0) as [r htab]. simpl in E1, E2. subst htab.
  destruct (env_of (env_htab e) !! name) as [d|].
  - destruct E2 as (i & _ & Hkv & ->). simpl. apply kv_Some in Hkv as (_ & _ & ->). by destruct e.
  - subst r. by destruct e.
Qed.

(** A name that [_do_env_set] takes for one. *)
Definition name_plain (name : string) : Prop :=
  contains "=" name = false ∧ head (chars name) ≠ Some "-"%char.

Lemma set_options_plain name values flag : head (chars name) ≠ Some "-"%char →
  set_options (name :: values) flag = Some (name :: values, flag).
Proof.
  intros Hh. destruct name as [|c name]; [done|]. simpl in Hh. cbn [set_options].
  destruct (decide (c = "-"%char)) as [->|Hc]; [done|]. by destruct c as [[] [] [] [] [] [] [] []].
Qed.

(** What [setenv] makes of the variables. *)
Definition updated (name : string) (val : option string) (m : gmap string string) : gmap string string :=
  match val with None | Some EmptyString => delete name m | Some v => <[name := v]> m end.

Definition room_for (name : string) (htab : hsearch_data) : Prop :=
  is_Some (env_of htab !! name) ∨ ∃ i, in_range htab i ∧ used (slot htab i) = 0%Z.

Lemma setenv_ok name val e : ready e → name_plain name → room_for name (env_htab e) →
  ∃ rc e', setenv name val e = Some (rc, e') ∧ ready e' ∧ gd e' = gd e ∧ env_id e' = (env_id e + 1)%Z ∧
    ((rc = 0%Z ∧ env_of (env_htab e') = updated name val (env_of (env_htab e))) ∨
     (rc = 1%Z ∧ env_of (env_htab e') = env_of (env_htab e))).
Proof.
  intros [Hf Hw] [Heq Hh] Hroom. unfold setenv. rewrite Hf. cbn [negb].
  assert (Hdel : ∃ rc e', _do_env_set [name] e = Some (rc, e') ∧ ready e' ∧ gd e' = gd e ∧ env_id e' = (env_id e + 1)%Z ∧
    ((rc = 0%Z ∧ env_of (env_htab e') = delete name (env_of (env_htab e))) ∨ (rc = 1%Z ∧ env_of (env_htab e') = env_of (env_htab e)))).
  { unfold _do_env_set. rewrite set_options_plain, Heq by done.
    pose proof (hdelete_ok (env_htab e) name H_INTERACTIVE Hw) as D. cbn [env_htab].
    destruct (hdelete_r name (env_htab e) H_INTERACTIVE) as [r htab]. destruct D as [Hw' _ _ [(-> & _ & E)|[(-> & _ & ->)|(er & -> & _ & ->)]]];
      eexists _, _; (split; [done|]); split_and!; eauto; by split. }
  assert (Hset : ∀ v, ∃ rc e', _do_env_set [name; v] e = Some (rc, e') ∧ ready e' ∧ gd e' = gd e ∧ env_id e' = (env_id e + 1)%Z ∧
    ((rc = 0%Z ∧ env_of (env_htab e') = <[name := v]> (env_of (env_htab e))) ∨ (rc = 1%Z ∧ env_of (env_htab e') = env_of (env_htab e)))).
  { intros v. unfold _do_env_set. rewrite set_options_plain, Heq, calloc_always by done. cbn [negb join_values env_htab].
    pose proof (hsearch_enter_ok strdup_ok (env_htab e) name v H_INTERACTIVE Hw Hroom) as D.
    destruct (hsearch_r name (Some v) ENTER (env_htab e) H_INTERACTIVE) as [r htab].
    destruct D as [Hw' _ _ [(_ & _ & E & (i & -> & _) & _)|(er & -> & E & _)]];
      eexists _, _; (split; [done|]); split_and!; eauto; by split. }
  destruct val as [[|c v]|]; [apply Hdel|apply Hset|apply Hdel].
Qed.

(** C37: [setenv] on an imported environment, for a name that is not empty, has
    no equals sign and does not begin with a dash, when the table has room, the
    allocator always succeeds and the hooks (the callbacks, and the functions
    that look up a new variable in the attribute lists) return and leave keys and
    values alone: it returns; success updates the finite map of the variables (an
    empty or missing value deletes), the error 1 leaves it alone; [getenv] reads
    exactly that map afterwards. *)
Theorem setenv_correct name val e : ready e → name ≠ EmptyString → name_plain name → room_for name (env_htab e) →
  ∃ rc e', setenv name val e = Some (rc, e') ∧ ready e' ∧ gd e' = gd e ∧ env_id e' = (env_id e + 1)%Z ∧
    ((rc = 0%Z ∧ env_of (env_htab e') = updated name val (env_of (env_htab e))) ∨
     (rc = 1%Z ∧ env_of (env_htab e') = env_of (env_htab e))) ∧
    ∀ k, getenv k e' = Some (env_of (env_htab e') !! k, e').
Proof.
  intros Hr _ Hn Hroom. destruct (setenv_ok name val e Hr Hn Hroom) as (rc & e' & ? & Hr' & ? & ? & ?).
  exists rc, e'. split_and!; [done..|]. intros k. by apply getenv_ready.
Qed.

(** ** Numbers *)

Lemma byte_char b : isbyte b → byte_of (char_of b) = b.
Proof.
  intros [H0' H1]. unfold byte_of, char_of. rewrite Z.mod_small by lia. rewrite nat_ascii_embedding; lia.
Qed.

Lemma chars_string l : chars (String.string_of_list_ascii l) = l.
Proof. apply String.list_ascii_of_string_of_list_ascii. Qed.

Lemma bytes_of_chars l : bytes l → byte_of <$> (char_of <$> l) = l.
Proof. intros Hl. rewrite <-list_fmap_compose. induction Hl as [|b l Hb Hl IH]; [done|]. cbn. by rewrite byte_char, IH by done. Qed.

Lemma digit_char_byte (small : bool) d : (0 ≤ d < 16)%Z → isbyte (digit_char small d) ∧ digit_char small d ≠ 0%Z.
Proof. intros Hd. unfold digit_char, isbyte. destruct (_ <? _)%Z eqn:C; cmp_inv C; destruct small; lia. Qed.

Lemma digits_text_bytes (small : bool) base n : (2 ≤ base ≤ 16)%Z → Forall (λ c, isbyte c ∧ c ≠ 0%Z) (digits_text small base n).
Proof.
  intros Hb. unfold digits_text. apply Forall_reverse, Forall_fmap.
  eapply Forall_impl; [apply (ref_digits_range base n 64); lia|]. intros d Hd. cbn beta in Hd. apply digit_char_byte. lia.
Qed.

(** What [sprintf(str, "%lx", value)] leaves in [str]. *)
Lemma sprintf_hex str value : length str = 17 → (0 ≤ value < 2 ^ 32)%Z →
  ∃ n r, vsprintf false str 0 [37; 108; 120]%Z [AInt value] = Some (digits_text true 16 value ++ 0%Z :: r, n).
Proof.
  intros Hl Hv. assert (Hd : length (digits_text true 16 value) ≤ 8).
  { unfold digits_text. rewrite length_reverse, length_fmap. apply length_ref_digits; [lia|lia| |lia]. simpl. lia. }
  assert (Ht : number_text value 16 (-1) (-1) SMALL = digits_text true 16 value).
  { unfold number_text. cbv zeta. by destruct (digits_text _ 16 _). }
  assert (Hf : format_text false 0 17 str [37; 108; 120]%Z [AInt value] = Some (str, digits_text true 16 value)).
  { unfold format_text. change (format (H := TextSink false 0 17) [37; 108; 120]%Z [AInt value] (mkText str [])) with
      ('(fmt, args, s) ← (s ← number (H := TextSink false 0 17) value 16 (-1) (-1) SMALL (mkText str []); Some (@nil Z, @nil arg, s));
       format_loop (H := TextSink false 0 17) 3 fmt args s).
    rewrite (format_number false 0 17); [by rewrite Ht|constructor|lia|right; rewrite Ht; lia|rewrite Ht; lia]. }
  rewrite (vsprintf_correct str 0 17 _ _ str (digits_text true 16 value)); [|lia|simpl; lia|lia|lia|done].
  eexists _, _. do 2 f_equal. unfold splice. simpl. by rewrite <-app_assoc.
Qed.

(** A number that was set is read back: [getenv_ulong] in base 10 after
    [setenv_ulong], [getenv_hex] after [setenv_hex]. *)
Theorem env_number_round_trip name value dflt str e :
  ready e → name_plain name → room_for name (env_htab e) → (0 ≤ value < 2 ^ 32)%Z → length str = 17 →
  (∃ rc e', setenv_ulong name value e = Some (rc, e') ∧ ready e' ∧
     (rc = 0%Z → getenv_ulong name 10 dflt e' = Some (value, e'))) ∧
  (∃ rc e', setenv_hex false str name value e = Some (rc, e') ∧ ready e' ∧
     (rc = 0%Z → getenv_hex name dflt e' = Some (value, e'))).
Proof.
  intros Hr Hn Hroom Hv Hl.
  assert (Hset : ∀ l, l ≠ [] → Forall (λ c, isbyte c ∧ c ≠ 0%Z) l →
    ∃ rc e', setenv name (Some (string_of_bytes l)) e = Some (rc, e') ∧ ready e' ∧
      (rc = 0%Z → ∃ v, getenv name e' = Some (Some v, e') ∧ bytes_of_string v = l)).
  { intros l Hnil Hb. destruct (setenv_ok name (Some (string_of_bytes l)) e Hr Hn Hroom) as (rc & e' & E & Hr' & _ & _ & Hc).
    exists rc, e'. split; [done|]. split; [done|]. intros ->. destruct Hc as [[_ Hc]|[[=] _]].
    exists (string_of_bytes l). split.
    - rewrite getenv_ready, Hc by done. unfold updated. destruct l as [|b l]; [done|]. cbn. by rewrite lookup_insert_eq.
    - unfold bytes_of_string, string_of_bytes. fold (chars (String.string_of_list_ascii (char_of <$> l))).
      rewrite chars_string. apply bytes_of_chars. eapply Forall_impl; [apply Hb|]. by intros ? []. }
  assert (Hnil : ∀ b : bool, ∀ base, digits_text b base value ≠ []).
  { intros b base E. pose proof (digits_text_length b base value) as Hlen. rewrite E in Hlen. simpl in Hlen. lia. }
  split.
  - unfold setenv_ulong. rewrite simple_itoa_ok by lia. cbn [mbind option_bind].
    destruct (Hset (digits_text false 10 value)) as (rc & e' & E & Hr' & Hc); [done|apply digits_text_bytes; lia|].
    exists rc, e'. split_and!; [done..|]. intros Hrc. destruct (Hc Hrc) as (v & Eg & Ev). unfold getenv_ulong.
    rewrite Eg. cbn [mbind option_bind]. rewrite Ev. do 2 f_equal. unfold simple_strtoul.
    rewrite <-(app_nil_r (digits_text false 10 value)). by rewrite strto_plain by (lia || done || auto).
  - unfold setenv_hex. destruct (sprintf_hex str value Hl Hv) as (n & r & ->). cbn [mbind option_bind].
    assert (Es : c_string (char_of <$> digits_text true 16 value ++ 0%Z :: r) = string_of_bytes (digits_text true 16 value)).
    { rewrite fmap_app, fmap_cons. change (char_of 0) with NUL. apply c_string_nul. apply Forall_fmap.
      eapply Forall_impl; [apply (digits_text_bytes true 16 value); lia|]. intros c [Hc Hc0] E.
      apply Hc0. rewrite <-(byte_char c Hc). simpl in E. by rewrite E. }
    rewrite Es. destruct (Hset (digits_text true 16 value)) as (rc & e' & E & Hr' & Hc); [done|apply digits_text_bytes; lia|].
    exists rc, e'. split_and!; [done..|]. intros Hrc. destruct (Hc Hrc) as (v & Eg & Ev). unfold getenv_hex.
    rewrite Eg. cbn [mbind option_bind]. rewrite Ev. unfold simple_strtoul.
    rewrite <-(app_nil_r (digits_text true 16 value)) at 1. rewrite strto_plain by (lia || done || auto). cbn iota.
    destruct (Nat.eqb_spec (length (@nil Z)) (length (digits_text true 16 value))) as [E0|_]; [|done].
    symmetry in E0. apply nil_length_inv in E0. by apply Hnil in E0.
Qed.

End Variables.

(** ** Instances *)

Module SampleEnv.
Import SampleTable.

(** "a=1", "b=" and "baud=115200" in 48 bytes. *)
Definition sample_vars : list (string * string) := [("a", "1"); ("b", ""); ("baud", "115200")]%string.

#[export] Instance sample_config : EnvConfig := {|
  CONFIG_ENV_SIZE := 53;
  ENV_HEADER_SIZE := 5;
  default_environment := env_list sample_vars ++ [NUL];
  big_endian := false;
|}.

Definition before_import : env := mkEnv (mkGd 0 0 [] (replicate 32 NUL)) no_table 1.
Definition after_import : env := mkEnv (mkGd GD_FLG_ENV_READY 1 [] (replicate 32 NUL)) empty5 1.

Lemma after_import_ready : ready after_import.
Proof. split; [done|exact (proj1 empty5_wf)]. Qed.

Lemma after_import_room name : room_for name (env_htab after_import).
Proof. right. exists 1. split; [unfold in_range; simpl; lia|reflexivity]. Qed.

Lemma sample_plain : Forall entry_plain sample_vars.
Proof. unfold sample_vars, entry_plain, no_nul, no_eq. repeat constructor; discriminate. Qed.

Lemma getenv_text_correct_witness :
  ∃ e', getenv "baud" before_import = Some (Some "115200"%string, e') ∧ env_htab e' = no_table.
Proof.
  destruct (getenv_text_correct "baud" sample_vars [] before_import) as [Hg _].
  - unfold no_eq. repeat constructor; discriminate.
  - exact sample_plain.
  - unfold env_list. simpl. lia.
  - destruct Hg as (e' & E & Ht & _); [reflexivity|reflexivity|]. exists e'. split; [exact E|exact Ht].
Defined.

Lemma setenv_correct_witness :
  ∃ rc e', setenv "ip" (Some "10.0.0.2"%string) after_import = Some (rc, e') ∧
    ((rc = 0%Z ∧ env_of (env_htab e') = updated "ip" (Some "10.0.0.2"%string) ∅) ∨ (rc = 1%Z ∧ env_of (env_htab e') = ∅)).
Proof.
  destruct (setenv_correct (H := plain) (λ s, eq_refl) (λ n, eq_refl) "ip" (Some "10.0.0.2"%string) after_import) as (rc & e' & E & _ & _ & _ & Hc & _).
  - exact after_import_ready.
  - discriminate.
  - split; [reflexivity|discriminate].
  - apply after_import_room.
  - exists rc, e'. split; [exact E|]. simpl env_htab in Hc. rewrite (proj2 empty5_wf) in Hc. exact Hc.
Defined.

Lemma env_number_round_trip_witness :
  ∃ rc e', setenv_ulong "size" 4096 after_import = Some (rc, e') ∧ (rc = 0%Z → getenv_ulong "size" 10 7 e' = Some (4096%Z, e')).
Proof.
  destruct (env_number_round_trip (H := plain) (λ s, eq_refl) (λ n, eq_refl) "size" 4096 7 (replicate 17 0%Z) after_import) as [(rc & e' & E & _ & Hg) _].
  - exact after_import_ready.
  - split; [reflexivity|discriminate].
  - apply after_import_room.
  - lia.
  - reflexivity.
  - exists rc, e'. split; [exact E|exact Hg].
Defined.

(** [setenv -f] without a name reads through a null pointer. *)
Lemma setenv_options_only : do_env_set ["-f"%string] after_import = None.
Proof. reflexivity. Qed.

End SampleEnv.
