(* ===== verification/EnvRedund.v ===== *)
(** * The redundant environment: data and operations

    Translation of [common/env_sfcnand.c] and of the redundant configuration of
    [common/env_sf.c]: the environment is stored in two copies, each with a
    checksum and a flag; [saveenv] writes the copy that is not in use and then
    marks the other one obsolete, [env_relocate_spec] chooses a copy at boot.
    The two files share most of their text; what they share is translated once.
    The flash device is a parameter; the operations that [saveenv] performs are
    logged, so that the theorems can interrupt them. *)

From S2P Require Import Prelude Word32 Crc HashProbe Hashtable HashExport EnvCommon.
From stdpp Require Import base option list strings gmap.
From Stdlib Require Import ZArith Lia Ascii.
Local Open Scope nat_scope.

(** ** The device *)

(** Whether the SPI flash is found; what an operation returns, 0 for success,
    and the bytes or the contents afterwards. *)
Class Flash := {
  spi_flash_probe : bool;
  flash_read : nat → nat → list Z → Z * list Z;
  flash_erase : nat → nat → list Z → Z * list Z;
  flash_write : nat → list Z → list Z → Z * list Z;
}.

Inductive flash_op := Erase (offset len : nat) | Write (offset : nat) (buf : list Z).

Record dev := mkDev { contents : list Z; log : list flash_op }.

Class EnvLayout := {
  CONFIG_ENV_OFFSET : nat;
  CONFIG_ENV_OFFSET_REDUND : nat;
  CONFIG_ENV_SECT_SIZE : nat;
}.

Definition ACTIVE_FLAG : Z := 1.
Definition OBSOLETE_FLAG : Z := 0.

Section Redundant.
Context `{EnvHooks, EnvConfig, EnvLayout, Flash}.

(** ** [env_t] in memory *)

Definition env_bytes (t : env_t) : list Z :=
  Crc.store32 big_endian (crc t) ++ [eflags t] ++ (byte_of <$> edata t).

Definition env_of_bytes (l : list Z) : env_t :=
  mkEnvT (Crc.load32 big_endian (take 4 l)) (default 0%Z (l !! 4)) (char_of <$> take ENV_SIZE (drop 5 l)).

(** The struct is padded to its alignment. *)
Definition sizeof_env_t : nat := (CONFIG_ENV_SIZE + 3) / 4 * 4.

(** ** Operations on the device *)

(** The result that a caller sees: [sfc_nand_ops] always returns 0. *)
Inductive storage := SFC_NAND | SPI_FLASH.

Definition status (st : storage) (ret : Z) : Z := match st with SFC_NAND => 0 | SPI_FLASH => ret end.

(** The first use of the SPI flash probes it; [spi_flash_probe] answers the same
    each time, so that asking again is as good as keeping the answer. *)
Definition probe (st : storage) : bool := match st with SFC_NAND => true | SPI_FLASH => spi_flash_probe end.

Definition dev_read (st : storage) (offset len : nat) (d : dev) : Z * list Z :=
  let '(ret, buf) := flash_read offset len (contents d) in (status st ret, buf).

Definition dev_erase (st : storage) (offset len : nat) (d : dev) : Z * dev :=
  let '(ret, c) := flash_erase offset len (contents d) in (status st ret, mkDev c (log d ++ [Erase offset len])).

Definition dev_write (st : storage) (offset : nat) (buf : list Z) (d : dev) : Z * dev :=
  let '(ret, c) := flash_write offset buf (contents d) in (status st ret, mkDev c (log d ++ [Write offset buf])).

(** [if (ret) goto done] after an operation. *)
Definition and_then (r : Z * dev) (f : dev → option (Z * dev)) : option (Z * dev) :=
  let '(ret, d) := r in if (ret =? 0)%Z then f d else Some (ret, d).

(** ** [saveenv] *)

(** Sectors that the environment takes. *)
Definition sectors : nat :=
  if CONFIG_ENV_SECT_SIZE <? CONFIG_ENV_SIZE then
    CONFIG_ENV_SIZE / CONFIG_ENV_SECT_SIZE + (if CONFIG_ENV_SIZE mod CONFIG_ENV_SECT_SIZE =? 0 then 0 else 1)
  else 1.

(** The copy with its checksum. *)
Definition env_new (p : Z) (data : list ascii) : env_t := mkEnvT (env_crc p data) ACTIVE_FLAG data.

(** From the test for a larger sector to the write of the saved rest of it. *)
Definition write_new (st : storage) (env_new_offset : nat) (new : env_t) (d : dev) : option (Z * dev) :=
  let saved_size := CONFIG_ENV_SECT_SIZE - CONFIG_ENV_SIZE in
  let saved_offset := env_new_offset + CONFIG_ENV_SIZE in
  let larger := CONFIG_ENV_SIZE <? CONFIG_ENV_SECT_SIZE in
  if larger && negb (calloc_ok saved_size) then Some (1%Z, d)
  else
    let '(ret, saved_buffer) := if larger then dev_read st saved_offset saved_size d else (0%Z, []) in
    if negb (ret =? 0)%Z then Some (ret, d)
    else
      and_then (dev_erase st env_new_offset (sectors * CONFIG_ENV_SECT_SIZE) d) (λ d,
      and_then (dev_write st env_new_offset (take CONFIG_ENV_SIZE (env_bytes new)) d) (λ d,
      if larger then Some (dev_write st saved_offset saved_buffer d) else Some (0%Z, d))).

(** The other copy becomes obsolete: [env_sfcnand.c] writes it again, with the
    unchecked [malloc] and an erasure in units of the environment's size;
    [env_sf.c] clears its flag. *)
Definition make_obsolete (st : storage) (env_offset : nat) (d : dev) : option (Z * dev) :=
  match st with
  | SFC_NAND =>
      if negb (calloc_ok CONFIG_ENV_SIZE) then None
      else
        let tmp_tmp := <[4 := OBSOLETE_FLAG]> (dev_read st env_offset sizeof_env_t d).2 in
        and_then (dev_erase st env_offset (sectors * CONFIG_ENV_SIZE) d) (λ d,
        Some (dev_write st env_offset tmp_tmp d))
  | SPI_FLASH => Some (dev_write st (env_offset + 4) [OBSOLETE_FLAG] d)
  end.

(** [p] is the address of the copy in memory. *)
Definition saveenv (st : storage) (p : Z) (e : env) (d : dev) : option (Z * env * dev) :=
  if negb (probe st) then e ← set_default_env (Some "!spi_flash_probe() failed"%string) e; Some (1%Z, e, d)
  else
  r ← hexport_r (env_htab e) NUL 0 true ENV_SIZE [];
  match r with
  | Overrun => None
  | ExportErr _ => Some (1%Z, e, d)
  | Exported data =>
      let '(env_new_offset, env_offset) :=
        if (env_valid (gd e) =? 1)%Z then (CONFIG_ENV_OFFSET_REDUND, CONFIG_ENV_OFFSET)
        else (CONFIG_ENV_OFFSET, CONFIG_ENV_OFFSET_REDUND) in
      '(ret, d) ← write_new st env_new_offset (env_new p data) d;
      '(ret, d) ← (if (ret =? 0)%Z then make_obsolete st env_offset d else Some (ret, d));
      if (ret =? 0)%Z then
        let valid := if (env_valid (gd e) =? 2)%Z then 1%Z else 2%Z in
        Some (0%Z, mkEnv (set_env_valid valid (gd e)) (env_htab e) (env_id e), d)
      else Some (ret, e, d)
  end.

(** ** [env_relocate_spec] *)

Definition crc_ok (p : Z) (t : env_t) : bool := (env_crc p (edata t) =? crc t)%Z.

(** The choice: the number of the copy. *)
Definition choose_copy (crc1_ok crc2_ok : bool) (flags1 flags2 : Z) : option Z :=
  if negb crc1_ok && negb crc2_ok then None
  else if crc1_ok && negb crc2_ok then Some 1%Z
  else if negb crc1_ok && crc2_ok then Some 2%Z
  else if (flags1 =? ACTIVE_FLAG)%Z && (flags2 =? OBSOLETE_FLAG)%Z then Some 1%Z
  else if (flags1 =? OBSOLETE_FLAG)%Z && (flags2 =? ACTIVE_FLAG)%Z then Some 2%Z
  else if (flags1 =? flags2)%Z then Some 2%Z
  else if (flags1 =? 255)%Z then Some 2%Z
  else Some 2%Z.

(** [p1] and [p2] are the addresses of the buffers. *)
Definition env_relocate_spec (st : storage) (p1 p2 : Z) (c : list Z) (e : env) : option env :=
  let d := mkDev c [] in
  if negb (calloc_ok CONFIG_ENV_SIZE) then set_default_env (Some "!malloc() failed"%string) e
  else if negb (probe st) then set_default_env (Some "!spi_flash_probe() failed"%string) e
  else
    let '(ret1, buf1) := dev_read st CONFIG_ENV_OFFSET CONFIG_ENV_SIZE d in
    if negb (ret1 =? 0)%Z then set_default_env (Some "!spi_flash_read() failed"%string) e
    else
      let '(ret2, buf2) := dev_read st CONFIG_ENV_OFFSET_REDUND CONFIG_ENV_SIZE d in
      let tmp_env1 := env_of_bytes buf1 in
      let tmp_env2 := env_of_bytes buf2 in
      match choose_copy (crc_ok p1 tmp_env1) ((ret2 =? 0)%Z && crc_ok p2 tmp_env2) (eflags tmp_env1) (eflags tmp_env2) with
      | None => set_default_env (Some "!bad CRC"%string) e
      | Some v =>
          let e := mkEnv (set_env_valid v (gd e)) (env_htab e) (env_id e) in
          let '(p, ep) := if (v =? 1)%Z then (p1, tmp_env1) else (p2, tmp_env2) in
          '(ret, e) ← env_import p ep false e;
          if (ret =? 0)%Z then set_default_env (Some "env_import failed"%string) e else Some e
      end.

(** ** [env_init] *)

Definition env_init (e : env) : env :=
  mkEnv (mkGd (gd_flags (gd e)) 1 default_environment (env_buf (gd e))) (env_htab e) (env_id e).

(** ** Power cuts *)

(** An operation that is interrupted leaves anything in its range. *)
Definition op_range (op : flash_op) : nat * nat :=
  match op with Erase o n => (o, n) | Write o b => (o, length b) end.

Definition agree_outside (o n : nat) (c c' : list Z) : Prop :=
  length c' = length c ∧ ∀ i, (i < o ∨ o + n ≤ i) → c' !! i = c !! i.

Definition perform (op : flash_op) (c : list Z) : list Z :=
  match op with Erase o n => (flash_erase o n c).2 | Write o b => (flash_write o b c).2 end.

(** The two copies on the device. *)
Definition copy_at (o : nat) (c : list Z) : list Z := take CONFIG_ENV_SIZE (drop o c).
Definition copy (v : Z) (c : list Z) : list Z :=
  copy_at (if (v =? 1)%Z then CONFIG_ENV_OFFSET else CONFIG_ENV_OFFSET_REDUND) c.

(** The checksum notices a copy that was changed in part: this is what the
    scheme relies on. *)
Definition noticed (p : Z) (c c' done : list Z) : Prop :=
  ∀ v, copy v c' = copy v c ∨ copy v c' = copy v done ∨ crc_ok p (env_of_bytes (copy v c')) = false.

(** What the device can hold when the power fails during some operations. *)
Inductive power_cut (p : Z) : list flash_op → list Z → list Z → Prop :=
  | cut_between ops c : power_cut p ops c c
  | cut_within op ops c c' :
      agree_outside (op_range op).1 (op_range op).2 c c' → noticed p c c' (perform op c) → power_cut p (op :: ops) c c'
  | cut_later op ops c c' : power_cut p ops (perform op c) c' → power_cut p (op :: ops) c c'.

End Redundant.
