(* ===== verification/EnvRedundSpec.v ===== *)
(** * The redundant environment: saving survives a power cut

    At every moment of [saveenv] one of the two copies on the device is the old
    environment or the complete new one, and the choice at boot finds it; after
    a complete [saveenv] the next boot loads what was saved. *)

From S2P Require Import Prelude Word32 Crc HashProbe Hashtable HashRefine HashSpec CString CStringSpec Qsort HashExport HashImport EnvCommon EnvSpec EnvRedund.
From stdpp Require Import base option list strings gmap.
From Stdlib Require Import ZArith Lia Ascii.
Local Open Scope nat_scope.

(** ** A device that works

    Erased bytes are 0xff, and programming clears bits. *)

Class WorkingFlash `{Flash} := {
  probe_works : spi_flash_probe = true;
  read_works o n c : o + n ≤ length c → flash_read o n c = (0%Z, take n (drop o c));
  erase_works o n c : o + n ≤ length c → flash_erase o n c = (0%Z, splice o (replicate n 255%Z) c);
  write_works o b c : o + length b ≤ length c →
    flash_write o b c = (0%Z, splice o (zip_with Z.land (take (length b) (drop o c)) b) c);
}.

(** ** Parts of the contents *)

Lemma agree_refl o n c : agree_outside o n c c.
Proof. by split. Qed.

Lemma agree_splice o x c : o + length x ≤ length c → agree_outside o (length x) c (splice o x c).
Proof.
  intros Hl. split; [by apply length_splice|]. intros i Hi. unfold splice. destruct Hi as [Hi|Hi].
  - rewrite lookup_app_l by (rewrite length_take; lia). by apply lookup_take_lt.
  - rewrite lookup_app_r by (rewrite length_take; lia). rewrite length_take, lookup_app_r by lia.
    rewrite lookup_drop. f_equal. lia.
Qed.

(** A part that lies elsewhere. *)
Lemma part_agree o n c c' p k : agree_outside o n c c' → (p + k ≤ o ∨ o + n ≤ p) → take k (drop p c') = take k (drop p c).
Proof.
  intros [Hl Ha] Hd. apply list_eq. intros i. destruct (decide (i < k)).
  - rewrite !lookup_take_lt, !lookup_drop by done. apply Ha. lia.
  - by rewrite !lookup_take_ge by lia.
Qed.

Lemma part_splice o x c k : o + length x ≤ length c → k ≤ length x → take k (drop o (splice o x c)) = take k x.
Proof.
  intros Hl Hk. unfold splice. rewrite drop_app_length' by (rewrite length_take; lia). by rewrite take_app_le.
Qed.

Lemma land_erased n b : bytes b → length b = n → zip_with Z.land (replicate n 255%Z) b = b.
Proof.
  intros Hb <-. induction Hb as [|x b Hx Hb IH]; [done|]. cbn [length replicate zip_with]. f_equal; [|exact IH].
  change 255%Z with (Z.ones 8). rewrite Z.land_comm, Z.land_ones by lia. apply Z.mod_small. exact Hx.
Qed.

Lemma isbyte_land x y : isbyte y → isbyte (Z.land x y).
Proof.
  intros Hy. assert (E : Z.land y 255 = y) by (change 255%Z with (Z.ones 8); rewrite Z.land_ones by lia; by apply Z.mod_small).
  rewrite <-E, Z.land_assoc. apply Crc.land_byte.
Qed.

Lemma bytes_land l k : bytes k → bytes (zip_with Z.land l k).
Proof. intros Hk. revert l. induction Hk as [|y k Hy Hk IH]; intros [|x l]; constructor; [by apply isbyte_land|apply IH]. Qed.

Section Redundant.
Context `{EnvHooks, EnvConfig, EnvLayout, WorkingFlash}.

(** ** [env_t] and its bytes *)

Lemma char_byte c : char_of (byte_of c) = c.
Proof.
  unfold char_of, byte_of. pose proof (nat_ascii_bounded c). rewrite Z.mod_small by lia.
  rewrite Nat2Z.id. apply ascii_nat_embedding.
Qed.

Lemma byte_of_isbyte c : isbyte (byte_of c).
Proof. unfold isbyte, byte_of. pose proof (nat_ascii_bounded c). lia. Qed.

Lemma data_bytes d : bytes (byte_of <$> d).
Proof. apply Forall_fmap, Forall_true. intros c. apply byte_of_isbyte. Qed.

(** The checksum does not depend on the address. *)
Lemma env_crc_ok p d : env_crc p d = env_crc 0 d ∧ (0 ≤ env_crc p d < 2 ^ 32)%Z.
Proof.
  unfold env_crc. pose proof (data_bytes d) as Hd. rewrite !Crc.crc32_ok by (lia || done). split; [done|].
  rewrite <-(Crc.crc32_ok big_endian 0 p) by (lia || done). by apply Crc.crc32_range.
Qed.

Lemma crc_ok_addr p t : crc_ok p t = crc_ok 0 t.
Proof. unfold crc_ok. by rewrite (proj1 (env_crc_ok p _)). Qed.

Lemma load_store32 x : (0 ≤ x < 2 ^ 32)%Z → Crc.load32 big_endian (Crc.store32 big_endian x) = x.
Proof.
  intros Hx. unfold Crc.load32, Crc.store32. rewrite PUT_UINT32_BE_bytes. destruct big_endian.
  - by apply be_word_bytes.
  - unfold le_word. rewrite take_ge by done. rewrite reverse_involutive. by apply be_word_bytes.
Qed.

Lemma store32_length x : length (Crc.store32 big_endian x) = 4.
Proof. unfold Crc.store32. rewrite PUT_UINT32_BE_bytes. by destruct big_endian. Qed.

(** A copy of the environment that fills its data. *)
Definition full (t : env_t) : Prop := (0 ≤ crc t < 2 ^ 32)%Z ∧ isbyte (eflags t) ∧ length (edata t) = ENV_SIZE.

Lemma env_bytes_round t : full t → env_of_bytes (env_bytes t) = t.
Proof.
  intros (Hc & Hf & Hd). destruct t as [c f d]. simpl in *. unfold env_of_bytes, env_bytes. simpl crc; simpl eflags; simpl edata.
  rewrite take_app_length' by (by rewrite store32_length). rewrite load_store32 by done. f_equal.
  - rewrite lookup_app_r by (rewrite store32_length; lia). by rewrite store32_length.
  - rewrite app_assoc, drop_app_length' by (rewrite length_app, store32_length; done).
    rewrite take_ge by (rewrite length_fmap; lia). rewrite <-list_fmap_compose.
    rewrite <-(list_fmap_id d) at 2. apply list_fmap_ext. intros i c' _. simpl. by rewrite char_byte.
Qed.

Lemma env_bytes_length t : full t → length (env_bytes t) = 5 + ENV_SIZE.
Proof. intros (_ & _ & Hd). unfold env_bytes. rewrite !length_app, store32_length, length_fmap, Hd. done. Qed.

Lemma env_bytes_isbyte t : full t → bytes (env_bytes t).
Proof.
  intros (Hc & Hf & _). unfold env_bytes. apply Forall_app_2; [|apply Forall_app_2; [by constructor|apply data_bytes]].
  unfold Crc.store32. rewrite PUT_UINT32_BE_bytes. pose proof (be_bytes_ok (crc t)).
  destruct big_endian; [done|]. by apply Forall_reverse.
Qed.

(** Changing the flag changes neither the data nor the checksum. *)
Lemma flag_changed f l : 5 ≤ length l →
  env_of_bytes (<[4 := f]> l) = mkEnvT (crc (env_of_bytes l)) f (edata (env_of_bytes l)).
Proof.
  intros Hl. unfold env_of_bytes. simpl. rewrite take_insert_ge, drop_insert_lt by lia. by rewrite list_lookup_insert_eq by lia.
Qed.

(** ** The layout *)

Definition offset_of (v : Z) : nat := if (v =? 1)%Z then CONFIG_ENV_OFFSET else CONFIG_ENV_OFFSET_REDUND.

(** The environment fits into a sector, and each copy has its own. *)
Record layout_ok (c : list Z) : Prop := {
  lo_header : ENV_HEADER_SIZE = 5;
  lo_size : 5 < CONFIG_ENV_SIZE;
  lo_align : CONFIG_ENV_SIZE mod 4 = 0;
  lo_sector : CONFIG_ENV_SIZE ≤ CONFIG_ENV_SECT_SIZE;
  lo_apart : CONFIG_ENV_OFFSET + CONFIG_ENV_SECT_SIZE ≤ CONFIG_ENV_OFFSET_REDUND ∨
    CONFIG_ENV_OFFSET_REDUND + CONFIG_ENV_SECT_SIZE ≤ CONFIG_ENV_OFFSET;
  lo_inside v : offset_of v + CONFIG_ENV_SECT_SIZE ≤ length c;
}.

Definition other (v : Z) : Z := if (v =? 1)%Z then 2%Z else 1%Z.

Lemma layout_length c c' : layout_ok c → length c' = length c → layout_ok c'.
Proof. intros [] E. split; try done. by rewrite E. Qed.

Section Layout.
Context (c : list Z) (L : layout_ok c).

Lemma sectors_one : sectors = 1.
Proof. unfold sectors. pose proof (lo_sector c L). by destruct (Nat.ltb_spec CONFIG_ENV_SECT_SIZE CONFIG_ENV_SIZE); [lia|]. Qed.

Lemma sizeof_ok : sizeof_env_t = CONFIG_ENV_SIZE.
Proof.
  unfold sizeof_env_t. pose proof (lo_align c L). pose proof (Nat.div_mod_eq CONFIG_ENV_SIZE 4) as E.
  replace (CONFIG_ENV_SIZE + 3) with (3 + CONFIG_ENV_SIZE / 4 * 4) by lia. rewrite Nat.div_add by lia. change (3 / 4) with 0. lia.
Qed.

Lemma env_size_ok : 5 + ENV_SIZE = CONFIG_ENV_SIZE.
Proof. unfold ENV_SIZE. rewrite (lo_header c L). pose proof (lo_size c L). lia. Qed.

(** A change in the sector of one copy leaves the other alone. *)
Lemma copy_apart v o n c1 c2 : agree_outside o n c1 c2 → offset_of v ≤ o → o + n ≤ offset_of v + CONFIG_ENV_SECT_SIZE →
  copy (other v) c2 = copy (other v) c1.
Proof.
  intros Ha Ho Hn. pose proof (lo_apart c L). pose proof (lo_sector c L). unfold copy, copy_at.
  apply (part_agree _ _ _ _ _ _ Ha). unfold offset_of, other in *. destruct (v =? 1)%Z; simpl in *; lia.
Qed.

(** A change behind a copy leaves it alone. *)
Lemma copy_behind v n c1 c2 : agree_outside (offset_of v + CONFIG_ENV_SIZE) n c1 c2 → copy v c2 = copy v c1.
Proof. intros Ha. unfold copy, copy_at. fold (offset_of v). apply (part_agree _ _ _ _ _ _ Ha). lia. Qed.

Lemma copy_splice v x c1 : length c1 = length c → length x = CONFIG_ENV_SIZE → copy v (splice (offset_of v) x c1) = x.
Proof.
  intros Hl Hx. unfold copy, copy_at. fold (offset_of v). pose proof (lo_inside c L v). pose proof (lo_sector c L).
  rewrite part_splice by lia. by apply take_ge; lia.
Qed.

Lemma copy_length v c1 : length c1 = length c → length (copy v c1) = CONFIG_ENV_SIZE.
Proof.
  intros Hl. unfold copy, copy_at. fold (offset_of v). rewrite length_take, length_drop. pose proof (lo_inside c L v).
  pose proof (lo_sector c L). lia.
Qed.

Lemma copy_erased v n c1 : length c1 = length c → CONFIG_ENV_SIZE ≤ n ≤ CONFIG_ENV_SECT_SIZE →
  copy v (splice (offset_of v) (replicate n 255%Z) c1) = replicate CONFIG_ENV_SIZE 255%Z.
Proof.
  intros Hl Hn. unfold copy, copy_at. fold (offset_of v). pose proof (lo_inside c L v).
  rewrite part_splice by (rewrite length_replicate; lia). rewrite take_replicate. f_equal. lia.
Qed.

(** Programming an erased copy. *)
Lemma perform_erase o n c1 : o + n ≤ length c1 → perform (Erase o n) c1 = splice o (replicate n 255%Z) c1.
Proof. intros Hl. simpl. by rewrite erase_works. Qed.

Lemma perform_write o b c1 : o + length b ≤ length c1 →
  perform (Write o b) c1 = splice o (zip_with Z.land (take (length b) (drop o c1)) b) c1 ∧
  agree_outside o (length b) c1 (perform (Write o b) c1).
Proof.
  intros Hl. simpl. rewrite write_works by done. split; [done|]. simpl.
  assert (E : length (zip_with Z.land (take (length b) (drop o c1)) b) = length b).
  { rewrite length_zip_with, length_take, length_drop. lia. }
  rewrite <-E at 1. apply agree_splice. lia.
Qed.

Lemma perform_erase_agree o n c1 : o + n ≤ length c1 → agree_outside o n c1 (perform (Erase o n) c1).
Proof. intros Hl. rewrite perform_erase by done. rewrite <-(length_replicate n 255%Z) at 1. apply agree_splice. by rewrite length_replicate. Qed.

Lemma copy_written v b c1 : length c1 = length c → length b = CONFIG_ENV_SIZE → bytes b →
  copy v c1 = replicate CONFIG_ENV_SIZE 255%Z → copy v (perform (Write (offset_of v) b) c1) = b.
Proof.
  intros Hl Hb Hbb Hc. pose proof (lo_inside c L v). pose proof (lo_sector c L).
  rewrite (proj1 (perform_write (offset_of v) b c1 ltac:(lia))). unfold copy, copy_at in Hc. fold (offset_of v) in Hc.
  rewrite Hb, Hc, land_erased by done. by apply copy_splice.
Qed.

End Layout.

(** ** Operations in the sector of one copy *)

Definition run (ops : list flash_op) (c : list Z) : list Z := foldl (λ c op, perform op c) c ops.

Definition in_sector (v : Z) (op : flash_op) : Prop :=
  offset_of v ≤ (op_range op).1 ∧ (op_range op).1 + (op_range op).2 ≤ offset_of v + CONFIG_ENV_SECT_SIZE.

Lemma perform_agree op c : (op_range op).1 + (op_range op).2 ≤ length c →
  agree_outside (op_range op).1 (op_range op).2 c (perform op c).
Proof. destruct op; intros Hl; [by apply perform_erase_agree|by apply perform_write]. Qed.

(** A change in that sector. *)
Definition elsewhere_same (v : Z) (c c' : list Z) : Prop := length c' = length c ∧ copy (other v) c' = copy (other v) c.

#[global] Instance elsewhere_same_preorder v : PreOrder (elsewhere_same v).
Proof. split; [by split|]. intros c1 c2 c3 [E1 E2] [E3 E4]. split; congruence. Qed.

Lemma agree_elsewhere v op c c' : layout_ok c → in_sector v op →
  agree_outside (op_range op).1 (op_range op).2 c c' → elsewhere_same v c c'.
Proof. intros L [Ho Hn] Ha. split; [by destruct Ha|]. by eapply copy_apart. Qed.

Lemma perform_elsewhere v op c : layout_ok c → in_sector v op → elsewhere_same v c (perform op c).
Proof.
  intros L Hop. apply (agree_elsewhere v op); [done..|]. apply perform_agree. pose proof (lo_inside _ L v). unfold in_sector in Hop. lia.
Qed.

Lemma length_perform_write o b c : o + length b ≤ length c → length (perform (Write o b) c) = length c.
Proof. intros Hl. by destruct (perform_write o b c Hl) as [_ []]. Qed.

Lemma run_elsewhere v ops c : layout_ok c → Forall (in_sector v) ops → elsewhere_same v c (run ops c).
Proof.
  intros L Hops. revert c L. induction Hops as [|op ops Hop Hops IH]; intros c L; [done|]. cbn [run foldl].
  pose proof (perform_elsewhere v op c L Hop) as Hp. etransitivity; [exact Hp|]. apply IH. eapply layout_length; [done|apply Hp].
Qed.

Lemma cut_elsewhere p v ops c c' : layout_ok c → Forall (in_sector v) ops → power_cut p ops c c' → elsewhere_same v c c'.
Proof.
  intros L Hops Hcut. induction Hcut as [|op ops c c' Ha _|op ops c c' _ IH]; [done|..]; apply Forall_cons in Hops as [Hop Hops].
  - by eapply agree_elsewhere.
  - pose proof (perform_elsewhere v op c L Hop) as Hp. etransitivity; [exact Hp|]. apply IH; [|done].
    eapply layout_length; [done|apply Hp].
Qed.

(** Bytes stay bytes. *)
Definition op_bytes (op : flash_op) : Prop := match op with Erase _ _ => True | Write _ b => bytes b end.

Lemma run_bytes v ops c : layout_ok c → Forall (in_sector v) ops → Forall op_bytes ops → bytes c → bytes (run ops c).
Proof.
  intros L Hops Hb. revert c L. induction Hops as [|op ops Hop Hops IH]; intros c L Hc; [done|].
  apply Forall_cons in Hb as [Ho Hb]. cbn [run foldl]. pose proof (lo_inside _ L v) as Hi.
  apply IH; [done|eapply layout_length; [done|by apply (perform_elsewhere v)]|]. destruct Hop as [_ Hr].
  destruct op as [o n|o b]; cbn [op_range fst snd] in Hr.
  - rewrite perform_erase by lia. unfold splice. repeat apply Forall_app_2; [by apply Forall_take| |by apply Forall_drop].
    apply Forall_replicate. unfold isbyte. lia.
  - rewrite (proj1 (perform_write o b c ltac:(lia))). unfold splice.
    repeat apply Forall_app_2; [by apply Forall_take|by apply bytes_land|by apply Forall_drop].
Qed.

Lemma cut_app p ops1 ops2 c c' : power_cut p (ops1 ++ ops2) c c' → power_cut p ops1 c c' ∨ power_cut p ops2 (run ops1 c) c'.
Proof.
  revert c. induction ops1 as [|op ops1 IH]; intros c; [by right|]. cbn [app]. inversion 1; subst.
  - left. constructor.
  - left. by constructor.
  - destruct (IH _ ltac:(done)) as [?|?]; [left; by apply cut_later|by right].
Qed.

(** ** The operations of [saveenv] *)

Definition write_ops (v : Z) (new : env_t) (saved : list Z) : list flash_op :=
  [Erase (offset_of v) CONFIG_ENV_SECT_SIZE; Write (offset_of v) (env_bytes new)] ++
  (if CONFIG_ENV_SIZE <? CONFIG_ENV_SECT_SIZE then [Write (offset_of v + CONFIG_ENV_SIZE) saved] else []).

Definition obsolete_ops (st : storage) (v : Z) (old : list Z) : list flash_op :=
  match st with
  | SFC_NAND => [Erase (offset_of v) CONFIG_ENV_SIZE; Write (offset_of v) (<[4 := OBSOLETE_FLAG]> old)]
  | SPI_FLASH => [Write (offset_of v + 4) [OBSOLETE_FLAG]]
  end.

Lemma write_ops_sector c v new saved : layout_ok c → length (env_bytes new) = CONFIG_ENV_SIZE →
  length saved = CONFIG_ENV_SECT_SIZE - CONFIG_ENV_SIZE → Forall (in_sector v) (write_ops v new saved).
Proof.
  intros L Hn Hs. pose proof (lo_sector _ L). unfold write_ops, in_sector.
  destruct (_ <? _); repeat constructor; cbn [op_range fst snd]; lia.
Qed.

Lemma obsolete_ops_sector c st v old : layout_ok c → length old = CONFIG_ENV_SIZE → Forall (in_sector v) (obsolete_ops st v old).
Proof.
  intros L Ho. pose proof (lo_sector _ L). pose proof (lo_size _ L). unfold obsolete_ops, in_sector.
  destruct st; repeat constructor; cbn [op_range fst snd length]; rewrite ?length_insert; lia.
Qed.

Lemma write_ops_bytes v new saved : bytes (env_bytes new) → bytes saved → Forall op_bytes (write_ops v new saved).
Proof. intros Hn Hs. unfold write_ops. destruct (_ <? _); by repeat constructor. Qed.

Lemma obsolete_ops_bytes st v old : bytes old → Forall op_bytes (obsolete_ops st v old).
Proof.
  intros Ho. assert (Hf : isbyte OBSOLETE_FLAG) by (unfold OBSOLETE_FLAG, isbyte; lia).
  destruct st; cbn [obsolete_ops]; repeat constructor; cbn [op_bytes]; [by apply Forall_insert|by repeat constructor; apply Hf].
Qed.

Lemma status_0 st : status st 0 = 0%Z.
Proof. by destruct st. Qed.

Lemma probe_ok st : probe st = true.
Proof. destruct st; [done|apply probe_works]. Qed.

Lemma dev_erase_run st o n d : o + n ≤ length (contents d) →
  dev_erase st o n d = (0%Z, mkDev (run [Erase o n] (contents d)) (log d ++ [Erase o n])).
Proof. intros Hl. unfold dev_erase. simpl. rewrite erase_works by done. by rewrite status_0. Qed.

Lemma dev_write_run st o b d : o + length b ≤ length (contents d) →
  dev_write st o b d = (0%Z, mkDev (run [Write o b] (contents d)) (log d ++ [Write o b])).
Proof. intros Hl. unfold dev_write. simpl. rewrite write_works by done. by rewrite status_0. Qed.

Lemma length_run v ops c : layout_ok c → Forall (in_sector v) ops → length (run ops c) = length c.
Proof. intros L Hops. by destruct (run_elsewhere v ops c L Hops). Qed.

Section Saving.
Context (calloc_always : ∀ n, calloc_ok n = true).

(** The new copy. *)
Lemma write_new_run st v new d : layout_ok (contents d) → length (env_bytes new) = CONFIG_ENV_SIZE →
  ∃ saved, length saved = CONFIG_ENV_SECT_SIZE - CONFIG_ENV_SIZE ∧ (bytes (contents d) → bytes saved) ∧
    write_new st (offset_of v) new d = Some (0%Z, mkDev (run (write_ops v new saved) (contents d)) (log d ++ write_ops v new saved)).
Proof.
  intros L Hn. pose proof (lo_inside _ L v) as Hi. pose proof (lo_sector _ L) as Hsec.
  set (saved := take (CONFIG_ENV_SECT_SIZE - CONFIG_ENV_SIZE) (drop (offset_of v + CONFIG_ENV_SIZE) (contents d))).
  assert (Hs : length saved = CONFIG_ENV_SECT_SIZE - CONFIG_ENV_SIZE) by (unfold saved; rewrite length_take, length_drop; lia).
  exists saved. split; [done|]. split; [intros Hb; by apply Forall_take, Forall_drop|]. pose proof (write_ops_sector _ v new saved L Hn Hs) as Hops.
  unfold write_new. rewrite calloc_always, andb_false_r, (sectors_one _ L), Nat.mul_1_l.
  rewrite dev_erase_run by lia. rewrite (take_ge (env_bytes new)) by lia.
  unfold write_ops in *. apply Forall_app in Hops as [Hops _]. apply Forall_cons in Hops as [He [Hw _]%Forall_cons].
  pose proof (length_run v [Erase (offset_of v) CONFIG_ENV_SECT_SIZE] _ L (Forall_cons_2 _ _ _ He (Forall_nil_2 _))) as E1.
  pose proof (length_run v [Erase (offset_of v) CONFIG_ENV_SECT_SIZE; Write (offset_of v) (env_bytes new)] _ L (Forall_cons_2 _ _ _ He (Forall_cons_2 _ _ _ Hw (Forall_nil_2 _)))) as E2.
  destruct (CONFIG_ENV_SIZE <? CONFIG_ENV_SECT_SIZE).
  - unfold dev_read at 1. rewrite read_works by lia. fold saved. rewrite status_0. cbn [negb and_then Z.eqb].
    rewrite dev_write_run by (cbn [contents]; lia). cbn [and_then Z.eqb contents log].
    rewrite dev_write_run by (cbn [contents]; cbn [run foldl] in E2 |- *; lia). cbn [contents log run foldl app].
    by rewrite <-!app_assoc.
  - cbn [negb and_then Z.eqb]. rewrite dev_write_run by (cbn [contents]; lia). cbn [and_then Z.eqb contents log run foldl app].
    by rewrite <-!app_assoc.
Qed.

(** The old copy. *)
Lemma make_obsolete_run st v d : layout_ok (contents d) →
  make_obsolete st (offset_of v) d =
    Some (0%Z, mkDev (run (obsolete_ops st v (copy v (contents d))) (contents d)) (log d ++ obsolete_ops st v (copy v (contents d)))).
Proof.
  intros L. pose proof (lo_inside _ L v) as Hi. pose proof (lo_sector _ L) as Hsec. pose proof (lo_size _ L) as H5.
  unfold make_obsolete, obsolete_ops. pose proof (copy_length _ L v (contents d) eq_refl) as Hc. destruct st.
  - rewrite calloc_always, (sectors_one _ L), Nat.mul_1_l, (sizeof_ok _ L). cbn [negb].
    unfold dev_read. rewrite read_works by lia. cbn [status snd].
    change (take CONFIG_ENV_SIZE (drop (offset_of v) (contents d))) with (copy v (contents d)).
    pose proof (length_run v [Erase (offset_of v) CONFIG_ENV_SIZE] _ L ltac:(apply Forall_singleton; split; cbn [op_range fst snd]; lia)) as E1.
    rewrite dev_erase_run by lia. cbn [and_then Z.eqb].
    rewrite dev_write_run by (cbn [contents]; rewrite length_insert; lia).
    cbn [contents log run foldl app]. by rewrite <-app_assoc.
  - by rewrite dev_write_run by (simpl; lia).
Qed.

End Saving.

(** ** What the operations leave in the copies *)

Definition bad (v : Z) (c : list Z) : Prop := crc_ok 0 (env_of_bytes (copy v c)) = false.

(** An erased copy has a wrong checksum. *)
Definition erased_bad : Prop := crc_ok 0 (env_of_bytes (replicate CONFIG_ENV_SIZE 255%Z)) = false.

Lemma noticed_copy p v c c' done : noticed p c c' done → copy v c' = copy v c ∨ copy v c' = copy v done ∨ bad v c'.
Proof. intros Hn. unfold bad. rewrite <-(crc_ok_addr p). apply Hn. Qed.

Lemma behind_same p v ops c c' : layout_ok c → Forall (in_sector v) ops →
  Forall (λ op, (op_range op).1 = offset_of v + CONFIG_ENV_SIZE) ops → power_cut p ops c c' → copy v c' = copy v c.
Proof.
  intros L Hops Hb Hcut. induction Hcut as [|op ops c c' Ha _|op ops c c' _ IH]; [done|..];
    apply Forall_cons in Hops as [Hop Hops]; apply Forall_cons in Hb as [Ho Hb].
  - rewrite Ho in Ha. by eapply copy_behind.
  - pose proof (perform_elsewhere v op c L Hop) as Hp. rewrite IH; [|by eapply layout_length; [|apply Hp]|done..].
    pose proof (perform_agree op c) as Ha. rewrite Ho in Ha. eapply copy_behind. apply Ha.
    pose proof (lo_inside _ L v). destruct Hop as [_ Hop]. rewrite Ho in Hop. lia.
Qed.

(** The rest of the sector. *)
Lemma extra_behind p v saved c c' : layout_ok c → length saved = CONFIG_ENV_SECT_SIZE - CONFIG_ENV_SIZE →
  power_cut p (if CONFIG_ENV_SIZE <? CONFIG_ENV_SECT_SIZE then [Write (offset_of v + CONFIG_ENV_SIZE) saved] else []) c c' →
  copy v c' = copy v c.
Proof.
  intros L Hs. pose proof (lo_sector _ L). apply behind_same; [done|..]; destruct (_ <? _); try done; apply Forall_singleton.
  - split; cbn [op_range fst snd]; lia.
  - done.
Qed.

Lemma run_cut p ops c : power_cut p ops c (run ops c).
Proof. revert c. induction ops as [|op ops IH]; intros c; [constructor|]. by apply cut_later. Qed.

Section Copies.
Context (c : list Z) (L : layout_ok c) (Hbad : erased_bad).

Lemma erased_copy v n : CONFIG_ENV_SIZE ≤ n ≤ CONFIG_ENV_SECT_SIZE →
  copy v (perform (Erase (offset_of v) n) c) = replicate CONFIG_ENV_SIZE 255%Z ∧ bad v (perform (Erase (offset_of v) n) c).
Proof.
  intros Hn. pose proof (lo_inside _ L v). pose proof (copy_erased c L v n c eq_refl Hn) as E. unfold bad.
  rewrite perform_erase by lia. by rewrite E.
Qed.

(** Erasing a sector, or the copy, and programming the copy. *)
Lemma cut_rewrite p v n b ops c' : CONFIG_ENV_SIZE ≤ n ≤ CONFIG_ENV_SECT_SIZE → length b = CONFIG_ENV_SIZE → bytes b →
  power_cut p (Erase (offset_of v) n :: Write (offset_of v) b :: ops) c c' →
  copy v c' = copy v c ∨ bad v c' ∨ copy v c' = b ∨
  ∃ c2, layout_ok c2 ∧ copy v c2 = b ∧ power_cut p ops c2 c'.
Proof.
  intros Hn Hl Hb Hcut. pose proof (erased_copy v n Hn) as [Ee Be]. pose proof (lo_inside _ L v) as Hi.
  pose proof (perform_elsewhere v (Erase (offset_of v) n) c L ltac:(split; cbn [op_range fst snd]; lia)) as [Hl1 _].
  pose proof (layout_length _ _ L Hl1) as L1. set (c1 := perform _ c) in *.
  assert (Hbe : copy v c' = copy v c1 → bad v c') by (unfold bad; by intros ->).
  pose proof (copy_written c L v b c1 Hl1 Hl Hb Ee) as Ew.
  inversion Hcut as [|? ? ? ? _ Hno|? ? ? ? Hcut1]; subst; [by left|..].
  - destruct (noticed_copy _ v _ _ _ Hno) as [?|[?|?]]; auto.
  - inversion Hcut1 as [|? ? ? ? _ Hno|? ? ? ? Hcut2]; subst; [by right; left; apply Hbe|..].
    + destruct (noticed_copy _ v _ _ _ Hno) as [?|[E|?]]; auto. right; right; left. by rewrite E.
    + right; right; right. eexists. split_and!; [|exact Ew|exact Hcut2].
      eapply layout_length; [exact L1|]. apply (perform_elsewhere v (Write (offset_of v) b) c1 L1).
      pose proof (lo_sector _ L). split; cbn [op_range fst snd]; lia.
Qed.

Lemma cut_write p v new saved c' : full new → length saved = CONFIG_ENV_SECT_SIZE - CONFIG_ENV_SIZE →
  power_cut p (write_ops v new saved) c c' → copy v c' = copy v c ∨ bad v c' ∨ copy v c' = env_bytes new.
Proof.
  intros Hf Hs Hcut. pose proof (env_size_ok _ L) as Hsz. pose proof (lo_sector _ L) as Hsec.
  assert (Hlen : length (env_bytes new) = CONFIG_ENV_SIZE) by (rewrite env_bytes_length by done; lia).
  pose proof (cut_rewrite p v CONFIG_ENV_SECT_SIZE (env_bytes new) _ c' (conj Hsec (le_n _)) Hlen (env_bytes_isbyte _ Hf) Hcut) as Hc.
  destruct Hc as [?|[?|[?|(c2 & L2 & E2 & Hc)]]]; [auto..|].
  right; right. rewrite <-E2. apply (extra_behind p v saved _ _ L2 Hs Hc).
Qed.

Lemma run_write v new saved : full new → length saved = CONFIG_ENV_SECT_SIZE - CONFIG_ENV_SIZE →
  copy v (run (write_ops v new saved) c) = env_bytes new.
Proof.
  intros Hf Hs. pose proof (env_size_ok _ L) as Hsz. pose proof (lo_sector _ L) as Hsec. pose proof (lo_inside _ L v) as Hi.
  pose proof (perform_elsewhere v (Erase (offset_of v) CONFIG_ENV_SECT_SIZE) c L ltac:(split; cbn [op_range fst snd]; lia)) as [Hl1 _].
  assert (Hlen : length (env_bytes new) = CONFIG_ENV_SIZE) by (rewrite env_bytes_length by done; lia).
  pose proof (copy_written c L v (env_bytes new) _ Hl1 Hlen (env_bytes_isbyte _ Hf) (proj1 (erased_copy v CONFIG_ENV_SECT_SIZE ltac:(lia)))) as Ew.
  etransitivity; [|exact Ew]. refine (extra_behind 0 v saved _ _ _ Hs (run_cut 0 _ _)). eapply layout_length; [exact L|].
  rewrite <-Hl1. apply length_perform_write. lia.
Qed.

(** Marking a copy obsolete. *)
Lemma old_bytes v : bytes (copy v c) → bytes (<[4 := OBSOLETE_FLAG]> (copy v c)).
Proof. intros Hb. apply Forall_insert; [done|]. unfold OBSOLETE_FLAG, isbyte. lia. Qed.

Lemma flag_written v : copy v (perform (Write (offset_of v + 4) [OBSOLETE_FLAG]) c) = <[4 := OBSOLETE_FLAG]> (copy v c).
Proof.
  pose proof (lo_inside _ L v) as Hi. pose proof (lo_sector _ L) as Hsec. pose proof (lo_size _ L) as H5.
  rewrite (proj1 (perform_write (offset_of v + 4) [OBSOLETE_FLAG] c ltac:(simpl; lia))). unfold copy, copy_at. fold (offset_of v).
  assert (E : zip_with Z.land (take (length [OBSOLETE_FLAG]) (drop (offset_of v + 4) c)) [OBSOLETE_FLAG] = [OBSOLETE_FLAG]).
  { destruct (drop (offset_of v + 4) c) as [|x l] eqn:E; [|cbn; by rewrite Z.land_0_r].
    apply (f_equal length) in E. rewrite length_drop in E. simpl in E. lia. }
  rewrite E. apply list_eq. intros i. unfold splice.
  destruct (decide (i < CONFIG_ENV_SIZE)) as [Hlt|].
  2: { rewrite lookup_take_ge by lia. symmetry. apply lookup_ge_None_2. rewrite length_insert, length_take. lia. }
  rewrite lookup_take_lt, lookup_drop by done. destruct (decide (i = 4)) as [->|Hne].
  - rewrite list_lookup_insert_eq by (rewrite length_take, length_drop; lia).
    rewrite lookup_app_r by (rewrite length_take; lia). rewrite length_take. by replace (_ - _) with 0 by lia.
  - rewrite list_lookup_insert_ne by done. rewrite lookup_take_lt, lookup_drop by done.
    destruct (decide (i < 4)).
    + rewrite lookup_app_l by (rewrite length_take; lia). by apply lookup_take_lt; lia.
    + rewrite lookup_app_r by (rewrite length_take; lia). rewrite length_take, lookup_app_r by (simpl; lia).
      rewrite lookup_drop. f_equal. simpl. lia.
Qed.

Lemma cut_obsolete p st v c' : bytes (copy v c) → power_cut p (obsolete_ops st v (copy v c)) c c' →
  copy v c' = copy v c ∨ bad v c' ∨ copy v c' = <[4 := OBSOLETE_FLAG]> (copy v c).
Proof.
  intros Hb Hcut. pose proof (lo_sector _ L) as Hsec. destruct st; cbn [obsolete_ops] in Hcut.
  - assert (Hlen : length (<[4 := OBSOLETE_FLAG]> (copy v c)) = CONFIG_ENV_SIZE) by (by rewrite length_insert, (copy_length c L)).
    destruct (cut_rewrite p v CONFIG_ENV_SIZE _ _ c' (conj (le_n _) Hsec) Hlen (old_bytes v Hb) Hcut)
      as [?|[?|[?|(c2 & L2 & E2 & Hc)]]]; [auto..|].
    right; right. inversion Hc; subst. done.
  - inversion Hcut as [|? ? ? ? _ Hno|? ? ? ? Hc]; subst; [by left|..].
    + rewrite <-flag_written. by destruct (noticed_copy _ v _ _ _ Hno) as [?|[?|?]]; auto.
    + inversion Hc; subst. right; right. apply flag_written.
Qed.

Lemma run_obsolete st v : bytes (copy v c) → copy v (run (obsolete_ops st v (copy v c)) c) = <[4 := OBSOLETE_FLAG]> (copy v c).
Proof.
  intros Hb. pose proof (lo_sector _ L) as Hsec. pose proof (lo_inside _ L v) as Hi.
  destruct st; cbn [obsolete_ops run foldl]; [|apply flag_written].
  apply (copy_written c L); [|by rewrite length_insert, (copy_length c L)|by apply old_bytes|].
  - apply (perform_elsewhere v); [done|]. split; cbn [op_range fst snd]; lia.
  - rewrite perform_erase by lia. by apply (copy_erased c L); [|lia].
Qed.

End Copies.

(** ** The choice at boot *)

Definition chosen (c : list Z) : option (Z * env_t) :=
  let t1 := env_of_bytes (copy 1 c) in
  let t2 := env_of_bytes (copy 2 c) in
  v ← choose_copy (crc_ok 0 t1) (crc_ok 0 t2) (eflags t1) (eflags t2);
  Some (v, if (v =? 1)%Z then t1 else t2).

(** The rest of [env_relocate_spec]. *)
Definition boot (p1 p2 : Z) (choice : option (Z * env_t)) (e : env) : option env :=
  match choice with
  | None => set_default_env (Some "!bad CRC"%string) e
  | Some (v, t) =>
      '(ret, e) ← env_import (if (v =? 1)%Z then p1 else p2) t false (mkEnv (set_env_valid v (gd e)) (env_htab e) (env_id e));
      if (ret =? 0)%Z then set_default_env (Some "env_import failed"%string) e else Some e
  end.

Lemma relocate_boot st p1 p2 c e : (∀ n, calloc_ok n = true) → layout_ok c →
  env_relocate_spec st p1 p2 c e = boot p1 p2 (chosen c) e.
Proof.
  intros Hcal L. pose proof (lo_inside _ L 1) as I1. pose proof (lo_inside _ L 2) as I2. pose proof (lo_sector _ L).
  unfold offset_of in I1, I2. simpl in I1, I2. unfold env_relocate_spec, dev_read. rewrite Hcal, probe_ok. cbn [negb contents].
  rewrite !read_works by lia. rewrite status_0. cbn [negb andb]. rewrite (crc_ok_addr p1), (crc_ok_addr p2).
  unfold chosen, copy, copy_at. simpl. destruct (choose_copy _ _ _ _) as [v|]; [|done]. simpl. by destruct (v =? 1)%Z.
Qed.

Lemma env_import_ok p t htab e : (∀ s, strdup s = Some s) → (∀ n, calloc_ok n = true) →
  (∀ cb k v op flag, run_callback cb k v op flag = false) → htab_wf htab → accepting (change_ok (env_htab e)) →
  map_Forall (λ k v, entry_ok NUL (k, v)) (env_of htab) → hexport_r htab NUL 0 true ENV_SIZE [] = Some (Exported (edata t)) →
  base.size (env_of htab) ≤ import_room (edata t) →
  ∃ e', env_import p t false e = Some (1%Z, e') ∧ env_of (env_htab e') = env_of htab ∧ env_valid (gd e') = env_valid (gd e).
Proof.
  intros Hstr Hcal Hcb Hwf Hacc Hent Hexp Hroom.
  destruct (import_export_ok NUL true ENV_SIZE htab (env_htab e) (edata t)) as (htab' & E & _ & Ht); [done..|].
  unfold env_import. rewrite E. cbn [andb mbind option_bind]. eexists. split; [done|]. done.
Qed.

(** ** A power cut during [saveenv] *)

Inductive safe (vo : Z) (new : env_t) (c c' : list Z) : Prop :=
  | safe_old : copy vo c' = copy vo c → copy (other vo) c' = copy (other vo) c ∨ bad (other vo) c' → safe vo new c c'
  | safe_new : copy (other vo) c' = env_bytes new →
      copy vo c' = copy vo c ∨ bad vo c' ∨ copy vo c' = <[4 := OBSOLETE_FLAG]> (copy vo c) → safe vo new c c'.

Lemma cut_safe p st vo new saved c c' : layout_ok c → erased_bad → full new → bytes c → vo = 1%Z ∨ vo = 2%Z →
  length saved = CONFIG_ENV_SECT_SIZE - CONFIG_ENV_SIZE →
  power_cut p (write_ops (other vo) new saved ++ obsolete_ops st vo (copy vo c)) c c' → safe vo new c c' ∧ length c' = length c.
Proof.
  intros L Hbad Hf Hb Hvo Hs Hcut. pose proof (env_size_ok _ L) as Hsz.
  assert (Hlen : length (env_bytes new) = CONFIG_ENV_SIZE) by (rewrite env_bytes_length by done; lia).
  assert (Eo : other (other vo) = vo) by (by destruct Hvo; subst).
  pose proof (write_ops_sector c (other vo) new saved L Hlen Hs) as Hw.
  apply cut_app in Hcut as [Hcut|Hcut].
  - destruct (cut_elsewhere _ _ _ _ _ L Hw Hcut) as [El Ev]. rewrite Eo in Ev. split; [|done].
    destruct (cut_write c L Hbad _ _ _ _ _ Hf Hs Hcut) as [?|[?|?]]; [apply safe_old|apply safe_old|apply safe_new]; auto.
  - pose proof (run_elsewhere _ _ _ L Hw) as [El Ev]. rewrite Eo in Ev.
    pose proof (run_write c L Hbad (other vo) new saved Hf Hs) as En.
    set (c1 := run _ c) in *. pose proof (layout_length _ _ L El) as L1. rewrite <-Ev in Hcut.
    pose proof (obsolete_ops_sector c1 st vo (copy vo c1) L1 (copy_length c1 L1 vo c1 eq_refl)) as Ho.
    destruct (cut_elsewhere _ _ _ _ _ L1 Ho Hcut) as [El' Ev']. split; [|congruence]. apply safe_new; [congruence|].
    rewrite <-Ev. apply (cut_obsolete c1 L1 Hbad p st); [|done]. rewrite Ev. by apply Forall_take, Forall_drop.
Qed.

(** The choice is made from the two copies only. *)
Lemma chosen_copies c c' : (∀ v, v = 1%Z ∨ v = 2%Z → copy v c' = copy v c) → chosen c' = chosen c.
Proof. intros Hc. unfold chosen. by rewrite !Hc by auto. Qed.

Lemma chosen_cases vo c (b bo : bool) f fo : vo = 1%Z ∨ vo = 2%Z →
  crc_ok 0 (env_of_bytes (copy vo c)) = b → crc_ok 0 (env_of_bytes (copy (other vo) c)) = bo →
  eflags (env_of_bytes (copy vo c)) = f → eflags (env_of_bytes (copy (other vo) c)) = fo →
  let old := Some (vo, env_of_bytes (copy vo c)) in
  let new := Some (other vo, env_of_bytes (copy (other vo) c)) in
  chosen c = (if b then if bo then
      if (f =? ACTIVE_FLAG)%Z && (fo =? OBSOLETE_FLAG)%Z then old
      else if (f =? OBSOLETE_FLAG)%Z && (fo =? ACTIVE_FLAG)%Z then new
      else if (vo =? 2)%Z then old else new
    else old else if bo then new else None).
Proof.
  intros Hvo <- <- <- <-. cbv zeta. unfold chosen, choose_copy.
  destruct Hvo as [-> | ->]; cbn [other Z.eqb Pos.eqb]; destruct (crc_ok 0 (env_of_bytes (copy 1 c))), (crc_ok 0 (env_of_bytes (copy 2 c))); try done; cbn.
  all: generalize (eflags (env_of_bytes (copy 1 c))) (eflags (env_of_bytes (copy 2 c))); intros f1 f2.
  all: unfold ACTIVE_FLAG, OBSOLETE_FLAG; repeat match goal with |- context [(?a =? ?b)%Z] => destruct (Z.eqb_spec a b); cbn end; try done; lia.
Qed.

Lemma safe_chosen vo new c c' : layout_ok c → full new → crc_ok 0 new = true → eflags new = ACTIVE_FLAG → vo = 1%Z ∨ vo = 2%Z →
  (∀ v t, chosen c = Some (v, t) → v = vo) → safe vo new c c' → chosen c' = chosen c ∨ chosen c' = Some (other vo, new).
Proof.
  intros L Hf Hgood Hflag Hvo Hch Hsafe. pose proof (copy_length c L vo c eq_refl) as Hlen. pose proof (lo_size _ L) as H5.
  assert (Hne : other vo ≠ vo) by (by destruct Hvo; subst).
  rewrite (chosen_cases vo c' _ _ _ _ Hvo eq_refl eq_refl eq_refl eq_refl).
  rewrite (chosen_cases vo c _ _ _ _ Hvo eq_refl eq_refl eq_refl eq_refl) in Hch |- *.
  (** When the old copy is good, it is the one that was chosen. *)
  assert (Hold : crc_ok 0 (env_of_bytes (copy vo c)) = true → chosen c = Some (vo, env_of_bytes (copy vo c))).
  { rewrite (chosen_cases vo c _ _ _ _ Hvo eq_refl eq_refl eq_refl eq_refl). intros E. rewrite E in Hch |- *.
    destruct (crc_ok 0 (env_of_bytes (copy (other vo) c))); [|done].
    destruct (_ && _); [done|]. destruct (_ && _); [by destruct Hne; eapply Hch|]. destruct (vo =? 2)%Z; [done|].
    by destruct Hne; eapply Hch. }
  rewrite (chosen_cases vo c _ _ _ _ Hvo eq_refl eq_refl eq_refl eq_refl) in Hold.
  destruct Hsafe as [Ev [Eo|Eo]|Eo Ev].
  - rewrite Ev, Eo. by left.
  - left. unfold bad in Eo. rewrite Ev, Eo. destruct (crc_ok 0 (env_of_bytes (copy vo c))); [by rewrite Hold|].
    destruct (crc_ok 0 (env_of_bytes (copy (other vo) c))); [|done]. by destruct Hne; eapply Hch.
  - rewrite Eo, env_bytes_round, Hgood, Hflag by done. destruct Ev as [Ev|[Ev|Ev]].
    + rewrite Ev. destruct (crc_ok 0 (env_of_bytes (copy vo c))); [|by right]. rewrite (Hold eq_refl).
      repeat case_match; auto.
    + unfold bad in Ev. rewrite Ev. by right.
    + rewrite Ev, flag_changed by lia. unfold crc_ok. cbn [edata crc eflags]. fold (crc_ok 0 (env_of_bytes (copy vo c))).
      right. by destruct (crc_ok 0 (env_of_bytes (copy vo c))).
Qed.

Section Theorems.
Context (strdup_always : ∀ s, strdup s = Some s) (calloc_always : ∀ n, calloc_ok n = true)
  (callbacks_accept : ∀ cb k v op flag, run_callback cb k v op flag = false).

(** A state in which [saveenv] is called: the variables can be stored, and
    [env_valid] names the copy that was chosen at boot, if one was. *)
Record savable (c : list Z) (e : env) (data : list ascii) : Prop := {
  sv_layout : layout_ok c;
  sv_bytes : bytes c;
  sv_wf : htab_wf (env_htab e);
  sv_plain : map_Forall (λ k v, entry_ok NUL (k, v)) (env_of (env_htab e));
  sv_fits : hexport_r (env_htab e) NUL 0 true ENV_SIZE [] = Some (Exported data);
  sv_room : base.size (env_of (env_htab e)) ≤ import_room data;
  sv_valid : env_valid (gd e) = 1%Z ∨ env_valid (gd e) = 2%Z;
  sv_chosen v t : chosen c = Some (v, t) → v = env_valid (gd e);
}.

Lemma env_new_full p data : length data = ENV_SIZE → full (env_new p data).
Proof. intros Hd. destruct (env_crc_ok p data). split; [done|]. split; [unfold isbyte; simpl; unfold ACTIVE_FLAG; lia|done]. Qed.

Lemma env_new_good p data : crc_ok 0 (env_new p data) = true.
Proof. unfold crc_ok, env_new. simpl. rewrite (proj1 (env_crc_ok p data)). by apply Z.eqb_eq. Qed.

Lemma exported_length htab n data : 0 < n → hexport_r htab NUL 0 true n [] = Some (Exported data) → length data = n.
Proof.
  intros Hn. unfold hexport_r. intros (l & _ & E)%bind_Some. destruct ((0 <? n) && _); [done|]. cbn [negb andb] in E.
  destruct (Nat.eqb_spec n 0); [lia|]. destruct (Nat.leb_spec (length (print_list NUL l ++ [NUL])) n) as [Hl|]; [|done].
  injection E as <-. rewrite length_app, length_replicate. lia.
Qed.

Lemma data_length c htab data : layout_ok c → hexport_r htab NUL 0 true ENV_SIZE [] = Some (Exported data) → length data = ENV_SIZE.
Proof. intros L. apply exported_length. pose proof (lo_size _ L). pose proof (env_size_ok _ L). lia. Qed.

(** What [saveenv] does to the device. *)
Lemma saveenv_run st p e d data : savable (contents d) e data →
  let vo := env_valid (gd e) in
  ∃ saved, length saved = CONFIG_ENV_SECT_SIZE - CONFIG_ENV_SIZE ∧ bytes saved ∧
    let ops := write_ops (other vo) (env_new p data) saved ++ obsolete_ops st vo (copy vo (contents d)) in
    saveenv st p e d = Some (0%Z, mkEnv (set_env_valid (other vo) (gd e)) (env_htab e) (env_id e), mkDev (run ops (contents d)) (log d ++ ops)).
Proof.
  intros S vo. destruct S as [L Hb _ _ Hexp _ Hv _]. pose proof (env_size_ok _ L) as Hsz. pose proof (lo_size _ L) as H5.
  assert (Hlen : length (env_bytes (env_new p data)) = CONFIG_ENV_SIZE).
  { rewrite env_bytes_length; [lia|]. apply env_new_full. eapply exported_length; [|done]. lia. }
  destruct (write_new_run calloc_always st (other vo) _ d L Hlen) as (saved & Hs & Hsb & Ew). exists saved. split; [done|]. split; [by apply Hsb|]. cbv zeta.
  pose proof (run_elsewhere _ _ _ L (write_ops_sector _ (other vo) _ saved L Hlen Hs)) as [El Ev].
  assert (Eo : other (other vo) = vo) by (unfold vo; by destruct Hv as [-> | ->]). rewrite Eo in Ev.
  pose proof (make_obsolete_run calloc_always st vo (mkDev (run (write_ops (other vo) (env_new p data) saved) (contents d))
    (log d ++ write_ops (other vo) (env_new p data) saved)) (layout_length _ _ L El)) as Em.
  cbn [contents log] in Em. rewrite Ev in Em. unfold saveenv. rewrite probe_ok, Hexp. cbn [negb mbind option_bind].
  assert (E : (if (env_valid (gd e) =? 1)%Z then (CONFIG_ENV_OFFSET_REDUND, CONFIG_ENV_OFFSET) else (CONFIG_ENV_OFFSET, CONFIG_ENV_OFFSET_REDUND)) =
    (offset_of (other vo), offset_of vo)) by (unfold vo; by destruct Hv as [-> | ->]).
  rewrite E, Ew. cbn [mbind option_bind]. rewrite Em. cbn [mbind option_bind].
  unfold run. rewrite foldl_app, <-app_assoc. do 3 f_equal. unfold vo. by destruct Hv as [-> | ->].
Qed.

(** Loading what was saved. *)
Lemma boot_new p p1 p2 v e0 e data : htab_wf (env_htab e) → accepting (change_ok (env_htab e0)) →
  map_Forall (λ k v, entry_ok NUL (k, v)) (env_of (env_htab e)) →
  hexport_r (env_htab e) NUL 0 true ENV_SIZE [] = Some (Exported data) → base.size (env_of (env_htab e)) ≤ import_room data →
  ∃ e1, boot p1 p2 (Some (v, env_new p data)) e0 = Some e1 ∧ env_of (env_htab e1) = env_of (env_htab e) ∧ env_valid (gd e1) = v.
Proof.
  intros Hwf Hacc Hent Hexp Hroom. cbn [boot].
  edestruct (env_import_ok (if (v =? 1)%Z then p1 else p2) (env_new p data)) as (e1 & -> & Ht & Hv); [done..| |done|done|done|done|]; [done|].
  by exists e1.
Qed.

(** The device after [saveenv]. *)
Lemma saved_state st p vo data saved c : layout_ok c → erased_bad → length data = ENV_SIZE → bytes c → vo = 1%Z ∨ vo = 2%Z →
  length saved = CONFIG_ENV_SECT_SIZE - CONFIG_ENV_SIZE → bytes saved →
  let c' := run (write_ops (other vo) (env_new p data) saved ++ obsolete_ops st vo (copy vo c)) c in
  layout_ok c' ∧ bytes c' ∧ chosen c' = Some (other vo, env_new p data).
Proof.
  intros L Hbad Hd Hb Hvo Hs Hsb. cbv zeta. pose proof (env_size_ok _ L) as Hsz. set (new := env_new p data).
  assert (Hf : full new) by by apply env_new_full. pose proof (lo_size _ L) as H5.
  assert (Hlen : length (env_bytes new) = CONFIG_ENV_SIZE) by (rewrite env_bytes_length by done; lia).
  assert (Eo : other (other vo) = vo) by (by destruct Hvo; subst).
  pose proof (write_ops_sector c (other vo) new saved L Hlen Hs) as Hw.
  pose proof (run_elsewhere _ _ _ L Hw) as [El Ev]. rewrite Eo in Ev.
  pose proof (run_bytes _ _ _ L Hw (write_ops_bytes _ _ _ (env_bytes_isbyte _ Hf) Hsb) Hb) as Hb1.
  pose proof (run_write c L Hbad (other vo) new saved Hf Hs) as En.
  unfold run at 1 2 3. rewrite foldl_app. fold (run (write_ops (other vo) new saved) c). rewrite <-Ev.
  set (c1 := run _ c) in *. pose proof (layout_length _ _ L El) as L1. fold (run (obsolete_ops st vo (copy vo c1)) c1).
  pose proof (copy_length c1 L1 vo c1 eq_refl) as Hlc.
  pose proof (obsolete_ops_sector c1 st vo (copy vo c1) L1 Hlc) as Ho.
  assert (Hbc : bytes (copy vo c1)) by by apply Forall_take, Forall_drop.
  pose proof (run_elsewhere _ _ _ L1 Ho) as [El' Ev']. pose proof (run_obsolete c1 L1 st vo Hbc) as Ef.
  split; [by eapply layout_length|]. split; [by eapply run_bytes; [| |apply obsolete_ops_bytes|]|].
  rewrite (chosen_cases vo _ _ _ _ _ Hvo eq_refl eq_refl eq_refl eq_refl), Ev', En, Ef.
  rewrite env_bytes_round, flag_changed by (done || lia). rewrite (env_new_good p data : crc_ok 0 new = true).
  by destruct (crc_ok _ _).
Qed.

(** C31: [saveenv] survives a power cut. Its operations on the device may be
    interrupted at any point: the next boot either does what it would have
    done before [saveenv], or loads exactly the variables that were saved. *)
Theorem saveenv_crash_safe st p p1 p2 e d data e0 :
  erased_bad → savable (contents d) e data → accepting (change_ok (env_htab e0)) →
  ∃ e' c1 ops, saveenv st p e d = Some (0%Z, e', mkDev c1 (log d ++ ops)) ∧
    ∀ c', power_cut p ops (contents d) c' →
      env_relocate_spec st p1 p2 c' e0 = env_relocate_spec st p1 p2 (contents d) e0 ∨
      ∃ e1, env_relocate_spec st p1 p2 c' e0 = Some e1 ∧ env_of (env_htab e1) = env_of (env_htab e).
Proof.
  intros Hbad S Hacc. destruct (saveenv_run st p e d data S) as (saved & Hs & _ & E). eexists _, _, _. split; [exact E|].
  intros c' Hcut. destruct S as [L Hb Hwf Hent Hexp Hroom Hv Hch]. pose proof (lo_size _ L). pose proof (env_size_ok _ L).
  assert (Hd : length data = ENV_SIZE) by (eapply exported_length; [|done]; lia).
  destruct (cut_safe _ _ _ _ _ _ _ L Hbad (env_new_full p data Hd) Hb Hv Hs Hcut) as [Hsafe El].
  rewrite !relocate_boot by (done || by eapply layout_length).
  destruct (safe_chosen _ _ _ _ L (env_new_full p data Hd) (env_new_good p data) eq_refl Hv Hch Hsafe) as [-> | ->]; [by left|].
  right. destruct (boot_new p p1 p2 (other (env_valid (gd e))) e0 e data) as (e1 & -> & ? & _); eauto.
Qed.

(** C32: after a complete [saveenv] the next boot loads exactly the variables
    that were saved; [env_valid] is then the same as in the system that saved
    them and names the copy that was chosen, so that the next [saveenv] starts
    in a good state, too. *)
Theorem saveenv_then_boot st p p1 p2 e d data e0 :
  erased_bad → savable (contents d) e data → accepting (change_ok (env_htab e0)) →
  ∃ e' d' e1, saveenv st p e d = Some (0%Z, e', d') ∧ savable (contents d') e' data ∧
    env_relocate_spec st p1 p2 (contents d') e0 = Some e1 ∧
    env_of (env_htab e1) = env_of (env_htab e) ∧ env_valid (gd e1) = env_valid (gd e').
Proof.
  intros Hbad S Hacc. destruct (saveenv_run st p e d data S) as (saved & Hs & Hsb & E).
  destruct S as [L Hb Hwf Hent Hexp Hroom Hv Hch].
  destruct (saved_state st p (env_valid (gd e)) data saved (contents d)) as (L' & Hb' & Hch'); [done|done|by eapply data_length|done..|].
  destruct (boot_new p p1 p2 (other (env_valid (gd e))) e0 e data) as (e1 & Eb & ? & ?); [done..|].
  eexists _, _, e1. split; [exact E|]. cbn [contents]. rewrite (relocate_boot st p1 p2 _ e0 calloc_always L'), Hch'.
  split; [|done]. split; cbn [gd env_htab set_env_valid env_valid]; try done.
  - destruct Hv as [-> | ->]; auto.
  - rewrite Hch'. by intros v t [= <- _].
Qed.

End Theorems.

End Redundant.

(** ** A device and a layout *)

Module SampleFlash.
Import SampleTable.

(** A flash memory that works inside its bounds and fails outside of them. *)
#[export] Instance nor_flash : Flash := {|
  spi_flash_probe := true;
  flash_read o n c := if o + n <=? length c then (0%Z, take n (drop o c)) else ((-1)%Z, replicate n 0%Z);
  flash_erase o n c := if o + n <=? length c then (0%Z, splice o (replicate n 255%Z) c) else ((-1)%Z, c);
  flash_write o b c :=
    if o + length b <=? length c then (0%Z, splice o (zip_with Z.land (take (length b) (drop o c)) b) c) else ((-1)%Z, c);
|}.

#[export] Instance nor_works : WorkingFlash.
Proof. split; [done|..]; intros; simpl; by rewrite (proj2 (Nat.leb_le _ _)) by lia. Qed.

#[export] Instance sample_config : EnvConfig := {|
  CONFIG_ENV_SIZE := 24;
  ENV_HEADER_SIZE := 5;
  default_environment := env_list SampleEnv.sample_vars ++ [NUL];
  big_endian := false;
|}.

#[export] Instance sample_layout : EnvLayout := {|
  CONFIG_ENV_OFFSET := 32;
  CONFIG_ENV_OFFSET_REDUND := 64;
  CONFIG_ENV_SECT_SIZE := 32;
|}.

Definition fresh : dev := mkDev (replicate 96 255%Z) [].
Definition running : env := mkEnv (mkGd GD_FLG_ENV_READY 1 [] (replicate 32 NUL)) one_entry 1.
Definition booting : env := mkEnv (mkGd 0 1 [] (replicate 32 NUL)) no_table 1.
Definition running_data : list ascii := ["a"; "="; "1"]%char ++ replicate 16 NUL.

Lemma fresh_layout : layout_ok (contents fresh).
Proof. split; try (vm_compute; lia). - intros v. unfold offset_of. destruct (v =? 1)%Z; vm_compute; lia. Qed.

Lemma fresh_savable : savable (contents fresh) running running_data.
Proof.
  split.
  - exact fresh_layout.
  - apply Forall_replicate. unfold isbyte. lia.
  - exact (proj1 one_entry_wf).
  - simpl env_htab. rewrite (proj2 one_entry_wf). apply map_Forall_singleton. split.
    + split; [repeat constructor; discriminate|]. exists "a"%char, []. repeat split; discriminate.
    + split; [discriminate|repeat constructor; discriminate].
  - vm_compute. reflexivity.
  - simpl env_htab. rewrite (proj2 one_entry_wf), map_size_singleton. vm_compute. lia.
  - left. reflexivity.
  - intros v t E. vm_compute in E. discriminate.
Qed.

Lemma saveenv_crash_safe_witness :
  ∃ e' c1 ops, saveenv SFC_NAND 0 running fresh = Some (0%Z, e', mkDev c1 ops) ∧
    ∀ c', power_cut 0 ops (contents fresh) c' →
      env_relocate_spec SFC_NAND 0 0 c' booting = env_relocate_spec SFC_NAND 0 0 (contents fresh) booting ∨
      ∃ e1, env_relocate_spec SFC_NAND 0 0 c' booting = Some e1 ∧ env_of (env_htab e1) = env_of one_entry.
Proof.
  apply (saveenv_crash_safe (H := plain) (λ s, eq_refl) (λ n, eq_refl) (λ _ _ _ _ _, eq_refl) SFC_NAND 0 0 0 running fresh running_data booting).
  - vm_compute. reflexivity.
  - exact fresh_savable.
  - exact I.
Defined.

Lemma saveenv_then_boot_witness :
  ∃ e' d' e1, saveenv SPI_FLASH 0 running fresh = Some (0%Z, e', d') ∧ savable (contents d') e' running_data ∧
    env_relocate_spec SPI_FLASH 0 0 (contents d') booting = Some e1 ∧
    env_of (env_htab e1) = env_of one_entry ∧ env_valid (gd e1) = env_valid (gd e').
Proof.
  apply (saveenv_then_boot (H := plain) (λ s, eq_refl) (λ n, eq_refl) (λ _ _ _ _ _, eq_refl) SPI_FLASH 0 0 0 running fresh running_data booting).
  - vm_compute. reflexivity.
  - exact fresh_savable.
  - exact I.
Defined.

(** When the environment takes more than one sector, the second erasure of
    [env_sfcnand.c] counts in units of [CONFIG_ENV_SIZE] instead of sectors. With
    the copies in adjacent sectors it destroys the copy that was just written:
    [saveenv] reports success, and the next boot finds no environment. *)
Definition small_sectors : EnvLayout := {|
  CONFIG_ENV_OFFSET := 0;
  CONFIG_ENV_OFFSET_REDUND := 32;
  CONFIG_ENV_SECT_SIZE := 16;
|}.

Theorem saveenv_small_sectors :
  ∃ e' d', saveenv (H1 := small_sectors) SFC_NAND 0 running fresh = Some (0%Z, e', d') ∧
    chosen (H1 := small_sectors) (contents d') = None.
Proof. eexists _, _. split; [vm_compute; reflexivity|vm_compute; reflexivity]. Qed.

(** A device on which every operation fails. *)
Definition broken_flash : Flash := {|
  spi_flash_probe := true;
  flash_read o n c := ((-1)%Z, replicate n 0%Z);
  flash_erase o n c := ((-1)%Z, c);
  flash_write o b c := ((-1)%Z, c);
|}.

(** [env_sf.c] reports the failure; [sfc_nand_ops] hides it, and [saveenv]
    reports success and switches to a copy that was never written. *)
Theorem saveenv_broken_flash :
  (∃ d', saveenv (H2 := broken_flash) SPI_FLASH 0 running fresh = Some ((-1)%Z, running, d')) ∧
  ∃ e' d', saveenv (H2 := broken_flash) SFC_NAND 0 running fresh = Some (0%Z, e', d') ∧
    contents d' = contents fresh ∧ env_valid (gd e') = 2%Z.
Proof. split; [eexists; vm_compute; reflexivity|]. eexists _, _. split; [vm_compute; reflexivity|by vm_compute]. Qed.

(** Two good copies, the first active, the flag of the second erased: the
    second is chosen. *)
Example choose_erased_flag : choose_copy true true ACTIVE_FLAG 255 = Some 2%Z.
Proof. reflexivity. Qed.

End SampleFlash.
