(* ===== verification/EnvAttr.v ===== *)
(** * Attribute lists of the environment: data and operations

    Translation of [common/env_attr.c] and of [skip_spaces] and [strim] in
    [lib/linux_string.c]: the lists of the variables [.flags] and [.callbacks],
    ["name:attributes,name:attributes"]. A string is the list of its characters
    without the NUL, a pointer into it an index; [None] stands for an access
    outside of memory, or for a loop that does not end. *)

From S2P Require Import Prelude Word32 Ctype HashExport EnvCommon.
From stdpp Require Import base option list strings.
From Stdlib Require Import ZArith Lia Ascii.
Local Open Scope nat_scope.

Definition ENV_ATTR_LIST_DELIM : ascii := ","%char.
Definition ENV_ATTR_SEP : ascii := ":"%char.
Definition blank : ascii := " "%char.
Definition minus_ENOMEM : Z := -12.

(** ** Strings *)

Definition isspace (c : ascii) : bool := Ctype.isspace (byte_of c).

Fixpoint skip_spaces (s : list ascii) : list ascii :=
  match s with c :: r => if isspace c then skip_spaces r else s | [] => [] end.

(** The loop from the end. *)
Definition strim (s : list ascii) : list ascii := reverse (skip_spaces (reverse (skip_spaces s))).

(** [strchr] for a character other than NUL. *)
Fixpoint strchr (s : list ascii) (c : ascii) : option nat :=
  match s with
  | [] => None
  | d :: r => if bool_decide (d = c) then Some 0 else S <$> strchr r c
  end.

Fixpoint starts (t s : list ascii) : bool :=
  match t, s with
  | [], _ => true
  | c :: t, d :: s => bool_decide (c = d) && starts t s
  | _ :: _, [] => false
  end.

Fixpoint strstr (s t : list ascii) : option nat :=
  if starts t s then Some 0 else match s with [] => None | _ :: s => S <$> strstr s t end.

(** ** [env_attr_walk] *)

Section Walk.
Context {St : Type} (malloc_ok : nat → bool) (callback : list ascii → option (list ascii) → St → Z * St).

(** What is done with a copied entry. *)
Definition walk_entry (entry_cpy : list ascii) (st : St) : Z * St :=
  let '(name, attributes) :=
    match strchr entry_cpy ENV_ATTR_SEP with
    | Some i => (take i entry_cpy, Some (strim (drop (i + 1) entry_cpy)))
    | None => (entry_cpy, None)
    end in
  let name := strim name in
  if length name =? 0 then (0%Z, st) else callback name attributes st.

Fixpoint walk_loop (k : nat) (entry : list ascii) (st : St) : option (Z * St) :=
  match k with
  | O => None
  | S k =>
      let entry_end := strchr entry ENV_ATTR_LIST_DELIM in
      let entry_len := default (length entry) entry_end in
      if negb (entry_len =? 0) && negb (malloc_ok (entry_len + 1)) then Some (minus_ENOMEM, st)
      else
        let '(retval, st) := if entry_len =? 0 then (0%Z, st) else walk_entry (take entry_len entry) st in
        if negb (retval =? 0)%Z then Some (retval, st)
        else match entry_end with
             | Some i => walk_loop k (drop (i + 1) entry) st
             | None => Some (0%Z, st)
             end
  end.

Definition env_attr_walk (attr_list : option (list ascii)) (st : St) : option (Z * St) :=
  match attr_list with
  | None => Some (1%Z, st)
  | Some l => walk_loop (S (length l)) l st
  end.

End Walk.

(** ** [env_attr_lookup] *)

(** The [for] loop. *)
Fixpoint reverse_loop (k : nat) (l search_for : list ascii) (searched : nat) (searched_start result : option nat) : option (option nat) :=
  match k with
  | O => None
  | S k =>
      match strstr (drop searched l) search_for with
      | None => Some result
      | Some i =>
          let mtch := searched + i in
          if match searched_start with Some s => s <? mtch + length search_for | None => false end then Some result
          else reverse_loop k l search_for (mtch + 1) searched_start (Some mtch)
      end
  end.

Definition reverse_strstr (l search_for : list ascii) (searched_start : option nat) : option (option nat) :=
  if bool_decide (search_for = []) then Some (Some 0)
  else reverse_loop (S (length l)) l search_for 0 searched_start None.

Fixpoint skip_blanks (s : list ascii) : list ascii :=
  match s with c :: r => if bool_decide (c = blank) then skip_blanks r else s | [] => [] end.

(** [*nextch] after the spaces. *)
Definition next_char (s : list ascii) : ascii := default NUL (head (skip_blanks s)).

(** [*prevch] after the spaces: [before] is the memory in front of the list,
    from its end. *)
Definition prev_char (before l : list ascii) (entry : nat) : option ascii := head (skip_blanks (reverse (take entry l) ++ before)).

(** The [while] loop. *)
Fixpoint lookup_loop (k : nat) (before l name : list ascii) (entry : option nat) : option (option nat) :=
  match k, entry with
  | O, _ => None
  | S _, None => Some None
  | S k, Some i =>
      prev ← prev_char before l i;
      let next := next_char (drop (i + length name) l) in
      if ((i =? 0) || bool_decide (prev = ENV_ATTR_LIST_DELIM)) &&
         (bool_decide (next = ENV_ATTR_SEP) || bool_decide (next = ENV_ATTR_LIST_DELIM) || bool_decide (next = NUL))
      then Some (Some i)
      else
        entry ← reverse_strstr l name (Some i);
        lookup_loop k before l name entry
  end.

(** [strpbrk] with the two delimiters. *)
Fixpoint until_delim (s : list ascii) : list ascii :=
  match s with
  | c :: r => if bool_decide (c = ENV_ATTR_LIST_DELIM ∨ c = blank) then [] else c :: until_delim r
  | [] => []
  end.

(** The attributes after the name. *)
Definition attributes_at (l name : list ascii) (entry : nat) : list ascii :=
  match skip_blanks (drop (entry + length name) l) with
  | c :: r => if bool_decide (c = ENV_ATTR_SEP) then until_delim (skip_blanks r) else []
  | [] => []
  end.

(** [attributes] is the size of the buffer; the text that is stored in it is
    returned. *)
Definition env_attr_lookup (before : list ascii) (attr_list : option (list ascii)) (name : list ascii) (attributes : option nat)
    : option (Z * option (list ascii)) :=
  match attributes, attr_list with
  | None, _ => Some ((-1)%Z, None)
  | Some _, None => Some (1%Z, None)
  | Some size, Some l =>
      entry ← reverse_strstr l name None;
      entry ← lookup_loop (S (S (length l))) before l name entry;
      match entry with
      | None => Some (2%Z, None)
      | Some i =>
          let text := attributes_at l name i in
          if length text <? size then Some (0%Z, Some text) else None
      end
  end.

(** An empty name, as in [setenv "" value], is found over and over again at the
    start of the list. *)
Example lookup_empty_name : env_attr_lookup [] (Some (String.list_ascii_of_string "flags:x")) [] (Some 3) = None.
Proof. reflexivity. Qed.

(** The buffer of [env_flags_init] holds two characters. *)
Example lookup_overrun : env_attr_lookup [NUL] (Some (String.list_ascii_of_string "x:ror")) ["x"%char] (Some 3) = None.
Proof. reflexivity. Qed.

Example lookup_last : env_attr_lookup [NUL] (Some (String.list_ascii_of_string "xy:a,x : b ,x:c d,yx:e")) ["x"%char] (Some 3) = Some (0%Z, Some ["c"%char]).
Proof. reflexivity. Qed.
