(* ===== verification/EnvAttrSpec.v ===== *)
(** * Attribute lists: what the walk and the search compute

    A list is read as its entries between the commas. [env_attr_walk] calls the
    callback for the entries with a name, in their order; [env_attr_lookup]
    finds the last entry with the name. *)

From S2P Require Import Prelude Word32 Ctype HashExport EnvCommon EnvAttr.
From stdpp Require Import base option list strings.
From Stdlib Require Import ZArith Lia Ascii.
Local Open Scope nat_scope.

(** ** Occurrences *)

Definition occ (l t : list ascii) (i : nat) : Prop := ∃ r, drop i l = t ++ r.

(** The greatest number with a property. *)
Definition is_last (P : nat → Prop) (r : option nat) : Prop :=
  match r with Some i => P i ∧ ∀ j, P j → j ≤ i | None => ∀ j, ¬ P j end.

Lemma starts_spec t s : starts t s = true ↔ ∃ r, s = t ++ r.
Proof.
  revert s. induction t as [|c t IH]; intros s; [split; [by exists s|done]|]. destruct s as [|d s]; simpl.
  - split; [done|by intros [? ?]].
  - rewrite andb_true_iff, bool_decide_eq_true, IH. split.
    + intros [-> [r ->]]. by exists r.
    + intros [r [= -> ->]]. split; [done|by exists r].
Qed.

Lemma strstr_spec s t :
  match strstr s t with
  | Some i => occ s t i ∧ ∀ j, j < i → ¬ occ s t j
  | None => ∀ j, ¬ occ s t j
  end.
Proof.
  induction s as [|c s IH]; simpl; destruct (starts t _) eqn:E.
  - split; [by apply starts_spec|lia].
  - intros j [r Hr]. rewrite drop_nil in Hr. assert (H : starts t [] = true) by (apply starts_spec; by exists r). congruence.
  - split; [by apply starts_spec|lia].
  - assert (H0 : ¬ occ (c :: s) t 0) by (intros H; apply starts_spec in H; simpl in H; congruence).
    destruct (strstr s t) as [i|]; simpl.
    + destruct IH as [Hi Hm]. split; [done|]. intros [|j] Hj; [done|]. apply (Hm j). lia.
    + intros [|j]; [done|]. apply IH.
Qed.

Lemma occ_drop l t n i : occ (drop n l) t i ↔ occ l t (n + i).
Proof. unfold occ. by rewrite drop_drop. Qed.

Lemma occ_bound l t i : t ≠ [] → occ l t i → i + length t ≤ length l.
Proof.
  intros Ht [r Hr]. apply (f_equal length) in Hr. rewrite length_drop, length_app in Hr.
  destruct t; [done|]. simpl in *. lia.
Qed.

(** ** [reverse_strstr] *)

Definition before_start (start : option nat) (n : nat) : Prop := match start with Some s => n ≤ s | None => True end.

Lemma reverse_loop_ok k l t searched start result : t ≠ [] → length l - searched < k →
  (∀ j, occ l t j → before_start start (j + length t) → j < searched → ∃ i, result = Some i ∧ j ≤ i) →
  match result with Some i => occ l t i ∧ before_start start (i + length t) ∧ i < searched | None => True end →
  ∃ r, reverse_loop k l t searched start result = Some r ∧ is_last (λ j, occ l t j ∧ before_start start (j + length t)) r.
Proof.
  intros Ht. assert (Ht1 : 1 ≤ length t) by (destruct t; [done|simpl; lia]). revert searched result. induction k as [|k IH]; intros searched result Hk Hmax Hres; [lia|]. simpl.
  pose proof (strstr_spec (drop searched l) t) as Hs. destruct (strstr (drop searched l) t) as [i|].
  - destruct Hs as [Hi Hm]. apply occ_drop in Hi. pose proof (occ_bound _ _ _ Ht Hi) as Hb.
    assert (Hge : ∀ j, occ l t j → searched ≤ j → searched + i ≤ j).
    { intros j Hj Hsj. destruct (decide (j < searched + i)) as [Hlt|]; [|lia]. destruct (Hm (j - searched)); [lia|].
      apply occ_drop. by replace (searched + (j - searched)) with j by lia. }
    assert (Hstop : match start with Some s => s <? searched + i + length t | None => false end = false ↔ before_start start (searched + i + length t)).
    { destruct start as [s|]; simpl; [|done]. rewrite Nat.ltb_ge. done. }
    destruct (match start with Some s => _ | None => false end) eqn:E.
    + exists result. split; [done|]. destruct result as [j|].
      * destruct Hres as (? & ? & ?). split; [done|]. intros j' [Hj' Hbj].
        destruct (decide (j' < searched)) as [Hlt|]; [by destruct (Hmax j' Hj' Hbj Hlt) as (? & [= <-] & ?)|].
        specialize (Hge j' Hj' ltac:(lia)). destruct start as [s|]; [|done]. simpl in Hbj. apply Nat.ltb_lt in E. lia.
      * intros j' [Hj' Hbj]. destruct (decide (j' < searched)) as [Hlt|]; [by destruct (Hmax j' Hj' Hbj Hlt) as (? & ? & ?)|].
        specialize (Hge j' Hj' ltac:(lia)). destruct start as [s|]; [|done]. simpl in Hbj. apply Nat.ltb_lt in E. lia.
    + apply IH; [lia| |].
      * intros j Hj Hbj Hlt. exists (searched + i). split; [done|]. lia.
      * split; [done|]. split; [by apply Hstop|lia].
  - exists result. split; [done|]. destruct result as [j|].
    + destruct Hres as (? & ? & ?). split; [done|]. intros j' [Hj' Hbj].
      destruct (decide (j' < searched)) as [Hlt|]; [by destruct (Hmax j' Hj' Hbj Hlt) as (? & [= <-] & ?)|].
      destruct (Hs (j' - searched)). apply occ_drop. by replace (searched + (j' - searched)) with j' by lia.
    + intros j' [Hj' Hbj]. destruct (decide (j' < searched)) as [Hlt|]; [by destruct (Hmax j' Hj' Hbj Hlt) as (? & ? & ?)|].
      destruct (Hs (j' - searched)). apply occ_drop. by replace (searched + (j' - searched)) with j' by lia.
Qed.

Lemma reverse_strstr_ok l t start : t ≠ [] →
  ∃ r, reverse_strstr l t start = Some r ∧ is_last (λ j, occ l t j ∧ before_start start (j + length t)) r.
Proof.
  intros Ht. unfold reverse_strstr. rewrite bool_decide_eq_false_2 by done.
  apply reverse_loop_ok; [done|lia| |done]. intros; lia.
Qed.

(** ** The search for an entry *)

Definition delim (c : ascii) : Prop := c = ENV_ATTR_SEP ∨ c = ENV_ATTR_LIST_DELIM ∨ c = NUL.

(** A name that can be found. *)
Definition attr_name (name : list ascii) : Prop :=
  name ≠ [] ∧ Forall (λ c, ¬ delim c ∧ c ≠ blank) name.

Section Lookup.
Context (before l name : list ascii) (Hname : attr_name name).

(** An entry with the name starts at [i]. *)
Definition found_at (i : nat) : Prop :=
  occ l name i ∧ (i = 0 ∨ prev_char before l i = Some ENV_ATTR_LIST_DELIM) ∧ delim (next_char (drop (i + length name) l)).

Lemma next_char_head s c r : s = c :: r → delim (next_char s) → delim c ∨ c = blank.
Proof.
  intros -> . unfold next_char. simpl. destruct (bool_decide (c = blank)) eqn:E; [by right; apply bool_decide_eq_true in E|]. by left.
Qed.

(** Two occurrences, the first one an entry, do not overlap. *)
Lemma found_apart i j : found_at j → occ l name i → j < i → j + length name ≤ i.
Proof.
  intros (_ & _ & Hd) [r Hr] Hlt. destruct (decide (j + length name ≤ i)); [done|exfalso]. destruct Hname as [_ Hn].
  pose proof (drop_drop l (j + length name - i) i) as E. rewrite Hr in E. replace (i + (j + length name - i)) with (j + length name) in E by lia.
  assert (Hlen : j + length name - i < length name) by lia. rewrite drop_app_le in E by lia.
  destruct (drop (j + length name - i) name) as [|c r'] eqn:Ed.
  { apply (f_equal length) in Ed. rewrite length_drop in Ed. simpl in Ed. lia. }
  assert (Hc : ¬ delim c ∧ c ≠ blank).
  { rewrite Forall_forall in Hn. apply Hn. rewrite <-(take_drop (j + length name - i) name), Ed. apply elem_of_app. right. left. }
  destruct (next_char_head _ _ _ (eq_sym E) Hd); tauto.
Qed.

Lemma lookup_loop_ok k entry start : (∃ c r, before = c :: r ∧ c ≠ blank) →
  is_last (λ j, occ l name j ∧ before_start start (j + length name)) entry →
  (∀ j, found_at j → before_start start (j + length name)) →
  match entry with Some i => i + 1 < k | None => 0 < k end →
  ∃ r, lookup_loop k before l name entry = Some r ∧ is_last found_at r.
Proof.
  intros (bc & br & Hbefore & Hbc). revert entry start. induction k as [|k IH]; intros entry start He Hf Hk; [by destruct entry; lia|].
  simpl. destruct entry as [i|].
  2: { exists None. split; [done|]. intros j Hj. apply (He j). split; [apply Hj|by apply Hf]. }
  destruct He as [[Ho Hb] Hmax].
  assert (Hprev : ∃ c, prev_char before l i = Some c).
  { unfold prev_char. rewrite Hbefore. induction (reverse (take i l)) as [|d r IHr]; simpl.
    - rewrite bool_decide_eq_false_2 by done. by eexists.
    - destruct (bool_decide _); [done|by eexists]. }
  destruct Hprev as [c Hc]. rewrite Hc. cbn [mbind option_bind].
  set (next := next_char _). destruct (_ && _) eqn:E.
  - exists (Some i). split; [done|]. split.
    + rewrite andb_true_iff, !orb_true_iff, !bool_decide_eq_true, Nat.eqb_eq in E. split; [done|]. rewrite Hc. unfold delim.
      fold next. naive_solver.
    + intros j Hj. apply Hmax. split; [apply Hj|by apply Hf].
  - destruct (reverse_strstr_ok l name (Some i) (proj1 Hname)) as (r & Er & Hr). rewrite Er. cbn [mbind option_bind].
    apply (IH r (Some i)); [done| |].
    + intros j Hj. simpl. apply found_apart; [done|done|].
      assert (j ≤ i) by (apply Hmax; split; [apply Hj|by apply Hf]). destruct (decide (j = i)) as [->|]; [exfalso|lia].
      destruct Hj as (_ & Hp & Hd). rewrite Hc in Hp. fold next in Hd. unfold delim in Hd.
      apply andb_false_iff in E. rewrite !orb_false_iff, !bool_decide_eq_false, Nat.eqb_neq in E. naive_solver.
    + destruct r as [j|]; [|lia]. destruct Hr as [[_ Hr] _]. simpl in Hr. destruct Hname as [Hn _]. destruct name; [done|]. simpl in Hr. lia.
Qed.

Lemma found_last : (∃ c r, before = c :: r ∧ c ≠ blank) →
  ∃ r, (entry ← reverse_strstr l name None; lookup_loop (S (S (length l))) before l name entry) = Some r ∧ is_last found_at r.
Proof.
  intros Hb. destruct (reverse_strstr_ok l name None (proj1 Hname)) as (e & -> & He). cbn [mbind option_bind].
  eapply lookup_loop_ok; [done|exact He|done|]. destruct e as [i|]; [|lia]. destruct He as [[Ho _] _].
  pose proof (occ_bound _ _ _ (proj1 Hname) Ho). lia.
Qed.

End Lookup.

(** ** Entries *)

Lemma strchr_spec s c :
  match strchr s c with
  | Some i => s = take i s ++ c :: drop (i + 1) s ∧ c ∉ take i s ∧ i < length s
  | None => c ∉ s
  end.
Proof.
  induction s as [|d s IH]; simpl; [apply not_elem_of_nil|].
  destruct (bool_decide (d = c)) eqn:E; [apply bool_decide_eq_true in E as ->|apply bool_decide_eq_false in E].
  - split_and!; [done|apply not_elem_of_nil|simpl; lia].
  - destruct (strchr s c) as [i|]; simpl.
    + destruct IH as (Hs & Hn & Hl). split_and!; [by f_equal|by apply not_elem_of_cons|lia].
    + by apply not_elem_of_cons.
Qed.

Lemma strchr_app s c r : c ∉ s → strchr (s ++ c :: r) c = Some (length s).
Proof.
  induction s as [|d s IH]; intros Hn; simpl; [by rewrite bool_decide_eq_true_2|].
  apply not_elem_of_cons in Hn as [Hd Hn]. rewrite bool_decide_eq_false_2 by done. by rewrite IH.
Qed.


(** The texts between the commas. *)
Fixpoint entries (l : list ascii) : list (list ascii) :=
  match l with
  | [] => [[]]
  | c :: r =>
      if bool_decide (c = ENV_ATTR_LIST_DELIM) then [] :: entries r
      else match entries r with e :: es => (c :: e) :: es | [] => [[c]] end
  end.

Definition comma : ascii := ENV_ATTR_LIST_DELIM.

Lemma entries_single e : comma ∉ e → entries e = [e].
Proof.
  induction e as [|c e IH]; intros Hn; [done|]. apply not_elem_of_cons in Hn as [Hc Hn]. simpl.
  rewrite bool_decide_eq_false_2 by (intros ->; done). by rewrite IH.
Qed.

Lemma entries_app e l : comma ∉ e → entries (e ++ comma :: l) = e :: entries l.
Proof.
  induction e as [|c e IH]; intros Hn; simpl; [done|]. apply not_elem_of_cons in Hn as [Hc Hn].
  rewrite bool_decide_eq_false_2 by (intros ->; done). by rewrite IH.
Qed.

Lemma entries_ind (P : list ascii → Prop) : (∀ e, comma ∉ e → P e) → (∀ e l, comma ∉ e → P l → P (e ++ comma :: l)) → ∀ l, P l.
Proof.
  intros Hone Happ l. remember (length l) as n eqn:Hn. revert l Hn. induction (lt_wf n) as [n _ IH]. intros l ->.
  pose proof (strchr_spec l comma) as Hs. destruct (strchr l comma) as [i|]; [|by apply Hone].
  destruct Hs as (E & Hc & Hl). rewrite E. apply Happ; [done|]. eapply IH; [|done]. rewrite length_drop. lia.
Qed.

(** What an entry says: the name, and the attributes if there is a colon. *)
Definition parse_entry (e : list ascii) : list ascii * option (list ascii) :=
  match strchr e ENV_ATTR_SEP with
  | Some i => (strim (take i e), Some (strim (drop (i + 1) e)))
  | None => (strim e, None)
  end.

(** The meaning of a list: the entries with a name. *)
Definition attrs_of (l : list ascii) : list (list ascii * option (list ascii)) :=
  filter (λ p, p.1 ≠ []) (parse_entry <$> entries l).

Lemma attrs_of_app e l : comma ∉ e → attrs_of (e ++ comma :: l) = filter (λ p, p.1 ≠ []) [parse_entry e] ++ attrs_of l.
Proof. intros He. unfold attrs_of. rewrite entries_app by done. rewrite <-filter_app. done. Qed.

(** ** The walk *)

Section Walk.
Context {St : Type} (malloc_ok : nat → bool) (callback : list ascii → option (list ascii) → St → Z * St)
  (malloc_always : ∀ n, malloc_ok n = true).

(** Calling the callback until it returns something else than 0. *)
Fixpoint call_all (l : list (list ascii * option (list ascii))) (st : St) : Z * St :=
  match l with
  | [] => (0%Z, st)
  | (name, attributes) :: l =>
      let '(retval, st) := callback name attributes st in
      if (retval =? 0)%Z then call_all l st else (retval, st)
  end.

Lemma walk_entry_ok e st : walk_entry callback e st = call_all (filter (λ p, p.1 ≠ []) [parse_entry e]) st.
Proof.
  unfold walk_entry. assert (E : (let '(name, attributes) := match strchr e ENV_ATTR_SEP with
    | Some i => (take i e, Some (strim (drop (i + 1) e))) | None => (e, None) end in (strim name, attributes)) = parse_entry e).
  { unfold parse_entry. by destruct (strchr e ENV_ATTR_SEP). }
  destruct (match strchr e ENV_ATTR_SEP with Some i => _ | None => _ end) as [name attributes]. rewrite <-E.
  rewrite filter_cons, filter_nil. simpl. destruct (decide (strim name ≠ [])) as [Hn|Hn].
  - destruct (Nat.eqb_spec (length (strim name)) 0) as [E0|_]; [by apply nil_length_inv in E0|]. simpl.
    destruct (callback _ _ _) as [r st']. by destruct (Z.eqb_spec r 0) as [->|].
  - apply dec_stable in Hn. by rewrite Hn.
Qed.

Lemma call_all_app l1 l2 st :
  call_all (l1 ++ l2) st = let '(r, st) := call_all l1 st in if (r =? 0)%Z then call_all l2 st else (r, st).
Proof.
  revert st. induction l1 as [|[n a] l1 IH]; intros st; [done|]. simpl. destruct (callback n a st) as [r st'].
  destruct (r =? 0)%Z eqn:E; [apply IH|by rewrite E].
Qed.

Lemma empty_entry : parse_entry [] = ([], None).
Proof. done. Qed.

Lemma walk_loop_ok k l st : length l < k → walk_loop malloc_ok callback k l st = Some (call_all (attrs_of l) st).
Proof.
  revert l st. induction k as [|k IH]; intros l st Hk; [lia|]. simpl. rewrite malloc_always, andb_false_r.
  pose proof (strchr_spec l comma) as Hs. fold comma. destruct (strchr l comma) as [i|]; simpl.
  - destruct Hs as (E & Hc & Hl). assert (Hw : (if i =? 0 then (0%Z, st) else walk_entry callback (take i l) st) = call_all (filter (λ p, p.1 ≠ []) [parse_entry (take i l)]) st).
    { destruct (Nat.eqb_spec i 0) as [->|_]; [done|apply walk_entry_ok]. }
    assert (EA : attrs_of l = filter (λ p, p.1 ≠ []) [parse_entry (take i l)] ++ attrs_of (drop (i + 1) l)) by (rewrite E at 1; by apply attrs_of_app).
    rewrite Hw, EA, call_all_app. destruct (call_all _ st) as [r st'].
    destruct (r =? 0)%Z; [|done]. simpl. apply IH. rewrite length_drop. lia.
  - assert (Hw : (if length l =? 0 then (0%Z, st) else walk_entry callback (take (length l) l) st) = call_all (attrs_of l) st).
    { unfold attrs_of. rewrite entries_single by done. rewrite firstn_all. destruct (Nat.eqb_spec (length l) 0) as [E|_]; [|apply walk_entry_ok].
      by apply nil_length_inv in E as ->. }
    rewrite Hw. destruct (call_all _ _) as [r st']. by destruct (Z.eqb_spec r 0) as [->|].
Qed.

Lemma env_attr_walk_ok l st : env_attr_walk malloc_ok callback (Some l) st = Some (call_all (attrs_of l) st).
Proof. apply walk_loop_ok. lia. Qed.

End Walk.

(** ** Blanks *)

(** The only white space of the list is the space character. *)
Definition spaced (l : list ascii) : Prop := Forall (λ c, (isspace c = true → c = blank) ∧ c ≠ NUL) l.

Lemma skip_blanks_split s : ∃ n, s = replicate n blank ++ skip_blanks s ∧ head (skip_blanks s) ≠ Some blank.
Proof.
  induction s as [|c s (n & E & Hh)]; simpl; [by exists 0|].
  destruct (bool_decide (c = blank)) eqn:Ec; [apply bool_decide_eq_true in Ec as ->|apply bool_decide_eq_false in Ec].
  - exists (S n). simpl. by rewrite <-E.
  - exists 0. split; [done|]. simpl. congruence.
Qed.

Lemma skip_blanks_replicate n s : skip_blanks (replicate n blank ++ s) = skip_blanks s.
Proof. induction n as [|n IH]; [done|exact IH]. Qed.

Lemma skip_blanks_id s : head s ≠ Some blank → skip_blanks s = s.
Proof. destruct s as [|c s]; [done|]. simpl. intros Hc. rewrite bool_decide_eq_false_2; [done|]. congruence. Qed.

Lemma blank_isspace : isspace blank = true.
Proof. reflexivity. Qed.

Lemma skip_spaces_spaced s : spaced s → skip_spaces s = skip_blanks s.
Proof.
  induction 1 as [|c s [Hc _] Hs IH]; [done|]. simpl. destruct (isspace c) eqn:E.
  - rewrite (Hc eq_refl), bool_decide_eq_true_2; [done|done].
  - rewrite bool_decide_eq_false_2; [done|]. intros ->. by rewrite blank_isspace in E.
Qed.

Lemma strim_spaced s : spaced s →
  ∃ n m, s = replicate n blank ++ strim s ++ replicate m blank ∧ head (strim s) ≠ Some blank ∧ head (reverse (strim s)) ≠ Some blank.
Proof.
  intros Hs. unfold strim. rewrite (skip_spaces_spaced s Hs). destruct (skip_blanks_split s) as (n & E & Hh).
  set (t := skip_blanks s) in *. assert (Ht : spaced (reverse t)).
  { apply Forall_reverse. unfold spaced in Hs. rewrite E in Hs. by apply Forall_app in Hs as [_ ?]. }
  rewrite (skip_spaces_spaced _ Ht). destruct (skip_blanks_split (reverse t)) as (m & E' & Hh'). exists n, m.
  assert (Et : t = reverse (skip_blanks (reverse t)) ++ replicate m blank).
  { rewrite <-(reverse_involutive t) at 1. rewrite E' at 1. by rewrite reverse_app, reverse_replicate. }
  split_and!; [by rewrite <-Et| |by rewrite reverse_involutive].
  intros Hb. apply Hh. rewrite Et. destruct (reverse (skip_blanks (reverse t))); [done|exact Hb].
Qed.

Lemma strim_blanks n m s : spaced s → head s ≠ Some blank → head (reverse s) ≠ Some blank →
  strim (replicate n blank ++ s ++ replicate m blank) = s.
Proof.
  intros Hs Hh Hl. assert (Hb : ∀ k, spaced (replicate k blank)) by (intros k; by apply Forall_replicate; split).
  unfold strim. rewrite (skip_spaces_spaced (replicate n blank ++ s ++ replicate m blank)) by (unfold spaced; rewrite !Forall_app; split_and!; [apply Hb|exact Hs|apply Hb]). rewrite skip_blanks_replicate.
  destruct (decide (s = [])) as [->|Hne].
  - simpl. rewrite <-(app_nil_r (replicate m blank)), skip_blanks_replicate. done.
  - rewrite skip_blanks_id by (by destruct s). rewrite reverse_app, reverse_replicate.
    rewrite skip_spaces_spaced by (unfold spaced; rewrite Forall_app, Forall_reverse; split; [apply Hb|exact Hs]).
    rewrite skip_blanks_replicate, skip_blanks_id by done. apply reverse_involutive.
Qed.

(** ** The positions of a name *)

Section Positions.
Context (name : list ascii) (Hname : attr_name name).

(** The same as [found_at] without the memory in front of the list. *)
Definition starts_entry (l : list ascii) (i : nat) : Prop :=
  match head (skip_blanks (reverse (take i l))) with None => True | Some c => c = comma end.

Definition found_in (l : list ascii) (i : nat) : Prop :=
  occ l name i ∧ starts_entry l i ∧ delim (next_char (drop (i + length name) l)).

Lemma skip_blanks_app s t : skip_blanks (s ++ t) = match skip_blanks s with [] => skip_blanks t | r => r ++ t end.
Proof. induction s as [|c s IH]; [done|]. simpl. destruct (bool_decide _); [done|]. done. Qed.

Lemma found_at_in before l i : head l ≠ Some blank → found_at before l name i ↔ found_in l i.
Proof.
  intros Hl. unfold found_at, found_in, starts_entry, prev_char. rewrite skip_blanks_app.
  destruct (decide (i = 0)) as [->|Hi]; [rewrite take_0; simpl; naive_solver|].
  destruct (skip_blanks (reverse (take i l))) as [|c r] eqn:E; simpl; [|naive_solver].
  destruct l as [|d l].
  - split; [|]; intros ([r Hr] & _); rewrite drop_nil in Hr; destruct Hname as [Hn _]; by destruct name.
  - exfalso. destruct i as [|i]; [done|]. simpl in E. rewrite reverse_cons, skip_blanks_app in E.
    destruct (skip_blanks (reverse (take i l))); [|done]. simpl in E. destruct (bool_decide (d = blank)) eqn:Ed; [|done].
    apply bool_decide_eq_true in Ed. by subst.
Qed.

Lemma occ_app_l e l i : comma ∉ e → occ (e ++ comma :: l) name i → i ≤ length e → i + length name ≤ length e ∧ occ e name i.
Proof.
  intros He [r Hr] Hi. rewrite drop_app_le in Hr by lia. destruct (decide (i + length name ≤ length e)) as [Hle|Hgt].
  - split; [done|]. exists (drop (length name) (drop i e)). apply (f_equal (take (length name))) in Hr.
    rewrite take_app_le in Hr by (rewrite length_drop; lia). rewrite take_app_length in Hr. by rewrite <-Hr, take_drop at 1.
  - exfalso. assert (Hc : comma ∈ name).
    { apply list_elem_of_lookup. exists (length e - i). rewrite <-(lookup_app_l name r) by lia. rewrite <-Hr.
      rewrite lookup_app_r by (rewrite length_drop; lia). rewrite length_drop. by rewrite Nat.sub_diag. }
    destruct Hname as [_ Hn]. rewrite Forall_forall in Hn. apply Hn in Hc as [Hc _]. apply Hc. right. by left.
Qed.

Lemma skip_comma r l : skip_blanks (r ++ comma :: l) = match skip_blanks r with [] => comma :: l | r => r ++ comma :: l end.
Proof. by rewrite skip_blanks_app. Qed.

Lemma delim_app e l n : n ≤ length e → delim (next_char (drop n (e ++ comma :: l))) ↔ delim (next_char (drop n e)).
Proof.
  intros Hn. rewrite drop_app_le by done. unfold next_char. rewrite skip_comma. destruct (skip_blanks (drop n e)); [|done].
  simpl. unfold delim, comma. tauto.
Qed.

Lemma drop_app_comma e l i : length e < i → drop i (e ++ comma :: l) = drop (i - length e - 1) l.
Proof. intros Hi. rewrite drop_app_ge by lia. assert (E : i - length e = S (i - length e - 1)) by lia. by rewrite E at 1. Qed.

Lemma starts_entry_app e l i : length e < i → starts_entry (e ++ comma :: l) i ↔ starts_entry l (i - length e - 1).
Proof.
  intros Hi. unfold starts_entry. rewrite take_app_ge by lia. assert (E : i - length e = S (i - length e - 1)) by lia.
  rewrite E at 1. cbn [take]. rewrite reverse_app, reverse_cons, <-app_assoc. simpl.
  rewrite skip_blanks_app. by destruct (skip_blanks _).
Qed.

Lemma found_in_app e l i : comma ∉ e →
  found_in (e ++ comma :: l) i ↔ (i ≤ length e ∧ found_in e i) ∨ (length e < i ∧ found_in l (i - length e - 1)).
Proof.
  intros He. destruct (decide (i ≤ length e)) as [Hi|Hi].
  - assert (Hs : starts_entry (e ++ comma :: l) i ↔ starts_entry e i) by (unfold starts_entry; by rewrite take_app_le by lia).
    split.
    + intros (Ho & Hst & Hd). left. split; [done|]. destruct (occ_app_l _ _ _ He Ho Hi) as [Hle Ho'].
      split; [done|]. split; [by apply Hs|]. by eapply delim_app.
    + intros [[_ (Ho & Hst & Hd)]|[? _]]; [|lia]. pose proof (occ_bound _ _ _ (proj1 Hname) Ho). split.
      * destruct Ho as [r Hr]. exists (r ++ comma :: l). rewrite drop_app_le, Hr by lia. by rewrite app_assoc.
      * split; [by apply Hs|]. by apply delim_app; [lia|].
  - unfold found_in, occ. rewrite starts_entry_app, !drop_app_comma by lia.
    replace (i + length name - length e - 1) with (i - length e - 1 + length name) by lia.
    split; [intros ?; right; split; [lia|done]|]. intros [[? _]|[_ ?]]; [lia|done].
Qed.

Lemma until_delim_app r l : until_delim (r ++ comma :: l) = until_delim r.
Proof.
  induction r as [|c r IH]; simpl; [done|]. by rewrite IH.
Qed.

Lemma attributes_app_l e l i : i + length name ≤ length e → attributes_at (e ++ comma :: l) name i = attributes_at e name i.
Proof.
  intros Hi. unfold attributes_at. rewrite drop_app_le by done. rewrite skip_comma.
  destruct (skip_blanks (drop (i + length name) e)) as [|c r]; [done|]. simpl. destruct (bool_decide _); [|done].
  rewrite skip_comma. destruct (skip_blanks r) as [|d r']; [done|]. apply until_delim_app.
Qed.

Lemma attributes_app_r e l i : length e < i → attributes_at (e ++ comma :: l) name i = attributes_at l name (i - length e - 1).
Proof.
  intros Hi. unfold attributes_at. rewrite drop_app_comma by lia. by replace (i + length name - length e - 1) with (i - length e - 1 + length name) by lia.
Qed.

(** ** One entry *)

(** The text up to the first blank. *)
Fixpoint first_word (s : list ascii) : list ascii :=
  match s with c :: r => if bool_decide (c = blank) then [] else c :: first_word r | [] => [] end.

Lemma until_first_word s : comma ∉ s → until_delim s = first_word s.
Proof.
  induction s as [|c s IH]; [done|]. intros [Hc Hs]%not_elem_of_cons. simpl. rewrite IH by done.
  rewrite (bool_decide_ext (c = ENV_ATTR_LIST_DELIM ∨ c = blank) (c = blank)); [done|]. split; [intros [->|?]; [done|done]|by right].
Qed.

Lemma first_word_blanks s m : first_word (s ++ replicate m blank) = first_word s.
Proof. induction s as [|c s IH]; simpl; [by destruct m|]. by rewrite IH. Qed.

Lemma first_word_strim s : spaced s → first_word (skip_blanks s) = first_word (strim s).
Proof.
  intros Hs. destruct (strim_spaced s Hs) as (n & m & E & Hh & _). rewrite E at 1. rewrite skip_blanks_replicate.
  destruct (decide (strim s = [])) as [->|Hne].
  - simpl. rewrite <-(app_nil_r (replicate m blank)), skip_blanks_replicate. done.
  - rewrite skip_blanks_id by (by destruct (strim s)). apply first_word_blanks.
Qed.

Lemma name_head : head name ≠ Some blank ∧ head (reverse name) ≠ Some blank.
Proof.
  destruct Hname as [_ Hn]. rewrite Forall_forall in Hn. split; intros Hb.
  - destruct name as [|c r]; [done|]. injection Hb as ->. by destruct (Hn blank ltac:(left)).
  - destruct (reverse name) as [|c r] eqn:E; [done|]. injection Hb as ->. destruct (Hn blank); [|done].
    apply elem_of_reverse. rewrite E. left.
Qed.

(** The shape of an entry with the name. *)
Definition shape (e : list ascii) (n m : nat) (attrs : option (list ascii)) : Prop :=
  e = replicate n blank ++ name ++ replicate m blank ++ from_option (cons ENV_ATTR_SEP) [] attrs.

Lemma shape_found e n m attrs : shape e n m attrs → found_in e n.
Proof.
  intros ->. unfold found_in, occ, starts_entry. rewrite drop_app_length' by (by rewrite length_replicate).
  rewrite take_app_length' by (by rewrite length_replicate). split; [by eexists|]. split.
  - rewrite reverse_replicate, <-(app_nil_r (replicate n blank)), skip_blanks_replicate. done.
  - rewrite app_assoc, drop_app_length' by (rewrite length_app, length_replicate; done). unfold next_char.
    rewrite skip_blanks_replicate. unfold delim. destruct attrs; simpl; [by left|by right; right].
Qed.

Lemma sep_not_in n m : ENV_ATTR_SEP ∉ replicate n blank ++ name ++ replicate m blank.
Proof.
  rewrite !not_elem_of_app. assert (Hb : ∀ k, ENV_ATTR_SEP ∉ replicate k blank) by (intros k [E _]%elem_of_replicate; done).
  split_and!; [apply Hb| |apply Hb]. intros Hc. destruct Hname as [_ Hn]. rewrite Forall_forall in Hn. apply Hn in Hc as [Hc _].
  apply Hc. by left.
Qed.

Lemma shape_parse e n m attrs : spaced e → shape e n m attrs → parse_entry e = (name, strim <$> attrs).
Proof.
  intros Hs He. destruct name_head as [Hh Hl]. assert (Hsn : spaced name).
  { unfold spaced in *. rewrite He, !Forall_app in Hs. tauto. }
  rewrite He. unfold parse_entry. rewrite !app_assoc, <-(app_assoc (replicate n blank)).
  destruct attrs as [a|]; simpl.
  - rewrite strchr_app by apply sep_not_in. rewrite take_app_length. rewrite strim_blanks by done.
    rewrite Nat.add_1_r. rewrite drop_app_ge by lia. by rewrite Nat.sub_succ_l, Nat.sub_diag by done.
  - rewrite app_nil_r. pose proof (strchr_spec (replicate n blank ++ name ++ replicate m blank) ENV_ATTR_SEP) as Hc.
    destruct (strchr _ _) as [i|]; [|by rewrite strim_blanks].
    destruct Hc as (E & _ & _). destruct (sep_not_in n m). rewrite E. apply elem_of_app. right. left.
Qed.

Lemma shape_attributes e n m attrs : spaced e → comma ∉ e → shape e n m attrs → attributes_at e name n = first_word (default [] (strim <$> attrs)).
Proof.
  intros Hs Hc He. unfold attributes_at. rewrite He. rewrite app_assoc, drop_app_length' by (rewrite length_app, length_replicate; done).
  rewrite skip_blanks_replicate. destruct attrs as [a|]; [|done]. cbn [from_option].
  assert (Ha : spaced a ∧ comma ∉ a).
  { unfold spaced in *. rewrite He, !Forall_app in Hs. rewrite He, !not_elem_of_app in Hc. cbn [from_option] in Hs, Hc.
    destruct Hs as (_ & _ & _ & Hs). destruct Hc as (_ & _ & _ & Hc). apply Forall_cons in Hs as [_ Hs]. by apply not_elem_of_cons in Hc as [_ Hc]. }
  destruct Ha as [Hsa Hca]. 
  simpl. rewrite <-first_word_strim by done. apply until_first_word. destruct (skip_blanks_split a) as (k & E & _).
  rewrite E, not_elem_of_app in Hca. tauto.
Qed.

(** An entry found at a position has that shape, and there is one for an entry
    with the name. *)
Lemma blanks_only s : skip_blanks s = [] → s = replicate (length s) blank.
Proof.
  intros E. destruct (skip_blanks_split s) as (n & Es & _). rewrite E, app_nil_r in Es. rewrite Es at 1. by rewrite Es, length_replicate.
Qed.

Lemma found_shape e i : spaced e → comma ∉ e → found_in e i → ∃ m attrs, shape e i m attrs.
Proof.
  intros Hs Hc (Ho & Hst & Hd). pose proof (occ_bound _ _ _ (proj1 Hname) Ho) as Hb. destruct Ho as [r Hr].
  assert (Ht : take i e = replicate i blank).
  { unfold starts_entry in Hst. assert (E : skip_blanks (reverse (take i e)) = []).
    { destruct (skip_blanks_split (reverse (take i e))) as (n & E & _). destruct (skip_blanks (reverse (take i e))) as [|c t]; [done|].
      simpl in Hst. subst c. destruct Hc. rewrite <-(take_drop i e). apply elem_of_app. left. apply elem_of_reverse. rewrite E.
      apply elem_of_app. right. left. }
    apply blanks_only in E. rewrite length_reverse, length_take in E. rewrite <-(reverse_involutive (take i e)), E, reverse_replicate.
    f_equal. lia. }
  assert (Ee : e = replicate i blank ++ name ++ r) by (by rewrite <-Ht, <-Hr, take_drop).
  assert (Er : drop (i + length name) e = r) by (rewrite <-drop_drop, Hr; apply drop_app_length). rewrite Er in Hd.
  destruct (skip_blanks_split r) as (m & Em & _). exists m. unfold next_char in Hd.
  destruct (skip_blanks r) as [|c a] eqn:E; [exists None; by rewrite Ee, Em|]. exists (Some a).
  assert (Hin : c ∈ e). { rewrite Ee, Em. rewrite !elem_of_app. right. right. right. left. }
  simpl in Hd. destruct Hd as [->|[->| ->]]; [by unfold shape; rewrite Ee, Em|done|].
  unfold spaced in Hs. rewrite Forall_forall in Hs. by apply Hs in Hin as [_ Hin].
Qed.

Lemma parse_shape e attrs : spaced e → parse_entry e = (name, attrs) → ∃ n m attrs', shape e n m attrs'.
Proof.
  intros Hs. unfold parse_entry. pose proof (strchr_spec e ENV_ATTR_SEP) as Hc. destruct (strchr e ENV_ATTR_SEP) as [i|].
  - intros [= E _]. destruct Hc as (Ee & _ & _). destruct (strim_spaced (take i e)) as (n & m & Et & _).
    { unfold spaced in *. rewrite Ee, Forall_app in Hs. tauto. }
    exists n, m, (Some (drop (i + 1) e)). unfold shape. rewrite Ee at 1. rewrite Et, E. cbn [from_option]. by rewrite <-!app_assoc.
  - intros [= E _]. destruct (strim_spaced e Hs) as (n & m & Et & _). exists n, m, None. unfold shape. cbn [from_option].
    rewrite Et at 1. by rewrite E, app_nil_r.
Qed.

(** ** The whole list *)

Definition ref_lookup (l : list ascii) : option (option (list ascii)) :=
  snd <$> last (filter (λ p, p.1 = name) (attrs_of l)).

Lemma ref_lookup_app e l : comma ∉ e →
  ref_lookup (e ++ comma :: l) = match ref_lookup l with Some a => Some a | None => ref_lookup e end.
Proof.
  intros He. unfold ref_lookup. rewrite attrs_of_app, filter_app by done.
  assert (E : filter (λ p, p.1 ≠ []) [parse_entry e] = attrs_of e) by (unfold attrs_of; by rewrite entries_single).
  rewrite E, last_app. by destruct (last (filter _ (attrs_of l))).
Qed.

Lemma ref_lookup_single e : comma ∉ e → ref_lookup e = if decide ((parse_entry e).1 = name) then Some (parse_entry e).2 else None.
Proof.
  intros He. unfold ref_lookup, attrs_of. rewrite entries_single by done. simpl. rewrite filter_cons, filter_nil.
  destruct (parse_entry e) as [n a]. simpl. destruct (decide (n ≠ [])) as [Hn|Hn]; rewrite ?filter_cons, ?filter_nil; simpl.
  - by destruct (decide (n = name)).
  - apply dec_stable in Hn. subst n. destruct Hname as [Hnn _]. by destruct (decide ([] = name)).
Qed.

Lemma last_found_ref l r : spaced l → is_last (found_in l) r →
  match r with
  | Some i => ∃ attrs, ref_lookup l = Some attrs ∧ attributes_at l name i = first_word (default [] attrs)
  | None => ref_lookup l = None
  end.
Proof.
  revert r. induction l as [e He|e l He IH] using entries_ind; intros r Hs Hr.
  - rewrite ref_lookup_single by done. destruct r as [i|].
    + destruct Hr as [Hi _]. destruct (found_shape e i Hs He Hi) as (m & attrs & Hsh).
      rewrite (shape_parse e i m attrs Hs Hsh). simpl. rewrite decide_True by done. eexists. split; [done|]. by eapply shape_attributes.
    + destruct (decide _) as [E|]; [|done]. destruct (parse_entry e) as [n a] eqn:Ep. simpl in E. subst n.
      destruct (parse_shape e a Hs Ep) as (n & m & attrs & Hsh). destruct (Hr n). by eapply shape_found.
  - assert (Hse : spaced e ∧ spaced l).
    { unfold spaced in *. apply Forall_app in Hs as [? Hs]. by apply Forall_cons in Hs as [_ ?]. }
    destruct Hse as [Hse Hsl]. rewrite ref_lookup_app by done.
    assert (Hin : ∀ j, found_in l j → found_in (e ++ comma :: l) (length e + 1 + j)).
    { intros j Hj. apply found_in_app; [done|]. right. split; [lia|]. by replace (length e + 1 + j - length e - 1) with j by lia. }
    destruct r as [i|].
    + destruct Hr as [Hi Hmax]. apply found_in_app in Hi as [[Hle Hi]|[Hlt Hi]]; [| |done].
      * rewrite (IH None Hsl). 2: { intros j Hj. specialize (Hmax _ (Hin j Hj)). lia. }
        rewrite attributes_app_l by (eapply occ_bound; [apply Hname|apply Hi]).
        rewrite ref_lookup_single by done. destruct (found_shape e i Hse He Hi) as (m & attrs & Hsh).
        rewrite (shape_parse e i m attrs Hse Hsh). simpl. rewrite decide_True by done. eexists. split; [done|]. by eapply shape_attributes.
      * destruct (IH (Some (i - length e - 1)) Hsl) as (attrs & Ea & Et).
        { split; [done|]. intros j Hj. specialize (Hmax _ (Hin j Hj)). lia. }
        rewrite Ea, attributes_app_r by lia. by exists attrs.
    + rewrite (IH None Hsl). 2: { intros j Hj. by apply (Hr _ (Hin j Hj)). }
      rewrite ref_lookup_single by done. destruct (decide _) as [E|]; [|done]. destruct (parse_entry e) as [n a] eqn:Ep. simpl in E. subst n.
      destruct (parse_shape e a Hse Ep) as (n & m & attrs & Hsh). pose proof (shape_found e n m attrs Hsh) as Hf.
      destruct (Hr n). apply found_in_app; [done|]. left. split; [|done]. destruct Hf as [Ho _].
      apply occ_bound in Ho; [lia|apply Hname].
Qed.

Lemma env_attr_lookup_ok before l size : spaced l → head l ≠ Some blank → (∃ c r, before = c :: r ∧ c ≠ blank) →
  env_attr_lookup before (Some l) name (Some size) =
    match ref_lookup l with
    | Some attrs => let text := first_word (default [] attrs) in if length text <? size then Some (0%Z, Some text) else None
    | None => Some (2%Z, None)
    end.
Proof.
  intros Hs Hl Hb. destruct (found_last before l name Hname Hb) as (r & Er & Hr). unfold env_attr_lookup.
  destruct (reverse_strstr l name None) as [e|]; [|done]. cbn [mbind option_bind] in Er |- *. rewrite Er. cbn [mbind option_bind].
  assert (Hr' : is_last (found_in l) r).
  { destruct r as [i|]; simpl in *.
    - destruct Hr as [Hi Hm]. split; [by eapply found_at_in|]. intros j Hj. apply Hm. by apply found_at_in.
    - intros j Hj. apply (Hr j). by apply found_at_in. }
  pose proof (last_found_ref l r Hs Hr') as Href. destruct r as [i|]; [|by rewrite Href].
  destruct Href as (attrs & -> & ->). done.
Qed.

End Positions.

(** An empty name, as in [setenv "" value], is found again and again at the
    start of the list: the search does not end. *)
Lemma empty_name_endless k before c l : (∃ d r, before = d :: r ∧ d ≠ blank) → ¬ delim c → c ≠ blank →
  lookup_loop k before (c :: l) [] (Some 0) = None.
Proof.
  intros (d & r & -> & Hd) Hc Hb. induction k as [|k IH]; [done|].
  assert (Hp : prev_char (d :: r) (c :: l) 0 = Some d).
  { unfold prev_char. cbn [take reverse]. simpl. by rewrite bool_decide_eq_false_2. }
  assert (Hn : next_char (c :: l) = c) by (unfold next_char; simpl; by rewrite bool_decide_eq_false_2).
  cbn [lookup_loop]. rewrite Hp. cbn [mbind option_bind length Nat.add Nat.eqb orb andb drop]. rewrite Hn. unfold delim in Hc.
  rewrite !bool_decide_eq_false_2 by tauto. exact IH.
Qed.
