(* ===== verification/EnvFlags.v ===== *)
(** * Types, access rights and callbacks of variables: data and operations

    Translation of [common/env_flags.c] as compiled into U-Boot, and of
    [common/env_callback.c]: the attributes in the variables [.flags] and
    [.callbacks] and in the static lists give each variable a type, an access
    right and a function to call. [None] stands for an access outside of memory
    or a loop that does not end. The configuration is the one with
    [CONFIG_CMD_NET] and without [CONFIG_ENV_ACCESS_IGNORE_FORCE]. *)

From S2P Require Import Prelude Word32 Ctype HashProbe Hashtable HashExport EnvCommon EnvAttr.
From stdpp Require Import base option list strings.
From Stdlib Require Import ZArith Lia Ascii.
Local Open Scope Z_scope.

Definition chars_of (s : string) : list ascii := String.list_ascii_of_string s.
Definition string_of (l : list ascii) : string := String.string_of_list_ascii l.

(** ** Types and access rights *)

Definition env_flags_vartype_string : Z := 0.
Definition env_flags_vartype_decimal : Z := 1.
Definition env_flags_vartype_hex : Z := 2.
Definition env_flags_vartype_bool : Z := 3.
Definition env_flags_vartype_ipaddr : Z := 4.
Definition env_flags_vartype_macaddr : Z := 5.
Definition env_flags_vartype_end : Z := 6.

Definition env_flags_varaccess_any : Z := 0.
Definition env_flags_varaccess_readonly : Z := 1.
Definition env_flags_varaccess_writeonce : Z := 2.
Definition env_flags_varaccess_changedefault : Z := 3.

Definition ENV_FLAGS_ATTR_MAX_LEN : nat := 2.
Definition ENV_FLAGS_VARTYPE_LOC : nat := 0.
Definition ENV_FLAGS_VARACCESS_LOC : nat := 1.

Definition ENV_FLAGS_VARTYPE_BIN_MASK : Z := 0x07.
Definition ENV_FLAGS_VARACCESS_PREVENT_DELETE : Z := 0x08.
Definition ENV_FLAGS_VARACCESS_PREVENT_CREATE : Z := 0x10.
Definition ENV_FLAGS_VARACCESS_PREVENT_OVERWR : Z := 0x20.
Definition ENV_FLAGS_VARACCESS_PREVENT_NONDEF_OVERWR : Z := 0x40.
Definition ENV_FLAGS_VARACCESS_BIN_MASK : Z := 0x78.

Definition env_flags_vartype_rep : list ascii := ["s"; "d"; "x"; "b"; "i"; "m"]%char.
Definition env_flags_varaccess_rep : list ascii := ["a"; "r"; "o"; "c"]%char.

Definition env_flags_varaccess_mask : list Z := [
  0;
  Z.lor (Z.lor ENV_FLAGS_VARACCESS_PREVENT_DELETE ENV_FLAGS_VARACCESS_PREVENT_CREATE) ENV_FLAGS_VARACCESS_PREVENT_OVERWR;
  Z.lor ENV_FLAGS_VARACCESS_PREVENT_DELETE ENV_FLAGS_VARACCESS_PREVENT_OVERWR;
  Z.lor ENV_FLAGS_VARACCESS_PREVENT_DELETE ENV_FLAGS_VARACCESS_PREVENT_NONDEF_OVERWR].

(** The character at [loc] of [flags], looked up in [rep]. *)
Definition parse_flag (rep : list ascii) (loc : nat) (flags : list ascii) : Z :=
  match flags !! loc with
  | None => 0
  | Some c => match strchr rep c with Some i => Z.of_nat i | None => 0 end
  end.

Definition env_flags_parse_vartype (flags : list ascii) : Z := parse_flag env_flags_vartype_rep ENV_FLAGS_VARTYPE_LOC flags.
Definition env_flags_parse_varaccess (flags : list ascii) : Z := parse_flag env_flags_varaccess_rep ENV_FLAGS_VARACCESS_LOC flags.

(** The loop runs to the size of the array in bytes. *)
Fixpoint binflags_loop (k : nat) (i : nat) (access : Z) : option Z :=
  match k with
  | O => Some env_flags_varaccess_any
  | S k =>
      m ← env_flags_varaccess_mask !! i;
      if m =? access then Some (Z.of_nat i) else binflags_loop k (S i) access
  end.

Definition env_flags_parse_varaccess_from_binflags (binflags : Z) : option Z :=
  binflags_loop (4 * length env_flags_varaccess_mask) 0 (Z.land binflags ENV_FLAGS_VARACCESS_BIN_MASK).

(** ** Checking values *)

Definition char_in (s : list ascii) (c : ascii) : bool := existsb (λ d, bool_decide (d = c)) s.

Definition is_hex_prefix (value : list ascii) : bool :=
  match value with c :: d :: _ => bool_decide (c = "0"%char) && char_in ["x"; "X"]%char d | _ => false end.

Definition isxdigit (c : ascii) : bool := Ctype.isxdigit (byte_of c).
Definition isdigit (c : ascii) : bool := Ctype.isdigit (byte_of c).

(** The loop; [None] is the number -1, from which it does not come to 0. *)
Fixpoint skip_digits (hex : bool) (value : list ascii) (i : option nat) : list ascii :=
  match i, value with
  | Some O, _ => value
  | _, c :: r => if if hex then isxdigit c else isdigit c then skip_digits hex r (pred <$> i) else value
  | _, [] => []
  end.

Definition skip_num (hex : bool) (value : list ascii) (max_digits : option nat) : list ascii :=
  skip_digits hex (if hex && is_hex_prefix value then drop 2 value else value) max_digits.

(** [*end], and the string after it. *)
Definition at_end (e : list ascii) : ascii := default NUL (head e).

(** Each group of an address: [last] is the test [i == 3] or [i == 5]. *)
Definition ip_group (last : bool) (cur e : list ascii) : bool :=
  negb (length cur =? length e)%nat &&
  (last || bool_decide (at_end e = "."%char)) && (negb last || bool_decide (at_end e = NUL)).

Fixpoint ip_loop (k : nat) (cur : list ascii) : bool :=
  match k with
  | O => true
  | S k =>
      let e := skip_num false cur (Some 3%nat) in
      if ip_group (k =? 0)%nat cur e then ip_loop k (tail e) else false
  end.

Definition mac_group (last : bool) (cur e : list ascii) : bool :=
  negb (length cur =? length e)%nat && negb ((length cur =? length e + 2)%nat && is_hex_prefix cur) &&
  (last || bool_decide (at_end e = ":"%char)) && (negb last || bool_decide (at_end e = NUL)).

Fixpoint mac_loop (k : nat) (cur : list ascii) : bool :=
  match k with
  | O => true
  | S k =>
      let e := skip_num true cur (Some 2%nat) in
      if mac_group (k =? 0)%nat cur e then mac_loop k (tail e) else false
  end.

(** Whether the result is 0, and not -1; the numbers that are no type are not
    in the [switch]. *)
Definition _env_flags_validate_type (value : list ascii) (type : Z) : bool :=
  if type =? env_flags_vartype_string then true
  else if type =? env_flags_vartype_decimal then bool_decide (at_end (skip_num false value None) = NUL)
  else if type =? env_flags_vartype_hex then
    let e := skip_num true value None in
    bool_decide (at_end e = NUL) && negb ((length value =? length e + 2)%nat && is_hex_prefix value)
  else if type =? env_flags_vartype_bool then
    char_in ["1"; "y"; "t"; "Y"; "T"; "0"; "n"; "f"; "N"; "F"]%char (at_end value) && bool_decide (tail value = [])
  else if type =? env_flags_vartype_ipaddr then ip_loop 4 value
  else if type =? env_flags_vartype_macaddr then mac_loop 6 value
  else if type =? env_flags_vartype_end then false
  else true.

(** ** The attribute lists *)

(** What a board configures: the static lists, the callbacks that the linker
    collects, and the memory in front of the lists (from its end). *)
Class AttrConfig := {
  ENV_FLAGS_LIST_STATIC : list ascii;
  ENV_CALLBACK_LIST_STATIC : list ascii;
  env_clbk : list (string * positive);
  static_before : list ascii;
  heap_before : list ascii;
}.

Section Flags.
Context `{AttrConfig}.

(** The lookup in a list from the environment, if there is one, and then in a
    static list; the text is stored in a buffer of [size] characters. *)
Definition attr_search (dynamic : option (list ascii)) (static name : list ascii) (size : nat) : option (Z * option (list ascii)) :=
  r ← match dynamic with
      | Some l => env_attr_lookup heap_before (Some l) name (Some size)
      | None => Some (1, None)
      end;
  if r.1 =? 0 then Some r else env_attr_lookup static_before (Some static) name (Some size).

Definition env_flags_lookup (flags_list : option (list ascii)) (name : list ascii) : option (Z * option (list ascii)) :=
  attr_search flags_list ENV_FLAGS_LIST_STATIC name (S ENV_FLAGS_ATTR_MAX_LEN).

(** The functions that [tools/env] uses: [flags_list] is what [fw_getenv]
    returns for [.flags]. *)
Definition env_flags_get_type (flags_list : option (list ascii)) (name : list ascii) : option Z :=
  '(ret, flags) ← env_flags_lookup flags_list name;
  Some (if negb (ret =? 0) then env_flags_vartype_string else env_flags_parse_vartype (default [] flags)).

Definition env_flags_get_varaccess (flags_list : option (list ascii)) (name : list ascii) : option Z :=
  '(ret, flags) ← env_flags_lookup flags_list name;
  Some (if negb (ret =? 0) then env_flags_varaccess_any else env_flags_parse_varaccess (default [] flags)).

Definition env_flags_validate_type (flags_list : option (list ascii)) (name : list ascii) (value : option (list ascii)) : option Z :=
  match value with
  | None => Some 0
  | Some value =>
      type ← env_flags_get_type flags_list name;
      Some (if _env_flags_validate_type value type then 0 else -1)
  end.

Definition env_flags_validate_varaccess (flags_list : option (list ascii)) (name : list ascii) (check_mask : Z) : option Z :=
  access ← env_flags_get_varaccess flags_list name;
  Some (if Z.land check_mask (env_flags_varaccess_mask !!! Z.to_nat access) =? 0 then 0 else 1).

(** [argv] begins with the name of the command. *)
Definition env_flags_validate_env_set_params (flags_list : option (list ascii)) (argv : list (list ascii)) : option Z :=
  match argv with
  | _ :: name :: value :: rest =>
      type ← env_flags_get_type flags_list name;
      if negb (type =? env_flags_vartype_string) && (0 <? length rest)%nat then Some (-1)
      else env_flags_validate_type flags_list name (Some value)
  | _ => Some 0
  end.

Definition env_parse_flags_to_bin (flags : list ascii) : Z :=
  Z.lor (Z.land (env_flags_parse_vartype flags) ENV_FLAGS_VARTYPE_BIN_MASK)
    (env_flags_varaccess_mask !!! Z.to_nat (env_flags_parse_varaccess flags)).

(** [flags_list] is what [getenv] returns for [.flags]. *)
Definition env_flags_init (flags_list : option (list ascii)) (var_entry : ENTRY) : option ENTRY :=
  '(ret, flags) ← env_flags_lookup flags_list (chars_of (default EmptyString (key var_entry)));
  let flags := default [] flags in
  Some (if (ret =? 0) && negb (length flags =? 0)%nat
        then mkENTRY (key var_entry) (data var_entry) (callback var_entry) (env_parse_flags_to_bin flags)
        else var_entry).

(** ** Updating all the variables *)

(** [hwalk_r] with a callback that changes the entry and returns 0. *)
Fixpoint hwalk_update (k i : nat) (f : ENTRY → ENTRY) (htab : hsearch_data) : hsearch_data :=
  match k with
  | O => htab
  | S k =>
      let s := slot htab i in
      hwalk_update k (S i) f (if live s then set_slot i (mkSlot (used s) (f (entry s))) htab else htab)
  end.

Definition clear_flags (e : ENTRY) : ENTRY := mkENTRY (key e) (data e) (callback e) 0.

Definition clear_callback (e : ENTRY) : ENTRY := mkENTRY (key e) (data e) None (flags e).

Context `{EnvHooks}.

(** Change the entry that [hsearch_r] finds. *)
Definition update_found (name : list ascii) (f : ENTRY → ENTRY) (htab : hsearch_data) : hsearch_data :=
  let '(r, htab) := hsearch_r (string_of name) None FIND htab 0 in
  match h_retval r with
  | Some i => let s := slot htab i in set_slot i (mkSlot (used s) (f (entry s))) htab
  | None => htab
  end.

Definition set_flags (name : list ascii) (value : option (list ascii)) (htab : hsearch_data) : Z * hsearch_data :=
  let v := default [] value in
  (0, update_found name (λ e, mkENTRY (key e) (data e) (callback e)
    (if (length v =? 0)%nat then 0 else env_parse_flags_to_bin v)) htab).

Definition on_flags (value : option (list ascii)) (htab : hsearch_data) : option (Z * hsearch_data) :=
  let htab := hwalk_update (Hashtable.size htab) 1 clear_flags htab in
  '(_, htab) ← env_attr_walk calloc_ok set_flags (Some ENV_FLAGS_LIST_STATIC) htab;
  '(_, htab) ← env_attr_walk calloc_ok set_flags value htab;
  Some (0, htab).

(** ** Permission to change a variable *)

(** [getenv_default]. *)
Context (getenv_default : string → option string).

Definition env_flags_validate (item : ENTRY) (newval : option string) (op : env_op) (flag : Z) : Z :=
  let newval := default EmptyString newval in
  let type := Z.land ENV_FLAGS_VARTYPE_BIN_MASK (flags item) in
  if match op with env_op_delete => false | _ => negb (_env_flags_validate_type (chars_of newval) type) end then -1
  else if negb (Z.land flag H_FORCE =? 0) then 0
  else
    let prevented m := negb (Z.land (flags item) m =? 0) in
    match op with
    | env_op_delete => if prevented ENV_FLAGS_VARACCESS_PREVENT_DELETE then 1 else 0
    | env_op_overwrite =>
        if prevented ENV_FLAGS_VARACCESS_PREVENT_OVERWR then 1
        else if prevented ENV_FLAGS_VARACCESS_PREVENT_NONDEF_OVERWR then
          let defval := default EmptyString (getenv_default (default EmptyString (key item))) in
          if bool_decide (data item = Some defval) then 0 else 1
        else 0
    | env_op_create => if prevented ENV_FLAGS_VARACCESS_PREVENT_CREATE then 1 else 0
    end.

(** As the member [change_ok] of the table. *)
Definition validate_hook (item : ENTRY) (newval : option string) (op : env_op) (flag : Z) : bool :=
  negb (env_flags_validate item newval op flag =? 0).

(** ** Callbacks *)

Fixpoint find_callback (l : list (string * positive)) (name : string) : option positive :=
  match l with
  | [] => None
  | (n, cb) :: l => if bool_decide (name = n) then Some cb else find_callback l name
  end.

Definition find_env_callback (name : list ascii) : option positive := find_callback env_clbk (string_of name).

Definition set_found_callback (name : list ascii) (e : ENTRY) : ENTRY :=
  match find_env_callback name with
  | Some cb => mkENTRY (key e) (data e) (Some cb) (flags e)
  | None => e
  end.

(** [callback_list] is what [getenv] returns for [.callbacks]. *)
Definition env_callback_init (callback_list : option (list ascii)) (var_entry : ENTRY) : option ENTRY :=
  '(ret, callback_name) ← attr_search callback_list ENV_CALLBACK_LIST_STATIC (chars_of (default EmptyString (key var_entry))) 256;
  let callback_name := default [] callback_name in
  Some (if (ret =? 0) && negb (length callback_name =? 0)%nat then set_found_callback callback_name var_entry else var_entry).

Definition set_callback (name : list ascii) (value : option (list ascii)) (htab : hsearch_data) : Z * hsearch_data :=
  let v := default [] value in
  (0, update_found name (λ e, if (length v =? 0)%nat then clear_callback e else set_found_callback v e) htab).

Definition on_callbacks (value : option (list ascii)) (htab : hsearch_data) : option (Z * hsearch_data) :=
  let htab := hwalk_update (Hashtable.size htab) 1 clear_callback htab in
  '(_, htab) ← env_attr_walk calloc_ok set_callback (Some ENV_CALLBACK_LIST_STATIC) htab;
  '(_, htab) ← env_attr_walk calloc_ok set_callback value htab;
  Some (0, htab).

End Flags.

(** ** The functions that the table calls *)

(** A search with [FIND] calls none of them. *)
Definition find_only : EnvHooks := {|
  run_callback _ _ _ _ _ := false;
  Hashtable.env_callback_init _ _ := None;
  Hashtable.env_flags_init _ _ := 0;
  strdup := Some;
  calloc_ok _ := true;
|}.

(** [getenv] after the import. *)
Definition getenv_in (htab : hsearch_data) (name : string) : option (list ascii) :=
  match h_retval (hsearch_r (H := find_only) name None FIND htab 0).1 with
  | Some i => chars_of <$> data (entry (slot htab i))
  | None => None
  end.

(** The hooks of U-Boot: the two initialisations are those of this file. A name
    for which they access memory outside of the lists or do not end (the empty
    one, see [EnvAttrSpec.empty_name_endless]) leaves the entry as it is, so that
    theorems about these hooks say nothing about such a name. *)
Definition attr_hooks `{AttrConfig} (run : positive → string → option string → env_op → Z → bool)
    (dup : string → option string) (alloc : nat → bool) : EnvHooks := {|
  run_callback := run;
  Hashtable.env_callback_init htab e := callback (default e (env_callback_init (getenv_in htab ".callbacks") e));
  Hashtable.env_flags_init htab e := flags (default e (env_flags_init (getenv_in htab ".flags") e));
  strdup := dup;
  calloc_ok := alloc;
|}.

(** ** Callbacks that change the table

    [U_BOOT_ENV_CALLBACK(flags, on_flags)] and
    [U_BOOT_ENV_CALLBACK(callbacks, on_callbacks)]: these two accept every
    change ([run_callback] is false for them) and update all the entries. The
    other callbacks leave the table alone. *)
Section Live.
Context `{AttrConfig, EnvHooks}.

Definition is_callback (name : string) (cb : option positive) : bool :=
  match cb with Some p => bool_decide (find_callback env_clbk name = Some p) | None => false end.

Definition table_callback (cb : option positive) (value : option (list ascii)) (htab : hsearch_data) : option hsearch_data :=
  if is_callback "flags" cb then '(_, htab) ← on_flags value htab; Some htab
  else if is_callback "callbacks" cb then '(_, htab) ← on_callbacks value htab; Some htab
  else Some htab.

(** [hsearch_r] with such callbacks: [ENTER] calls the one of the entry for the
    value that it stores. For an entry that exists the code calls it before the
    value is stored; the update reads and writes no values. *)
Definition env_hsearch_r (item_key : string) (item_data : option string) (action : ACTION)
    (htab : hsearch_data) (flag : Z) : option (hret * hsearch_data) :=
  let '(r, htab) := hsearch_r item_key item_data action htab flag in
  match action, item_data, h_retval r with
  | ENTER, Some d, Some i =>
      htab ← table_callback (callback (entry (slot htab i))) (Some (chars_of d)) htab;
      Some (r, htab)
  | _, _, _ => Some (r, htab)
  end.

(** [hdelete_r] with such callbacks. *)
Definition env_hdelete_r (ky : string) (htab : hsearch_data) (flag : Z) : option (hret * hsearch_data) :=
  let '(r, htab) := hsearch_r ky None FIND htab 0 in
  let idx := h_ret r in
  if (idx =? 0)%nat then Some (mkRet 0 None (Some ESRCH), htab)
  else
    let e := entry (slot htab idx) in
    if match change_ok htab with Some f => f e None env_op_delete flag | None => false end
    then Some (mkRet 0 None (Some EPERM), htab)
    else if match callback e with
            | Some cb => run_callback cb ky None env_op_delete flag | None => false end
    then Some (mkRet 0 None (Some EINVAL), htab)
    else
      htab ← table_callback (callback e) None htab;
      Some (mkRet 1 None None, _hdelete idx htab).

End Live.

(** Flags that are no combination from the table: the loop goes on behind the
    array. *)
Example binflags_outside : env_flags_parse_varaccess_from_binflags 0x08 = None.
Proof. reflexivity. Qed.

(** What the checks let through. *)
Example odd_ip : _env_flags_validate_type (chars_of "999.0.00.1") env_flags_vartype_ipaddr = true.
Proof. reflexivity. Qed.
Example odd_mac : _env_flags_validate_type (chars_of "0x00:1:2:3:4:0Xff") env_flags_vartype_macaddr = true.
Proof. reflexivity. Qed.
Example odd_decimal : _env_flags_validate_type [] env_flags_vartype_decimal = true.
Proof. reflexivity. Qed.
