(* ===== verification/EnvFlagsSpec.v ===== *)
(** * Types and access rights of variables: what they guarantee

    Updating all the flags after a change of [.flags] gives every variable the
    flags that it would get if it were created now; a protected variable is
    neither changed nor deleted; the values keep the type of their variable until
    a change of [.flags] types them anew. *)

From S2P Require Import Prelude Word32 Ctype HashProbe Hashtable HashRefine HashSpec HashExport EnvCommon EnvSpec EnvAttr EnvAttrSpec EnvFlags.
From stdpp Require Import base option list strings gmap.
From Stdlib Require Import ZArith Lia Ascii.
Local Open Scope nat_scope.

Lemma string_chars s : string_of (chars_of s) = s.
Proof. apply String.string_of_list_ascii_of_string. Qed.

Lemma chars_string_of l : chars_of (string_of l) = l.
Proof. apply String.list_ascii_of_string_of_list_ascii. Qed.

(** ** Changing the entries of a table *)

(** The table has the same variables; flags and callbacks may differ. *)
Record same_vars (h h' : hsearch_data) : Prop := {
  sv_size : Hashtable.size h' = Hashtable.size h;
  sv_filled : filled h' = filled h;
  sv_change : change_ok h' = change_ok h;
  sv_table : ∃ t, table h' = Some t ∧ length t = S (Hashtable.size h');
  sv_slot j : used (slot h' j) = used (slot h j) ∧ key (entry (slot h' j)) = key (entry (slot h j)) ∧
    data (entry (slot h' j)) = data (entry (slot h j));
}.

Lemma same_vars_trans h1 h2 h3 : same_vars h1 h2 → same_vars h2 h3 → same_vars h1 h3.
Proof.
  intros [S1 F1 C1 _ E1] [S2 F2 C2 T2 E2]. split; try congruence. intros j. destruct (E1 j) as (? & ? & ?), (E2 j) as (? & ? & ?).
  split_and!; congruence.
Qed.

Lemma same_vars_refl h : htab_inv h → same_vars h h.
Proof. intros W. split; try done. apply W. Qed.

Lemma same_kv h h' j : same_vars h h' → kv h' j = kv h j.
Proof.
  intros [_ _ _ _ E]. destruct (E j) as (Eu & Ek & Ed). unfold kv, slot_kv, live. by rewrite Eu, Ek, Ed.
Qed.

Lemma same_env h h' : same_vars h h' → env_of h' = env_of h.
Proof.
  intros S. unfold env_of. rewrite (sv_size _ _ S). unfold bind_slots. induction (seq 1 _) as [|j l IH]; [done|].
  simpl. by rewrite (same_kv _ _ j S), IH.
Qed.

Lemma same_inv h h' : htab_inv h → same_vars h h' → htab_inv h'.
Proof.
  intros W S. pose proof S as [Es _ _ T E]. assert (Eh : ∀ k, hash1 k h' = hash1 k h) by (intros k; unfold hash1; by rewrite Es).
  assert (Ep : ∀ k t, key_probe h' k t = key_probe h k t) by (intros k t; unfold key_probe, hash2; by rewrite Eh, Es).
  assert (Er : ∀ i, in_range h' i ↔ in_range h i) by (intros i; unfold in_range; by rewrite Es).
  assert (El : ∀ i, live (slot h' i) = live (slot h i)) by (intros i; unfold live; by rewrite (proj1 (E i))).
  split; try (by rewrite Es; apply W); try done.
  - intros i. rewrite El, (proj1 (E i)). apply (wf_used _ W).
  - intros i. rewrite Er, El, (same_kv _ _ i S), (proj1 (E i)). intros Hi Hl. destruct (wf_live _ W i Hi Hl) as (k & d & ? & Hu).
    exists k, d. by rewrite Eh.
  - intros i j k d d'. rewrite !Er, (same_kv _ _ i S), (same_kv _ _ j S). apply (wf_unique _ W).
  - intros i k d t. rewrite Er, (same_kv _ _ i S), Es, Ep. intros Hi Hk Ht Hp u Hu. rewrite Ep, (proj1 (E _)). by eapply (wf_path _ W).
Qed.

Lemma same_wf h h' : htab_wf h → same_vars h h' → htab_wf h'.
Proof.
  intros [W F] S. split; [by eapply same_inv|]. rewrite (same_env _ _ S), (sv_filled _ _ S). done.
Qed.

(** A function that keeps the variable of an entry. *)
Definition keeps_var (f : ENTRY → ENTRY) : Prop := ∀ e, key (f e) = key e ∧ data (f e) = data e.

Definition update_slot (i : nat) (f : ENTRY → ENTRY) (h : hsearch_data) : hsearch_data :=
  set_slot i (mkSlot (used (slot h i)) (f (entry (slot h i)))) h.

Lemma update_slot_ok i f h : htab_inv h → in_range h i → keeps_var f →
  same_vars h (update_slot i f h) ∧
  ∀ j, entry (slot (update_slot i f h) j) = if decide (j = i) then f (entry (slot h i)) else entry (slot h j).
Proof.
  intros W Hi Hf. pose proof (λ s j, slot_write h W i s (filled h) j Hi) as Hs.
  assert (Hw : update_slot i f h = write h i (mkSlot (used (slot h i)) (f (entry (slot h i)))) (filled h)) by done.
  rewrite Hw. split.
  - split; [done..| |].
    + destruct (wf_table _ W) as (t & Ht & Hl). exists (<[i := mkSlot (used (slot h i)) (f (entry (slot h i)))]> t).
      simpl. rewrite Ht. split; [done|]. by rewrite length_insert.
    + intros j. rewrite Hs. destruct (decide (j = i)) as [->|]; [|done]. simpl. by destruct (Hf (entry (slot h i))) as [-> ->].
  - intros j. rewrite Hs. by destruct (decide (j = i)).
Qed.

Section Update.
Context `{AttrConfig, EnvHooks}.

(** [hwalk_r] changes every variable. *)
Lemma hwalk_update_ok k i f h : htab_inv h → keeps_var f → 1 ≤ i → i + k = S (Hashtable.size h) →
  same_vars h (hwalk_update k i f h) ∧
  ∀ j, entry (slot (hwalk_update k i f h) j) =
    if decide (i ≤ j < i + k ∧ live (slot h j) = true) then f (entry (slot h j)) else entry (slot h j).
Proof.
  intros W Hf. revert i h W. induction k as [|k IH]; intros i h W Hi Hk; cbn [hwalk_update].
  { split; [by apply same_vars_refl|]. intros j. destruct (decide _); [lia|done]. }
  assert (Hr : in_range h i) by (unfold in_range; lia). destruct (live (slot h i)) eqn:L.
  - destruct (update_slot_ok i f h W Hr Hf) as [S1 E1]. unfold update_slot in S1, E1. set (h1 := set_slot i _ h) in *.
    destruct (IH (S i) h1) as [S2 E2]; [by eapply same_inv|lia|rewrite (sv_size _ _ S1); lia|]. split; [by eapply same_vars_trans|].
    intros j. rewrite E2, E1. assert (El : live (slot h1 j) = live (slot h j)) by (unfold live; by rewrite (proj1 (sv_slot _ _ S1 j))).
    rewrite El. destruct (decide (j = i)) as [->|Hne].
    + rewrite decide_False by lia. by rewrite decide_True by (split; [lia|done]).
    + destruct (decide (S i ≤ j < _ ∧ _)) as [[? ?]|Hn]; [by rewrite decide_True by (split; [lia|done])|].
      rewrite decide_False; [done|]. intros [? ?]. apply Hn. split; [lia|done].
  - destruct (IH (S i) h W) as [S2 E2]; [lia..|]. split; [done|]. intros j. rewrite E2.
    destruct (decide (j = i)) as [->|Hne]; [rewrite !decide_False; [done|by intros [_ ?]; congruence|lia]|].
    destruct (decide (S i ≤ j < _ ∧ _)) as [[? ?]|Hn]; [by rewrite decide_True by (split; [lia|done])|].
    rewrite decide_False; [done|]. intros [? ?]. apply Hn. split; [lia|done].
Qed.

(** The callbacks of [env_attr_walk] change the variable with the name. *)
Lemma update_found_ok name f h : htab_inv h → keeps_var f →
  same_vars h (update_found name f h) ∧
  ∀ j k d, in_range h j → kv h j = Some (k, d) →
    entry (slot (update_found name f h) j) = if decide (string_of name = k) then f (entry (slot h j)) else entry (slot h j).
Proof.
  intros W Hf. unfold update_found. destruct (hsearch_find_ok h (string_of name) None 0 W) as [E1 E2].
  destruct (hsearch_r (string_of name) None FIND h 0) as [r h']. simpl in E1, E2. subst h'.
  destruct (env_of h !! string_of name) as [d|] eqn:E.
  - destruct E2 as (i & Hi & Hk & ->). simpl. destruct (update_slot_ok i f h W Hi Hf) as [S1 E1]. split; [exact S1|].
    intros j k d' Hj Hkj. etransitivity; [exact (E1 j)|]. destruct (decide (j = i)) as [->|Hne].
    + rewrite Hk in Hkj. injection Hkj as <- <-. by rewrite decide_True.
    + destruct (decide (string_of name = k)) as [Ek|]; [|done]. subst k. destruct Hne. by eapply (wf_unique _ W).
  - subst r. simpl. split; [by apply same_vars_refl|]. intros j k d Hj Hkj. destruct (decide (string_of name = k)) as [Ek|]; [|done].
    subst k. exfalso. by eapply env_of_None.
Qed.

(** All the entries of an attribute list in their order. *)
Definition applied (F : option (list ascii) → ENTRY → ENTRY) (l : list (list ascii * option (list ascii))) (k : string) (e : ENTRY) : ENTRY :=
  foldl (λ e p, if decide (string_of p.1 = k) then F p.2 e else e) e l.

Lemma call_all_ok F l h : htab_inv h → (∀ v, keeps_var (F v)) →
  let r := call_all (λ name v h, (0%Z, update_found name (F v) h)) l h in
  r.1 = 0%Z ∧ same_vars h r.2 ∧
  ∀ j k d, in_range h j → kv h j = Some (k, d) → entry (slot r.2 j) = applied F l k (entry (slot h j)).
Proof.
  intros W HF. revert h W. induction l as [|[name v] l IH]; intros h W; simpl.
  { split; [done|]. split; [by apply same_vars_refl|done]. }
  destruct (update_found_ok name (F v) h W (HF v)) as [S1 E1]. set (h1 := update_found name (F v) h) in *.
  destruct (IH h1) as (R & S2 & E2); [by eapply same_inv|]. split; [done|]. split; [by eapply same_vars_trans|].
  intros j k d Hj Hk. rewrite (E2 j k d); [|unfold in_range; rewrite (sv_size _ _ S1); done|by rewrite (same_kv _ _ j S1)].
  by rewrite (E1 j k d Hj Hk).
Qed.

(** What the blanket update makes of an entry. *)
Definition rebuilt (clear : ENTRY → ENTRY) (F : option (list ascii) → ENTRY → ENTRY) (static : list ascii) (value : option (list ascii))
    (k : string) (e : ENTRY) : ENTRY :=
  applied F (from_option attrs_of [] value) k (applied F (attrs_of static) k (clear e)).

Context (calloc_always : ∀ n, calloc_ok n = true).

Lemma blanket_ok clear F static value h : htab_inv h → keeps_var clear → (∀ v, keeps_var (F v)) →
  ∃ h', (let h := hwalk_update (Hashtable.size h) 1 clear h in
     '(_, h) ← env_attr_walk calloc_ok (λ name v h, (0%Z, update_found name (F v) h)) (Some static) h;
     '(_, h) ← env_attr_walk calloc_ok (λ name v h, (0%Z, update_found name (F v) h)) value h;
     Some (0%Z, h)) = Some (0%Z, h') ∧ same_vars h h' ∧
  ∀ j k d, in_range h j → kv h j = Some (k, d) → entry (slot h' j) = rebuilt clear F static value k (entry (slot h j)).
Proof.
  intros W Hc HF. cbv zeta. destruct (hwalk_update_ok (Hashtable.size h) 1 clear h W Hc) as [S0 E0]; [lia..|].
  set (h0 := hwalk_update _ 1 clear h) in *. pose proof (same_inv _ _ W S0) as W0.
  destruct (call_all_ok F (attrs_of static) h0 W0 HF) as (_ & S1 & E1).
  rewrite (env_attr_walk_ok _ _ calloc_always). destruct (call_all _ (attrs_of static) h0) as [r1 h1]. cbn [mbind option_bind fst snd] in *.
  pose proof (same_inv _ _ W0 S1) as W1.
  assert (Hval : ∃ r2 h2, env_attr_walk calloc_ok (λ name v h, (0%Z, update_found name (F v) h)) value h1 = Some (r2, h2) ∧ same_vars h1 h2 ∧
    ∀ j k d, in_range h1 j → kv h1 j = Some (k, d) → entry (slot h2 j) = applied F (from_option attrs_of [] value) k (entry (slot h1 j))).
  { destruct value as [l|]; [|exists 1%Z, h1; split; [done|]; split; [by apply same_vars_refl|done]].
    destruct (call_all_ok F (attrs_of l) h1 W1 HF) as (_ & S2 & E2). rewrite (env_attr_walk_ok _ _ calloc_always).
    destruct (call_all _ (attrs_of l) h1) as [r2 h2]. by exists r2, h2. }
  destruct Hval as (r2 & h2 & -> & S2 & E2). cbn [mbind option_bind]. exists h2. split; [done|].
  split; [by eapply same_vars_trans; [|eapply same_vars_trans]|]. intros j k d Hj Hk.
  assert (Hj0 : in_range h0 j) by (unfold in_range; by rewrite (sv_size _ _ S0)). assert (Hk0 : kv h0 j = Some (k, d)) by (by rewrite (same_kv _ _ j S0)).
  rewrite (E2 j k d); [|unfold in_range; by rewrite (sv_size _ _ S1)|by rewrite (same_kv _ _ j S1)].
  rewrite (E1 j k d Hj0 Hk0), E0. pose proof Hk as (Hl & _ & _)%kv_Some. unfold in_range in Hj. by rewrite decide_True by (split; [lia|done]).
Qed.

End Update.

(** ** Flags *)

Section Flags.
Context `{AttrConfig, EnvHooks}.

(** A list whose attributes are words of at most two characters. *)
Record good_list (l : list ascii) : Prop := {
  gl_spaced : spaced l;
  gl_head : head l ≠ Some blank;
  gl_attrs n a : (n, Some a) ∈ attrs_of l → blank ∉ a ∧ length a ≤ ENV_FLAGS_ATTR_MAX_LEN;
}.

Definition memory_ok (before : list ascii) : Prop := ∃ c r, before = c :: r ∧ c ≠ blank.

Lemma first_word_id a : blank ∉ a → first_word a = a.
Proof.
  induction a as [|c a IH]; [done|]. intros [Hc Ha]%not_elem_of_cons. simpl. rewrite bool_decide_eq_false_2 by congruence.
  by rewrite IH.
Qed.

Lemma ref_lookup_in name l v : ref_lookup name l = Some v → (name, v) ∈ attrs_of l.
Proof.
  unfold ref_lookup. intros ([n a] & E & Ev)%fmap_Some. simpl in Ev. apply last_Some in E as [l' E].
  assert (Hin : (n, a) ∈ filter (λ p, p.1 = name) (attrs_of l)) by (rewrite E; apply elem_of_app; right; left).
  apply list_elem_of_filter in Hin as [Hn Hin]. simpl in *. by subst.
Qed.

Lemma lookup_good before l name : good_list l → attr_name name → memory_ok before →
  env_attr_lookup before (Some l) name (Some (S ENV_FLAGS_ATTR_MAX_LEN)) =
    Some (match ref_lookup name l with Some v => (0%Z, Some (default [] v)) | None => (2%Z, None) end).
Proof.
  intros [Hs Hh Ha] Hn Hb. rewrite env_attr_lookup_ok by done. destruct (ref_lookup name l) as [v|] eqn:E; [|done].
  apply ref_lookup_in in E. assert (Hv : blank ∉ default [] v ∧ length (default [] v) ≤ ENV_FLAGS_ATTR_MAX_LEN).
  { destruct v as [a|]; [by eapply Ha|]. split; [apply not_elem_of_nil|simpl; lia]. }
  destruct Hv as [Hv Hl]. cbv zeta. rewrite first_word_id by done.
  destruct (Nat.ltb_spec (length (default [] v)) (S ENV_FLAGS_ATTR_MAX_LEN)); [done|lia].
Qed.

Definition bin_of (v : option (list ascii)) : Z :=
  if length (default [] v) =? 0 then 0%Z else env_parse_flags_to_bin (default [] v).

Definition with_flags (v : option (list ascii)) (e : ENTRY) : ENTRY := mkENTRY (key e) (data e) (callback e) (bin_of v).

Lemma applied_flags l k e :
  applied with_flags l k e =
    mkENTRY (key e) (data e) (callback e)
      (match last (filter (λ p, p.1 = chars_of k) l) with Some p => bin_of p.2 | None => flags e end).
Proof.
  induction l as [|p l IH] using rev_ind; [by destruct e|]. unfold applied in *. rewrite foldl_app. simpl. rewrite IH.
  rewrite filter_app, filter_cons, filter_nil. assert (Heq : p.1 = chars_of k ↔ string_of p.1 = k).
  { split; [intros ->; apply string_chars|intros <-; by rewrite chars_string_of]. }
  destruct (decide (string_of p.1 = k)) as [E|E], (decide (p.1 = chars_of k)) as [E'|E']; try tauto.
  - by rewrite last_snoc.
  - by rewrite app_nil_r.
Qed.

Lemma ref_lookup_last {A} (f : option (list ascii) → A) (d : A) name l :
  match last (filter (λ p, p.1 = name) (attrs_of l)) with Some p => f p.2 | None => d end =
  match ref_lookup name l with Some v => f v | None => d end.
Proof. unfold ref_lookup. by destruct (last _). Qed.

Context (calloc_always : ∀ n, calloc_ok n = true) (static_good : good_list ENV_FLAGS_LIST_STATIC)
  (static_memory : memory_ok static_before) (heap_memory : memory_ok heap_before).

(** C30: After the value of [.flags] has changed, the update of all the
    variables ends, and changes nothing but their flags; each variable then has
    the flags that [env_flags_init] computes for a new variable of its name
    with the new value: the walk over the lists and the search in them agree on
    what the lists say. *)
Theorem on_flags_consistent value htab :
  htab_wf htab → from_option good_list True value →
  ∃ htab', on_flags value htab = Some (0%Z, htab') ∧ htab_wf htab' ∧ env_of htab' = env_of htab ∧
    ∀ i k d, in_range htab i → kv htab i = Some (k, d) → attr_name (chars_of k) →
      let e := entry (slot htab i) in
      env_flags_init value (mkENTRY (Some k) (data e) (callback e) 0) = Some (entry (slot htab' i)).
Proof.
  intros [W Hf] Hgood.
  destruct (blanket_ok calloc_always clear_flags with_flags ENV_FLAGS_LIST_STATIC value htab W) as (h' & E & S & Hent); [done..|].
  exists h'. split; [exact E|]. split; [by eapply same_wf|]. split; [by apply same_env|]. intros i k d Hi Hk Hn. cbv zeta.
  rewrite (Hent i k d Hi Hk). unfold rebuilt. rewrite !applied_flags. cbn [key data callback flags clear_flags].
  apply kv_Some in Hk as (_ & -> & Hd). unfold env_flags_init, env_flags_lookup, attr_search. cbn [key default]. unfold id.
  rewrite (lookup_good static_before) by done. rewrite ref_lookup_last.
  assert (Hbin : ∀ v, Some (if (0 =? 0)%Z && negb (length (default [] v) =? 0) then
      mkENTRY (Some k) (data (entry (slot htab i))) (callback (entry (slot htab i))) (env_parse_flags_to_bin (default [] v))
      else mkENTRY (Some k) (data (entry (slot htab i))) (callback (entry (slot htab i))) 0) =
    Some (mkENTRY (Some k) (data (entry (slot htab i))) (callback (entry (slot htab i))) (bin_of v))).
  { intros v. unfold bin_of. by destruct (length (default [] v) =? 0). }
  destruct value as [l|]; cbn [from_option] in *.
  - rewrite (lookup_good heap_before) by done. rewrite ref_lookup_last. cbn [mbind option_bind].
    destruct (ref_lookup (chars_of k) l) as [v|]; cbn [fst Z.eqb]; [exact (Hbin v)|].
    destruct (ref_lookup (chars_of k) ENV_FLAGS_LIST_STATIC) as [v|]; [exact (Hbin v)|done].
  - cbn [mbind option_bind fst Z.eqb]. destruct (ref_lookup (chars_of k) ENV_FLAGS_LIST_STATIC) as [v|]; [exact (Hbin v)|done].
Qed.

End Flags.

(** ** The types *)

Definition dig (hex : bool) (c : ascii) : bool := if hex then isxdigit c else isdigit c.

Lemma skip_digits_spec hex value m :
  ∃ ds, value = ds ++ skip_digits hex value m ∧ Forall (λ c, dig hex c = true) ds ∧ (∀ n, m = Some n → length ds ≤ n) ∧
    (m = Some (length ds) ∨ from_option (λ c, dig hex c = false) True (head (skip_digits hex value m))).
Proof.
  revert m. induction value as [|c r IH]; intros m.
  { exists []. assert (E : skip_digits hex [] m = []) by (by destruct m as [[]|]). rewrite E. split_and!; try done; [intros; simpl; lia|by right]. }
  destruct (decide (m = Some 0)) as [->|Hm].
  { exists []. split_and!; try done; [intros n [= <-]; done|by left]. }
  assert (E : skip_digits hex (c :: r) m = if dig hex c then skip_digits hex r (pred <$> m) else c :: r) by (by destruct m as [[|n]|]).
  rewrite E. destruct (dig hex c) eqn:Ec.
  - destruct (IH (pred <$> m)) as (ds & Eds & Hds & Hlen & Hstop). exists (c :: ds). split_and!; [simpl; by f_equal|by constructor| |].
    + intros n ->. specialize (Hlen _ eq_refl). destruct n; [done|]. simpl in *. lia.
    + destruct Hstop as [Hst|Hst]; [left|by right]. destruct m as [[|n]|]; [done| |done]. simpl in *. congruence.
  - exists []. split_and!; try done; [intros; simpl; lia|by right].
Qed.

Lemma skip_digits_exact hex ds rest m : Forall (λ c, dig hex c = true) ds → (∀ n, m = Some n → length ds ≤ n) →
  (m = Some (length ds) ∨ from_option (λ c, dig hex c = false) True (head rest)) → skip_digits hex (ds ++ rest) m = rest.
Proof.
  intros Hds. revert m. induction Hds as [|c ds Hc Hds IH]; intros m Hlen Hstop.
  - destruct (decide (m = Some 0)) as [->|Hm]; [by destruct rest|]. destruct Hstop as [?|Hst]; [done|]. destruct rest as [|c r]; [by destruct m as [[]|]|].
    simpl in Hst. destruct m as [[|n]|]; [done|..]; simpl; unfold dig in Hst; by rewrite Hst.
  - assert (E : skip_digits hex ((c :: ds) ++ rest) m = skip_digits hex (ds ++ rest) (pred <$> m)).
    { destruct m as [[|n]|]; [specialize (Hlen 0 eq_refl); simpl in Hlen; lia|..]; simpl; unfold dig in Hc; by rewrite Hc. }
    rewrite E. apply IH.
    + intros n En. destruct m as [[|m]|]; simplify_eq/=; specialize (Hlen _ eq_refl); simpl in Hlen; lia.
    + destruct Hstop as [->|?]; [by left|by right].
Qed.

(** [k] groups with a separator between them. *)
Fixpoint groups (P : list ascii → Prop) (sep : ascii) (k : nat) (l : list ascii) : Prop :=
  match k with
  | O => False
  | S O => P l
  | S k => ∃ g r, l = g ++ sep :: r ∧ P g ∧ groups P sep k r
  end.

Definition decimal_group (g : list ascii) : Prop := 1 ≤ length g ≤ 3 ∧ Forall (λ c, isdigit c = true) g.

(** One or two hexadecimal digits, after a prefix or not. *)
Definition hex_group (g : list ascii) : Prop :=
  let h := if is_hex_prefix g then drop 2 g else g in 1 ≤ length h ≤ 2 ∧ Forall (λ c, isxdigit c = true) h.

Lemma at_end_nul e : NUL ∉ e → at_end e = NUL ↔ e = [].
Proof. destruct e as [|c e]; [done|]. intros [Hc _]%not_elem_of_cons. split; [|done]. unfold at_end. simpl. congruence. Qed.

Lemma at_end_char e c : c ≠ NUL → at_end e = c ↔ ∃ r, e = c :: r.
Proof. intros Hc. unfold at_end. destruct e as [|d e]; simpl; [split; [congruence|by intros [? ?]]|]. split; [intros ->; by eexists|by intros (r & [= -> _])]. Qed.

Lemma ip_loop_ok k cur : NUL ∉ cur → ip_loop (S k) cur = true ↔ groups decimal_group "."%char (S k) cur.
Proof.
  revert cur. induction k as [|k IH]; intros cur Hn.
  - cbn [ip_loop groups Nat.eqb]. unfold ip_group, skip_num. cbn [andb orb negb].
    destruct (skip_digits_spec false cur (Some 3)) as (ds & E & Hds & Hlen & _). set (e := skip_digits false cur (Some 3)) in *.
    assert (Hne : NUL ∉ e) by (rewrite E, not_elem_of_app in Hn; tauto). specialize (Hlen 3 eq_refl).
    transitivity (negb (length cur =? length e) && bool_decide (at_end e = NUL) = true); [by destruct (negb _ && _ && _) eqn:Eb; rewrite ?andb_true_r in Eb; rewrite Eb|].
    rewrite andb_true_iff, negb_true_iff, Nat.eqb_neq, bool_decide_eq_true, (at_end_nul e Hne). split.
    + intros [Hl He]. rewrite He, app_nil_r in E. rewrite He in Hl. simpl in Hl. subst cur. split; [lia|done].
    + intros [Hl Hd]. assert (Ee : e = []).
      { unfold e. rewrite <-(app_nil_r cur). apply skip_digits_exact; [done|intros n [= <-]; lia|by right]. }
      rewrite Ee. simpl. split; [lia|done].
  - cbn [groups]. change (ip_loop (S (S k)) cur) with (let e := skip_num false cur (Some 3) in if ip_group false cur e then ip_loop (S k) (tail e) else false).
    cbv zeta. unfold ip_group, skip_num. cbn [andb orb negb].
    destruct (skip_digits_spec false cur (Some 3)) as (ds & E & Hds & Hlen & _). set (e := skip_digits false cur (Some 3)) in *.
    specialize (Hlen 3 eq_refl). split.
    + destruct (_ && true) eqn:Eb; [|done]. rewrite andb_true_r, andb_true_iff, negb_true_iff, Nat.eqb_neq, bool_decide_eq_true in Eb.
      destruct Eb as [Hl (r & Er)%at_end_char]; [|done]. rewrite Er in E |- *. intros Hr. exists ds, r.
      split; [done|]. split; [split; [|done]|].
      * rewrite E, Er, length_app in Hl. simpl in Hl. lia.
      * apply IH; [|done]. rewrite E in Hn. apply not_elem_of_app in Hn as [_ Hn]. by apply not_elem_of_cons in Hn as [_ Hn].
    + intros (g & r & -> & [Hg1 Hg2] & Hr). assert (Ee : e = "."%char :: r).
      { unfold e. apply skip_digits_exact; [done|intros n [= <-]; lia|by right]. }
      rewrite Ee. rewrite length_app. simpl. destruct (Nat.eqb_spec (length g + S (length r)) (S (length r))); [lia|]. simpl.
      apply IH; [|done]. apply not_elem_of_app in Hn as [_ Hn]. by apply not_elem_of_cons in Hn as [_ Hn].
Qed.


Lemma hex_prefix_split g : is_hex_prefix g = true → ∃ d r, g = "0"%char :: d :: r ∧ (d = "x"%char ∨ d = "X"%char) ∧ drop 2 g = r.
Proof.
  destruct g as [|c [|d r]]; [done..|]. simpl. rewrite andb_true_iff, !orb_true_iff, !bool_decide_eq_true. intros [-> Hd].
  exists d, r. split_and!; [done| |done]. destruct Hd as [->|[->|?]]; [by left|by right|done].
Qed.

Lemma hex_prefix_false c d r : d ≠ "x"%char → d ≠ "X"%char → is_hex_prefix (c :: d :: r) = false.
Proof.
  intros H1 H2. simpl. rewrite (bool_decide_eq_false_2 ("x"%char = d)), (bool_decide_eq_false_2 ("X"%char = d)) by congruence. apply andb_false_r.
Qed.

(** The first group of an address, and the rest. *)
Lemma mac_split cur : let e := skip_num true cur (Some 2) in
  negb (length cur =? length e) && negb ((length cur =? length e + 2) && is_hex_prefix cur) = true ↔ ∃ g, cur = g ++ e ∧ hex_group g.
Proof.
  cbv zeta. unfold skip_num. cbn [andb]. rewrite andb_true_iff, !negb_true_iff, andb_false_iff, !Nat.eqb_neq. destruct (is_hex_prefix cur) eqn:Ep.
  - destruct (hex_prefix_split cur Ep) as (d & r & Ecur & Hd & Edrop). rewrite Edrop.
    destruct (skip_digits_spec true r (Some 2)) as (ds & E & Hds & Hlen & _). set (e := skip_digits true r (Some 2)) in *. specialize (Hlen 2 eq_refl).
    assert (El : length r = length ds + length e) by (rewrite E at 1; apply length_app). rewrite Ecur. cbn [length]. split.
    + intros [_ [Hl|?]]; [|done]. exists ("0"%char :: d :: ds). split; [simpl; by rewrite E at 1|].
      unfold hex_group. assert (Eg : is_hex_prefix ("0"%char :: d :: ds) = true) by (by destruct Hd as [-> | ->]). rewrite Eg. rewrite !skipn_cons, drop_0.
      split; [lia|done].
    + intros (g & Eg & Hg). assert (Hg' : g = "0"%char :: d :: ds) by (apply (app_inv_tail e); rewrite <-Eg; simpl; by rewrite E at 1).
      subst g. unfold hex_group in Hg. assert (Egp : is_hex_prefix ("0"%char :: d :: ds) = true) by (by destruct Hd as [-> | ->]). rewrite Egp in Hg.
      rewrite !skipn_cons, drop_0 in Hg. split; [lia|left; lia].
  - destruct (skip_digits_spec true cur (Some 2)) as (ds & E & Hds & Hlen & _). set (e := skip_digits true cur (Some 2)) in *. specialize (Hlen 2 eq_refl).
    assert (Eds : is_hex_prefix ds = false).
    { destruct ds as [|c [|d ds]]; [done..|]. apply Forall_cons in Hds as [_ [Hd _]%Forall_cons]. apply hex_prefix_false; by intros ->. }
    split.
    + intros [Hl _]. exists ds. split; [done|]. unfold hex_group. rewrite Eds. rewrite E in Hl at 1. rewrite length_app in Hl. split; [lia|done].
    + intros (g & Eg & Hg). assert (g = ds) as -> by (apply (app_inv_tail e); congruence). unfold hex_group in Hg. rewrite Eds in Hg.
      rewrite E at 1. rewrite length_app. split; [lia|by right].
Qed.

(** A group in front of a separator, or at the end. *)
Lemma mac_exact g rest : hex_group g → rest = [] ∨ head rest = Some ":"%char → skip_num true (g ++ rest) (Some 2) = rest.
Proof.
  intros Hg Hrest. unfold skip_num. cbn [andb]. unfold hex_group in Hg. destruct (is_hex_prefix g) eqn:Ep.
  - destruct (hex_prefix_split g Ep) as (d & r & -> & Hd & Er). rewrite Er in Hg.
    assert (Eg : is_hex_prefix (("0"%char :: d :: r) ++ rest) = true) by (by destruct Hd as [-> | ->]). rewrite Eg. cbn [app]. rewrite !skipn_cons, drop_0.
    apply skip_digits_exact; [apply Hg|intros n [= <-]; lia|]. right. by destruct Hrest as [->|Hr]; [|destruct rest; [|injection Hr as ->]].
  - assert (Eg : is_hex_prefix (g ++ rest) = false).
    { destruct g as [|c [|d g]]; [simpl in Hg; lia| |].
      - destruct Hrest as [->|Hr]; [done|]. destruct rest as [|d rest]; [done|]. injection Hr as ->. by apply hex_prefix_false.
      - destruct Hg as [_ Hg]. apply Forall_cons in Hg as [_ [Hd _]%Forall_cons]. apply hex_prefix_false; by intros ->. }
    rewrite Eg. apply skip_digits_exact; [apply Hg|intros n [= <-]; lia|]. right.
    by destruct Hrest as [->|Hr]; [|destruct rest; [|injection Hr as ->]].
Qed.

Lemma mac_loop_ok k cur : NUL ∉ cur → mac_loop (S k) cur = true ↔ groups hex_group ":"%char (S k) cur.
Proof.
  revert cur. induction k as [|k IH]; intros cur Hn; cbn [mac_loop]; pose proof (mac_split cur) as Hsp; cbv zeta in Hsp;
    set (e := skip_num true cur (Some 2)) in *; unfold mac_group; cbn [Nat.eqb].
  - cbn [groups andb orb negb]. rewrite andb_true_r. destruct (negb _ && negb _) eqn:Eb.
    + destruct (proj1 Hsp eq_refl) as (g & Eg & Hg). assert (Hne : NUL ∉ e) by (rewrite Eg, not_elem_of_app in Hn; tauto). simpl.
      destruct (bool_decide (at_end e = NUL)) eqn:En; [apply bool_decide_eq_true in En|apply bool_decide_eq_false in En].
      * apply at_end_nul in En; [|done]. rewrite En, app_nil_r in Eg. subst g. by split.
      * split; [done|]. intros Hc. destruct En. apply at_end_nul; [done|]. unfold e. rewrite <-(app_nil_r cur). apply mac_exact; [done|by left].
    + split; [done|]. intros Hc. assert (false = true) as [=]. apply Hsp. exists cur. split; [|done].
      assert (Ee : e = []) by (unfold e; rewrite <-(app_nil_r cur); apply mac_exact; [done|by left]). by rewrite Ee, app_nil_r.
  - cbn [groups andb orb negb]. rewrite andb_true_r. destruct (negb _ && negb _) eqn:Eb; cbn [andb].
    + destruct (proj1 Hsp eq_refl) as (g & Eg & Hg). destruct (bool_decide _) eqn:Ec; [apply bool_decide_eq_true in Ec|apply bool_decide_eq_false in Ec].
      * apply at_end_char in Ec as (r & Er); [|done]. rewrite Er in Eg |- *. cbn [tail].
        assert (Hr : NUL ∉ r) by (rewrite Eg, not_elem_of_app, not_elem_of_cons in Hn; tauto). specialize (IH r Hr). cbn [mac_loop] in IH.
        rewrite IH. split; [intros ?; by exists g, r|]. intros (g' & r' & Eg' & Hg' & Hr').
        assert (Ee : e = ":"%char :: r') by (unfold e; rewrite Eg'; by apply mac_exact; [|right]). rewrite Er in Ee. by injection Ee as ->.
      * split; [done|]. intros (g' & r' & -> & Hg' & _). destruct Ec. unfold e. rewrite mac_exact by (done || by right). done.
    + split; [done|]. intros (g' & r' & Eg' & Hg' & _). assert (false = true) as [=]. apply Hsp. exists g'. split; [|done].
      unfold e. rewrite Eg'. by rewrite mac_exact by (done || by right).
Qed.

(** What the check of a type accepts: a decimal number is a text of digits,
    the empty one included; a hexadecimal number may have the prefix, but then
    needs a digit; a truth value is one of ten letters; an address consists of
    four groups of one to three digits, or of six groups of one or two
    hexadecimal digits, each of which may have the prefix. *)
Theorem validate_type_correct value : NUL ∉ value →
  _env_flags_validate_type value env_flags_vartype_string = true ∧
  (_env_flags_validate_type value env_flags_vartype_decimal = true ↔ Forall (λ c, isdigit c = true) value) ∧
  (_env_flags_validate_type value env_flags_vartype_hex = true ↔
    let h := if is_hex_prefix value then drop 2 value else value in
    Forall (λ c, isxdigit c = true) h ∧ (is_hex_prefix value = true → h ≠ [])) ∧
  (_env_flags_validate_type value env_flags_vartype_bool = true ↔ ∃ c, c ∈ ["1"; "y"; "t"; "Y"; "T"; "0"; "n"; "f"; "N"; "F"]%char ∧ value = [c]) ∧
  (_env_flags_validate_type value env_flags_vartype_ipaddr = true ↔ groups decimal_group "."%char 4 value) ∧
  (_env_flags_validate_type value env_flags_vartype_macaddr = true ↔ groups hex_group ":"%char 6 value).
Proof.
  intros Hn. split; [done|].
  assert (Hskip : ∀ hex v, NUL ∉ v → at_end (skip_digits hex v None) = NUL ↔ Forall (λ c, dig hex c = true) v).
  { intros hex v Hv. destruct (skip_digits_spec hex v None) as (ds & E & Hds & _ & _). set (e := skip_digits hex v None) in *.
    assert (He : NUL ∉ e) by (rewrite E, not_elem_of_app in Hv; tauto). rewrite (at_end_nul e He). split.
    - intros Ee. by rewrite E, Ee, app_nil_r.
    - intros Hd. unfold e. rewrite <-(app_nil_r v). apply skip_digits_exact; [done|done|by right]. }
  split_and!.
  - unfold _env_flags_validate_type. simpl. unfold skip_num. simpl. rewrite bool_decide_eq_true. by apply Hskip.
  - unfold _env_flags_validate_type. simpl. unfold skip_num. simpl andb. set (h := if is_hex_prefix value then drop 2 value else value).
    assert (Hh : NUL ∉ h).
    { unfold h. destruct (is_hex_prefix value); [|done]. intros Hin. apply Hn. rewrite <-(take_drop 2 value). apply elem_of_app. by right. }
    rewrite andb_true_iff, bool_decide_eq_true, (Hskip true h Hh), negb_true_iff, andb_false_iff, Nat.eqb_neq. split.
    + intros [Hd Hl]. split; [done|]. intros Ep Eh. destruct Hl as [Hl|Hl]; [|congruence]. apply Hl.
      destruct (hex_prefix_split value Ep) as (d & r & Ev & _ & Er). rewrite Eh. unfold h in Eh. rewrite Ep, Er in Eh. by rewrite Ev, Eh.
    + intros [Hd Hl]. split; [done|]. destruct (is_hex_prefix value) eqn:Ep; [left|by right]. intros El. apply Hl; [done|].
      assert (Es : skip_digits true h None = []) by (rewrite <-(app_nil_r h); apply skip_digits_exact; [exact Hd|done|by right]).
      rewrite Es in El. apply nil_length_inv. unfold h. rewrite length_drop. simpl in El. lia.
  - unfold _env_flags_validate_type. cbn [Z.eqb Pos.eqb env_flags_vartype_bool env_flags_vartype_string env_flags_vartype_decimal env_flags_vartype_hex]. unfold char_in. rewrite andb_true_iff, existsb_exists, bool_decide_eq_true. split.
    + intros [(c & Hin & Ec%bool_decide_eq_true) Ht]. exists c. split; [by apply list_elem_of_In|].
      destruct value as [|d r]; [|simpl in *; unfold at_end in Ec; simpl in Ec; by subst].
      unfold at_end in Ec. simpl in Ec. subst c. simpl in Hin. exfalso. clear -Hin. repeat (destruct Hin as [Hin|Hin]; [discriminate Hin|]). done.
    + intros (c & Hin & ->). split; [|done]. exists c. split; [by apply list_elem_of_In|]. by apply bool_decide_eq_true.
  - exact (ip_loop_ok 3 value Hn).
  - exact (mac_loop_ok 5 value Hn).
Qed.

(** ** Access rights *)

Section Policy.
Context `{EnvHooks, EnvConfig} (getenv_default : string → option string)
  (strdup_always : ∀ s, strdup s = Some s) (calloc_always : ∀ n, calloc_ok n = true).

Lemma land_type_mask t m x : Z.land ENV_FLAGS_VARTYPE_BIN_MASK x = 0%Z →
  Z.land (Z.lor (Z.land t ENV_FLAGS_VARTYPE_BIN_MASK) m) x = Z.land m x.
Proof. intros E. by rewrite Z.land_lor_distr_l, <-Z.land_assoc, E, Z.land_0_r, Z.lor_0_l. Qed.

Lemma access_bits fl m : Z.land ENV_FLAGS_VARTYPE_BIN_MASK m = 0%Z →
  Z.land (env_parse_flags_to_bin fl) m = Z.land (env_flags_varaccess_mask !!! Z.to_nat (env_flags_parse_varaccess fl)) m.
Proof. intros E. unfold env_parse_flags_to_bin. by apply land_type_mask. Qed.

(** The attributes [fl] protect the value [d] of the variable [k]. *)
Definition protects (fl : list ascii) (k d : string) : Prop :=
  env_flags_parse_varaccess fl = env_flags_varaccess_readonly ∨ env_flags_parse_varaccess fl = env_flags_varaccess_writeonce ∨
  env_flags_parse_varaccess fl = env_flags_varaccess_changedefault ∧ default EmptyString (getenv_default k) ≠ d.

Lemma protected_hook item fl k d newval op : key item = Some k → data item = Some d → flags item = env_parse_flags_to_bin fl →
  protects fl k d → op ≠ env_op_create → validate_hook getenv_default item newval op H_INTERACTIVE = true.
Proof.
  intros Hk Hd Hf Hp Hop. unfold validate_hook, env_flags_validate. destruct (match op with env_op_delete => false | _ => _ end); [done|].
  rewrite Hk, Hd, Hf. change (Z.land H_INTERACTIVE H_FORCE) with 0%Z. simpl (negb (0 =? 0)%Z). rewrite !access_bits by done.
  destruct Hp as [-> | [-> | [-> Hne]]]; destruct op; try done; simpl.
  rewrite bool_decide_eq_false_2; [done|]. intros [= E]. by destruct Hne.
Qed.

(** C28: A variable that is read-only or write-once, or that may only be changed
    from its default value and has another one, cannot be changed or deleted
    with [setenv]: the command fails and leaves the table as it is. *)
Theorem setenv_protected name val e i d fl :
  ready e → name_plain name → change_ok (env_htab e) = Some (validate_hook getenv_default) →
  in_range (env_htab e) i → kv (env_htab e) i = Some (name, d) →
  flags (entry (slot (env_htab e) i)) = env_parse_flags_to_bin fl → protects fl name d →
  ∃ e', setenv name val e = Some (1%Z, e') ∧ env_htab e' = env_htab e.
Proof.
  intros [Hf [W _]] [Heq Hh] Hc Hi Hk Hfl Hp. pose proof Hk as (_ & Hkey & Hdata)%kv_Some. unfold setenv. rewrite Hf. cbn [negb].
  assert (Hdel : ∃ e', _do_env_set [name] e = Some (1%Z, e') ∧ env_htab e' = env_htab e).
  { unfold _do_env_set. rewrite set_options_plain, Heq by done. cbn [env_htab]. unfold hdelete_r.
    destruct (hsearch_find_ok (env_htab e) name None 0 W) as [E1 E2].
    destruct (hsearch_r name None FIND (env_htab e) 0) as [r h]. simpl in E1, E2. subst h.
    rewrite (proj2 (env_of_lookup (env_htab e) name d W)) in E2 by eauto. destruct E2 as (j & Hj & Hkj & ->).
    assert (j = i) as -> by by eapply (wf_unique _ W). cbn [h_ret]. unfold in_range in Hi. destruct (Nat.eqb_spec i 0); [lia|].
    rewrite Hc, (protected_hook _ fl name d) by done. by eexists. }
  assert (Hset : ∀ v, ∃ e', _do_env_set [name; v] e = Some (1%Z, e') ∧ env_htab e' = env_htab e).
  { intros v. unfold _do_env_set. rewrite set_options_plain, Heq, calloc_always by done. cbn [negb join_values env_htab].
    rewrite (hsearch_found _ W name _ d ENTER _ i Hi Hk). unfold overwrite_entry. rewrite Hc, (protected_hook _ fl name d) by done. by eexists. }
  by destruct val as [[|a v]|].
Qed.

(** ** Types *)

(** Every value has the type of its variable. *)
Definition typed (htab : hsearch_data) : Prop :=
  ∀ i k d, in_range htab i → kv htab i = Some (k, d) →
    _env_flags_validate_type (chars_of d) (Z.land ENV_FLAGS_VARTYPE_BIN_MASK (flags (entry (slot htab i)))) = true.

Lemma hook_type item v op flag : op ≠ env_op_delete → validate_hook getenv_default item (Some v) op flag = false →
  _env_flags_validate_type (chars_of v) (Z.land ENV_FLAGS_VARTYPE_BIN_MASK (flags item)) = true.
Proof.
  intros Hop. unfold validate_hook, env_flags_validate. cbn [default id].
  destruct op; [|done|]; by destruct (_env_flags_validate_type _ _).
Qed.

Lemma write_typed htab i s n : htab_inv htab → typed htab → in_range htab i →
  (∀ k d, slot_kv s = Some (k, d) → _env_flags_validate_type (chars_of d) (Z.land ENV_FLAGS_VARTYPE_BIN_MASK (flags (entry s))) = true) →
  typed (write htab i s n).
Proof.
  intros W T Hi Hs j k d Hj. rewrite kv_write, slot_write by done. destruct (decide (j = i)); [apply Hs|by apply T].
Qed.

(** Creating, overwriting and deleting, without the callbacks that change the
    table. *)
Lemma enter_typed k v flag htab :
  htab_wf htab → change_ok htab = Some (validate_hook getenv_default) → typed htab → room_for k htab →
  typed (hsearch_r k (Some v) ENTER htab flag).2.
Proof.
  intros [W Hf] Hc T Hroom. destruct (env_of htab !! k) as [d|] eqn:E.
  - apply env_of_lookup in E as (i & Hi & Hk); [|done]. rewrite (hsearch_found htab W k _ d ENTER flag i Hi Hk). unfold overwrite_entry.
    rewrite Hc. destruct (validate_hook _ _ _ _ _) eqn:Hv; [done|]. destruct (match callback _ with Some cb => _ | None => false end); [done|].
    rewrite strdup_always. cbn [snd]. apply (write_typed htab i _ (filled htab)); [done..|]. intros k' d' Hs. cbn [entry flags set_data].
    apply hook_type in Hv; [|done]. unfold slot_kv in Hs. cbn in Hs. destruct (live _); [|done]. destruct (key _); [|done]. by simplify_eq/=.
  - destruct Hroom as [[? ?]|Hfree]; [congruence|]. destruct (hsearch_absent htab W k (Some v) ENTER flag E Hfree) as (idx & Hb & ->).
    pose proof (fb_range _ _ _ Hb) as Hi. destruct (decide (filled htab = Hashtable.size htab)) as [Hfull|Hfull].
    { unfold hsearch_enter. by rewrite Hfull, Nat.eqb_refl. }
    destruct (hsearch_enter_cases strdup_always htab k v flag idx W Hi Hfull) as [(cb & fl & -> & Hok)|(er & _ & ->)]; cbn [snd];
      apply write_typed; try done; intros k' d' Hs.
    specialize (Hok _ Hc). apply hook_type in Hok; [|done]. unfold slot_kv in Hs. cbn in Hs. destruct (live _); [|done]. by simplify_eq.
Qed.

End Policy.

(** ** Types, with the callbacks that change the table *)

Section Live.
Context `{AttrConfig, EnvHooks} (getenv_default : string → option string)
  (strdup_always : ∀ s, strdup s = Some s) (calloc_always : ∀ n, calloc_ok n = true).

(** The flags that the static list and a value of [.flags] give a variable, and
    a table whose variables have them. *)
Definition listed_flags (value : option (list ascii)) (k : string) : Z :=
  flags (rebuilt clear_flags with_flags ENV_FLAGS_LIST_STATIC value k zero_entry).

Definition relisted (value : option (list ascii)) (htab : hsearch_data) : Prop :=
  ∀ i k d, in_range htab i → kv htab i = Some (k, d) → flags (entry (slot htab i)) = listed_flags value k.

(** Whether the entry that was found has the callback [on_flags]. *)
Definition runs_flags (r : hret) (htab : hsearch_data) : bool :=
  match h_retval r with Some i => is_callback "flags" (callback (entry (slot htab i))) | None => false end.

Definition with_callback (v : option (list ascii)) (e : ENTRY) : ENTRY :=
  if length (default [] v) =? 0 then clear_callback e else set_found_callback (default [] v) e.

Lemma applied_same F l k e : (∀ v e, flags (F v e) = flags e) → flags (applied F l k e) = flags e.
Proof.
  intros HF. unfold applied. revert e. induction l as [|p l IH]; intros e; [done|]. cbn [foldl]. rewrite IH.
  by destruct (decide _).
Qed.

Lemma rebuilt_flags value k e :
  flags (rebuilt clear_flags with_flags ENV_FLAGS_LIST_STATIC value k e) = listed_flags value k.
Proof. unfold listed_flags, rebuilt. by rewrite !applied_flags. Qed.

Lemma found_callback_keeps n e :
  key (set_found_callback n e) = key e ∧ data (set_found_callback n e) = data e ∧ flags (set_found_callback n e) = flags e.
Proof. unfold set_found_callback. by destruct (find_env_callback n). Qed.

Lemma with_callback_keeps v : keeps_var (with_callback v) ∧ ∀ e, flags (with_callback v e) = flags e.
Proof.
  unfold with_callback. split; intros e; destruct (_ =? 0); try done; by destruct (found_callback_keeps (default [] v) e) as (? & ? & ?).
Qed.

(** A callback ends and keeps the variables; [on_flags] gives every one the
    flags of the lists, the others keep the flags. *)
Lemma table_callback_ok cb value h : htab_inv h →
  ∃ h', table_callback cb value h = Some h' ∧ same_vars h h' ∧
    (if is_callback "flags" cb then relisted value h'
     else ∀ i k d, in_range h i → kv h i = Some (k, d) → flags (entry (slot h' i)) = flags (entry (slot h i))).
Proof.
  intros W. unfold table_callback. destruct (is_callback "flags" cb).
  { destruct (blanket_ok calloc_always clear_flags with_flags ENV_FLAGS_LIST_STATIC value h W) as (h' & E & S & Hent); [done..|].
    exists h'. assert (E' : on_flags value h = Some (0%Z, h')) by exact E. rewrite E'. split; [done|]. split; [done|].
    intros i k d Hi Hk. assert (Hi' : in_range h i) by (unfold in_range in *; by rewrite <-(sv_size _ _ S)).
    rewrite (Hent i k d Hi'); [apply rebuilt_flags|by rewrite <-(same_kv _ _ i S)]. }
  destruct (is_callback "callbacks" cb); [|by exists h; split; [done|]; split; [apply same_vars_refl|]].
  destruct (blanket_ok calloc_always clear_callback with_callback ENV_CALLBACK_LIST_STATIC value h W) as (h' & E & S & Hent);
    [done|intros v; apply with_callback_keeps|].
  exists h'. assert (E' : on_callbacks value h = Some (0%Z, h')) by exact E. rewrite E'. split; [done|]. split; [done|].
  intros i k d Hi Hk. rewrite (Hent i k d Hi Hk). unfold rebuilt. by rewrite !applied_same by (intros v e; apply with_callback_keeps).
Qed.

Lemma same_typed h h' : same_vars h h' → typed h →
  (∀ i k d, in_range h i → kv h i = Some (k, d) → flags (entry (slot h' i)) = flags (entry (slot h i))) → typed h'.
Proof.
  intros S T Hf i k d Hi Hk. rewrite (same_kv _ _ i S) in Hk. unfold in_range in Hi. rewrite (sv_size _ _ S) in Hi.
  rewrite (Hf i k d Hi Hk). by eapply T.
Qed.

Lemma delete_slot i htab : htab_inv htab → in_range htab i →
  (typed htab → typed (_hdelete i htab)) ∧ ∀ value, relisted value htab → relisted value (_hdelete i htab).
Proof.
  intros W Hi. unfold _hdelete. set (e := mkENTRY _ _ None 0).
  change (set_filled (filled htab - 1) (set_slot i (mkSlot (-1) e) htab)) with (write htab i (mkSlot (-1) e) (filled htab - 1)).
  split; [intros T; apply write_typed; [done..|]; by intros k' d' Hs|].
  intros value R j k d Hj Hk. rewrite kv_write in Hk by done. rewrite slot_write by done.
  destruct (decide (j = i)); [done|]. by eapply R.
Qed.

(** C29: The values keep the types of their variables, when [strdup] and
    [calloc] succeed and the lookups of the attributes of a new variable return,
    with whatever flags: creating, overwriting and deleting a variable, with the
    callbacks that change the table, ends and preserves it, whatever the flags of the
    operation, so that even a forced change cannot store a value of the wrong
    type; the exception is a variable with the callback [on_flags], that is
    [.flags], for which every variable gets the flags of the static list and the
    new value, whatever it holds. *)
Theorem values_stay_typed k v flag htab :
  htab_wf htab → change_ok htab = Some (validate_hook getenv_default) → typed htab → room_for k htab →
  (∃ r h1 htab', hsearch_r k (Some v) ENTER htab flag = (r, h1) ∧
     env_hsearch_r k (Some v) ENTER htab flag = Some (r, htab') ∧
     if runs_flags r h1 then relisted (Some (chars_of v)) htab' else typed htab') ∧
  (∃ r htab', env_hdelete_r k htab flag = Some (r, htab') ∧
     if runs_flags (hsearch_r k None FIND htab 0).1 htab && (h_ret r =? 1) then relisted None htab' else typed htab').
Proof.
  intros Hwf Hc T Hroom. pose proof Hwf as [W _]. split.
  - pose proof (hsearch_enter_ok strdup_always htab k v flag Hwf Hroom) as D.
    pose proof (enter_typed getenv_default strdup_always k v flag htab Hwf Hc T Hroom) as T1. unfold env_hsearch_r.
    destruct (hsearch_r k (Some v) ENTER htab flag) as [r h1]. destruct D as [[W1 _] _ _ _]. cbn [snd] in T1.
    exists r, h1. unfold runs_flags. destruct (h_retval r) as [i|]; [|by exists h1].
    destruct (table_callback_ok (callback (entry (slot h1 i))) (Some (chars_of v)) h1 W1) as (h' & -> & S & Hf).
    exists h'. cbn [mbind option_bind]. split_and!; [done..|]. destruct (is_callback _ _); [done|by eapply same_typed].
  - unfold env_hdelete_r. destruct (hsearch_find_ok htab k None 0 W) as [E1 E2].
    destruct (hsearch_r k None FIND htab 0) as [r h]. simpl in E1, E2. subst h. unfold runs_flags.
    destruct (env_of htab !! k) as [d|]; [|subst r; by eexists _, _]. destruct E2 as (i & Hi & Hk & ->). cbn [h_ret h_retval fst].
    pose proof Hi as Hi'. unfold in_range in Hi'. destruct (Nat.eqb_spec i 0); [lia|].
    destruct (match change_ok htab with Some f => _ | None => false end); [eexists _, _; split; [done|]; by rewrite andb_false_r|].
    destruct (match callback _ with Some cb => _ | None => false end); [eexists _, _; split; [done|]; by rewrite andb_false_r|].
    destruct (table_callback_ok (callback (entry (slot htab i))) None htab W) as (h' & -> & S & Hf). eexists _, _.
    cbn [mbind option_bind]. split; [done|]. cbn [h_ret Nat.eqb]. rewrite andb_true_r.
    assert (Hir : in_range h' i) by (unfold in_range; by rewrite (sv_size _ _ S)).
    destruct (delete_slot i h' (same_inv _ _ W S) Hir) as [Ht Hr]. destruct (is_callback _ _); [by apply Hr|].
    by eapply Ht, same_typed.
Qed.

End Live.

(** ** A configuration and a table *)

Module SampleFlags.
Import SampleTable.

#[export] Instance sample_attrs : AttrConfig := {|
  ENV_FLAGS_LIST_STATIC := chars_of "ethaddr:mo,serial#:so,";
  ENV_CALLBACK_LIST_STATIC := chars_of ".callbacks:callbacks,.flags:flags,baudrate:baudrate,";
  env_clbk := [("callbacks", 1%positive); ("flags", 2%positive); ("baudrate", 3%positive)]%string;
  static_before := [NUL];
  heap_before := [NUL];
|}.

Definition hooks : EnvHooks := attr_hooks (λ _ _ _ _ _, false) Some (λ _, true).

Definition no_default (_ : string) : option string := None.

(** The empty table, and a serial number in it. *)
Definition checked5 : hsearch_data := mkHtab (table empty5) 5 0 (Some (validate_hook no_default)).
Definition serial : hsearch_data := (hsearch_r (H := hooks) "serial#" (Some "42"%string) ENTER checked5 0).2.

Lemma checked5_wf : htab_wf checked5 ∧ env_of checked5 = ∅.
Proof.
  apply (new_table_wf 5); [|lia]. exact (wf_prime _ (proj1 (proj1 empty5_wf))).
Qed.

Lemma serial_wf : htab_wf serial.
Proof.
  assert (Hroom : is_Some (env_of checked5 !! "serial#"%string) ∨ ∃ i, in_range checked5 i ∧ used (slot checked5 i) = 0%Z).
  { right. exists 1. split; [unfold in_range; simpl; lia|reflexivity]. }
  pose proof (hsearch_enter_ok (H := hooks) (λ s, eq_refl) checked5 "serial#" "42" 0 (proj1 checked5_wf) Hroom) as D.
  unfold serial. destruct (hsearch_r (H := hooks) _ _ _ _ _) as [r h]. apply D.
Qed.

Lemma word_list l : spaced l → head l ≠ Some blank →
  forallb (λ p, match p.2 with Some a => bool_decide (blank ∉ a) && (length a <=? 2) | None => true end) (attrs_of l) = true → good_list l.
Proof.
  intros Hs Hh Hf. split; [done..|]. intros n a Hin. rewrite forallb_forall in Hf. apply list_elem_of_In in Hin. specialize (Hf _ Hin).
  simpl in Hf. rewrite andb_true_iff, bool_decide_eq_true, Nat.leb_le in Hf. done.
Qed.

Lemma spaced_check l : forallb (λ c, (negb (isspace c) || bool_decide (c = blank)) && negb (bool_decide (c = NUL))) l = true → spaced l.
Proof.
  rewrite forallb_forall. intros Hl. apply Forall_forall. intros c Hc%list_elem_of_In. specialize (Hl c Hc).
  rewrite andb_true_iff, orb_true_iff, !negb_true_iff, bool_decide_eq_true, bool_decide_eq_false in Hl. destruct Hl as [[Hl|Hl] ?]; split; try done. congruence.
Qed.

Definition sample_list : list ascii := chars_of "serial#:dr, x : s".

Lemma sample_lists_good : good_list ENV_FLAGS_LIST_STATIC ∧ good_list sample_list.
Proof. split; (apply word_list; [apply spaced_check; vm_compute; reflexivity|discriminate|vm_compute; reflexivity]). Qed.

Lemma nul_memory : memory_ok [NUL].
Proof. by exists NUL, []. Qed.

Lemma on_flags_consistent_witness :
  ∃ htab', on_flags (H0 := hooks) (Some sample_list) serial = Some (0%Z, htab') ∧ env_of htab' = env_of serial ∧
    ∀ i k d, in_range serial i → kv serial i = Some (k, d) → attr_name (chars_of k) →
      env_flags_init (Some sample_list) (mkENTRY (Some k) (data (entry (slot serial i))) (callback (entry (slot serial i))) 0) =
        Some (entry (slot htab' i)).
Proof.
  destruct (on_flags_consistent (H0 := hooks) (λ n, eq_refl) (proj1 sample_lists_good) nul_memory nul_memory
    (Some sample_list) serial serial_wf (proj2 sample_lists_good)) as (h & E & _ & He & Hs).
  exists h. split; [exact E|]. split; [exact He|exact Hs].
Defined.

Lemma setenv_protected_witness :
  ∃ e', setenv (H := hooks) "serial#" (Some "43"%string) (mkEnv (mkGd GD_FLG_ENV_READY 1 [] (replicate 32 NUL)) serial 1) = Some (1%Z, e') ∧
    env_htab e' = serial.
Proof.
  apply (setenv_protected (H := hooks) no_default (λ n, eq_refl) "serial#" (Some "43"%string)
    (mkEnv (mkGd GD_FLG_ENV_READY 1 [] (replicate 32 NUL)) serial 1) 2 "42" (chars_of "so")).
  - split; [reflexivity|exact serial_wf].
  - split; [reflexivity|discriminate].
  - reflexivity.
  - unfold in_range. simpl. lia.
  - reflexivity.
  - reflexivity.
  - right. left. reflexivity.
Defined.

Lemma serial_typed : typed serial.
Proof.
  intros i k d Hi. assert (Hi' : i = 1 ∨ i = 2 ∨ i = 3 ∨ i = 4 ∨ i = 5) by (unfold in_range in Hi; vm_compute Hashtable.size in Hi; lia). clear Hi.
  destruct Hi' as [-> |[-> |[-> |[-> | ->]]]]; vm_compute kv; intros Hk; try discriminate Hk. injection Hk as <- <-. vm_compute. reflexivity.
Qed.

Lemma values_stay_typed_witness :
  (∃ r h1 htab', hsearch_r (H := hooks) "ethaddr" (Some "1:2:3"%string) ENTER serial H_FORCE = (r, h1) ∧
     env_hsearch_r (H0 := hooks) "ethaddr" (Some "1:2:3"%string) ENTER serial H_FORCE = Some (r, htab') ∧
     if runs_flags r h1 then relisted (Some (chars_of "1:2:3")) htab' else typed htab') ∧
  (∃ r htab', env_hdelete_r (H0 := hooks) "ethaddr" serial H_FORCE = Some (r, htab') ∧
     if runs_flags (hsearch_r (H := hooks) "ethaddr" None FIND serial 0).1 serial && (h_ret r =? 1)
     then relisted None htab' else typed htab').
Proof.
  apply (values_stay_typed (H0 := hooks) no_default (λ s, eq_refl) (λ n, eq_refl) "ethaddr" "1:2:3" H_FORCE serial serial_wf eq_refl).
  - exact serial_typed.
  - right. exists 1. split; [|reflexivity]. unfold in_range. simpl. lia.
Defined.

(** A variable with the value [abc], and a value of [.flags] that makes it a
    decimal number: the change is accepted, and the value stays. *)
Definition text_set : hsearch_data := (hsearch_r (H := hooks) "x" (Some "abc"%string) ENTER checked5 0).2.

Lemma flags_retype_values :
  (λ x, let i := hash1 "x" text_set in
     (h_ret x.1, kv x.2 i,
      _env_flags_validate_type (chars_of "abc") (Z.land ENV_FLAGS_VARTYPE_BIN_MASK (flags (entry (slot x.2 i)))))) <$>
    env_hsearch_r (H0 := hooks) ".flags" (Some "x:d"%string) ENTER text_set 0 =
  Some (1, Some ("x", "abc")%string, false).
Proof. vm_compute. reflexivity. Qed.

Lemma validate_type_correct_witness :
  _env_flags_validate_type (chars_of "192.168.0.1") env_flags_vartype_ipaddr = true ↔ groups decimal_group "."%char 4 (chars_of "192.168.0.1").
Proof.
  assert (Hn : NUL ∉ chars_of "192.168.0.1") by (apply (bool_decide_unpack _); vm_compute; exact I).
  destruct (validate_type_correct (chars_of "192.168.0.1") Hn) as (_ & _ & _ & _ & Hip & _). exact Hip.
Defined.

(** The functions for single variables and the update of all of them do not
    always agree on callbacks: a name that no callback has hides the static
    callback in the former and leaves it in place in the latter. *)
Lemma unknown_callback :
  option_map callback (env_callback_init (Some (chars_of "baudrate:none")) (mkENTRY (Some "baudrate"%string) None None 0)) = Some None ∧
  applied (λ v e, if length (default [] v) =? 0 then clear_callback e else set_found_callback (default [] v) e)
    (attrs_of ENV_CALLBACK_LIST_STATIC ++ attrs_of (chars_of "baudrate:none")) "baudrate" (mkENTRY (Some "baudrate"%string) None None 0) =
    mkENTRY (Some "baudrate"%string) None (Some 3%positive) 0.
Proof. split; vm_compute; reflexivity. Qed.

End SampleFlags.
