(* ===== verification/Lmb.v ===== *)
(** * Logical memory blocks: data and operations

    Translation of [lib/lmb.c] and [include/lmb.h], the bookkeeping of free and
    reserved memory that the boot commands allocate from. [phys_addr_t],
    [phys_size_t] and [unsigned long] are 32 bits wide. [None] is an access
    outside the array [region], which has [MAX_LMB_REGIONS + 1] entries. *)

From stdpp Require Import base option list.
From Stdlib Require Import ZArith Lia.
From S2P Require Import Prelude Word32.
Local Open Scope Z_scope.

Definition MAX_LMB_REGIONS : nat := 8.
Definition LMB_ALLOC_ANYWHERE : Z := 0.

Record lmb_property := mkProp { base : Z; psize : Z }.

(** [struct lmb_region]; the entries from [cnt] on are stale. *)
Record lmb_region := mkRgn { cnt : nat; rsize : Z; region : list lmb_property }.

Record lmb := mkLmb { memory : lmb_region; reserved : lmb_region }.

Definition set_region (l : list lmb_property) (rgn : lmb_region) : lmb_region :=
  mkRgn (cnt rgn) (rsize rgn) l.
Definition set_cnt (n : nat) (rgn : lmb_region) : lmb_region :=
  mkRgn n (rsize rgn) (region rgn).

Definition lmb_addrs_overlap (base1 size1 base2 size2 : Z) : bool :=
  (base1 <? u32 (base2 + size2)) && (base2 <? u32 (base1 + size1)).

Definition lmb_addrs_adjacent (base1 size1 base2 size2 : Z) : Z :=
  if base2 =? u32 (base1 + size1) then 1
  else if base1 =? u32 (base2 + size2) then -1
  else 0.

Definition lmb_regions_adjacent (rgn : lmb_region) (r1 r2 : nat) : option Z :=
  a ← region rgn !! r1;
  b ← region rgn !! r2;
  Some (lmb_addrs_adjacent (base a) (psize a) (base b) (psize b)).

(** The loop [for (i = r; i < rgn->cnt - 1; i++)], [k] iterations. *)
Fixpoint shift_down (k i : nat) (l : list lmb_property) : option (list lmb_property) :=
  match k with
  | O => Some l
  | S k => x ← l !! S i; shift_down k (S i) (<[i := x]> l)
  end.

(** With [cnt] 0 the bound wraps around and the loop leaves the array. *)
Definition lmb_remove_region (rgn : lmb_region) (r : nat) : option lmb_region :=
  if (cnt rgn =? 0)%nat then None
  else
    l ← shift_down (cnt rgn - 1 - r) r (region rgn);
    Some (mkRgn (cnt rgn - 1) (rsize rgn) l).

Definition lmb_coalesce_regions (rgn : lmb_region) (r1 r2 : nat) : option lmb_region :=
  a ← region rgn !! r1;
  b ← region rgn !! r2;
  lmb_remove_region
    (set_region (<[r1 := mkProp (base a) (u32 (psize a + psize b))]> (region rgn)) rgn) r2.

Definition lmb_init_region (rgn : lmb_region) : lmb_region :=
  mkRgn 1 0 (<[0%nat := mkProp 0 0]> (region rgn)).

Definition lmb_init (l : lmb) : lmb :=
  mkLmb (lmb_init_region (memory l)) (lmb_init_region (reserved l)).

(** The outcome of the loop that tries to coalesce the new block. *)
Inductive coalesce_scan :=
  | AlreadyThere
  | Coalesced (i : nat) (l : list lmb_property)
  | NotAdjacent.

Fixpoint lmb_scan (k i : nat) (b s : Z) (l : list lmb_property) : option coalesce_scan :=
  match k with
  | O => Some NotAdjacent
  | S k =>
      r ← l !! i;
      if (base r =? b) && (psize r =? s) then Some AlreadyThere
      else
        let adjacent := lmb_addrs_adjacent b s (base r) (psize r) in
        if 0 <? adjacent then
          Some (Coalesced i (<[i := mkProp (u32 (base r - s)) (u32 (psize r + s))]> l))
        else if adjacent <? 0 then
          Some (Coalesced i (<[i := mkProp (base r) (u32 (psize r + s))]> l))
        else lmb_scan k (S i) b s l
  end.

(** The loop that makes room in the sorted table: [i] entries are left. *)
Fixpoint insert_down (i : nat) (x : lmb_property) (l : list lmb_property)
  : option (list lmb_property) :=
  match i with
  | O => Some l
  | S i =>
      r ← l !! i;
      if base x <? base r then insert_down i x (<[S i := r]> l)
      else Some (<[S i := x]> l)
  end.

Definition insert_first (x : lmb_property) (l : list lmb_property) : option (list lmb_property) :=
  r ← l !! 0%nat;
  Some (if base x <? base r then <[0%nat := x]> l else l).

(** [lmb_add_region] after the scan: [i] is the index at which the loop ended
    and [coalesced] its counter. The comparison [i < rgn->cnt - 1] is one of
    unsigned numbers: it holds when [cnt] is 0. *)
Definition lmb_add_tail (rgn : lmb_region) (b s : Z) (i : nat) (coalesced : Z)
  : option (Z * lmb_region) :=
  '(coalesced, rgn) ←
    (if (S i <? cnt rgn)%nat || (cnt rgn =? 0)%nat then
       adj ← lmb_regions_adjacent rgn i (S i);
       if adj =? 0 then Some (coalesced, rgn)
       else rgn ← lmb_coalesce_regions rgn i (S i); Some (coalesced + 1, rgn)
     else Some (coalesced, rgn));
  if negb (coalesced =? 0) then Some (coalesced, rgn)
  else if (MAX_LMB_REGIONS <=? cnt rgn)%nat then Some (-1, rgn)
  else
    l ← insert_down (cnt rgn) (mkProp b s) (region rgn);
    l ← insert_first (mkProp b s) l;
    Some (0, mkRgn (S (cnt rgn)) (rsize rgn) l).

Definition lmb_add_region (rgn : lmb_region) (b s : Z) : option (Z * lmb_region) :=
  r0 ← region rgn !! 0%nat;
  if (cnt rgn =? 1)%nat && (psize r0 =? 0) then
    Some (0, set_region (<[0%nat := mkProp b s]> (region rgn)) rgn)
  else
    sc ← lmb_scan (cnt rgn) 0 b s (region rgn);
    match sc with
    | AlreadyThere => Some (0, rgn)
    | Coalesced i l => lmb_add_tail (set_region l rgn) b s i 1
    | NotAdjacent => lmb_add_tail rgn b s (cnt rgn) 0
    end.

Definition lmb_add (l : lmb) (b s : Z) : option (Z * lmb) :=
  '(r, rgn) ← lmb_add_region (memory l) b s; Some (r, mkLmb rgn (reserved l)).

Definition lmb_reserve (l : lmb) (b s : Z) : option (Z * lmb) :=
  '(r, rgn) ← lmb_add_region (reserved l) b s; Some (r, mkLmb (memory l) rgn).

(** The region that contains the block to free. *)
Fixpoint find_containing (k i : nat) (b e : Z) (l : list lmb_property) : option (option nat) :=
  match k with
  | O => Some None
  | S k =>
      r ← l !! i;
      if (base r <=? b) && (e <=? u32 (base r + psize r)) then Some (Some i)
      else find_containing k (S i) b e l
  end.

Definition lmb_free_region (rgn : lmb_region) (b s : Z) : option (Z * lmb_region) :=
  let e := u32 (b + s) in
  o ← find_containing (cnt rgn) 0 b e (region rgn);
  match o with
  | None => Some (-1, rgn)
  | Some i =>
      r ← region rgn !! i;
      let rgnbegin := base r in
      let rgnend := u32 (rgnbegin + psize r) in
      if (rgnbegin =? b) && (rgnend =? e) then rgn ← lmb_remove_region rgn i; Some (0, rgn)
      else if rgnbegin =? b then
        Some (0, set_region (<[i := mkProp e (u32 (psize r - s))]> (region rgn)) rgn)
      else if rgnend =? e then
        Some (0, set_region (<[i := mkProp (base r) (u32 (psize r - s))]> (region rgn)) rgn)
      else
        lmb_add_region
          (set_region (<[i := mkProp (base r) (u32 (b - base r))]> (region rgn)) rgn)
          e (u32 (rgnend - e))
  end.

Definition lmb_free (l : lmb) (b s : Z) : option (Z * lmb) :=
  '(r, rgn) ← lmb_free_region (reserved l) b s; Some (r, mkLmb (memory l) rgn).

(** The index of the first overlapping region. *)
Fixpoint overlaps_loop (k i : nat) (b s : Z) (l : list lmb_property) : option (option nat) :=
  match k with
  | O => Some None
  | S k =>
      r ← l !! i;
      if lmb_addrs_overlap b s (base r) (psize r) then Some (Some i)
      else overlaps_loop k (S i) b s l
  end.

Definition lmb_overlaps_region (rgn : lmb_region) (b s : Z) : option (option nat) :=
  overlaps_loop (cnt rgn) 0 b s (region rgn).

(** [addr & ~(size - 1)] in 32 bits. *)
Definition lmb_align_down (addr size : Z) : Z := Z.land addr (u32 (Z.lnot (u32 (size - 1)))).

Definition lmb_align_up (addr size : Z) : Z :=
  Z.land (u32 (addr + u32 (size - 1))) (u32 (Z.lnot (u32 (size - 1)))).

(** The inner [while] loop: [inl] is a return from the function, [inr] the
    end of the loop. *)
Fixpoint alloc_down (k : nat) (l : lmb) (lmbbase b size align : Z)
  : option ((Z * lmb) + unit) :=
  match k with
  | O => None
  | S k =>
      if negb (b =? 0) && (lmbbase <=? b) then
        j ← lmb_overlaps_region (reserved l) b size;
        match j with
        | None =>
            '(r, rgn) ← lmb_add_region (reserved l) b (lmb_align_up size align);
            Some (inl (if r <? 0 then 0 else b, mkLmb (memory l) rgn))
        | Some j =>
            r ← region (reserved l) !! j;
            if base r <? size then Some (inr tt)
            else alloc_down k l lmbbase (lmb_align_down (u32 (base r - size)) align) size align
        end
      else Some (inr tt)
  end.

(** The first candidate in a memory block, or [None] for [continue]. *)
Definition first_candidate (r : lmb_property) (size align max_addr : Z) : option Z :=
  if psize r <? size then None
  else if max_addr =? LMB_ALLOC_ANYWHERE then
    Some (lmb_align_down (u32 (u32 (base r + psize r) - size)) align)
  else if base r <? max_addr then
    Some (lmb_align_down (u32 (Z.min (u32 (base r + psize r)) max_addr - size)) align)
  else None.

Fixpoint alloc_loop (i : nat) (l : lmb) (size align max_addr : Z) : option (Z * lmb) :=
  match i with
  | O => Some (0, l)
  | S i =>
      r ← region (memory l) !! i;
      match first_candidate r size align max_addr with
      | None => alloc_loop i l size align max_addr
      | Some b =>
          o ← alloc_down (S (cnt (reserved l))) l (base r) b size align;
          match o with
          | inl res => Some res
          | inr _ => alloc_loop i l size align max_addr
          end
      end
  end.

Definition __lmb_alloc_base (l : lmb) (size align max_addr : Z) : option (Z * lmb) :=
  alloc_loop (cnt (memory l)) l size align max_addr.

(** [lmb_alloc_base] only adds a message on failure. *)
Definition lmb_alloc_base (l : lmb) (size align max_addr : Z) : option (Z * lmb) :=
  __lmb_alloc_base l size align max_addr.

Definition lmb_alloc (l : lmb) (size align : Z) : option (Z * lmb) :=
  lmb_alloc_base l size align LMB_ALLOC_ANYWHERE.

Fixpoint is_reserved_loop (k i : nat) (addr : Z) (l : list lmb_property) : option bool :=
  match k with
  | O => Some false
  | S k =>
      r ← l !! i;
      if (base r <=? addr) && (addr <=? u32 (base r + psize r - 1)) then Some true
      else is_reserved_loop k (S i) addr l
  end.

Definition lmb_is_reserved (l : lmb) (addr : Z) : option bool :=
  is_reserved_loop (cnt (reserved l)) 0 addr (region (reserved l)).
