(* ===== verification/LmbSpec.v ===== *)
(** * Logical memory blocks: what the bookkeeping guarantees

    A region table in use is a sorted list of disjoint blocks; adding and
    freeing change the set of covered addresses by exactly the block, and an
    allocation lies inside memory and outside everything reserved. *)

From stdpp Require Import base option list sorting.
From Stdlib Require Import ZArith Lia.
From S2P Require Import Prelude Word32 HashProbe Lmb.
Local Open Scope Z_scope.

(** The entries in use. *)
Definition regs (rgn : lmb_region) : list lmb_property := take (cnt rgn) (region rgn).

(** A nonempty block that does not reach the end of the address space. *)
Definition block_ok (r : lmb_property) : Prop :=
  0 ≤ base r ∧ 0 < psize r ∧ base r + psize r < 2 ^ 32.

Definition before (r s : lmb_property) : Prop := base r + psize r ≤ base s.

Definition blocks_ok (l : list lmb_property) : Prop := Forall block_ok l ∧ StronglySorted before l.

Record rgn_ok (rgn : lmb_region) : Prop := {
  ro_array : length (region rgn) = S MAX_LMB_REGIONS;
  ro_cnt : (1 ≤ cnt rgn ≤ MAX_LMB_REGIONS)%nat;
  ro_blocks : blocks_ok (regs rgn);
}.

(** The addresses of a block and of a list of blocks. *)
Definition inside (a : Z) (r : lmb_property) : Prop := base r ≤ a < base r + psize r.
Definition covers (l : list lmb_property) (a : Z) : Prop := Exists (inside a) l.

Lemma covers_app l k a : covers (l ++ k) a ↔ covers l a ∨ covers k a.
Proof. apply Exists_app. Qed.
Lemma covers_nil a : covers [] a ↔ False.
Proof. apply Exists_nil. Qed.
Lemma covers_cons r l a : covers (r :: l) a ↔ inside a r ∨ covers l a.
Proof. apply Exists_cons. Qed.

Lemma blocks_ok_mid l1 r l2 :
  blocks_ok (l1 ++ r :: l2) ↔
  blocks_ok l1 ∧ block_ok r ∧ blocks_ok l2 ∧ (∀ p, p ∈ l1 → before p r) ∧
  (∀ q, q ∈ l2 → before r q) ∧ (∀ p q, p ∈ l1 → q ∈ l2 → before p q).
Proof.
  unfold blocks_ok. rewrite Forall_app, Forall_cons, StronglySorted_app, StronglySorted_cons.
  split.
  - intros [(F1 & Fr & F2) (Hx & S1 & Hr & S2)]. rewrite Forall_forall in Hr. split_and!; auto.
    + intros p Hp. apply Hx; [done|by left].
    + intros p q Hp Hq. apply Hx; [done|by right].
  - intros ((F1 & S1) & Fr & (F2 & S2) & H1 & H2 & H3). split; [done|].
    split; [|split; [done|split; [by apply Forall_forall|done]]].
    intros p q Hp Hq. apply elem_of_cons in Hq as [->|Hq]; auto.
Qed.

Lemma blocks_ok_elem l r : blocks_ok l → r ∈ l → block_ok r.
Proof. intros [F _] Hr. rewrite Forall_forall in F. by apply F. Qed.

(** Replace the middle block: its neighbours stay in place when the new block
    does not reach them. *)
Lemma blocks_ok_replace l1 r r' l2 :
  blocks_ok (l1 ++ r :: l2) → block_ok r' →
  (∀ p, p ∈ l1 → before p r → before p r') → (∀ q, q ∈ l2 → before r q → before r' q) →
  blocks_ok (l1 ++ r' :: l2).
Proof. rewrite !blocks_ok_mid. naive_solver. Qed.

(** ** The array *)

Lemma shift_down_ok q l1 x rest :
  ∃ z, shift_down (length q) (length l1) (l1 ++ x :: q ++ rest) = Some (l1 ++ q ++ z :: rest).
Proof.
  revert l1 x. induction q as [|y q IH]; intros l1 x; simpl; [eauto|].
  rewrite (lookup_app_r l1) by lia. replace (S (length l1) - length l1)%nat with 1%nat by lia.
  simpl. rewrite insert_app_r_alt, Nat.sub_diag by done. simpl.
  destruct (IH (l1 ++ [y]) y) as (z & E). exists z. rewrite length_app in E. simpl in E.
  rewrite Nat.add_1_r in E. rewrite <- !app_assoc in E. done.
Qed.

Lemma regs_split rgn :
  (cnt rgn ≤ length (region rgn))%nat →
  ∃ rest, region rgn = regs rgn ++ rest ∧ length (regs rgn) = cnt rgn.
Proof.
  intros H. exists (drop (cnt rgn) (region rgn)). unfold regs.
  rewrite take_drop, length_take. split; [done|lia].
Qed.

(** ** Coalescing *)

(** [x] and [r] are neighbours and [r'] is their union. *)
Definition merged (x r r' : lmb_property) : Prop :=
  (base r = base x + psize x ∧ r' = mkProp (base x) (psize r + psize x)) ∨
  (base x = base r + psize r ∧ r' = mkProp (base r) (psize r + psize x)).

Definition apart (x r : lmb_property) : Prop := before x r ∨ before r x.

Lemma merged_inside x r r' a :
  block_ok x → block_ok r → merged x r r' → (inside a r' ↔ inside a x ∨ inside a r).
Proof. unfold merged, inside, block_ok. intros ? ? [[? ->]|[? ->]]; simpl; lia. Qed.

Lemma merged_ok x r r' : block_ok x → block_ok r → merged x r r' → block_ok r'.
Proof. unfold merged, block_ok. intros ? ? [[? ->]|[? ->]]; simpl; lia. Qed.

Lemma adjacent_cases b s r :
  block_ok (mkProp b s) → block_ok r →
  lmb_addrs_adjacent b s (base r) (psize r) =
    if decide (base r = b + s) then 1 else if decide (b = base r + psize r) then -1 else 0.
Proof.
  intros (? & ? & ?) (? & ? & ?). simpl in *. unfold lmb_addrs_adjacent.
  rewrite !u32_small by lia.
  destruct (Z.eqb_spec (base r) (b + s)), (Z.eqb_spec b (base r + psize r));
    repeat case_decide; done || lia.
Qed.

(** The loop over the entries: either it coalesces the block with an entry, or
    none is adjacent. *)
Lemma lmb_scan_ok b s l2 l1 rest :
  block_ok (mkProp b s) → Forall block_ok l2 → Forall (apart (mkProp b s)) l2 →
  (∃ p r r' q, l2 = p ++ r :: q ∧ merged (mkProp b s) r r' ∧
    lmb_scan (length l2) (length l1) b s (l1 ++ l2 ++ rest) =
      Some (Coalesced (length (l1 ++ p)) (l1 ++ (p ++ r' :: q) ++ rest))) ∨
  (lmb_scan (length l2) (length l1) b s (l1 ++ l2 ++ rest) = Some NotAdjacent).
Proof.
  intros Hx. revert l1. induction l2 as [|r l2 IH]; intros l1 F A; [by right|].
  apply Forall_cons in F as [Fr F], A as [Ar A]. simpl.
  rewrite list_lookup_middle by done. simpl.
  assert (E1 : (base r =? b) && (psize r =? s) = false).
  { apply andb_false_iff. unfold apart, before, block_ok in *. simpl in *.
    destruct (Z.eqb_spec (base r) b); [right; apply Z.eqb_neq; lia|by left]. }
  rewrite E1, adjacent_cases by done.
  assert (Hr : 0 ≤ base r ∧ 0 < psize r ∧ base r + psize r < 2 ^ 32) by done.
  assert (Hx' : 0 ≤ b ∧ 0 < s ∧ b + s < 2 ^ 32) by done.
  case_decide as D1; [|case_decide as D2]; simpl.
  - left. exists [], r, (mkProp b (psize r + s)), l2. split; [done|]. split; [left; done|].
    rewrite app_nil_r, insert_app_r_alt, Nat.sub_diag by done. simpl.
    rewrite !u32_small by lia. by replace (base r - s) with b by lia.
  - left. exists [], r, (mkProp (base r) (psize r + s)), l2. split; [done|]. split; [right; done|].
    rewrite app_nil_r, insert_app_r_alt, Nat.sub_diag by done. simpl. by rewrite u32_small by lia.
  - specialize (IH (l1 ++ [r]) F A). rewrite length_app, Nat.add_1_r in IH.
    rewrite <- app_assoc in IH. simpl in IH. destruct IH as [(p & r0 & r' & q & -> & Hm & E)|E]; [left|by right].
    exists (r :: p), r0, r', q. split; [done|]. split; [done|]. rewrite E.
    rewrite <- !app_assoc. done.
Qed.

(** The outcome of adding the block [x]: a well-formed table that covers the
    old addresses and those of the block. *)
Record added (l : list lmb_property) (x : lmb_property) (rgn' : lmb_region) : Prop := {
  ad_ok : rgn_ok rgn';
  ad_covers a : covers (regs rgn') a ↔ covers l a ∨ inside a x;
}.

Lemma regs_of l rest k sz : length l = k → regs (mkRgn k sz (l ++ rest)) = l.
Proof. intros <-. unfold regs. simpl. by rewrite take_app_length. Qed.

Lemma added_intro l x l' rest sz :
  (length (l' ++ rest) = S MAX_LMB_REGIONS)%nat → (1 ≤ length l' ≤ MAX_LMB_REGIONS)%nat →
  blocks_ok l' → (∀ a, covers l' a ↔ covers l a ∨ inside a x) →
  added l x (mkRgn (length l') sz (l' ++ rest)).
Proof.
  intros Hl Hc Hb Ha. split; [split; [done|done|]|]; by rewrite regs_of.
Qed.

(** Joining the block with an entry keeps the table sorted and disjoint. *)
Lemma merged_in_place x p r r' q :
  block_ok x → blocks_ok (p ++ r :: q) → Forall (apart x) (p ++ r :: q) → merged x r r' →
  block_ok r' ∧ blocks_ok (p ++ r' :: q) ∧
  ∀ a, covers (p ++ r' :: q) a ↔ covers (p ++ r :: q) a ∨ inside a x.
Proof.
  intros Hx Hb Ha Hm. apply blocks_ok_mid in Hb as Hmid.
  destruct Hmid as ((Fp & _) & Hr & (Fq & _) & _). pose proof (merged_ok x r r' Hx Hr Hm) as Hr'.
  split; [done|]. split.
  - rewrite Forall_app, Forall_cons, !Forall_forall in Ha. destruct Ha as (Ap & Ar & Aq).
    rewrite Forall_forall in Fp, Fq.
    eapply blocks_ok_replace; [done|done|..]; intros y Hy Hyr;
      [specialize (Ap y Hy); specialize (Fp y Hy)|specialize (Aq y Hy); specialize (Fq y Hy)];
      unfold merged, apart, before, block_ok in *; destruct Hm as [[? ->]|[? ->]]; simpl in *; lia.
  - intros a. rewrite !covers_app, !covers_cons, (merged_inside x r r') by done. tauto.
Qed.

(** Two entries that touch, replaced by their union. *)
Lemma union_in_place p b s y q :
  blocks_ok (p ++ mkProp b s :: y :: q) → base y = b + s →
  u32 (s + psize y) = s + psize y ∧ blocks_ok (p ++ mkProp b (s + psize y) :: q) ∧
  ∀ a, covers (p ++ mkProp b (s + psize y) :: q) a ↔ covers (p ++ mkProp b s :: y :: q) a.
Proof.
  intros Hb D. apply blocks_ok_mid in Hb as (Bp & Hr & Hyq & Hpr & Hrq & Hpq).
  apply (blocks_ok_mid [] y q) in Hyq as (_ & Hy & Bq & _ & Hyq & _).
  unfold block_ok in *. simpl in *. split; [apply u32_small; lia|]. split.
  - apply blocks_ok_mid. unfold block_ok, before in *. simpl in *. split_and!; try done; try lia.
    + intros t Ht. specialize (Hyq t Ht). lia.
    + intros t u Ht Hu. apply Hpq; [done|by right].
  - intros a. rewrite !covers_app, !covers_cons. unfold inside. simpl.
    split; [intros [?|[?|?]]|intros [?|[?|[?|?]]]]; auto; try tauto;
      destruct (decide (a < b + s)); (right; left; lia) || (right; right; left; lia) || tauto.
Qed.

(** After the block has been joined with an entry, that entry may touch the
    next one and is then joined with it as well. *)
Lemma lmb_add_tail_coalesced x p r r' q rest sz :
  block_ok x → blocks_ok (p ++ r :: q) → Forall (apart x) (p ++ r :: q) → merged x r r' →
  (length ((p ++ r :: q) ++ rest) = S MAX_LMB_REGIONS)%nat →
  (length (p ++ r :: q) ≤ MAX_LMB_REGIONS)%nat →
  ∃ ret rgn', 0 < ret ∧ added (p ++ r :: q) x rgn' ∧
    lmb_add_tail (mkRgn (length (p ++ r :: q)) sz ((p ++ r' :: q) ++ rest))
      (base x) (psize x) (length p) 1 = Some (ret, rgn').
Proof.
  intros Hx Hb Ha Hm Hlen Hcnt.
  destruct (merged_in_place x p r r' q Hx Hb Ha Hm) as (Hr' & Hb' & Hcov).
  assert (Hl' : length (p ++ r' :: q) = length (p ++ r :: q)) by (rewrite !length_app; done).
  unfold lmb_add_tail. cbn [cnt region].
  assert (Hn0 : (length (p ++ r :: q) =? 0)%nat = false)
    by (apply Nat.eqb_neq; rewrite length_app; simpl; lia).
  rewrite Hn0, orb_false_r.
  destruct q as [|y q].
  { destruct (Nat.ltb_spec (S (length p)) (length (p ++ [r]))) as [H|_];
      [rewrite length_app in H; simpl in H; lia|].
    simpl. eexists _, _. split; [|split; [|done]]; [lia|]. rewrite <- Hl'.
    apply added_intro; auto; rewrite ?length_app in *; simpl in *; lia. }
  rewrite (proj2 (Nat.ltb_lt _ _)) by (rewrite length_app; simpl; lia).
  unfold lmb_regions_adjacent, lmb_coalesce_regions. cbn [region].
  rewrite <- app_assoc. cbn [app].
  assert (Lr : (p ++ r' :: y :: q ++ rest) !! length p = Some r') by (by apply list_lookup_middle).
  rewrite Lr. cbn [mbind option_bind].
  assert (Ly : (p ++ r' :: y :: q ++ rest) !! S (length p) = Some y).
  { rewrite lookup_app_r by lia. by replace (S (length p) - length p)%nat with 1%nat by lia. }
  rewrite Ly. cbn [mbind option_bind].
  apply blocks_ok_mid in Hb' as Hmid. destruct Hmid as (_ & _ & Bq & _ & Hrq & _).
  assert (Hy : block_ok y) by (destruct Bq as [Fq _]; by apply Forall_cons in Fq as [? _]).
  assert (Hry : before r' y) by (apply Hrq; by left).
  destruct r' as [br sr]. rewrite adjacent_cases by done. cbn [base psize].
  case_decide as D1; cycle 1.
  { case_decide as D2; [unfold before, block_ok in *; simpl in *; lia|].
    simpl. eexists _, _. split; [|split; [|done]]; [lia|].
    change (p ++ {| base := br; psize := sr |} :: y :: q ++ rest) with
      (p ++ ({| base := br; psize := sr |} :: y :: q) ++ rest). rewrite app_assoc, <- Hl'.
    apply added_intro; auto; rewrite ?length_app in *; simpl in *; lia. }
  destruct (union_in_place p br sr y q Hb' D1) as (Hu & Hb2 & Hc2).
  cbn [Z.eqb]. unfold lmb_remove_region. cbn [cnt set_region region rsize]. rewrite Hn0, Hu.
  rewrite insert_app_r_alt, Nat.sub_diag by done. cbn [insert list_insert].
  set (z := mkProp br (sr + psize y)) in *.
  destruct (shift_down_ok q (p ++ [z]) y rest) as (w & Ew).
  rewrite length_app, Nat.add_1_r, <- !app_assoc in Ew. simpl in Ew.
  replace (length (p ++ r :: y :: q) - 1 - S (length p))%nat with (length q)
    by (rewrite length_app; simpl; lia).
  rewrite Ew. simpl. eexists _, _. split; [|split; [|done]]; [lia|].
  replace (length (p ++ r :: y :: q) - 1)%nat with (length (p ++ z :: q))
    by (rewrite !length_app; simpl; lia).
  change (p ++ z :: q ++ w :: rest) with (p ++ (z :: q) ++ w :: rest). rewrite app_assoc.
  apply added_intro; [rewrite ?length_app in *; simpl in *; lia..|done|].
  intros a. by rewrite Hc2.
Qed.

(** ** Insertion into the sorted table *)

(** [x] goes between the entries that do not start above it and the others. *)
Lemma insert_down_ok x l y rest :
  (l = [] → base x < base y) → StronglySorted before l → Forall block_ok l →
  ∃ l1 l2, l = l1 ++ l2 ∧ Forall (λ r, base r ≤ base x) l1 ∧ Forall (λ r, base x < base r) l2 ∧
    (k ← insert_down (length l) x (l ++ y :: rest); insert_first x k) =
      Some (l1 ++ x :: l2 ++ rest).
Proof.
  revert y rest. induction l as [|r l IH] using rev_ind; intros y rest Hy Hs Hb.
  { exists [], []. split; [done|]. split; [done|]. split; [done|].
    simpl. unfold insert_first. simpl. by rewrite (proj2 (Z.ltb_lt _ _)) by auto. }
  rewrite length_app, Nat.add_1_r, <- app_assoc. cbn [insert_down app].
  rewrite list_lookup_middle by done. cbn [mbind option_bind].
  apply StronglySorted_app in Hs as (Hlr & Hs & _).
  apply Forall_app in Hb as [Hb [Hr _]%Forall_cons].
  destruct (Z.ltb_spec (base x) (base r)) as [Hlt|Hge].
  - rewrite insert_app_r_alt by lia.
    replace (S (length l) - length l)%nat with 1%nat by lia. cbn [insert list_insert].
    destruct (IH r (r :: rest)) as (l1 & l2 & -> & F1 & F2 & E); [done..|].
    exists l1, (l2 ++ [r]). rewrite E, <- !app_assoc. split; [done|]. split; [done|].
    split; [apply Forall_app; split; [done|by repeat constructor]|done].
  - exists (l ++ [r]), []. rewrite app_nil_r. split; [done|].
    assert (F : Forall (λ q, base q ≤ base x) (l ++ [r])).
    { apply Forall_app. split; [|by repeat constructor]. apply Forall_forall. intros q Hq.
      specialize (Hlr q r Hq ltac:(by left)). rewrite Forall_forall in Hb. specialize (Hb q Hq).
      unfold before, block_ok in *. lia. }
    split; [done|]. split; [done|]. cbn [mbind option_bind].
    rewrite insert_app_r_alt by lia.
    replace (S (length l) - length l)%nat with 1%nat by lia. cbn [insert list_insert].
    unfold insert_first. rewrite <- app_assoc. cbn [app].
    destruct l as [|q l]; simpl in *.
    + by rewrite (proj2 (Z.ltb_ge _ _)) by lia.
    + apply Forall_cons in F as [Fq _]. by rewrite (proj2 (Z.ltb_ge _ _)) by lia.
Qed.

(** A block apart from the others, put at its place. *)
Lemma insert_in_place x l1 l2 :
  block_ok x → blocks_ok (l1 ++ l2) → Forall (apart x) (l1 ++ l2) →
  Forall (λ r, base r ≤ base x) l1 → Forall (λ r, base x < base r) l2 →
  blocks_ok (l1 ++ x :: l2) ∧
  ∀ a, covers (l1 ++ x :: l2) a ↔ covers (l1 ++ l2) a ∨ inside a x.
Proof.
  intros Hx [Hf Hs] Ha F1 F2. rewrite Forall_app in Hf, Ha. destruct Hf as [B1 B2], Ha as [A1 A2].
  apply StronglySorted_app in Hs as (H12 & S1 & S2). rewrite Forall_forall in F1, F2, A1, A2. split.
  - apply blocks_ok_mid. split_and!; auto; [by split|by split|..].
    + intros p Hp. specialize (F1 p Hp). specialize (A1 p Hp). rewrite Forall_forall in B1.
      specialize (B1 p Hp). unfold apart, before, block_ok in *. lia.
    + intros q Hq. specialize (F2 q Hq). specialize (A2 q Hq). rewrite Forall_forall in B2.
      specialize (B2 q Hq). unfold apart, before, block_ok in *. lia.
  - intros a. rewrite !covers_app, covers_cons. tauto.
Qed.

(** ** Adding a block *)

Lemma lmb_add_region_ok rgn x :
  rgn_ok rgn → block_ok x → Forall (apart x) (regs rgn) →
  ∃ ret rgn', lmb_add_region rgn (base x) (psize x) = Some (ret, rgn') ∧
    ((0 ≤ ret ∧ added (regs rgn) x rgn') ∨
     (ret = -1 ∧ rgn' = rgn ∧ cnt rgn = MAX_LMB_REGIONS)).
Proof.
  intros [Har Hcnt Hb] Hx Ha. unfold lmb_add_region.
  destruct (regs_split rgn) as (rest & Hreg & Hlen); [rewrite Har; unfold MAX_LMB_REGIONS in *; lia|].
  destruct x as [b s]. cbn [base psize] in *.
  set (l := regs rgn) in *. destruct l as [|r0 l0] eqn:El; [simpl in Hlen; lia|]. rewrite <- El in *.
  assert (H0 : region rgn !! 0%nat = Some r0) by (by rewrite Hreg, El).
  rewrite H0. cbn [mbind option_bind].
  assert (Hr0 : psize r0 =? 0 = false).
  { apply Z.eqb_neq. destruct Hb as [Fb _]. rewrite El in Fb.
    apply Forall_cons in Fb as [(? & ? & ?) _]. lia. }
  rewrite Hr0, andb_false_r, Hreg, <- Hlen.
  destruct (lmb_scan_ok b s l [] rest) as [(p & r & r' & q & Epq & Hm & E)|E];
    [done|apply Hb|done|..]; simpl in E; rewrite E; cbn [mbind option_bind].
  - unfold set_region. rewrite Epq in *.
    destruct (lmb_add_tail_coalesced (mkProp b s) p r r' q rest (rsize rgn))
      as (ret & rgn' & Hret & Had & Et); auto; [congruence|lia|].
    cbn [base psize] in Et. rewrite <- Hlen, Et. eexists _, _. split; [done|]. left. split; [lia|done].
  - unfold lmb_add_tail.
    assert (Hno : (S (length l) <? cnt rgn)%nat || (cnt rgn =? 0)%nat = false).
    { rewrite Hlen. destruct (Nat.ltb_spec (S (cnt rgn)) (cnt rgn)); [lia|].
      destruct (Nat.eqb_spec (cnt rgn) 0); [lia|done]. }
    rewrite Hno. cbn [mbind option_bind Z.eqb negb].
    destruct (Nat.leb_spec MAX_LMB_REGIONS (cnt rgn)) as [Hfull|Hroom].
    { eexists _, _. split; [done|]. right. split; [done|]. split; [done|lia]. }
    destruct rest as [|y rest].
    { rewrite Hreg, length_app in Har. simpl in Har. unfold MAX_LMB_REGIONS in *. lia. }
    destruct (insert_down_ok (mkProp b s) l y rest) as (l1 & l2 & E12 & F1 & F2 & Ei);
      [by rewrite El|apply Hb|apply Hb|].
    rewrite Hreg, <- Hlen. apply bind_Some in Ei as (k & -> & Ek). cbn [mbind option_bind].
    rewrite Ek. cbn [mbind option_bind]. eexists _, _. split; [done|]. left. split; [lia|].
    rewrite E12 in *. destruct (insert_in_place (mkProp b s) l1 l2) as [Hb' Hc']; auto.
    change (l1 ++ {| base := b; psize := s |} :: l2 ++ rest) with
      (l1 ++ ({| base := b; psize := s |} :: l2) ++ rest). rewrite app_assoc.
    replace (S (length (l1 ++ l2))) with (length (l1 ++ mkProp b s :: l2))
      by (rewrite !length_app; simpl; lia).
    apply added_intro; auto;
      [rewrite Hreg in Har|]; rewrite !length_app in *; simpl in *; lia.
Qed.

(** ** A table that holds nothing yet *)

(** What [lmb_init] makes: one dummy entry of size 0. *)
Record rgn_empty (rgn : lmb_region) : Prop := {
  re_array : length (region rgn) = S MAX_LMB_REGIONS;
  re_cnt : cnt rgn = 1%nat;
  re_dummy : region rgn !! 0%nat = Some (mkProp 0 0);
}.

Definition table_ok (rgn : lmb_region) : Prop := rgn_ok rgn ∨ rgn_empty rgn.

Lemma empty_regs rgn : rgn_empty rgn → regs rgn = [mkProp 0 0].
Proof.
  intros [_ Hc H0]. unfold regs. rewrite Hc. destruct (region rgn) as [|y l]; [done|].
  injection H0 as ->. by destruct l.
Qed.

Lemma add_region_table rgn x :
  table_ok rgn → block_ok x → Forall (apart x) (regs rgn) →
  ∃ ret rgn', lmb_add_region rgn (base x) (psize x) = Some (ret, rgn') ∧
    ((0 ≤ ret ∧ added (regs rgn) x rgn') ∨
     (ret = -1 ∧ rgn' = rgn ∧ cnt rgn = MAX_LMB_REGIONS)).
Proof.
  intros [Hok|He] Hx Ha; [by apply lmb_add_region_ok|]. pose proof (empty_regs rgn He) as Er.
  destruct He as [Har Hc H0]. unfold lmb_add_region. rewrite H0. cbn [mbind option_bind].
  rewrite Hc. simpl. eexists _, _. split; [done|]. left. split; [done|].
  destruct (region rgn) as [|y l] eqn:El; [done|]. simpl in H0. simplify_eq.
  unfold set_region. rewrite Hc, Er. destruct x as [b s].
  apply (added_intro [mkProp 0 0] (mkProp b s) [mkProp b s] l (rsize rgn)); simpl in *.
  - lia.
  - unfold MAX_LMB_REGIONS. lia.
  - split; [apply Forall_cons; split; [done|constructor]|repeat constructor].
  - intros a. unfold covers. rewrite !Exists_cons, !Exists_nil. unfold inside. simpl. lia.
Qed.

(** ** Freeing a block *)

(** A table whose blocks are in order; freeing may leave it without entries. *)
Record rgn_inv (rgn : lmb_region) : Prop := {
  ri_array : length (region rgn) = S MAX_LMB_REGIONS;
  ri_cnt : (cnt rgn ≤ MAX_LMB_REGIONS)%nat;
  ri_blocks : blocks_ok (regs rgn);
}.

Lemma rgn_inv_intro l rest sz :
  (length (l ++ rest) = S MAX_LMB_REGIONS)%nat → (length l ≤ MAX_LMB_REGIONS)%nat → blocks_ok l →
  rgn_inv (mkRgn (length l) sz (l ++ rest)) ∧ regs (mkRgn (length l) sz (l ++ rest)) = l.
Proof. intros Hl Hc Hb. rewrite regs_of by done. split; [|done]. split; [done..|by rewrite regs_of]. Qed.

Lemma find_containing_ok b e l2 l1 rest :
  Forall block_ok l2 →
  (∃ p r q, l2 = p ++ r :: q ∧ base r ≤ b ∧ e ≤ base r + psize r ∧
    find_containing (length l2) (length l1) b e (l1 ++ l2 ++ rest) =
      Some (Some (length (l1 ++ p)))) ∨
  (find_containing (length l2) (length l1) b e (l1 ++ l2 ++ rest) = Some None ∧
   ∀ r, r ∈ l2 → ¬ (base r ≤ b ∧ e ≤ base r + psize r)).
Proof.
  revert l1. induction l2 as [|r l2 IH]; intros l1 F.
  { right. split; [done|]. intros r Hr. by apply not_elem_of_nil in Hr. }
  apply Forall_cons in F as [(? & ? & ?) F]. simpl. rewrite list_lookup_middle by done.
  cbn [mbind option_bind]. rewrite u32_small by lia.
  destruct (Z.leb_spec (base r) b), (Z.leb_spec e (base r + psize r)); simpl.
  { left. exists [], r, l2. rewrite app_nil_r. done. }
  all: specialize (IH (l1 ++ [r]) F); rewrite length_app, Nat.add_1_r in IH;
    rewrite <- app_assoc in IH; simpl in IH;
    destruct IH as [(p & r0 & q & -> & Hb & He & E)|[E Hn]];
    [left; exists (r :: p), r0, q; rewrite E, <- !app_assoc; done
    |right; rewrite E; split; [done|]; intros z [->|Hz]%elem_of_cons; [lia|by apply Hn]].
Qed.

(** Taking an interval [b, e) out of one block of the table. *)
Lemma covers_cut p r q b e p' a :
  blocks_ok (p ++ r :: q) → base r ≤ b → b < e → e ≤ base r + psize r →
  (covers p' a ↔ inside a r ∧ ¬ (b ≤ a < e)) →
  (covers (p ++ p' ++ q) a ↔ covers (p ++ r :: q) a ∧ ¬ (b ≤ a < e)).
Proof.
  intros (Bp & Hr & Bq & Hpr & Hrq & _)%blocks_ok_mid Hb He Hbe Hp'.
  rewrite !covers_app, covers_cons, Hp'.
  assert (Np : covers p a → ¬ (b ≤ a < e)).
  { unfold covers. rewrite Exists_exists. intros (y & Hy & Hin). specialize (Hpr y Hy).
    unfold inside, before in *. lia. }
  assert (Nq : covers q a → ¬ (b ≤ a < e)).
  { unfold covers. rewrite Exists_exists. intros (y & Hy & Hin). specialize (Hrq y Hy).
    unfold inside, before in *. lia. }
  tauto.
Qed.

(** What freeing the block [x] may do. *)
Inductive freed (rgn : lmb_region) (x : lmb_property) : Z → lmb_region → Prop :=
  | freed_ok ret rgn' :
      0 ≤ ret → rgn_inv rgn' →
      (∀ a, covers (regs rgn') a ↔ covers (regs rgn) a ∧ ¬ inside a x) →
      freed rgn x ret rgn'
  | freed_none :
      (∀ r, r ∈ regs rgn → ¬ (base r ≤ base x ∧ base x + psize x ≤ base r + psize r)) →
      freed rgn x (-1) rgn
  | freed_lost r rgn' :
      (* no room for the part behind the hole: it is lost as well *)
      cnt rgn = MAX_LMB_REGIONS → r ∈ regs rgn →
      base r < base x → base x + psize x < base r + psize r → rgn_inv rgn' →
      (∀ a, covers (regs rgn') a ↔ covers (regs rgn) a ∧ ¬ (base x ≤ a < base r + psize r)) →
      freed rgn x (-1) rgn'.

(** The block replaced by what is left of it in front of the hole. *)
Lemma blocks_ok_shrink p r r' q :
  blocks_ok (p ++ r :: q) → block_ok r' → base r ≤ base r' → base r' + psize r' ≤ base r + psize r →
  blocks_ok (p ++ r' :: q).
Proof.
  intros Hb Hr' H1 H2. eapply blocks_ok_replace; [done|done|..]; unfold before; intros; lia.
Qed.

Lemma inside_one r a : covers [r] a ↔ inside a r.
Proof. unfold covers. rewrite Exists_cons, Exists_nil. tauto. Qed.

(** The table with the middle entry replaced by a part of it. *)
Lemma freed_replace rgn x p r r' q rest :
  regs rgn = p ++ r :: q → (length ((p ++ r :: q) ++ rest) = S MAX_LMB_REGIONS)%nat →
  (length (p ++ r :: q) ≤ MAX_LMB_REGIONS)%nat → cnt rgn = length (p ++ r :: q) →
  blocks_ok (p ++ r :: q) → block_ok x → block_ok r' →
  base r ≤ base x → base x + psize x ≤ base r + psize r →
  base r ≤ base r' → base r' + psize r' ≤ base r + psize r →
  (∀ a, inside a r' ↔ inside a r ∧ ¬ inside a x) →
  freed rgn x 0 (mkRgn (cnt rgn) (rsize rgn) (p ++ r' :: q ++ rest)).
Proof.
  intros Er Hl Hc Hcnt Hb Hx Hr' H1 H2 H3 H4 Ha.
  assert (Hl' : length (p ++ r' :: q) = length (p ++ r :: q)) by (rewrite !length_app; done).
  destruct (rgn_inv_intro (p ++ r' :: q) rest (rsize rgn)) as [Hi Hregs].
  { rewrite length_app, Hl', <- length_app. done. }
  { by rewrite Hl'. }
  { by eapply blocks_ok_shrink. }
  rewrite <- app_assoc in Hi, Hregs. simpl in Hi, Hregs. rewrite Hl', <- Hcnt in Hi, Hregs.
  apply freed_ok; [done|done|]. intros a. rewrite Hregs, Er.
  apply (covers_cut p r q (base x) (base x + psize x) [r'] a); auto; [destruct Hx; lia|].
  rewrite inside_one. apply Ha.
Qed.

Lemma lmb_free_split rgn x p r q rest :
  regs rgn = p ++ r :: q → region rgn = (p ++ r :: q) ++ rest →
  (length (region rgn) = S MAX_LMB_REGIONS)%nat →
  (length (p ++ r :: q) ≤ MAX_LMB_REGIONS)%nat → cnt rgn = length (p ++ r :: q) →
  blocks_ok (p ++ r :: q) → block_ok x → base r < base x → base x + psize x < base r + psize r →
  ∃ ret rgn', lmb_add_region
      (set_region (p ++ mkProp (base r) (base x - base r) :: q ++ rest) rgn)
      (base x + psize x) (base r + psize r - (base x + psize x)) = Some (ret, rgn') ∧
    freed rgn x ret rgn'.
Proof.
  intros Er Hreg Har Hc Hcnt Hb Hx H1 H2. pose proof Hx as (Hx1 & Hx2 & Hx3).
  set (r' := mkProp (base r) (base x - base r)).
  set (t := mkProp (base x + psize x) (base r + psize r - (base x + psize x))).
  apply blocks_ok_mid in Hb as Hmid. destruct Hmid as (Bp & Hr & Bq & Hpr & Hrq & Hpq).
  assert (Hr' : block_ok r') by (unfold block_ok in *; simpl; lia).
  assert (Ht : block_ok t) by (unfold block_ok in *; simpl; lia).
  assert (Hb' : blocks_ok (p ++ r' :: q)) by (eapply blocks_ok_shrink; [done|done|..]; simpl; lia).
  assert (Hl' : length (p ++ r' :: q) = length (p ++ r :: q)) by (rewrite !length_app; done).
  set (rgn1 := set_region _ rgn).
  assert (E1 : rgn1 = mkRgn (length (p ++ r' :: q)) (rsize rgn) ((p ++ r' :: q) ++ rest)).
  { unfold rgn1, set_region. rewrite Hl', <- Hcnt, <- app_assoc. done. }
  destruct (rgn_inv_intro (p ++ r' :: q) rest (rsize rgn)) as [Hi Hregs]; [|by rewrite Hl'|done|].
  { rewrite length_app, Hl', <- length_app, <- Hreg. done. }
  rewrite <- E1 in Hi, Hregs.
  assert (Hok : rgn_ok rgn1).
  { destruct Hi as [? ? ?]. split; auto. rewrite E1. simpl. rewrite length_app in *. simpl in *. lia. }
  assert (Ha : Forall (apart t) (regs rgn1)).
  { rewrite Hregs. apply Forall_app. split; [|apply Forall_cons; split].
    - apply Forall_forall. intros y Hy. right. specialize (Hpr y Hy). unfold before in *. simpl. lia.
    - right. unfold before. simpl. lia.
    - apply Forall_forall. intros y Hy. left. specialize (Hrq y Hy). unfold before in *. simpl. lia. }
  destruct (lmb_add_region_ok rgn1 t Hok Ht Ha) as (ret & rgn' & E & Hres).
  exists ret, rgn'. split; [exact E|].
  destruct Hres as [[Hret [Hok' Hcov]]|(-> & -> & Hfull)].
  - destruct Hok' as [? ? ?]. apply freed_ok; [done|by split; auto; lia|].
    intros a. rewrite Hcov, Hregs, Er.
    rewrite <- (covers_cut p r q (base x) (base x + psize x) [r'; t] a); [|done|lia..|].
    + rewrite !covers_app, !covers_cons, covers_nil. tauto.
    + rewrite covers_cons, inside_one. unfold inside. simpl. lia.
  - apply (freed_lost rgn x r rgn1); auto.
    + rewrite Er. apply elem_of_app. right. by left.
    + intros a. rewrite Hregs, Er.
      apply (covers_cut p r q (base x) (base r + psize r) [r'] a); [done|lia..|].
      rewrite inside_one. unfold inside. simpl. lia.
Qed.

Lemma lmb_free_region_ok rgn x :
  rgn_ok rgn → block_ok x →
  ∃ ret rgn', lmb_free_region rgn (base x) (psize x) = Some (ret, rgn') ∧ freed rgn x ret rgn'.
Proof.
  intros [Har Hcnt Hb] Hx. unfold lmb_free_region.
  destruct (regs_split rgn) as (rest & Hreg & Hlen); [rewrite Har; unfold MAX_LMB_REGIONS in *; lia|].
  pose proof Hx as (Hx1 & Hx2 & Hx3). rewrite u32_small by lia.
  destruct (find_containing_ok (base x) (base x + psize x) (regs rgn) [] rest)
    as [(p & r & q & Er & H1 & H2 & E)|[E Hn]]; [apply Hb|..]; simpl in E;
    rewrite <- Hreg, Hlen in E; rewrite E; cbn [mbind option_bind]; cycle 1.
  { eexists _, _. split; [done|]. by apply freed_none. }
  rewrite Er in Hreg, Hlen, Hb.
  assert (Hr : block_ok r) by (by apply blocks_ok_mid in Hb as (_ & ? & _)).
  assert (Lr : region rgn !! length p = Some r).
  { rewrite Hreg, <- app_assoc. by apply list_lookup_middle. }
  rewrite Lr. cbn [mbind option_bind]. pose proof Hr as (Hr1 & Hr2 & Hr3).
  rewrite (u32_small (base r + psize r)) by lia.
  assert (Ins : ∀ y, <[length p := y]> (region rgn) = p ++ y :: q ++ rest).
  { intros y. rewrite Hreg, <- app_assoc, insert_app_r_alt, Nat.sub_diag by done. done. }
  destruct (Z.eqb_spec (base r) (base x)) as [Eb|Eb],
    (Z.eqb_spec (base r + psize r) (base x + psize x)) as [Ee|Ee]; simpl.
  - (* the whole entry *)
    unfold lmb_remove_region. rewrite <- Hlen.
    destruct (Nat.eqb_spec (length (p ++ r :: q)) 0) as [E0|_];
      [rewrite length_app in E0; simpl in E0; lia|].
    destruct (shift_down_ok q p r rest) as (z & Ez).
    replace (length (p ++ r :: q) - 1 - length p)%nat with (length q)
      by (rewrite length_app; simpl; lia).
    rewrite Hreg, <- app_assoc. simpl. rewrite Ez. simpl. eexists _, _. split; [done|].
    replace (length (p ++ r :: q) - 1)%nat with (length (p ++ q)) by (rewrite !length_app; simpl; lia).
    rewrite app_assoc.
    assert (Hbq : blocks_ok (p ++ q)).
    { apply blocks_ok_mid in Hb as ([Fp Sp] & _ & [Fq Sq] & _ & _ & Hpq).
      split; [by apply Forall_app|]. by apply StronglySorted_app_2. }
    destruct (rgn_inv_intro (p ++ q) (z :: rest) (rsize rgn)) as [Hi Hregs]; [|..|done|].
    { rewrite Hreg in Har. rewrite !length_app in *. simpl in *. lia. }
    { rewrite length_app in *. simpl in *. lia. }
    apply freed_ok; [done|done|]. intros a. rewrite Hregs, Er.
    rewrite <- (covers_cut p r q (base x) (base x + psize x) [] a); [done|done|lia..|].
    rewrite covers_nil. unfold inside. lia.
  - rewrite u32_small, Ins by lia. eexists _, _. split; [done|].
    apply (freed_replace rgn x p r _ q rest); auto; try lia; try congruence;
      unfold block_ok, inside; simpl; lia.
  - rewrite u32_small, Ins by lia. eexists _, _. split; [done|].
    apply (freed_replace rgn x p r _ q rest); auto; try lia; try congruence;
      unfold block_ok, inside; simpl; lia.
  - rewrite !u32_small, Ins by lia. apply (lmb_free_split rgn x p r q rest); auto; lia.
Qed.

(** ** Allocation *)

(** A block of memory or of reserved memory; the dummy entry included. *)
Definition entry_ok (r : lmb_property) : Prop :=
  0 ≤ base r ∧ 0 ≤ psize r ∧ base r + psize r < 2 ^ 32.

(** [x] shares no address with [r]. *)
Definition clear_of (x r : lmb_property) : Prop := ∀ a, ¬ (inside a x ∧ inside a r).

Lemma overlap_apart b s r :
  block_ok (mkProp b s) → entry_ok r →
  lmb_addrs_overlap b s (base r) (psize r) = false → apart (mkProp b s) r.
Proof.
  intros (? & ? & ?) (? & ? & ?). simpl in *. unfold lmb_addrs_overlap.
  rewrite !u32_small by lia. unfold apart, before. simpl.
  destruct (Z.ltb_spec b (base r + psize r)), (Z.ltb_spec (base r) (b + s)); simpl; intros; try done; lia.
Qed.

Lemma overlaps_loop_ok b s l2 l1 rest :
  block_ok (mkProp b s) → Forall entry_ok l2 →
  (∃ p r q, l2 = p ++ r :: q ∧ base r < b + s ∧
    overlaps_loop (length l2) (length l1) b s (l1 ++ l2 ++ rest) = Some (Some (length (l1 ++ p)))) ∨
  (overlaps_loop (length l2) (length l1) b s (l1 ++ l2 ++ rest) = Some None ∧
   Forall (apart (mkProp b s)) l2).
Proof.
  intros Hx. revert l1. induction l2 as [|r l2 IH]; intros l1 F; [by right|].
  apply Forall_cons in F as [Fr F]. simpl. rewrite list_lookup_middle by done.
  cbn [mbind option_bind].
  destruct (lmb_addrs_overlap b s (base r) (psize r)) eqn:O.
  { left. exists [], r, l2. rewrite app_nil_r. split; [done|]. split; [|done].
    destruct Hx as (? & ? & ?), Fr as (? & ? & ?). simpl in *. unfold lmb_addrs_overlap in O.
    rewrite !u32_small in O by lia. lia. }
  apply overlap_apart in O; [|done..].
  specialize (IH (l1 ++ [r]) F). rewrite length_app, Nat.add_1_r, <- app_assoc in IH. simpl in IH.
  destruct IH as [(p & r0 & q & -> & Hb & E)|[E Hn]].
  - left. exists (r :: p), r0, q. by rewrite E, <- !app_assoc.
  - right. by rewrite E, Forall_cons.
Qed.

(** *** Alignment to a power of two *)

Definition pow2 (align : Z) : Prop := ∃ k, 0 ≤ k < 32 ∧ align = 2 ^ k.

Lemma align_down_eq addr align :
  pow2 align → 0 ≤ addr < 2 ^ 32 → lmb_align_down addr align = align * (addr / align).
Proof.
  intros (k & Hk & ->) Ha. unfold lmb_align_down.
  assert (2 ^ k ≤ 2 ^ 31) by (apply Z.pow_le_mono_r; lia).
  assert (0 < 2 ^ k) by (apply Z.pow_pos_nonneg; lia).
  rewrite (u32_small (2 ^ k - 1)) by lia.
  assert (E : Z.lnot (2 ^ k - 1) = - 2 ^ k) by (unfold Z.lnot; lia). rewrite E.
  assert (M : ∀ n, 0 ≤ n < 32 → Z.testbit (u32 (- 2 ^ k)) n = (k <=? n)).
  { intros n Hn. unfold u32. rewrite Z.mod_pow2_bits_low by lia.
    replace (- 2 ^ k) with (Z.lnot (Z.ones k)) by (rewrite Z.ones_equiv; unfold Z.lnot; lia).
    rewrite Z.lnot_spec by lia. rewrite Z.testbit_ones_nonneg by lia.
    destruct (Z.ltb_spec n k), (Z.leb_spec k n); done || lia. }
  rewrite Z.mul_comm, <- Z.shiftr_div_pow2, <- Z.shiftl_mul_pow2 by lia.
  apply Z.bits_inj'. intros n Hn. rewrite Z.land_spec, Z.shiftl_spec by lia.
  destruct (Z.ltb_spec n 32) as [H32|H32].
  - rewrite M by lia. destruct (Z.leb_spec k n).
    + rewrite Z.shiftr_spec, andb_true_r by lia. f_equal. lia.
    + rewrite (Z.testbit_neg_r _ (n - k)) by lia. apply andb_false_r.
  - assert (Hz : ∀ j, 32 ≤ j → Z.testbit addr j = false).
    { intros j Hj. destruct (decide (addr = 0)) as [->|]; [apply Z.bits_0|].
      apply Z.bits_above_log2; [lia|]. assert (Z.log2 addr < 32); [apply Z.log2_lt_pow2|]; lia. }
    rewrite Hz by lia. simpl. rewrite Z.shiftr_spec by lia. symmetry. apply Hz. lia.
Qed.

(** The aligned address: at or below, above the previous multiple. *)
Lemma align_down_ok addr align :
  pow2 align → 0 ≤ addr < 2 ^ 32 →
  (align | lmb_align_down addr align) ∧ 0 ≤ lmb_align_down addr align ≤ addr.
Proof.
  intros Hp Ha. rewrite align_down_eq by done.
  assert (0 < align) by (destruct Hp as (k & ? & ->); apply Z.pow_pos_nonneg; lia).
  pose proof (Z.mul_div_le addr align). pose proof (Z.div_pos addr align).
  split; [apply Z.divide_factor_l|nia].
Qed.

Lemma align_up_same size align :
  pow2 align → 0 ≤ size → size + align ≤ 2 ^ 32 → (align | size) → lmb_align_up size align = size.
Proof.
  intros Hp Hs Hb [c Hc].
  assert (0 < align) by (destruct Hp as (k & ? & ->); apply Z.pow_pos_nonneg; lia).
  change (lmb_align_up size align) with (lmb_align_down (u32 (size + u32 (align - 1))) align).
  rewrite (u32_small (align - 1)) by lia. rewrite (u32_small (size + (align - 1))) by lia.
  rewrite align_down_eq by (done || lia).
  replace (size + (align - 1)) with (align - 1 + c * align) by lia.
  rewrite Z.div_add, Z.div_small by lia. lia.
Qed.

(** *** The entries of a table, in order *)

Lemma blocks_ok_mono l i j r s :
  blocks_ok l → l !! i = Some r → l !! j = Some s → (i ≤ j)%nat → base r ≤ base s.
Proof.
  intros Hb Hi Hj Hij. destruct (decide (i = j)) as [->|]; [simplify_eq; lia|].
  pose proof (take_drop_middle l i r Hi) as E.
  rewrite <- E in Hb. apply blocks_ok_mid in Hb as (_ & (? & ? & ?) & _ & _ & Hq & _).
  assert (Hs : s ∈ drop (S i) l).
  { apply list_elem_of_lookup. exists (j - S i)%nat. rewrite lookup_drop. rewrite <- Hj. f_equal. lia. }
  specialize (Hq s Hs). unfold before in Hq. lia.
Qed.

Lemma table_entries rgn :
  table_ok rgn → Forall entry_ok (regs rgn) ∧ (cnt rgn ≤ length (region rgn))%nat ∧
  ∀ i j r s, regs rgn !! i = Some r → regs rgn !! j = Some s → (i ≤ j)%nat → base r ≤ base s.
Proof.
  intros [[Har Hc Hb]|He].
  - split; [|split; [unfold MAX_LMB_REGIONS in *; lia|intros; by eapply blocks_ok_mono]].
    destruct Hb as [F _]. eapply Forall_impl; [exact F|]. unfold block_ok, entry_ok. intros; lia.
  - rewrite (empty_regs rgn He). destruct He as [Har Hc _].
    split; [apply Forall_cons; split; [unfold entry_ok; simpl; lia|constructor]|].
    split; [rewrite Har, Hc; lia|]. intros [] [] r s; simpl; intros; simplify_eq; lia.
Qed.

(** What an allocation returns: 0, or an aligned block that ends at or below
    [limit], is clear of everything reserved and has been reserved. *)
Record alloc_ok (l : lmb) (lo limit size align : Z) (a : Z) (l' : lmb) : Prop := {
  al_memory : memory l' = memory l;
  al_result :
    (a = 0 ∧ l' = l) ∨
    (lo ≤ a ∧ 0 < a ∧ a + size ≤ limit ∧ (align | a) ∧
     Forall (apart (mkProp a size)) (regs (reserved l)) ∧
     added (regs (reserved l)) (mkProp a size) (reserved l'));
}.

(** One iteration: it ends the loop, or moves below an overlapping entry. *)
Lemma alloc_down_step k l lmbbase b size align limit :
  table_ok (reserved l) → pow2 align → 0 < size → (align | size) → size + align ≤ 2 ^ 32 →
  0 ≤ b → (align | b) → b + size ≤ limit → limit < 2 ^ 32 →
  (∃ o, alloc_down (S k) l lmbbase b size align = Some o ∧
    match o with inr _ => True | inl (a, l') => alloc_ok l lmbbase limit size align a l' end) ∨
  (∃ j r b', regs (reserved l) !! j = Some r ∧ base r < b + size ∧ b' + size ≤ base r ∧ 0 ≤ b' ∧
    (align | b') ∧ alloc_down (S k) l lmbbase b size align = alloc_down k l lmbbase b' size align).
Proof.
  intros Ht Hp Hs Hd Hsz Hb Hdb Hlim Hl32. destruct (table_entries _ Ht) as (Hent & Hcl & _).
  destruct (regs_split _ Hcl) as (rest & Hreg & Hlen). cbn [alloc_down].
  destruct (Z.eqb_spec b 0) as [|Hb0]; simpl; [left; by exists (inr tt)|].
  destruct (Z.leb_spec lmbbase b) as [Hlo|]; [|left; by exists (inr tt)].
  assert (Hx : block_ok (mkProp b size)) by (unfold block_ok; simpl; lia).
  unfold lmb_overlaps_region. rewrite Hreg, <- Hlen.
  destruct (overlaps_loop_ok b size (regs (reserved l)) [] rest Hx Hent)
    as [(p & r & q & Epq & Hlt & E)|[E Ha]]; simpl in E; rewrite E; cbn [mbind option_bind].
  - assert (Lr' : regs (reserved l) !! length p = Some r)
      by (rewrite Epq; by apply list_lookup_middle).
    rewrite (lookup_app_l_Some _ _ _ _ Lr'). cbn [mbind option_bind].
    assert (Er : entry_ok r)
      by (rewrite Forall_forall in Hent; apply Hent; by eapply list_elem_of_lookup_2).
    destruct Er as (? & ? & ?).
    destruct (Z.ltb_spec (base r) size) as [|Hge]; [left; by exists (inr tt)|].
    rewrite u32_small by lia.
    destruct (align_down_ok (base r - size) align Hp) as [Hd' Hle]; [lia|].
    right. eexists _, r, _. split_and!; [done|done| | |exact Hd'|done]; lia.
  - left. rewrite align_up_same by (done || lia).
    destruct (add_region_table (reserved l) (mkProp b size) Ht Hx Ha) as (ret & rgn' & Ea & Hres).
    simpl in Ea. rewrite Ea. cbn [mbind option_bind]. eexists. split; [done|].
    destruct Hres as [[Hret Had]|(-> & -> & _)].
    + rewrite (proj2 (Z.ltb_ge _ _)) by lia. split; [done|]. right. split_and!; auto; lia.
    + simpl. split; [done|]. left. by destruct l.
Qed.

(** Each iteration moves below one more entry, so [k + 1] iterations suffice
    when the entries from [k] on already start above the candidate. *)
Lemma alloc_down_ok k l lmbbase b size align limit :
  table_ok (reserved l) → pow2 align → 0 < size → (align | size) → size + align ≤ 2 ^ 32 →
  0 ≤ b → (align | b) → b + size ≤ limit → limit < 2 ^ 32 →
  (∀ i r, (k ≤ i)%nat → regs (reserved l) !! i = Some r → b + size ≤ base r) →
  ∃ o, alloc_down (S k) l lmbbase b size align = Some o ∧
    match o with inr _ => True | inl (a, l') => alloc_ok l lmbbase limit size align a l' end.
Proof.
  intros Ht Hp Hs Hd Hsz. destruct (table_entries _ Ht) as (_ & _ & Hmono).
  revert b. induction k as [|k IH]; intros b Hb Hdb Hlim Hl32 Hhi.
  - destruct (alloc_down_step 0 l lmbbase b size align limit) as [?|(j & r & b' & Hj & Hlt & _)]; auto.
    specialize (Hhi j r ltac:(lia) Hj). lia.
  - destruct (alloc_down_step (S k) l lmbbase b size align limit)
      as [?|(j & r & b' & Hj & Hlt & Hb' & Hb0 & Hdb' & ->)]; auto.
    apply IH; auto; [lia|]. intros i r' Hi Hr'.
    destruct (decide (j ≤ i)%nat) as [Hji|Hji].
    + specialize (Hmono j i r r' Hj Hr' Hji). lia.
    + specialize (Hhi j r ltac:(lia) Hj). lia.
Qed.

(** The first candidate of a memory block ends inside the block and below the
    limit that was asked for. *)
Definition alloc_limit (r : lmb_property) (max_addr : Z) : Z :=
  if max_addr =? LMB_ALLOC_ANYWHERE then base r + psize r else Z.min (base r + psize r) max_addr.

Lemma first_candidate_ok r size align max_addr b :
  entry_ok r → pow2 align → 0 < size → 0 ≤ max_addr < 2 ^ 32 →
  (max_addr ≠ LMB_ALLOC_ANYWHERE → size ≤ max_addr) →
  first_candidate r size align max_addr = Some b →
  0 ≤ b ∧ (align | b) ∧ b + size ≤ alloc_limit r max_addr ∧ alloc_limit r max_addr < 2 ^ 32.
Proof.
  intros (? & ? & ?) Hp Hs Hm Hsm. unfold first_candidate, alloc_limit, LMB_ALLOC_ANYWHERE in *.
  destruct (Z.ltb_spec (psize r) size); [done|].
  destruct (Z.eqb_spec max_addr 0).
  - intros [= <-]. rewrite !u32_small by (rewrite ?u32_small; lia).
    destruct (align_down_ok (base r + psize r - size) align Hp); [lia|]. split_and!; auto; lia.
  - destruct (Z.ltb_spec (base r) max_addr); [|done]. intros [= <-].
    specialize (Hsm ltac:(done)).
    rewrite !u32_small by (rewrite ?u32_small; lia).
    destruct (align_down_ok (Z.min (base r + psize r) max_addr - size) align Hp); [lia|].
    split_and!; auto; lia.
Qed.

(** The memory blocks are tried from the last to the first. *)
Lemma alloc_loop_ok i l size align max_addr :
  table_ok (reserved l) → Forall entry_ok (regs (memory l)) →
  (cnt (memory l) ≤ length (region (memory l)))%nat → (i ≤ cnt (memory l))%nat →
  pow2 align → 0 < size → (align | size) → size + align ≤ 2 ^ 32 →
  0 ≤ max_addr < 2 ^ 32 → (max_addr ≠ LMB_ALLOC_ANYWHERE → size ≤ max_addr) →
  ∃ a l', alloc_loop i l size align max_addr = Some (a, l') ∧
    ((a = 0 ∧ l' = l) ∨
     ∃ r, r ∈ regs (memory l) ∧ alloc_ok l (base r) (alloc_limit r max_addr) size align a l').
Proof.
  intros Ht Hm Hcl Hi Hp Hs Hd Hsz Hmx Hsm. induction i as [|i IH]; cbn [alloc_loop]; [eauto 10|].
  destruct (regs_split _ Hcl) as (rest & Hreg & Hlen).
  destruct (lookup_lt_is_Some_2 (regs (memory l)) i) as [r Hr]; [lia|].
  rewrite Hreg, (lookup_app_l_Some _ _ _ _ Hr). cbn [mbind option_bind].
  assert (Hin : r ∈ regs (memory l)) by (by eapply list_elem_of_lookup_2).
  assert (Er : entry_ok r) by (rewrite Forall_forall in Hm; by apply Hm).
  destruct (first_candidate r size align max_addr) as [b|] eqn:Ef; [|apply IH; lia].
  destruct (first_candidate_ok r size align max_addr b) as (Hb & Hdb & Hlim & H32); auto.
  destruct (table_entries _ Ht) as (_ & Hcr & _). destruct (regs_split _ Hcr) as (? & _ & Hlr).
  destruct (alloc_down_ok (cnt (reserved l)) l (base r) b size align (alloc_limit r max_addr))
    as (o & -> & Ho); auto.
  { intros j r' Hj Hr'. apply lookup_lt_Some in Hr'. lia. }
  cbn [mbind option_bind]. destruct o as [[a l']|]; [|apply IH; lia]. eauto 10.
Qed.

(** ** Statements *)

Definition sample_rgn (l : list lmb_property) : lmb_region :=
  mkRgn (length l) 0 (l ++ replicate (9 - length l) (mkProp 0 0)).

(** Memory from 0x1000 to 0x9000 with the block 0x7000-0x8000 reserved. *)
Definition sample_lmb : lmb :=
  mkLmb (sample_rgn [mkProp 4096 32768]) (sample_rgn [mkProp 28672 4096]).

Lemma sample_reserved_ok : rgn_ok (reserved sample_lmb).
Proof.
  split; [done|unfold MAX_LMB_REGIONS; simpl; lia|].
  split; [apply Forall_cons; split; [unfold block_ok; simpl; lia|constructor]|repeat constructor].
Qed.

(** C24: adding a block to a region table ([lmb_add], [lmb_reserve]): for a
    sorted table of disjoint blocks, or the table that [lmb_init] makes, and a
    block apart from its entries, the function returns; either the table is
    full and unchanged, or it is again sorted and disjoint and covers exactly
    the old addresses and those of the block, whether the block was joined
    with its neighbours or inserted. *)
Theorem lmb_add_region_correct rgn x :
  table_ok rgn → block_ok x → Forall (apart x) (regs rgn) →
  ∃ ret rgn', lmb_add_region rgn (base x) (psize x) = Some (ret, rgn') ∧
    ((0 ≤ ret ∧ added (regs rgn) x rgn') ∨
     (ret = -1 ∧ rgn' = rgn ∧ cnt rgn = MAX_LMB_REGIONS)).
Proof. apply add_region_table. Qed.

Lemma lmb_add_region_correct_witness :
  ∃ ret rgn', lmb_add_region (reserved sample_lmb) 24576 4096 = Some (ret, rgn') ∧
    ((0 ≤ ret ∧ added (regs (reserved sample_lmb)) (mkProp 24576 4096) rgn') ∨
     (ret = -1 ∧ rgn' = reserved sample_lmb ∧ cnt (reserved sample_lmb) = MAX_LMB_REGIONS)).
Proof.
  apply (lmb_add_region_correct (reserved sample_lmb) (mkProp 24576 4096)).
  - left. exact sample_reserved_ok.
  - unfold block_ok. simpl. lia.
  - apply Forall_cons. split; [left; unfold before; simpl; lia|constructor].
Defined.

(** Freeing a block: the function returns; either exactly the addresses of
    the block are no longer covered, or no entry contains the block and
    nothing changes, or, in a full table, the block was in the middle of an
    entry: then the call fails, but the entry has been cut and everything
    behind the block is lost with it. *)
Theorem lmb_free_correct rgn x :
  rgn_ok rgn → block_ok x →
  ∃ ret rgn', lmb_free_region rgn (base x) (psize x) = Some (ret, rgn') ∧ freed rgn x ret rgn'.
Proof. apply lmb_free_region_ok. Qed.

Lemma lmb_free_correct_witness :
  ∃ ret rgn', lmb_free_region (reserved sample_lmb) 28672 1024 = Some (ret, rgn') ∧
    freed (reserved sample_lmb) (mkProp 28672 1024) ret rgn'.
Proof.
  apply (lmb_free_correct (reserved sample_lmb) (mkProp 28672 1024)).
  - exact sample_reserved_ok.
  - unfold block_ok. simpl. lia.
Defined.

(** C25: allocation: for a size that is a multiple of the alignment, a power of
    two, that does not wrap around with it at 32 bits, and for a limit that is
    not below the size, [__lmb_alloc_base] terminates and returns 0 with nothing
    changed, or an aligned block inside one of the memory blocks and below
    [max_addr] that overlaps nothing reserved, and that is reserved afterwards.
    What happens otherwise is in [lmb_alloc_base_wraps] and [align_fifteen]. *)
Theorem lmb_alloc_base_correct l size align max_addr :
  table_ok (reserved l) → Forall entry_ok (regs (memory l)) →
  (cnt (memory l) ≤ length (region (memory l)))%nat →
  pow2 align → 0 < size → (align | size) → size + align ≤ 2 ^ 32 →
  0 ≤ max_addr < 2 ^ 32 → (max_addr ≠ LMB_ALLOC_ANYWHERE → size ≤ max_addr) →
  ∃ a l', __lmb_alloc_base l size align max_addr = Some (a, l') ∧
    ((a = 0 ∧ l' = l) ∨
     ∃ r, r ∈ regs (memory l) ∧ alloc_ok l (base r) (alloc_limit r max_addr) size align a l').
Proof. intros. apply alloc_loop_ok; auto. Qed.

Lemma lmb_alloc_base_correct_witness :
  (fst <$> __lmb_alloc_base sample_lmb 8192 4096 0 = Some 20480) ∧
  ∃ a l', __lmb_alloc_base sample_lmb 8192 4096 0 = Some (a, l') ∧
    ((a = 0 ∧ l' = sample_lmb) ∨
     ∃ r, r ∈ regs (memory sample_lmb) ∧
       alloc_ok sample_lmb (base r) (alloc_limit r 0) 8192 4096 a l').
Proof.
  split; [vm_compute; reflexivity|].
  apply (lmb_alloc_base_correct sample_lmb 8192 4096 0).
  - left. exact sample_reserved_ok.
  - apply Forall_cons. split; [unfold entry_ok; simpl; lia|constructor].
  - simpl. lia.
  - exists 12. split; [lia|reflexivity].
  - lia.
  - exists 2. reflexivity.
  - lia.
  - lia.
  - intros H. contradiction H. reflexivity.
Defined.

(** A limit below the size makes [base - size] wrap around: with memory at
    address 0 the allocator returns a block near the end of the address
    space, where there is no memory. *)
Theorem lmb_alloc_base_wraps :
  let l := mkLmb (sample_rgn [mkProp 0 65536]) (sample_rgn [mkProp 28672 4096]) in
  fst <$> __lmb_alloc_base l 8192 4096 4096 = Some 4294963200.
Proof. vm_compute. reflexivity. Qed.

(** The alignment 0xf that image.c asks for is no power of two: the mask clears
    the bits 1 to 3 and keeps bit 0, so an odd address stays odd. *)
Lemma align_fifteen : lmb_align_down 0x10ff 0xf = 0x10f1 ∧ lmb_align_down 0x10fe 0xf = 0x10f0.
Proof. done. Qed.

(** The state a call leaves, for the concrete runs below. *)
Definition state_after (r : option (Z * lmb)) : lmb :=
  match r with Some (_, l) => l | None => sample_lmb end.

(** After the only reserved block has been freed, the table has no entry
    and [lmb_reserve] does not store the new block when it lies above the
    stale first entry: it reports success, the freed block is reserved again
    and the new one is not. *)
Theorem lmb_reserve_after_free :
  ∃ l1 l2, lmb_free sample_lmb 28672 4096 = Some (0, l1) ∧
    lmb_reserve l1 32768 256 = Some (0, l2) ∧
    regs (reserved l2) = [mkProp 28672 4096] ∧
    lmb_is_reserved l2 32768 = Some false ∧ lmb_is_reserved l2 28672 = Some true.
Proof.
  exists (state_after (lmb_free sample_lmb 28672 4096)).
  exists (state_after (lmb_reserve (state_after (lmb_free sample_lmb 28672 4096)) 32768 256)).
  split_and!; vm_compute; reflexivity.
Qed.

(** The dummy entry that [lmb_init] makes ends at address -1 for
    [lmb_is_reserved]: before anything has been reserved, every address is
    reported as reserved. *)
Theorem lmb_is_reserved_after_init l addr :
  0 ≤ addr < 2 ^ 32 → length (region (reserved l)) = S MAX_LMB_REGIONS →
  lmb_is_reserved (lmb_init l) addr = Some true.
Proof.
  intros Ha Hl. unfold lmb_is_reserved, lmb_init, lmb_init_region. simpl.
  destruct (region (reserved l)) as [|y r]; [done|]. simpl.
  rewrite (proj2 (Z.leb_le 0 addr)), (proj2 (Z.leb_le addr _)) by (change (u32 (0 + 0 - 1)) with (2 ^ 32 - 1); lia).
  done.
Qed.

Lemma lmb_is_reserved_after_init_witness :
  lmb_is_reserved (lmb_init sample_lmb) 4096 = Some true.
Proof. apply (lmb_is_reserved_after_init sample_lmb 4096); [lia|reflexivity]. Defined.
