(* ===== verification/BlockHash.v ===== *)
(** * Message digests over 64-byte blocks

    What [lib/sha1.c], [lib/sha256.c] and [lib/md5.c] have in common. The
    reference is a fold of a compression function over the blocks of the padded
    message; a context that has taken in a message holds the fold over its
    complete blocks and, in its buffer, the bytes that are left. The two SHA
    files have the same code for [update] and [finish] around their own
    [process]; that code is translated here once. *)

From stdpp Require Import base option list numbers.
From Stdlib Require Import ZArith Lia.
From S2P Require Import Prelude Word32.
Local Open Scope nat_scope.

(** The compression function of a digest: the chaining state and one block. *)
Class BlockHash := { process : list Z → list Z → list Z }.

(** The interface a digest offers to its callers: what it computes for the
    parts of a message, and the digest of a message as the standard defines
    it. *)
Record digest_impl := {
  d_ctx : Type;
  d_start : d_ctx;
  d_update : d_ctx → list Z → d_ctx;
  d_finish : d_ctx → list Z;
}.

Definition d_parts (d : digest_impl) (parts : list (list Z)) : list Z :=
  d_finish d (foldl (d_update d) (d_start d) parts).

(** What an [unsigned int] length can say. *)
Definition fits32 (m : list Z) : Prop := (Z.of_nat (length m) < 2 ^ 32)%Z.

(** [d] computes the function [ref] of the concatenation of the parts. *)
Definition computes (d : digest_impl) (ref : list Z → list Z) : Prop :=
  ∀ parts, Forall bytes parts → Forall fits32 parts → d_parts d parts = ref (concat parts).

(** ** The reference *)

(** A length as eight bytes, the highest first. *)
Definition be64 (n : Z) : list Z := be_bytes (n / 2 ^ 32) ++ be_bytes n.

Section Reference.
Context `{BlockHash}.

(** The first [n] blocks of [m]. *)
Fixpoint absorb (n : nat) (st m : list Z) : list Z :=
  match n with
  | O => st
  | S n => absorb n (process st (take 64 m)) (drop 64 m)
  end.

(** Padding: a one bit, zeros, and the length in bits as eight bytes. *)
Definition pad (len8 : Z → list Z) (m : list Z) : list Z :=
  let r := length m mod 64 in
  let zeros := if r <? 56 then 55 - r else 119 - r in
  m ++ [128%Z] ++ replicate zeros 0%Z ++ len8 (8 * Z.of_nat (length m))%Z.

(** The digest of a message. *)
Definition digest (iv : list Z) (len8 : Z → list Z) (out : Z → list Z) (m : list Z) : list Z :=
  let p := pad len8 m in concat (out <$> absorb (length p / 64) iv p).

Lemma absorb_app n st a b : length a = 64 * n → ∀ k,
  absorb (n + k) st (a ++ b) = absorb k (absorb n st a) b.
Proof.
  revert st a. induction n as [|n IH]; intros st a Ha k.
  - simpl in *. by destruct a.
  - cbn [absorb Nat.add]. rewrite take_app_le, drop_app_le by lia.
    apply IH. rewrite length_drop. lia.
Qed.

(** Only the complete blocks count. *)
Lemma absorb_prefix n st a b : 64 * n ≤ length a → absorb n st (a ++ b) = absorb n st a.
Proof.
  revert st a. induction n as [|n IH]; intros st a Ha; [done|].
  cbn [absorb]. rewrite take_app_le, drop_app_le by lia.
  apply IH. rewrite length_drop. lia.
Qed.

Lemma absorb_S_end n st a b : length a = 64 * n → length b = 64 →
  absorb (S n) st (a ++ b) = process (absorb n st a) b.
Proof.
  intros Ha Hb. replace (S n) with (n + 1) by lia. rewrite absorb_app by done.
  cbn [absorb]. by rewrite take_ge by lia.
Qed.

(** ** Contexts *)

(** The state and the buffer after the message [m]. *)
Record taken (iv m st buf : list Z) : Prop := {
  tk_state : st = absorb (length m / 64) iv m;
  tk_len : length buf = 64;
  tk_buf : take (length m mod 64) buf = drop (64 * (length m / 64)) m;
}.

Lemma taken_nil iv buf : length buf = 64 → taken iv [] iv buf.
Proof. intros H'. split; [done..|]. by rewrite take_0. Qed.

Lemma mod_eq_sub n : n mod 64 = n - 64 * (n / 64).
Proof. pose proof (Nat.div_mod_eq n 64). lia. Qed.

(** Bytes that do not fill the buffer. *)
Lemma taken_short iv m x st buf :
  taken iv m st buf → length m mod 64 + length x < 64 →
  taken iv (m ++ x) st (splice (length m mod 64) x buf).
Proof.
  intros [Hs Hl Hb] Hx.
  pose proof (Nat.div_mod_eq (length m) 64) as E.
  assert (D : length (m ++ x) / 64 = length m / 64).
  { symmetry. apply (Nat.div_unique _ 64 _ (length m mod 64 + length x)); [lia|].
    rewrite length_app. lia. }
  split.
  - rewrite D, absorb_prefix by lia. done.
  - rewrite length_splice by lia. done.
  - rewrite mod_eq_sub, D, length_app.
    replace (length m + length x - 64 * (length m / 64)) with (length m mod 64 + length x) by lia.
    rewrite take_splice by lia. rewrite Hb, drop_app_le by lia. done.
Qed.

(** Bytes that fill the buffer to a block. *)
Lemma taken_full iv m x st buf :
  taken iv m st buf → length m mod 64 + length x = 64 →
  let blk := splice (length m mod 64) x buf in
  length blk = 64 ∧ taken iv (m ++ x) (process st blk) blk.
Proof.
  intros [Hs Hl Hb] Hx blk.
  pose proof (Nat.div_mod_eq (length m) 64) as E.
  assert (D : length (m ++ x) = 64 * S (length m / 64)) by (rewrite length_app; lia).
  assert (Hblk : blk = drop (64 * (length m / 64)) m ++ x).
  { rewrite <- Hb. unfold blk. rewrite <- (take_splice (length m mod 64) x buf) by lia.
    rewrite Hx. symmetry. apply take_ge. rewrite length_splice by lia. lia. }
  assert (L : length blk = 64) by (unfold blk; rewrite length_splice; lia).
  split; [done|]. split; [|done|].
  - rewrite D, (Nat.mul_comm 64), Nat.div_mul by lia.
    rewrite <- (take_drop (64 * (length m / 64)) m) at 2.
    rewrite <- app_assoc, <- Hblk.
    rewrite absorb_S_end; [|len|done].
    rewrite Hs. f_equal.
    rewrite <- (take_drop (64 * (length m / 64)) m) at 2.
    rewrite absorb_prefix by len. done.
  - rewrite D, (Nat.mul_comm 64 (S _)), Nat.Div0.mod_mul, Nat.div_mul, take_0 by lia.
    rewrite drop_ge by lia. done.
Qed.

(** One block when the buffer is empty; what the buffer then holds does not
    matter. *)
Lemma taken_block iv m x st buf buf' :
  taken iv m st buf → length m mod 64 = 0 → length x = 64 → length buf' = 64 →
  taken iv (m ++ x) (process st x) buf'.
Proof.
  intros [Hs Hl Hb] Hm Hx Hl'.
  pose proof (Nat.div_mod_eq (length m) 64) as E.
  assert (D : length (m ++ x) = 64 * S (length m / 64)) by (rewrite length_app; lia).
  split; [|done|].
  - rewrite D, (Nat.mul_comm 64), Nat.div_mul by lia.
    rewrite absorb_S_end by lia. by rewrite Hs.
  - rewrite D, (Nat.mul_comm 64 (S _)), Nat.Div0.mod_mul, Nat.div_mul, take_0 by lia.
    rewrite drop_ge by lia. done.
Qed.

(** At a block boundary the buffer does not matter. *)
Lemma taken_buf iv m st buf buf' :
  taken iv m st buf → length m mod 64 = 0 → length buf' = 64 → taken iv m st buf'.
Proof.
  intros [Hs Hl Hb] Hm Hl'. split; [done..|]. rewrite Hm, take_0 in *. done.
Qed.

End Reference.

(** ** The length of a padded message *)

Lemma pad_length len8 m : (∀ z, length (len8 z) = 8) →
  length (pad len8 m) mod 64 = 0.
Proof.
  intros Hl. unfold pad. rewrite !length_app, length_replicate, Hl. cbn [length].
  pose proof (Nat.div_mod_eq (length m) 64). pose proof (Nat.mod_upper_bound (length m) 64).
  case_match eqn:E; cmp_inv E.
  - replace (length m + _) with ((length m / 64 + 1) * 64) by lia. apply Nat.Div0.mod_mul.
  - replace (length m + _) with ((length m / 64 + 2) * 64) by lia. apply Nat.Div0.mod_mul.
Qed.

(** ** The two SHA digests *)

(** [sha1_context] and [sha256_context]. *)
Record sha_context := mkSha {
  total0 : Z;
  total1 : Z;
  state : list Z;
  buffer : list Z;
}.

Section Sha.
Context `{BlockHash}.

(** [sha1_starts] and [sha256_starts]; the buffer is not initialised. *)
Definition sha_starts (iv buf : list Z) : sha_context := mkSha 0 0 iv buf.

(** The loop [while (length >= 64)]. *)
Fixpoint process_blocks (k : nat) (st input : list Z) : list Z * list Z :=
  match k with
  | O => (st, input)
  | S k =>
      if 64 <=? length input then process_blocks k (process st (take 64 input)) (drop 64 input)
      else (st, input)
  end.

(** [sha1_update] and [sha256_update]. *)
Definition sha_update (ctx : sha_context) (input : list Z) : sha_context :=
  if length input =? 0 then ctx
  else
    let len := Z.of_nat (length input) in
    let lft := Z.to_nat (Z.land (total0 ctx) 63) in
    let fill := 64 - lft in
    let t0 := Z.land (u32 (total0 ctx + len)) MASK32 in
    let t1 := if (t0 <? len)%Z then u32 (total1 ctx + 1) else total1 ctx in
    let '(st, buf, input, lft) :=
      if negb (lft =? 0) && (fill <=? length input) then
        let buf := splice lft (take fill input) (buffer ctx) in
        (process (state ctx) buf, buf, drop fill input, 0)
      else (state ctx, buffer ctx, input, lft) in
    let '(st, input) := process_blocks (length input / 64) st input in
    mkSha t0 t1 st (if negb (length input =? 0) then splice lft input buf else buf).

(** [sha1_padding] and [sha256_padding]. *)
Definition sha_padding : list Z := 128%Z :: replicate 63 0%Z.

(** [sha1_finish] and [sha256_finish]. *)
Definition sha_finish (ctx : sha_context) : list Z :=
  let high := Z.lor (Z.shiftr (total0 ctx) 29) (u32 (Z.shiftl (total1 ctx) 3)) in
  let low := u32 (Z.shiftl (total0 ctx) 3) in
  let msglen := PUT_UINT32_BE high ++ PUT_UINT32_BE low in
  let last := Z.to_nat (Z.land (total0 ctx) 63) in
  let padn := if last <? 56 then 56 - last else 120 - last in
  let ctx := sha_update ctx (take padn sha_padding) in
  let ctx := sha_update ctx msglen in
  concat (PUT_UINT32_BE <$> state ctx).

(** *** Invariant *)

Record sha_ok (iv m : list Z) (ctx : sha_context) : Prop := {
  so_taken : taken iv m (state ctx) (buffer ctx);
  so_t0 : (0 ≤ total0 ctx < 2 ^ 32)%Z;
  so_t1 : (0 ≤ total1 ctx < 2 ^ 32)%Z;
  so_total : (total0 ctx + 2 ^ 32 * total1 ctx = Z.of_nat (length m) mod 2 ^ 64)%Z;
}.

Lemma sha_starts_ok iv buf : length buf = 64 → sha_ok iv [] (sha_starts iv buf).
Proof. intros Hb. split; simpl; [by apply taken_nil|lia..|done]. Qed.

Lemma process_blocks_ok k : ∀ iv m st buf input,
  taken iv m st buf → length m mod 64 = 0 → length input / 64 ≤ k →
  ∃ pre st' rest, process_blocks k st input = (st', rest) ∧ input = pre ++ rest ∧
    length rest < 64 ∧ taken iv (m ++ pre) st' buf ∧ length (m ++ pre) mod 64 = 0.
Proof.
  induction k as [|k IH]; intros iv m st buf input Ht Hm Hk.
  - exists [], st, input. rewrite app_nil_r.
    split_and!; try done. pose proof (Nat.div_mod_eq (length input) 64).
    pose proof (Nat.mod_upper_bound (length input) 64). lia.
  - cbn [process_blocks]. case_match eqn:E; cmp_inv E.
    + assert (Hx : length (take 64 input) = 64) by len.
      assert (Hm' : length (m ++ take 64 input) mod 64 = 0).
      { rewrite length_app, Hx. replace 64 with (1 * 64) at 1 by lia.
        by rewrite Nat.Div0.mod_add. }
      destruct (IH iv (m ++ take 64 input) (process st (take 64 input)) buf (drop 64 input))
        as (pre & st' & rest & -> & Hi & Hr & Ht' & Hm'').
      * eapply taken_block; eauto using tk_len.
      * done.
      * rewrite length_drop. replace (length input) with (length input - 64 + 1 * 64) in Hk by lia.
        rewrite Nat.div_add in Hk by lia. lia.
      * exists (take 64 input ++ pre), st', rest. rewrite app_assoc.
        split_and!; try done. rewrite <- app_assoc, <- Hi. symmetry. apply take_drop.
    + exists [], st, input. rewrite app_nil_r. split_and!; done || lia.
Qed.

(** The counter. *)
Lemma sha_total_add t0 t1 n l :
  (0 ≤ t0 < 2 ^ 32 → 0 ≤ t1 < 2 ^ 32 → t0 + 2 ^ 32 * t1 = n mod 2 ^ 64 → 0 ≤ l < 2 ^ 32 →
   let t0' := Z.land (u32 (t0 + l)) MASK32 in
   let t1' := if t0' <? l then u32 (t1 + 1) else t1 in
   0 ≤ t0' < 2 ^ 32 ∧ 0 ≤ t1' < 2 ^ 32 ∧ t0' + 2 ^ 32 * t1' = (n + l) mod 2 ^ 64)%Z.
Proof.
  intros H0 H1 Hn Hl. rewrite u32_land, u32_idem. cbv zeta.
  rewrite <- Z.add_mod_idemp_l, <- Hn by lia.
  destruct (Z.lt_ge_cases (t0 + l) (2 ^ 32)) as [Hc|Hc].
  - rewrite u32_small by lia. rewrite (proj2 (Z.ltb_ge _ _)) by lia.
    rewrite Z.mod_small by lia. lia.
  - assert (E : u32 (t0 + l) = (t0 + l - 2 ^ 32)%Z).
    { unfold u32. symmetry. apply (Z.mod_unique _ _ 1); lia. }
    rewrite E, (proj2 (Z.ltb_lt _ _)) by lia. split; [lia|]. split; [apply u32_range|].
    destruct (decide (t1 + 1 = 2 ^ 32)%Z) as [Ht|Ht].
    + rewrite Ht. change (u32 (2 ^ 32)) with 0%Z.
      apply (Z.mod_unique _ _ 1); lia.
    + rewrite u32_small by lia. rewrite Z.mod_small by lia. lia.
Qed.

Lemma sha_left iv m ctx : sha_ok iv m ctx → Z.to_nat (Z.land (total0 ctx) 63) = length m mod 64.
Proof.
  intros [_ H0 H1 Hn]. change 63%Z with (Z.ones 6). rewrite Z.land_ones by lia.
  assert (E : (total0 ctx mod 64 = Z.of_nat (length m) mod 64)%Z).
  { transitivity ((Z.of_nat (length m) mod 2 ^ 64) mod 64)%Z.
    - rewrite <- Hn. replace (2 ^ 32 * total1 ctx)%Z with (2 ^ 26 * total1 ctx * 64)%Z by lia.
      by rewrite Z.mod_add by lia.
    - rewrite <- Znumtheory.Zmod_div_mod; [done|lia..|]. exists (2 ^ 58)%Z. reflexivity. }
  change (2 ^ 6)%Z with 64%Z. rewrite E. change 64%Z with (Z.of_nat 64).
  rewrite <- Nat2Z.inj_mod. apply Nat2Z.id.
Qed.

Lemma sha_update_ok iv m ctx input :
  sha_ok iv m ctx → fits32 input → sha_ok iv (m ++ input) (sha_update ctx input).
Proof.
  intros Hok Hf. unfold sha_update. case_match eqn:E0; cmp_inv E0.
  { destruct input; [by rewrite app_nil_r|done]. }
  rewrite (sha_left _ _ _ Hok). destruct Hok as [Ht H0 H1 Hn].
  pose proof (Nat.mod_upper_bound (length m) 64) as Hr.
  destruct (sha_total_add _ _ _ (Z.of_nat (length input)) H0 H1 Hn) as (A & B & T);
    [unfold fits32 in Hf; lia|].
  cbv zeta in A, B, T.
  set (t0 := Z.land _ _) in *. set (t1 := if (t0 <? _)%Z then _ else _) in *.
  assert (Hend : ∀ m' st buf rest, m ++ input = m' ++ rest → taken iv m' st buf →
    length m' mod 64 + length rest < 64 →
    sha_ok iv (m ++ input) (mkSha t0 t1 st
      (if negb (length rest =? 0) then splice (length m' mod 64) rest buf else buf))).
  { intros m' st buf rest Hm Ht' Hl. split; simpl; [|done..|].
    - rewrite Hm. case_match eqn:E; [by apply taken_short|].
      apply negb_false_iff, Nat.eqb_eq in E. destruct rest; [|done]. by rewrite app_nil_r.
    - rewrite T, length_app, Nat2Z.inj_add. done. }
  destruct (negb (length m mod 64 =? 0) && (64 - length m mod 64 <=? length input)) eqn:Eb.
  - apply andb_true_iff in Eb as [_ Eb]. apply Nat.leb_le in Eb.
    destruct (taken_full iv m (take (64 - length m mod 64) input) _ _ Ht) as [Hblk Ht2];
      [pose proof (length_take input (64 - length m mod 64)); lia|].
    set (m2 := m ++ take (64 - length m mod 64) input) in *.
    set (buf := splice _ (take (64 - length m mod 64) input) _) in *.
    assert (Hm2 : length m2 mod 64 = 0).
    { unfold m2. rewrite length_app. apply mod_block_add; len. }
    destruct (process_blocks_ok _ _ _ _ _ (drop (64 - length m mod 64) input) Ht2 Hm2 (le_n _))
      as (pre & st' & rest & -> & Hi & Hl & Ht3 & Hm3).
    specialize (Hend (m2 ++ pre) st' buf rest). rewrite Hm3 in Hend. apply Hend; [|done|lia].
    unfold m2. rewrite <- !app_assoc, <- Hi, take_drop. done.
  - destruct (decide (length m mod 64 = 0)) as [Hm|Hm].
    + destruct (process_blocks_ok _ _ _ _ _ input Ht Hm (le_n _))
        as (pre & st' & rest & -> & Hi & Hl & Ht3 & Hm3).
      specialize (Hend (m ++ pre) st' (buffer ctx) rest). rewrite Hm3 in Hend.
      rewrite Hm. apply Hend; [|done|lia]. by rewrite <- app_assoc, <- Hi.
    + apply andb_false_iff in Eb as [Eb|Eb]; [by apply negb_false_iff, Nat.eqb_eq in Eb|].
      apply Nat.leb_gt in Eb. rewrite (Nat.div_small (length input)) by lia. cbn [process_blocks].
      apply Hend; [done..|lia].
Qed.

(** The length in bits, from the two halves of the length in bytes. *)
Lemma sha_bit_length t0 t1 n :
  (0 ≤ t0 < 2 ^ 32 → 0 ≤ t1 < 2 ^ 32 → t0 + 2 ^ 32 * t1 = n mod 2 ^ 64 →
   PUT_UINT32_BE (Z.lor (Z.shiftr t0 29) (u32 (Z.shiftl t1 3))) ++
   PUT_UINT32_BE (u32 (Z.shiftl t0 3)) = be64 (8 * n))%Z.
Proof.
  intros H0 H1 Hn. rewrite !PUT_UINT32_BE_bytes. unfold be64.
  pose proof (Z.div_mod n (2 ^ 64)) as En. rewrite <- Hn in En.
  set (q := (n / 2 ^ 64)%Z) in *.
  assert (D : (t0 / 2 ^ 29 = t0 * 8 / 2 ^ 32)%Z).
  { change (2 ^ 32)%Z with (2 ^ 29 * 8)%Z. rewrite Z.div_mul_cancel_r; lia. }
  rewrite Z.lor_comm, u32_shiftl, Z.shiftr_div_pow2 by lia. change (32 - 3)%Z with 29%Z.
  rewrite lor_add_small; [|lia|].
  2:{ rewrite D. split; [apply Z.div_pos; lia|apply Z.div_lt_upper_bound; lia]. }
  f_equal.
  - rewrite <- (be_bytes_u32 (8 * n / 2 ^ 32)). f_equal. unfold u32.
    rewrite En by lia.
    replace (8 * (2 ^ 64 * q + (t0 + 2 ^ 32 * t1)))%Z
      with ((2 ^ 35 * q + 8 * t1) * 2 ^ 32 + t0 * 8)%Z by lia.
    rewrite Z.div_add_l, <- D by lia. change (2 ^ 32)%Z with (2 ^ 29 * 8)%Z.
    pose proof (Z.mod_pos_bound t1 (2 ^ 29)). pose proof (Z.div_mod t1 (2 ^ 29)).
    assert (0 ≤ t0 / 2 ^ 29 < 8)%Z
      by (rewrite D; split; [apply Z.div_pos; lia|apply Z.div_lt_upper_bound; lia]).
    apply (Z.mod_unique _ _ (q * 8 + t1 / 2 ^ 29)); lia.
  - rewrite Z.shiftl_mul_pow2, be_bytes_u32, <- (be_bytes_u32 (8 * n)) by lia.
    rewrite <- be_bytes_u32. f_equal. unfold u32. rewrite En by lia.
    replace (8 * (2 ^ 64 * q + (t0 + 2 ^ 32 * t1)))%Z
      with (t0 * 2 ^ 3 + (2 ^ 35 * q + 8 * t1) * 2 ^ 32)%Z by lia.
    by rewrite Z.mod_add by lia.
Qed.

Lemma take_padding n : 1 ≤ n ≤ 64 → take n sha_padding = [128%Z] ++ replicate (n - 1) 0%Z.
Proof.
  intros Hn. unfold sha_padding. destruct n as [|n]; [lia|].
  cbn [take app Nat.sub]. rewrite Nat.sub_0_r, take_replicate, Nat.min_l by lia. done.
Qed.

Lemma be64_bytes n : bytes (be64 n).
Proof. apply Forall_app_2; apply be_bytes_ok. Qed.

Lemma length_be_bytes n : length (be_bytes n) = 4.
Proof. done. Qed.

Lemma sha_finish_ok iv m ctx : sha_ok iv m ctx → sha_finish ctx = digest iv be64 be_bytes m.
Proof.
  intros Hok. unfold sha_finish, digest.
  pose proof Hok as [Ht H0 H1 Hn].
  rewrite (sha_bit_length _ _ _ H0 H1 Hn), (sha_left _ _ _ Hok). cbv zeta.
  pose proof (Nat.mod_upper_bound (length m) 64) as Hr.
  assert (Hp : (take (if length m mod 64 <? 56 then 56 - length m mod 64
                      else 120 - length m mod 64) sha_padding) ++ be64 (8 * Z.of_nat (length m)) =
    [128%Z] ++ replicate (if length m mod 64 <? 56 then 55 - length m mod 64
                      else 119 - length m mod 64) 0%Z ++ be64 (8 * Z.of_nat (length m))).
  { rewrite app_assoc. f_equal.
    destruct (length m mod 64 <? 56) eqn:E; cmp_inv E;
      rewrite take_padding by lia; do 2 f_equal; lia. }
  match goal with |- context [sha_update (sha_update ctx ?a) ?b] => set (p := a) in *; set (l := b) in * end.
  assert (Hok2 : sha_ok iv (m ++ p ++ l) (sha_update (sha_update ctx p) l)).
  { rewrite app_assoc. apply sha_update_ok; [apply sha_update_ok; [done|]|].
    - unfold fits32, p. pose proof (length_take_le sha_padding
        (if length m mod 64 <? 56 then 56 - length m mod 64 else 120 - length m mod 64)).
      rewrite length_take. change (length sha_padding) with 64. lia.
    - done. }
  rewrite Hp in Hok2. apply so_taken, tk_state in Hok2.
  rewrite Hok2. f_equal. apply list_fmap_ext. intros. apply PUT_UINT32_BE_bytes.
Qed.

Definition sha_impl (iv buf : list Z) : digest_impl := {|
  d_ctx := sha_context;
  d_start := sha_starts iv buf;
  d_update := sha_update;
  d_finish := sha_finish;
|}.

Lemma sha_parts_ok iv m ctx parts :
  sha_ok iv m ctx → Forall fits32 parts → sha_ok iv (m ++ concat parts) (foldl sha_update ctx parts).
Proof.
  intros Hok Hp. revert m ctx Hok. induction Hp as [|x parts Hx Hp IH]; intros m ctx Hok; simpl.
  - by rewrite app_nil_r.
  - rewrite app_assoc. by apply IH, sha_update_ok.
Qed.

Lemma sha_computes iv buf : length buf = 64 →
  computes (sha_impl iv buf) (digest iv be64 be_bytes).
Proof.
  intros Hb parts _ Hf. unfold d_parts. simpl. apply sha_finish_ok.
  apply (sha_parts_ok iv [] _ parts); [by apply sha_starts_ok|done].
Qed.

End Sha.

(** ** The one-call functions *)

(** [sha1_csum_wd], [sha256_csum_wd] and [md5_wd] with a watchdog: the parts
    have [chunk_sz] bytes. [None] if the fuel runs out. *)
Fixpoint wd_parts (k chunk_sz : nat) (input : list Z) : option (list (list Z)) :=
  match k with
  | O => None
  | S k =>
      if 0 <? length input then
        let chunk := if chunk_sz <? length input then chunk_sz else length input in
        ps ← wd_parts k chunk_sz (drop chunk input);
        Some (take chunk input :: ps)
      else Some []
  end.

Definition csum_wd (d : digest_impl) (watchdog : bool) (chunk_sz : nat) (input : list Z)
  : option (list Z) :=
  if watchdog then d_parts d <$> wd_parts (S (length input)) chunk_sz input
  else Some (d_parts d [input]).

Lemma wd_parts_ok k chunk_sz : 0 < chunk_sz → ∀ input, length input < k →
  ∃ ps, wd_parts k chunk_sz input = Some ps ∧ concat ps = input ∧
    Forall (λ p, length p ≤ length input) ps.
Proof.
  intros Hc. induction k as [|k IH]; intros input Hl; [lia|].
  cbn [wd_parts]. case_match eqn:E; cmp_inv E.
  - match goal with |- context [drop ?c] => set (chunk := c) end.
    assert (Hch : 0 < chunk ≤ length input).
    { unfold chunk. case_match eqn:E2; [apply Nat.ltb_lt in E2|]; lia. }
    destruct (IH (drop chunk input)) as (ps & -> & Hps & Hf); [len|].
    eexists. split; [reflexivity|]. split; [simpl; by rewrite Hps, take_drop|].
    constructor; [len|].
    eapply Forall_impl; [|exact Hf]. intros p. rewrite length_drop. lia.
  - destruct input; [|simpl in E; lia]. by exists [].
Qed.

Lemma csum_wd_ok d ref watchdog chunk_sz input :
  computes d ref → bytes input → fits32 input → (watchdog = true → 0 < chunk_sz) →
  csum_wd d watchdog chunk_sz input = Some (ref input).
Proof.
  intros Hd Hb Hf Hc. unfold csum_wd. destruct watchdog.
  - destruct (wd_parts_ok (S (length input)) chunk_sz (Hc eq_refl) input) as (ps & E & Hps & Hl);
      [lia|]. rewrite E. simpl. f_equal. rewrite <- Hps. apply Hd.
    + apply Forall_concat. by rewrite Hps.
    + eapply Forall_impl; [|exact Hl]. unfold fits32 in *. intros p Hp. lia.
  - f_equal. rewrite Hd; [simpl; by rewrite app_nil_r|..]; by repeat constructor.
Qed.

(** ** Message schedules *)

(** [n] more words, each computed from the ones before it. *)
Fixpoint extend (next : list Z → nat → Z) (n : nat) (W : list Z) : list Z :=
  match n with
  | O => W
  | S n => extend next n (W ++ [next W (length W)])
  end.

Lemma extend_spec next n : ∀ W,
  (∀ W1 W2 t, length W ≤ t → (∀ i, i < t → W1 !!! i = W2 !!! i) → next W1 t = next W2 t) →
  length (extend next n W) = length W + n ∧
  (∀ i, i < length W → extend next n W !!! i = W !!! i) ∧
  (∀ t, length W ≤ t < length W + n → extend next n W !!! t = next (extend next n W) t).
Proof.
  induction n as [|n IH]; intros W Hn; simpl; [split_and!; [lia|done|lia]|].
  destruct (IH (W ++ [next W (length W)])) as (Hl & Hp & Ht).
  { intros W1 W2 t Ht. apply Hn. rewrite length_app in Ht. lia. }
  rewrite length_app in *. simpl in *. split_and!.
  - lia.
  - intros i Hi. rewrite Hp by lia. by apply lookup_total_app_l.
  - intros t Hlt. destruct (decide (t = length W)) as [->|].
    + rewrite Hp by lia. rewrite lookup_total_app_r, Nat.sub_diag by lia. simpl.
      apply Hn; [done|]. intros i Hi. rewrite Hp by lia. by rewrite lookup_total_app_l.
    + apply Ht. lia.
Qed.

(** ** Changing the compression function *)

Lemma absorb_ext (h1 h2 : BlockHash) n : ∀ st m,
  (∀ st b, length b = 64 → bytes b → @process h1 st b = @process h2 st b) →
  bytes m → 64 * n ≤ length m → @absorb h1 n st m = @absorb h2 n st m.
Proof.
  induction n as [|n IH]; intros st m Hp Hm Hl; [done|]. cbn [absorb].
  rewrite Hp; [|len|by apply Forall_take].
  apply IH; [done|by apply Forall_drop|len].
Qed.

Lemma digest_ext (h1 h2 : BlockHash) iv len8 out m :
  (∀ st b, length b = 64 → bytes b → @process h1 st b = @process h2 st b) →
  (∀ z, bytes (len8 z)) → bytes m → @digest h1 iv len8 out m = @digest h2 iv len8 out m.
Proof.
  intros Hp Hl Hm. unfold digest. f_equal. f_equal.
  apply (absorb_ext h1 h2).
  - done.
  - unfold pad. repeat apply Forall_app_2; try done.
    + by repeat constructor.
    + apply Forall_replicate. by unfold isbyte.
  - pose proof (Nat.div_mod_eq (length (pad len8 m)) 64). lia.
Qed.
