(* ===== verification/AesSpec.v ===== *)
(** * AES-128: the cipher of the standard, and decryption

    The functions of FIPS 197: the field of 256 elements, the S-box as inverse
    and affine map, the transformations of the state, the key expansion. The
    combined tables of the code are checked against them entry by entry. *)

From S2P Require Import Prelude Word32 Ctype Crc Aes.
From stdpp Require Import base option list.
From Stdlib Require Import ZArith Lia Btauto Ring.
Local Open Scope Z_scope.
Local Open Scope aes_scope.

(** ** The standard *)

Module FIPS.

(** Multiplication by x modulo x^8 + x^4 + x^3 + x + 1. *)
Definition xtime (b : Z) : Z := if b <? 128 then 2 * b else (2 * b) .^ 0x11b.

(** The product: one summand per coefficient of [a]. *)
Fixpoint gmul_loop (k : nat) (a b : Z) : Z :=
  match k with
  | O => 0
  | S k => (if Z.odd a then b else 0) .^ gmul_loop k (a / 2) (xtime b)
  end.

Definition gmul (a b : Z) : Z := gmul_loop 8 a b.

(** The inverse is the power 254; that of 0 is 0. *)
Definition inverse (a : Z) : Z := Nat.iter 253 (gmul a) a.

Definition rotate (b : Z) (n : Z) : Z := Z.lor (Z.land (Z.shiftl b n) 255) (Z.shiftr b (8 - n)).

Definition affine (b : Z) : Z := b .^ rotate b 1 .^ rotate b 2 .^ rotate b 3 .^ rotate b 4 .^ 0x63.

Definition SBox (a : Z) : Z := affine (inverse a).

(** The byte in a row and a column, and a state from its bytes. *)
Definition byte_at (s : list Z) (r c : nat) : Z := s !!! (r + 4 * c)%nat.
Definition state_of (f : nat → nat → Z) : list Z := (λ i, f (i mod 4)%nat (i / 4)%nat) <$> seq 0 16.

Definition SubBytes (s : list Z) : list Z := SBox <$> s.
Definition ShiftRows (s : list Z) : list Z := state_of (λ r c, byte_at s r ((c + r) mod 4)).
Definition MixColumns (s : list Z) : list Z :=
  state_of (λ r c, gmul 2 (byte_at s r c) .^ gmul 3 (byte_at s ((r + 1) mod 4) c) .^ byte_at s ((r + 2) mod 4) c .^ byte_at s ((r + 3) mod 4) c).
Definition AddRoundKey (s k : list Z) : list Z := zip_with Z.lxor s k.

(** The words of the key schedule. *)
Definition RotWord (w : list Z) : list Z := drop 1 w ++ take 1 w.
Definition SubWord (w : list Z) : list Z := SBox <$> w.
Definition Rcon (j : nat) : list Z := [Nat.iter (j - 1) xtime 1; 0; 0; 0].

Definition next_word (ws : list (list Z)) (i : nat) : list Z :=
  let temp := ws !!! (i - 1)%nat in
  let temp := if (i mod 4 =? 0)%nat then zip_with Z.lxor (SubWord (RotWord temp)) (Rcon (i / 4)) else temp in
  zip_with Z.lxor (ws !!! (i - 4)%nat) temp.

Definition words_of (key : list Z) : list (list Z) := (λ i, take 4 (drop (4 * i) key)) <$> seq 0 4.

Definition KeyExpansion (key : list Z) : list (list Z) :=
  foldl (λ ws i, ws ++ [next_word ws i]) (words_of key) (seq 4 40).

Definition RoundKey (ws : list (list Z)) (round : nat) : list Z := concat (take 4 (drop (4 * round) ws)).

Definition Cipher (input key : list Z) : list Z :=
  let ws := KeyExpansion key in
  let s := AddRoundKey input (RoundKey ws 0) in
  let s := foldl (λ s round, AddRoundKey (MixColumns (ShiftRows (SubBytes s))) (RoundKey ws round)) s (seq 1 9) in
  AddRoundKey (ShiftRows (SubBytes s)) (RoundKey ws 10).

End FIPS.
Import FIPS.

(** ** The tables *)

Definition table_is (t : list Z) (f : Z → Z) : bool := forallb (λ n, t @ Z.of_nat n =? f (Z.of_nat n)) (seq 0 256).

Lemma table_ok t f : table_is t f = true → ∀ x, isbyte x → t @ x = f x.
Proof.
  intros Ht x Hx. unfold table_is in Ht.
  apply Z.eqb_eq. apply (forall_chars (λ x, t @ x =? f x)); [exact Ht|done].
Qed.

(** The S-box is a table for the specification, too. *)
Definition sub (x : Z) : Z := sbox @ x.

Lemma sbox_ok x : isbyte x → sbox @ x = SBox x.
Proof. apply table_ok. vm_compute. reflexivity. Qed.

Lemma sbox_byte x : isbyte x → isbyte (sbox @ x).
Proof.
  intros Hx. unfold isbyte.
  assert (H : (0 <=? sbox @ x) && (sbox @ x <? 256) = true) by (apply (forall_chars (λ x, (0 <=? sbox @ x) && (sbox @ x <? 256))); [by vm_compute|done]).
  lia.
Qed.

Lemma SBox_byte x : isbyte x → isbyte (SBox x).
Proof. intros Hx. rewrite <-sbox_ok by done. by apply sbox_byte. Qed.

Lemma inv_sbox_ok x : isbyte x → inv_sbox @ (sbox @ x) = x.
Proof. intros Hx. apply Z.eqb_eq. apply (forall_chars (λ x, inv_sbox @ (sbox @ x) =? x)); [by vm_compute|done]. Qed.

Lemma x2_ok x : isbyte x → x2_sbox @ x = gmul 2 (SBox x).
Proof. intros Hx. rewrite <-sbox_ok by done. revert x Hx. apply table_ok. vm_compute. reflexivity. Qed.

Lemma x3_ok x : isbyte x → x3_sbox @ x = gmul 3 (SBox x).
Proof. intros Hx. rewrite <-sbox_ok by done. revert x Hx. apply table_ok. vm_compute. reflexivity. Qed.

(** ** Bytes and words *)

Lemma isbyte_lxor a b : isbyte a → isbyte b → isbyte (a .^ b).
Proof. apply (Crc.lxor_range 8). lia. Qed.

Lemma horner_xor a x e y : (a .^ x * 2 ^ 8) .^ (e .^ y * 2 ^ 8) = (a .^ e) .^ (x .^ y) * 2 ^ 8.
Proof.
  rewrite Crc.lxor_shift by lia. apply Z.bits_inj'. intros n Hn. rewrite !Z.lxor_spec. btauto.
Qed.

Lemma le_word_xor a b c d e f g h : isbyte a → isbyte b → isbyte c → isbyte d → isbyte e → isbyte f → isbyte g → isbyte h →
  le_word [a; b; c; d] .^ le_word [e; f; g; h] = le_word [a .^ e; b .^ f; c .^ g; d .^ h].
Proof.
  intros. rewrite !Crc.le_word_lxor by (done || by apply isbyte_lxor). rewrite !horner_xor. by rewrite Crc.lxor_shift.
Qed.

Lemma word_xor big a b c d e f g h : isbyte a → isbyte b → isbyte c → isbyte d → isbyte e → isbyte f → isbyte g → isbyte h →
  Crc.store32 big (Crc.load32 big [a; b; c; d] .^ Crc.load32 big [e; f; g; h]) = [a .^ e; b .^ f; c .^ g; d .^ h].
Proof.
  intros. unfold Crc.store32, Crc.load32. rewrite PUT_UINT32_BE_bytes.
  assert (Eb : ∀ a b c d, be_word [a; b; c; d] = le_word [d; c; b; a]) by done. destruct big.
  - rewrite !Eb, le_word_xor by done. rewrite <-Eb. by rewrite be_bytes_word by by apply isbyte_lxor.
  - rewrite le_word_xor by done. rewrite <-Eb. by rewrite be_bytes_word by by apply isbyte_lxor.
Qed.

(** ** States *)

Definition state_ok (s : list Z) : Prop := length s = 16%nat ∧ bytes s.

(** A state as its 16 bytes. *)
Ltac open_state s :=
  match goal with H : state_ok s |- _ =>
    let Hl := fresh in let Hb := fresh in destruct H as [Hl Hb];
    do 16 (destruct s as [|? s]; [discriminate Hl|apply Forall_cons in Hb as [? Hb]]); destruct s; [clear Hl Hb|discriminate Hl]
  end.

Lemma zip_ok s k : state_ok s → state_ok k → state_ok (zip_with Z.lxor s k).
Proof.
  intros [Hs Hsb] [Hk Hkb]. split; [rewrite length_zip_with; lia|]. clear Hs Hk. revert k Hkb.
  induction Hsb as [|x s Hx Hs IH]; intros [|y k] Hkb; constructor; apply Forall_cons in Hkb as [Hy Hkb]; [by apply isbyte_lxor|by apply IH].
Qed.

Lemma zip_twice s k : state_ok s → state_ok k → zip_with Z.lxor (zip_with Z.lxor s k) k = s.
Proof.
  intros [Hs _] [Hk _]. revert k Hk. rewrite <-Hs. clear Hs. induction s as [|x s IH]; intros [|y k] Hk; [done..|].
  simpl. rewrite Z.lxor_assoc, Z.lxor_nilpotent, Z.lxor_0_r. f_equal. apply IH. by injection Hk.
Qed.

Lemma add_round_key_ok big s k : state_ok s → state_ok (take 16 k) → add_round_key big s k = zip_with Z.lxor s (take 16 k).
Proof.
  intros Hs [Hkl Hkb]. open_state s. rewrite length_take in Hkl.
  do 16 (destruct k as [|? k]; [simpl in Hkl; lia|]). cbn [take] in Hkb.
  do 16 (apply Forall_cons in Hkb as [? Hkb]). unfold add_round_key, splice. cbn. repeat (rewrite word_xor by done; cbn). done.
Qed.

Lemma xor_rot a b c d : a .^ b .^ c .^ d = b .^ c .^ d .^ a.
Proof. by rewrite !(Z.lxor_comm _ a), !Z.lxor_assoc. Qed.

Ltac xor_rotate := first [reflexivity | rewrite xor_rot; reflexivity | rewrite 2!xor_rot; reflexivity | rewrite 3!xor_rot; reflexivity].

Lemma mix_sub_columns_ok s : state_ok s → mix_sub_columns s = MixColumns (ShiftRows (SubBytes s)).
Proof.
  intros Hs. open_state s. unfold mix_sub_columns, MixColumns, ShiftRows, SubBytes, state_of, byte_at.
  set (f := gmul 2); set (g := gmul 3); set (S := SBox).
  cbn -[f g S Z.lxor sbox x2_sbox x3_sbox Z.to_nat].
  rewrite !x2_ok, !x3_ok, !sbox_ok by done. fold f g S. clearbody f g S.
  do 16 (apply (f_equal2 cons); [xor_rotate|]). done.
Qed.

Lemma shift_rows_ok s : state_ok s → shift_rows s = ShiftRows (SubBytes s).
Proof.
  intros Hs. open_state s. unfold shift_rows, ShiftRows, SubBytes, state_of, byte_at. cbn -[SBox sbox Z.to_nat]. by rewrite !sbox_ok by done.
Qed.

(** ** Back through the rounds *)

(** Both on the bytes of a state. *)
Lemma shift_rows_list a b c d e f g h i j k l m n o p :
  shift_rows [a; b; c; d; e; f; g; h; i; j; k; l; m; n; o; p] =
  [sbox @ a; sbox @ f; sbox @ k; sbox @ p; sbox @ e; sbox @ j; sbox @ o; sbox @ d; sbox @ i; sbox @ n; sbox @ c; sbox @ h; sbox @ m; sbox @ b; sbox @ g; sbox @ l].
Proof. reflexivity. Qed.

Lemma inv_shift_rows_list a b c d e f g h i j k l m n o p :
  inv_shift_rows [a; b; c; d; e; f; g; h; i; j; k; l; m; n; o; p] =
  [inv_sbox @ a; inv_sbox @ n; inv_sbox @ k; inv_sbox @ h; inv_sbox @ e; inv_sbox @ b; inv_sbox @ o; inv_sbox @ l; inv_sbox @ i; inv_sbox @ f; inv_sbox @ c; inv_sbox @ p; inv_sbox @ m; inv_sbox @ j; inv_sbox @ g; inv_sbox @ d].
Proof. reflexivity. Qed.

Lemma inv_shift_rows_ok s : state_ok s → inv_shift_rows (shift_rows s) = s.
Proof.
  intros Hs. open_state s. rewrite shift_rows_list, inv_shift_rows_list, !inv_sbox_ok by done. reflexivity.
Qed.

Lemma xtime_bit b : isbyte b → xtime b = (2 * b) .^ (if Z.testbit b 7 then 0x11b else 0).
Proof.
  intros Hb. apply Z.eqb_eq. apply (forall_chars (λ b, xtime b =? (2 * b) .^ (if Z.testbit b 7 then 0x11b else 0))); [by vm_compute|done].
Qed.

Lemma xtime_byte b : isbyte b → isbyte (xtime b).
Proof.
  intros Hb. assert (E : (0 <=? xtime b) && (xtime b <? 256) = true) by (apply (forall_chars (λ b, (0 <=? xtime b) && (xtime b <? 256))); [by vm_compute|done]).
  unfold isbyte. lia.
Qed.

Lemma xtime_lxor a b : isbyte a → isbyte b → xtime (a .^ b) = xtime a .^ xtime b.
Proof.
  intros Ha Hb. rewrite !xtime_bit by (done || by apply isbyte_lxor). rewrite Z.lxor_spec.
  assert (E : 2 * (a .^ b) = (2 * a) .^ (2 * b)) by (rewrite !(Z.mul_comm 2); apply (Crc.lxor_shift a b 1); lia).
  rewrite E. apply Z.bits_inj'. intros n _. rewrite !Z.lxor_spec. destruct (Z.testbit a 7), (Z.testbit b 7); cbn [xorb]; rewrite ?Z.bits_0; btauto.
Qed.

(** The factors of the inverse matrix, from doublings. *)
Definition by9 (x : Z) : Z := xtime (xtime (xtime x)) .^ x.
Definition byb (x : Z) : Z := xtime (xtime (xtime x)) .^ xtime x .^ x.
Definition byd (x : Z) : Z := xtime (xtime (xtime x)) .^ xtime (xtime x) .^ x.
Definition bye (x : Z) : Z := xtime (xtime (xtime x)) .^ xtime (xtime x) .^ xtime x.

Lemma x_time_9_ok x : isbyte x → x_time_9 @ x = by9 x.
Proof. apply table_ok. vm_compute. reflexivity. Qed.
Lemma x_time_b_ok x : isbyte x → x_time_b @ x = byb x.
Proof. apply table_ok. vm_compute. reflexivity. Qed.
Lemma x_time_d_ok x : isbyte x → x_time_d @ x = byd x.
Proof. apply table_ok. vm_compute. reflexivity. Qed.
Lemma x_time_e_ok x : isbyte x → x_time_e @ x = bye x.
Proof. apply table_ok. vm_compute. reflexivity. Qed.

Lemma x2_time x : isbyte x → x2_sbox @ x = xtime (sbox @ x).
Proof. apply (table_ok _ (λ x, xtime (sbox @ x))). vm_compute. reflexivity. Qed.
Lemma x3_time x : isbyte x → x3_sbox @ x = xtime (sbox @ x) .^ sbox @ x.
Proof. apply (table_ok _ (λ x, xtime (sbox @ x) .^ sbox @ x)). vm_compute. reflexivity. Qed.

(** Additive maps on bytes. *)
Definition additive (f : Z → Z) : Prop := ∀ a b, isbyte a → isbyte b → isbyte (f a) ∧ f (a .^ b) = f a .^ f b.

Lemma additive_comp f g : additive f → additive g → additive (λ x, f (g x)).
Proof.
  intros Hf Hg a b Ha Hb. destruct (Hg a b Ha Hb) as [Hga ->]. destruct (Hg b a Hb Ha) as [Hgb _]. by apply Hf.
Qed.

Lemma additive_lxor f g : additive f → additive g → additive (λ x, f x .^ g x).
Proof.
  intros Hf Hg a b Ha Hb. destruct (Hf a b Ha Hb) as [Hfa ->], (Hg a b Ha Hb) as [Hga ->]. split; [by apply isbyte_lxor|].
  apply Z.bits_inj'. intros n _. rewrite !Z.lxor_spec. btauto.
Qed.

Lemma additive_id : additive (λ x, x).
Proof. by intros a b Ha Hb. Qed.

Lemma additive_xtime : additive xtime.
Proof. intros a b Ha Hb. split; [by apply xtime_byte|by apply xtime_lxor]. Qed.

Lemma additive_2 : additive (λ x, xtime (xtime x)).
Proof. apply additive_comp; apply additive_xtime. Qed.

Lemma additive_3 : additive (λ x, xtime (xtime (xtime x))).
Proof. apply (additive_comp xtime); [apply additive_xtime|apply additive_2]. Qed.

Lemma additive_by : additive by9 ∧ additive byb ∧ additive byd ∧ additive bye.
Proof.
  pose proof additive_id. pose proof additive_xtime. pose proof additive_2. pose proof additive_3.
  unfold by9, byb, byd, bye. split_and!.
  - by apply (additive_lxor (λ x, xtime (xtime (xtime x))) (λ x, x)).
  - apply (additive_lxor (λ x, xtime (xtime (xtime x)) .^ xtime x) (λ x, x)); [|done]. by apply (additive_lxor (λ x, xtime (xtime (xtime x))) xtime).
  - apply (additive_lxor (λ x, xtime (xtime (xtime x)) .^ xtime (xtime x)) (λ x, x)); [|done]. by apply (additive_lxor (λ x, xtime (xtime (xtime x))) (λ x, xtime (xtime x))).
  - apply (additive_lxor (λ x, xtime (xtime (xtime x)) .^ xtime (xtime x)) xtime); [|done]. by apply (additive_lxor (λ x, xtime (xtime (xtime x))) (λ x, xtime (xtime x))).
Qed.

(** An additive map of a row of the matrix. *)
Lemma additive_row f a b c d : additive f → isbyte a → isbyte b → isbyte c → isbyte d →
  f (xtime a .^ (xtime b .^ b) .^ c .^ d) = f (xtime a) .^ (f (xtime b) .^ f b) .^ f c .^ f d.
Proof.
  intros Hf Ha Hb Hc Hd. pose proof (xtime_byte a Ha) as Ha'. pose proof (xtime_byte b Hb) as Hb'.
  generalize dependent (xtime a). intros xa Ha'. generalize dependent (xtime b). intros xb Hb'.
  pose proof (isbyte_lxor _ _ Hb' Hb) as H1. pose proof (isbyte_lxor _ _ Ha' H1) as H2. pose proof (isbyte_lxor _ _ H2 Hc) as H3.
  rewrite (proj2 (Hf _ _ H3 Hd)), (proj2 (Hf _ _ H2 Hc)), (proj2 (Hf _ _ Ha' H1)), (proj2 (Hf _ _ Hb' Hb)). reflexivity.
Qed.

Lemma inv_column a b c d (m := λ a b c d, xtime a .^ (xtime b .^ b) .^ c .^ d) :
  isbyte a → isbyte b → isbyte c → isbyte d →
  bye (m a b c d) .^ byb (m b c d a) .^ byd (m c d a b) .^ by9 (m d a b c) = a.
Proof.
  intros Ha Hb Hc Hd. destruct additive_by as (A9&Ab&Ad&Ae). unfold m.
  rewrite (additive_row bye a b c d Ae), (additive_row byb b c d a Ab), (additive_row byd c d a b Ad), (additive_row by9 d a b c A9) by assumption.
  unfold by9, byb, byd, bye.
  generalize (xtime (xtime (xtime (xtime a)))), (xtime (xtime (xtime (xtime b)))), (xtime (xtime (xtime (xtime c)))), (xtime (xtime (xtime (xtime d)))).
  generalize (xtime (xtime (xtime a))), (xtime (xtime (xtime b))), (xtime (xtime (xtime c))), (xtime (xtime (xtime d))).
  generalize (xtime (xtime a)), (xtime (xtime b)), (xtime (xtime c)), (xtime (xtime d)).
  generalize (xtime a), (xtime b), (xtime c), (xtime d). intros.
  apply Z.bits_inj'. intros n _. rewrite !Z.lxor_spec.
  repeat match goal with |- context [Z.testbit ?x n] => is_var x; generalize (Z.testbit x n); clear x; intro x end.
  ring.
Qed.

(** ** The round trip of the columns *)

(** A byte of a column times the matrix, with doublings. *)
Definition column (a b c d : Z) : Z := xtime a .^ (xtime b .^ b) .^ c .^ d.

Lemma column_byte a b c d : isbyte a → isbyte b → isbyte c → isbyte d → isbyte (column a b c d).
Proof. intros. unfold column. auto 10 using isbyte_lxor, xtime_byte. Qed.

Lemma mix_sub_columns_list a b c d e f g h i j k l m n o p : bytes [a; b; c; d; e; f; g; h; i; j; k; l; m; n; o; p] →
  mix_sub_columns [a; b; c; d; e; f; g; h; i; j; k; l; m; n; o; p] =
  [column (sbox @ a) (sbox @ f) (sbox @ k) (sbox @ p); column (sbox @ f) (sbox @ k) (sbox @ p) (sbox @ a); column (sbox @ k) (sbox @ p) (sbox @ a) (sbox @ f); column (sbox @ p) (sbox @ a) (sbox @ f) (sbox @ k);
   column (sbox @ e) (sbox @ j) (sbox @ o) (sbox @ d); column (sbox @ j) (sbox @ o) (sbox @ d) (sbox @ e); column (sbox @ o) (sbox @ d) (sbox @ e) (sbox @ j); column (sbox @ d) (sbox @ e) (sbox @ j) (sbox @ o);
   column (sbox @ i) (sbox @ n) (sbox @ c) (sbox @ h); column (sbox @ n) (sbox @ c) (sbox @ h) (sbox @ i); column (sbox @ c) (sbox @ h) (sbox @ i) (sbox @ n); column (sbox @ h) (sbox @ i) (sbox @ n) (sbox @ c);
   column (sbox @ m) (sbox @ b) (sbox @ g) (sbox @ l); column (sbox @ b) (sbox @ g) (sbox @ l) (sbox @ m); column (sbox @ g) (sbox @ l) (sbox @ m) (sbox @ b); column (sbox @ l) (sbox @ m) (sbox @ b) (sbox @ g)].
Proof.
  intros Hb. do 16 (apply Forall_cons in Hb as [? Hb]). unfold mix_sub_columns, column. cbn -[xtime Z.lxor sbox x2_sbox x3_sbox Z.to_nat].
  rewrite !x2_time, !x3_time by done. set (S := sbox). set (x2 := xtime). clearbody S x2.
  do 16 (apply (f_equal2 cons); [xor_rotate|]). done.
Qed.

(** The four bytes of a column, as the code adds them. *)
Lemma inv_columns a b c d (m0 := column a b c d) (m1 := column b c d a) (m2 := column c d a b) (m3 := column d a b c) :
  isbyte a → isbyte b → isbyte c → isbyte d →
  (x_time_e @ m0 .^ x_time_b @ m1 .^ x_time_d @ m2 .^ x_time_9 @ m3 = a) ∧
  (x_time_9 @ m0 .^ x_time_e @ m1 .^ x_time_b @ m2 .^ x_time_d @ m3 = b) ∧
  (x_time_d @ m0 .^ x_time_9 @ m1 .^ x_time_e @ m2 .^ x_time_b @ m3 = c) ∧
  (x_time_b @ m0 .^ x_time_d @ m1 .^ x_time_9 @ m2 .^ x_time_e @ m3 = d).
Proof.
  intros Ha Hb Hc Hd. pose proof (column_byte a b c d Ha Hb Hc Hd). pose proof (column_byte b c d a Hb Hc Hd Ha).
  pose proof (column_byte c d a b Hc Hd Ha Hb). pose proof (column_byte d a b c Hd Ha Hb Hc). unfold m0, m1, m2, m3.
  rewrite !x_time_e_ok, !x_time_b_ok, !x_time_d_ok, !x_time_9_ok by done. unfold column. split_and!.
  - by apply inv_column.
  - rewrite xor_rot. by apply (inv_column b c d a).
  - rewrite 2!xor_rot. by apply (inv_column c d a b).
  - rewrite 3!xor_rot. by apply (inv_column d a b c).
Qed.

Lemma inv_mix_sub_columns_ok s : state_ok s → inv_mix_sub_columns (mix_sub_columns s) = s.
Proof.
  intros Hs. pose proof (proj2 Hs) as Hb. open_state s. rewrite mix_sub_columns_list by apply Hb.
  unfold inv_mix_sub_columns. cbn -[column inv_sbox sbox x_time_e x_time_b x_time_d x_time_9 Z.lxor Z.to_nat].
  repeat match goal with |- context [x_time_e @ column ?a ?b ?c ?d .^ _] =>
    destruct (inv_columns a b c d) as (->&->&->&->); [by apply sbox_byte..|] end.
  by rewrite !inv_sbox_ok by done.
Qed.

(** ** The key schedule *)

Definition word_ok (w : list Z) : Prop := length w = 4%nat ∧ bytes w.

Lemma concat_words ws : Forall word_ok ws → length (concat ws) = (4 * length ws)%nat ∧ bytes (concat ws).
Proof.
  induction 1 as [|w ws [Hl Hb] _ [IHl IHb]]; [split; [done|constructor]|]. cbn [concat length]. rewrite length_app, IHl, Hl.
  split; [lia|]. by apply Forall_app.
Qed.

Lemma concat_lookup ws j r : Forall word_ok ws → (j < length ws)%nat → (r < 4)%nat → concat ws !!! (4 * j + r)%nat = (ws !!! j) !!! r.
Proof.
  intros Hws. revert j. induction Hws as [|w ws [Hl _] _ IH]; intros j Hj Hr; [simpl in Hj; lia|]. cbn [concat]. destruct j as [|j].
  - rewrite lookup_total_app_l by lia. done.
  - rewrite lookup_total_app_r by lia. rewrite Hl. replace (4 * S j + r - 4)%nat with (4 * j + r)%nat by lia. apply IH; simpl in Hj; lia.
Qed.

Lemma concat_slice ws i n : Forall word_ok ws → take (4 * n) (drop (4 * i) (concat ws)) = concat (take n (drop i ws)).
Proof.
  intros Hws. revert i n. induction Hws as [|w ws [Hl _] Hws IH]; intros i n.
  - cbn [concat]. by rewrite !drop_nil, !take_nil.
  - destruct i as [|i].
    + rewrite Nat.mul_0_r, !drop_0. destruct n as [|n]; [done|]. cbn [concat]. rewrite firstn_cons. cbn [concat].
      rewrite take_app_ge by lia. rewrite Hl. f_equal. replace (4 * S n - 4)%nat with (4 * n)%nat by lia. specialize (IH 0%nat n). by rewrite Nat.mul_0_r, !drop_0 in IH.
    + rewrite skipn_cons. cbn [concat]. rewrite drop_app_ge by lia. rewrite Hl. replace (4 * S i - 4)%nat with (4 * i)%nat by lia. apply IH.
Qed.

(** A word as its four bytes. *)
Lemma word_bytes w : word_ok w → ∃ a b c d, w = [a; b; c; d] ∧ isbyte a ∧ isbyte b ∧ isbyte c ∧ isbyte d.
Proof.
  intros [Hl Hb]. do 4 (destruct w as [|? w]; [discriminate Hl|apply Forall_cons in Hb as [? Hb]]). destruct w; [by eauto 10|discriminate Hl].
Qed.

Lemma word_at ws i : Forall word_ok ws → (i < length ws)%nat → word_ok (ws !!! i).
Proof. intros Hws Hi. by apply (Forall_lookup_total_1 word_ok). Qed.

Lemma rcon_ok j : (1 <= j <= 10)%nat → rcon !!! j = Nat.iter (j - 1) xtime 1 ∧ isbyte (rcon !!! j).
Proof. intros Hj. unfold isbyte. do 11 (destruct j as [|j]; [lia || (vm_compute; done)|]). lia. Qed.

Lemma expand_step_ok ws i : Forall word_ok ws → length ws = i → (4 <= i < 44)%nat →
  expand_step (concat ws) i = concat (ws ++ [next_word ws i]) ∧ word_ok (next_word ws i).
Proof.
  intros Hws Hl Hi. assert (Hw1 := word_at ws (i - 1) Hws ltac:(lia)). assert (Hw4 := word_at ws (i - 4) Hws ltac:(lia)).
  assert (Hrc := rcon_ok (i / 4)%nat). unfold expand_step, next_word, AES_KEYCOLS. rewrite concat_app. cbn [concat]. rewrite app_nil_r.
  replace (4 * i - 4)%nat with (4 * (i - 1) + 0)%nat by lia. replace (4 * i - 3)%nat with (4 * (i - 1) + 1)%nat by lia.
  replace (4 * i - 2)%nat with (4 * (i - 1) + 2)%nat by lia. replace (4 * i - 1)%nat with (4 * (i - 1) + 3)%nat by lia.
  replace (4 * i - 4 * 4)%nat with (4 * (i - 4))%nat by lia. rewrite !concat_lookup by (done || lia).
  generalize dependent (ws !!! (i - 1)%nat). intros w1 (a&b&c&d&->&?&?&?&?)%word_bytes.
  generalize dependent (ws !!! (i - 4)%nat). intros w4 (e&f&g&h&->&?&?&?&?)%word_bytes. cbn [Nat.ltb Nat.leb andb].
  destruct (i mod 4 =? 0)%nat.
  - destruct Hrc as [Hrc Hrb]; [pose proof (Nat.Div0.div_lt_upper_bound i 4 11 ltac:(lia)); pose proof (Nat.div_le_lower_bound i 4 1 ltac:(lia) ltac:(lia)); lia|].
    unfold Rcon. rewrite <-Hrc. cbn -[sbox SBox rcon Z.to_nat Nat.div]. rewrite !Z.lxor_0_r, !sbox_ok by done. split; [done|]. split; [done|].
    apply Forall_cons_2; [apply isbyte_lxor; [done|apply isbyte_lxor; auto using SBox_byte]|].
    do 3 (apply Forall_cons_2; [apply isbyte_lxor; auto using SBox_byte|]). constructor.
  - cbn. split; [done|]. split; [done|]. do 4 (apply Forall_cons_2; [by apply isbyte_lxor|]). constructor.
Qed.

Lemma foldl_expand n : ∀ ws, Forall word_ok ws → (4 <= length ws)%nat → (length ws + n <= 44)%nat →
  let ws' := foldl (λ ws i, ws ++ [next_word ws i]) ws (seq (length ws) n) in
  foldl expand_step (concat ws) (seq (length ws) n) = concat ws' ∧ Forall word_ok ws' ∧ length ws' = (length ws + n)%nat.
Proof.
  induction n as [|n IH]; intros ws Hws Hl Hn ws'; [subst ws'; cbn; split_and!; [done..|lia]|]. subst ws'. cbn [seq foldl].
  destruct (expand_step_ok ws (length ws) Hws eq_refl ltac:(lia)) as [-> Hok].
  destruct (IH (ws ++ [next_word ws (length ws)])) as (E&Hok'&Hl'); [by apply Forall_app_2, Forall_singleton|rewrite length_app; simpl; lia..|].
  rewrite length_app in *. cbn [length] in *. rewrite Nat.add_1_r in *. rewrite E. split_and!; [done..|lia].
Qed.

Definition key_ok (key : list Z) : Prop := length key = 16%nat ∧ bytes key.

Lemma words_of_ok key : key_ok key → concat (words_of key) = key ∧ Forall word_ok (words_of key) ∧ length (words_of key) = 4%nat.
Proof.
  intros [Hl Hb]. split_and!; [|unfold words_of; apply Forall_fmap, Forall_forall; intros i Hi%elem_of_seq; cbn|done].
  - unfold words_of. do 16 (destruct key as [|? key]; [discriminate Hl|]). by destruct key.
  - split; [rewrite length_take, length_drop; lia|]. by apply Forall_take, Forall_drop.
Qed.

Lemma aes_expand_key_ok key : key_ok key →
  aes_expand_key key = concat (KeyExpansion key) ∧ Forall word_ok (KeyExpansion key) ∧ length (KeyExpansion key) = 44%nat.
Proof.
  intros Hk. destruct (words_of_ok key Hk) as (Ec&Hok&Hl). unfold aes_expand_key, KeyExpansion, AES_KEYCOLS, AES_STATECOLS, AES_ROUNDS.
  rewrite take_ge by (destruct Hk; lia). rewrite <-Ec at 1. replace (4 * (10 + 1) - 4)%nat with 40%nat by lia.
  pose proof (foldl_expand 40 (words_of key) Hok) as H. rewrite Hl in H. apply H; lia.
Qed.

(** The key of a round is a state. *)
Lemma round_key_ok key r : key_ok key → (r <= 10)%nat →
  take 16 (round_key (aes_expand_key key) r) = RoundKey (KeyExpansion key) r ∧ state_ok (RoundKey (KeyExpansion key) r).
Proof.
  intros Hk Hr. destruct (aes_expand_key_ok key Hk) as (->&Hok&Hl). unfold round_key, RoundKey, AES_STATECOLS.
  split; [replace (r * 4)%nat with (4 * r)%nat by lia; exact (concat_slice (KeyExpansion key) (4 * r) 4 Hok)|].
  destruct (concat_words (take 4 (drop (4 * r) (KeyExpansion key)))) as [E Hb]; [by apply Forall_take, Forall_drop|].
  split; [|done]. rewrite E, length_take, length_drop. lia.
Qed.

(** ** The cipher *)

Lemma shift_rows_byte s : state_ok s → state_ok (shift_rows s).
Proof.
  intros Hs. open_state s. rewrite shift_rows_list. split; [done|]. do 16 (apply Forall_cons_2; [by apply sbox_byte|]). constructor.
Qed.

Lemma mix_sub_columns_byte s : state_ok s → state_ok (mix_sub_columns s).
Proof.
  intros Hs. pose proof (proj2 Hs) as Hb. open_state s. rewrite mix_sub_columns_list by apply Hb. split; [done|].
  do 16 (apply Forall_cons_2; [apply column_byte; by apply sbox_byte|]). constructor.
Qed.

(** The state after a key has been added. *)
Lemma add_round_key_spec big s key r : state_ok s → key_ok key → (r <= 10)%nat →
  add_round_key big s (round_key (aes_expand_key key) r) = AddRoundKey s (RoundKey (KeyExpansion key) r) ∧
  state_ok (AddRoundKey s (RoundKey (KeyExpansion key) r)).
Proof.
  intros Hs Hk Hr. destruct (round_key_ok key r Hk Hr) as [E Hrk]. split; [|by apply zip_ok].
  rewrite add_round_key_ok by (done || by rewrite E). by rewrite E.
Qed.

(** The state before the last round, and the whole cipher, with the functions of the code. *)
Definition rounds (key s : list Z) (n : nat) : list Z :=
  foldl (λ s r, AddRoundKey (mix_sub_columns s) (RoundKey (KeyExpansion key) r)) (AddRoundKey s (RoundKey (KeyExpansion key) 0)) (seq 1 n).

Definition cipher (key s : list Z) : list Z := AddRoundKey (shift_rows (rounds key s 9)) (RoundKey (KeyExpansion key) 10).

Lemma rounds_S key s n : rounds key s (S n) = AddRoundKey (mix_sub_columns (rounds key s n)) (RoundKey (KeyExpansion key) (S n)).
Proof. unfold rounds. by rewrite seq_S, foldl_snoc. Qed.

Lemma rounds_ok key s n : key_ok key → state_ok s → (n <= 10)%nat → state_ok (rounds key s n).
Proof.
  intros Hk Hs. induction n as [|n IH]; intros Hn; [|rewrite rounds_S]; apply zip_ok; try apply round_key_ok; try done; try lia.
  apply mix_sub_columns_byte, IH. lia.
Qed.

Lemma rounds_fips key s n : key_ok key → state_ok s → (n <= 9)%nat →
  rounds key s n = foldl (λ s r, AddRoundKey (MixColumns (ShiftRows (SubBytes s))) (RoundKey (KeyExpansion key) r)) (AddRoundKey s (RoundKey (KeyExpansion key) 0)) (seq 1 n).
Proof.
  intros Hk Hs. induction n as [|n IH]; intros Hn; [done|]. rewrite rounds_S, seq_S, foldl_snoc, <-IH by lia.
  rewrite mix_sub_columns_ok; [done|]. apply rounds_ok; (done || lia).
Qed.

Lemma cipher_fips key s : key_ok key → state_ok s → cipher key s = Cipher s key.
Proof.
  intros Hk Hs. unfold cipher, Cipher. rewrite shift_rows_ok by (apply rounds_ok; (done || lia)). by rewrite rounds_fips.
Qed.

Lemma encrypt_rounds big key s n : key_ok key → state_ok s → (n <= 9)%nat →
  foldl (λ state round,
    add_round_key big (if (round <? AES_ROUNDS)%nat then mix_sub_columns state else shift_rows state) (round_key (aes_expand_key key) round))
    (add_round_key big s (round_key (aes_expand_key key) 0)) (seq 1 n) = rounds key s n.
Proof.
  intros Hk Hs. induction n as [|n IH]; intros Hn.
  - apply add_round_key_spec; (done || lia).
  - rewrite seq_S, foldl_snoc, IH, rounds_S by lia. rewrite (proj2 (Nat.ltb_lt _ _)) by (unfold AES_ROUNDS; lia).
    apply add_round_key_spec; [|done|lia]. apply mix_sub_columns_byte, rounds_ok; (done || lia).
Qed.

Lemma aes_encrypt_eq big s k : length s = 16%nat →
  aes_encrypt big s k = add_round_key big (shift_rows (foldl (λ state round,
    add_round_key big (if (round <? AES_ROUNDS)%nat then mix_sub_columns state else shift_rows state) (round_key k round))
    (add_round_key big s (round_key k 0)) (seq 1 9))) (round_key k 10).
Proof.
  intros Hs. unfold aes_encrypt. rewrite take_ge by (unfold AES_STATECOLS; lia).
  change (seq 1 AES_ROUNDS) with (seq 1 9 ++ [10%nat]). by rewrite foldl_snoc.
Qed.

Lemma aes_encrypt_cipher big key s : key_ok key → state_ok s → aes_encrypt big s (aes_expand_key key) = cipher key s.
Proof.
  intros Hk Hs. rewrite aes_encrypt_eq by apply Hs. rewrite encrypt_rounds by (done || lia). unfold cipher.
  apply add_round_key_spec; [|done|lia]. apply shift_rows_byte, rounds_ok; (done || lia).
Qed.

(** ** Decryption undoes each round *)

Lemma add_twice key s r : key_ok key → state_ok s → (r <= 10)%nat →
  AddRoundKey (AddRoundKey s (RoundKey (KeyExpansion key) r)) (RoundKey (KeyExpansion key) r) = s.
Proof. intros Hk Hs Hr. apply zip_twice; [done|]. by apply round_key_ok. Qed.

(** From the state before a round back to the input. *)
Lemma decrypt_loop_rounds big key s n : key_ok key → state_ok s → (n <= 9)%nat →
  decrypt_loop big (S n) (aes_expand_key key) (rounds key s n) = s.
Proof.
  intros Hk Hs. induction n as [|n IH]; intros Hn; cbn [decrypt_loop].
  - cbn [decrypt_loop Nat.eqb]. change (rounds key s 0) with (AddRoundKey s (RoundKey (KeyExpansion key) 0)).
    rewrite (proj1 (add_round_key_spec big _ key 0 (proj2 (add_round_key_spec big s key 0 Hs Hk ltac:(lia))) Hk ltac:(lia))).
    apply add_twice; (done || lia).
  - assert (Hm : state_ok (mix_sub_columns (rounds key s n))) by (apply mix_sub_columns_byte, rounds_ok; (done || lia)).
    rewrite (proj1 (add_round_key_spec big _ key (S n) (rounds_ok key s (S n) Hk Hs ltac:(lia)) Hk ltac:(lia))).
    rewrite rounds_S, add_twice by (done || lia). cbn [Nat.eqb]. rewrite inv_mix_sub_columns_ok by (apply rounds_ok; (done || lia)).
    apply IH. lia.
Qed.

Lemma aes_decrypt_cipher big key s : key_ok key → state_ok s → aes_decrypt big (cipher key s) (aes_expand_key key) = s.
Proof.
  intros Hk Hs. assert (Hs9 := rounds_ok key s 9 Hk Hs ltac:(lia)). assert (Hsr := shift_rows_byte _ Hs9).
  destruct (add_round_key_spec big _ key 10 Hsr Hk ltac:(lia)) as [_ Hc]. unfold aes_decrypt.
  rewrite take_ge by (destruct Hc as [Hc _]; unfold cipher, AES_STATECOLS; lia).
  unfold AES_ROUNDS. unfold cipher at 1. rewrite (proj1 (add_round_key_spec big _ key 10 Hc Hk ltac:(lia))).
  rewrite add_twice by (done || lia). rewrite inv_shift_rows_ok by done. apply decrypt_loop_rounds; (done || lia).
Qed.

(** ** Properties *)

(** C12: the encryption of a block is the cipher of FIPS 197: with the schedule
    of a 16 byte key, [aes_encrypt] returns what the standard defines from the
    field of 256 elements, the S-box as inverse and affine map, and the key
    expansion by words, whatever the byte order of the machine. *)
Theorem aes_encrypt_correct big input key : state_ok input → key_ok key → aes_encrypt big input (aes_expand_key key) = Cipher input key.
Proof. intros Hs Hk. by rewrite aes_encrypt_cipher, cipher_fips. Qed.

(** C13: decryption is the inverse of encryption under the same schedule, for
    every block and every key. *)
Theorem aes_decrypt_encrypt big input key : state_ok input → key_ok key →
  aes_decrypt big (aes_encrypt big input (aes_expand_key key)) (aes_expand_key key) = input.
Proof. intros Hs Hk. by rewrite aes_encrypt_cipher, aes_decrypt_cipher. Qed.

Lemma fips_input_ok : state_ok fips_input.
Proof. split; [done|]. by repeat (apply Forall_cons_2; [done|]). Qed.

Lemma fips_key_ok : key_ok fips_key.
Proof. split; [done|]. by repeat (apply Forall_cons_2; [done|]). Qed.

Lemma aes_encrypt_correct_witness : aes_encrypt false fips_input (aes_expand_key fips_key) = Cipher fips_input fips_key.
Proof. apply (aes_encrypt_correct false fips_input fips_key); [apply fips_input_ok|apply fips_key_ok]. Defined.

Lemma aes_decrypt_encrypt_witness : aes_decrypt true (aes_encrypt true fips_input (aes_expand_key fips_key)) (aes_expand_key fips_key) = fips_input.
Proof. apply (aes_decrypt_encrypt true fips_input fips_key); [apply fips_input_ok|apply fips_key_ok]. Defined.
