(* ===== verification/Sha256.v ===== *)
(** * SHA-256

    Translation of [lib/sha256.c]: the unrolled compression function, round by
    round, and the functions that feed it. The reference is the description
    of FIPS 180-2 with its message schedule of 64 words and its rotating
    working variables; its constants are checked against their definition as
    cube roots of primes. *)

From stdpp Require Import base option list numbers.
From Stdlib Require Import ZArith Znumtheory Lia.
From S2P Require Import Prelude Word32 BlockHash.
Local Open Scope Z_scope.

(** The working variables A to H. *)
Definition regs : Type := Z * Z * Z * Z * Z * Z * Z * Z.

(** ** The macros *)

Definition SHR (x n : Z) : Z := Z.shiftr (Z.land x MASK32) n.
Definition ROTR (x n : Z) : Z := Z.lor (SHR x n) (u32 (Z.shiftl x (32 - n))).

Definition S0 (x : Z) : Z := Z.lxor (Z.lxor (ROTR x 7) (ROTR x 18)) (SHR x 3).
Definition S1 (x : Z) : Z := Z.lxor (Z.lxor (ROTR x 17) (ROTR x 19)) (SHR x 10).
Definition S2 (x : Z) : Z := Z.lxor (Z.lxor (ROTR x 2) (ROTR x 13)) (ROTR x 22).
Definition S3 (x : Z) : Z := Z.lxor (Z.lxor (ROTR x 6) (ROTR x 11)) (ROTR x 25).

Definition F0 (x y z : Z) : Z := Z.lor (Z.land x y) (Z.land z (Z.lor x y)).
Definition F1 (x y z : Z) : Z := Z.lxor z (Z.land x (Z.lxor y z)).

(** [R(t)] assigns [W[t]]. *)
Definition R (t : nat) (W : list Z) : list Z :=
  <[t := u32 (S1 (W !!! (t - 2)%nat) + W !!! (t - 7)%nat + S0 (W !!! (t - 15)%nat)
              + W !!! (t - 16)%nat)]> W.

(** [P] changes [d] and [h]. *)
Definition P (a b c d e f g h x K : Z) : Z * Z :=
  let temp1 := u32 (h + S3 e + F1 e f g + K + x) in
  let temp2 := u32 (S2 a + F0 a b c) in
  (u32 (d + temp1), u32 (temp1 + temp2)).

(** ** The rounds *)

Definition rounds_0_15 (W : list Z) '(A, B, C, D, E, F, G, H) : list Z * regs :=
  let '(D, H) := P A B C D E F G H (W !!! 0%nat) 0x428A2F98 in
  let '(C, G) := P H A B C D E F G (W !!! 1%nat) 0x71374491 in
  let '(B, F) := P G H A B C D E F (W !!! 2%nat) 0xB5C0FBCF in
  let '(A, E) := P F G H A B C D E (W !!! 3%nat) 0xE9B5DBA5 in
  let '(H, D) := P E F G H A B C D (W !!! 4%nat) 0x3956C25B in
  let '(G, C) := P D E F G H A B C (W !!! 5%nat) 0x59F111F1 in
  let '(F, B) := P C D E F G H A B (W !!! 6%nat) 0x923F82A4 in
  let '(E, A) := P B C D E F G H A (W !!! 7%nat) 0xAB1C5ED5 in
  let '(D, H) := P A B C D E F G H (W !!! 8%nat) 0xD807AA98 in
  let '(C, G) := P H A B C D E F G (W !!! 9%nat) 0x12835B01 in
  let '(B, F) := P G H A B C D E F (W !!! 10%nat) 0x243185BE in
  let '(A, E) := P F G H A B C D E (W !!! 11%nat) 0x550C7DC3 in
  let '(H, D) := P E F G H A B C D (W !!! 12%nat) 0x72BE5D74 in
  let '(G, C) := P D E F G H A B C (W !!! 13%nat) 0x80DEB1FE in
  let '(F, B) := P C D E F G H A B (W !!! 14%nat) 0x9BDC06A7 in
  let '(E, A) := P B C D E F G H A (W !!! 15%nat) 0xC19BF174 in
  (W, (A, B, C, D, E, F, G, H)).

Definition rounds_16_31 (W : list Z) '(A, B, C, D, E, F, G, H) : list Z * regs :=
  let W := R 16 W in
  let '(D, H) := P A B C D E F G H (W !!! 16%nat) 0xE49B69C1 in
  let W := R 17 W in
  let '(C, G) := P H A B C D E F G (W !!! 17%nat) 0xEFBE4786 in
  let W := R 18 W in
  let '(B, F) := P G H A B C D E F (W !!! 18%nat) 0x0FC19DC6 in
  let W := R 19 W in
  let '(A, E) := P F G H A B C D E (W !!! 19%nat) 0x240CA1CC in
  let W := R 20 W in
  let '(H, D) := P E F G H A B C D (W !!! 20%nat) 0x2DE92C6F in
  let W := R 21 W in
  let '(G, C) := P D E F G H A B C (W !!! 21%nat) 0x4A7484AA in
  let W := R 22 W in
  let '(F, B) := P C D E F G H A B (W !!! 22%nat) 0x5CB0A9DC in
  let W := R 23 W in
  let '(E, A) := P B C D E F G H A (W !!! 23%nat) 0x76F988DA in
  let W := R 24 W in
  let '(D, H) := P A B C D E F G H (W !!! 24%nat) 0x983E5152 in
  let W := R 25 W in
  let '(C, G) := P H A B C D E F G (W !!! 25%nat) 0xA831C66D in
  let W := R 26 W in
  let '(B, F) := P G H A B C D E F (W !!! 26%nat) 0xB00327C8 in
  let W := R 27 W in
  let '(A, E) := P F G H A B C D E (W !!! 27%nat) 0xBF597FC7 in
  let W := R 28 W in
  let '(H, D) := P E F G H A B C D (W !!! 28%nat) 0xC6E00BF3 in
  let W := R 29 W in
  let '(G, C) := P D E F G H A B C (W !!! 29%nat) 0xD5A79147 in
  let W := R 30 W in
  let '(F, B) := P C D E F G H A B (W !!! 30%nat) 0x06CA6351 in
  let W := R 31 W in
  let '(E, A) := P B C D E F G H A (W !!! 31%nat) 0x14292967 in
  (W, (A, B, C, D, E, F, G, H)).

Definition rounds_32_47 (W : list Z) '(A, B, C, D, E, F, G, H) : list Z * regs :=
  let W := R 32 W in
  let '(D, H) := P A B C D E F G H (W !!! 32%nat) 0x27B70A85 in
  let W := R 33 W in
  let '(C, G) := P H A B C D E F G (W !!! 33%nat) 0x2E1B2138 in
  let W := R 34 W in
  let '(B, F) := P G H A B C D E F (W !!! 34%nat) 0x4D2C6DFC in
  let W := R 35 W in
  let '(A, E) := P F G H A B C D E (W !!! 35%nat) 0x53380D13 in
  let W := R 36 W in
  let '(H, D) := P E F G H A B C D (W !!! 36%nat) 0x650A7354 in
  let W := R 37 W in
  let '(G, C) := P D E F G H A B C (W !!! 37%nat) 0x766A0ABB in
  let W := R 38 W in
  let '(F, B) := P C D E F G H A B (W !!! 38%nat) 0x81C2C92E in
  let W := R 39 W in
  let '(E, A) := P B C D E F G H A (W !!! 39%nat) 0x92722C85 in
  let W := R 40 W in
  let '(D, H) := P A B C D E F G H (W !!! 40%nat) 0xA2BFE8A1 in
  let W := R 41 W in
  let '(C, G) := P H A B C D E F G (W !!! 41%nat) 0xA81A664B in
  let W := R 42 W in
  let '(B, F) := P G H A B C D E F (W !!! 42%nat) 0xC24B8B70 in
  let W := R 43 W in
  let '(A, E) := P F G H A B C D E (W !!! 43%nat) 0xC76C51A3 in
  let W := R 44 W in
  let '(H, D) := P E F G H A B C D (W !!! 44%nat) 0xD192E819 in
  let W := R 45 W in
  let '(G, C) := P D E F G H A B C (W !!! 45%nat) 0xD6990624 in
  let W := R 46 W in
  let '(F, B) := P C D E F G H A B (W !!! 46%nat) 0xF40E3585 in
  let W := R 47 W in
  let '(E, A) := P B C D E F G H A (W !!! 47%nat) 0x106AA070 in
  (W, (A, B, C, D, E, F, G, H)).

Definition rounds_48_63 (W : list Z) '(A, B, C, D, E, F, G, H) : list Z * regs :=
  let W := R 48 W in
  let '(D, H) := P A B C D E F G H (W !!! 48%nat) 0x19A4C116 in
  let W := R 49 W in
  let '(C, G) := P H A B C D E F G (W !!! 49%nat) 0x1E376C08 in
  let W := R 50 W in
  let '(B, F) := P G H A B C D E F (W !!! 50%nat) 0x2748774C in
  let W := R 51 W in
  let '(A, E) := P F G H A B C D E (W !!! 51%nat) 0x34B0BCB5 in
  let W := R 52 W in
  let '(H, D) := P E F G H A B C D (W !!! 52%nat) 0x391C0CB3 in
  let W := R 53 W in
  let '(G, C) := P D E F G H A B C (W !!! 53%nat) 0x4ED8AA4A in
  let W := R 54 W in
  let '(F, B) := P C D E F G H A B (W !!! 54%nat) 0x5B9CCA4F in
  let W := R 55 W in
  let '(E, A) := P B C D E F G H A (W !!! 55%nat) 0x682E6FF3 in
  let W := R 56 W in
  let '(D, H) := P A B C D E F G H (W !!! 56%nat) 0x748F82EE in
  let W := R 57 W in
  let '(C, G) := P H A B C D E F G (W !!! 57%nat) 0x78A5636F in
  let W := R 58 W in
  let '(B, F) := P G H A B C D E F (W !!! 58%nat) 0x84C87814 in
  let W := R 59 W in
  let '(A, E) := P F G H A B C D E (W !!! 59%nat) 0x8CC70208 in
  let W := R 60 W in
  let '(H, D) := P E F G H A B C D (W !!! 60%nat) 0x90BEFFFA in
  let W := R 61 W in
  let '(G, C) := P D E F G H A B C (W !!! 61%nat) 0xA4506CEB in
  let W := R 62 W in
  let '(F, B) := P C D E F G H A B (W !!! 62%nat) 0xBEF9A3F7 in
  let W := R 63 W in
  let '(E, A) := P B C D E F G H A (W !!! 63%nat) 0xC67178F2 in
  (W, (A, B, C, D, E, F, G, H)).

(** [W] is an array of 64 words of which the first 16 are read from [data];
    the others hold anything until [R] assigns them. *)
Definition load_block (data : list Z) : list Z :=
  (λ i, GET_UINT32_BE data (4 * i)) <$> seq 0 16.

Definition sha256_process (st data : list Z) : list Z :=
  let W := load_block data ++ replicate 48 0 in
  let s := (st !!! 0%nat, st !!! 1%nat, st !!! 2%nat, st !!! 3%nat,
            st !!! 4%nat, st !!! 5%nat, st !!! 6%nat, st !!! 7%nat) in
  let '(W, s) := rounds_0_15 W s in
  let '(W, s) := rounds_16_31 W s in
  let '(W, s) := rounds_32_47 W s in
  let '(W, s) := rounds_48_63 W s in
  let '(A, B, C, D, E, F, G, H) := s in
  [u32 (st !!! 0%nat + A); u32 (st !!! 1%nat + B); u32 (st !!! 2%nat + C); u32 (st !!! 3%nat + D);
   u32 (st !!! 4%nat + E); u32 (st !!! 5%nat + F); u32 (st !!! 6%nat + G); u32 (st !!! 7%nat + H)].

(** ** The functions of the file *)

Definition sha256_hash : BlockHash := {| process := sha256_process |}.

(** The values that [sha256_starts] stores. *)
Definition sha256_iv : list Z :=
  [0x6A09E667; 0xBB67AE85; 0x3C6EF372; 0xA54FF53A;
   0x510E527F; 0x9B05688C; 0x1F83D9AB; 0x5BE0CD19].

Definition sha256_starts (buf : list Z) : sha_context := sha_starts sha256_iv buf.
Definition sha256_update : sha_context → list Z → sha_context := @sha_update sha256_hash.
Definition sha256_finish : sha_context → list Z := @sha_finish sha256_hash.

Definition sha256 (buf : list Z) : digest_impl := {|
  d_start := sha256_starts buf; d_update := sha256_update; d_finish := sha256_finish |}.

Definition sha256_csum_wd (buf : list Z) (watchdog : bool) (chunk_sz : nat) (input : list Z)
  : option (list Z) := csum_wd (sha256 buf) watchdog chunk_sz input.

(** ** Reference *)

Definition Ch (x y z : Z) : Z := Z.lxor (Z.land x y) (Z.land (Z.lnot x) z).
Definition Maj (x y z : Z) : Z :=
  Z.lxor (Z.lxor (Z.land x y) (Z.land x z)) (Z.land y z).
Definition shr (n x : Z) : Z := x mod 2 ^ 32 / 2 ^ n.
Definition Sigma0 (x : Z) : Z := Z.lxor (Z.lxor (rotr 2 x) (rotr 13 x)) (rotr 22 x).
Definition Sigma1 (x : Z) : Z := Z.lxor (Z.lxor (rotr 6 x) (rotr 11 x)) (rotr 25 x).
Definition sigma0 (x : Z) : Z := Z.lxor (Z.lxor (rotr 7 x) (rotr 18 x)) (shr 3 x).
Definition sigma1 (x : Z) : Z := Z.lxor (Z.lxor (rotr 17 x) (rotr 19 x)) (shr 10 x).

Definition K : list Z :=
  [0x428A2F98; 0x71374491; 0xB5C0FBCF; 0xE9B5DBA5; 0x3956C25B; 0x59F111F1; 0x923F82A4; 0xAB1C5ED5;
   0xD807AA98; 0x12835B01; 0x243185BE; 0x550C7DC3; 0x72BE5D74; 0x80DEB1FE; 0x9BDC06A7; 0xC19BF174;
   0xE49B69C1; 0xEFBE4786; 0x0FC19DC6; 0x240CA1CC; 0x2DE92C6F; 0x4A7484AA; 0x5CB0A9DC; 0x76F988DA;
   0x983E5152; 0xA831C66D; 0xB00327C8; 0xBF597FC7; 0xC6E00BF3; 0xD5A79147; 0x06CA6351; 0x14292967;
   0x27B70A85; 0x2E1B2138; 0x4D2C6DFC; 0x53380D13; 0x650A7354; 0x766A0ABB; 0x81C2C92E; 0x92722C85;
   0xA2BFE8A1; 0xA81A664B; 0xC24B8B70; 0xC76C51A3; 0xD192E819; 0xD6990624; 0xF40E3585; 0x106AA070;
   0x19A4C116; 0x1E376C08; 0x2748774C; 0x34B0BCB5; 0x391C0CB3; 0x4ED8AA4A; 0x5B9CCA4F; 0x682E6FF3;
   0x748F82EE; 0x78A5636F; 0x84C87814; 0x8CC70208; 0x90BEFFFA; 0xA4506CEB; 0xBEF9A3F7; 0xC67178F2].

(** Word [t] of the schedule, from the ones before it. *)
Definition next_word (W : list Z) (t : nat) : Z :=
  (sigma1 (W !!! (t - 2)%nat) + W !!! (t - 7)%nat + sigma0 (W !!! (t - 15)%nat)
   + W !!! (t - 16)%nat) mod 2 ^ 32.

Definition fips_step (W : list Z) (s : regs) (t : nat) : regs :=
  let '(a, b, c, d, e, f, g, h) := s in
  let T1 := h + Sigma1 e + Ch e f g + K !!! t + W !!! t in
  let T2 := Sigma0 a + Maj a b c in
  ((T1 + T2) mod 2 ^ 32, a, b, c, (d + T1) mod 2 ^ 32, e, f, g).

Definition fips_compress (st block : list Z) : list Z :=
  let W := extend next_word 48 (words be_word 16 block) in
  let s := (st !!! 0%nat, st !!! 1%nat, st !!! 2%nat, st !!! 3%nat,
            st !!! 4%nat, st !!! 5%nat, st !!! 6%nat, st !!! 7%nat) in
  let '(a, b, c, d, e, f, g, h) := foldl (fips_step W) s (seq 0 64) in
  zip_with (λ x y, (x + y) mod 2 ^ 32)
    ((λ i, st !!! i) <$> seq 0 8) [a; b; c; d; e; f; g; h].

Definition fips_sha256 : BlockHash := {| process := fips_compress |}.

(** SHA-256 of a message. *)
Definition SHA256 (m : list Z) : list Z := @digest fips_sha256 sha256_iv be64 be_bytes m.

(** ** The macros compute the functions of the standard *)

Lemma ROTR_rotr x n : 0 ≤ n ≤ 32 → ROTR x n = rotr n x.
Proof. intros. unfold ROTR, SHR. rewrite u32_land. by apply rotr_lor. Qed.

Lemma SHR_shr x n : 0 ≤ n → SHR x n = shr n x.
Proof. intros. unfold SHR, shr. rewrite u32_land, Z.shiftr_div_pow2 by done. done. Qed.

Lemma S_sigma x :
  S0 x = sigma0 x ∧ S1 x = sigma1 x ∧ S2 x = Sigma0 x ∧ S3 x = Sigma1 x.
Proof.
  unfold S0, S1, S2, S3, sigma0, sigma1, Sigma0, Sigma1.
  rewrite !ROTR_rotr, !SHR_shr by lia. done.
Qed.

Lemma R_next t W : R t W = <[t := next_word W t]> W.
Proof.
  unfold R, next_word. by rewrite (proj1 (S_sigma _)), (proj1 (proj2 (S_sigma _))).
Qed.

(** A round of the code, with the variables renamed instead of moved. *)
Definition code_step (W : list Z) (s : regs) (t : nat) : regs :=
  let '(a, b, c, d, e, f, g, h) := s in
  let '(d', h') := P a b c d e f g h (W !!! t) (K !!! t) in
  (h', a, b, c, d', e, f, g).

Lemma sha256_code_step_fips W s t : code_step W s t = fips_step W s t.
Proof.
  destruct s as [[[[[[[a b] c] d] e] f] g] h]. unfold code_step, fips_step, P.
  destruct (S_sigma a) as (_ & _ & -> & _), (S_sigma e) as (_ & _ & _ & ->).
  unfold F0, F1, Ch, Maj. rewrite choice_xor, majority_or.
  rewrite u32_add_r, u32_add_l, u32_add_r. done.
Qed.

Definition code_round (Ws : list Z * regs) (t : nat) : list Z * regs :=
  let '(W, s) := Ws in
  let W := if (t <? 16)%nat then W else R t W in (W, code_step W s t).

Lemma sha256_code_rounds_cons W a b c d e f g h t l :
  foldl code_round (W, (a, b, c, d, e, f, g, h)) (t :: l) =
  let W := if (t <? 16)%nat then W else R t W in
  let '(d', h') := P a b c d e f g h (W !!! t) (K !!! t) in
  foldl code_round (W, (h', a, b, c, d', e, f, g)) l.
Proof.
  cbn [foldl]. unfold code_round at 2, code_step. cbv zeta.
  by destruct (P a b c d e f g h _ _).
Qed.

(** One unrolled round against one iteration. *)
Ltac unrolled_round :=
  rewrite sha256_code_rounds_cons; cbn [Nat.ltb Nat.leb];
  match goal with |- context [K !!! ?t] =>
    let v := eval vm_compute in (K !!! t) in change (K !!! t) with v end;
  cbv zeta;
  try match goal with |- context [R ?t ?W] => generalize (R t W); intros ? end;
  match goal with |- context [P ?a ?b ?c ?d ?e ?f ?g ?h ?x ?k] =>
    destruct (P a b c d e f g h x k) as [? ?] end.

Lemma rounds_0_15_ok W s : rounds_0_15 W s = foldl code_round (W, s) (seq 0 16).
Proof.
  destruct s as [[[[[[[a b] c] d] e] f] g] h]. unfold rounds_0_15. cbn [seq].
  do 16 unrolled_round. reflexivity.
Qed.

Lemma rounds_16_31_ok W s : rounds_16_31 W s = foldl code_round (W, s) (seq 16 16).
Proof.
  destruct s as [[[[[[[a b] c] d] e] f] g] h]. unfold rounds_16_31. cbn [seq].
  do 16 unrolled_round. reflexivity.
Qed.

Lemma rounds_32_47_ok W s : rounds_32_47 W s = foldl code_round (W, s) (seq 32 16).
Proof.
  destruct s as [[[[[[[a b] c] d] e] f] g] h]. unfold rounds_32_47. cbn [seq].
  do 16 unrolled_round. reflexivity.
Qed.

Lemma rounds_48_63_ok W s : rounds_48_63 W s = foldl code_round (W, s) (seq 48 16).
Proof.
  destruct s as [[[[[[[a b] c] d] e] f] g] h]. unfold rounds_48_63. cbn [seq].
  do 16 unrolled_round. reflexivity.
Qed.

(** ** The rounds follow the schedule *)

Lemma sha256_next_word_ext W1 W2 t : (16 ≤ t)%nat →
  (∀ i, (i < t)%nat → W1 !!! i = W2 !!! i) → next_word W1 t = next_word W2 t.
Proof. intros Ht Hi. unfold next_word. rewrite !Hi by lia. done. Qed.

Section Schedule.
Context (ws : list Z) (Hws : length ws = 16%nat).

Let full := extend next_word 48 ws.

Lemma sha256_schedule_spec :
  (∀ i, (i < 16)%nat → full !!! i = ws !!! i) ∧
  (∀ t, (16 ≤ t < 64)%nat → full !!! t = next_word full t).
Proof.
  destruct (extend_spec next_word 48 ws) as (_ & Hp & Ht).
  - intros W1 W2 t Ht. apply sha256_next_word_ext. lia.
  - rewrite Hws in *. split; [exact Hp|]. intros t H. apply Ht. lia.
Qed.

Lemma sha256_code_loop s n : (n ≤ 64)%nat →
  let r := foldl code_round (ws ++ replicate 48 0, s) (seq 0 n) in
  length r.1 = 64%nat ∧ (∀ i, (i < 16 `max` n)%nat → r.1 !!! i = full !!! i) ∧
  r.2 = foldl (fips_step full) s (seq 0 n).
Proof.
  destruct sha256_schedule_spec as [Hlo Hhi].
  induction n as [|n IH]; intros Hn.
  - simpl. split_and!; [rewrite length_app, Hws; done| |done].
    intros i Hi. rewrite Hlo by lia. apply lookup_total_app_l. lia.
  - destruct IH as (Hl & HW & Hs); [lia|].
    rewrite seq_S, !foldl_app. cbn [foldl Nat.add].
    destruct (foldl code_round _ _) as [W s'] eqn:E. simpl in Hl, HW, Hs. subst s'.
    unfold code_round. cbv zeta. cbn [fst snd].
    destruct (n <? 16)%nat eqn:En; cmp_inv En.
    + split_and!; [done| |].
      * intros i Hi. apply HW. lia.
      * rewrite sha256_code_step_fips. unfold fips_step. rewrite HW by lia. done.
    + assert (HR : ∀ i, (i < S n)%nat → R n W !!! i = full !!! i).
      { intros i Hi. rewrite R_next. destruct (decide (i = n)) as [->|].
        - rewrite list_lookup_total_insert_eq by lia. rewrite Hhi by lia.
          apply sha256_next_word_ext; [done|]. intros j Hj. apply HW. lia.
        - rewrite list_lookup_total_insert_ne by done. apply HW. lia. }
      split_and!.
      * rewrite R_next, length_insert. done.
      * intros i Hi. apply HR. lia.
      * rewrite sha256_code_step_fips. unfold fips_step. rewrite HR by lia. done.
Qed.

End Schedule.

(** The unrolled compression function is the one of the standard. *)
Lemma sha256_process_fips st block : length block = 64%nat → bytes block →
  sha256_process st block = fips_compress st block.
Proof.
  intros Hb Hy. unfold sha256_process, fips_compress, load_block.
  rewrite GET_words by (done || lia).
  set (ws := words be_word 16 block).
  match goal with |- context [rounds_0_15 _ ?s] => set (s0 := s) end.
  destruct (sha256_code_loop ws (length_words _ _ _) s0 64) as (_ & _ & Hr); [done|].
  replace (seq 0 64) with (seq 0 16 ++ seq 16 16 ++ seq 32 16 ++ seq 48 16) in Hr at 1 by done.
  rewrite !foldl_app, <- rounds_0_15_ok in Hr.
  destruct (rounds_0_15 _ _) as [W1 s1]. rewrite <- rounds_16_31_ok in Hr.
  destruct (rounds_16_31 _ _) as [W2 s2]. rewrite <- rounds_32_47_ok in Hr.
  destruct (rounds_32_47 _ _) as [W3 s3]. rewrite <- rounds_48_63_ok in Hr.
  destruct (rounds_48_63 _ _) as [W4 s4]. cbn [snd] in Hr. rewrite <- Hr.
  destruct s4 as [[[[[[[a b] c] d] e] f] g] h]. reflexivity.
Qed.

(** ** The constants *)

Definition is_prime (p : Z) : bool :=
  forallb (λ d, negb (p mod Z.of_nat d =? 0)) (seq 2 (Z.to_nat p - 2)).

Definition first_primes (n : nat) : list Z :=
  take n (filter (λ p, is_prime p = true) (Z.of_nat <$> seq 2 400)).

(** [k] is the first 32 bits of the fraction of the [e]-th root of [p]. *)
Definition root_fraction (e : Z) (p k : Z) : bool :=
  existsb (λ i, let c := Z.of_nat i * 2 ^ 32 + k in
                (c ^ e <=? p * 2 ^ (32 * e)) && (p * 2 ^ (32 * e) <? (c + 1) ^ e)) (seq 0 32).

(** The round constants are those of cube roots, the initial values those of
    square roots. *)
Lemma constants_ok :
  length K = 64%nat ∧
  forallb (λ '(p, k), root_fraction 3 p k) (zip (first_primes 64) K) = true ∧
  length (first_primes 64) = 64%nat ∧
  forallb (λ '(p, k), root_fraction 2 p k) (zip (first_primes 8) sha256_iv) = true.
Proof. vm_compute. auto. Qed.

(** ** The digest *)

Lemma sha256_computes buf : length buf = 64%nat → computes (sha256 buf) SHA256.
Proof.
  intros Hb parts Hp Hf.
  transitivity (@digest sha256_hash sha256_iv be64 be_bytes (concat parts)).
  - exact (@sha_computes sha256_hash sha256_iv buf Hb parts Hp Hf).
  - apply digest_ext; [apply sha256_process_fips|apply be64_bytes|by apply Forall_concat].
Qed.

(** The one-call function, with and without a watchdog. *)
Lemma sha256_csum_wd_ok buf watchdog chunk_sz input :
  length buf = 64%nat → bytes input → fits32 input → (watchdog = true → (0 < chunk_sz)%nat) →
  sha256_csum_wd buf watchdog chunk_sz input = Some (SHA256 input).
Proof. intros. apply csum_wd_ok; [by apply sha256_computes|done..]. Qed.

(** C38: for every way of cutting a message into parts, and whatever the
    context's buffer held before, [sha256_starts], a [sha256_update] per part
    and [sha256_finish] return the SHA-256 digest of the message as FIPS 180-2
    defines it; the unrolled rounds, the optimised Boolean functions and the
    64-bit counter in two halves included. *)
Theorem sha256_correct buf parts :
  length buf = 64%nat → Forall bytes parts → Forall fits32 parts →
  sha256_finish (foldl sha256_update (sha256_starts buf) parts) = SHA256 (concat parts).
Proof. intros Hb. by apply (sha256_computes buf). Qed.

Lemma sha256_correct_witness :
  sha256_finish (foldl sha256_update (sha256_starts (replicate 64 7)) [[97]; [98; 99]]) =
    SHA256 [97; 98; 99] ∧
  SHA256 [97; 98; 99] = concat (be_bytes <$>
    [0xBA7816BF; 0x8F01CFEA; 0x414140DE; 0x5DAE2223; 0xB00361A3; 0x96177A9C; 0xB410FF61; 0xF20015AD]).
Proof.
  split; [|vm_compute; reflexivity].
  apply (sha256_correct (replicate 64 7) [[97]; [98; 99]]).
  - reflexivity.
  - repeat constructor; easy.
  - repeat constructor.
Defined.
