(* ===== verification/Sha1.v ===== *)
(** * SHA-1

    Translation of [lib/sha1.c]: the unrolled compression function with its
    message schedule in a circular buffer of 16 words, the functions that feed
    it, and HMAC. [unsigned long] is 32 bits wide. The reference is the
    description of FIPS 180-2 with a schedule of 80 words. *)

From stdpp Require Import base option list numbers.
From Stdlib Require Import ZArith Lia.
From S2P Require Import Prelude Word32 BlockHash.
Local Open Scope Z_scope.

(** The working variables A to E. *)
Definition regs : Type := Z * Z * Z * Z * Z.

(** ** The macros *)

Definition S (x n : Z) : Z := Z.lor (u32 (Z.shiftl x n)) (Z.shiftr (Z.land x MASK32) (32 - n)).

(** [t & 0x0F]. *)
Definition low4 (t : nat) : nat := Nat.land t 15.

(** [R(t)] assigns [W[t & 0x0F]]. *)
Definition R (t : nat) (W : list Z) : list Z :=
  let temp := Z.lxor (Z.lxor (Z.lxor (W !!! low4 (t - 3)) (W !!! low4 (t - 8)))
                (W !!! low4 (t - 14))) (W !!! low4 t) in
  <[low4 t := S temp 1]> W.

(** [P] changes [b] and [e]; [F] and [K] are macros that change every 20
    rounds. *)
Definition P (F : Z → Z → Z → Z) (K a b c d e x : Z) : Z * Z :=
  (S b 30, u32 (e + (S a 5 + F b c d + K + x))).

Definition F_0_19 (x y z : Z) : Z := Z.lxor z (Z.land x (Z.lxor y z)).
Definition F_20_39 (x y z : Z) : Z := Z.lxor (Z.lxor x y) z.
Definition F_40_59 (x y z : Z) : Z := Z.lor (Z.land x y) (Z.land z (Z.lor x y)).
Definition F_60_79 (x y z : Z) : Z := Z.lxor (Z.lxor x y) z.

Definition K_0_19 : Z := 0x5A827999.
Definition K_20_39 : Z := 0x6ED9EBA1.
Definition K_40_59 : Z := 0x8F1BBCDC.
Definition K_60_79 : Z := 0xCA62C1D6.

(** ** The rounds *)

Definition rounds_0_19 (W : list Z) '(A, B, C, D, E) : list Z * regs :=
  let '(B, E) := P F_0_19 K_0_19 A B C D E (W !!! 0%nat) in
  let '(A, D) := P F_0_19 K_0_19 E A B C D (W !!! 1%nat) in
  let '(E, C) := P F_0_19 K_0_19 D E A B C (W !!! 2%nat) in
  let '(D, B) := P F_0_19 K_0_19 C D E A B (W !!! 3%nat) in
  let '(C, A) := P F_0_19 K_0_19 B C D E A (W !!! 4%nat) in
  let '(B, E) := P F_0_19 K_0_19 A B C D E (W !!! 5%nat) in
  let '(A, D) := P F_0_19 K_0_19 E A B C D (W !!! 6%nat) in
  let '(E, C) := P F_0_19 K_0_19 D E A B C (W !!! 7%nat) in
  let '(D, B) := P F_0_19 K_0_19 C D E A B (W !!! 8%nat) in
  let '(C, A) := P F_0_19 K_0_19 B C D E A (W !!! 9%nat) in
  let '(B, E) := P F_0_19 K_0_19 A B C D E (W !!! 10%nat) in
  let '(A, D) := P F_0_19 K_0_19 E A B C D (W !!! 11%nat) in
  let '(E, C) := P F_0_19 K_0_19 D E A B C (W !!! 12%nat) in
  let '(D, B) := P F_0_19 K_0_19 C D E A B (W !!! 13%nat) in
  let '(C, A) := P F_0_19 K_0_19 B C D E A (W !!! 14%nat) in
  let '(B, E) := P F_0_19 K_0_19 A B C D E (W !!! 15%nat) in
  let W := R 16 W in
  let '(A, D) := P F_0_19 K_0_19 E A B C D (W !!! low4 16) in
  let W := R 17 W in
  let '(E, C) := P F_0_19 K_0_19 D E A B C (W !!! low4 17) in
  let W := R 18 W in
  let '(D, B) := P F_0_19 K_0_19 C D E A B (W !!! low4 18) in
  let W := R 19 W in
  let '(C, A) := P F_0_19 K_0_19 B C D E A (W !!! low4 19) in
  (W, (A, B, C, D, E)).

Definition rounds_20_39 (W : list Z) '(A, B, C, D, E) : list Z * regs :=
  let W := R 20 W in
  let '(B, E) := P F_20_39 K_20_39 A B C D E (W !!! low4 20) in
  let W := R 21 W in
  let '(A, D) := P F_20_39 K_20_39 E A B C D (W !!! low4 21) in
  let W := R 22 W in
  let '(E, C) := P F_20_39 K_20_39 D E A B C (W !!! low4 22) in
  let W := R 23 W in
  let '(D, B) := P F_20_39 K_20_39 C D E A B (W !!! low4 23) in
  let W := R 24 W in
  let '(C, A) := P F_20_39 K_20_39 B C D E A (W !!! low4 24) in
  let W := R 25 W in
  let '(B, E) := P F_20_39 K_20_39 A B C D E (W !!! low4 25) in
  let W := R 26 W in
  let '(A, D) := P F_20_39 K_20_39 E A B C D (W !!! low4 26) in
  let W := R 27 W in
  let '(E, C) := P F_20_39 K_20_39 D E A B C (W !!! low4 27) in
  let W := R 28 W in
  let '(D, B) := P F_20_39 K_20_39 C D E A B (W !!! low4 28) in
  let W := R 29 W in
  let '(C, A) := P F_20_39 K_20_39 B C D E A (W !!! low4 29) in
  let W := R 30 W in
  let '(B, E) := P F_20_39 K_20_39 A B C D E (W !!! low4 30) in
  let W := R 31 W in
  let '(A, D) := P F_20_39 K_20_39 E A B C D (W !!! low4 31) in
  let W := R 32 W in
  let '(E, C) := P F_20_39 K_20_39 D E A B C (W !!! low4 32) in
  let W := R 33 W in
  let '(D, B) := P F_20_39 K_20_39 C D E A B (W !!! low4 33) in
  let W := R 34 W in
  let '(C, A) := P F_20_39 K_20_39 B C D E A (W !!! low4 34) in
  let W := R 35 W in
  let '(B, E) := P F_20_39 K_20_39 A B C D E (W !!! low4 35) in
  let W := R 36 W in
  let '(A, D) := P F_20_39 K_20_39 E A B C D (W !!! low4 36) in
  let W := R 37 W in
  let '(E, C) := P F_20_39 K_20_39 D E A B C (W !!! low4 37) in
  let W := R 38 W in
  let '(D, B) := P F_20_39 K_20_39 C D E A B (W !!! low4 38) in
  let W := R 39 W in
  let '(C, A) := P F_20_39 K_20_39 B C D E A (W !!! low4 39) in
  (W, (A, B, C, D, E)).

Definition rounds_40_59 (W : list Z) '(A, B, C, D, E) : list Z * regs :=
  let W := R 40 W in
  let '(B, E) := P F_40_59 K_40_59 A B C D E (W !!! low4 40) in
  let W := R 41 W in
  let '(A, D) := P F_40_59 K_40_59 E A B C D (W !!! low4 41) in
  let W := R 42 W in
  let '(E, C) := P F_40_59 K_40_59 D E A B C (W !!! low4 42) in
  let W := R 43 W in
  let '(D, B) := P F_40_59 K_40_59 C D E A B (W !!! low4 43) in
  let W := R 44 W in
  let '(C, A) := P F_40_59 K_40_59 B C D E A (W !!! low4 44) in
  let W := R 45 W in
  let '(B, E) := P F_40_59 K_40_59 A B C D E (W !!! low4 45) in
  let W := R 46 W in
  let '(A, D) := P F_40_59 K_40_59 E A B C D (W !!! low4 46) in
  let W := R 47 W in
  let '(E, C) := P F_40_59 K_40_59 D E A B C (W !!! low4 47) in
  let W := R 48 W in
  let '(D, B) := P F_40_59 K_40_59 C D E A B (W !!! low4 48) in
  let W := R 49 W in
  let '(C, A) := P F_40_59 K_40_59 B C D E A (W !!! low4 49) in
  let W := R 50 W in
  let '(B, E) := P F_40_59 K_40_59 A B C D E (W !!! low4 50) in
  let W := R 51 W in
  let '(A, D) := P F_40_59 K_40_59 E A B C D (W !!! low4 51) in
  let W := R 52 W in
  let '(E, C) := P F_40_59 K_40_59 D E A B C (W !!! low4 52) in
  let W := R 53 W in
  let '(D, B) := P F_40_59 K_40_59 C D E A B (W !!! low4 53) in
  let W := R 54 W in
  let '(C, A) := P F_40_59 K_40_59 B C D E A (W !!! low4 54) in
  let W := R 55 W in
  let '(B, E) := P F_40_59 K_40_59 A B C D E (W !!! low4 55) in
  let W := R 56 W in
  let '(A, D) := P F_40_59 K_40_59 E A B C D (W !!! low4 56) in
  let W := R 57 W in
  let '(E, C) := P F_40_59 K_40_59 D E A B C (W !!! low4 57) in
  let W := R 58 W in
  let '(D, B) := P F_40_59 K_40_59 C D E A B (W !!! low4 58) in
  let W := R 59 W in
  let '(C, A) := P F_40_59 K_40_59 B C D E A (W !!! low4 59) in
  (W, (A, B, C, D, E)).

Definition rounds_60_79 (W : list Z) '(A, B, C, D, E) : list Z * regs :=
  let W := R 60 W in
  let '(B, E) := P F_60_79 K_60_79 A B C D E (W !!! low4 60) in
  let W := R 61 W in
  let '(A, D) := P F_60_79 K_60_79 E A B C D (W !!! low4 61) in
  let W := R 62 W in
  let '(E, C) := P F_60_79 K_60_79 D E A B C (W !!! low4 62) in
  let W := R 63 W in
  let '(D, B) := P F_60_79 K_60_79 C D E A B (W !!! low4 63) in
  let W := R 64 W in
  let '(C, A) := P F_60_79 K_60_79 B C D E A (W !!! low4 64) in
  let W := R 65 W in
  let '(B, E) := P F_60_79 K_60_79 A B C D E (W !!! low4 65) in
  let W := R 66 W in
  let '(A, D) := P F_60_79 K_60_79 E A B C D (W !!! low4 66) in
  let W := R 67 W in
  let '(E, C) := P F_60_79 K_60_79 D E A B C (W !!! low4 67) in
  let W := R 68 W in
  let '(D, B) := P F_60_79 K_60_79 C D E A B (W !!! low4 68) in
  let W := R 69 W in
  let '(C, A) := P F_60_79 K_60_79 B C D E A (W !!! low4 69) in
  let W := R 70 W in
  let '(B, E) := P F_60_79 K_60_79 A B C D E (W !!! low4 70) in
  let W := R 71 W in
  let '(A, D) := P F_60_79 K_60_79 E A B C D (W !!! low4 71) in
  let W := R 72 W in
  let '(E, C) := P F_60_79 K_60_79 D E A B C (W !!! low4 72) in
  let W := R 73 W in
  let '(D, B) := P F_60_79 K_60_79 C D E A B (W !!! low4 73) in
  let W := R 74 W in
  let '(C, A) := P F_60_79 K_60_79 B C D E A (W !!! low4 74) in
  let W := R 75 W in
  let '(B, E) := P F_60_79 K_60_79 A B C D E (W !!! low4 75) in
  let W := R 76 W in
  let '(A, D) := P F_60_79 K_60_79 E A B C D (W !!! low4 76) in
  let W := R 77 W in
  let '(E, C) := P F_60_79 K_60_79 D E A B C (W !!! low4 77) in
  let W := R 78 W in
  let '(D, B) := P F_60_79 K_60_79 C D E A B (W !!! low4 78) in
  let W := R 79 W in
  let '(C, A) := P F_60_79 K_60_79 B C D E A (W !!! low4 79) in
  (W, (A, B, C, D, E)).

Definition load_block (data : list Z) : list Z :=
  (λ i, GET_UINT32_BE data (4 * i)) <$> seq 0 16.

Definition sha1_process (st data : list Z) : list Z :=
  let W := load_block data in
  let s := (st !!! 0%nat, st !!! 1%nat, st !!! 2%nat, st !!! 3%nat, st !!! 4%nat) in
  let '(W, s) := rounds_0_19 W s in
  let '(W, s) := rounds_20_39 W s in
  let '(W, s) := rounds_40_59 W s in
  let '(W, s) := rounds_60_79 W s in
  let '(A, B, C, D, E) := s in
  [u32 (st !!! 0%nat + A); u32 (st !!! 1%nat + B); u32 (st !!! 2%nat + C);
   u32 (st !!! 3%nat + D); u32 (st !!! 4%nat + E)].

(** ** The functions of the file *)

Definition sha1_hash : BlockHash := {| process := sha1_process |}.

(** The values that [sha1_starts] stores. *)
Definition sha1_iv : list Z := [0x67452301; 0xEFCDAB89; 0x98BADCFE; 0x10325476; 0xC3D2E1F0].

Definition sha1_starts (buf : list Z) : sha_context := sha_starts sha1_iv buf.
Definition sha1_update : sha_context → list Z → sha_context := @sha_update sha1_hash.
Definition sha1_finish : sha_context → list Z := @sha_finish sha1_hash.

Definition sha1 (buf : list Z) : digest_impl := {|
  d_start := sha1_starts buf; d_update := sha1_update; d_finish := sha1_finish |}.

Definition sha1_csum (buf input : list Z) : list Z :=
  sha1_finish (sha1_update (sha1_starts buf) input).

Definition sha1_csum_wd (buf : list Z) (watchdog : bool) (chunk_sz : nat) (input : list Z)
  : option (list Z) := csum_wd (sha1 buf) watchdog chunk_sz input.

(** The loop of [sha1_hmac] that mixes the key into a pad: it stops after 64
    bytes. *)
Definition xor_key (k_pad key : list Z) : list Z :=
  foldl (λ p i, <[i := Z.lxor (p !!! i) (key !!! i)]> p) k_pad (seq 0 (length key `min` 64)).

(** [buf] and [buf'] are what the buffer of the context holds at the two calls
    of [sha1_starts]. *)
Definition sha1_hmac (buf buf' key input : list Z) : list Z :=
  let k_ipad := xor_key (replicate 64 0x36) key in
  let k_opad := xor_key (replicate 64 0x5C) key in
  let ctx := sha1_starts buf in
  let ctx := sha1_update ctx k_ipad in
  let ctx := sha1_update ctx input in
  let tmpbuf := sha1_finish ctx in
  let ctx := sha1_starts buf' in
  let ctx := sha1_update ctx k_opad in
  let ctx := sha1_update ctx tmpbuf in
  sha1_finish ctx.

(** ** Reference *)

Definition fips_f (t : nat) (x y z : Z) : Z :=
  if (t <? 20)%nat then Z.lxor (Z.land x y) (Z.land (Z.lnot x) z)
  else if (t <? 40)%nat then Z.lxor (Z.lxor x y) z
  else if (t <? 60)%nat then Z.lxor (Z.lxor (Z.land x y) (Z.land x z)) (Z.land y z)
  else Z.lxor (Z.lxor x y) z.

(** The constants are the square roots of 2, 3, 5 and 10, scaled by 2^30. *)
Definition fips_K (t : nat) : Z :=
  Z.sqrt ((if (t <? 20)%nat then 2 else if (t <? 40)%nat then 3
           else if (t <? 60)%nat then 5 else 10) * 2 ^ 60).

Definition next_word (W : list Z) (t : nat) : Z :=
  rotl 1 (Z.lxor (Z.lxor (Z.lxor (W !!! (t - 3)%nat) (W !!! (t - 8)%nat)) (W !!! (t - 14)%nat))
    (W !!! (t - 16)%nat)).

Definition fips_step (W : list Z) (s : regs) (t : nat) : regs :=
  let '(a, b, c, d, e) := s in
  ((rotl 5 a + fips_f t b c d + e + fips_K t + W !!! t) mod 2 ^ 32, a, rotl 30 b, c, d).

Definition fips_compress (st block : list Z) : list Z :=
  let W := extend next_word 64 (words be_word 16 block) in
  let s := (st !!! 0%nat, st !!! 1%nat, st !!! 2%nat, st !!! 3%nat, st !!! 4%nat) in
  let '(a, b, c, d, e) := foldl (fips_step W) s (seq 0 80) in
  zip_with (λ x y, (x + y) mod 2 ^ 32) ((λ i, st !!! i) <$> seq 0 5) [a; b; c; d; e].

Definition fips_sha1 : BlockHash := {| process := fips_compress |}.

(** SHA-1 of a message. *)
Definition SHA1 (m : list Z) : list Z := @digest fips_sha1 sha1_iv be64 be_bytes m.

(** HMAC (RFC 2104): a key of more than 64 bytes is replaced by its digest. *)
Definition HMAC_SHA1 (key m : list Z) : list Z :=
  let key := if (64 <? length key)%nat then SHA1 key else key in
  let k := key ++ replicate (64 - length key) 0 in
  SHA1 ((Z.lxor 0x5C <$> k) ++ SHA1 ((Z.lxor 0x36 <$> k) ++ m)).

(** ** The macros compute the functions of the standard *)

Lemma S_rotl x n : 0 ≤ n ≤ 32 → S x n = rotl n x.
Proof. intros. unfold S. rewrite u32_land. by apply rotl_lor. Qed.

Lemma low4_mod t : low4 t = (t mod 16)%nat.
Proof. unfold low4. change 15%nat with (Nat.ones 4). by rewrite Nat.land_ones. Qed.

(** The macros [F] and [K] in force in round [t]. *)
Definition F_at (t : nat) : Z → Z → Z → Z :=
  if (t <? 20)%nat then F_0_19 else if (t <? 40)%nat then F_20_39
  else if (t <? 60)%nat then F_40_59 else F_60_79.
Definition K_at (t : nat) : Z :=
  if (t <? 20)%nat then K_0_19 else if (t <? 40)%nat then K_20_39
  else if (t <? 60)%nat then K_40_59 else K_60_79.

Lemma F_at_fips t x y z : F_at t x y z = fips_f t x y z.
Proof.
  unfold F_at, fips_f. repeat case_match; try done.
  - apply choice_xor.
  - apply majority_or.
Qed.

Lemma K_at_fips t : K_at t = fips_K t.
Proof. unfold K_at, fips_K. by repeat case_match. Qed.

Definition code_step (W : list Z) (s : regs) (t : nat) : regs :=
  let '(a, b, c, d, e) := s in
  let '(b', e') := P (F_at t) (K_at t) a b c d e (W !!! low4 t) in
  (e', a, b', c, d).

Lemma sha1_code_step_fips W W' s t : W !!! low4 t = W' !!! t → code_step W s t = fips_step W' s t.
Proof.
  intros HW. destruct s as [[[[a b] c] d] e]. unfold code_step, fips_step, P.
  rewrite HW, !S_rotl, F_at_fips, K_at_fips by lia. do 4 f_equal. unfold u32. f_equal. lia.
Qed.

Definition code_round (Ws : list Z * regs) (t : nat) : list Z * regs :=
  let '(W, s) := Ws in
  let W := if (t <? 16)%nat then W else R t W in (W, code_step W s t).

Lemma sha1_code_rounds_cons W a b c d e t l :
  foldl code_round (W, (a, b, c, d, e)) (t :: l) =
  let W := if (t <? 16)%nat then W else R t W in
  let '(b', e') := P (F_at t) (K_at t) a b c d e (W !!! low4 t) in
  foldl code_round (W, (e', a, b', c, d)) l.
Proof.
  cbn [foldl]. unfold code_round at 2, code_step. cbv zeta.
  by destruct (P _ _ a b c d e _).
Qed.

(** One unrolled round against one iteration. *)
Ltac unrolled_round :=
  rewrite sha1_code_rounds_cons; cbn [F_at K_at Nat.ltb Nat.leb];
  cbv zeta;
  lazymatch goal with |- _ = match P _ _ _ _ _ _ _ (?W !!! low4 ?t) with pair _ _ => _ end =>
    lazymatch W with
    | R _ _ => generalize W; intros ?
    | _ => let v := eval vm_compute in (low4 t) in change (low4 t) with v
    end
  end;
  match goal with |- context [P ?f ?k ?a ?b ?c ?d ?e ?x] =>
    destruct (P f k a b c d e x) as [? ?] end.

Lemma rounds_0_19_ok W s : rounds_0_19 W s = foldl code_round (W, s) (seq 0 20).
Proof.
  destruct s as [[[[a b] c] d] e]. unfold rounds_0_19. cbn [seq].
  do 20 unrolled_round. reflexivity.
Qed.

Lemma rounds_20_39_ok W s : rounds_20_39 W s = foldl code_round (W, s) (seq 20 20).
Proof.
  destruct s as [[[[a b] c] d] e]. unfold rounds_20_39. cbn [seq].
  do 20 unrolled_round. reflexivity.
Qed.

Lemma rounds_40_59_ok W s : rounds_40_59 W s = foldl code_round (W, s) (seq 40 20).
Proof.
  destruct s as [[[[a b] c] d] e]. unfold rounds_40_59. cbn [seq].
  do 20 unrolled_round. reflexivity.
Qed.

Lemma rounds_60_79_ok W s : rounds_60_79 W s = foldl code_round (W, s) (seq 60 20).
Proof.
  destruct s as [[[[a b] c] d] e]. unfold rounds_60_79. cbn [seq].
  do 20 unrolled_round. reflexivity.
Qed.

(** ** The rounds follow the schedule *)

Lemma sha1_next_word_ext W1 W2 t : (16 ≤ t)%nat →
  (∀ i, (i < t)%nat → W1 !!! i = W2 !!! i) → next_word W1 t = next_word W2 t.
Proof. intros Ht Hi. unfold next_word. rewrite !Hi by lia. done. Qed.

Section Schedule.
Context (ws : list Z) (Hws : length ws = 16%nat).

Let full := extend next_word 64 ws.

Lemma sha1_schedule_spec :
  (∀ i, (i < 16)%nat → full !!! i = ws !!! i) ∧
  (∀ t, (16 ≤ t < 80)%nat → full !!! t = next_word full t).
Proof.
  destruct (extend_spec next_word 64 ws) as (_ & Hp & Ht).
  - intros W1 W2 t Ht. apply sha1_next_word_ext. lia.
  - rewrite Hws in *. split; [exact Hp|]. intros t H. apply Ht. lia.
Qed.

(** The circular buffer holds the last 16 words of the schedule. *)
Definition window (W : list Z) (n : nat) : Prop :=
  length W = 16%nat ∧ ∀ i, (i < n ≤ i + 16)%nat → W !!! low4 i = full !!! i.

Lemma mod16_back t k : (k ≤ t)%nat → (0 < k < 16)%nat → ((t - k) mod 16 ≠ t mod 16)%nat.
Proof.
  intros Hk H E. pose proof (Nat.div_mod_eq t 16). pose proof (Nat.div_mod_eq (t - k) 16). lia.
Qed.

Lemma window_R W t : (16 ≤ t < 80)%nat → window W t → window (R t W) (Datatypes.S t).
Proof.
  intros Ht [Hl HW]. destruct sha1_schedule_spec as [_ Hhi].
  assert (Hlow : ∀ j, (low4 j < 16)%nat) by (intros; rewrite low4_mod; by apply Nat.mod_upper_bound).
  unfold R. split; [by rewrite length_insert|]. intros i Hi.
  destruct (decide (i = t)) as [->|].
  - rewrite list_lookup_total_insert_eq by (rewrite Hl; apply Hlow).
    rewrite Hhi, S_rotl by lia. unfold next_word.
    rewrite !HW by lia. do 2 f_equal.
    replace (low4 t) with (low4 (t - 16)); [apply HW; lia|].
    rewrite !low4_mod. replace t with (t - 16 + 1 * 16)%nat at 2 by lia.
    by rewrite Nat.Div0.mod_add.
  - rewrite list_lookup_total_insert_ne; [apply HW; lia|].
    rewrite !low4_mod. intros E. replace i with (t - (t - i))%nat in E by lia.
    by apply (mod16_back t (t - i)); [lia..|].
Qed.

Lemma sha1_code_loop s n : (n ≤ 80)%nat →
  let r := foldl code_round (ws, s) (seq 0 n) in
  window r.1 (16 `max` n) ∧ r.2 = foldl (fips_step full) s (seq 0 n).
Proof.
  destruct sha1_schedule_spec as [Hlo _]. induction n as [|n IH]; intros Hn.
  - split; [|done]. split; [done|]. intros i Hi. cbn [foldl seq fst].
    rewrite low4_mod, Nat.mod_small by lia. symmetry. apply Hlo. lia.
  - destruct IH as [HW Hs]; [lia|]. rewrite seq_S, !foldl_app. cbn [foldl Nat.add].
    destruct (foldl code_round _ _) as [W s'] eqn:E. cbn [fst snd] in HW, Hs. subst s'.
    unfold code_round. cbv zeta. cbn [fst snd].
    destruct (n <? 16)%nat eqn:En; cmp_inv En.
    + rewrite !Nat.max_l in * by lia. split; [done|].
      apply sha1_code_step_fips. apply HW. lia.
    + rewrite Nat.max_r in * by lia.
      assert (HR : window (R n W) (Datatypes.S n)) by (apply window_R; [lia|done]).
      split; [done|]. apply sha1_code_step_fips. apply HR. lia.
Qed.

End Schedule.

(** The unrolled compression function is the one of the standard. *)
Lemma sha1_process_fips st block : length block = 64%nat → bytes block →
  sha1_process st block = fips_compress st block.
Proof.
  intros Hb Hy. unfold sha1_process, fips_compress, load_block.
  rewrite GET_words by (done || lia).
  set (ws := words be_word 16 block).
  match goal with |- context [rounds_0_19 _ ?s] => set (s0 := s) end.
  destruct (sha1_code_loop ws (length_words _ _ _) s0 80) as [_ Hr]; [done|].
  replace (seq 0 80) with (seq 0 20 ++ seq 20 20 ++ seq 40 20 ++ seq 60 20) in Hr at 1 by done.
  rewrite !foldl_app, <- rounds_0_19_ok in Hr.
  destruct (rounds_0_19 _ _) as [W1 s1]. rewrite <- rounds_20_39_ok in Hr.
  destruct (rounds_20_39 _ _) as [W2 s2]. rewrite <- rounds_40_59_ok in Hr.
  destruct (rounds_40_59 _ _) as [W3 s3]. rewrite <- rounds_60_79_ok in Hr.
  destruct (rounds_60_79 _ _) as [W4 s4]. cbn [snd] in Hr. rewrite <- Hr.
  destruct s4 as [[[[a b] c] d] e]. reflexivity.
Qed.

(** ** The digest *)

Lemma sha1_computes buf : length buf = 64%nat → computes (sha1 buf) SHA1.
Proof.
  intros Hb parts Hp Hf.
  transitivity (@digest sha1_hash sha1_iv be64 be_bytes (concat parts)).
  - exact (@sha_computes sha1_hash sha1_iv buf Hb parts Hp Hf).
  - apply digest_ext; [apply sha1_process_fips|apply be64_bytes|by apply Forall_concat].
Qed.

(** The one-call functions. *)
Lemma sha1_csum_ok buf input :
  length buf = 64%nat → bytes input → fits32 input → sha1_csum buf input = SHA1 input.
Proof.
  intros. pose proof (sha1_computes buf) as C. rewrite <- (app_nil_r input) at 2.
  apply (C H [input]); by repeat constructor.
Qed.

Lemma sha1_csum_wd_ok buf watchdog chunk_sz input :
  length buf = 64%nat → bytes input → fits32 input → (watchdog = true → (0 < chunk_sz)%nat) →
  sha1_csum_wd buf watchdog chunk_sz input = Some (SHA1 input).
Proof. intros. apply csum_wd_ok; [by apply sha1_computes|done..]. Qed.

(** For every way of cutting a message into parts, [sha1_starts], a
    [sha1_update] per part and [sha1_finish] return the SHA-1 digest of the
    message as FIPS 180-2 defines it; the circular buffer of 16 words holds the
    right words of the 80-word schedule in every unrolled round. *)
Theorem sha1_correct buf parts :
  length buf = 64%nat → Forall bytes parts → Forall fits32 parts →
  sha1_finish (foldl sha1_update (sha1_starts buf) parts) = SHA1 (concat parts).
Proof. intros Hb. by apply (sha1_computes buf). Qed.

(** The first test vector of [sha1_self_test]. *)
Lemma sha1_correct_witness :
  sha1_finish (foldl sha1_update (sha1_starts (replicate 64 7)) [[97]; [98; 99]]) =
    SHA1 [97; 98; 99] ∧
  SHA1 [97; 98; 99] =
    [0xA9; 0x99; 0x3E; 0x36; 0x47; 0x06; 0x81; 0x6A; 0xBA; 0x3E;
     0x25; 0x71; 0x78; 0x50; 0xC2; 0x6C; 0x9C; 0xD0; 0xD8; 0x9D].
Proof.
  split; [|vm_compute; reflexivity].
  apply (sha1_correct (replicate 64 7) [[97]; [98; 99]]).
  - reflexivity.
  - repeat constructor; easy.
  - repeat constructor.
Defined.

(** ** HMAC *)

Lemma xor_key_spec (p key : list Z) n : (n ≤ length p)%nat →
  let r := foldl (λ (p : list Z) i, <[i := Z.lxor (p !!! i) (key !!! i)]> p) p (seq 0 n) in
  length r = length p ∧
  ∀ i, r !!! i = if (i <? n)%nat then Z.lxor (p !!! i) (key !!! i) else p !!! i.
Proof.
  induction n as [|n IH]; intros Hn; [done|].
  destruct IH as [Hl Hi]; [lia|]. rewrite seq_S, foldl_app. cbn [foldl Nat.add].
  split; [by rewrite length_insert|]. intros i.
  destruct (decide (i = n)) as [->|Hne].
  - rewrite list_lookup_total_insert_eq, Hi, Nat.ltb_irrefl by lia.
    by rewrite (proj2 (Nat.ltb_lt _ _)) by lia.
  - rewrite list_lookup_total_insert_ne, Hi by done.
    destruct (i <? n)%nat eqn:E; cmp_inv E.
    + by rewrite (proj2 (Nat.ltb_lt _ _)) by lia.
    + by rewrite (proj2 (Nat.ltb_ge _ _)) by lia.
Qed.

Lemma xor_key_pad c key :
  xor_key (replicate 64 c) key =
  Z.lxor c <$> (take 64 key ++ replicate (64 - length (take 64 key)) 0).
Proof.
  destruct (xor_key_spec (replicate 64 c) key (length key `min` 64)) as [Hl Hi].
  { rewrite length_replicate. lia. }
  apply list_eq_same_length with (n := 64%nat).
  - rewrite length_fmap, length_app, length_replicate, length_take. lia.
  - etransitivity; [exact Hl|]. by rewrite length_replicate.
  - intros i x y Hi64 Hx Hy. unfold xor_key in Hx.
    apply list_lookup_total_correct in Hx. rewrite Hi, lookup_total_replicate_2 in Hx by done.
    rewrite list_lookup_fmap in Hy. subst x.
    destruct (i <? _)%nat eqn:E; cmp_inv E.
    + rewrite lookup_app_l in Hy by len.
      rewrite lookup_take_lt in Hy by lia.
      destruct (key !! i) eqn:Ek; [|done]. apply list_lookup_total_correct in Ek as ->.
      simpl in Hy. by inversion Hy.
    + rewrite lookup_app_r in Hy by len.
      rewrite lookup_replicate_2 in Hy by len.
      simpl in Hy. rewrite Z.lxor_0_r in Hy. by inversion Hy.
Qed.

Lemma lxor_bytes c l : isbyte c → bytes l → bytes (Z.lxor c <$> l).
Proof.
  intros Hc Hl. apply Forall_fmap. eapply Forall_impl; [|exact Hl].
  intros x Hx. unfold compose, isbyte in *.
  assert (Hn : 0 ≤ Z.lxor c x) by (apply Z.lxor_nonneg; lia).
  split; [done|]. destruct (decide (Z.lxor c x = 0)) as [->|]; [lia|].
  change 256 with (2 ^ 8). apply Z.log2_lt_pow2; [lia|].
  pose proof (Z.log2_lxor c x). assert (Z.log2 c < 8 ∧ Z.log2 x < 8); [|lia].
  split; (destruct (decide (0 < c)), (decide (0 < x))); try (apply Z.log2_lt_pow2; lia);
    rewrite ?(Z.log2_nonpos c), ?(Z.log2_nonpos x) by lia; try lia; apply Z.log2_lt_pow2; lia.
Qed.

Lemma SHA1_bytes m : bytes (SHA1 m).
Proof.
  unfold SHA1, digest. apply Forall_concat, Forall_fmap, Forall_true. intros. apply be_bytes_ok.
Qed.

Lemma fips_length n m : ∀ st, length st = 5%nat → length (@absorb fips_sha1 n st m) = 5%nat.
Proof.
  revert m. induction n as [|n IH]; intros m st Hst; [done|]. cbn [absorb]. apply IH.
  unfold process, fips_sha1, fips_compress.
  by destruct (foldl _ _ (seq 0 80)) as [[[[a b] c] d] e].
Qed.

Lemma SHA1_fits m : fits32 (SHA1 m).
Proof.
  unfold fits32, SHA1, digest. cbv zeta.
  match goal with |- context [absorb ?n ?iv ?p] =>
    pose proof (fips_length n p iv eq_refl) as H; destruct (absorb n iv p) as [|? l] end; [done|].
  do 4 (destruct l as [|? l]; [done|]). by destruct l.
Qed.

(** C36: [sha1_hmac] is the HMAC of RFC 2104 for keys of at most 64 bytes; of a
    longer key it uses the first 64 bytes. *)
Theorem sha1_hmac_correct buf buf' key input :
  length buf = 64%nat → length buf' = 64%nat → bytes key → bytes input → fits32 input →
  sha1_hmac buf buf' key input = HMAC_SHA1 (take 64 key) input.
Proof.
  intros Hb Hb' Hk Hi Hf.
  assert (Hpad : ∀ c, isbyte c → bytes (xor_key (replicate 64 c) key) ∧
    fits32 (xor_key (replicate 64 c) key)).
  { intros c Hc. rewrite xor_key_pad. split.
    - apply lxor_bytes; [done|]. apply Forall_app_2; [by apply Forall_take|].
      by apply Forall_replicate.
    - unfold fits32. rewrite length_fmap, length_app, length_replicate, length_take. lia. }
  destruct (Hpad 0x36) as [? ?]; [easy|]. destruct (Hpad 0x5C) as [? ?]; [easy|].
  pose proof (sha1_computes buf Hb [xor_key (replicate 64 0x36) key; input]) as E1.
  pose proof (λ t, sha1_computes buf' Hb' [xor_key (replicate 64 0x5C) key; t]) as E2.
  unfold d_parts in E1, E2. cbn [foldl d_start d_update d_finish sha1] in E1, E2.
  unfold sha1_hmac. cbv zeta. rewrite E1 by (repeat constructor; done).
  rewrite E2.
  - cbn [concat]. rewrite !app_nil_r, !xor_key_pad. unfold HMAC_SHA1.
    rewrite (proj2 (Nat.ltb_ge _ _)) by len. done.
  - repeat constructor; [done|]. apply SHA1_bytes.
  - repeat constructor; [done|]. apply SHA1_fits.
Qed.

(** RFC 2202, test case 1. *)
Lemma sha1_hmac_correct_witness :
  sha1_hmac (replicate 64 1) (replicate 64 2) (replicate 20 0x0B)
    [0x48; 0x69; 0x20; 0x54; 0x68; 0x65; 0x72; 0x65] =
  HMAC_SHA1 (take 64 (replicate 20 0x0B)) [0x48; 0x69; 0x20; 0x54; 0x68; 0x65; 0x72; 0x65] ∧
  HMAC_SHA1 (replicate 20 0x0B) [0x48; 0x69; 0x20; 0x54; 0x68; 0x65; 0x72; 0x65] =
  concat (be_bytes <$> [0xB6173186; 0x55057264; 0xE28BC0B6; 0xFB378C8E; 0xF146BE00]).
Proof.
  split; [|vm_compute; reflexivity].
  apply (sha1_hmac_correct (replicate 64 1) (replicate 64 2) (replicate 20 0x0B)).
  - reflexivity.
  - reflexivity.
  - repeat constructor; easy.
  - repeat constructor; easy.
  - reflexivity.
Defined.

(** A key of 65 bytes: the code does not hash it. *)
Lemma sha1_hmac_long_key :
  bool_decide (sha1_hmac (replicate 64 0) (replicate 64 0) (replicate 65 1) [] =
               HMAC_SHA1 (replicate 65 1) []) = false.
Proof. vm_compute. reflexivity. Qed.
