(* ===== verification/Md5.v ===== *)
(** * MD5

    Translation of [lib/md5.c]: the unrolled transformation, the functions that
    feed it, and the byte swapping that makes the code independent of the byte
    order of the machine. The order is a parameter of the model; the theorem
    holds for both. The reference is the description of RFC 1321. *)

From stdpp Require Import base option list numbers.
From Stdlib Require Import ZArith Lia.
From S2P Require Import Prelude Word32 BlockHash.
Local Open Scope Z_scope.

(** The working variables a to d. *)
Definition regs : Type := Z * Z * Z * Z.

(** ** The macros *)

Definition F1 (x y z : Z) : Z := Z.lxor z (Z.land x (Z.lxor y z)).
Definition F2 (x y z : Z) : Z := F1 z x y.
Definition F3 (x y z : Z) : Z := Z.lxor (Z.lxor x y) z.
Definition F4 (x y z : Z) : Z := Z.lxor y (Z.lor x (u32 (Z.lnot z))).

(** The new value of [w]. *)
Definition MD5STEP (f : Z → Z → Z → Z) (w x y z data s : Z) : Z :=
  let w := u32 (w + (f x y z + data)) in
  let w := Z.lor (u32 (Z.shiftl w s)) (Z.shiftr w (32 - s)) in
  u32 (w + x).

(** ** The transformation *)

Definition round1 (input : list Z) '(a, b, c, d) : regs :=
  let a := MD5STEP F1 a b c d (u32 (input !!! 0%nat + 0xd76aa478)) 7 in
  let d := MD5STEP F1 d a b c (u32 (input !!! 1%nat + 0xe8c7b756)) 12 in
  let c := MD5STEP F1 c d a b (u32 (input !!! 2%nat + 0x242070db)) 17 in
  let b := MD5STEP F1 b c d a (u32 (input !!! 3%nat + 0xc1bdceee)) 22 in
  let a := MD5STEP F1 a b c d (u32 (input !!! 4%nat + 0xf57c0faf)) 7 in
  let d := MD5STEP F1 d a b c (u32 (input !!! 5%nat + 0x4787c62a)) 12 in
  let c := MD5STEP F1 c d a b (u32 (input !!! 6%nat + 0xa8304613)) 17 in
  let b := MD5STEP F1 b c d a (u32 (input !!! 7%nat + 0xfd469501)) 22 in
  let a := MD5STEP F1 a b c d (u32 (input !!! 8%nat + 0x698098d8)) 7 in
  let d := MD5STEP F1 d a b c (u32 (input !!! 9%nat + 0x8b44f7af)) 12 in
  let c := MD5STEP F1 c d a b (u32 (input !!! 10%nat + 0xffff5bb1)) 17 in
  let b := MD5STEP F1 b c d a (u32 (input !!! 11%nat + 0x895cd7be)) 22 in
  let a := MD5STEP F1 a b c d (u32 (input !!! 12%nat + 0x6b901122)) 7 in
  let d := MD5STEP F1 d a b c (u32 (input !!! 13%nat + 0xfd987193)) 12 in
  let c := MD5STEP F1 c d a b (u32 (input !!! 14%nat + 0xa679438e)) 17 in
  let b := MD5STEP F1 b c d a (u32 (input !!! 15%nat + 0x49b40821)) 22 in
  (a, b, c, d).

Definition round2 (input : list Z) '(a, b, c, d) : regs :=
  let a := MD5STEP F2 a b c d (u32 (input !!! 1%nat + 0xf61e2562)) 5 in
  let d := MD5STEP F2 d a b c (u32 (input !!! 6%nat + 0xc040b340)) 9 in
  let c := MD5STEP F2 c d a b (u32 (input !!! 11%nat + 0x265e5a51)) 14 in
  let b := MD5STEP F2 b c d a (u32 (input !!! 0%nat + 0xe9b6c7aa)) 20 in
  let a := MD5STEP F2 a b c d (u32 (input !!! 5%nat + 0xd62f105d)) 5 in
  let d := MD5STEP F2 d a b c (u32 (input !!! 10%nat + 0x02441453)) 9 in
  let c := MD5STEP F2 c d a b (u32 (input !!! 15%nat + 0xd8a1e681)) 14 in
  let b := MD5STEP F2 b c d a (u32 (input !!! 4%nat + 0xe7d3fbc8)) 20 in
  let a := MD5STEP F2 a b c d (u32 (input !!! 9%nat + 0x21e1cde6)) 5 in
  let d := MD5STEP F2 d a b c (u32 (input !!! 14%nat + 0xc33707d6)) 9 in
  let c := MD5STEP F2 c d a b (u32 (input !!! 3%nat + 0xf4d50d87)) 14 in
  let b := MD5STEP F2 b c d a (u32 (input !!! 8%nat + 0x455a14ed)) 20 in
  let a := MD5STEP F2 a b c d (u32 (input !!! 13%nat + 0xa9e3e905)) 5 in
  let d := MD5STEP F2 d a b c (u32 (input !!! 2%nat + 0xfcefa3f8)) 9 in
  let c := MD5STEP F2 c d a b (u32 (input !!! 7%nat + 0x676f02d9)) 14 in
  let b := MD5STEP F2 b c d a (u32 (input !!! 12%nat + 0x8d2a4c8a)) 20 in
  (a, b, c, d).

Definition round3 (input : list Z) '(a, b, c, d) : regs :=
  let a := MD5STEP F3 a b c d (u32 (input !!! 5%nat + 0xfffa3942)) 4 in
  let d := MD5STEP F3 d a b c (u32 (input !!! 8%nat + 0x8771f681)) 11 in
  let c := MD5STEP F3 c d a b (u32 (input !!! 11%nat + 0x6d9d6122)) 16 in
  let b := MD5STEP F3 b c d a (u32 (input !!! 14%nat + 0xfde5380c)) 23 in
  let a := MD5STEP F3 a b c d (u32 (input !!! 1%nat + 0xa4beea44)) 4 in
  let d := MD5STEP F3 d a b c (u32 (input !!! 4%nat + 0x4bdecfa9)) 11 in
  let c := MD5STEP F3 c d a b (u32 (input !!! 7%nat + 0xf6bb4b60)) 16 in
  let b := MD5STEP F3 b c d a (u32 (input !!! 10%nat + 0xbebfbc70)) 23 in
  let a := MD5STEP F3 a b c d (u32 (input !!! 13%nat + 0x289b7ec6)) 4 in
  let d := MD5STEP F3 d a b c (u32 (input !!! 0%nat + 0xeaa127fa)) 11 in
  let c := MD5STEP F3 c d a b (u32 (input !!! 3%nat + 0xd4ef3085)) 16 in
  let b := MD5STEP F3 b c d a (u32 (input !!! 6%nat + 0x04881d05)) 23 in
  let a := MD5STEP F3 a b c d (u32 (input !!! 9%nat + 0xd9d4d039)) 4 in
  let d := MD5STEP F3 d a b c (u32 (input !!! 12%nat + 0xe6db99e5)) 11 in
  let c := MD5STEP F3 c d a b (u32 (input !!! 15%nat + 0x1fa27cf8)) 16 in
  let b := MD5STEP F3 b c d a (u32 (input !!! 2%nat + 0xc4ac5665)) 23 in
  (a, b, c, d).

Definition round4 (input : list Z) '(a, b, c, d) : regs :=
  let a := MD5STEP F4 a b c d (u32 (input !!! 0%nat + 0xf4292244)) 6 in
  let d := MD5STEP F4 d a b c (u32 (input !!! 7%nat + 0x432aff97)) 10 in
  let c := MD5STEP F4 c d a b (u32 (input !!! 14%nat + 0xab9423a7)) 15 in
  let b := MD5STEP F4 b c d a (u32 (input !!! 5%nat + 0xfc93a039)) 21 in
  let a := MD5STEP F4 a b c d (u32 (input !!! 12%nat + 0x655b59c3)) 6 in
  let d := MD5STEP F4 d a b c (u32 (input !!! 3%nat + 0x8f0ccc92)) 10 in
  let c := MD5STEP F4 c d a b (u32 (input !!! 10%nat + 0xffeff47d)) 15 in
  let b := MD5STEP F4 b c d a (u32 (input !!! 1%nat + 0x85845dd1)) 21 in
  let a := MD5STEP F4 a b c d (u32 (input !!! 8%nat + 0x6fa87e4f)) 6 in
  let d := MD5STEP F4 d a b c (u32 (input !!! 15%nat + 0xfe2ce6e0)) 10 in
  let c := MD5STEP F4 c d a b (u32 (input !!! 6%nat + 0xa3014314)) 15 in
  let b := MD5STEP F4 b c d a (u32 (input !!! 13%nat + 0x4e0811a1)) 21 in
  let a := MD5STEP F4 a b c d (u32 (input !!! 4%nat + 0xf7537e82)) 6 in
  let d := MD5STEP F4 d a b c (u32 (input !!! 11%nat + 0xbd3af235)) 10 in
  let c := MD5STEP F4 c d a b (u32 (input !!! 2%nat + 0x2ad7d2bb)) 15 in
  let b := MD5STEP F4 b c d a (u32 (input !!! 9%nat + 0xeb86d391)) 21 in
  (a, b, c, d).

Definition MD5Transform (buf input : list Z) : list Z :=
  let s := (buf !!! 0%nat, buf !!! 1%nat, buf !!! 2%nat, buf !!! 3%nat) in
  let '(a, b, c, d) := round4 input (round3 input (round2 input (round1 input s))) in
  [u32 (buf !!! 0%nat + a); u32 (buf !!! 1%nat + b);
   u32 (buf !!! 2%nat + c); u32 (buf !!! 3%nat + d)].

(** ** Contexts *)

(** [struct MD5Context]; [in_] is the union as bytes. *)
Record MD5Context := mkMd5 {
  buf : list Z;
  bits0 : Z;
  bits1 : Z;
  in_ : list Z;
}.

Section Machine.

(** Whether the machine stores the highest byte of a word first. *)
Context (big : bool).

(** A word in memory, written and read. *)
Definition native_store (w : Z) : list Z := if big then be_bytes w else reverse (be_bytes w).
Definition native_load (b : list Z) : Z := if big then be_word b else le_word b.

Fixpoint byteReverse (longs : nat) (b : list Z) : list Z :=
  match longs with
  | O => b
  | S longs =>
      let t := Z.lor (u32 (Z.shiftl (Z.lor (u32 (Z.shiftl (b !!! 3%nat) 8)) (b !!! 2%nat)) 16))
                 (Z.lor (u32 (Z.shiftl (b !!! 1%nat) 8)) (b !!! 0%nat)) in
      native_store t ++ byteReverse longs (drop 4 b)
  end.

(** The bytes of [ctx->in] as the words that [MD5Transform] reads. *)
Definition transform_block (st blk : list Z) : list Z :=
  MD5Transform st (words native_load 16 blk).

(** [MD5Init]. *)
Definition MD5_iv : list Z := [0x67452301; 0xefcdab89; 0x98badcfe; 0x10325476].
Definition MD5Init (i : list Z) : MD5Context := mkMd5 MD5_iv 0 0 i.

(** The loop [while (len >= 64)]. *)
Fixpoint md5_blocks (k : nat) (st i input : list Z) : list Z * list Z * list Z :=
  match k with
  | O => (st, i, input)
  | S k =>
      if (64 <=? length input)%nat then
        let i := splice 0 (take 64 input) i in
        let i := byteReverse 16 i in
        md5_blocks k (transform_block st i) i (drop 64 input)
      else (st, i, input)
  end.

Definition MD5Update (ctx : MD5Context) (input : list Z) : MD5Context :=
  let len := Z.of_nat (length input) in
  let t := bits0 ctx in
  let b0 := u32 (t + u32 (Z.shiftl len 3)) in
  let b1 := if b0 <? t then u32 (bits1 ctx + 1) else bits1 ctx in
  let b1 := u32 (b1 + Z.shiftr len 29) in
  let t := Z.to_nat (Z.land (Z.shiftr t 3) 63) in
  let blocks st i input :=
    let '(st, i, input) := md5_blocks (length input / 64) st i input in
    mkMd5 st b0 b1 (splice 0 input i) in
  if negb (t =? 0)%nat then
    if (length input <? 64 - t)%nat then mkMd5 (buf ctx) b0 b1 (splice t input (in_ ctx))
    else
      let i := splice t (take (64 - t) input) (in_ ctx) in
      let i := byteReverse 16 i in
      blocks (transform_block (buf ctx) i) i (drop (64 - t) input)
  else blocks (buf ctx) (in_ ctx) input.

(** [MD5Final]; the clearing of the context at its end is left out. *)
Definition MD5Final (ctx : MD5Context) : list Z :=
  let count := Z.to_nat (Z.land (Z.shiftr (bits0 ctx) 3) 63) in
  let i := splice count [0x80] (in_ ctx) in
  let p := (count + 1)%nat in
  let count := (64 - 1 - count)%nat in
  let '(st, i) :=
    if (count <? 8)%nat then
      let i := splice p (replicate count 0) i in
      let i := byteReverse 16 i in
      (transform_block (buf ctx) i, splice 0 (replicate 56 0) i)
    else (buf ctx, splice p (replicate (count - 8) 0) i) in
  let i := byteReverse 14 (take 56 i) ++ drop 56 i in
  let i := splice 56 (native_store (bits0 ctx)) i in
  let i := splice 60 (native_store (bits1 ctx)) i in
  let st := transform_block st i in
  byteReverse 4 (concat (native_store <$> st)).

Definition md5_impl (i : list Z) : digest_impl := {|
  d_start := MD5Init i; d_update := MD5Update; d_finish := MD5Final |}.

(** [md5] and [md5_wd]. *)
Definition md5 (i input : list Z) : list Z := MD5Final (MD5Update (MD5Init i) input).

Definition md5_wd (i : list Z) (watchdog : bool) (chunk_sz : nat) (input : list Z)
  : option (list Z) := csum_wd (md5_impl i) watchdog chunk_sz input.

End Machine.

(** ** Reference *)

Definition rfc_f (i : nat) (x y z : Z) : Z :=
  match (i / 16)%nat with
  | 0%nat => Z.lor (Z.land x y) (Z.land (Z.lnot x) z)
  | 1%nat => Z.lor (Z.land x z) (Z.land y (Z.lnot z))
  | 2%nat => Z.lxor (Z.lxor x y) z
  | _ => Z.lxor y (Z.lor x (Z.lnot z))
  end.

(** The word of the block that step [i] uses, and the shift. *)
Definition rfc_k (i : nat) : nat :=
  match (i / 16)%nat with
  | 0%nat => i mod 16 | 1%nat => (5 * i + 1) mod 16 | 2%nat => (3 * i + 5) mod 16
  | _ => (7 * i) mod 16
  end.
Definition rfc_s (i : nat) : Z :=
  match (i / 16)%nat with
  | 0%nat => [7; 12; 17; 22] | 1%nat => [5; 9; 14; 20] | 2%nat => [4; 11; 16; 23]
  | _ => [6; 10; 15; 21]
  end !!! (i mod 4)%nat.

Definition rfc_T : list Z :=
  [0xd76aa478; 0xe8c7b756; 0x242070db; 0xc1bdceee; 0xf57c0faf; 0x4787c62a; 0xa8304613; 0xfd469501;
   0x698098d8; 0x8b44f7af; 0xffff5bb1; 0x895cd7be; 0x6b901122; 0xfd987193; 0xa679438e; 0x49b40821;
   0xf61e2562; 0xc040b340; 0x265e5a51; 0xe9b6c7aa; 0xd62f105d; 0x02441453; 0xd8a1e681; 0xe7d3fbc8;
   0x21e1cde6; 0xc33707d6; 0xf4d50d87; 0x455a14ed; 0xa9e3e905; 0xfcefa3f8; 0x676f02d9; 0x8d2a4c8a;
   0xfffa3942; 0x8771f681; 0x6d9d6122; 0xfde5380c; 0xa4beea44; 0x4bdecfa9; 0xf6bb4b60; 0xbebfbc70;
   0x289b7ec6; 0xeaa127fa; 0xd4ef3085; 0x04881d05; 0xd9d4d039; 0xe6db99e5; 0x1fa27cf8; 0xc4ac5665;
   0xf4292244; 0x432aff97; 0xab9423a7; 0xfc93a039; 0x655b59c3; 0x8f0ccc92; 0xffeff47d; 0x85845dd1;
   0x6fa87e4f; 0xfe2ce6e0; 0xa3014314; 0x4e0811a1; 0xf7537e82; 0xbd3af235; 0x2ad7d2bb; 0xeb86d391].

Definition rfc_step (X : list Z) (s : regs) (i : nat) : regs :=
  let '(a, b, c, d) := s in
  (d, (b + rotl (rfc_s i) (a + rfc_f i b c d + X !!! rfc_k i + rfc_T !!! i)) mod 2 ^ 32, b, c).

Definition rfc_compress (st block : list Z) : list Z :=
  let s := (st !!! 0%nat, st !!! 1%nat, st !!! 2%nat, st !!! 3%nat) in
  let '(a, b, c, d) := foldl (rfc_step (words le_word 16 block)) s (seq 0 64) in
  zip_with (λ x y, (x + y) mod 2 ^ 32) ((λ i, st !!! i) <$> seq 0 4) [a; b; c; d].

#[local] Instance rfc_md5 : BlockHash := {| process := rfc_compress |}.

Definition le_bytes (n : Z) : list Z := reverse (be_bytes n).
Definition le64 (n : Z) : list Z := le_bytes n ++ le_bytes (n / 2 ^ 32).

(** MD5 of a message. *)
Definition MD5 (m : list Z) : list Z := digest MD5_iv le64 le_bytes m.

(** ** The steps *)

Definition F_at (i : nat) : Z → Z → Z → Z :=
  match (i / 16)%nat with 0%nat => F1 | 1%nat => F2 | 2%nat => F3 | _ => F4 end.

Definition code_step (X : list Z) (s : regs) (i : nat) : regs :=
  let '(a, b, c, d) := s in
  (d, MD5STEP (F_at i) a b c d (u32 (X !!! rfc_k i + rfc_T !!! i)) (rfc_s i), b, c).

Lemma code_steps_cons X a b c d i l :
  foldl (code_step X) (a, b, c, d) (i :: l) =
  let w := MD5STEP (F_at i) a b c d (u32 (X !!! rfc_k i + rfc_T !!! i)) (rfc_s i) in
  foldl (code_step X) (d, w, b, c) l.
Proof. done. Qed.

(** One unrolled step against one iteration. *)
Ltac unrolled_step :=
  rewrite code_steps_cons;
  lazymatch goal with
  | |- (let w := ?e in @?f w) = (let w' := MD5STEP (F_at ?i) ?a ?b ?c ?d (u32 (?X !!! _ + _)) _ in @?g w') =>
      let k := eval vm_compute in (rfc_k i) in
      let t := eval vm_compute in (rfc_T !!! i) in
      let s := eval vm_compute in (rfc_s i) in
      let F := eval cbv [F_at Nat.div Nat.divmod fst] in (F_at i) in
      let e' := constr:(MD5STEP F a b c d (u32 (X !!! k + t)) s) in
      change (f e' = g e'); generalize e'; intros ?; cbv beta
  end.

Lemma round1_ok X s : round1 X s = foldl (code_step X) s (seq 0 16).
Proof.
  destruct s as [[[a b] c] d]. cbv beta iota delta [round1 seq].
  do 16 unrolled_step. reflexivity.
Qed.

Lemma round2_ok X s : round2 X s = foldl (code_step X) s (seq 16 16).
Proof.
  destruct s as [[[a b] c] d]. cbv beta iota delta [round2 seq].
  do 16 unrolled_step. reflexivity.
Qed.

Lemma round3_ok X s : round3 X s = foldl (code_step X) s (seq 32 16).
Proof.
  destruct s as [[[a b] c] d]. cbv beta iota delta [round3 seq].
  do 16 unrolled_step. reflexivity.
Qed.

Lemma round4_ok X s : round4 X s = foldl (code_step X) s (seq 48 16).
Proof.
  destruct s as [[[a b] c] d]. cbv beta iota delta [round4 seq].
  do 16 unrolled_step. reflexivity.
Qed.


(** ** The steps are those of the RFC *)

Lemma rotl_u32 n x : 0 ≤ n ≤ 32 → rotl n (u32 x) = rotl n x.
Proof.
  intros Hn. rewrite <- !rotl_lor, u32_idem by done. f_equal.
  rewrite !u32_shiftl by done. f_equal. unfold u32.
  symmetry. apply Znumtheory.Zmod_div_mod; [apply Z.pow_pos_nonneg; lia|lia|].
  exists (2 ^ n). rewrite <- Z.pow_add_r by lia. f_equal. lia.
Qed.

Lemma u32_bits x i : 0 ≤ i → Z.testbit (u32 x) i = if i <? 32 then Z.testbit x i else false.
Proof.
  intros Hi. unfold u32. case_match eqn:E; [apply Z.ltb_lt in E|apply Z.ltb_ge in E].
  - by apply Z.mod_pow2_bits_low.
  - apply Z.mod_pow2_bits_high. lia.
Qed.

Lemma F_at_rfc i x y z : u32 (F_at i x y z) = u32 (rfc_f i x y z).
Proof.
  unfold F_at, rfc_f, F1, F2, F3, F4. repeat case_match; try done; unfold F1;
    apply Z.bits_inj'; intros j Hj; rewrite !u32_bits by done; case_match eqn:E; try done;
    rewrite ?Z.lxor_spec, ?Z.lor_spec, ?Z.land_spec, ?Z.lxor_spec, ?Z.lor_spec, ?u32_bits, ?E,
      ?Z.lnot_spec by done;
    by destruct (Z.testbit x j), (Z.testbit y j), (Z.testbit z j).
Qed.

Lemma rfc_s_range i : 0 ≤ rfc_s i ≤ 32.
Proof.
  unfold rfc_s. pose proof (Nat.mod_upper_bound i 4).
  destruct (i mod 4)%nat as [|[|[|[|?]]]]; repeat case_match; simpl; lia.
Qed.

Lemma code_step_rfc X s i : code_step X s i = rfc_step X s i.
Proof.
  destruct s as [[[a b] c] d]. unfold code_step, rfc_step, MD5STEP.
  pose proof (rfc_s_range i). set (w := u32 (a + _)).
  assert (Hw : w = u32 (a + rfc_f i b c d + X !!! rfc_k i + rfc_T !!! i)).
  { unfold w. rewrite (Z.add_comm (F_at i b c d)), Z.add_assoc.
    rewrite <- (u32_add_r _ (F_at i b c d)), F_at_rfc, u32_add_r.
    rewrite <- (u32_add_l (a + u32 _)), <- u32_add_r, u32_add_r, u32_add_l.
    rewrite (Z.add_comm a), <- !Z.add_assoc, u32_add_l. f_equal. lia. }
  replace (Z.shiftr w) with (Z.shiftr (u32 w)) by (unfold w; by rewrite u32_idem).
  rewrite rotl_lor by done. rewrite Hw, rotl_u32, (Z.add_comm (rotl _ _) b) by done. done.
Qed.

Lemma MD5Transform_rfc st blk : MD5Transform st (words le_word 16 blk) = rfc_compress st blk.
Proof.
  unfold MD5Transform, rfc_compress.
  replace (seq 0 64) with (seq 0 16 ++ seq 16 16 ++ seq 32 16 ++ seq 48 16) by done.
  rewrite !foldl_app, round1_ok, round2_ok, round3_ok, round4_ok.
  assert (E : ∀ l s, foldl (code_step (words le_word 16 blk)) s l =
                     foldl (rfc_step (words le_word 16 blk)) s l).
  { induction l as [|x l IH]; intros s; [done|]. cbn [foldl]. by rewrite code_step_rfc, IH. }
  rewrite !E. by destruct (foldl _ _ (seq 48 16)) as [[[a b] c] d].
Qed.

(** ** Byte order *)

Section Order.
Context (big : bool).

Lemma native_load_store w : 0 ≤ w < 2 ^ 32 → native_load big (native_store big w) = w.
Proof.
  intros Hw. unfold native_load, native_store, le_word. destruct big.
  - by apply be_word_bytes.
  - change (take 4 (reverse (be_bytes w))) with (reverse (be_bytes w)).
    rewrite reverse_involutive. by apply be_word_bytes.
Qed.

Lemma length_native_store w : length (native_store big w) = 4%nat.
Proof. unfold native_store. by destruct big. Qed.

(** The word that [byteReverse] reads. *)
Lemma byteReverse_word b : bytes b → (4 ≤ length b)%nat →
  Z.lor (u32 (Z.shiftl (Z.lor (u32 (Z.shiftl (b !!! 3%nat) 8)) (b !!! 2%nat)) 16))
    (Z.lor (u32 (Z.shiftl (b !!! 1%nat) 8)) (b !!! 0%nat)) = le_word b.
Proof.
  intros Hb Hl. unfold le_word, be_word. rewrite (take4_lookup b) by done.
  cbn [reverse rev_append app take foldl].
  pose proof (bytes_lookup_total b 0 Hb). pose proof (bytes_lookup_total b 1 Hb).
  pose proof (bytes_lookup_total b 2 Hb). pose proof (bytes_lookup_total b 3 Hb).
  rewrite (byte_shiftl (b !!! 3%nat)), (byte_shiftl (b !!! 1%nat)) by (done || lia).
  rewrite !lor_add_small by (unfold isbyte in *; lia).
  unfold isbyte in *. rewrite Z.shiftl_mul_pow2, u32_small by lia.
  rewrite lor_add_small by lia. lia.
Qed.

Lemma le_word_range b : bytes b → (4 ≤ length b)%nat → 0 ≤ le_word b < 2 ^ 32.
Proof.
  intros Hb Hl. unfold le_word, be_word. rewrite (take4_lookup b) by done.
  cbn [reverse rev_append app take foldl].
  pose proof (bytes_lookup_total b 0 Hb). pose proof (bytes_lookup_total b 1 Hb).
  pose proof (bytes_lookup_total b 2 Hb). pose proof (bytes_lookup_total b 3 Hb).
  unfold isbyte in *. lia.
Qed.

Lemma length_byteReverse n : ∀ b, (4 * n ≤ length b)%nat →
  length (byteReverse big n b) = length b.
Proof.
  induction n as [|n IH]; intros b Hl; [done|]. cbn [byteReverse].
  rewrite length_app, length_native_store, IH; rewrite length_drop; lia.
Qed.

Lemma le_word_take b : le_word (take 4 b) = le_word b.
Proof. unfold le_word. by rewrite take_take. Qed.

(** After [byteReverse] the machine reads little-endian words. *)
Lemma words_byteReverse n : ∀ b, bytes b → (4 * n ≤ length b)%nat →
  words (native_load big) n (byteReverse big n b) = words le_word n b.
Proof.
  induction n as [|n IH]; intros b Hb Hl; [done|]. cbn [byteReverse words].
  rewrite byteReverse_word by (done || lia).
  rewrite take_app_length', drop_app_length' by by rewrite length_native_store.
  rewrite le_word_take. f_equal.
  - apply native_load_store, le_word_range; [done|lia].
  - apply IH; [by apply Forall_drop|len].
Qed.

Lemma words_app get n k a b : length a = (4 * n)%nat →
  words get (n + k) (a ++ b) = words get n a ++ words get k b.
Proof.
  revert a. induction n as [|n IH]; intros a Ha.
  - by destruct a.
  - cbn [Nat.add words app]. rewrite take_app_le, drop_app_le by lia.
    f_equal. apply IH. rewrite length_drop. lia.
Qed.

Lemma transform_block_rfc st blk : bytes blk → length blk = 64%nat →
  transform_block big st (byteReverse big 16 blk) = process st blk.
Proof.
  intros Hb Hl. unfold transform_block. rewrite words_byteReverse by (done || lia).
  apply MD5Transform_rfc.
Qed.

End Order.

(** ** Contexts *)

Section Stream.
Context (big : bool).

Record md5_ok (m : list Z) (ctx : MD5Context) : Prop := {
  mo_taken : taken MD5_iv m (buf ctx) (in_ ctx);
  mo_b0 : 0 ≤ bits0 ctx < 2 ^ 32;
  mo_b1 : 0 ≤ bits1 ctx < 2 ^ 32;
  mo_bits : bits0 ctx + 2 ^ 32 * bits1 ctx = 8 * Z.of_nat (length m) mod 2 ^ 64;
  mo_bytes : bytes m;
}.

Lemma md5_blocks_ok k : ∀ iv m st i input,
  taken iv m st i → (length m mod 64 = 0)%nat → (length input / 64 ≤ k)%nat → bytes input →
  ∃ pre st' i' rest, md5_blocks big k st i input = (st', i', rest) ∧ input = pre ++ rest ∧
    (length rest < 64)%nat ∧ taken iv (m ++ pre) st' i' ∧ (length (m ++ pre) mod 64 = 0)%nat.
Proof.
  induction k as [|k IH]; intros iv m st i input Ht Hm Hk Hb.
  - exists [], st, i, input. rewrite app_nil_r.
    split_and!; try done. pose proof (Nat.div_mod_eq (length input) 64).
    pose proof (Nat.mod_upper_bound (length input) 64). lia.
  - cbn [md5_blocks]. case_match eqn:E; cmp_inv E.
    + pose proof (tk_len _ _ _ _ Ht) as Hi.
      assert (Hx : length (take 64 input) = 64%nat) by len.
      assert (Hs : splice 0 (take 64 input) i = take 64 input).
      { unfold splice. rewrite Hx, drop_ge, app_nil_r by lia. done. }
      rewrite Hs, transform_block_rfc by (done || by apply Forall_take).
      destruct (IH iv (m ++ take 64 input) (process st (take 64 input))
        (byteReverse big 16 (take 64 input)) (drop 64 input))
        as (pre & st' & i' & rest & -> & Hin & Hr & Ht' & Hm'').
      * eapply taken_block; [exact Ht|done..|]. by rewrite length_byteReverse by lia.
      * by rewrite length_app, Hx, mod_block_same.
      * rewrite length_drop.
        replace (length input) with (length input - 64 + 1 * 64)%nat in Hk by lia.
        rewrite Nat.div_add in Hk by lia. lia.
      * by apply Forall_drop.
      * exists (take 64 input ++ pre), st', i', rest. rewrite app_assoc.
        split_and!; try done. rewrite <- app_assoc, <- Hin. symmetry. apply take_drop.
    + exists [], st, i, input. rewrite app_nil_r. split_and!; done || lia.
Qed.

(** The counter of bits. *)
Lemma md5_bits_add b0 b1 n l :
  0 ≤ b0 < 2 ^ 32 → 0 ≤ b1 < 2 ^ 32 → b0 + 2 ^ 32 * b1 = 8 * n mod 2 ^ 64 → 0 ≤ l < 2 ^ 32 →
  let b0' := u32 (b0 + u32 (Z.shiftl l 3)) in
  let b1' := u32 ((if b0' <? b0 then u32 (b1 + 1) else b1) + Z.shiftr l 29) in
  0 ≤ b0' < 2 ^ 32 ∧ 0 ≤ b1' < 2 ^ 32 ∧ b0' + 2 ^ 32 * b1' = 8 * (n + l) mod 2 ^ 64.
Proof.
  intros H0 H1 Hn Hl. cbv zeta. split; [apply u32_range|]. split; [apply u32_range|].
  rewrite Z.mul_add_distr_l, <- Z.add_mod_idemp_l, <- Hn by lia.
  rewrite Z.shiftl_mul_pow2, Z.shiftr_div_pow2 by lia.
  set (q := l / 2 ^ 29). set (s := u32 (l * 2 ^ 3)).
  assert (Hs : 0 ≤ s < 2 ^ 32 ∧ 8 * l = s + 2 ^ 32 * q ∧ 0 ≤ q < 8).
  { pose proof (Z.div_mod l (2 ^ 29) ltac:(lia)). pose proof (Z.mod_pos_bound l (2 ^ 29) ltac:(lia)).
    assert (E : s = 8 * (l mod 2 ^ 29)).
    { unfold s, u32. symmetry. apply (Z.mod_unique _ _ q); unfold q; lia. }
    assert (0 ≤ q < 8) by (unfold q; split; [apply Z.div_pos; lia|apply Z.div_lt_upper_bound; lia]).
    unfold q in *. lia. }
  destruct Hs as (Hs & El & Hq). rewrite El. clearbody q s.
  assert (C : u32 (b0 + s) = b0 + s ∧ b0 + s < 2 ^ 32 ∨ u32 (b0 + s) = b0 + s - 2 ^ 32 ∧ 2 ^ 32 ≤ b0 + s).
  { destruct (Z.lt_ge_cases (b0 + s) (2 ^ 32)); [left; by rewrite u32_small by lia|right].
    split; [|done]. unfold u32. symmetry. apply (Z.mod_unique _ _ 1); lia. }
  destruct C as [[-> C]|[-> C]].
  - rewrite (proj2 (Z.ltb_ge _ _)) by lia. unfold u32.
    apply (Z.mod_unique _ _ ((b1 + q) / 2 ^ 32)).
    + left. pose proof (Z.mod_pos_bound (b1 + q) (2 ^ 32)). lia.
    + pose proof (Z.div_mod (b1 + q) (2 ^ 32)). lia.
  - rewrite (proj2 (Z.ltb_lt _ _)), u32_add_l by lia. unfold u32.
    apply (Z.mod_unique _ _ ((b1 + 1 + q) / 2 ^ 32)).
    + left. pose proof (Z.mod_pos_bound (b1 + 1 + q) (2 ^ 32)). lia.
    + pose proof (Z.div_mod (b1 + 1 + q) (2 ^ 32)). lia.
Qed.

Lemma md5_left m ctx : md5_ok m ctx →
  Z.to_nat (Z.land (Z.shiftr (bits0 ctx) 3) 63) = (length m mod 64)%nat.
Proof.
  intros [_ H0 H1 Hn _]. change 63 with (Z.ones 6). rewrite Z.land_ones, Z.shiftr_div_pow2 by lia.
  change (2 ^ 6) with 64. change (2 ^ 3) with 8.
  pose proof (Z.div_mod (8 * Z.of_nat (length m)) (2 ^ 64) ltac:(lia)) as E. rewrite <- Hn in E.
  set (q := _ / _) in E.
  assert (E8 : bits0 ctx / 8 = Z.of_nat (length m) - 2 ^ 29 * bits1 ctx - 2 ^ 61 * q).
  { symmetry. apply (Z.div_unique _ _ _ 0); lia. }
  rewrite E8. replace (_ - _ - _) with
    (Z.of_nat (length m) + (- 2 ^ 23 * bits1 ctx - 2 ^ 55 * q) * 64) by lia.
  rewrite Z.mod_add by lia. change 64 with (Z.of_nat 64).
  rewrite <- Nat2Z.inj_mod. apply Nat2Z.id.
Qed.

(** A full buffer is a block of the message. *)
Lemma taken_full_bytes iv m x st i :
  taken iv m st i → (length m mod 64 + length x = 64)%nat → bytes m → bytes x →
  splice (length m mod 64) x i = take (length m mod 64) i ++ x ∧
  bytes (splice (length m mod 64) x i).
Proof.
  intros [Hs Hl Hb] Hx Hm Hbx.
  assert (E : splice (length m mod 64) x i = take (length m mod 64) i ++ x).
  { unfold splice. by rewrite Hx, drop_ge, app_nil_r by lia. }
  split; [done|]. rewrite E, Hb. apply Forall_app_2; [by apply Forall_drop|done].
Qed.

Lemma MD5Update_ok m ctx input :
  md5_ok m ctx → fits32 input → bytes input → md5_ok (m ++ input) (MD5Update big ctx input).
Proof.
  intros Hok Hf Hbi. unfold MD5Update. rewrite (md5_left _ _ Hok).
  destruct Hok as [Ht H0 H1 Hn Hb]. pose proof (Nat.mod_upper_bound (length m) 64) as Hr.
  destruct (md5_bits_add _ _ _ (Z.of_nat (length input)) H0 H1 Hn) as (A & B & T);
    [unfold fits32 in Hf; lia|]. cbv zeta in A, B, T. cbv zeta.
  set (b0 := u32 (bits0 ctx + _)) in *. set (b1 := u32 ((if b0 <? _ then _ else _) + _)) in *.
  assert (Hend : ∀ st i, taken MD5_iv (m ++ input) st i → md5_ok (m ++ input) (mkMd5 st b0 b1 i)).
  { intros st i Ht'. split; simpl; [done..| |by apply Forall_app_2].
    by rewrite T, length_app, Nat2Z.inj_add. }
  assert (Hblocks : ∀ m' st i rest, m ++ input = m' ++ rest → taken MD5_iv m' st i →
    (length m' mod 64 = 0)%nat → bytes rest →
    md5_ok (m ++ input) (let '(st, i, input) := md5_blocks big (length rest / 64) st i rest in
      mkMd5 st b0 b1 (splice 0 input i))).
  { intros m' st i rest Hm Ht' Hm' Hbr.
    destruct (md5_blocks_ok _ _ _ _ _ rest Ht' Hm' (le_n _) Hbr)
      as (pre & st' & i' & r & -> & Hi & Hl & Ht3 & Hm3).
    apply Hend. rewrite Hm, Hi, app_assoc.
    rewrite <- Hm3. apply taken_short; [done|lia]. }
  destruct (length m mod 64 =? 0)%nat eqn:E0; cbn [negb].
  - apply Nat.eqb_eq in E0. by apply (Hblocks m).
  - destruct (length input <? 64 - length m mod 64)%nat eqn:El; cmp_inv El.
    + apply Hend, taken_short; [done|lia].
    + set (x := take (64 - length m mod 64) input).
      assert (Hx : (length m mod 64 + length x = 64)%nat) by (unfold x; rewrite length_take; lia).
      assert (Hbx : bytes x) by by apply Forall_take.
      destruct (taken_full _ m x _ _ Ht Hx) as [Hblk Ht2].
      destruct (taken_full_bytes _ m x _ _ Ht Hx Hb Hbx) as [_ Hbb].
      cbv zeta in Hblk, Ht2. rewrite transform_block_rfc by done.
      apply (Hblocks (m ++ x)).
      * unfold x. by rewrite <- app_assoc, take_drop.
      * assert (Hm2 : (length (m ++ x) mod 64 = 0)%nat).
        { rewrite length_app. by apply mod_block_add. }
        eapply taken_buf; [exact Ht2|done|]. by rewrite length_byteReverse by lia.
      * rewrite length_app. by apply mod_block_add.
      * by apply Forall_drop.
Qed.

End Stream.

(** ** The end of a message *)

Section Final.
Context (big : bool).

Lemma le_bytes_ok n : bytes (le_bytes n).
Proof. apply Forall_reverse, be_bytes_ok. Qed.

Lemma be_bytes_be_word b : bytes b → length b = 4%nat → be_bytes (be_word b) = b.
Proof.
  intros Hb Hl. do 5 (destruct b as [|? b]; try done).
  repeat match goal with H : bytes (_ :: _) |- _ => apply Forall_cons_1 in H as [? ?] end.
  by apply be_bytes_word.
Qed.

(** Swapping the digest words writes them in little-endian order. *)
Lemma byteReverse_store w b :
  byteReverse big 1 (native_store big w ++ b) = le_bytes w ++ b.
Proof.
  cbn [byteReverse].
  assert (Hn : bytes (native_store big w)).
  { unfold native_store. destruct big; [apply be_bytes_ok|apply le_bytes_ok]. }
  assert (E : ∀ i, (i < 4)%nat → (native_store big w ++ b) !!! i = native_store big w !!! i).
  { intros i Hi. apply lookup_total_app_l. by rewrite length_native_store. }
  rewrite !E by lia. rewrite byteReverse_word by (done || (rewrite length_native_store; lia)).
  rewrite drop_app_length' by by rewrite length_native_store. f_equal.
  unfold le_word. rewrite take_ge by (rewrite length_native_store; lia).
  unfold native_store at 1.
  assert (B : be_bytes (be_word (reverse (native_store big w))) = reverse (native_store big w)).
  { apply be_bytes_be_word; [by apply Forall_reverse|].
    by rewrite length_reverse, length_native_store. }
  rewrite B. unfold native_store, le_bytes. destruct big; [done|]. by rewrite !reverse_involutive.
Qed.

Lemma byteReverse_S n b :
  byteReverse big (S n) b = take 4 (byteReverse big 1 b) ++ byteReverse big n (drop 4 b).
Proof.
  cbn [byteReverse]. f_equal. symmetry. apply take_app_length'. by rewrite length_native_store.
Qed.

Lemma byteReverse_digest st n : length st = n →
  byteReverse big n (concat (native_store big <$> st)) = concat (le_bytes <$> st).
Proof.
  revert n. induction st as [|w st IH]; intros n <-; [done|].
  cbn [length fmap list_fmap concat]. rewrite byteReverse_S, byteReverse_store.
  rewrite take_app_length', drop_app_length' by (done || by rewrite length_native_store).
  f_equal. by apply IH.
Qed.

(** The last block, with the length in its last eight bytes. *)
Lemma final_block st i b0 b1 :
  bytes (take 56 i) → length i = 64%nat → 0 ≤ b0 < 2 ^ 32 → 0 ≤ b1 < 2 ^ 32 →
  transform_block big st
    (splice 60 (native_store big b1)
      (splice 56 (native_store big b0) (byteReverse big 14 (take 56 i) ++ drop 56 i))) =
  process st (take 56 i ++ le_bytes b0 ++ le_bytes b1).
Proof.
  intros Hb Hi H0 H1.
  assert (L : length (byteReverse big 14 (take 56 i)) = 56%nat).
  { rewrite length_byteReverse; rewrite length_take; lia. }
  pose proof (length_native_store big b0) as L0. pose proof (length_native_store big b1) as L1.
  assert (E : splice 60 (native_store big b1)
      (splice 56 (native_store big b0) (byteReverse big 14 (take 56 i) ++ drop 56 i)) =
    byteReverse big 14 (take 56 i) ++ native_store big b0 ++ native_store big b1).
  { unfold splice at 2. rewrite (take_app_length' _ _ 56), L0 by done.
    unfold splice. rewrite L1, (take_app_ge _ _ 60), L by lia.
    rewrite (take_app_length' _ _ (60 - 56)) by done.
    rewrite (drop_ge _ (60 + 4)); [by rewrite app_nil_r, <- app_assoc|].
    rewrite !length_app, !length_drop, L, L0, length_app, length_drop. lia. }
  rewrite E. unfold transform_block.
  change 16%nat with (14 + 2)%nat. rewrite words_app by done.
  rewrite words_byteReverse by (done || (rewrite length_take; lia)).
  assert (W : words (native_load big) 2 (native_store big b0 ++ native_store big b1) =
              words le_word 2 (le_bytes b0 ++ le_bytes b1)).
  { cbn [words]. rewrite !take_app_length', !drop_app_length' by done.
    rewrite !take_ge by (done || lia).
    change (le_word (le_bytes b0)) with (native_load false (native_store false b0)).
    change (le_word (le_bytes b1)) with (native_load false (native_store false b1)).
    by rewrite !native_load_store by done. }
  rewrite W, <- words_app by len. apply MD5Transform_rfc.
Qed.

Lemma le64_bits b0 b1 n : 0 ≤ b0 < 2 ^ 32 → 0 ≤ b1 < 2 ^ 32 →
  b0 + 2 ^ 32 * b1 = n mod 2 ^ 64 → le64 n = le_bytes b0 ++ le_bytes b1.
Proof.
  intros H0 H1 Hn. pose proof (Z.div_mod n (2 ^ 64) ltac:(lia)) as E. rewrite <- Hn in E.
  set (q := n / 2 ^ 64) in *. unfold le64, le_bytes.
  rewrite <- (be_bytes_u32 n), <- (be_bytes_u32 (n / 2 ^ 32)).
  assert (D : n / 2 ^ 32 = b1 + 2 ^ 32 * q).
  { symmetry. apply (Z.div_unique _ _ _ b0); lia. }
  replace (u32 n) with b0; [replace (u32 (n / 2 ^ 32)) with b1; [done|]|].
  - rewrite D. unfold u32. apply (Z.mod_unique _ _ q); lia.
  - unfold u32. apply (Z.mod_unique _ _ (b1 + 2 ^ 32 * q)); lia.
Qed.

Lemma splice_splice r x y b : (r + length x + length y ≤ length b)%nat →
  splice (r + length x) y (splice r x b) = splice r (x ++ y) b.
Proof.
  intros H. unfold splice at 1. rewrite take_splice by lia.
  unfold splice. rewrite <- !app_assoc. do 3 f_equal.
  rewrite drop_app_ge by len. rewrite drop_app_ge by len.
  rewrite drop_drop, length_take, length_app. f_equal. lia.
Qed.

Lemma absorb_length n m : ∀ st, length st = 4%nat → length (absorb n st m) = 4%nat.
Proof.
  revert m. induction n as [|n IH]; intros m st Hst; [done|]. cbn [absorb]. apply IH.
  unfold process, rfc_md5, rfc_compress. by destruct (foldl _ _ (seq 0 64)) as [[[a b] c] d].
Qed.

Lemma MD5Final_ok m ctx : md5_ok m ctx → MD5Final big ctx = MD5 m.
Proof.
  intros Hok. unfold MD5Final. rewrite (md5_left _ _ Hok).
  destruct Hok as [Ht H0 H1 Hn Hb]. pose proof (Nat.mod_upper_bound (length m) 64) as Hr.
  pose proof (tk_len _ _ _ _ Ht) as Hi.
  set (r := (length m mod 64)%nat) in *. cbv zeta.
  assert (Hend : ∀ st i x, taken MD5_iv (m ++ x) (process st (take 56 i ++ le64 (8 * Z.of_nat (length m)))) (in_ ctx) →
    m ++ x = pad le64 m → bytes (take 56 i) → length i = 64%nat →
    byteReverse big 4 (concat (native_store big <$> transform_block big st
      (splice 60 (native_store big (bits1 ctx)) (splice 56 (native_store big (bits0 ctx))
        (byteReverse big 14 (take 56 i) ++ drop 56 i))))) = MD5 m).
  { intros st i x Htk Hx Hbi Hli. rewrite final_block, <- (le64_bits _ _ _ H0 H1 Hn) by done.
    rewrite (tk_state _ _ _ _ Htk), Hx. apply byteReverse_digest, absorb_length. done. }
  assert (Hz : ∀ n, bytes ([128] ++ replicate n 0)).
  { intros n. constructor; [done|]. by apply Forall_replicate. }
  destruct (64 - 1 - r <? 8)%nat eqn:E; cmp_inv E.
  - change (r + 1)%nat with (r + length [128%Z])%nat.
    rewrite splice_splice by (rewrite length_replicate; simpl; lia).
    set (x := [128] ++ replicate (64 - 1 - r) 0).
    assert (Hx : (r + length x = 64)%nat) by (unfold x; rewrite length_app, length_replicate; simpl; lia).
    destruct (taken_full _ m x _ _ Ht Hx) as [Hblk Ht2].
    destruct (taken_full_bytes _ m x _ _ Ht Hx Hb (Hz _)) as [_ Hbb].
    fold r in Hblk, Ht2, Hbb. cbv zeta in Hblk, Ht2.
    rewrite transform_block_rfc by done.
    set (i := byteReverse big 16 _).
    assert (Hli : length i = 64%nat) by (unfold i; rewrite length_byteReverse; lia).
    assert (E56 : take 56 (splice 0 (replicate 56 0) i) = replicate 56 0).
    { unfold splice. rewrite take_0, app_nil_l. by apply take_app_length'. }
    apply (Hend _ _ (x ++ replicate 56 0 ++ le64 (8 * Z.of_nat (length m)))).
    + rewrite E56, app_assoc. eapply taken_block; [exact Ht2| |done|done].
      rewrite length_app. by apply mod_block_add.
    + unfold pad, x. fold r. rewrite (proj2 (Nat.ltb_ge _ _)) by lia.
      rewrite <- app_assoc. do 2 f_equal. rewrite app_assoc, <- replicate_add. do 2 f_equal. lia.
    + rewrite E56. by apply Forall_replicate.
    + rewrite length_splice; [done|]. rewrite length_replicate. lia.
  - change (r + 1)%nat with (r + length [128%Z])%nat.
    rewrite splice_splice by (rewrite length_replicate; simpl; lia).
    set (z := [128] ++ replicate (64 - 1 - r - 8) 0).
    assert (Hz56 : (r + length z = 56)%nat)
      by (unfold z; rewrite length_app, length_replicate; cbn [length]; lia).
    assert (E56 : take 56 (splice r z (in_ ctx)) = take r (in_ ctx) ++ z).
    { rewrite <- Hz56. apply take_splice. lia. }
    set (x := z ++ le64 (8 * Z.of_nat (length m))).
    assert (Hx : (r + length x = 64)%nat) by (unfold x; rewrite length_app; change (length (le64 _)) with 8%nat; lia).
    destruct (taken_full _ m x _ _ Ht Hx) as [Hblk Ht2]. cbv zeta in Hblk, Ht2. fold r in Hblk, Ht2.
    apply (Hend _ _ x).
    + rewrite E56, <- app_assoc. fold x.
      replace (take r (in_ ctx) ++ x) with (splice r x (in_ ctx)).
      * eapply taken_buf; [exact Ht2| |done].
        rewrite length_app. by apply mod_block_add.
      * unfold splice. by rewrite Hx, drop_ge, app_nil_r by lia.
    + unfold pad, x, z. fold r. rewrite (proj2 (Nat.ltb_lt _ _)) by lia.
      rewrite <- app_assoc. do 4 f_equal. lia.
    + rewrite E56. unfold r. rewrite (tk_buf _ _ _ _ Ht). apply Forall_app_2; [by apply Forall_drop|apply Hz].
    + rewrite length_splice; lia.
Qed.

End Final.

(** ** The digest *)

Lemma MD5Init_ok i : length i = 64%nat → md5_ok [] (MD5Init i).
Proof. intros Hi. split; simpl; [by apply taken_nil|lia..|done|constructor]. Qed.

Lemma MD5_parts_ok big parts : ∀ m ctx,
  md5_ok m ctx → Forall bytes parts → Forall fits32 parts →
  md5_ok (m ++ concat parts) (foldl (MD5Update big) ctx parts).
Proof.
  induction parts as [|x parts IH]; intros m ctx Hok Hb Hf; simpl; [by rewrite app_nil_r|].
  apply Forall_cons_1 in Hb as [Hbx Hb]. apply Forall_cons_1 in Hf as [Hfx Hf].
  rewrite app_assoc. apply IH; [|done..]. by apply MD5Update_ok.
Qed.

Lemma md5_computes big i : length i = 64%nat → computes (md5_impl big i) MD5.
Proof.
  intros Hi parts Hb Hf. apply MD5Final_ok.
  apply (MD5_parts_ok big parts []); [by apply MD5Init_ok|done..].
Qed.

(** The one-call functions. *)
Lemma md5_ok_call big i input :
  length i = 64%nat → bytes input → fits32 input → md5 big i input = MD5 input.
Proof.
  intros Hi Hb Hf. rewrite <- (app_nil_r input) at 2.
  apply (md5_computes big i Hi [input]); by repeat constructor.
Qed.

Lemma md5_wd_ok big i watchdog chunk_sz input :
  length i = 64%nat → bytes input → fits32 input → (watchdog = true → (0 < chunk_sz)%nat) →
  md5_wd big i watchdog chunk_sz input = Some (MD5 input).
Proof. intros. apply csum_wd_ok; [by apply md5_computes|done..]. Qed.

(** The table of the RFC, recomputed: entry [i] is the integer part of 2^32
    times the absolute value of the sine of [i + 1], here with the power
    series in fixed-point arithmetic of 300 bits. *)
Fixpoint sin_terms (k : nat) (x n term : Z) : Z :=
  match k with
  | O => 0
  | S k => term + sin_terms k x (n + 2) (- (term * x * x / ((n + 1) * (n + 2))))
  end.

Definition sine (x : Z) : Z := Z.abs (sin_terms 150 x 1 (x * 2 ^ 300)) / 2 ^ 268.

Lemma rfc_T_sines : (λ i, sine (Z.of_nat i + 1)) <$> seq 0 64 = rfc_T.
Proof. vm_compute. reflexivity. Qed.

(** C39: on a machine of either byte order, for every way of cutting a message
    into parts, [MD5Init], an [MD5Update] per part and [MD5Final] return the
    MD5 digest of the message as RFC 1321 defines it. *)
Theorem md5_correct big i parts :
  length i = 64%nat → Forall bytes parts → Forall fits32 parts →
  MD5Final big (foldl (MD5Update big) (MD5Init i) parts) = MD5 (concat parts).
Proof. intros Hi. by apply (md5_computes big i). Qed.

Lemma md5_correct_witness :
  MD5Final true (foldl (MD5Update true) (MD5Init (replicate 64 7)) [[97]; [98; 99]]) =
    MD5 [97; 98; 99] ∧
  MD5 [97; 98; 99] =
    [0x90; 0x01; 0x50; 0x98; 0x3C; 0xD2; 0x4F; 0xB0;
     0xD6; 0x96; 0x3F; 0x7D; 0x28; 0xE1; 0x7F; 0x72].
Proof.
  split; [|vm_compute; reflexivity].
  apply (md5_correct true (replicate 64 7) [[97]; [98; 99]]).
  - reflexivity.
  - repeat constructor; easy.
  - repeat constructor.
Defined.
