(* ===== verification/Montgomery.v ===== *)
(** * RSA: arithmetic on arrays of words

    Translation of the arithmetic of [lib/rsa/rsa-verify.c]: the subtraction
    and the comparison with the modulus, the Montgomery multiplication by
    steps, and the exponentiation with 65537. An array of words is a list of
    32-bit words, the least significant first; the accumulators are 64 bits
    wide. The theorems relate the arrays to the numbers they represent. *)

From S2P Require Import Prelude Word32 Div64.
From stdpp Require Import base option list.
From Stdlib Require Import ZArith Znumtheory Zpow_facts Lia.
Local Open Scope Z_scope.

(** The conversion to [int64_t]. *)
Definition s64 (x : Z) : Z := (x + 2 ^ 63) mod 2 ^ 64 - 2 ^ 63.

Record rsa_public_key := RsaKey {
  len : nat;
  n0inv : Z;
  modulus : list Z;
  rr : list Z
}.

Definition UINT64_MULT32 (v multby : Z) : Z := u64 (u64 v * u32 multby).

Definition RSA2048_BYTES : nat := 2048 / 8.
Definition RSA_MIN_KEY_BITS : nat := 2048.
Definition RSA_MAX_KEY_BITS : nat := 2048.
Definition RSA_MAX_SIG_BITS : nat := 2048.
Definition EINVAL : Z := 22.

(** One iteration of [subtract_modulus]: the difference is unsigned, the
    accumulator signed, and its shift arithmetic. *)
Definition subtract_step (key : rsa_public_key) (s : Z * list Z) (i : nat) : Z * list Z :=
  let '(acc, num) := s in
  let acc := s64 (u64 acc + u64 (num !!! i - modulus key !!! i)) in
  (Z.shiftr acc 32, <[i := u32 acc]> num).

Definition subtract_modulus (key : rsa_public_key) (num : list Z) : list Z :=
  snd (foldl (subtract_step key) (0, num) (seq 0 (len key))).

(** The loop of [greater_equal_modulus] for the words below [i]. Its condition
    [i >= 0] always holds for an unsigned [i]: below the first word it reads
    the word 2^32 - 1, outside of the arrays, which is [None]. *)
Fixpoint greater_equal_loop (key : rsa_public_key) (num : list Z) (i : nat) : option bool :=
  match i with
  | O => None
  | S i =>
      if num !!! i <? modulus key !!! i then Some false
      else if modulus key !!! i <? num !!! i then Some true
      else greater_equal_loop key num i
  end.

Definition greater_equal_modulus (key : rsa_public_key) (num : list Z) : option bool :=
  greater_equal_loop key num (len key).

(** One iteration of the loop of [montgomery_mul_add_step]. *)
Definition mul_add_word (key : rsa_public_key) (a : Z) (b : list Z) (d0 : Z) (s : Z * Z * list Z) (i : nat) : Z * Z * list Z :=
  let '(acc_a, acc_b, result) := s in
  let acc_a := u64 (Z.shiftr acc_a 32 + a * b !!! i + result !!! i) in
  let acc_b := u64 (Z.shiftr acc_b 32 + d0 * modulus key !!! i + u32 acc_a) in
  (acc_a, acc_b, <[(i - 1)%nat := u32 acc_b]> result).

(** For [len key] at least 1. *)
Definition montgomery_mul_add_step (key : rsa_public_key) (result : list Z) (a : Z) (b : list Z) : list Z :=
  let acc_a := u64 (a * b !!! 0%nat + result !!! 0%nat) in
  let d0 := u32 (u32 acc_a * n0inv key) in
  let acc_b := u64 (d0 * modulus key !!! 0%nat + u32 acc_a) in
  let '(acc_a, acc_b, result) :=
    foldl (mul_add_word key a b d0) (acc_a, acc_b, result) (seq 1 (len key - 1)) in
  let acc_a := u64 (Z.shiftr acc_a 32 + Z.shiftr acc_b 32) in
  let result := <[(len key - 1)%nat := u32 acc_a]> result in
  if Z.shiftr acc_a 32 =? 0 then result else subtract_modulus key result.

(** [result] is written before it is read. *)
Definition montgomery_mul (key : rsa_public_key) (a b : list Z) : list Z :=
  let result := replicate (len key) 0 in
  foldl (λ result i, montgomery_mul_add_step key result (a !!! i) b) result (seq 0 (len key)).

(** Two iterations of the loop of [pow_mod] on [acc], by way of [tmp]. *)
Definition square_twice (key : rsa_public_key) (acc : list Z) : list Z :=
  let tmp := montgomery_mul key acc acc in
  montgomery_mul key tmp tmp.

(** The big-endian accesses to a buffer at a word. *)
Definition get_unaligned_be32 (buf : list Z) (i : nat) : Z :=
  u32 (Z.lor (Z.lor (Z.lor (Z.shiftl (buf !!! (4 * i)%nat) 24) (Z.shiftl (buf !!! (4 * i + 1)%nat) 16))
    (Z.shiftl (buf !!! (4 * i + 2)%nat) 8)) (buf !!! (4 * i + 3)%nat)).

Definition u8 (x : Z) : Z := x mod 2 ^ 8.
Definition u16 (x : Z) : Z := x mod 2 ^ 16.

Definition put_unaligned_be16 (val : Z) : list Z := [u8 (Z.shiftr val 8); u8 val].
Definition put_unaligned_be32 (val : Z) (buf : list Z) (i : nat) : list Z :=
  splice (4 * i) (put_unaligned_be16 (u16 (Z.shiftr val 16)) ++ put_unaligned_be16 (u16 val)) buf.

(** The return value and the buffer; [None] when a word outside of the arrays
    is read. *)
Definition pow_mod (key : rsa_public_key) (inout : list Z) : option (Z * list Z) :=
  if (RSA_MAX_KEY_BITS / 32 <? len key)%nat then Some (- EINVAL, inout)
  else
    let val := (λ i, get_unaligned_be32 inout (len key - 1 - i)) <$> seq 0 (len key) in
    let acc := montgomery_mul key val (rr key) in
    let acc := Nat.iter 8 (square_twice key) acc in
    let result := montgomery_mul key acc val in
    ge ← greater_equal_modulus key result;
    let result := if (ge : bool) then subtract_modulus key result else result in
    Some (0, foldl (λ buf i, put_unaligned_be32 (result !!! (len key - 1 - i)%nat) buf i) inout (seq 0 (len key))).

(** ** The number in an array of words *)

Fixpoint le_val (l : list Z) : Z :=
  match l with
  | [] => 0
  | w :: l => w + 2 ^ 32 * le_val l
  end.

Definition isword (w : Z) : Prop := 0 ≤ w < 2 ^ 32.
Abbreviation words32 := (Forall isword).

(** The weight of a word. *)
Definition base (i : nat) : Z := 2 ^ (32 * Z.of_nat i).

Lemma base_S i : base (S i) = 2 ^ 32 * base i.
Proof. unfold base. rewrite <-Z.pow_add_r by lia. f_equal. lia. Qed.

Lemma base_pos i : 0 < base i.
Proof. unfold base. apply Z.pow_pos_nonneg; lia. Qed.

Lemma le_val_app l1 l2 : le_val (l1 ++ l2) = le_val l1 + base (length l1) * le_val l2.
Proof.
  induction l1 as [|w l1 IH]; cbn [app le_val length]; [unfold base; cbn; lia|]. rewrite IH, base_S. ring.
Qed.

Lemma le_val_range l : words32 l → 0 ≤ le_val l < base (length l).
Proof.
  induction 1 as [|w l Hw _ IH]; cbn [le_val length]; [unfold base; cbn; lia|]. rewrite base_S. unfold isword in Hw. lia.
Qed.

Lemma le_val_take_S l i : (i < length l)%nat → le_val (take (S i) l) = le_val (take i l) + base i * l !!! i.
Proof.
  intros Hi. rewrite (take_S_r l i (l !!! i)) by (by apply list_lookup_lookup_total_lt).
  rewrite le_val_app, length_take, Nat.min_l by lia. cbn [le_val]. ring.
Qed.

Lemma words_lookup l i : words32 l → (i < length l)%nat → isword (l !!! i).
Proof. intros Hl Hi. by apply (Forall_lookup_total_1 isword). Qed.

Lemma isword_u32 x : isword (u32 x).
Proof. apply u32_range. Qed.

(** The word just behind what has been written. *)
Lemma insert_written (done l : list Z) i x : length done = i → (i < length l)%nat →
  <[i := x]> (done ++ drop i l) = (done ++ [x]) ++ drop (S i) l.
Proof.
  intros Hd Hi. rewrite insert_app_r_alt by lia. rewrite Hd, Nat.sub_diag.
  rewrite (drop_S l (l !!! i) i) by (by apply list_lookup_lookup_total_lt). cbn. by rewrite <-app_assoc.
Qed.

Lemma lookup_unwritten (done l : list Z) i j : length done = i → (i ≤ j)%nat → (done ++ drop i l) !!! j = l !!! j.
Proof.
  intros Hd Hj. rewrite lookup_total_app_r by lia. rewrite lookup_total_drop. f_equal. lia.
Qed.

(** ** Subtraction and comparison *)

Section Key.
Context (key : rsa_public_key).

(** The arrays of the key have its length. *)
Record key_words : Prop := {
  kw_len : (0 < len key)%nat;
  kw_modulus : length (modulus key) = len key ∧ words32 (modulus key)
}.

Context (Hkey : key_words).
Notation N := (le_val (modulus key)).
Notation n := (len key).

Definition num_ok (l : list Z) : Prop := length l = n ∧ words32 l.

Lemma subtract_loop_ok num i : num_ok num → (i ≤ n)%nat →
  ∃ acc written, foldl (subtract_step key) (0, num) (seq 0 i) = (acc, written ++ drop i num) ∧ -1 ≤ acc ≤ 0 ∧
    length written = i ∧ words32 written ∧ le_val written + base i * acc = le_val (take i num) - le_val (take i (modulus key)).
Proof.
  intros [Hl Hw] Hi. destruct (kw_modulus Hkey) as [Hml Hmw]. induction i as [|i IH].
  - exists 0, []. rewrite !take_0. cbn. split_and!; (done || lia || constructor).
  - destruct IH as (acc&written&E&Hacc&Hwl&Hww&Hv); [lia|]. rewrite seq_S, foldl_snoc, E. cbn [subtract_step Nat.add].
    rewrite lookup_unwritten, insert_written by lia. assert (Hx := words_lookup num i Hw ltac:(lia)). assert (Hy := words_lookup _ i Hmw ltac:(lia)).
    set (x := num !!! i) in *. set (y := modulus key !!! i) in *. unfold isword in Hx, Hy.
    assert (Es : s64 (u64 acc + u64 (x - y)) = acc + x - y).
    { unfold s64, u64. rewrite (Z.add_comm (_ mod _ + _ mod _)), Z.add_assoc.
      rewrite Zplus_mod_idemp_r, <-Z.add_assoc, (Z.add_comm (acc mod _)), Z.add_assoc, Zplus_mod_idemp_r.
      rewrite Z.mod_small by lia. lia. }
    rewrite Es, Z.shiftr_div_pow2 by lia. exists ((acc + x - y) / 2 ^ 32), (written ++ [u32 (acc + x - y)]).
    assert (Hdm := Z.div_mod (acc + x - y) (2 ^ 32) ltac:(lia)). assert (Hm := u32_range (acc + x - y)). unfold u32 in *.
    split_and!; [done|lia..|rewrite length_app; cbn; lia|apply Forall_app_2; [done|by apply Forall_singleton]|].
    rewrite le_val_app, Hwl, !le_val_take_S, base_S by lia. cbn [le_val]. fold x y. nia.
Qed.

(** Modulo the weight of the array. *)
Lemma subtract_modulus_ok num : num_ok num → num_ok (subtract_modulus key num) ∧ le_val (subtract_modulus key num) = (le_val num - N) mod base n.
Proof.
  intros Hn. destruct (subtract_loop_ok num n Hn ltac:(lia)) as (acc&written&E&Hacc&Hwl&Hww&Hv). destruct Hn as [Hl Hw].
  unfold subtract_modulus. rewrite E. cbn [snd]. destruct (kw_modulus Hkey) as [Hml Hmw].
  rewrite drop_ge, app_nil_r by lia. rewrite !take_ge in Hv by lia. split; [done|]. rewrite <-Hv, Z.mul_comm, Z.mod_add by (pose proof (base_pos n); lia).
  rewrite Z.mod_small; [done|]. rewrite <-Hwl. by apply le_val_range.
Qed.

(** Equal numbers differ in no word of the arrays. *)
Lemma greater_equal_ok num : num_ok num →
  greater_equal_modulus key num = if le_val num =? N then None else Some (N <? le_val num).
Proof.
  intros [Hl Hw]. destruct (kw_modulus Hkey) as [Hml Hmw]. unfold greater_equal_modulus.
  assert (H : ∀ i, (i ≤ n)%nat → greater_equal_loop key num i =
    if le_val (take i num) =? le_val (take i (modulus key)) then None else Some (le_val (take i (modulus key)) <? le_val (take i num))).
  { induction i as [|i IH]; intros Hi; [done|]. cbn [greater_equal_loop]. rewrite IH by lia. clear IH.
    rewrite !le_val_take_S by lia. assert (Hx := le_val_range (take i num) ltac:(by apply Forall_take)).
    assert (Hy := le_val_range (take i (modulus key)) ltac:(by apply Forall_take)). rewrite length_take, Nat.min_l in Hx, Hy by lia.
    set (x := num !!! i). set (y := modulus key !!! i). set (X := le_val (take i num)) in *. set (Y := le_val (take i (modulus key))) in *.
    destruct (Z.lt_trichotomy x y) as [Hlt|[Heq|Hgt]].
    - rewrite (proj2 (Z.ltb_lt _ _)) by done. rewrite (proj2 (Z.eqb_neq _ _)), (proj2 (Z.ltb_ge _ _)) by nia. done.
    - rewrite Heq, !Z.ltb_irrefl. generalize (base i * y). intros k.
      destruct (Z.eqb_spec X Y), (Z.eqb_spec (X + k) (Y + k)), (Z.ltb_spec Y X), (Z.ltb_spec (Y + k) (X + k)); (done || lia).
    - rewrite (proj2 (Z.ltb_ge _ _)) by lia. rewrite (proj2 (Z.ltb_lt _ _)) by done.
      rewrite (proj2 (Z.eqb_neq _ _)), (proj2 (Z.ltb_lt _ _)) by nia. done. }
  rewrite (H n) by lia. by rewrite !take_ge by lia.
Qed.

(** ** The multiplication *)

(** The last row of the key: its inverse. *)
Definition n0inv_ok : Prop := (modulus key !!! 0%nat * n0inv key + 1) mod 2 ^ 32 = 0 ∧ isword (n0inv key).

Definition is64 (x : Z) : Prop := 0 ≤ x < 2 ^ 64.

Lemma u64_sum h x y z : 0 ≤ h < 2 ^ 32 → isword x → isword y → isword z → u64 (h + x * y + z) = h + x * y + z ∧ is64 (h + x * y + z).
Proof. unfold isword, is64. intros. assert (x * y ≤ (2 ^ 32 - 1) * (2 ^ 32 - 1)) by nia. split; [apply u64_small|]; nia. Qed.

Lemma high_range x : is64 x → 0 ≤ Z.shiftr x 32 < 2 ^ 32.
Proof.
  intros Hx. rewrite Z.shiftr_div_pow2 by lia. unfold is64 in Hx.
  split; [apply Z.div_pos; lia|apply Z.div_lt_upper_bound; lia].
Qed.

Lemma high_low x : x = 2 ^ 32 * Z.shiftr x 32 + u32 x.
Proof. rewrite Z.shiftr_div_pow2 by lia. unfold u32. apply Z.div_mod. lia. Qed.

(** The loop: what is still to be written weighs as much as the two accumulators. *)
Lemma mul_add_loop_ok result a b d0 acc_a acc_b i : num_ok result → num_ok b → isword a → isword d0 → is64 acc_a → is64 acc_b →
  u32 acc_b = 0 → 2 ^ 32 * Z.shiftr acc_a 32 + acc_b = result !!! 0%nat + a * b !!! 0%nat + d0 * modulus key !!! 0%nat →
  (i < n)%nat → ∃ A B written, foldl (mul_add_word key a b d0) (acc_a, acc_b, result) (seq 1 i) = (A, B, written ++ drop i result) ∧
    is64 A ∧ is64 B ∧ length written = i ∧ words32 written ∧
    2 ^ 32 * (le_val written + base i * (Z.shiftr A 32 + Z.shiftr B 32)) =
      le_val (take (S i) result) + a * le_val (take (S i) b) + d0 * le_val (take (S i) (modulus key)).
Proof.
  intros [Hrl Hrw] [Hbl Hbw] Ha Hd HA HB Hlow Hfirst. destruct (kw_modulus Hkey) as [Hml Hmw]. induction i as [|i IH]; intros Hi.
  - exists acc_a, acc_b, []. rewrite !le_val_take_S, !take_0 by lia. cbn. pose proof (high_low acc_b). unfold base. cbn.
    split_and!; (done || constructor || nia).
  - destruct IH as (A&B&written&E&HA'&HB'&Hwl&Hww&Hv); [lia|]. rewrite seq_S, foldl_snoc, E. cbn [mul_add_word Nat.add].
    replace (S i - 1)%nat with i by lia. rewrite lookup_unwritten, insert_written by lia.
    destruct (u64_sum (Z.shiftr A 32) a (b !!! S i) (result !!! S i)) as [-> HA1]; [by apply high_range|done|apply words_lookup; (done || lia)..|].
    set (A' := Z.shiftr A 32 + _ + _) in *.
    destruct (u64_sum (Z.shiftr B 32) d0 (modulus key !!! S i) (u32 A')) as [-> HB1]; [by apply high_range|done|apply words_lookup; (done || lia)|apply isword_u32|].
    set (B' := Z.shiftr B 32 + _ + _) in *. exists A', B', (written ++ [u32 B']).
    split_and!; [done..|rewrite length_app; cbn; lia|apply Forall_app_2; [done|by apply Forall_singleton, isword_u32]|].
    rewrite le_val_app, Hwl. cbn [le_val]. rewrite !(le_val_take_S _ (S i)) by lia.
    assert (EA := high_low A'). assert (EB := high_low B'). unfold A' in EA at 1. unfold B' in EB at 1. rewrite base_S in *. nia.
Qed.

Context (Hinv : n0inv_ok).

(** The factor of the modulus makes the last word 0. *)
Lemma montgomery_factor x : isword x →
  let acc_b := u32 (x * n0inv key) * modulus key !!! 0%nat + x in u64 acc_b = acc_b ∧ is64 acc_b ∧ u32 acc_b = 0.
Proof.
  intros Hx acc_b. destruct Hinv as [H0 _]. destruct (kw_modulus Hkey) as [Hml Hmw].
  assert (Hm := words_lookup (modulus key) 0 Hmw ltac:(pose proof (kw_len Hkey); lia)).
  destruct (u64_sum 0 (u32 (x * n0inv key)) (modulus key !!! 0%nat) x) as [H1 H2]; [lia|apply isword_u32|done..|].
  rewrite Z.add_0_l in H1, H2. split_and!; [done..|]. unfold acc_b, u32.
  rewrite <-Z.add_mod_idemp_l, Z.mul_mod_idemp_l, Z.add_mod_idemp_l by lia.
  replace (x * n0inv key * modulus key !!! 0%nat + x) with (x * (modulus key !!! 0%nat * n0inv key + 1)) by ring.
  by rewrite <-Z.mul_mod_idemp_r, H0, Z.mul_0_r by lia.
Qed.

(** Nothing to add. *)
Lemma low_zero (l l' : list Z) a : words32 l → words32 l' → isword a → (0 < length l)%nat → (0 < length l')%nat →
  le_val l + a * le_val l' = 0 → a * l' !!! 0%nat + l !!! 0%nat = 0.
Proof.
  unfold isword. intros Hl Hl' Ha Hn Hn' H. destruct l as [|x l]; [simpl in Hn; lia|]. destruct l' as [|y l']; [simpl in Hn'; lia|].
  apply Forall_cons in Hl as [Hx Hl], Hl' as [Hy Hl']. apply le_val_range in Hl, Hl'. unfold isword in *. cbn [le_val] in H. cbn. nia.
Qed.

(** The sum before the last comparison. *)
Lemma montgomery_sum_ok result a b : num_ok result → num_ok b → isword a →
  ∃ k t, isword k ∧ (le_val result + a * le_val b = 0 → k = 0) ∧ 2 ^ 32 * t = le_val result + a * le_val b + k * N ∧
    ∃ sum, num_ok sum ∧ ∃ h, t = le_val sum + base n * h ∧ 0 ≤ h ∧ montgomery_mul_add_step key result a b = if h =? 0 then sum else subtract_modulus key sum.
Proof.
  intros Hr Hb Ha. assert (Hr' := Hr). assert (Hb' := Hb). destruct Hr' as [Hrl Hrw]. destruct Hb' as [Hbl Hbw].
  destruct (kw_modulus Hkey) as [Hml Hmw]. assert (Hn := kw_len Hkey). unfold montgomery_mul_add_step.
  destruct (u64_sum 0 a (b !!! 0%nat) (result !!! 0%nat)) as [Ea HA]; [lia|done|apply words_lookup; (done || lia)..|]. rewrite Z.add_0_l in Ea, HA.
  rewrite Ea. clear Ea. set (acc_a := a * _ + _) in *. destruct (montgomery_factor (u32 acc_a) ltac:(apply isword_u32)) as (->&HB&Hlow).
  set (d0 := u32 (u32 acc_a * n0inv key)) in *. set (acc_b := d0 * _ + u32 acc_a) in *. assert (Hd : isword d0) by apply isword_u32.
  destruct (mul_add_loop_ok result a b d0 acc_a acc_b (n - 1) Hr Hb Ha Hd HA HB Hlow) as (A&B&written&->&HA'&HB'&Hwl&Hww&Hv); [pose proof (high_low acc_a); lia|lia|].
  apply high_range in HA', HB'. unfold u64. rewrite Z.mod_small by lia. set (S := Z.shiftr A 32 + Z.shiftr B 32) in *.
  rewrite insert_written by lia. replace (Datatypes.S (n - 1)) with n in * by lia. rewrite drop_ge, app_nil_r by lia.
  rewrite !take_ge in Hv by lia. assert (HS := high_low S). assert (Hb1 := base_S (n - 1)). replace (Datatypes.S (n - 1)) with n in Hb1 by lia.
  exists d0, (le_val written + base (n - 1) * S). split_and!; [done| |done|].
  { intros H0. unfold d0. replace acc_a with 0; [done|]. symmetry. apply (low_zero result b a); (done || lia). }
  exists (written ++ [u32 S]). split.
  - split; [rewrite length_app; cbn; lia|]. apply Forall_app_2; [done|]. by apply Forall_singleton, isword_u32.
  - exists (Z.shiftr S 32). rewrite le_val_app, Hwl. cbn [le_val]. split_and!; [nia| |done]. rewrite Z.shiftr_div_pow2 by lia. apply Z.div_pos; lia.
Qed.

(** A step stays within the arrays, divides by 2^32 modulo the modulus, and
    does not lose a positive number. *)
Lemma montgomery_mul_add_step_ok result a b : num_ok result → num_ok b → isword a →
  let result' := montgomery_mul_add_step key result a b in
  num_ok result' ∧ (∃ q, 2 ^ 32 * le_val result' = le_val result + a * le_val b + q * N) ∧
  (0 < le_val result + a * le_val b → 0 < le_val result') ∧ (le_val result + a * le_val b = 0 → le_val result' = 0).
Proof.
  intros Hr Hb Ha result'. destruct (montgomery_sum_ok result a b Hr Hb Ha) as (k&t&Hk&Hk0&Et&sum&Hsum&h&Eh&Hh&E).
  fold result' in E. destruct (subtract_modulus_ok sum Hsum) as [Hsub Esub]. destruct Hr as [Hrl Hrw], Hb as [Hbl Hbw], (kw_modulus Hkey) as [Hml Hmw].
  assert (H1 := le_val_range _ Hrw). assert (H2 := le_val_range _ Hbw). assert (H3 := le_val_range _ Hmw). rewrite ?Hrl, ?Hbl, ?Hml in *.
  assert (H4 := le_val_range _ (proj2 Hsum)). rewrite (proj1 Hsum) in H4. unfold isword in *.
  destruct (Z.eqb_spec h 0) as [->|Hh0]; rewrite E.
  - split; [done|]. replace (le_val sum) with t by lia. split; [by exists k|]. nia.
  - split; [done|]. assert (Ht : base n ≤ t < base n + N) by nia.
    assert (Ev : le_val (subtract_modulus key sum) = t - N).
    { rewrite Esub. replace (le_val sum - N) with (t - N + - h * base n) by lia. rewrite Z.mod_add by lia. apply Z.mod_small. lia. }
    rewrite Ev. split; [|split; [lia|]]; [exists (k - 2 ^ 32); lia|]. intros H0. apply Hk0 in H0 as Hk0'. nia.
Qed.

Lemma num_zero : num_ok (replicate n 0) ∧ le_val (replicate n 0) = 0.
Proof.
  split; [split; [by rewrite length_replicate|]|].
  - apply Forall_replicate. unfold isword. lia.
  - induction n as [|k IH]; cbn [replicate le_val]; lia.
Qed.

Lemma montgomery_mul_ok a b : num_ok a → num_ok b →
  num_ok (montgomery_mul key a b) ∧ (∃ q, base n * le_val (montgomery_mul key a b) = le_val a * le_val b + q * N) ∧
  (0 < le_val a → 0 < le_val b → 0 < le_val (montgomery_mul key a b)) ∧ (le_val b = 0 → le_val (montgomery_mul key a b) = 0).
Proof.
  intros Ha Hb. unfold montgomery_mul. set (R := λ i, foldl (λ result i, montgomery_mul_add_step key result (a !!! i) b) (replicate n 0) (seq 0 i)).
  assert (H : ∀ i, (i ≤ n)%nat → num_ok (R i) ∧ (∃ q, base i * le_val (R i) = le_val (take i a) * le_val b + q * N) ∧
    (0 < le_val (take i a) → 0 < le_val b → 0 < le_val (R i)) ∧ (le_val b = 0 → le_val (R i) = 0)).
  { induction i as [|i IH]; intros Hi.
    - destruct num_zero as [H1 H2]. unfold R. cbn [seq foldl]. rewrite take_0, H2. cbn. split_and!; [done|by exists 0; lia|lia|done].
    - destruct IH as (Hok&[q Eq]&Hpos&Hzero); [lia|]. destruct Ha as [Hal Haw]. assert (Hai := words_lookup a i Haw ltac:(lia)).
      assert (E : R (S i) = montgomery_mul_add_step key (R i) (a !!! i) b) by (unfold R; by rewrite seq_S, foldl_snoc).
      destruct (montgomery_mul_add_step_ok (R i) (a !!! i) b Hok Hb Hai) as (Hok'&[q' Eq']&Hpos'&Hzero'). rewrite <-E in *.
      split; [done|]. rewrite le_val_take_S, base_S by lia.
      assert (HR := le_val_range _ (proj2 Hok)). assert (Hta := le_val_range (take i a) ltac:(by apply Forall_take)). assert (HB := base_pos i).
      split_and!.
      + exists (q + base i * q'). transitivity (base i * (2 ^ 32 * le_val (R (S i)))); [ring|]. rewrite Eq', !Z.mul_add_distr_l, Eq. ring.
      + intros H1 H2. apply Hpos'. unfold isword in Hai. destruct (decide (a !!! i = 0)) as [E0|E0]; [rewrite E0 in *; nia|nia].
      + intros H2. apply Hzero'. rewrite H2, (Hzero H2). lia. }
  specialize (H n ltac:(lia)). rewrite take_ge in H by (destruct Ha; lia). apply H.
Qed.

(** ** Exponentiation *)

Lemma modulus_odd : rel_prime N (base n).
Proof.
  unfold base. apply rel_prime_Zpower_r; [lia|]. apply rel_prime_sym, prime_rel_prime; [apply prime_2|]. intros [q Hq].
  destruct Hinv as [H0 _]. destruct (kw_modulus Hkey) as [Hml _]. assert (Hn := kw_len Hkey). apply Z.mod_divide in H0 as [r Hr]; [|lia].
  destruct (modulus key) as [|m0 ms]; [simpl in Hml; lia|]. cbn in Hr, Hq. change (2 ^ 32) with (2 * 2 ^ 31) in *.
  assert (E : m0 = 2 * (q - 2 ^ 31 * le_val ms)) by lia. rewrite E in Hr. lia.
Qed.

Lemma base_cancel x y : (N | base n * x - base n * y) → (N | x - y).
Proof. rewrite <-Z.mul_sub_distr_l. intros H. apply (Gauss _ _ _ H). apply modulus_odd. Qed.

(** [x] is the number [v] in the Montgomery form. *)
Definition form (x : list Z) (v : Z) : Prop := num_ok x ∧ (N | le_val x - v * base n).

Lemma montgomery_mul_form a b u v : form a u → form b v → form (montgomery_mul key a b) (u * v).
Proof.
  intros [Ha [p Hp]] [Hb [q Hq]]. destruct (montgomery_mul_ok a b Ha Hb) as (Hok&[r Hr]&_&_). split; [done|]. apply base_cancel. rewrite Hr.
  exists (p * le_val b + q * u * base n + r).
  replace (le_val a) with (u * base n + p * N) by lia. replace (le_val b) with (v * base n + q * N) by lia. ring.
Qed.

Lemma montgomery_mul_out a b u : form a u → num_ok b →
  num_ok (montgomery_mul key a b) ∧ (N | le_val (montgomery_mul key a b) - u * le_val b).
Proof.
  intros [Ha [p Hp]] Hb. destruct (montgomery_mul_ok a b Ha Hb) as (Hok&[r Hr]&_&_). split; [done|]. apply base_cancel. rewrite Hr.
  exists (p * le_val b + r). replace (le_val a) with (u * base n + p * N) by lia. ring.
Qed.

Lemma square_twice_form x v k : 0 ≤ k → form x (v ^ k) → form (square_twice key x) (v ^ (4 * k)).
Proof.
  intros Hk Hx. unfold square_twice. replace (v ^ (4 * k)) with (v ^ k * v ^ k * (v ^ k * v ^ k)); [by repeat apply montgomery_mul_form|].
  rewrite <-!Z.pow_add_r by lia. f_equal. lia.
Qed.

Lemma squares_form x v i : form x v → form (Nat.iter i (square_twice key) x) (v ^ (4 ^ Z.of_nat i)).
Proof.
  intros Hx. induction i as [|i IH]; [by rewrite Z.pow_1_r|]. rewrite Nat.iter_succ, Nat2Z.inj_succ, Z.pow_succ_r by lia.
  apply square_twice_form; [|done]. apply Z.pow_nonneg. lia.
Qed.

Lemma square_twice_pos x : num_ok x → 0 < le_val x → 0 < le_val (square_twice key x).
Proof. intros Hx H. destruct (montgomery_mul_ok x x Hx Hx) as (Ht&_&Hp&_). apply montgomery_mul_ok; (done || by apply Hp). Qed.

Lemma squares_pos x v i : form x v → 0 < le_val x → 0 < le_val (Nat.iter i (square_twice key) x).
Proof.
  intros Hx H. induction i as [|i IH]; [done|]. rewrite Nat.iter_succ. apply square_twice_pos; [|done]. by apply (squares_form x v i).
Qed.

End Key.

(** ** Numbers in big-endian bytes *)

(** The conversions of PKCS #1 between numbers and strings of bytes. *)
Definition OS2IP (b : list Z) : Z := foldl (λ v x, v * 256 + x) 0 b.

Fixpoint I2OSP (k : nat) (v : Z) : list Z :=
  match k with
  | O => []
  | S k => I2OSP k (v / 256) ++ [v mod 256]
  end.

Lemma OS2IP_app b1 b2 : OS2IP (b1 ++ b2) = OS2IP b1 * 256 ^ Z.of_nat (length b2) + OS2IP b2.
Proof.
  unfold OS2IP. rewrite foldl_app. generalize (foldl (λ v x, v * 256 + x) 0 b1). induction b2 as [|x b2 IH] using rev_ind; intros v.
  - cbn. lia.
  - rewrite !foldl_snoc, IH, length_app, Nat2Z.inj_add, Z.pow_add_r by lia. change (256 ^ Z.of_nat (length [x])) with 256. ring.
Qed.

Lemma I2OSP_length k v : length (I2OSP k v) = k.
Proof. revert v. induction k as [|k IH]; intros v; [done|]. cbn [I2OSP]. rewrite length_app, IH. cbn. lia. Qed.

Lemma I2OSP_word k w v : isword w → I2OSP (4 + k) (w + 2 ^ 32 * v) = I2OSP k v ++ be_bytes w.
Proof.
  intros Hw. cbn [Nat.add I2OSP]. rewrite !Z.div_div by lia. rewrite <-!app_assoc. unfold be_bytes. cbn [app].
  assert (Hm : ∀ a b, a mod 256 = b mod 256 → a mod 256 = b mod 256) by done.
  replace ((w + 2 ^ 32 * v) / (256 * (256 * (256 * 256)))) with v.
  2: { change (256 * (256 * (256 * 256))) with (2 ^ 32). rewrite (Z.add_comm w), Z.mul_comm, Z.div_add_l, Z.div_small by (unfold isword in Hw; lia). lia. }
  f_equal. change (256 * (256 * 256)) with (2 ^ 24). change (256 * 256) with (2 ^ 16). change (w / 2 ^ 8) with (w / 256).
  replace (w + 2 ^ 32 * v) with (w + (2 ^ 8 * v) * 2 ^ 24) at 1 by ring. rewrite Z.div_add by lia.
  replace (w + 2 ^ 32 * v) with (w + (2 ^ 16 * v) * 2 ^ 16) at 1 by ring. rewrite Z.div_add by lia.
  replace (w + 2 ^ 32 * v) with (w + (2 ^ 24 * v) * 256) by ring. rewrite Z.div_add by lia.
  change (2 ^ 8) with 256. change (2 ^ 16) with (256 * 256). change (2 ^ 24) with (256 * 256 * 256).
  replace (256 * v) with (v * 256) by ring. replace (256 * 256 * v) with (256 * v * 256) by ring. replace (256 * 256 * 256 * v) with (256 * 256 * v * 256) by ring.
  by rewrite !Z.mod_add by lia.
Qed.

(** The bytes of an array of words, the most significant word first. *)
Lemma I2OSP_words l : words32 l → I2OSP (4 * length l) (le_val l) = concat (be_bytes <$> reverse l).
Proof.
  induction 1 as [|w l Hw _ IH]; [done|]. cbn [length le_val]. replace (4 * S (length l))%nat with (4 + 4 * length l)%nat by lia.
  rewrite I2OSP_word, IH by done. rewrite reverse_cons, fmap_app, concat_app. cbn. done.
Qed.

Lemma get_unaligned_be32_ok buf i : bytes buf → (4 * i + 4 ≤ length buf)%nat →
  get_unaligned_be32 buf i = OS2IP (take 4 (drop (4 * i) buf)) ∧ isword (get_unaligned_be32 buf i).
Proof.
  intros Hb Hl. split; [|apply isword_u32]. transitivity (be_word (take 4 (drop (4 * i) buf))); [|unfold be_word; by rewrite take_take].
  rewrite <-GET_UINT32_BE_word by done. unfold get_unaligned_be32, GET_UINT32_BE.
  assert (Hx := λ j, bytes_lookup_total buf j Hb). assert (Hs : ∀ j k, 0 ≤ k ≤ 24 → u32 (Z.shiftl (buf !!! j) k) = Z.shiftl (buf !!! j) k).
  { intros j k Hk. rewrite byte_shiftl by done. by rewrite Z.shiftl_mul_pow2 by lia. }
  rewrite !Hs by lia. apply u32_small.
  assert (H1 := GET_UINT32_BE_word buf (4 * i) Hb Hl). unfold GET_UINT32_BE in H1. rewrite !Hs in H1 by lia. rewrite H1.
  unfold be_word. rewrite take_take. rewrite take4_lookup by (rewrite length_drop; lia). rewrite !lookup_total_drop. cbn [foldl take Nat.min].
  pose proof (Hx (4 * i + 0)%nat). pose proof (Hx (4 * i + 1)%nat). pose proof (Hx (4 * i + 2)%nat). pose proof (Hx (4 * i + 3)%nat). unfold isbyte in *. lia.
Qed.

Lemma u16_bytes x : put_unaligned_be16 (u16 x) = [x / 256 mod 256; x mod 256].
Proof.
  unfold put_unaligned_be16, u8, u16. rewrite Z.shiftr_div_pow2 by lia. change (2 ^ 8) with 256. rewrite (Z.mod_eq x (2 ^ 16)) by lia.
  replace (x - 2 ^ 16 * (x / 2 ^ 16)) with (x + - (256 * (x / 2 ^ 16)) * 256) by lia. rewrite Z.div_add, Z.mod_add by lia.
  replace (x / 256 + - (256 * (x / 2 ^ 16))) with (x / 256 + - (x / 2 ^ 16) * 256) by lia. by rewrite Z.mod_add by lia.
Qed.

Lemma put_unaligned_be32_ok w buf i : put_unaligned_be32 w buf i = splice (4 * i) (be_bytes w) buf.
Proof.
  unfold put_unaligned_be32. rewrite !u16_bytes. unfold be_bytes. rewrite Z.shiftr_div_pow2, Z.div_div by lia. done.
Qed.

(** ** The exponentiation of the code *)

(** What [rsa_add_verify_data] puts into the device tree for a key of [len]
    words: the inverse of the modulus, the square of the weight, and a modulus
    that has its highest bit set. *)
Record rsa_key_ok (key : rsa_public_key) : Prop := {
  ko_words : key_words key;
  ko_size : (len key ≤ 64)%nat;
  ko_inv : n0inv_ok key;
  ko_rr : num_ok key (rr key);
  ko_square : (le_val (modulus key) | le_val (rr key) - base (len key) * base (len key));
  ko_top : base (len key) ≤ 2 * le_val (modulus key)
}.

(** The words of the buffer in the order of the arithmetic. *)
Lemma load_words k : ∀ buf, bytes buf → length buf = (4 * k)%nat →
  let val := (λ i, get_unaligned_be32 buf (k - 1 - i)) <$> seq 0 k in length val = k ∧ words32 val ∧ le_val val = OS2IP buf.
Proof.
  induction k as [|k IH]; intros buf Hb Hl val; [by destruct buf|].
  destruct (get_unaligned_be32_ok buf k Hb ltac:(lia)) as [Ew Hw].
  assert (Hf : bytes (take (4 * k) buf)) by by apply Forall_take. assert (Hfl : length (take (4 * k) buf) = (4 * k)%nat) by (rewrite length_take; lia).
  destruct (IH _ Hf Hfl) as (Hl'&Hw'&Hv').
  assert (Ev : val = get_unaligned_be32 buf k :: ((λ i, get_unaligned_be32 (take (4 * k) buf) (k - 1 - i)) <$> seq 0 k)).
  { unfold val. cbn [seq fmap list_fmap]. rewrite !Nat.sub_0_r. replace (S k - 1)%nat with k by lia. f_equal.
    change (seq 1 k) with (seq (S 0) k). rewrite <-fmap_S_seq, <-list_fmap_compose. apply list_fmap_ext. intros i x [-> Hi]%lookup_seq. cbn [compose].
    unfold get_unaligned_be32. replace (k - S (0 + i))%nat with (k - 1 - i)%nat by lia.
    by rewrite Nat.add_0_l, !lookup_total_take, !decide_True by lia. }
  rewrite Ev. cbn [length le_val]. rewrite Hl', Hv'. split_and!; [done|by constructor|].
  rewrite Ew, take_ge by (rewrite length_drop; lia). rewrite <-(take_drop (4 * k) buf) at 3. rewrite OS2IP_app, length_drop.
  replace (Z.of_nat (length buf - 4 * k)) with 4 by lia. lia.
Qed.

(** Writing the words from the most significant on fills the buffer. *)
Lemma store_words result : ∀ buf, length buf = (4 * length result)%nat →
  foldl (λ buf i, put_unaligned_be32 (result !!! (length result - 1 - i)%nat) buf i) buf (seq 0 (length result)) = concat (be_bytes <$> reverse result).
Proof.
  intros buf Hl. set (k := length result) in *.
  assert (H : ∀ i, (i ≤ k)%nat → foldl (λ buf i, put_unaligned_be32 (result !!! (k - 1 - i)%nat) buf i) buf (seq 0 i) =
    concat (be_bytes <$> take i (reverse result)) ++ drop (4 * i) buf ∧ length (concat (be_bytes <$> take i (reverse result))) = (4 * i)%nat).
  { induction i as [|i IH]; intros Hi; [by rewrite take_0|]. destruct IH as [E Hlen]; [lia|]. rewrite seq_S, foldl_snoc, E. cbn [Nat.add].
    rewrite (take_S_r _ i (result !!! (k - 1 - i)%nat)).
    2: { rewrite reverse_lookup by (fold k; lia). fold k. replace (k - S i)%nat with (k - 1 - i)%nat by lia. apply list_lookup_lookup_total_lt. fold k. lia. }
    rewrite put_unaligned_be32_ok, fmap_app, concat_app, length_app. cbn [fmap list_fmap concat]. rewrite app_nil_r, Hlen. split; [|cbn; lia].
    unfold splice. rewrite take_app_le, take_ge by lia. rewrite drop_app_ge by lia. rewrite Hlen, drop_drop, <-app_assoc.
    do 3 f_equal. cbn [length be_bytes]. lia. }
  destruct (H k ltac:(lia)) as [-> _]. rewrite drop_ge, app_nil_r by lia. by rewrite take_ge by (rewrite length_reverse; fold k; lia).
Qed.

Section PowMod.
Context (key : rsa_public_key) (Hko : rsa_key_ok key).
Notation N := (le_val (modulus key)).
Notation n := (len key).

Lemma base_large : 2 ^ 32 ≤ base n.
Proof.
  destruct Hko as [[Hn _] _ _ _ _ _]. destruct n as [|k]; [lia|]. rewrite base_S. pose proof (base_pos k). lia.
Qed.

Lemma rr_positive : 0 < le_val (rr key).
Proof.
  destruct Hko as [Hkw _ Hi Hrr [q Hq] Ht]. pose proof base_large. assert (Hr := le_val_range _ (proj2 Hrr)).
  destruct (decide (le_val (rr key) = 0)) as [E|]; [exfalso|lia].
  assert (Hd : (N | base n)) by (apply (Gauss _ (base n)); [exists (- q); lia|by apply modulus_odd]).
  assert (Hg : (N | 1)). { destruct (modulus_odd key Hkw Hi) as [_ _ Hg]. by apply Hg. }
  apply Z.divide_1_r_nonneg in Hg; lia.
Qed.

(** The accumulator after the squarings and the product, before the last comparison. *)
Lemma power_product val : num_ok key val →
  let result := montgomery_mul key (Nat.iter 8 (square_twice key) (montgomery_mul key val (rr key))) val in
  num_ok key result ∧ (N | le_val result - le_val val ^ 65537) ∧ (le_val result = 0 ↔ le_val val = 0).
Proof.
  intros Hv result. destruct Hko as [Hkw _ Hi Hrr [q Hq] Ht].
  destruct (montgomery_mul_ok key Hkw Hi val (rr key) Hv Hrr) as (Hok&[r Hr]&Hpos&_).
  assert (Hf : form key (montgomery_mul key val (rr key)) (le_val val)).
  { split; [done|]. apply (base_cancel key Hkw Hi). exists (le_val val * q + r). rewrite Hr.
    replace (le_val (rr key)) with (base n * base n + q * N) by lia. ring. }
  assert (Hs := squares_form key Hkw Hi _ _ 8 Hf). destruct (montgomery_mul_out key Hkw Hi _ val _ Hs Hv) as [Hrok Hdiv]. fold result in Hrok, Hdiv.
  split; [done|]. change (4 ^ Z.of_nat 8) with 65536 in Hdiv. rewrite <-(Z.pow_1_r (le_val val)) in Hdiv at 2. rewrite <-Z.pow_add_r in Hdiv by lia.
  split; [done|]. assert (Hvr := le_val_range _ (proj2 Hv)). assert (Hrr' := le_val_range _ (proj2 Hrok)). split; intros H0.
  - destruct (decide (le_val val = 0)); [done|exfalso].
    assert (H : 0 < le_val result); [|lia]. apply (montgomery_mul_ok key Hkw Hi); [apply Hs|done| |lia].
    apply (squares_pos key Hkw Hi _ _ 8 Hf). apply Hpos; [lia|apply rr_positive].
  - by apply (montgomery_mul_ok key Hkw Hi _ val (proj1 Hs) Hv).
Qed.

(** The power, and the case in which there is none. *)
Lemma pow_mod_ok inout : bytes inout → length inout = (4 * n)%nat →
  let v := OS2IP inout in let w := v ^ 65537 mod N in
  pow_mod key inout = if (w =? 0) && negb (v =? 0) then None else Some (0, I2OSP (4 * n) w).
Proof.
  intros Hb Hl v w. destruct (load_words n inout Hb Hl) as (Hvl&Hvw&Hvv). unfold pow_mod.
  set (val := (λ i, get_unaligned_be32 inout (n - 1 - i)) <$> seq 0 n) in *.
  rewrite (proj2 (Nat.ltb_ge _ _)) by (apply Hko). destruct (power_product val) as (Hrok&[q Hq]&H0); [done|].
  set (result := montgomery_mul key _ val) in *. rewrite Hvv in Hq, H0. fold v in Hq, H0. set (P := v ^ 65537) in *. clearbody P. assert (Hkw := ko_words _ Hko). assert (Ht := ko_top _ Hko).
  rewrite (greater_equal_ok key Hkw) by done. assert (HR := le_val_range _ (proj2 Hrok)). rewrite (proj1 Hrok) in HR. pose proof base_large.
  assert (Ew : w = le_val result mod N).
  { unfold w. replace (le_val result) with (P + q * N) by lia. by rewrite Z.mod_add by lia. }
  assert (Hstore : ∀ l, num_ok key l → foldl (λ buf i, put_unaligned_be32 (l !!! (n - 1 - i)%nat) buf i) inout (seq 0 n) = I2OSP (4 * n) (le_val l)).
  { intros l [Hll Hlw]. pose proof (store_words l inout ltac:(lia)) as Hs. rewrite Hll in Hs. by rewrite Hs, <-Hll, I2OSP_words. }
  destruct (Z.eqb_spec (le_val result) N) as [Heq|Hne]; [|destruct (Z.ltb_spec N (le_val result)) as [Hlt|Hge]]; cbn [mbind option_bind].
  - rewrite Ew, Heq, Z.mod_same by lia. rewrite Z.eqb_refl. destruct (Z.eqb_spec v 0) as [E|]; [|done]. apply H0 in E. lia.
  - assert (Es : le_val result mod N = le_val result - N) by (symmetry; apply (Z.mod_unique_pos _ _ 1); lia).
    destruct (subtract_modulus_ok key Hkw result Hrok) as [Hsok Hsv]. rewrite Z.mod_small in Hsv by lia.
    rewrite Hstore, Hsv, Ew, Es by done. by rewrite (proj2 (Z.eqb_neq _ _)) by lia.
  - rewrite Hstore by done. rewrite Ew, Z.mod_small by lia. destruct (Z.eqb_spec v 0) as [E|E]; [by rewrite andb_false_r|].
    rewrite (proj2 (Z.eqb_neq _ _)) by (rewrite H0; lia). done.
Qed.

(** C7: for a key as it is stored and a buffer of its length, [pow_mod] puts
    the power 65537 of the number in the buffer, modulo the modulus, into the
    buffer. The comparison with the modulus reads outside of the arrays in one
    case: when the power is 0 for a number that is not, as for the modulus
    itself. *)
Theorem pow_mod_correct inout : bytes inout → length inout = (4 * n)%nat →
  let v := OS2IP inout in let w := v ^ 65537 mod N in
  pow_mod key inout = if (w =? 0) && negb (v =? 0) then None else Some (0, I2OSP (4 * n) w).
Proof. apply pow_mod_ok. Qed.
End PowMod.

(** ** A small key *)

Module SampleKey.

Definition key : rsa_public_key := RsaKey 2 0xfffffff [0x10000001; 0x9000f00d] [0x592c6f56; 0x81b9335].

Lemma key_ok : rsa_key_ok key.
Proof.
  assert (H : ∀ l, length l = 2%nat → forallb (λ w, (0 <=? w) && (w <? 2 ^ 32)) l = true → length l = 2%nat ∧ words32 l).
  { intros l Hl Hf. split; [done|]. apply Forall_forall. intros w Hw. rewrite forallb_forall in Hf. unfold isword. specialize (Hf w). rewrite <-list_elem_of_In in Hf. specialize (Hf Hw). lia. }
  split; [split; [cbn; lia|by apply H]|cbn; lia|split; [by vm_compute|by vm_compute]|by apply H| |by vm_compute].
  exists (-32793377530568741034). by vm_compute.
Qed.

Definition message : list Z := [0; 1; 2; 3; 4; 5; 6; 7].

Lemma message_bytes : bytes message.
Proof. by repeat (apply Forall_cons_2; [done|]). Qed.

Lemma pow_mod_correct_witness (v := OS2IP message) (w := v ^ 65537 mod le_val (modulus key)) :
  pow_mod key message = if (w =? 0) && negb (v =? 0) then None else Some (0, I2OSP 8 w).
Proof. exact (pow_mod_correct key key_ok message message_bytes eq_refl). Defined.

Example message_power : pow_mod key message = Some (0, I2OSP 8 3910942974495553045).
Proof. vm_compute. reflexivity. Qed.

(** The modulus as a signature: the code reads outside of the arrays. *)
Example modulus_as_signature : pow_mod key (I2OSP 8 (le_val (modulus key))) = None.
Proof. vm_compute. reflexivity. Qed.

End SampleKey.
