(* ===== verification/RsaVerify.v ===== *)
(** * RSA: verification of signatures

    Translation of the rest of [lib/rsa/rsa-verify.c] and of [fdtdec_get_int]:
    the PKCS #1 padding, the keys of the device tree, and the search for a key
    that verifies a signature. Device trees are read through the class [Fdt],
    which stands for libfdt; the digest is [Sha1], the name of a key is written
    with [snprintf] of [Vsprintf]. *)

From S2P Require Import Prelude Word32 Div64 BlockHash Sha1 Vsprintf Montgomery.
From stdpp Require Import base option list.
From Stdlib Require Import ZArith Lia.
Local Open Scope Z_scope.

(** ** Device trees *)

(** A property is a pointer into the tree, the bytes from there on, and a
    length. The functions return negative numbers for errors, and
    [fdt_next_node] also the new depth. *)
Class Fdt (blob : Type) := {
  fdt_getprop : blob → Z → list Z → option (list Z * Z);
  fdt_subnode_offset : blob → Z → list Z → Z;
  fdt_next_node : blob → Z → Z → Z * Z;
  fdt_totalsize : blob → Z;
}.

(** What libfdt documents of [fdt_next_node]: offsets grow inside of the tree;
    a tree is made of bytes. *)
Class FdtLaws (blob : Type) `{Fdt blob} := {
  next_node_grows b offset depth offset' depth' :
    fdt_next_node b offset depth = (offset', depth') → 0 ≤ offset' → offset < offset' < fdt_totalsize b;
  prop_bytes b node name p l : fdt_getprop b node name = Some (p, l) → bytes p;
}.

(** What a call does: it returns a number, accesses memory it must not, or runs
    out of fuel. *)
Inductive outcome := Ret (z : Z) | Undefined | NoFuel.

Definition EIO : Z := 5.
Definition EBADF : Z := 9.
Definition ENOENT : Z := 2.
Definition EACCES : Z := 13.
Definition EFAULT : Z := 14.

Definition SHA1_SUM_LEN : nat := 20.

Definition padding_sha1_rsa2048 : list Z := [
  0x00; 0x01; 0xff; 0xff; 0xff; 0xff; 0xff; 0xff; 0xff; 0xff; 0xff; 0xff; 0xff; 0xff; 0xff; 0xff;
  0xff; 0xff; 0xff; 0xff; 0xff; 0xff; 0xff; 0xff; 0xff; 0xff; 0xff; 0xff; 0xff; 0xff; 0xff; 0xff;
  0xff; 0xff; 0xff; 0xff; 0xff; 0xff; 0xff; 0xff; 0xff; 0xff; 0xff; 0xff; 0xff; 0xff; 0xff; 0xff;
  0xff; 0xff; 0xff; 0xff; 0xff; 0xff; 0xff; 0xff; 0xff; 0xff; 0xff; 0xff; 0xff; 0xff; 0xff; 0xff;
  0xff; 0xff; 0xff; 0xff; 0xff; 0xff; 0xff; 0xff; 0xff; 0xff; 0xff; 0xff; 0xff; 0xff; 0xff; 0xff;
  0xff; 0xff; 0xff; 0xff; 0xff; 0xff; 0xff; 0xff; 0xff; 0xff; 0xff; 0xff; 0xff; 0xff; 0xff; 0xff;
  0xff; 0xff; 0xff; 0xff; 0xff; 0xff; 0xff; 0xff; 0xff; 0xff; 0xff; 0xff; 0xff; 0xff; 0xff; 0xff;
  0xff; 0xff; 0xff; 0xff; 0xff; 0xff; 0xff; 0xff; 0xff; 0xff; 0xff; 0xff; 0xff; 0xff; 0xff; 0xff;
  0xff; 0xff; 0xff; 0xff; 0xff; 0xff; 0xff; 0xff; 0xff; 0xff; 0xff; 0xff; 0xff; 0xff; 0xff; 0xff;
  0xff; 0xff; 0xff; 0xff; 0xff; 0xff; 0xff; 0xff; 0xff; 0xff; 0xff; 0xff; 0xff; 0xff; 0xff; 0xff;
  0xff; 0xff; 0xff; 0xff; 0xff; 0xff; 0xff; 0xff; 0xff; 0xff; 0xff; 0xff; 0xff; 0xff; 0xff; 0xff;
  0xff; 0xff; 0xff; 0xff; 0xff; 0xff; 0xff; 0xff; 0xff; 0xff; 0xff; 0xff; 0xff; 0xff; 0xff; 0xff;
  0xff; 0xff; 0xff; 0xff; 0xff; 0xff; 0xff; 0xff; 0xff; 0xff; 0xff; 0xff; 0xff; 0xff; 0xff; 0xff;
  0xff; 0xff; 0xff; 0xff; 0xff; 0xff; 0xff; 0xff; 0xff; 0xff; 0xff; 0xff; 0x00; 0x30; 0x21; 0x30;
  0x09; 0x06; 0x05; 0x2b; 0x0e; 0x03; 0x02; 0x1a; 0x05; 0x00; 0x04; 0x14].

(** [memcmp] on two buffers. *)
Fixpoint memcmp (count : nat) (cs ct : list Z) : option Z :=
  match count with
  | O => Some 0
  | Datatypes.S count =>
      match cs, ct with
      | a :: cs, b :: ct => if a - b =? 0 then memcmp count cs ct else Some (a - b)
      | _, _ => None
      end
  end.

(** Null pointers are [None]. *)
Definition rsa_verify_key (key : option rsa_public_key) (sig : option (list Z)) (sig_len : Z) (hash : option (list Z)) : outcome :=
  match key, sig, hash with
  | Some key, Some sig, Some hash =>
      if negb (sig_len =? u32 (Z.of_nat (len key) * 4)) then Ret (- EINVAL)
      else if Z.of_nat (RSA_MAX_SIG_BITS / 8) <? sig_len then Ret (- EINVAL)
      else if Z.of_nat (length sig) <? sig_len then Undefined
      else
        let buf := take (Z.to_nat sig_len) sig in
        match pow_mod key buf with
        | None => Undefined
        | Some (ret, buf) =>
            if negb (ret =? 0) then Ret ret
            else
              let pad_len := (RSA2048_BYTES - SHA1_SUM_LEN)%nat in
              match memcmp pad_len buf padding_sha1_rsa2048 with
              | None => Undefined
              | Some c =>
                  if negb (c =? 0) then Ret (- EINVAL)
                  else
                    match memcmp (Z.to_nat (u32 (sig_len - Z.of_nat pad_len))) (drop pad_len buf) hash with
                    | None => Undefined
                    | Some c => Ret (if negb (c =? 0) then - EACCES else 0)
                    end
              end
        end
  | _, _, _ => Ret (- EIO)
  end.

(** ** Keys *)

(** [fdt32_to_cpu] of the word at a place. *)
Definition fdt32_to_cpu (p : list Z) (i : nat) : Z := be_word (take 4 (drop (4 * i) p)).

(** The array, when the words are there. *)
Definition rsa_convert_big_endian (src : list Z) (len : nat) : option (list Z) :=
  if (length src <? 4 * len)%nat then None else Some ((λ i, fdt32_to_cpu src (len - 1 - i)) <$> seq 0 len).

(** "rsa,n0-inverse", "rsa,num-bits", "rsa,modulus", "rsa,r-squared",
    "signature" and "key-%s". *)
Definition prop_n0inv : list Z := [114; 115; 97; 44; 110; 48; 45; 105; 110; 118; 101; 114; 115; 101].
Definition prop_bits : list Z := [114; 115; 97; 44; 110; 117; 109; 45; 98; 105; 116; 115].
Definition prop_modulus : list Z := [114; 115; 97; 44; 109; 111; 100; 117; 108; 117; 115].
Definition prop_rr : list Z := [114; 115; 97; 44; 114; 45; 115; 113; 117; 97; 114; 101; 100].
Definition FIT_SIG_NODENAME : list Z := [115; 105; 103; 110; 97; 116; 117; 114; 101].
Definition key_format : list Z := [107; 101; 121; 45; 37; 115].

Section Verify.
Context {blob : Type} `{Fdt blob}.

(** The value as a pattern of 32 bits. *)
Definition fdtdec_get_int (b : blob) (node : Z) (prop_name : list Z) (default_val : Z) : Z :=
  match fdt_getprop b node prop_name with
  | Some (cell, len) => if 4 <=? len then fdt32_to_cpu cell 0 else default_val
  | None => default_val
  end.

Record image_sign_info := SignInfo {
  keyname : option (list Z);
  fit : blob;
  node_offset : Z;
  fdt_blob : blob;
  required_keynode : Z
}.

Definition rsa_verify_with_keynode (info : image_sign_info) (hash : list Z) (sig : option (list Z)) (sig_len node : Z) : outcome :=
  let blob := fdt_blob info in
  if node <? 0 then Ret (- EBADF)
  else match fdt_getprop blob node prop_n0inv with
  | None => Ret (- EFAULT)
  | Some _ =>
      let key_len := u32 (fdtdec_get_int blob node prop_bits 0) in
      let n0inv := u32 (fdtdec_get_int blob node prop_n0inv 0) in
      match fdt_getprop blob node prop_modulus, fdt_getprop blob node prop_rr with
      | Some (modulus, _), Some (rr, _) =>
          if key_len =? 0 then Ret (- EFAULT)
          else if (Z.of_nat RSA_MAX_KEY_BITS <? key_len) || (key_len <? Z.of_nat RSA_MIN_KEY_BITS) then Ret (- EFAULT)
          else
            let len := Z.to_nat (key_len / (4 * 8)) in
            match rsa_convert_big_endian modulus len, rsa_convert_big_endian rr len with
            | Some modulus, Some rr => rsa_verify_key (Some (RsaKey len n0inv modulus rr)) sig sig_len (Some hash)
            | _, _ => Undefined
            end
      | _, _ => Ret (- EFAULT)
      end
  end.

(** The digest of the regions; [ctx_buf] is what the buffer of the context
    holds before. *)
Definition hash_regions (ctx_buf : list Z) (region : list (list Z)) : list Z :=
  sha1_finish (foldl sha1_update (sha1_starts ctx_buf) region).

(** The text up to the NUL. *)
Fixpoint c_string (l : list Z) : list Z :=
  match l with
  | [] => []
  | c :: l => if c =? 0 then [] else c :: c_string l
  end.

(** [snprintf(name, sizeof(name), "key-%s", info->keyname)] in a memory that
    holds [name] from address 1 on and the name of the key behind it. *)
Definition hint_name (keyname : option (list Z)) : option (list Z) :=
  let text := default [] keyname in
  let m := 0 :: replicate 100 0 ++ text ++ [0] in
  let name := 1 in
  '(m, _) ← vsnprintf m name 100 key_format [APtr (if keyname is Some _ then 101 else 0)];
  Some (c_string (drop (Z.to_nat name) m)).

(** The loop over the nodes below the signature node. *)
Fixpoint try_keys (fuel : nat) (info : image_sign_info) (hash : list Z) (sig : option (list Z)) (sig_len : Z)
    (node noffset ndepth : Z) (ret : Z) : outcome :=
  match fuel with
  | O => NoFuel
  | Datatypes.S fuel =>
      if (0 <=? noffset) && (0 <? ndepth) then
        let next ret :=
          let '(noffset, ndepth) := fdt_next_node (fit info) noffset ndepth in
          try_keys fuel info hash sig sig_len node noffset ndepth ret in
        if (ndepth =? 1) && negb (noffset =? node) then
          match rsa_verify_with_keynode info hash sig sig_len noffset with
          | Ret ret => if ret =? 0 then Ret ret else next ret
          | o => o
          end
        else next ret
      else Ret ret
  end.

Definition rsa_verify (fuel : nat) (ctx_buf : list Z) (info : image_sign_info) (region : list (list Z)) (sig : option (list Z)) (sig_len : Z) : outcome :=
  let blob := fdt_blob info in
  let sig_node := fdt_subnode_offset blob 0 FIT_SIG_NODENAME in
  if sig_node <? 0 then Ret (- ENOENT)
  else
    let hash := hash_regions ctx_buf region in
    let search (_ : unit) :=
      match hint_name (keyname info) with
      | None => Undefined
      | Some name =>
          let node := fdt_subnode_offset blob sig_node name in
          match rsa_verify_with_keynode info hash sig sig_len node with
          | Ret ret =>
              if ret =? 0 then Ret ret
              else
                let '(noffset, ndepth) := fdt_next_node (fit info) sig_node 0 in
                try_keys fuel info hash sig sig_len node noffset ndepth ret
          | o => o
          end
      end in
    if negb (required_keynode info =? -1) then
      match rsa_verify_with_keynode info hash sig sig_len (required_keynode info) with
      | Ret ret => if ret =? 0 then Ret ret else search tt
      | o => o
      end
    else search tt.

End Verify.
