(* ===== verification/RsaVerifySpec.v ===== *)
(** * RSA: what a verified signature means

    [rsa_verify_key] is compared with the definition of PKCS #1: the power 65537
    of the signature modulo the modulus is the padded digest. A success of
    [rsa_verify] then comes from a key of the device tree for which this holds,
    and the search ends. *)

From S2P Require Import Prelude Word32 Div64 BlockHash Sha1 Vsprintf VsprintfBuf Montgomery RsaVerify.
From stdpp Require Import base option list.
From Stdlib Require Import ZArith Zpow_facts Lia.
Local Open Scope Z_scope.

(** ** Comparison of buffers *)

Lemma memcmp_spec count : ∀ cs ct, (count ≤ length cs)%nat → (count ≤ length ct)%nat →
  ∃ c, memcmp count cs ct = Some c ∧ (c = 0 ↔ take count cs = take count ct).
Proof.
  induction count as [|count IH]; intros cs ct Hs Ht; [by exists 0|]. destruct cs as [|a cs]; [simpl in Hs; lia|]. destruct ct as [|b ct]; [simpl in Ht; lia|].
  cbn [memcmp]. rewrite !firstn_cons. destruct (Z.eqb_spec (a - b) 0) as [E|E].
  - destruct (IH cs ct) as (c&Hc&Hi); [simpl in *; lia..|]. exists c. split; [done|]. rewrite Hi. replace b with a by lia. split; [by intros ->|by intros [= ->]].
  - exists (a - b). split; [done|]. split; [lia|]. intros [= -> _]. lia.
Qed.

(** ** One key *)

(** The encoded message of PKCS #1 for a digest. *)
Definition EM (hash : list Z) : list Z := padding_sha1_rsa2048 ++ hash.

(** The result by the number that the signature stands for. *)
Definition verdict (N : Z) (sig hash : list Z) : outcome :=
  let v := OS2IP sig in
  let w := v ^ 65537 mod N in
  if (w =? 0) && negb (v =? 0) then Undefined
  else if decide (I2OSP 256 w = EM hash) then Ret 0
  else if decide (take 236 (I2OSP 256 w) = padding_sha1_rsa2048) then Ret (- EACCES)
  else Ret (- EINVAL).

Lemma rsa_verify_key_verdict key sig hash : rsa_key_ok key → len key = 64%nat → bytes sig → (256 ≤ length sig)%nat → length hash = 20%nat →
  rsa_verify_key (Some key) (Some sig) 256 (Some hash) = verdict (le_val (modulus key)) (take 256 sig) hash.
Proof.
  intros Hk Hl Hb Hs Hh. unfold rsa_verify_key. rewrite Hl. change (negb (256 =? u32 (Z.of_nat 64 * 4))) with false. cbn [RSA_MAX_SIG_BITS].
  change (Z.of_nat (RSA_MAX_SIG_BITS / 8) <? 256) with false. cbv iota. rewrite (proj2 (Z.ltb_ge _ _)) by lia. change (Z.to_nat 256) with 256%nat.
  assert (Ht : bytes (take 256 sig)) by (by apply Forall_take). assert (Htl : length (take 256 sig) = (4 * len key)%nat) by (rewrite length_take; lia).
  cbv zeta. rewrite (pow_mod_ok key Hk _ Ht Htl). unfold verdict. rewrite Hl. change (4 * 64)%nat with 256%nat. set (v := OS2IP (take 256 sig)). set (w := v ^ 65537 mod _). clearbody w.
  destruct ((w =? 0) && negb (v =? 0)); [done|]. cbv iota beta. change (negb (0 =? 0)) with false. cbv iota.
  assert (Hi := I2OSP_length 256 w). set (em := I2OSP 256 w) in *. clearbody em. change (RSA2048_BYTES - SHA1_SUM_LEN)%nat with 236%nat.
  destruct (memcmp_spec 236 em padding_sha1_rsa2048) as (c&->&Hc); [lia|done|]. change (take 236 padding_sha1_rsa2048) with padding_sha1_rsa2048 in Hc.
  change (Z.to_nat (u32 (256 - Z.of_nat 236))) with 20%nat. destruct (memcmp_spec 20 (drop 236 em) hash) as (d&->&Hd); [rewrite length_drop; lia|lia|].
  rewrite !take_ge in Hd by (rewrite ?length_drop; lia).
  destruct (decide (em = EM hash)) as [E|E].
  - subst em. unfold EM in *. rewrite (proj2 Hc), (proj2 Hd) by done. done.
  - destruct (decide (take 236 em = padding_sha1_rsa2048)) as [E'|E'].
    + apply Hc in E' as E0. rewrite E0. cbn [Z.eqb negb]. destruct (Z.eqb_spec d 0) as [E1|]; [|done]. apply Hd in E1. destruct E. by rewrite <-(take_drop 236 em), E', E1.
    + destruct (Z.eqb_spec c 0) as [E0|]; [by apply Hc in E0|done].
Qed.

Lemma OS2IP_I2OSP k w : 0 ≤ w < 256 ^ Z.of_nat k → OS2IP (I2OSP k w) = w.
Proof.
  revert w. induction k as [|k IH]; intros w Hw; [cbn in *; lia|]. cbn [I2OSP]. rewrite OS2IP_app. change (length [w mod 256]) with 1%nat.
  rewrite Nat2Z.inj_succ, Z.pow_succ_r in Hw by lia.
  rewrite IH by (split; [apply Z.div_pos; lia|apply Z.div_lt_upper_bound; lia]). change (256 ^ Z.of_nat 1) with 256.
  pose proof (Z.div_mod w 256 ltac:(lia)) as E. unfold OS2IP. cbn [foldl]. lia.
Qed.

(** The signature stands for the encoded message. *)
Definition signs (key : rsa_public_key) (sig hash : list Z) : Prop :=
  OS2IP (take 256 sig) ^ 65537 mod le_val (modulus key) = OS2IP (EM hash).

(** The modulus of a key of 64 words. *)
Lemma key_bounds key : rsa_key_ok key → len key = 64%nat → 2 < le_val (modulus key) < 256 ^ Z.of_nat 256.
Proof.
  intros Hk Hl. pose proof (base_large key Hk) as Hb. pose proof (ko_top key Hk) as Ht. destruct (kw_modulus key (ko_words key Hk)) as [Hml Hmw].
  pose proof (le_val_range _ Hmw) as Hr. rewrite Hml in Hr. split; [lia|]. rewrite Hl in Hr. unfold base in Hr.
  replace (256 ^ Z.of_nat 256) with (2 ^ (32 * Z.of_nat 64)) by (by vm_compute). lia.
Qed.

Lemma verdict_sound key sig hash : rsa_key_ok key → len key = 64%nat → verdict (le_val (modulus key)) (take 256 sig) hash = Ret 0 → signs key sig hash.
Proof.
  intros Hk Hl. pose proof (key_bounds key Hk Hl) as Hb. unfold verdict, signs. set (v := OS2IP _). set (w := v ^ 65537 mod _).
  destruct (_ && _); [done|]. destruct (decide (I2OSP 256 w = EM hash)) as [E|]; [|by destruct (decide _)]. intros _. rewrite <-E, OS2IP_I2OSP; [done|].
  pose proof (Z.mod_pos_bound (v ^ 65537) (le_val (modulus key)) ltac:(lia)) as Hw. fold w in Hw. clearbody w. lia.
Qed.

(** The encoded message is not 0. *)
Lemma EM_length hash : length hash = 20%nat → length (EM hash) = 256%nat.
Proof. intros Hh. unfold EM. rewrite length_app, Hh. done. Qed.

Lemma I2OSP_OS2IP b : bytes b → I2OSP (length b) (OS2IP b) = b.
Proof.
  induction b as [|x b IH] using rev_ind; intros Hb; [done|]. apply Forall_app in Hb as [Hb Hx]. apply Forall_cons in Hx as [Hx _]. unfold isbyte in Hx.
  rewrite length_app, Nat.add_1_r. cbn [I2OSP]. assert (E : OS2IP (b ++ [x]) = OS2IP b * 256 + x) by by rewrite OS2IP_app.
  rewrite E, Z.div_add_l, Z.div_small, Z.add_0_r, IH by (done || lia). f_equal. f_equal. rewrite Z.add_comm, Z.mod_add by lia. apply Z.mod_small. lia.
Qed.

Lemma OS2IP_nonneg b : bytes b → 0 ≤ OS2IP b.
Proof.
  intros Hb. assert (H : ∀ v, 0 ≤ v → 0 ≤ foldl (λ v x, v * 256 + x) v b); [|by apply H].
  induction Hb as [|x b Hx _ IH]; intros v Hv; [done|]. cbn [foldl]. apply IH. unfold isbyte in Hx. lia.
Qed.

Lemma EM_positive hash : bytes hash → 0 < OS2IP (EM hash).
Proof.
  intros Hh. unfold EM. rewrite OS2IP_app. apply Z.add_pos_nonneg; [|by apply OS2IP_nonneg].
  apply Z.mul_pos_pos; [by vm_compute|]. apply Z.pow_pos_nonneg; lia.
Qed.

Lemma padding_bytes : bytes padding_sha1_rsa2048.
Proof. unfold padding_sha1_rsa2048. repeat (apply Forall_cons_2; [done|]). constructor. Qed.

Lemma verdict_complete key sig hash : rsa_key_ok key → bytes hash → length hash = 20%nat → signs key sig hash →
  verdict (le_val (modulus key)) (take 256 sig) hash = Ret 0.
Proof.
  intros Hk Hh Hl Hs. unfold verdict, signs in *. rewrite Hs. pose proof (EM_positive hash Hh) as Hp. rewrite (proj2 (Z.eqb_neq (OS2IP (EM hash)) 0)) by lia. cbn [andb].
  rewrite decide_True; [done|]. rewrite <-(EM_length hash Hl). apply I2OSP_OS2IP. unfold EM. apply Forall_app_2; [apply padding_bytes|done].
Qed.

(** ** The name of the hint *)

Section Name.
Context (buf : Z) (n : nat) (m : list Z).
Notation sink := (TextSink true buf n).

(** The string at [p], behind the buffer. *)
Context (p : Z) (t : list Z).
Hypothesis Hp : 0 < p.
Hypothesis Hbuf : 0 ≤ buf ∧ buf + Z.of_nat n ≤ p.
Hypothesis Hm : ∀ i, (i < length t)%nat → m !! Z.to_nat (p + Z.of_nat i) = t !! i.
Hypothesis Hend : m !! Z.to_nat (p + Z.of_nat (length t)) = Some 0.
Hypothesis Ht : Forall (λ c, c ≠ 0) t.

Lemma read_char i o : (i ≤ length t)%nat → read (H := sink) (At p) i (mkText m o) = if decide (i < length t)%nat then t !! i else Some 0.
Proof.
  intros Hi. cbn. unfold masked. rewrite (proj2 (Z.ltb_ge _ (buf + _))), andb_false_r by lia. unfold load8. rewrite (proj2 (Z.leb_le _ _)) by lia.
  case_decide; [by apply Hm|]. by replace i with (length t) by lia.
Qed.

Lemma strnlen_text fuel o : ∀ i count, (i ≤ length t)%nat → (length t - i < fuel)%nat → Z.of_nat (length t - i) < count →
  strnlen_loop (H := sink) fuel count (At p) i (mkText m o) = Some (length t).
Proof.
  induction fuel as [|fuel IH]; intros i count Hi Hf Hc; [lia|]. cbn [strnlen_loop]. rewrite (proj2 (Z.eqb_neq _ _)) by lia.
  rewrite read_char by done. case_decide as Hd.
  - destruct (lookup_lt_is_Some_2 t i Hd) as [c Ec]. rewrite Ec. cbn [mbind option_bind].
    assert (c ≠ 0) by (by apply (Forall_lookup_1 _ _ _ _ Ht Ec)). rewrite (proj2 (Z.eqb_neq _ _)) by done. apply IH; lia.
  - cbn. f_equal. lia.
Qed.

Lemma copy_text k : ∀ i o, (i + k = length t)%nat → buf + Z.of_nat (length o) + Z.of_nat k < 2 ^ 32 → copy_loop (H := sink) k i (At p) (mkText m o) = Some (mkText m (o ++ drop i t)).
Proof.
  induction k as [|k IH]; intros i o Hk Ho; cbn [copy_loop].
  - by rewrite drop_ge, app_nil_r by lia.
  - rewrite read_char by lia. rewrite decide_True by lia. destruct (lookup_lt_is_Some_2 t i) as [c Ec]; [lia|]. rewrite Ec. cbn [mbind option_bind addch TextSink t_text t_mem orb andb].
    rewrite (proj2 (Z.ltb_lt _ _)) by lia. cbn [mbind option_bind]. rewrite IH by (rewrite ?length_app; cbn [length]; lia). rewrite (drop_S t c i) by done. by rewrite <-app_assoc.
Qed.

Lemma string_text o : (length t < length m)%nat → buf + Z.of_nat (length o) + Z.of_nat (length t) < 2 ^ 32 - 1 →
  string (H := sink) (At p) (-1) (-1) 0 (mkText m o) = Some (mkText m (o ++ t)).
Proof.
  intros Hl H32. unfold string. rewrite (proj2 (Z.eqb_neq p 0)) by lia. change (u32 (-1)) with (2 ^ 32 - 1). cbn [source_size].
  change (extent (mkText m o)) with (length m). rewrite (strnlen_text _ o 0) by lia. cbn [mbind option_bind].
  assert (Hw : ∀ fw s, fw < 0 → width (H := sink) (Z.of_nat (length t)) fw s = Some (fw - 1, s)).
  { intros fw s Hfw. unfold width. cbn [width_loop]. by rewrite (proj2 (Z.ltb_ge _ _)) by lia. }
  change (has 0 LEFT) with false. cbv iota. rewrite Hw by lia. cbn [mbind option_bind]. rewrite (copy_text (length t) 0 o) by lia. cbn [mbind option_bind].
  rewrite Hw by lia. cbn. by rewrite drop_0.
Qed.

Lemma format_key : (length t < length m)%nat → buf + 4 + Z.of_nat (length t) < 2 ^ 32 - 1 →
  format_text true buf n m key_format [APtr p] = Some (m, [107; 101; 121; 45] ++ t).
Proof.
  intros Hl H32. unfold format_text, format, key_format.
  assert (Hadd : ∀ c o, Z.of_nat (length o) < 4 → addch (Sink := sink) c (mkText m o) = Some (mkText m (o ++ [c]))).
  { intros c o Ho. cbn [addch TextSink t_text t_mem orb andb]. by rewrite (proj2 (Z.ltb_lt _ _)) by lia. }
  do 4 (cbn [format_loop negb Z.eqb Pos.eqb length]; rewrite Hadd by (cbn; lia); cbn [mbind option_bind app]).
  cbn -[string]. rewrite string_text by (cbn [length]; lia). done.
Qed.
End Name.

Lemma c_string_text t l : Forall (λ c, c ≠ 0) t → c_string (t ++ 0 :: l) = t.
Proof.
  induction 1 as [|c t Hc _ IH]; [done|]. cbn [app c_string]. rewrite (proj2 (Z.eqb_neq _ _)) by done. by rewrite IH.
Qed.

(** The name that is looked up: "key-" and the hint, cut to the array. *)
Lemma hint_name_ok t : Forall (λ c, c ≠ 0) t → Z.of_nat (length t) < 2 ^ 31 → hint_name (Some t) = Some (take 99 ([107; 101; 121; 45] ++ t)).
Proof.
  intros Ht Hl. unfold hint_name, default, from_option, id. cbv beta iota zeta. set (m := 0 :: replicate 100 0 ++ t ++ [0]).
  assert (Hm : length m = (length t + 102)%nat) by (unfold m; cbn [length]; rewrite !length_app, length_replicate; cbn [length]; lia).
  assert (Hat : ∀ i, m !! Z.to_nat (101 + Z.of_nat i) = (t ++ [0]) !! i).
  { intros i. replace (Z.to_nat (101 + Z.of_nat i)) with (Datatypes.S (100 + i)) by lia. unfold m. rewrite lookup_cons.
    rewrite lookup_app_r by (rewrite length_replicate; lia). rewrite length_replicate. f_equal. lia. }
  assert (Hf : format_text true 1 (Z.to_nat 100) m key_format [APtr 101] = Some (m, [107; 101; 121; 45] ++ t)).
  { apply format_key; [lia|lia| | |done|lia|cbn; lia]; intros; rewrite Hat; [by rewrite lookup_app_l|].
    rewrite lookup_app_r by lia. by rewrite Nat.sub_diag. }
  clearbody m. rewrite (vsnprintf_ok m 1 100 key_format _ m _ ltac:(lia) ltac:(lia) ltac:(lia) ltac:(lia) Hf); [|rewrite length_app; cbn [length]; lia..].
  cbn [mbind option_bind]. change (0 <? 100) with true. cbv iota. f_equal. change (Z.to_nat 100 - 1)%nat with 99%nat.
  set (text := take 99 _). assert (Hlt : (length text ≤ 99)%nat) by (unfold text; rewrite length_take; lia).
  unfold splice. rewrite drop_app_ge by (rewrite length_take; lia). rewrite length_take, Nat.min_l, Nat.sub_diag, drop_0, <-app_assoc by lia.
  apply c_string_text. unfold text. apply Forall_take, Forall_app_2; [|done]. by repeat (apply Forall_cons_2; [lia|]).
Qed.

(** ** Keys of the device tree *)

Lemma convert_ok p n : bytes p → (4 * n ≤ length p)%nat → ∃ l, rsa_convert_big_endian p n = Some l ∧
  length l = n ∧ words32 l ∧ le_val l = OS2IP (take (4 * n) p).
Proof.
  intros Hb Hl. unfold rsa_convert_big_endian. rewrite (proj2 (Nat.ltb_ge _ _)) by lia. eexists; split; [done|].
  assert (Hb' : bytes (take (4 * n) p)) by by apply Forall_take. assert (Hl' : length (take (4 * n) p) = (4 * n)%nat) by (rewrite length_take; lia).
  destruct (load_words n _ Hb' Hl') as (H1&H2&H3). erewrite list_fmap_ext; [by split_and!|].
  intros i x [-> Hi]%lookup_seq. cbn [Nat.add]. destruct (get_unaligned_be32_ok (take (4 * n) p) (n - 1 - i) Hb' ltac:(lia)) as [-> _].
  unfold fdt32_to_cpu, be_word, OS2IP. rewrite take_take, Nat.min_id. f_equal.
  rewrite !take_drop_commute, take_take. do 2 f_equal. lia.
Qed.

Section Verify.
Context {blob : Type} `{Fdt blob, !FdtLaws blob}.

(** The key that a node describes. *)
Record key_at (b : blob) (node : Z) (key : rsa_public_key) : Prop := {
  ka_node : 0 ≤ node;
  ka_len : len key = 64%nat;
  ka_bits : u32 (fdtdec_get_int b node prop_bits 0) = 2048;
  ka_inverse : is_Some (fdt_getprop b node prop_n0inv) ∧ n0inv key = u32 (fdtdec_get_int b node prop_n0inv 0);
  ka_modulus : ∃ p l, fdt_getprop b node prop_modulus = Some (p, l) ∧ (256 ≤ length p)%nat ∧
    length (modulus key) = 64%nat ∧ words32 (modulus key) ∧ le_val (modulus key) = OS2IP (take 256 p);
  ka_rr : ∃ p l, fdt_getprop b node prop_rr = Some (p, l) ∧ (256 ≤ length p)%nat ∧
    length (rr key) = 64%nat ∧ words32 (rr key) ∧ le_val (rr key) = OS2IP (take 256 p);
}.

Lemma le_val_inj l1 : ∀ l2, length l1 = length l2 → words32 l1 → words32 l2 → le_val l1 = le_val l2 → l1 = l2.
Proof.
  induction l1 as [|x l1 IH]; intros [|y l2] Hl H1 H2 E; try done. apply Forall_cons in H1 as [Hx H1], H2 as [Hy H2]. cbn [le_val] in E. unfold isword in *.
  assert (x = y) by (assert (x mod 2 ^ 32 = y mod 2 ^ 32) by (rewrite <-(Z.mod_add x (le_val l1) (2 ^ 32)), <-(Z.mod_add y (le_val l2) (2 ^ 32)) by lia; f_equal; lia); rewrite !Z.mod_small in * by lia; done).
  subst y. f_equal. apply IH; [by injection Hl|done..|]. lia.
Qed.

(** Verifying with a node is verifying with its key. *)
Lemma keynode_key info hash sig sig_len node key : key_at (fdt_blob info) node key →
  rsa_verify_with_keynode info hash sig sig_len node = rsa_verify_key (Some key) sig sig_len (Some hash).
Proof.
  intros [Hn Hl Hb [[[p0 l0] Hi] Hinv] (p&l&Hm&Hpl&Hml&Hmw&Hmv) (p'&l'&Hr&Hpl'&Hrl&Hrw&Hrv)]. unfold rsa_verify_with_keynode.
  rewrite (proj2 (Z.ltb_ge _ _)) by done. rewrite Hi, Hb, Hm, Hr. cbv zeta. change (Z.to_nat (2048 / (4 * 8))) with 64%nat. cbn [Z.eqb]. change (_ || _) with false. cbv iota.
  destruct (convert_ok p 64) as (a&->&Ha1&Ha2&Ha3); [by eapply prop_bytes|lia|]. destruct (convert_ok p' 64) as (b&->&Hb1&Hb2&Hb3); [by eapply prop_bytes|lia|].
  rewrite (le_val_inj a (modulus key)) by (done || congruence || by rewrite Hmv). rewrite (le_val_inj b (rr key)) by (done || congruence || by rewrite Hrv).
  rewrite <-Hinv, <-Hl. by destruct key.
Qed.

(** A success comes from a key, with a signature of its length. *)
Lemma keynode_success info hash sig sig_len node : rsa_verify_with_keynode info hash sig sig_len node = Ret 0 →
  ∃ key s, key_at (fdt_blob info) node key ∧ sig = Some s ∧ sig_len = 256 ∧ (256 ≤ length s)%nat.
Proof.
  unfold rsa_verify_with_keynode. destruct (Z.ltb_spec node 0) as [|Hn]; [done|]. destruct (fdt_getprop _ _ prop_n0inv) as [i|] eqn:Ei; [|done].
  destruct (fdt_getprop _ _ prop_modulus) as [[p l]|] eqn:Em; [|done]. destruct (fdt_getprop _ _ prop_rr) as [[p' l']|] eqn:Er; [|done].
  cbv zeta. destruct (_ =? 0) eqn:E0; [done|]. destruct (_ || _) eqn:Eb; [done|]. apply orb_false_iff in Eb as [E1%Z.ltb_ge E2%Z.ltb_ge].
  assert (Ebits : u32 (fdtdec_get_int (fdt_blob info) node prop_bits 0) = 2048) by (unfold RSA_MAX_KEY_BITS, RSA_MIN_KEY_BITS in *; lia).
  rewrite Ebits. change (Z.to_nat (2048 / (4 * 8))) with 64%nat.
  destruct (rsa_convert_big_endian p 64) as [a|] eqn:Ea; [|done]. destruct (rsa_convert_big_endian p' 64) as [b|] eqn:Eb; [|done].
  assert (Hl : ∀ q x, rsa_convert_big_endian q 64 = Some x → (256 ≤ length q)%nat).
  { intros q x. unfold rsa_convert_big_endian. destruct (Nat.ltb_spec (length q) (4 * 64)); [done|]. intros _. lia. }
  apply Hl in Ea as Hpl, Eb as Hpl'. clear Hl.
  destruct (convert_ok p 64) as (a'&Ea'&Ha1&Ha2&Ha3); [by eapply prop_bytes|lia|]. destruct (convert_ok p' 64) as (b'&Eb'&Hb1&Hb2&Hb3); [by eapply prop_bytes|lia|].
  simplify_eq. set (key := RsaKey 64 _ a b). unfold rsa_verify_key. destruct sig as [s|]; [|done]. cbn [len key].
  destruct (Z.eqb_spec sig_len (u32 (Z.of_nat 64 * 4))) as [El|]; [|done]. cbn [negb]. destruct (_ <? sig_len); [done|].
  destruct (Z.ltb_spec (Z.of_nat (length s)) sig_len) as [|Hs]; [done|]. intros _. change (u32 (Z.of_nat 64 * 4)) with 256 in El. subst sig_len.
  exists key, s. split_and!; [|done..|lia]. split; cbn; [done..| | |]; eauto 10.
Qed.

(** ** The search *)

(** The keys of a trusted tree are well formed. *)
Definition trusted (b : blob) : Prop := ∀ node key, key_at b node key → rsa_key_ok key.

(** A node whose key has signed the digest. *)
Definition signed_by (info : image_sign_info (blob := blob)) (hash : list Z) (sig : option (list Z)) (sig_len node : Z) : Prop :=
  ∃ key s, key_at (fdt_blob info) node key ∧ sig = Some s ∧ sig_len = 256 ∧ (256 ≤ length s)%nat ∧ signs key s hash.

Definition digest_ok (hash : list Z) : Prop := length hash = 20%nat ∧ bytes hash.

Context (info : image_sign_info (blob := blob)) (hash : list Z) (sig : option (list Z)) (sig_len : Z).
Context (Htrust : trusted (fdt_blob info)) (Hhash : digest_ok hash) (Hsig : ∀ s, sig = Some s → bytes s).

Lemma keynode_iff node : rsa_verify_with_keynode info hash sig sig_len node = Ret 0 ↔ signed_by info hash sig sig_len node.
Proof.
  split.
  - intros E. destruct (keynode_success _ _ _ _ _ E) as (key&s&Hk&->&->&Hl). exists key, s. split_and!; [done..|].
    assert (Hko := Htrust _ _ Hk). apply verdict_sound; [done|apply Hk|]. rewrite <-E. rewrite (keynode_key _ _ _ _ _ _ Hk).
    symmetry. apply rsa_verify_key_verdict; [done|apply Hk|by apply Hsig|done|apply Hhash].
  - intros (key&s&Hk&->&->&Hl&Hs). assert (Hko := Htrust _ _ Hk). rewrite (keynode_key _ _ _ _ _ _ Hk).
    rewrite rsa_verify_key_verdict; [|done|apply Hk|by apply Hsig|done|apply Hhash]. apply verdict_complete; [done|apply Hhash..|done].
Qed.

Lemma keynode_fuel node : rsa_verify_with_keynode info hash sig sig_len node ≠ NoFuel.
Proof.
  unfold rsa_verify_with_keynode, rsa_verify_key. intros E.
  repeat match type of E with context [match ?x with _ => _ end] => destruct x end; discriminate E.
Qed.

Lemma try_keys_sound fuel node : ∀ noffset ndepth ret, ret ≠ 0 → try_keys fuel info hash sig sig_len node noffset ndepth ret = Ret 0 →
  ∃ n, signed_by info hash sig sig_len n.
Proof.
  induction fuel as [|fuel IH]; intros noffset ndepth ret Hr E; [done|]. cbn [try_keys] in E. destruct (_ && _); [|by injection E as ->].
  destruct (fdt_next_node (fit info) noffset ndepth) as [noffset' ndepth']. destruct (_ && _); [|by apply (IH noffset' ndepth' ret Hr)].
  destruct (rsa_verify_with_keynode info hash sig sig_len noffset) as [z| |] eqn:Ek; try done.
  destruct (Z.eqb_spec z 0) as [->|Hz]; [|by apply (IH noffset' ndepth' z Hz)]. exists noffset. by apply keynode_iff.
Qed.

Lemma try_keys_returns fuel node : ∀ noffset ndepth ret, (Z.to_nat (fdt_totalsize (fit info) - noffset) < fuel)%nat → noffset < fdt_totalsize (fit info) →
  try_keys fuel info hash sig sig_len node noffset ndepth ret ≠ NoFuel.
Proof.
  induction fuel as [|fuel IH]; intros noffset ndepth ret Hf Hn; [lia|]. cbn [try_keys]. destruct (Z.leb_spec 0 noffset) as [H0|]; [|done]. cbn [andb].
  destruct (0 <? ndepth); [|done]. destruct (fdt_next_node (fit info) noffset ndepth) as [noffset' ndepth'] eqn:En.
  assert (Hnext : ∀ r, try_keys fuel info hash sig sig_len node noffset' ndepth' r ≠ NoFuel).
  { intros r. destruct (Z.ltb_spec noffset' 0) as [Hneg|Hpos]; [|apply next_node_grows in En as Hg; [|done]; apply IH; lia].
    destruct fuel as [|f]; [lia|]. cbn [try_keys]. rewrite (proj2 (Z.leb_gt _ _)) by done. done. }
  destruct (_ && _); [|apply Hnext]. destruct (rsa_verify_with_keynode info hash sig sig_len noffset) as [z| |] eqn:Ek; [destruct (z =? 0); [done|apply Hnext]|done|].
  by apply keynode_fuel in Ek.
Qed.

(** The key that the caller requires, or the one of the hint. *)
Lemma verify_hint fuel ctx_buf region name : hash_regions ctx_buf region = hash →
  0 ≤ fdt_subnode_offset (fdt_blob info) 0 FIT_SIG_NODENAME → hint_name (keyname info) = Some name →
  (required_keynode info = -1 ∨ ∃ z, rsa_verify_with_keynode info hash sig sig_len (required_keynode info) = Ret z) →
  signed_by info hash sig sig_len (fdt_subnode_offset (fdt_blob info) (fdt_subnode_offset (fdt_blob info) 0 FIT_SIG_NODENAME) name) →
  rsa_verify fuel ctx_buf info region sig sig_len = Ret 0.
Proof.
  intros Hr Hs Hn Hreq Hk%keynode_iff. unfold rsa_verify. rewrite Hr. cbv zeta. rewrite (proj2 (Z.ltb_ge _ _)) by done. rewrite Hn, Hk.
  destruct Hreq as [->|[z ->]]; [done|]. destruct (Z.eqb_spec z 0) as [->|]; by destruct (negb _).
Qed.

Lemma verify_required fuel ctx_buf region : hash_regions ctx_buf region = hash →
  0 ≤ fdt_subnode_offset (fdt_blob info) 0 FIT_SIG_NODENAME → required_keynode info ≠ -1 → signed_by info hash sig sig_len (required_keynode info) →
  rsa_verify fuel ctx_buf info region sig sig_len = Ret 0.
Proof.
  intros Hr Hs Hreq Hk%keynode_iff. unfold rsa_verify. rewrite Hr. cbv zeta. rewrite (proj2 (Z.ltb_ge _ _)) by done.
  rewrite (proj2 (Z.eqb_neq _ _)) by done. by rewrite Hk.
Qed.

Lemma verify_sound fuel ctx_buf region : hash_regions ctx_buf region = hash → rsa_verify fuel ctx_buf info region sig sig_len = Ret 0 →
  ∃ node, signed_by info hash sig sig_len node.
Proof.
  intros Hr. unfold rsa_verify. rewrite Hr. cbv zeta. destruct (_ <? 0); [done|].
  set (search := match hint_name _ with None => Undefined | Some _ => _ end). assert (Hs : search = Ret 0 → ∃ node, signed_by info hash sig sig_len node).
  { unfold search. destruct (hint_name _) as [name|]; [|done]. set (node := fdt_subnode_offset _ _ name).
    destruct (rsa_verify_with_keynode info hash sig sig_len node) as [z| |] eqn:Ek; try done. destruct (Z.eqb_spec z 0) as [->|Hz].
    - intros _. exists node. by apply keynode_iff.
    - destruct (fdt_next_node _ _ 0) as [noffset ndepth]. by apply try_keys_sound. }
  destruct (negb _); [|done]. destruct (rsa_verify_with_keynode _ _ _ _ _) as [z| |] eqn:Ek; try done. destruct (Z.eqb_spec z 0) as [->|]; [|done].
  intros _. eexists. by apply keynode_iff.
Qed.

Lemma verify_returns fuel ctx_buf region : hash_regions ctx_buf region = hash →
  (Z.to_nat (fdt_totalsize (fit info)) < fuel)%nat → rsa_verify fuel ctx_buf info region sig sig_len ≠ NoFuel.
Proof.
  intros Hr Hf. unfold rsa_verify. rewrite Hr. cbv zeta. destruct (Z.ltb_spec (fdt_subnode_offset (fdt_blob info) 0 FIT_SIG_NODENAME) 0) as [|Hn]; [done|].
  set (search := match hint_name _ with None => Undefined | Some _ => _ end). assert (Hs : search ≠ NoFuel).
  { unfold search. destruct (hint_name _) as [name|]; [|done]. set (node := fdt_subnode_offset _ _ name).
    destruct (rsa_verify_with_keynode info hash sig sig_len node) as [z| |] eqn:Ek; [|done|by apply keynode_fuel in Ek]. destruct (z =? 0); [done|].
    destruct (fdt_next_node _ _ 0) as [noffset ndepth] eqn:En. destruct (Z.ltb_spec noffset 0) as [|Hp].
    - destruct fuel as [|f]; [lia|]. cbn [try_keys]. by rewrite (proj2 (Z.leb_gt _ _)).
    - apply next_node_grows in En; [|done]. apply try_keys_returns; lia. }
  destruct (negb _); [|done]. destruct (rsa_verify_with_keynode _ _ _ _ _) as [z| |] eqn:Ek; [by destruct (z =? 0)|done|by apply keynode_fuel in Ek].
Qed.

End Verify.

(** ** Properties *)

Lemma SHA1_length m : length (SHA1 m) = 20%nat.
Proof.
  unfold SHA1, digest. cbv zeta.
  match goal with |- context [absorb ?n ?iv ?p] => pose proof (fips_length n p iv eq_refl) as H; destruct (absorb n iv p) as [|? l] end; [done|].
  do 4 (destruct l as [|? l]; [done|]). by destruct l.
Qed.

Lemma SHA1_digest m : digest_ok (SHA1 m).
Proof. split; [apply SHA1_length|apply SHA1_bytes]. Qed.

Lemma hash_regions_ok ctx_buf region : length ctx_buf = 64%nat → Forall bytes region → Forall fits32 region → hash_regions ctx_buf region = SHA1 (concat region).
Proof. intros Hb. by apply (sha1_computes ctx_buf). Qed.

(** C6: with well-formed keys in the trusted tree, [rsa_verify] only succeeds
    when the power 65537 of the signature, modulo the 2048-bit modulus of one
    of the keys of the tree, is the PKCS #1 encoding of the SHA-1 digest of the
    regions. *)
Theorem rsa_verify_sound {blob} `{FdtLaws blob} fuel ctx_buf (info : image_sign_info (blob := blob)) region sig sig_len :
  length ctx_buf = 64%nat → Forall bytes region → Forall fits32 region → (∀ s, sig = Some s → bytes s) → trusted (fdt_blob info) →
  rsa_verify fuel ctx_buf info region sig sig_len = Ret 0 →
  ∃ node key s, key_at (fdt_blob info) node key ∧ sig = Some s ∧ sig_len = 256 ∧ signs key s (SHA1 (concat region)).
Proof.
  intros Hc Hb Hf Hs Ht E. destruct (verify_sound info _ sig sig_len Ht (SHA1_digest _) Hs fuel ctx_buf region (hash_regions_ok _ _ Hc Hb Hf) E) as (node&key&s&?&?&?&?&?).
  by exists node, key, s.
Qed.

(** C10: with more fuel than the size of the FIT the search for a key ends; a
    signature of the required key is accepted, and, when no key is required,
    one of the key that the hint names. *)
Theorem rsa_verify_finds {blob} `{FdtLaws blob} fuel ctx_buf (info : image_sign_info (blob := blob)) region sig sig_len name
    (root := fdt_subnode_offset (fdt_blob info) 0 FIT_SIG_NODENAME) :
  length ctx_buf = 64%nat → Forall bytes region → Forall fits32 region → (∀ s, sig = Some s → bytes s) → trusted (fdt_blob info) →
  (Z.to_nat (fdt_totalsize (fit info)) < fuel)%nat → 0 ≤ root → Forall (λ c, c ≠ 0) name → Z.of_nat (length name) < 2 ^ 31 → keyname info = Some name →
  let signed := signed_by info (SHA1 (concat region)) sig sig_len in
  rsa_verify fuel ctx_buf info region sig sig_len ≠ NoFuel ∧
  (required_keynode info ≠ -1 → signed (required_keynode info) → rsa_verify fuel ctx_buf info region sig sig_len = Ret 0) ∧
  (required_keynode info = -1 → signed (fdt_subnode_offset (fdt_blob info) root (take 99 ([107; 101; 121; 45] ++ name))) →
   rsa_verify fuel ctx_buf info region sig sig_len = Ret 0).
Proof.
  intros Hc Hb Hf Hs Ht Hfuel Hr Hn Hl Hname signed. pose proof (hash_regions_ok ctx_buf region Hc Hb Hf) as Hh. pose proof (SHA1_digest (concat region)) as Hd. split_and!.
  - by apply (verify_returns info (SHA1 (concat region)) sig sig_len Hs fuel ctx_buf region Hh).
  - by apply (verify_required info _ sig sig_len Ht Hd Hs _ _ _ Hh).
  - intros Hreq Hk. apply (verify_hint info _ sig sig_len Ht Hd Hs _ _ _ (take 99 ([107; 101; 121; 45] ++ name)) Hh); [done| |by left|done].
    rewrite Hname. by apply hint_name_ok.
Qed.

(** ** A key of 2048 bits *)

Module SampleTree.

(** Trees with nodes in the order of their offsets. *)
Record tnode := TNode { n_off : Z; n_parent : Z; n_depth : Z; n_name : list Z; n_props : list (list Z * list Z) }.
Abbreviation tree := (list tnode).

Definition node_at (t : tree) (off : Z) : option tnode := find (λ n, n_off n =? off) t.

#[export] Instance sample_fdt : Fdt tree := {
  fdt_getprop t off name :=
    n ← node_at t off; '(_, v) ← find (λ '(k, _), bool_decide (k = name)) (n_props n); Some (u8 <$> v, Z.of_nat (length v));
  fdt_subnode_offset t parent name :=
    match find (λ n, (n_parent n =? parent) && bool_decide (n_name n = name)) t with Some n => n_off n | None => -1 end;
  fdt_next_node t off depth :=
    match find (λ n, off <? n_off n) t with
    | Some n => (n_off n, depth + n_depth n - from_option n_depth 0 (node_at t off))
    | None => (-1, depth)
    end;
  fdt_totalsize t := foldr (λ n m, Z.max (n_off n + 1) m) 0 t;
}.

Lemma totalsize_node (t : tree) n : In n t → n_off n < fdt_totalsize t.
Proof. induction t as [|n' t IH]; [done|]. intros [->|Hn]; cbn in *; [lia|]. apply IH in Hn. lia. Qed.

#[export] Instance sample_laws : FdtLaws tree.
Proof.
  split.
  - intros t off depth off' depth'. cbn. destruct (find _ t) as [n|] eqn:E; intros [= <- <-]; [|lia]. apply find_some in E as [Hin Hlt]. intros _. apply totalsize_node in Hin. cbn in Hin. lia.
  - intros t off name p l. cbn. intros (n&_&E)%bind_Some. apply bind_Some in E as ([k v]&_&[= <- _]). apply Forall_fmap, Forall_true. intros x. unfold compose, u8, isbyte. apply Z.mod_pos_bound. lia.
Qed.

(** A number whose square is 1. *)
Lemma involution_power v N d q : 1 < v < N → N = (v - 1) * d → v + 1 = d * q → v ^ 65537 mod N = v.
Proof.
  intros Hv HN Hq. change 65537 with (Z.succ (2 * 32768)). rewrite Z.pow_succ_r, Z.pow_mul_r by lia.
  assert (E : v ^ 2 mod N = 1 mod N).
  { replace (v ^ 2) with (1 + q * N); [by rewrite Z.mod_add by lia|]. rewrite HN, Z.pow_2_r. transitivity (1 + (v - 1) * (d * q)); [ring|]. rewrite <-Hq. ring. }
  rewrite <-Z.mul_mod_idemp_r, (Zpower_mod (v ^ 2)), E, <-Zpower_mod, Z.pow_1_l, Z.mul_mod_idemp_r, Z.mul_1_r by lia. apply Z.mod_small. lia.
Qed.

(** A modulus for which the signature of "12" is easy to check: the encoded
    message is its own signature. *)
Definition dev_modulus : list Z := [
    204; 153; 255; 255; 255; 255; 255; 255; 255; 255; 255; 255; 255; 255; 255; 255; 255; 255; 255; 255; 255; 255; 255; 255; 255; 255; 255; 255; 255; 255; 255; 255;
    255; 255; 255; 255; 255; 255; 255; 255; 255; 255; 255; 255; 255; 255; 255; 255; 255; 255; 255; 255; 255; 255; 255; 255; 255; 255; 255; 255; 255; 255; 255; 255;
    255; 255; 255; 255; 255; 255; 255; 255; 255; 255; 255; 255; 255; 255; 255; 255; 255; 255; 255; 255; 255; 255; 255; 255; 255; 255; 255; 255; 255; 255; 255; 255;
    255; 255; 255; 255; 255; 255; 255; 255; 255; 255; 255; 255; 255; 255; 255; 255; 255; 255; 255; 255; 255; 255; 255; 255; 255; 255; 255; 255; 255; 255; 255; 255;
    255; 255; 255; 255; 255; 255; 255; 255; 255; 255; 255; 255; 255; 255; 255; 255; 255; 255; 255; 255; 255; 255; 255; 255; 255; 255; 255; 255; 255; 255; 255; 255;
    255; 255; 255; 255; 255; 255; 255; 255; 255; 255; 255; 255; 255; 255; 255; 255; 255; 255; 255; 255; 255; 255; 255; 255; 255; 255; 255; 255; 255; 255; 255; 255;
    255; 255; 255; 255; 255; 255; 255; 255; 255; 255; 255; 255; 255; 255; 255; 255; 255; 255; 255; 255; 255; 255; 255; 255; 255; 255; 153; 198; 59; 179; 31; 11;
    28; 222; 181; 136; 105; 189; 255; 209; 130; 161; 99; 75; 195; 232; 24; 250; 50; 40; 232; 42; 52; 194; 151; 202; 249; 143; 46; 54; 150; 15; 171; 247].
Definition dev_rr : list Z := [
    141; 70; 0; 0; 0; 0; 0; 0; 0; 0; 0; 0; 0; 0; 0; 0; 0; 0; 0; 0; 0; 0; 0; 0; 0; 0; 0; 0; 0; 0; 0; 0;
    0; 0; 0; 0; 0; 0; 0; 0; 0; 0; 0; 0; 0; 0; 0; 0; 0; 0; 0; 0; 0; 0; 0; 0; 0; 0; 0; 0; 0; 0; 0; 0;
    0; 0; 0; 0; 0; 0; 0; 0; 0; 0; 0; 0; 0; 0; 0; 0; 0; 0; 0; 0; 0; 0; 0; 0; 0; 0; 0; 0; 0; 0; 0; 0;
    0; 0; 0; 0; 0; 0; 0; 0; 0; 0; 0; 0; 0; 0; 0; 0; 0; 0; 0; 0; 0; 0; 0; 0; 0; 0; 0; 0; 0; 0; 0; 0;
    0; 0; 0; 0; 0; 0; 0; 0; 0; 0; 0; 0; 0; 0; 0; 0; 0; 0; 0; 0; 0; 0; 0; 0; 0; 0; 0; 0; 0; 0; 0; 0;
    0; 0; 0; 0; 0; 0; 0; 0; 0; 0; 0; 0; 0; 0; 0; 0; 0; 0; 0; 0; 63; 231; 241; 171; 25; 17; 48; 208; 177; 1; 236; 204;
    3; 34; 58; 190; 12; 225; 213; 160; 2; 11; 21; 103; 209; 233; 226; 199; 91; 114; 80; 8; 150; 109; 73; 67; 149; 119; 186; 60; 80; 223; 77; 212;
    153; 76; 201; 216; 47; 198; 242; 211; 21; 65; 234; 157; 9; 210; 191; 207; 127; 54; 10; 192; 162; 135; 170; 208; 240; 222; 29; 110; 41; 217; 21; 217].
Definition dev_inverse : Z := 204044857.
Definition dev_signature : list Z := [
    0; 1; 255; 255; 255; 255; 255; 255; 255; 255; 255; 255; 255; 255; 255; 255; 255; 255; 255; 255; 255; 255; 255; 255; 255; 255; 255; 255; 255; 255; 255; 255;
    255; 255; 255; 255; 255; 255; 255; 255; 255; 255; 255; 255; 255; 255; 255; 255; 255; 255; 255; 255; 255; 255; 255; 255; 255; 255; 255; 255; 255; 255; 255; 255;
    255; 255; 255; 255; 255; 255; 255; 255; 255; 255; 255; 255; 255; 255; 255; 255; 255; 255; 255; 255; 255; 255; 255; 255; 255; 255; 255; 255; 255; 255; 255; 255;
    255; 255; 255; 255; 255; 255; 255; 255; 255; 255; 255; 255; 255; 255; 255; 255; 255; 255; 255; 255; 255; 255; 255; 255; 255; 255; 255; 255; 255; 255; 255; 255;
    255; 255; 255; 255; 255; 255; 255; 255; 255; 255; 255; 255; 255; 255; 255; 255; 255; 255; 255; 255; 255; 255; 255; 255; 255; 255; 255; 255; 255; 255; 255; 255;
    255; 255; 255; 255; 255; 255; 255; 255; 255; 255; 255; 255; 255; 255; 255; 255; 255; 255; 255; 255; 255; 255; 255; 255; 255; 255; 255; 255; 255; 255; 255; 255;
    255; 255; 255; 255; 255; 255; 255; 255; 255; 255; 255; 255; 255; 255; 255; 255; 255; 255; 255; 255; 255; 255; 255; 255; 255; 255; 255; 255; 0; 48; 33; 48;
    9; 6; 5; 43; 14; 3; 2; 26; 5; 0; 4; 20; 123; 82; 0; 155; 100; 253; 10; 42; 73; 230; 216; 169; 57; 117; 48; 119; 121; 43; 5; 84].

(** The root, the node of the signatures, and the nodes "key-dev" and "key-prod"
    below it, the second required and of a size that the code does not support. *)
Definition required_prop : list Z := [114; 101; 113; 117; 105; 114; 101; 100].
Definition image : list Z := [105; 109; 97; 103; 101].

Definition key_props (modulus rr : list Z) (inverse : Z) : list (list Z * list Z) :=
  [(prop_bits, be_bytes 2048); (prop_n0inv, be_bytes inverse); (prop_modulus, modulus); (prop_rr, rr)].

Definition dev : list Z := [100; 101; 118].
Definition prod : list Z := [112; 114; 111; 100].

Definition the_tree (word : list Z) : tree := [
  TNode 0 (-1) 0 [] [];
  TNode 4 0 1 FIT_SIG_NODENAME [];
  TNode 8 4 2 ([107; 101; 121; 45] ++ dev) (key_props dev_modulus dev_rr dev_inverse);
  TNode 800 4 2 ([107; 101; 121; 45] ++ prod) ([(required_prop, word ++ [0]); (prop_bits, be_bytes 1024)] ++ drop 1 (key_props dev_modulus dev_rr dev_inverse))].

(** The key in a node, as the code reads it. *)
Definition stored (modulus rr : list Z) (inverse : Z) : rsa_public_key :=
  RsaKey 64 inverse (default [] (rsa_convert_big_endian modulus 64)) (default [] (rsa_convert_big_endian rr 64)).

Definition dev_key : rsa_public_key := stored dev_modulus dev_rr dev_inverse.

(** The conditions on a key, evaluated. *)
Definition key_check (key : rsa_public_key) : bool :=
  let N := le_val (modulus key) in
  let words l := (length l =? 64)%nat && forallb (λ w, (0 <=? w) && (w <? 2 ^ 32)) l in
  (len key =? 64)%nat && words (modulus key) && words (rr key) && ((modulus key !!! 0%nat * n0inv key + 1) mod 2 ^ 32 =? 0) &&
  ((0 <=? n0inv key) && (n0inv key <? 2 ^ 32)) && (base 64 <=? 2 * N).

Lemma words_check l : forallb (λ w, (0 <=? w) && (w <? 2 ^ 32)) l = true → words32 l.
Proof.
  intros Hf. apply Forall_forall. intros w Hw. rewrite forallb_forall in Hf. specialize (Hf w). rewrite <-list_elem_of_In in Hf. specialize (Hf Hw). unfold isword. lia.
Qed.

Lemma key_check_ok key q : key_check key = true → le_val (rr key) + q * le_val (modulus key) = base 64 * base 64 → rsa_key_ok key.
Proof.
  unfold key_check. cbv zeta. rewrite !andb_true_iff. intros (((((Hl&Hm&Hmw)&Hr&Hrw)&Hi)&Hi1&Hi2)&Ht) Hs.
  apply Nat.eqb_eq in Hl, Hm, Hr. apply words_check in Hmw, Hrw. apply Z.eqb_eq in Hi. apply Z.leb_le in Ht, Hi1. apply Z.ltb_lt in Hi2.
  split; rewrite ?Hl; [split; [lia|split; [congruence|done]]|lia|split; [done|done]|split; [congruence|done]| |done].
  exists (- q). lia.
Qed.

Lemma dev_ok : rsa_key_ok dev_key.
Proof.
  apply (key_check_ok _ 40435436822510179358884458334962655536287462533171827132187069340911371170736685203264190914230510075915533626464880457550242839140222478996672212661771634705289724295380466605615734846109745321909703184335756465588374028045414646222120381659597050440261918029689016138277142571843813983598162473347319518606364843121640850908435039665743167482815196316223335033758201376339648947369919721030801999731694824578094620132366953373316383617496671617683010553683926686503893025186305572273624342639584772517256347446750875479613111309862263286562491089769808170209924377302414305228044972491380635425015986290189121111889); [by vm_compute|]. apply Z.eqb_eq. vm_cast_no_check (eq_refl true).
Qed.

(** A key that a node describes is the one that is stored there. *)
Lemma stored_key word node key mp rp inv l l' : key_at (the_tree word) node key → fdt_getprop (the_tree word) node prop_modulus = Some (mp, l) →
  fdt_getprop (the_tree word) node prop_rr = Some (rp, l') → u32 (fdtdec_get_int (the_tree word) node prop_n0inv 0) = inv → key = stored mp rp inv.
Proof.
  intros [_ Hl _ [_ Hi] (p&k&Hm&Hpl&Hml&Hmw&Hmv) (p'&k'&Hr&Hpl'&Hrl&Hrw&Hrv)] Em Er Ei. rewrite Em in Hm. rewrite Er in Hr. injection Hm as <- <-. injection Hr as <- <-.
  destruct (convert_ok mp 64) as (a&Ea&Ha1&Ha2&Ha3); [by eapply prop_bytes|lia|]. destruct (convert_ok rp 64) as (b&Eb&Hb1&Hb2&Hb3); [by eapply prop_bytes|lia|].
  unfold stored. rewrite Ea, Eb. cbn [default from_option]. rewrite <-Ei, <-Hi. unfold default, id.
  rewrite (le_val_inj a (modulus key)) by (done || congruence || by rewrite Hmv). rewrite (le_val_inj b (rr key)) by (done || congruence || by rewrite Hrv).
  rewrite <-Hl. by destruct key.
Qed.

Lemma only_keys word node name : is_Some (fdt_getprop (the_tree word) node name) → node = 8 ∨ node = 800.
Proof.
  intros [x Hx]. cbn [fdt_getprop sample_fdt] in Hx. apply bind_Some in Hx as (n&Hn&Hx). unfold node_at in Hn. apply find_some in Hn as [Hin E]. apply Z.eqb_eq in E. subst node.
  apply bind_Some in Hx as ([k v]&Hf&_). apply find_some in Hf as [Hf _].
  destruct Hin as [<-|[<-|[<-|[<-|[]]]]]; [destruct Hf|destruct Hf|by left|by right].
Qed.

Lemma the_tree_trusted word : trusted (the_tree word).
Proof.
  intros node key Hk. destruct (only_keys word node _ (proj1 (ka_inverse _ _ _ Hk))) as [->| ->].
  - rewrite (stored_key word 8 key dev_modulus dev_rr dev_inverse 256 256 Hk); [apply dev_ok|vm_compute; reflexivity..].
  - pose proof (ka_bits _ _ _ Hk) as Hb. by vm_compute in Hb.
Qed.

(** The words of an array of bytes. *)
Definition array_check (p l : list Z) : bool :=
  (256 <=? length p)%nat && (length l =? 64)%nat && forallb (λ w, (0 <=? w) && (w <? 2 ^ 32)) l && (le_val l =? OS2IP (take 256 p)).

Lemma array_check_ok p l : array_check p l = true → (256 ≤ length p)%nat ∧ length l = 64%nat ∧ words32 l ∧ le_val l = OS2IP (take 256 p).
Proof.
  unfold array_check. rewrite !andb_true_iff. intros (((H1%Nat.leb_le&H2%Nat.eqb_eq)&H3%words_check)&H4%Z.eqb_eq). done.
Qed.

Lemma dev_at word : key_at (the_tree word) 8 dev_key.
Proof.
  split; [done|done|by vm_compute|split; [|by vm_compute]| |].
  - exists (be_bytes dev_inverse, 4). by vm_compute.
  - exists dev_modulus, 256. split; [by vm_compute|]. apply array_check_ok. by vm_compute.
  - exists dev_rr, 256. split; [by vm_compute|]. apply array_check_ok. by vm_compute.
Qed.

Definition msg : list Z := [49; 50].
Definition msg_info (required : Z) : image_sign_info (blob := tree) := SignInfo (Some dev) (the_tree image) 0 (the_tree image) required.

Lemma dev_signs : signs dev_key dev_signature (SHA1 msg).
Proof.
  unfold signs. assert (E : EM (SHA1 msg) = dev_signature) by (by vm_compute). rewrite E. rewrite take_ge by (by apply Nat.leb_le).
  apply (involution_power _ _ 26189 37658435127241704015884975283371895119815564279604542192245898154481659802362960952580152930906517501841796214193925687624367735479234232564151485135566102997669693357665526313349357662824676671912617221787345097948214065325832596255578456129503483362739829374187640974556228678528046220166760006311647145642307440863587754693287461684777557368218150284349299067406171351987541604200303294724600389349921443106694724534048655418042450787030785919803204530555686621464689285667897735045872947796792511378653671077220584712562216966951659368324700171361293996503842140259605159338532031871655820807463646310185); [split|..]; by vm_compute.
Qed.

Lemma dev_signed_for info word : fdt_blob info = the_tree word → signed_by info (SHA1 msg) (Some dev_signature) 256 8.
Proof.
  intros Hi. exists dev_key, dev_signature. rewrite Hi. split_and!; [apply dev_at|done..|by apply Nat.leb_le|apply dev_signs].
Qed.

Lemma dev_signed required : signed_by (msg_info required) (SHA1 msg) (Some dev_signature) 256 8.
Proof. by apply (dev_signed_for _ image). Qed.

Lemma dev_signature_bytes s : Some dev_signature = Some s → bytes s.
Proof.
  intros [= <-]. assert (H : forallb (λ x, (0 <=? x) && (x <? 256)) dev_signature = true) by (by vm_compute).
  apply Forall_forall. intros x Hx. rewrite forallb_forall in H. specialize (H x). rewrite <-list_elem_of_In in H. specialize (H Hx). unfold isbyte. lia.
Qed.

Lemma msg_bytes : Forall bytes [msg].
Proof. apply Forall_cons_2; [|constructor]. by repeat (apply Forall_cons_2; [done|]). Qed.

Lemma msg_fits : Forall fits32 [msg].
Proof. by apply Forall_cons_2. Qed.

(** The second key cannot be used. *)
Lemma prod_rejects : rsa_verify_with_keynode (msg_info 800) (SHA1 msg) (Some dev_signature) 256 800 = Ret (-14).
Proof. by vm_compute. Qed.

(** The required key is not required: verifying with it fails, and the search
    for other keys accepts the signature. *)
Lemma required_key_ignored fuel : rsa_verify_with_keynode (msg_info 800) (SHA1 msg) (Some dev_signature) 256 800 = Ret (-14) ∧
  rsa_verify fuel (replicate 64 0) (msg_info 800) [msg] (Some dev_signature) 256 = Ret 0.
Proof.
  split; [apply prod_rejects|].
  apply (verify_hint (msg_info 800) (SHA1 msg) (Some dev_signature) 256 (the_tree_trusted image) (SHA1_digest msg) dev_signature_bytes fuel _ _ ([107; 101; 121; 45] ++ dev)).
  - by apply (hash_regions_ok _ [msg]); [|apply msg_bytes|apply msg_fits].
  - by vm_compute.
  - by vm_compute.
  - right. eexists. apply prod_rejects.
  - apply (dev_signed 800).
Qed.

Lemma dev_accepted fuel : rsa_verify fuel (replicate 64 0) (msg_info (-1)) [msg] (Some dev_signature) 256 = Ret 0.
Proof.
  apply (verify_hint (msg_info (-1)) (SHA1 msg) (Some dev_signature) 256 (the_tree_trusted image) (SHA1_digest msg) dev_signature_bytes fuel _ _ ([107; 101; 121; 45] ++ dev)).
  - by apply (hash_regions_ok _ [msg]); [|apply msg_bytes|apply msg_fits].
  - by vm_compute.
  - by vm_compute.
  - by left.
  - apply (dev_signed (-1)).
Qed.

Lemma rsa_verify_sound_witness :
  ∃ node key s, key_at (the_tree image) node key ∧ Some dev_signature = Some s ∧ 256 = 256 ∧ signs key s (SHA1 (concat [msg])).
Proof.
  apply (rsa_verify_sound 1000 (replicate 64 0) (msg_info (-1)) [msg] (Some dev_signature) 256);
    [reflexivity|apply msg_bytes|apply msg_fits|apply dev_signature_bytes|apply the_tree_trusted|apply dev_accepted].
Defined.

Lemma rsa_verify_finds_witness : rsa_verify 1000 (replicate 64 0) (msg_info (-1)) [msg] (Some dev_signature) 256 = Ret 0.
Proof.
  apply (rsa_verify_finds 1000 (replicate 64 0) (msg_info (-1)) [msg] (Some dev_signature) 256 dev);
    [reflexivity|apply msg_bytes|apply msg_fits|apply dev_signature_bytes|apply the_tree_trusted|by apply Nat.ltb_lt|by vm_compute|by repeat (apply Forall_cons_2; [done|])|reflexivity|reflexivity|reflexivity|apply (dev_signed (-1))].
Defined.

End SampleTree.
