(* ===== verification/ImageSig.v ===== *)
(** * Signed images

    Translation of [common/image-sig.c] and of the two functions of
    [common/image-fit.c] that it reads properties with: the signatures of the
    images and the configurations of a FIT are verified with the keys of the
    trusted device tree. The messages and [err_msgp] are left out. *)

From S2P Require Import Prelude Word32 BlockHash Montgomery RsaVerify.
From stdpp Require Import base option list.
From Stdlib Require Import ZArith Lia.
Local Open Scope Z_scope.

(** More of libfdt: the nodes directly below a node, the name of a node, the
    regions of the structure block that hold some nodes, where the strings
    are, and the bytes of the tree. [fdt_find_regions] returns a number and
    what it has put into the array of the given size. *)
Class FdtNodes (blob : Type) `{Fdt blob} := {
  fdt_first_subnode : blob → Z → Z;
  fdt_next_subnode : blob → Z → Z;
  fdt_get_name : blob → Z → option (list Z);
  fdt_find_regions : blob → list (list Z) → list (list Z) → Z → Z * list (Z * Z);
  fdt_off_dt_strings : blob → Z;
  fdt_bytes : blob → list Z;
}.

(** The offsets of subnodes grow inside of the tree; a tree is made of bytes
    and fits into memory. *)
Class FdtNodesLaws (blob : Type) `{FdtNodes blob} := {
  first_subnode_inside b parent : fdt_first_subnode b parent < fdt_totalsize b;
  next_subnode_grows b offset : 0 ≤ fdt_next_subnode b offset → offset < fdt_next_subnode b offset < fdt_totalsize b;
  fdt_bytes_bytes b : bytes (fdt_bytes b);
  fdt_bytes_fit b : Z.of_nat (length (fdt_bytes b)) < 2 ^ 32;
}.

Definition EPERM : Z := 1.
Definition FDT_ERR_TRUNCATED : Z := 8.
Definition FDT_ERR_BADSTRUCTURE : Z := 11.
Definition IMAGE_MAX_HASHED_NODES : Z := 100.

(** "algo", "value", "key-name-hint", "required", "image", "conf",
    "hashed-nodes", "hashed-strings", "data" and "sha1,rsa2048". *)
Definition FIT_ALGO_PROP : list Z := [97; 108; 103; 111].
Definition FIT_VALUE_PROP : list Z := [118; 97; 108; 117; 101].
Definition prop_hint : list Z := [107; 101; 121; 45; 110; 97; 109; 101; 45; 104; 105; 110; 116].
Definition prop_required : list Z := [114; 101; 113; 117; 105; 114; 101; 100].
Definition text_image : list Z := [105; 109; 97; 103; 101].
Definition text_conf : list Z := [99; 111; 110; 102].
Definition prop_hashed_nodes : list Z := [104; 97; 115; 104; 101; 100; 45; 110; 111; 100; 101; 115].
Definition prop_hashed_strings : list Z := [104; 97; 115; 104; 101; 100; 45; 115; 116; 114; 105; 110; 103; 115].
Definition exc_prop : list (list Z) := [[100; 97; 116; 97]].
Definition algo_name : list Z := [115; 104; 97; 49; 44; 114; 115; 97; 50; 48; 52; 56].

(** The string at a pointer; none when the tree ends before a NUL. *)
Fixpoint string_at (p : list Z) : option (list Z) :=
  match p with
  | [] => None
  | c :: p => if c =? 0 then Some [] else s ← string_at p; Some (c :: s)
  end.

(** [strncmp(name, FIT_SIG_NODENAME, strlen(FIT_SIG_NODENAME))] is 0. *)
Definition is_signature (name : list Z) : bool := bool_decide (take (length FIT_SIG_NODENAME) name = FIT_SIG_NODENAME).

(** ** The nodes that a signature covers *)

(** The NULs of the property are counted. *)
Definition count_strings (prop : list Z) : nat := length (filter (λ c, c = 0) prop).

(** The second loop: from [name] on up to [end], [k] places of the array are
    left. It writes behind the array when the last string has no NUL in the
    property. [at_] holds the tree from [name] on, [left] is [end - name]. *)
Fixpoint node_names (fuel k : nat) (at_ : list Z) (left : Z) : option (list (list Z)) :=
  match fuel with
  | O => None
  | S fuel =>
      if 0 <? left then
        match k with
        | O => None
        | S k =>
            s ← string_at at_;
            let n := S (length s) in
            names ← node_names fuel k (drop n at_) (left - Z.of_nat n);
            Some (s :: names)
        end
      else Some []
  end.

Section ImageSig.
Context {blob : Type} `{FdtNodes blob}.
Notation image_sign_info := (image_sign_info (blob := blob)).

(** The trusted tree of the boot loader, and what the searches for keys need. *)
Context (gd_fdt_blob : blob) (fuel : nat) (ctx_buf : list Z).

Record image_sig_algo := SigAlgo {
  name : list Z;
  verify : image_sign_info → list (list Z) → option (list Z) → Z → outcome
}.

Definition image_sig_algos : list image_sig_algo := [SigAlgo algo_name (rsa_verify fuel ctx_buf)].

Definition image_get_sig_algo (n : list Z) : option image_sig_algo :=
  find (λ a, bool_decide (name a = n)) image_sig_algos.

Definition fit_image_hash_get_algo (fit : blob) (noffset : Z) : option (list Z) :=
  fst <$> fdt_getprop fit noffset FIT_ALGO_PROP.

Definition fit_image_hash_get_value (fit : blob) (noffset : Z) : option (list Z * Z) :=
  fdt_getprop fit noffset FIT_VALUE_PROP.

(** The information and the algorithm, an error, or a string without an end. *)
Inductive setup := SetupOk (info : image_sign_info) (algo : image_sig_algo) | SetupError | SetupUndefined.

Definition fit_image_setup_verify (fit : blob) (noffset required_keynode : Z) : setup :=
  match fit_image_hash_get_algo fit noffset with
  | None => SetupError
  | Some algo_name =>
      match string_at algo_name with
      | None => SetupUndefined
      | Some algo_name =>
          match fdt_getprop fit noffset prop_hint with
          | None =>
              let info := SignInfo None fit noffset gd_fdt_blob required_keynode in
              match image_get_sig_algo algo_name with Some a => SetupOk info a | None => SetupError end
          | Some (keyname, _) =>
              match string_at keyname with
              | None => SetupUndefined
              | Some keyname =>
                  let info := SignInfo (Some keyname) fit noffset gd_fdt_blob required_keynode in
                  match image_get_sig_algo algo_name with Some a => SetupOk info a | None => SetupError end
              end
          end
      end
  end.

(** What the callers make of the result of [verify]. *)
Definition verify_regions (info : image_sign_info) (algo : image_sig_algo) (region : list (list Z)) (value : list Z) (len : Z) : outcome :=
  match verify algo info region (Some value) (u32 len) with
  | Ret r => Ret (if r =? 0 then 0 else -1)
  | o => o
  end.

(** ** Images *)

Definition fit_image_check_sig (fit : blob) (noffset : Z) (data : list Z) (required_keynode : Z) : outcome :=
  match fit_image_setup_verify fit noffset required_keynode with
  | SetupError => Ret (-1)
  | SetupUndefined => Undefined
  | SetupOk info algo =>
      match fit_image_hash_get_value fit noffset with
      | None => Ret (-1)
      | Some (fit_value, fit_value_len) => verify_regions info algo [data] fit_value fit_value_len
      end
  end.

(** The loop of [fit_image_verify_sig] and [fit_config_verify_sig] over the
    subnodes, with what is done for a signature; and the result. *)
Fixpoint verify_sig_loop (k : nat) (fit : blob) (check : Z → outcome) (noffset : Z) : outcome :=
  match k with
  | O => NoFuel
  | S k =>
      if 0 <=? noffset then
        let next := verify_sig_loop k fit check (fdt_next_subnode fit noffset) in
        match fdt_get_name fit noffset with
        | None => Undefined
        | Some name =>
            if is_signature name then
              match check noffset with
              | Ret ret => if ret =? 0 then Ret 0 else next
              | o => o
              end
            else next
        end
      else if (noffset =? - FDT_ERR_TRUNCATED) || (noffset =? - FDT_ERR_BADSTRUCTURE) then Ret (-1)
      else Ret (- EPERM)
  end.

(** [sig_blob] and [sig_offset] are not used. *)
Definition fit_image_verify_sig (k : nat) (fit : blob) (image_noffset : Z) (data : list Z) (sig_blob : blob) (sig_offset : Z) : outcome :=
  verify_sig_loop k fit (λ noffset, fit_image_check_sig fit noffset data (-1)) (fdt_first_subnode fit image_noffset).

(** The value of "required"; [strcmp] against one of the two words. *)
Definition required_is (sig_blob : blob) (noffset : Z) (word : list Z) : option bool :=
  match fdt_getprop sig_blob noffset prop_required with
  | None => Some false
  | Some (required, _) => s ← string_at required; Some (bool_decide (s = word))
  end.

(** The loop over the keys of the trusted tree; the number of signatures that
    have been verified. *)
Fixpoint required_loop (k : nat) (sig_blob : blob) (word : list Z) (verify_sig : Z → outcome) (noffset : Z) (verify_count : nat) : outcome * nat :=
  match k with
  | O => (NoFuel, verify_count)
  | S k =>
      if 0 <=? noffset then
        let next := required_loop k sig_blob word verify_sig (fdt_next_subnode sig_blob noffset) in
        match required_is sig_blob noffset word with
        | None => (Undefined, verify_count)
        | Some false => next verify_count
        | Some true =>
            match verify_sig noffset with
            | Ret ret => if ret =? 0 then next (S verify_count) else (Ret ret, verify_count)
            | o => (o, verify_count)
            end
        end
      else (Ret 0, verify_count)
  end.

(** The result and [*no_sigsp]. *)
Definition fit_image_verify_required_sigs (k : nat) (fit : blob) (image_noffset : Z) (data : list Z) (sig_blob : blob) : outcome * Z :=
  let sig_node := fdt_subnode_offset sig_blob 0 FIT_SIG_NODENAME in
  if sig_node <? 0 then (Ret 0, 1)
  else
    match required_loop k sig_blob text_image (fit_image_verify_sig k fit image_noffset data sig_blob) (fdt_first_subnode sig_blob sig_node) 0 with
    | (Ret ret, verify_count) => (Ret ret, if (ret =? 0) && negb (verify_count =? 0)%nat then 0 else 1)
    | (o, _) => (o, 1)
    end.

(** ** Configurations *)

(** [fit_region_make_list]: the bytes of the regions, when the tree has them. *)
Definition fit_region_make_list (fit : blob) (fdt_regions : list (Z * Z)) : option (list (list Z)) :=
  mapM (λ '(offset, size),
    if (0 <=? offset) && (0 <=? size) && (offset + size <=? Z.of_nat (length (fdt_bytes fit)))
    then Some (take (Z.to_nat size) (drop (Z.to_nat offset) (fdt_bytes fit))) else None) fdt_regions.

Definition s32 (x : Z) : Z := (x + 2 ^ 31) mod 2 ^ 32 - 2 ^ 31.

(** The region of the strings behind the others. *)
Definition add_strings (fit : blob) (noffset : Z) (fdt_regions : list (Z * Z)) : list (Z * Z) :=
  match fdt_getprop fit noffset prop_hashed_strings with
  | Some (strings, _) =>
      fdt_regions ++ [(s32 (fdt_off_dt_strings fit + fdt32_to_cpu strings 0), s32 (fdt32_to_cpu strings 1))]
  | None => fdt_regions
  end.

Definition fit_config_check_sig (fit : blob) (noffset required_keynode : Z) : outcome :=
  match fit_image_setup_verify fit noffset required_keynode with
  | SetupError => Ret (-1)
  | SetupUndefined => Undefined
  | SetupOk info algo =>
      match fit_image_hash_get_value fit noffset with
      | None => Ret (-1)
      | Some (fit_value, fit_value_len) =>
          let '(prop, prop_len) := default ([], 0) (fdt_getprop fit noffset prop_hashed_nodes) in
          let count := count_strings (take (Z.to_nat prop_len) prop) in
          if (count =? 0)%nat then Ret (-1)
          else if IMAGE_MAX_HASHED_NODES <? Z.of_nat count then Ret (-1)
          else
            match node_names (S (S count)) count prop prop_len with
            | None => Undefined
            | Some node_inc =>
                let max_regions := 20 + Z.of_nat count * 7 in
                let '(n, fdt_regions) := fdt_find_regions fit node_inc exc_prop (max_regions - 1) in
                if n <? 0 then Ret (-1)
                else if n =? 0 then Ret (-1)
                else if max_regions - 1 <=? n then Ret (-1)
                else
                  match fit_region_make_list fit (add_strings fit noffset (take (Z.to_nat n) fdt_regions)) with
                  | None => Undefined
                  | Some region => verify_regions info algo region fit_value fit_value_len
                  end
            end
      end
  end.

Definition fit_config_verify_sig (k : nat) (fit : blob) (conf_noffset : Z) (sig_blob : blob) (sig_offset : Z) : outcome :=
  verify_sig_loop k fit (λ noffset, fit_config_check_sig fit noffset sig_offset) (fdt_first_subnode fit conf_noffset).

Definition fit_config_verify_required_sigs (k : nat) (fit : blob) (conf_noffset : Z) (sig_blob : blob) : outcome :=
  let sig_node := fdt_subnode_offset sig_blob 0 FIT_SIG_NODENAME in
  if sig_node <? 0 then Ret 0
  else fst (required_loop k sig_blob text_conf (fit_config_verify_sig k fit conf_noffset sig_blob) (fdt_first_subnode sig_blob sig_node) 0).

(** Not 0 for success. *)
Definition fit_config_verify (k : nat) (fit : blob) (conf_noffset : Z) : outcome :=
  match fit_config_verify_required_sigs k fit conf_noffset gd_fdt_blob with
  | Ret ret => Ret (if ret =? 0 then 1 else 0)
  | o => o
  end.

End ImageSig.
