(* ===== verification/ImageSigSpec.v ===== *)
(** * Signed images: what is verified

    A success of the functions that check the required signatures means that
    the image, or the part of the configuration that the FIT selects, carries a
    signature by some key of the trusted tree. That this need not be the key
    that is marked as required is shown on a concrete image. *)

From S2P Require Import Prelude Word32 BlockHash Sha1 Montgomery RsaVerify RsaVerifySpec ImageSig.
From stdpp Require Import base option list.
From Stdlib Require Import ZArith Lia.
Local Open Scope Z_scope.

Section Spec.
Context {blob : Type} `{FdtNodes blob, !FdtLaws blob, !FdtNodesLaws blob}.

(** The nodes directly below a node, as libfdt walks over them. *)
Inductive subnode (b : blob) (parent : Z) : Z → Prop :=
  | subnode_first : 0 ≤ fdt_first_subnode b parent → subnode b parent (fdt_first_subnode b parent)
  | subnode_next n : subnode b parent n → 0 ≤ fdt_next_subnode b n → subnode b parent (fdt_next_subnode b n).

(** The same from a node on. *)
Inductive from_node (b : blob) (n : Z) : Z → Prop :=
  | from_here : 0 ≤ n → from_node b n n
  | from_next m : from_node b n m → 0 ≤ fdt_next_subnode b m → from_node b n (fdt_next_subnode b m).

Lemma subnode_from b parent n : subnode b parent n ↔ from_node b (fdt_first_subnode b parent) n.
Proof. split; induction 1; by constructor. Qed.

Lemma from_node_case b n m : from_node b n m → m = n ∨ 0 ≤ fdt_next_subnode b n ∧ from_node b (fdt_next_subnode b n) m.
Proof.
  induction 1 as [|m Hm IH Hn]; [by left|]. right. destruct IH as [->|[H1 H2]]; (split; [done|]); by constructor.
Qed.

Lemma from_node_step b n m : 0 ≤ n → from_node b (fdt_next_subnode b n) m → from_node b n m.
Proof. intros Hn. induction 1 as [|m Hm IH Hp]; [constructor; [by constructor|done]|by constructor]. Qed.

Lemma from_node_nonneg b n m : from_node b n m → 0 ≤ n.
Proof. by induction 1. Qed.

(** ** The loops *)

Lemma verify_sig_loop_sound k fit check : ∀ noffset, verify_sig_loop k fit check noffset = Ret 0 →
  ∃ n name, from_node fit noffset n ∧ fdt_get_name fit n = Some name ∧ is_signature name = true ∧ check n = Ret 0.
Proof.
  induction k as [|k IH]; intros noffset; [done|]. cbn [verify_sig_loop]. destruct (Z.leb_spec 0 noffset) as [Hn|]; [|by destruct (_ || _)].
  assert (Hnext : verify_sig_loop k fit check (fdt_next_subnode fit noffset) = Ret 0 →
    ∃ n name, from_node fit noffset n ∧ fdt_get_name fit n = Some name ∧ is_signature name = true ∧ check n = Ret 0).
  { intros (n&name&Hf&Hrest)%IH. exists n, name. split; [by apply from_node_step|done]. }
  destruct (fdt_get_name fit noffset) as [name|] eqn:En; [|done]. destruct (is_signature name) eqn:Es; [|done].
  destruct (check noffset) as [z| |] eqn:Ec; try done. destruct (Z.eqb_spec z 0) as [->|]; [|done]. intros _. exists noffset, name. split; [by constructor|done].
Qed.

Lemma required_loop_sound k sig_blob word verify_sig : ∀ noffset count, fst (required_loop k sig_blob word verify_sig noffset count) = Ret 0 →
  ∀ n, from_node sig_blob noffset n → required_is sig_blob n word = Some true → verify_sig n = Ret 0.
Proof.
  induction k as [|k IH]; intros noffset count; [done|]. cbn [required_loop]. destruct (Z.leb_spec 0 noffset) as [Hn|Hn].
  - intros E n Hf Hreq. apply from_node_case in Hf as [->|[Hp Hf]].
    + rewrite Hreq in E. destruct (verify_sig noffset) as [z| |]; try done. destruct (Z.eqb_spec z 0) as [Hz|Hz]; [by rewrite Hz|]. cbn in E. by injection E.
    + destruct (required_is sig_blob noffset word) as [[]|]; [|by apply (IH _ _ E)|done].
      destruct (verify_sig noffset) as [z| |]; try done. destruct (z =? 0) eqn:Ez; [by apply (IH _ _ E)|]. cbn in E. injection E as ->. done.
  - intros _ n Hf. apply from_node_nonneg in Hf. lia.
Qed.

(** A start of a walk for which [k] steps are enough. *)
Definition enough (b : blob) (k : nat) (noffset : Z) : Prop :=
  (0 < k)%nat ∧ (noffset < 0 ∨ noffset < fdt_totalsize b ∧ (Z.to_nat (fdt_totalsize b - noffset) < k)%nat).

Lemma enough_next b k noffset : 0 ≤ noffset → enough b (Datatypes.S k) noffset → enough b k (fdt_next_subnode b noffset).
Proof.
  intros Hn [_ [|[H1 H2]]]; [lia|]. split; [lia|]. destruct (Z.ltb_spec (fdt_next_subnode b noffset) 0) as [|Hp]; [by left|right].
  apply next_subnode_grows in Hp. lia.
Qed.

Lemma enough_first b k parent : (Z.to_nat (fdt_totalsize b) < k)%nat → enough b k (fdt_first_subnode b parent).
Proof.
  intros Hk. split; [lia|]. pose proof (first_subnode_inside b parent). destruct (Z.ltb_spec (fdt_first_subnode b parent) 0); [by left|right]. lia.
Qed.

Lemma verify_sig_loop_returns fit check : (∀ n, check n ≠ NoFuel) → ∀ k noffset, enough fit k noffset → verify_sig_loop k fit check noffset ≠ NoFuel.
Proof.
  intros Hc. induction k as [|k IH]; intros noffset Hk; [by destruct Hk; lia|]. cbn [verify_sig_loop]. destruct (Z.leb_spec 0 noffset) as [Hp|]; [|by destruct (_ || _)].
  pose proof (IH _ (enough_next _ _ _ Hp Hk)) as Hnext. destruct (fdt_get_name fit noffset) as [name|]; [|done]. destruct (is_signature name); [|done].
  destruct (check noffset) as [z| |] eqn:Ec; [by destruct (z =? 0)|done|by apply Hc in Ec].
Qed.

Lemma required_loop_returns sig_blob word verify_sig : (∀ n, verify_sig n ≠ NoFuel) → ∀ k noffset count, enough sig_blob k noffset →
  fst (required_loop k sig_blob word verify_sig noffset count) ≠ NoFuel.
Proof.
  intros Hc. induction k as [|k IH]; intros noffset count Hk; [by destruct Hk; lia|]. cbn [required_loop]. destruct (Z.leb_spec 0 noffset) as [Hp|]; [|done].
  pose proof (λ c, IH _ c (enough_next _ _ _ Hp Hk)) as Hnext. destruct (required_is sig_blob noffset word) as [[]|]; [|apply Hnext|done].
  destruct (verify_sig noffset) as [z| |] eqn:Ec; [destruct (z =? 0); [apply Hnext|done]|done|by apply Hc in Ec].
Qed.

(** ** Signatures *)

Context (gd_fdt_blob : blob) (fuel : nat) (ctx_buf : list Z).
Context (Htrust : trusted gd_fdt_blob) (Hctx : length ctx_buf = 64%nat).

(** The value of the node is a signature of the digest, by a key of the
    trusted tree. *)
Definition value_signs (fit : blob) (noffset : Z) (hash : list Z) : Prop :=
  ∃ s len node key, fdt_getprop fit noffset FIT_VALUE_PROP = Some (s, len) ∧ u32 len = 256 ∧ key_at gd_fdt_blob node key ∧ signs key s hash.

Lemma setup_ok fit noffset req info algo : fit_image_setup_verify gd_fdt_blob fuel ctx_buf fit noffset req = SetupOk info algo →
  fdt_blob info = gd_fdt_blob ∧ RsaVerify.fit info = fit ∧ verify algo = rsa_verify fuel ctx_buf.
Proof.
  unfold fit_image_setup_verify. assert (Ha : ∀ n a, image_get_sig_algo fuel ctx_buf n = Some a → verify a = rsa_verify fuel ctx_buf).
  { intros n a. unfold image_get_sig_algo, image_sig_algos. cbn. case_bool_decide; [by intros [= <-]|done]. }
  destruct (fit_image_hash_get_algo fit noffset) as [p|]; [|done]. destruct (string_at p) as [an|]; [|done].
  destruct (fdt_getprop fit noffset prop_hint) as [[q l]|].
  - destruct (string_at q); [|done]. destruct (image_get_sig_algo fuel ctx_buf an) as [a|] eqn:E; [|done]. intros [= <- <-]. eauto.
  - destruct (image_get_sig_algo fuel ctx_buf an) as [a|] eqn:E; [|done]. intros [= <- <-]. eauto.
Qed.

Lemma verify_regions_sound fit noffset info algo region s len : fdt_blob info = gd_fdt_blob → verify algo = rsa_verify fuel ctx_buf →
  fdt_getprop fit noffset FIT_VALUE_PROP = Some (s, len) → Forall bytes region → Forall fits32 region →
  verify_regions info algo region s len = Ret 0 → value_signs fit noffset (SHA1 (concat region)).
Proof.
  intros Hi Ha Hv Hb Hf. unfold verify_regions. rewrite Ha. assert (Hs : ∀ s', Some s = Some s' → bytes s') by (intros ? [= <-]; by eapply prop_bytes).
  destruct (rsa_verify _ _ _ _ _ _) as [z| |] eqn:E; try done. destruct (Z.eqb_spec z 0) as [->|]; [|done]. intros _.
  assert (Ht : trusted (fdt_blob info)) by by rewrite Hi.
  destruct (verify_sound info _ (Some s) (u32 len) Ht (SHA1_digest _) Hs fuel ctx_buf region (hash_regions_ok _ _ Hctx Hb Hf) E) as (node&key&s'&Hk&[= <-]&Hl&_&Hsig).
  exists s, len, node, key. rewrite Hi in Hk. done.
Qed.

Lemma fit_image_check_sig_sound fit noffset data req : bytes data → fits32 data →
  fit_image_check_sig gd_fdt_blob fuel ctx_buf fit noffset data req = Ret 0 → value_signs fit noffset (SHA1 data).
Proof.
  intros Hb Hf. unfold fit_image_check_sig. destruct (fit_image_setup_verify _ _ _ fit noffset req) as [info algo| |] eqn:Es; [|done..].
  apply setup_ok in Es as (Hi&_&Ha). unfold fit_image_hash_get_value. destruct (fdt_getprop fit noffset FIT_VALUE_PROP) as [[s len]|] eqn:Ev; [|done].
  rewrite <-(app_nil_r data) at 2. apply (verify_regions_sound fit noffset info algo [data]); try done; by apply Forall_cons_2.
Qed.

Lemma regions_ok fit rs region : fit_region_make_list fit rs = Some region → Forall bytes region ∧ Forall fits32 region.
Proof.
  unfold fit_region_make_list. intros Hm%mapM_Some.
  assert (Hr : ∀ r, r ∈ region → ∃ a n, r = take n (drop a (fdt_bytes fit))).
  { intros r Hin. induction Hm as [|[o sz] x rs region Hx _ IH]; [by apply elem_of_nil in Hin|].
    apply elem_of_cons in Hin as [->|Hin]; [|by apply IH]. destruct (_ && _); [|done]. injection Hx as <-. eauto. }
  split; apply Forall_forall; intros r (a&n&->)%Hr.
  - apply Forall_take, Forall_drop, fdt_bytes_bytes.
  - unfold fits32. rewrite length_take, length_drop. pose proof (fdt_bytes_fit fit). lia.
Qed.

(** The regions that a signature of a configuration covers: the nodes that its
    own property lists, and perhaps the strings. *)
Definition conf_regions (fit : blob) (noffset : Z) (region : list (list Z)) : Prop :=
  ∃ prop len names n rs, fdt_getprop fit noffset prop_hashed_nodes = Some (prop, len) ∧
    let count := count_strings (take (Z.to_nat len) prop) in
    (0 < count ≤ 100)%nat ∧ node_names (Datatypes.S (Datatypes.S count)) count prop len = Some names ∧
    fdt_find_regions fit names exc_prop (19 + Z.of_nat count * 7) = (n, rs) ∧ 0 < n < 19 + Z.of_nat count * 7 ∧
    fit_region_make_list fit (add_strings fit noffset (take (Z.to_nat n) rs)) = Some region.

Lemma fit_config_check_sig_sound fit noffset req :
  fit_config_check_sig gd_fdt_blob fuel ctx_buf fit noffset req = Ret 0 → ∃ region, conf_regions fit noffset region ∧ value_signs fit noffset (SHA1 (concat region)).
Proof.
  unfold fit_config_check_sig. destruct (fit_image_setup_verify _ _ _ fit noffset req) as [info algo| |] eqn:Es; [|done..].
  apply setup_ok in Es as (Hi&_&Ha). unfold fit_image_hash_get_value. destruct (fdt_getprop fit noffset FIT_VALUE_PROP) as [[s len]|] eqn:Ev; [|done].
  destruct (fdt_getprop fit noffset prop_hashed_nodes) as [[p l]|] eqn:Ep; [|done]. cbn [default from_option]. unfold id.
  set (count := count_strings _). destruct (Nat.eqb_spec count 0) as [|Hc]; [done|].
  destruct (Z.ltb_spec IMAGE_MAX_HASHED_NODES (Z.of_nat count)) as [|Hm]; [done|]. unfold IMAGE_MAX_HASHED_NODES in Hm.
  destruct (node_names _ count p l) as [names|] eqn:En; [|done]. cbv zeta.
  replace (20 + Z.of_nat count * 7 - 1) with (19 + Z.of_nat count * 7) by lia. destruct (fdt_find_regions fit names exc_prop _) as [n rs] eqn:Er.
  destruct (Z.ltb_spec n 0); [done|]. destruct (Z.eqb_spec n 0); [done|]. destruct (Z.leb_spec (19 + Z.of_nat count * 7) n); [done|].
  destruct (fit_region_make_list fit _) as [region|] eqn:El; [|done]. intros E. exists region. split.
  - exists p, l, names, n, rs. split; [done|]. cbv zeta. fold count. split_and!; (done || lia).
  - apply regions_ok in El as [Hb Hf]. by apply (verify_regions_sound fit noffset info algo region s len).
Qed.

(** ** Termination *)

Lemma verify_regions_returns fit noffset info algo region s len : fdt_blob info = gd_fdt_blob → RsaVerify.fit info = fit → verify algo = rsa_verify fuel ctx_buf →
  fdt_getprop fit noffset FIT_VALUE_PROP = Some (s, len) → Forall bytes region → Forall fits32 region →
  (Z.to_nat (fdt_totalsize fit) < fuel)%nat → verify_regions info algo region s len ≠ NoFuel.
Proof.
  intros Hi Hfit Ha Hv Hb Hf Hfuel. unfold verify_regions. rewrite Ha. assert (Hs : ∀ s', Some s = Some s' → bytes s') by (intros ? [= <-]; by eapply prop_bytes).
  rewrite <-Hfit in Hfuel. pose proof (verify_returns info (SHA1 (concat region)) (Some s) (u32 len) Hs fuel ctx_buf region (hash_regions_ok _ _ Hctx Hb Hf) Hfuel) as Hr.
  by destruct (rsa_verify _ _ _ _ _ _).
Qed.

Lemma fit_image_check_sig_returns fit noffset data req : bytes data → fits32 data → (Z.to_nat (fdt_totalsize fit) < fuel)%nat →
  fit_image_check_sig gd_fdt_blob fuel ctx_buf fit noffset data req ≠ NoFuel.
Proof.
  intros Hb Hf Hk. unfold fit_image_check_sig. destruct (fit_image_setup_verify _ _ _ fit noffset req) as [info algo| |] eqn:Es; [|done..].
  apply setup_ok in Es as (Hi&Hfit&Ha). unfold fit_image_hash_get_value. destruct (fdt_getprop fit noffset FIT_VALUE_PROP) as [[s len]|] eqn:Ev; [|done].
  apply (verify_regions_returns fit noffset info algo [data]); try done; by apply Forall_cons_2.
Qed.

Lemma fit_config_check_sig_returns fit noffset req : (Z.to_nat (fdt_totalsize fit) < fuel)%nat → fit_config_check_sig gd_fdt_blob fuel ctx_buf fit noffset req ≠ NoFuel.
Proof.
  intros Hk. unfold fit_config_check_sig. destruct (fit_image_setup_verify _ _ _ fit noffset req) as [info algo| |] eqn:Es; [|done..].
  apply setup_ok in Es as (Hi&Hfit&Ha). unfold fit_image_hash_get_value. destruct (fdt_getprop fit noffset FIT_VALUE_PROP) as [[s len]|] eqn:Ev; [|done].
  destruct (default _ _) as [p l]. destruct (_ =? 0)%nat; [done|]. destruct (_ <? _); [done|]. destruct (node_names _ _ _ _) as [names|]; [|done].
  cbv zeta. destruct (fdt_find_regions _ _ _ _) as [n rs]. do 3 (destruct (_ : bool); [done|]).
  destruct (fit_region_make_list fit _) as [region|] eqn:El; [|done]. apply regions_ok in El as [Hb Hf]. by apply (verify_regions_returns fit noffset info algo region).
Qed.

End Spec.

(** ** Properties *)

(** C8: when [fit_image_verify_required_sigs] succeeds and the trusted tree
    marks a key as required for images, the image has a signature node whose
    value is a signature of the data by a key of the trusted tree (by some key,
    not necessarily the required one). With more fuel than the sizes of the
    trees the check returns. *)
Theorem fit_image_verified {blob} `{FdtNodes blob, !FdtLaws blob, !FdtNodesLaws blob} gd_fdt_blob fuel ctx_buf k fit image_noffset data sig_blob
    (result := fit_image_verify_required_sigs gd_fdt_blob fuel ctx_buf k fit image_noffset data sig_blob) :
  trusted gd_fdt_blob → length ctx_buf = 64%nat → bytes data → fits32 data →
  (fst result = Ret 0 → ∀ key_node, subnode sig_blob (fdt_subnode_offset sig_blob 0 FIT_SIG_NODENAME) key_node →
    0 ≤ fdt_subnode_offset sig_blob 0 FIT_SIG_NODENAME → required_is sig_blob key_node text_image = Some true →
    ∃ noffset name, subnode fit image_noffset noffset ∧ fdt_get_name fit noffset = Some name ∧ is_signature name = true ∧
      value_signs gd_fdt_blob fit noffset (SHA1 data)) ∧
  ((Z.to_nat (fdt_totalsize fit) < fuel)%nat → (Z.to_nat (fdt_totalsize fit) < k)%nat → (Z.to_nat (fdt_totalsize sig_blob) < k)%nat → fst result ≠ NoFuel).
Proof.
  intros Ht Hc Hb Hf. unfold result, fit_image_verify_required_sigs. set (root := fdt_subnode_offset sig_blob 0 FIT_SIG_NODENAME). split.
  - intros E kn Hkn Hroot Hreq. rewrite (proj2 (Z.ltb_ge root 0)) in E by done.
    assert (E' : fst (required_loop k sig_blob text_image (fit_image_verify_sig gd_fdt_blob fuel ctx_buf k fit image_noffset data sig_blob) (fdt_first_subnode sig_blob root) 0) = Ret 0)
      by by destruct (required_loop _ _ _ _ _ _) as [[] ?].
    apply subnode_from in Hkn. pose proof (required_loop_sound _ _ _ _ _ _ E' kn Hkn Hreq) as Ev. unfold fit_image_verify_sig in Ev.
    apply verify_sig_loop_sound in Ev as (n&name&Hn&Hname&Hsig&Hcheck). exists n, name. split_and!; [by apply subnode_from|done..|].
    by apply (fit_image_check_sig_sound gd_fdt_blob fuel ctx_buf Ht Hc fit n data (-1)).
  - intros Hk1 Hk2 Hk3. destruct (root <? 0); [done|].
    assert (E : fst (required_loop k sig_blob text_image (fit_image_verify_sig gd_fdt_blob fuel ctx_buf k fit image_noffset data sig_blob) (fdt_first_subnode sig_blob root) 0) ≠ NoFuel).
    { apply required_loop_returns; [|by apply enough_first]. intros n. apply verify_sig_loop_returns; [|by apply enough_first].
      intros m. by apply fit_image_check_sig_returns. }
    by destruct (required_loop _ _ _ _ _ _) as [[] ?].
Qed.

(** C9: the same for configurations: what is signed are the regions that
    libfdt finds for the nodes which the signature node itself lists, and the
    strings that it gives. *)
Theorem fit_config_verified {blob} `{FdtNodes blob, !FdtLaws blob, !FdtNodesLaws blob} gd_fdt_blob fuel ctx_buf k fit conf_noffset
    (root := fdt_subnode_offset gd_fdt_blob 0 FIT_SIG_NODENAME) :
  trusted gd_fdt_blob → length ctx_buf = 64%nat →
  (fit_config_verify gd_fdt_blob fuel ctx_buf k fit conf_noffset = Ret 1 → ∀ key_node, subnode gd_fdt_blob root key_node →
    0 ≤ root → required_is gd_fdt_blob key_node text_conf = Some true →
    ∃ noffset name region, subnode fit conf_noffset noffset ∧ fdt_get_name fit noffset = Some name ∧ is_signature name = true ∧
      conf_regions fit noffset region ∧ value_signs gd_fdt_blob fit noffset (SHA1 (concat region))) ∧
  ((Z.to_nat (fdt_totalsize fit) < fuel)%nat → (Z.to_nat (fdt_totalsize fit) < k)%nat → (Z.to_nat (fdt_totalsize gd_fdt_blob) < k)%nat →
    fit_config_verify gd_fdt_blob fuel ctx_buf k fit conf_noffset ≠ NoFuel).
Proof.
  intros Ht Hc. unfold fit_config_verify, fit_config_verify_required_sigs. fold root. split.
  - intros E kn Hkn Hroot Hreq. rewrite (proj2 (Z.ltb_ge root 0)) in E by done.
    destruct (required_loop k gd_fdt_blob text_conf _ _ 0) as [o c] eqn:El. cbn [fst] in E. destruct o as [z| |]; try done. destruct (Z.eqb_spec z 0) as [->|]; [|done].
    apply (f_equal fst) in El. apply subnode_from in Hkn. pose proof (required_loop_sound _ _ _ _ _ _ El kn Hkn Hreq) as Ev. unfold fit_config_verify_sig in Ev.
    apply verify_sig_loop_sound in Ev as (n&name&Hn&Hname&Hsig&Hcheck).
    destruct (fit_config_check_sig_sound gd_fdt_blob fuel ctx_buf Ht Hc fit n kn Hcheck) as (region&Hregion&Hsigned).
    exists n, name, region. split_and!; [by apply subnode_from|done..].
  - intros Hk1 Hk2 Hk3. destruct (root <? 0); [done|].
    assert (E : fst (required_loop k gd_fdt_blob text_conf (fit_config_verify_sig gd_fdt_blob fuel ctx_buf k fit conf_noffset gd_fdt_blob) (fdt_first_subnode gd_fdt_blob root) 0) ≠ NoFuel).
    { apply required_loop_returns; [|by apply enough_first]. intros n. apply verify_sig_loop_returns; [|by apply enough_first].
      intros m. by apply fit_config_check_sig_returns. }
    by destruct (fst _).
Qed.

(** ** The array of node names *)

Lemma first_nul q : (0 < count_strings q)%nat → ∃ s q', q = s ++ 0 :: q' ∧ Forall (λ c, c ≠ 0) s ∧ count_strings q = Datatypes.S (count_strings q').
Proof.
  unfold count_strings. induction q as [|c q IH]; [cbn; lia|]. rewrite filter_cons. case_decide as Hc.
  - intros _. exists [], q. subst c. split_and!; [done|constructor|done].
  - intros Hq. destruct (IH Hq) as (s&q'&->&Hs&E). exists (c :: s), q'. split_and!; [done|by constructor|done].
Qed.

Lemma string_at_text s rest : Forall (λ c, c ≠ 0) s → string_at (s ++ 0 :: rest) = Some s.
Proof. induction 1 as [|c s Hc _ IH]; [done|]. cbn [app string_at]. rewrite (proj2 (Z.eqb_neq _ _)) by done. by rewrite IH. Qed.

Lemma no_nul q : count_strings q = 0%nat → last q ≠ Some 0.
Proof.
  unfold count_strings. intros H E. apply last_Some in E as [l ->]. rewrite filter_app, filter_cons_True, length_app in H by done. cbn in H. lia.
Qed.

Lemma node_names_ok tail k : ∀ fuel q, count_strings q = k → (k < fuel)%nat →
  if decide (q = [] ∨ last q = Some 0) then ∃ names, node_names fuel k (q ++ tail) (Z.of_nat (length q)) = Some names ∧ length names = k
  else node_names fuel k (q ++ tail) (Z.of_nat (length q)) = None.
Proof.
  induction k as [|k IH]; intros fuel q Hk Hf; (destruct fuel as [|fuel]; [lia|]); cbn [node_names].
  - pose proof (no_nul q Hk) as Hl. destruct q as [|c q]; [rewrite decide_True by (by left); by exists []|].
    rewrite decide_False by (intros [|]; done). rewrite (proj2 (Z.ltb_lt _ _)) by (cbn [length]; lia). done.
  - destruct (first_nul q ltac:(lia)) as (s&q'&->&Hs&E). rewrite E in Hk. injection Hk as Hk. rewrite (proj2 (Z.ltb_lt _ _)) by (rewrite length_app; cbn [length]; lia).
    rewrite <-app_assoc. cbn [app]. rewrite string_at_text by done. cbn [mbind option_bind].
    replace (s ++ 0 :: q' ++ tail) with ((s ++ [0]) ++ q' ++ tail) by by rewrite <-app_assoc.
    rewrite drop_app_ge by (rewrite length_app; cbn; lia). rewrite length_app. cbn [length]. replace (Datatypes.S (length s) - (length s + 1))%nat with 0%nat by lia. rewrite drop_0.
    replace (Z.of_nat (length (s ++ 0 :: q')) - Z.of_nat (Datatypes.S (length s))) with (Z.of_nat (length q')) by (rewrite length_app; cbn [length]; lia).
    specialize (IH fuel q' Hk ltac:(lia)).
    assert (El : (s ++ 0 :: q' = [] ∨ last (s ++ 0 :: q') = Some 0) ↔ (q' = [] ∨ last q' = Some 0)).
    { rewrite last_app_cons. destruct q' as [|c q']; [split; [by left|by right]|]. split; intros [Hx|Hx]; try done; [by destruct s|by right|by right]. }
    destruct (decide (q' = [] ∨ last q' = Some 0)) as [Hd|Hd].
    + rewrite decide_True by by apply El. destruct IH as (names&->&<-). by exists (s :: names).
    + rewrite decide_False by by rewrite El. by rewrite IH.
Qed.

(** C11: the array for the names of the hashed nodes is filled exactly when the
    property ends with a NUL; when it does not, [fit_config_check_sig] writes
    behind the array, since it counts the NULs and not the strings. *)
Theorem hashed_nodes_bounds {blob} `{FdtNodes blob} gd_fdt_blob fuel ctx_buf fit noffset req prop rest value info algo (count := count_strings prop) :
  fdt_getprop fit noffset prop_hashed_nodes = Some (prop ++ rest, Z.of_nat (length prop)) → fdt_getprop fit noffset FIT_VALUE_PROP = Some value →
  fit_image_setup_verify gd_fdt_blob fuel ctx_buf fit noffset req = SetupOk info algo → (0 < count ≤ 100)%nat →
  (last prop = Some 0 → ∃ names, node_names (Datatypes.S (Datatypes.S count)) count (prop ++ rest) (Z.of_nat (length prop)) = Some names ∧ length names = count) ∧
  (last prop ≠ Some 0 → fit_config_check_sig gd_fdt_blob fuel ctx_buf fit noffset req = Undefined).
Proof.
  intros Hp Hv Hs Hc. pose proof (node_names_ok rest count (Datatypes.S (Datatypes.S count)) prop eq_refl ltac:(lia)) as H'. split; intros Hl.
  - rewrite decide_True in H' by (by right). done.
  - unfold fit_config_check_sig. rewrite Hs. unfold fit_image_hash_get_value. rewrite Hv, Hp. destruct value as [value len]. cbn [default from_option]. unfold id.
    rewrite Nat2Z.id, take_app_length. fold count. rewrite (proj2 (Nat.eqb_neq _ _)) by lia. rewrite (proj2 (Z.ltb_ge _ _)) by (unfold IMAGE_MAX_HASHED_NODES; lia).
    rewrite decide_False in H'; [by rewrite H'|]. intros [->|]; [cbn in Hc; lia|done].
Qed.

(** ** A signed image *)

Module SampleImage.
Import SampleTree.

#[export] Instance sample_nodes : FdtNodes tree := {
  fdt_first_subnode t parent := match find (λ n, n_parent n =? parent) t with Some n => n_off n | None => -1 end;
  fdt_next_subnode t off :=
    match node_at t off with
    | Some n => match find (λ n', (off <? n_off n') && (n_parent n' =? n_parent n)) t with Some n' => n_off n' | None => -1 end
    | None => -1
    end;
  fdt_get_name t off := n_name <$> node_at t off;
  fdt_find_regions t inc exc max_regions := (1, [(0, 2)]);
  fdt_off_dt_strings t := 0;
  fdt_bytes t := msg;
}.

Lemma totalsize_nonneg (t : tree) : 0 ≤ fdt_totalsize t.
Proof. induction t as [|n t IH]; cbn in *; lia. Qed.

#[export] Instance sample_nodes_laws : FdtNodesLaws tree.
Proof.
  split.
  - intros t parent. cbn [fdt_first_subnode sample_nodes]. destruct (find _ t) as [n|] eqn:E; [|pose proof (totalsize_nonneg t); lia]. apply find_some in E as [Hin _]. by apply totalsize_node.
  - intros t off. cbn [fdt_next_subnode sample_nodes]. destruct (node_at t off) as [n|]; [|lia]. destruct (find _ t) as [n'|] eqn:E; [|lia].
    apply find_some in E as [Hin [Hlt%Z.ltb_lt _]%andb_true_iff]. intros _. apply totalsize_node in Hin. lia.
  - intros t. by repeat (apply Forall_cons_2; [done|]).
  - intros t. done.
Qed.

(** An image and a configuration with a signature each. *)
Definition sig_props (nodes : list Z) : list (list Z * list Z) :=
  [(FIT_ALGO_PROP, algo_name ++ [0]); (prop_hint, dev ++ [0]); (FIT_VALUE_PROP, dev_signature); (prop_hashed_nodes, nodes)].

Definition the_fit (nodes : list Z) : tree := [
  TNode 0 (-1) 0 [] [];
  TNode 4 0 1 [107] [];
  TNode 8 4 2 [104; 97; 115; 104] [];
  TNode 12 4 2 (FIT_SIG_NODENAME ++ [64; 49]) (sig_props nodes)].

Definition hashed : list Z := [47; 0; 47; 107; 0].

(** Every signature of the message is accepted. *)
Lemma the_info word nodes req : ∃ algo, fit_image_setup_verify (the_tree word) 1000 (replicate 64 0) (the_fit nodes) 12 req =
  SetupOk (SignInfo (Some dev) (the_fit nodes) 12 (the_tree word) req) algo ∧ verify algo = rsa_verify 1000 (replicate 64 0).
Proof. exists (SigAlgo algo_name (rsa_verify 1000 (replicate 64 0))). by split. Qed.

Lemma sample_verify info word : fdt_blob info = the_tree word → keyname info = Some dev → required_keynode info = -1 ∨ required_keynode info = 800 →
  rsa_verify 1000 (replicate 64 0) info [msg] (Some dev_signature) 256 = Ret 0.
Proof.
  intros Hi Hname Hreq. assert (Ht : trusted (fdt_blob info)) by (rewrite Hi; apply the_tree_trusted).
  apply (verify_hint info (SHA1 msg) (Some dev_signature) 256 Ht (SHA1_digest msg) dev_signature_bytes 1000 _ _ ([107; 101; 121; 45] ++ dev)).
  - by apply (hash_regions_ok _ [msg]); [|apply msg_bytes|apply msg_fits].
  - by rewrite Hi.
  - rewrite Hname. by vm_compute.
  - destruct Hreq as [Hr|Hr]; [by left|right]. exists (-14). unfold rsa_verify_with_keynode. rewrite Hi, Hr. by vm_compute.
  - rewrite Hi. by apply (dev_signed_for info word).
Qed.

Lemma sample_regions word nodes req info algo : req = -1 ∨ req = 800 →
  fit_image_setup_verify (the_tree word) 1000 (replicate 64 0) (the_fit nodes) 12 req = SetupOk info algo → verify_regions info algo [msg] dev_signature 256 = Ret 0.
Proof.
  intros Hreq Hs. destruct (the_info word nodes req) as (a&E&Ha). rewrite E in Hs. injection Hs as <- <-.
  unfold verify_regions. rewrite Ha. change (u32 256) with 256. by rewrite (sample_verify (SignInfo (Some dev) (the_fit nodes) 12 (the_tree word) req) word) by done.
Qed.

Lemma sample_image_sig word req : req = -1 ∨ req = 800 → fit_image_check_sig (the_tree word) 1000 (replicate 64 0) (the_fit hashed) 12 msg req = Ret 0.
Proof.
  intros Hreq. unfold fit_image_check_sig. destruct (the_info word hashed req) as (a&E&_). rewrite E.
  change (fit_image_hash_get_value (the_fit hashed) 12) with (Some (u8 <$> dev_signature, 256)). replace (u8 <$> dev_signature) with dev_signature by (by vm_compute).
  by apply (sample_regions word hashed req).
Qed.

Lemma sample_config_sig word req : req = -1 ∨ req = 800 → fit_config_check_sig (the_tree word) 1000 (replicate 64 0) (the_fit hashed) 12 req = Ret 0.
Proof.
  intros Hreq. unfold fit_config_check_sig. destruct (the_info word hashed req) as (a&E&_). rewrite E.
  change (fit_image_hash_get_value (the_fit hashed) 12) with (Some (u8 <$> dev_signature, 256)). replace (u8 <$> dev_signature) with dev_signature by (by vm_compute).
  by apply (sample_regions word hashed req).
Qed.

(** The loops over the two trees, for any verification. *)
Lemma sample_loop word text verify_sig : required_is (the_tree word) 8 text = Some false → required_is (the_tree word) 800 text = Some true →
  verify_sig 800 = Ret 0 → required_loop 3 (the_tree word) text verify_sig (fdt_first_subnode (the_tree word) 4) 0 = (Ret 0, 1%nat).
Proof.
  intros H1 H2 H3. change 1000%nat with (Datatypes.S (Datatypes.S (Datatypes.S 997))). change (fdt_first_subnode (the_tree word) 4) with 8.
  cbn [required_loop]. rewrite H1. change (fdt_next_subnode (the_tree word) 8) with 800. change (0 <=? 8) with true. change (0 <=? 800) with true. cbv iota.
  rewrite H2, H3. done.
Qed.

Lemma sample_sig_loop check : check 12 = Ret 0 → verify_sig_loop 3 (the_fit hashed) check (fdt_first_subnode (the_fit hashed) 4) = Ret 0.
Proof.
  intros Hc. change (fdt_first_subnode (the_fit hashed) 4) with 8.
  cbn [verify_sig_loop]. change (fdt_next_subnode (the_fit hashed) 8) with 12. change (0 <=? 8) with true. change (0 <=? 12) with true. cbv iota. by cbn; rewrite Hc.
Qed.

(** The trusted tree requires images to be signed by the second key, which
    cannot verify anything; a signature by the first key is accepted. *)
Lemma required_image_key_ignored : required_is (the_tree image) 800 text_image = Some true ∧ required_is (the_tree image) 8 text_image = Some false ∧
  fit_image_verify_required_sigs (the_tree image) 1000 (replicate 64 0) 3 (the_fit hashed) 4 msg (the_tree image) = (Ret 0, 0).
Proof.
  split_and!; [by vm_compute..|]. unfold fit_image_verify_required_sigs. change (fdt_subnode_offset (the_tree image) 0 FIT_SIG_NODENAME) with 4. cbn [Z.ltb].
  rewrite sample_loop; [done|by vm_compute..|]. unfold fit_image_verify_sig. apply sample_sig_loop. apply sample_image_sig. by left.
Qed.

(** The same for a configuration, although the required key is passed on. *)
Lemma required_conf_key_ignored : required_is (the_tree text_conf) 800 text_conf = Some true ∧ required_is (the_tree text_conf) 8 text_conf = Some false ∧
  fit_config_verify (the_tree text_conf) 1000 (replicate 64 0) 3 (the_fit hashed) 4 = Ret 1.
Proof.
  split_and!; [by vm_compute..|]. unfold fit_config_verify, fit_config_verify_required_sigs. change (fdt_subnode_offset (the_tree text_conf) 0 FIT_SIG_NODENAME) with 4. cbn [Z.ltb].
  rewrite sample_loop; [done|by vm_compute..|]. unfold fit_config_verify_sig. apply sample_sig_loop. apply sample_config_sig. by right.
Qed.

Lemma required_node word : subnode (the_tree word) 4 800.
Proof.
  change 800 with (fdt_next_subnode (the_tree word) 8). change 8 with (fdt_first_subnode (the_tree word) 4).
  apply subnode_next; [by apply subnode_first|done].
Qed.

Lemma fit_image_verified_witness : ∃ noffset name, subnode (the_fit hashed) 4 noffset ∧ fdt_get_name (the_fit hashed) noffset = Some name ∧ is_signature name = true ∧
  value_signs (the_tree image) (the_fit hashed) noffset (SHA1 msg).
Proof.
  apply (proj1 (fit_image_verified (the_tree image) 1000 (replicate 64 0) 3 (the_fit hashed) 4 msg (the_tree image) (the_tree_trusted image) eq_refl
    (Forall_inv msg_bytes) (Forall_inv msg_fits)) (f_equal fst (proj2 (proj2 required_image_key_ignored))) 800 (required_node image)); [by vm_compute|apply required_image_key_ignored].
Defined.

Lemma fit_config_verified_witness : ∃ noffset name region, subnode (the_fit hashed) 4 noffset ∧ fdt_get_name (the_fit hashed) noffset = Some name ∧ is_signature name = true ∧
  conf_regions (the_fit hashed) noffset region ∧ value_signs (the_tree text_conf) (the_fit hashed) noffset (SHA1 (concat region)).
Proof.
  apply (proj1 (fit_config_verified (the_tree text_conf) 1000 (replicate 64 0) 3 (the_fit hashed) 4 (the_tree_trusted text_conf) eq_refl)
    (proj2 (proj2 required_conf_key_ignored)) 800 (required_node text_conf)); [by vm_compute|apply required_conf_key_ignored].
Defined.

(** A list of nodes whose last string is not terminated in the property. *)
Definition unterminated : list Z := [47; 0; 47; 107].

Lemma hashed_nodes_bounds_witness : fit_config_check_sig (the_tree image) 1000 (replicate 64 0) (the_fit unterminated) 12 (-1) = Undefined.
Proof.
  destruct (the_info image unterminated (-1)) as (a&E&_).
  apply (proj2 (hashed_nodes_bounds (the_tree image) 1000 (replicate 64 0) (the_fit unterminated) 12 (-1) unterminated [] (u8 <$> dev_signature, 256) _ a
    ltac:(by vm_compute) ltac:(by vm_compute) E ltac:(split; apply Nat.leb_le; by vm_compute))). by vm_compute.
Defined.

End SampleImage.
