(* ===== verification/Circbuf.v ===== *)
(** * Circular buffers

    Translation of [lib/circbuf.c]. A pointer into the buffer is an offset from
    [data], the pointer [end] is the offset [totalsize], and an access outside
    of the array makes the operation [None]. The buffer is refined against a
    queue that forgets its oldest bytes when it is full. *)

From stdpp Require Import base option list.
From Stdlib Require Import ZArith Lia.
From S2P Require Import Prelude.
Local Open Scope nat_scope.

Record circbuf := mkBuf { size : nat; totalsize : nat; top : nat; tail : nat; data : list Z }.

(** [m] is what [malloc] returns. *)
Definition buf_init (m : list Z) (size : nat) : circbuf := mkBuf 0 size 0 0 (take size m).

Definition buf_free (buf : circbuf) : circbuf := mkBuf 0 0 0 0 [].

(** [p++], and back to the start at the end. *)
Definition advance (buf : circbuf) (p : nat) : nat := if S p =? totalsize buf then 0 else S p.

Fixpoint pop_loop (len : nat) (buf : circbuf) (p : nat) : option (list Z * nat) :=
  match len with
  | O => Some ([], p)
  | S len =>
      c ← data buf !! p;
      '(dest, p) ← pop_loop len buf (advance buf p);
      Some (c :: dest, p)
  end.

(** The buffer, what has been written to [dest], and the return value. *)
Definition buf_pop (buf : circbuf) (len : nat) : option (circbuf * list Z * nat) :=
  let len := if size buf <? len then size buf else len in
  '(dest, p) ← pop_loop len buf (top buf);
  Some (mkBuf (size buf - len) (totalsize buf) p (tail buf) (data buf), dest, len).

(** One iteration of the loop of [buf_push], with [p] in the place of [tail]. *)
Definition push_byte (buf : circbuf) (c : Z) : option circbuf :=
  if tail buf <? length (data buf) then
    let d := <[tail buf := c]> (data buf) in
    let p := advance buf (tail buf) in
    Some (if size buf <? totalsize buf then mkBuf (S (size buf)) (totalsize buf) (top buf) p d
          else mkBuf (size buf) (totalsize buf) (advance buf (top buf)) p d)
  else None.

Fixpoint push_loop (src : list Z) (buf : circbuf) : option circbuf :=
  match src with
  | [] => Some buf
  | c :: src => buf ← push_byte buf c; push_loop src buf
  end.

Definition buf_push (buf : circbuf) (src : list Z) : option (circbuf * nat) :=
  buf ← push_loop src buf; Some (buf, length src).

(** ** The queue *)

(** A queue with room for [n] bytes. *)
Definition q_push (n : nat) (q src : list Z) : list Z := let r := q ++ src in drop (length r - n) r.
Definition q_pop (q : list Z) (len : nat) : list Z * list Z := (take len q, drop len q).

(** The bytes that the buffer holds, the oldest first. *)
Definition contents (buf : circbuf) : list Z := take (size buf) (drop (top buf) (data buf ++ data buf)).

Record buf_ok (buf : circbuf) : Prop := {
  bo_data : length (data buf) = totalsize buf;
  bo_top : top buf < totalsize buf;
  bo_size : size buf ≤ totalsize buf;
  bo_tail : tail buf = (top buf + size buf) mod totalsize buf;
}.

(** ** Lemmas *)

Lemma advance_mod buf p : p < totalsize buf → advance buf p = (S p) mod totalsize buf.
Proof.
  intros Hp. unfold advance. destruct (Nat.eqb_spec (S p) (totalsize buf)) as [->|]; [by rewrite Nat.Div0.mod_same|]. rewrite Nat.mod_small; lia.
Qed.

(** The byte at a distance from the oldest one. *)
Lemma contents_lookup buf i : buf_ok buf → i < size buf → contents buf !! i = data buf !! ((top buf + i) mod totalsize buf).
Proof.
  intros [Hd Ht Hs _] Hi. unfold contents. rewrite lookup_take, decide_True by done. rewrite lookup_drop.
  destruct (Nat.lt_ge_cases (top buf + i) (totalsize buf)).
  - rewrite lookup_app_l by lia. by rewrite Nat.mod_small.
  - rewrite lookup_app_r by lia. f_equal. rewrite Hd. replace (top buf + i) with (top buf + i - totalsize buf + 1 * totalsize buf) at 2 by lia.
    rewrite Nat.Div0.mod_add, Nat.mod_small; lia.
Qed.

Lemma contents_length buf : buf_ok buf → length (contents buf) = size buf.
Proof. intros [Hd Ht Hs _]. unfold contents. rewrite length_take, length_drop, length_app. lia. Qed.

(** Contents are determined byte by byte. *)
Lemma contents_eq buf l : buf_ok buf → length l = size buf → (∀ i, i < size buf → l !! i = data buf !! ((top buf + i) mod totalsize buf)) → contents buf = l.
Proof.
  intros Hb Hl H. apply list_eq. intros i. destruct (Nat.lt_ge_cases i (size buf)).
  - rewrite contents_lookup by done. by rewrite H.
  - rewrite !lookup_ge_None_2; [done| |]; rewrite ?contents_length by done; lia.
Qed.

Lemma push_byte_ok buf c : buf_ok buf → ∃ buf', push_byte buf c = Some buf' ∧ buf_ok buf' ∧ totalsize buf' = totalsize buf ∧
  contents buf' = q_push (totalsize buf) (contents buf) [c].
Proof.
  intros Hb. assert (Hb' := Hb). destruct Hb' as [Hd Ht Hs Htl]. assert (Hlt : tail buf < totalsize buf) by (rewrite Htl; apply Nat.mod_upper_bound; lia).
  unfold push_byte. rewrite (proj2 (Nat.ltb_lt _ _)) by lia. eexists. split; [done|]. rewrite !advance_mod by done.
  assert (Hne : ∀ i, i < size buf → i ≠ 0 ∨ size buf < totalsize buf → (top buf + i) mod totalsize buf ≠ tail buf).
  { intros i Hi Hz E. rewrite Htl in E. pose proof (Nat.div_mod_eq (top buf + i) (totalsize buf)). pose proof (Nat.div_mod_eq (top buf + size buf) (totalsize buf)).
    rewrite E in *. assert (size buf - i = totalsize buf * ((top buf + size buf) / totalsize buf - (top buf + i) / totalsize buf)) by nia.
    destruct ((top buf + size buf) / totalsize buf - (top buf + i) / totalsize buf) as [|k]; nia. }
  destruct (Nat.ltb_spec (size buf) (totalsize buf)) as [Hroom|Hfull].
  - set (buf' := mkBuf _ _ _ _ _). assert (Hok : buf_ok buf').
    { split; cbn; [by rewrite length_insert|done|lia|]. rewrite Htl. rewrite <-(Nat.add_1_l (_ mod _)), Nat.Div0.add_mod_idemp_r. f_equal. lia. }
    split_and!; [done|done|]. unfold q_push. rewrite length_app, contents_length by done. cbn [length]. replace (size buf + 1 - totalsize buf) with 0 by lia. rewrite drop_0.
    apply contents_eq; [done|rewrite length_app, contents_length by done; cbn; lia|]. cbn. intros i Hi. destruct (decide (i = size buf)) as [->|].
    + rewrite lookup_app_r by (rewrite contents_length by done; lia). rewrite contents_length, Nat.sub_diag by done. rewrite <-Htl. by rewrite list_lookup_insert_eq by lia.
    + rewrite lookup_app_l by (rewrite contents_length by done; lia). rewrite contents_lookup by (done || lia). rewrite list_lookup_insert_ne; [done|]. symmetry. apply Hne; lia.
  - set (buf' := mkBuf _ _ _ _ _). assert (Etl : tail buf = top buf).
    { rewrite Htl. replace (top buf + size buf) with (top buf + 1 * totalsize buf) by lia. rewrite Nat.Div0.mod_add. by apply Nat.mod_small. }
    assert (Hok : buf_ok buf').
    { split; cbn; [by rewrite length_insert|apply Nat.mod_upper_bound; lia|lia|]. rewrite Etl, Nat.Div0.add_mod_idemp_l.
      replace (S (top buf) + size buf) with (S (top buf) + 1 * totalsize buf) by lia. by rewrite Nat.Div0.mod_add. }
    split_and!; [done|done|]. unfold q_push. rewrite length_app, contents_length by done. cbn [length]. replace (size buf + 1 - totalsize buf) with 1 by lia.
    apply contents_eq; [done|rewrite length_drop, length_app, contents_length by done; cbn; lia|]. cbn. intros i Hi. rewrite lookup_drop, Nat.Div0.add_mod_idemp_l.
    destruct (decide (S i = size buf)) as [E|].
    + rewrite lookup_app_r by (rewrite contents_length by done; lia). rewrite contents_length by done. replace (1 + i - size buf) with 0 by lia.
      replace (S (top buf) + i) with (top buf + 1 * totalsize buf) by lia. rewrite Nat.Div0.mod_add, Nat.mod_small by done. rewrite Etl. by rewrite list_lookup_insert_eq by lia.
    + rewrite lookup_app_l by (rewrite contents_length by done; lia). rewrite contents_lookup by (done || lia).
      replace (S (top buf) + i) with (top buf + (1 + i)) by lia. rewrite list_lookup_insert_ne; [done|]. symmetry. apply Hne; lia.
Qed.

Lemma q_push_cons n q c src : length q ≤ n → q_push n (q_push n q [c]) src = q_push n q (c :: src).
Proof.
  intros Hq. unfold q_push. rewrite !length_app, length_drop, length_app. cbn [length].
  destruct (Nat.le_gt_cases (length q + 1) n).
  - replace (length q + 1 - n) with 0 by lia. rewrite drop_0, <-app_assoc, Nat.sub_0_r. cbn [app]. f_equal. lia.
  - replace (q ++ c :: src) with ((q ++ [c]) ++ src) by by rewrite <-app_assoc.
    rewrite <-(drop_app_le (q ++ [c]) src) by (rewrite length_app; cbn; lia). rewrite drop_drop. f_equal. lia.
Qed.

Lemma push_loop_ok src : ∀ buf, buf_ok buf → ∃ buf', push_loop src buf = Some buf' ∧ buf_ok buf' ∧ totalsize buf' = totalsize buf ∧
  contents buf' = q_push (totalsize buf) (contents buf) src.
Proof.
  induction src as [|c src IH]; intros buf Hb; cbn [push_loop].
  - exists buf. split_and!; [done..|]. unfold q_push. rewrite app_nil_r, contents_length by done. replace (size buf - totalsize buf) with 0 by (destruct Hb; lia). by rewrite drop_0.
  - destruct (push_byte_ok buf c Hb) as (b1&->&Hb1&Ht1&Hc1). cbn [mbind option_bind]. destruct (IH b1 Hb1) as (b2&->&Hb2&Ht2&Hc2). exists b2.
    split_and!; [done|done|congruence|]. rewrite Hc2, Hc1, Ht1. apply q_push_cons. rewrite contents_length by done. by destruct Hb.
Qed.

Lemma pop_loop_ok buf len : buf_ok buf → ∀ k, k + len ≤ size buf →
  pop_loop len buf ((top buf + k) mod totalsize buf) = Some (take len (drop k (contents buf)), (top buf + k + len) mod totalsize buf).
Proof.
  intros Hb. assert (Hn : totalsize buf ≠ 0) by (destruct Hb; lia). induction len as [|len IH]; intros k Hk; cbn [pop_loop].
  - by rewrite Nat.add_0_r.
  - rewrite advance_mod by (apply Nat.mod_upper_bound; lia). rewrite <-(Nat.add_1_l (_ mod _)), Nat.Div0.add_mod_idemp_r.
    replace (1 + (top buf + k)) with (top buf + S k) by lia. rewrite <-contents_lookup by (done || lia).
    destruct (lookup_lt_is_Some_2 (contents buf) k) as [c Ec]; [rewrite contents_length by done; lia|]. rewrite Ec. cbn [mbind option_bind]. rewrite IH by lia. cbn [mbind option_bind].
    rewrite (drop_S _ c k) by done. rewrite firstn_cons. do 3 f_equal. lia.
Qed.

Lemma buf_pop_ok buf len : buf_ok buf → ∃ buf', buf_pop buf len = Some (buf', take len (contents buf), len `min` size buf) ∧
  buf_ok buf' ∧ totalsize buf' = totalsize buf ∧ contents buf' = drop len (contents buf).
Proof.
  intros Hb. assert (Hb' := Hb). destruct Hb' as [Hd Ht Hs Htl]. unfold buf_pop.
  set (l := if size buf <? len then size buf else len). assert (El : l = len `min` size buf) by (unfold l; destruct (Nat.ltb_spec (size buf) len); lia).
  pose proof (pop_loop_ok buf l Hb 0 ltac:(lia)) as Hp. rewrite Nat.add_0_r, Nat.mod_small, drop_0 in Hp by done. rewrite Hp. cbn [mbind option_bind].
  set (buf' := mkBuf _ _ _ _ _). assert (Hok : buf_ok buf').
  { split; cbn; [done|apply Nat.mod_upper_bound; lia|lia|]. rewrite Nat.Div0.add_mod_idemp_l, Htl. f_equal. lia. }
  assert (Etake : take l (contents buf) = take len (contents buf)).
  { rewrite El. destruct (Nat.le_gt_cases len (size buf)); [by rewrite Nat.min_l by lia|]. rewrite !take_ge by (rewrite contents_length by done; lia). done. }
  assert (Edrop : drop l (contents buf) = drop len (contents buf)).
  { rewrite El. destruct (Nat.le_gt_cases len (size buf)); [by rewrite Nat.min_l by lia|]. rewrite !drop_ge by (rewrite contents_length by done; lia). done. }
  exists buf'. rewrite Etake, El. split_and!; [done..|]. rewrite <-Edrop. apply contents_eq; [done|rewrite length_drop, contents_length by done; done|].
  cbn. intros i Hi. rewrite lookup_drop, contents_lookup by (done || lia). rewrite Nat.Div0.add_mod_idemp_l. do 2 f_equal. lia.
Qed.

(** ** Sequences of operations *)

Inductive op := Push (src : list Z) | Pop (len : nat).

(** The bytes that the pops return, from the code and from the queue. *)
Fixpoint run (ops : list op) (buf : circbuf) : option (circbuf * list (list Z)) :=
  match ops with
  | [] => Some (buf, [])
  | Push src :: ops => '(buf, _) ← buf_push buf src; run ops buf
  | Pop len :: ops => '(buf, dest, _) ← buf_pop buf len; '(buf, out) ← run ops buf; Some (buf, dest :: out)
  end.

Fixpoint run_queue (n : nat) (ops : list op) (q : list Z) : list Z * list (list Z) :=
  match ops with
  | [] => (q, [])
  | Push src :: ops => run_queue n ops (q_push n q src)
  | Pop len :: ops => let '(dest, q) := q_pop q len in let '(q, out) := run_queue n ops q in (q, dest :: out)
  end.

(** C14: any sequence of pushes and pops on a circular buffer of at least one
    byte stays inside the array and returns what a queue of that size returns
    which forgets its oldest bytes when it is full. *)
Theorem circbuf_queue m n ops : 0 < n ≤ length m →
  ∃ buf, run ops (buf_init m n) = Some (buf, snd (run_queue n ops [])) ∧ buf_ok buf ∧ contents buf = fst (run_queue n ops []).
Proof.
  intros Hn. assert (Hok : buf_ok (buf_init m n)) by (split; cbn; rewrite ?length_take, ?Nat.add_0_r; try lia; by rewrite Nat.Div0.mod_0_l).
  assert (Hc : contents (buf_init m n) = []) by done. assert (Ht : totalsize (buf_init m n) = n) by done. revert Hok Hc Ht. generalize (buf_init m n). generalize (@nil Z).
  induction ops as [|[src|len] ops IH]; intros q buf Hok Hc Ht; cbn [run run_queue].
  - by exists buf.
  - unfold buf_push. destruct (push_loop_ok src buf Hok) as (b&->&Hb&Htb&Hcb). cbn [mbind option_bind]. apply IH; [done|congruence|congruence].
  - destruct (buf_pop_ok buf len Hok) as (b&->&Hb&Htb&Hcb). cbn [mbind option_bind q_pop]. rewrite Hc in Hcb. destruct (IH (drop len q) b Hb Hcb ltac:(congruence)) as (b'&->&Hb'&Hcb').
    cbn [mbind option_bind]. exists b'. destruct (run_queue n ops (drop len q)) as [q' out]. cbn in *. by rewrite Hc.
Qed.

Lemma circbuf_queue_witness : ∃ buf, run [Push [1; 2; 3]%Z; Pop 1; Push [4; 5]%Z; Pop 5] (buf_init [0; 0; 0; 0]%Z 3) = Some (buf, [[1]; [3; 4; 5]]%Z) ∧ buf_ok buf ∧ contents buf = [].
Proof. apply (circbuf_queue [0; 0; 0; 0]%Z 3 [Push [1; 2; 3]%Z; Pop 1; Push [4; 5]%Z; Pop 5]). cbn. lia. Defined.

(** A buffer without room: the first byte is stored outside of it. *)
Lemma push_no_room m c : buf_push (buf_init m 0) [c] = None.
Proof. done. Qed.
