(* ===== verification/NetMem.v ===== *)
(** * The memory of packets

    A packet is a list of bytes with accesses at an offset, [None] outside of
    it. Fields of 16 bits are read and written in the order of the machine,
    which is little-endian, or in the order of the network. *)

From S2P Require Import Prelude Word32.
From stdpp Require Import base option list.
From Stdlib Require Import ZArith Lia.
Local Open Scope Z_scope.

(** ** Memory *)

Definition memcpy (p : list Z) (off : Z) (bytes : list Z) : option (list Z) :=
  if (0 <=? off) && (off + Z.of_nat (length bytes) <=? Z.of_nat (length p)) then Some (splice (Z.to_nat off) bytes p) else None.

Definition memread (p : list Z) (off len : Z) : option (list Z) :=
  if (0 <=? off) && (0 <=? len) && (off + len <=? Z.of_nat (length p)) then Some (take (Z.to_nat len) (drop (Z.to_nat off) p)) else None.

(** A [u16] of the machine, which is little-endian. *)
Definition u16 (x : Z) : Z := x mod 2 ^ 16.

Definition load16 (p : list Z) (off : Z) : option Z :=
  b ← memread p off 2; Some (b !!! 0%nat + 256 * b !!! 1%nat).

Definition store16 (p : list Z) (off v : Z) : option (list Z) := memcpy p off [v mod 256; v / 256 mod 256].

(** [ntohs] of a field of a header. *)
Definition be16 (p : list Z) (off : Z) : option Z :=
  b ← memread p off 2; Some (256 * b !!! 0%nat + b !!! 1%nat).

(** ** Lemmas *)

(** The byte at an offset. *)
Definition byte_at (p : list Z) (i : Z) : Z := p !!! Z.to_nat i.

Definition same_outside (p p' : list Z) (lo hi : Z) : Prop := ∀ i, 0 ≤ i → ¬ lo ≤ i < hi → byte_at p' i = byte_at p i.

Lemma memcpy_at p off bytes :
  0 ≤ off → off + Z.of_nat (length bytes) ≤ Z.of_nat (length p) →
  ∃ p', memcpy p off bytes = Some p' ∧ length p' = length p ∧ same_outside p p' off (off + Z.of_nat (length bytes)) ∧
    ∀ j, 0 ≤ j < Z.of_nat (length bytes) → byte_at p' (off + j) = byte_at bytes j.
Proof.
  intros Ho Hl. unfold memcpy. rewrite (proj2 (Z.leb_le _ _)), (proj2 (Z.leb_le _ _)) by done. eexists. split; [done|]. unfold splice.
  assert (Ht : length (take (Z.to_nat off) p) = Z.to_nat off) by (rewrite length_take; lia). split_and!.
  - rewrite !length_app, length_take, length_drop. lia.
  - intros i Hi Hn. unfold byte_at. destruct (Z.lt_ge_cases i off).
    + rewrite lookup_total_app_l by lia. rewrite !list_lookup_total_alt, lookup_take, decide_True by lia. done.
    + rewrite !lookup_total_app_r by (rewrite ?Ht; lia). rewrite Ht, !list_lookup_total_alt, lookup_drop. do 2 f_equal. lia.
  - intros j Hj. unfold byte_at. rewrite lookup_total_app_r by lia. rewrite Ht, lookup_total_app_l by lia. f_equal. lia.
Qed.

Lemma memread_ok p off len :
  0 ≤ off → 0 ≤ len → off + len ≤ Z.of_nat (length p) →
  ∃ b, memread p off len = Some b ∧ Z.of_nat (length b) = len ∧ ∀ j, 0 ≤ j < len → byte_at b j = byte_at p (off + j).
Proof.
  intros Ho Hl Hp. unfold memread. rewrite !(proj2 (Z.leb_le _ _)) by done. eexists. split; [done|]. split; [rewrite length_take, length_drop; lia|].
  intros j Hj. unfold byte_at. rewrite !list_lookup_total_alt, lookup_take, decide_True, lookup_drop by lia. do 2 f_equal. lia.
Qed.

(** A 16-bit word at an offset. *)
Definition word_at (p : list Z) (off : Z) : Z := byte_at p off + 256 * byte_at p (off + 1).

Lemma load16_ok p off : 0 ≤ off → off + 2 ≤ Z.of_nat (length p) → load16 p off = Some (word_at p off).
Proof.
  intros Ho Hp. unfold load16. destruct (memread_ok p off 2 Ho ltac:(lia) Hp) as (b & -> & _ & Hb). cbn. unfold word_at.
  pose proof (Hb 0 ltac:(lia)) as H0. rewrite Z.add_0_r in H0. by rewrite <-(Hb 1), <-H0 by lia.
Qed.

Lemma store16_ok p off v :
  0 ≤ off → off + 2 ≤ Z.of_nat (length p) → 0 ≤ v < 2 ^ 16 →
  ∃ p', store16 p off v = Some p' ∧ length p' = length p ∧ same_outside p p' off (off + 2) ∧ word_at p' off = v.
Proof.
  intros Ho Hp Hv. destruct (memcpy_at p off [v mod 256; v / 256 mod 256] Ho Hp) as (p' & E & Hl & Hs & Hb). exists p'. split_and!; [done..|].
  pose proof (Hb 0 ltac:(cbn; lia)) as H0. rewrite Z.add_0_r in H0. unfold word_at. rewrite H0, (Hb 1) by (cbn; lia). change (v mod 256 + 256 * (v / 256 mod 256) = v).
  rewrite (Z.mod_small (v / 256)) by (split; [apply Z.div_pos; lia|apply Z.div_lt_upper_bound; lia]). pose proof (Z.div_mod v 256 ltac:(lia)). lia.
Qed.

Lemma memread_Some p a n x : memread p a n = Some x → a + n ≤ Z.of_nat (length p).
Proof. unfold memread. destruct (_ && _) eqn:E; [|done]. apply andb_true_iff in E as [_ E]. cmp_inv E. done. Qed.

