(* ===== verification/Defrag.v ===== *)
(** * Reassembly of IP fragments

    Translation of [NetDefragment] of [net/net.c]. The buffer [pkt_buff] is the
    IP header [localip] followed by the bytes of [payload], which hold the data
    of the fragments and, where data is missing, the descriptors of the holes:
    pairs of bytes at the start of a hole, read and written as the code does.
    An access outside of the buffer makes the operation [None]. *)

From S2P Require Import Prelude Word32 NetMem.
From stdpp Require Import base option list.
From Stdlib Require Import ZArith Lia.
Local Open Scope Z_scope.

(** ** Headers *)

Definition IP_OFFS : Z := 0x1fff.
Definition IP_FLAGS_MFRAG : Z := 0x2000.
Definition IP_HDR_SIZE : Z := 20.

Definition ip_len (ip : list Z) : option Z := be16 ip 2.
Definition ip_id (ip : list Z) : option (list Z) := memread ip 4 2.
Definition ip_off (ip : list Z) : option Z := be16 ip 6.

(** ** Holes *)

(** The fields of the descriptor at the index [h] of [payload]. *)
Definition last_byte (p : list Z) (h : Z) : option Z := load16 p (8 * h).
Definition next_hole (p : list Z) (h : Z) : option Z := load16 p (8 * h + 2).
Definition prev_hole (p : list Z) (h : Z) : option Z := load16 p (8 * h + 4).
Definition set_last_byte (p : list Z) (h v : Z) : option (list Z) := store16 p (8 * h) v.
Definition set_next_hole (p : list Z) (h v : Z) : option (list Z) := store16 p (8 * h + 2) v.
Definition set_prev_hole (p : list Z) (h v : Z) : option (list Z) := store16 p (8 * h + 4) v.

(** [*newh = *h] *)
Definition copy_hole (p : list Z) (newh h : Z) : option (list Z) := b ← memread p (8 * h) 8; memcpy p (8 * newh) b.

Record state := mkState { localip : list Z; payload : list Z; first_hole : Z; total_len : Z }.

(** A new packet, or a different one. *)
Definition reset (s : state) (ip : list Z) : option state :=
  p ← set_last_byte (payload s) 0 0xffff;
  p ← set_next_hole p 0 0;
  p ← set_prev_hole p 0 0;
  hdr ← memread ip 0 IP_HDR_SIZE;
  Some (mkState hdr p 0 0xffff).

Definition same_id (s : state) (ip : list Z) : option bool :=
  a ← ip_id (localip s); b ← ip_id ip; Some (bool_decide (a = b)).

(** The first hole that does not end before [start]; [Some None] is the return
    of the loop. *)
Fixpoint find_hole (fuel : nat) (p : list Z) (start h : Z) : option (option Z) :=
  match fuel with
  | O => None
  | S fuel =>
      last ← last_byte p h;
      if last <? start then
        next ← next_hole p h;
        if next =? 0 then Some None else find_hole fuel p start next
      else Some (Some h)
  end.

(** The update of the list of holes for the data at [start], at the index
    [thisfrag]: the memory, [first_hole] and [done]. *)
Definition remove_hole (p : list Z) (first h : Z) : option (list Z * Z * bool) :=
  prev ← prev_hole p h;
  next ← next_hole p h;
  if (prev =? 0) && (next =? 0) then Some (p, first, true)
  else if prev =? 0 then
    p ← set_prev_hole p next 0; Some (p, next, false)
  else if next =? 0 then
    p ← set_next_hole p prev 0; Some (p, first, false)
  else
    p ← set_prev_hole p next prev;
    p ← set_next_hole p prev next;
    Some (p, first, false).

Definition move_hole (p : list Z) (first h newh : Z) : option (list Z * Z * bool) :=
  p ← copy_hole p newh h;
  next ← next_hole p newh;
  p ← (if negb (next =? 0) then set_prev_hole p next newh else Some p);
  prev ← prev_hole p newh;
  if negb (prev =? 0) then p ← set_next_hole p prev newh; Some (p, first, false)
  else Some (p, newh, false).

Definition split_hole (p : list Z) (first h newh start : Z) : option (list Z * Z * bool) :=
  p ← copy_hole p newh h;
  p ← set_last_byte p h start;
  p ← set_next_hole p h newh;
  p ← set_prev_hole p newh h;
  next ← next_hole p newh;
  p ← (if negb (next =? 0) then set_prev_hole p next newh else Some p);
  Some (p, first, false).

Definition update_holes (p : list Z) (first h thisfrag start len : Z) : option (list Z * Z * bool) :=
  last ← last_byte p h;
  if (thisfrag <=? h) && (last <=? start + len) then remove_hole p first h
  else if last <=? start + len then p ← set_last_byte p h start; Some (p, first, false)
  else if thisfrag <=? h then move_hole p first h (thisfrag + Z.quot len 8)
  else split_hole p first h (thisfrag + Z.quot len 8) start.

(** [htons] into the header. *)
Definition set_ip_len (hdr : list Z) (v : Z) : option (list Z) := memcpy hdr 2 [v / 256 mod 256; v mod 256].

(** The body of [__NetDefragment] after the bounds check, on the state that has
    been reset if need be. The result is the length of a complete packet. *)
Definition insert_fragment (s : state) (ip : list Z) (off offset8 start len : Z) : option (state * option Z) :=
  r ← find_hole (S (length (payload s))) (payload s) start (first_hole s);
  match r with
  | None => Some (s, None)
  | Some h =>
      if offset8 + Z.quot (len + 7) 8 <=? h then Some (s, None)
      else
        '(p, total) ← (if Z.land off IP_FLAGS_MFRAG =? 0 then
                         p ← set_last_byte (payload s) h (start + len); Some (p, u16 (start + len))
                       else Some (payload s, total_len s));
        '(p, first, done) ← update_holes p (first_hole s) h offset8 start len;
        data ← memread ip IP_HDR_SIZE len;
        p ← memcpy p (8 * offset8) data;
        if (done : bool) then
          hdr ← set_ip_len (localip s) total;
          Some (mkState hdr p first total, Some (total + IP_HDR_SIZE))
        else Some (mkState (localip s) p first total, None)
  end.

Section Size.
(** [IP_PKTSIZE - IP_HDR_SIZE], of an unsigned type. *)
Context (IP_MAXUDP : Z).

Definition __NetDefragment (s : state) (ip : list Z) : option (state * option Z) :=
  off ← ip_off ip;
  l ← ip_len ip;
  let offset8 := Z.land off IP_OFFS in
  let start := offset8 * 8 in
  let len := l - IP_HDR_SIZE in
  if IP_MAXUDP <? u32 (start + len) then Some (s, None)
  else
    same ← same_id s ip;
    s ← (if (total_len s =? 0) || negb same then reset s ip else Some s);
    insert_fragment s ip off offset8 start len.

(** The packet that is returned and its length. *)
Definition NetDefragment (s : state) (ip : list Z) (len : Z) : option (state * option (list Z * Z)) :=
  off ← ip_off ip;
  if Z.land off (Z.lor IP_OFFS IP_FLAGS_MFRAG) =? 0 then Some (s, Some (ip, len))
  else
    '(s, r) ← __NetDefragment s ip;
    Some (s, r ≫= λ lenp, Some (localip s ++ payload s, lenp)).

(** Packets one after the other, and what is returned for each. *)
Fixpoint defragment_all (s : state) (ips : list (list Z)) : option (state * list (option (list Z * Z))) :=
  match ips with
  | [] => Some (s, [])
  | ip :: ips =>
      '(s, r) ← NetDefragment s ip (Z.of_nat (length ip));
      '(s, rs) ← defragment_all s ips;
      Some (s, r :: rs)
  end.
End Size.

(** ** Fragments *)

(** The static storage. *)
Definition initial (IP_MAXUDP : Z) : state := mkState (replicate 20 0) (replicate (Z.to_nat IP_MAXUDP) 0) 0 0.

(** A packet with the fields that the reassembly reads. *)
Definition packet (id off : Z) (more : bool) (data : list Z) : list Z :=
  let l := 20 + Z.of_nat (length data) in
  let o := off / 8 + (if more then IP_FLAGS_MFRAG else 0) in
  [0x45; 0; l / 256; l mod 256; id / 256; id mod 256; o / 256; o mod 256; 64; 17; 0; 0; 10; 0; 0; 1; 10; 0; 0; 2] ++ data.
