(* ===== verification/DefragSpec.v ===== *)
(** * Correctness of the reassembly of IP fragments

    The descriptors of the holes form a doubly linked list in the places of the
    missing data. Fragments of one datagram that arrive in any order after the
    first one, some of them more than once, give the datagram with the last
    missing fragment. A datagram of which the first fragment does not arrive
    first can be returned with the first hole still in it. *)

From S2P Require Import Prelude Word32 NetMem Defrag.
From stdpp Require Import base option list sets.
From Stdlib Require Import ZArith Lia.
Local Open Scope Z_scope.

(** ** Descriptors *)

(** The fields [last_byte], [next_hole] and [prev_hole] at an index. *)
Definition hole_of (p : list Z) (a : Z) : Z * Z * Z := (word_at p (8 * a), word_at p (8 * a + 2), word_at p (8 * a + 4)).

Definition in_bounds (p : list Z) (a : Z) : Prop := 0 ≤ a ∧ 8 * a + 8 ≤ Z.of_nat (length p).

(** A change of the descriptor at [a] to [x]. *)
Definition updates (p p' : list Z) (a : Z) (x : Z * Z * Z) : Prop :=
  length p' = length p ∧ hole_of p' a = x ∧ same_outside p p' (8 * a) (8 * a + 8).

Lemma word_frame p p' lo hi off : same_outside p p' lo hi → 0 ≤ off → off + 2 ≤ lo ∨ hi ≤ off → word_at p' off = word_at p off.
Proof. intros Hs Ho H. unfold word_at. rewrite !Hs by lia. done. Qed.

Lemma hole_frame p p' lo hi a : same_outside p p' lo hi → 0 ≤ a → 8 * a + 8 ≤ lo ∨ hi ≤ 8 * a → hole_of p' a = hole_of p a.
Proof. intros Hs Ha H. unfold hole_of. rewrite !(word_frame p p' lo hi) by (done || lia). done. Qed.

Lemma updates_other p p' a x b : updates p p' a x → 0 ≤ b → b ≠ a → hole_of p' b = hole_of p b.
Proof. intros (_ & _ & Hs) Hb Hn. apply (hole_frame p p' _ _ b Hs); lia. Qed.

Lemma same_outside_weaken p p' lo hi lo' hi' : same_outside p p' lo hi → lo' ≤ lo → hi ≤ hi' → same_outside p p' lo' hi'.
Proof. intros Hs H1 H2 i Hi Hn. apply Hs; lia. Qed.

Section Fields.
Context (p : list Z) (a : Z) (Hb : in_bounds p a).

Lemma last_byte_ok : last_byte p a = Some (hole_of p a).1.1.
Proof. destruct Hb. by apply load16_ok; lia. Qed.

Lemma next_hole_ok : next_hole p a = Some (hole_of p a).1.2.
Proof. destruct Hb. by apply load16_ok; lia. Qed.

Lemma prev_hole_ok : prev_hole p a = Some (hole_of p a).2.
Proof. destruct Hb. by apply load16_ok; lia. Qed.

(** A store of a word at a distance in the descriptor. *)
Lemma store_field d v : (d = 0 ∨ d = 2 ∨ d = 4) → 0 ≤ v < 2 ^ 16 →
  ∃ p', store16 p (8 * a + d) v = Some p' ∧
    updates p p' a (if d =? 0 then v else (hole_of p a).1.1, if d =? 2 then v else (hole_of p a).1.2, if d =? 4 then v else (hole_of p a).2).
Proof.
  intros Hd Hv. destruct Hb as [Ha Hl]. destruct (store16_ok p (8 * a + d) v) as (p' & E & Hlen & Hs & Hw); [lia|lia|done|].
  exists p'. split; [done|]. split_and!; [done| |by apply (same_outside_weaken _ _ _ _ _ _ Hs); lia].
  assert (Hf : ∀ d', d' = 0 ∨ d' = 2 ∨ d' = 4 → d' ≠ d → word_at p' (8 * a + d') = word_at p (8 * a + d')) by (intros; apply (word_frame p p' _ _ _ Hs); lia).
  pose proof (Hf 0) as H0. rewrite Z.add_0_r in H0. unfold hole_of. cbn. destruct Hd as [-> |[-> | ->]]; cbn [Z.eqb]; rewrite ?Z.add_0_r in Hw; rewrite Hw, ?H0, !Hf by lia; done.
Qed.

Lemma set_last_byte_ok v : 0 ≤ v < 2 ^ 16 → ∃ p', set_last_byte p a v = Some p' ∧ updates p p' a (v, (hole_of p a).1.2, (hole_of p a).2).
Proof. intros Hv. destruct (store_field 0 v) as (p' & E & H); [auto|done|]. rewrite Z.add_0_r in E. by exists p'. Qed.

Lemma set_next_hole_ok v : 0 ≤ v < 2 ^ 16 → ∃ p', set_next_hole p a v = Some p' ∧ updates p p' a ((hole_of p a).1.1, v, (hole_of p a).2).
Proof. intros Hv. destruct (store_field 2 v) as (p' & E & H); [auto|done|]. by exists p'. Qed.

Lemma set_prev_hole_ok v : 0 ≤ v < 2 ^ 16 → ∃ p', set_prev_hole p a v = Some p' ∧ updates p p' a ((hole_of p a).1.1, (hole_of p a).1.2, v).
Proof. intros Hv. destruct (store_field 4 v) as (p' & E & H); [auto|done|]. by exists p'. Qed.

Lemma copy_hole_ok b : in_bounds p b → ∃ p', copy_hole p b a = Some p' ∧ updates p p' b (hole_of p a).
Proof.
  intros [Hb0 Hbl]. destruct Hb as [Ha Hl]. unfold copy_hole. destruct (memread_ok p (8 * a) 8) as (x & -> & Hx & Hr); [lia..|]. cbn [mbind option_bind].
  destruct (memcpy_at p (8 * b) x) as (p' & E & Hlen & Hs & Hw); [lia..|]. exists p'. split; [done|]. rewrite Hx in Hs, Hw. split_and!; [done| |done].
  assert (Hc : ∀ d, 0 ≤ d → d + 2 ≤ 8 → word_at p' (8 * b + d) = word_at p (8 * a + d)).
  { intros d Hd Hd'. unfold word_at. rewrite <-!Z.add_assoc, !Hw, !Hr by lia. done. }
  pose proof (Hc 0) as H0. rewrite !Z.add_0_r in H0. unfold hole_of. by rewrite H0, !Hc by lia.
Qed.
End Fields.

Lemma updates_bounds p p' a x b : updates p p' a x → in_bounds p b → in_bounds p' b.
Proof. intros (Hl & _) [? ?]. split; [done|lia]. Qed.

(** ** The list of holes *)

(** A hole is the index of its descriptor and its end. *)
Definition first_or (hs : list (Z * Z)) (d : Z) : Z := match hs with [] => d | (a, _) :: _ => a end.
Definition last_or (d : Z) (hs : list (Z * Z)) : Z := match last hs with Some (a, _) => a | None => d end.

(** The descriptors from [hs] on, after the one at [prev], up to [next]. *)
Fixpoint dseg (p : list Z) (prev : Z) (hs : list (Z * Z)) (next : Z) : Prop :=
  match hs with
  | [] => True
  | (a, e) :: r => hole_of p a = (e, first_or r next, prev) ∧ dseg p a r next
  end.

Lemma last_or_cons d a e hs : last_or d ((a, e) :: hs) = last_or a hs.
Proof. unfold last_or. rewrite last_cons. by destruct (last hs) as [[]|]. Qed.

Lemma dseg_app p q l r n : dseg p q (l ++ r) n ↔ dseg p q l (first_or r n) ∧ dseg p (last_or q l) r n.
Proof.
  revert q. induction l as [|[a e] l IH]; intros q; [cbn; tauto|]. cbn [dseg app]. rewrite IH, last_or_cons.
  replace (first_or (l ++ r) n) with (first_or l (first_or r n)) by by destruct l as [|[]]. tauto.
Qed.

Lemma dseg_frame p p' q hs n : (∀ a, a ∈ hs.*1 → hole_of p' a = hole_of p a) → dseg p q hs n → dseg p' q hs n.
Proof.
  revert q. induction hs as [|[a e] hs IH]; intros q Hf; [done|]. cbn [dseg]. intros [Ha Hd].
  split; [rewrite Hf; [done|]; cbn; left|]. apply IH; [|done]. intros b Hb. apply Hf. cbn. by right.
Qed.

(** The last descriptor's link to what follows, and the first one's back. *)
Lemma dseg_next p p' q l a e n n' : a ∉ l.*1 → (∀ b, b ∈ l.*1 → 0 ≤ b) →
  dseg p q (l ++ [(a, e)]) n → updates p p' a (e, n', last_or q l) → dseg p' q (l ++ [(a, e)]) n'.
Proof.
  intros Ha Hp [Hl [_ _]]%dseg_app Hu. apply dseg_app. split; [|cbn; by destruct Hu as (_ & -> & _)].
  apply (dseg_frame p); [|done]. intros b Hb. apply (updates_other _ _ _ _ _ Hu); [by apply Hp|]. by intros ->.
Qed.

Lemma dseg_prev p p' q q' a e r n : a ∉ r.*1 → (∀ b, b ∈ r.*1 → 0 ≤ b) →
  dseg p q ((a, e) :: r) n → updates p p' a (e, first_or r n, q') → dseg p' q' ((a, e) :: r) n.
Proof.
  intros Ha Hp [_ Hr] Hu. split; [by destruct Hu as (_ & -> & _)|].
  apply (dseg_frame p); [|done]. intros b Hb. apply (updates_other _ _ _ _ _ Hu); [by apply Hp|]. by intros ->.
Qed.

(** A change of nothing but the descriptors at [cs]. *)
Definition changes (p p' : list Z) (cs : list Z) : Prop :=
  length p' = length p ∧ ∀ i, 0 ≤ i → (∀ c, c ∈ cs → ¬ 8 * c ≤ i < 8 * c + 8) → byte_at p' i = byte_at p i.

Lemma changes_refl p cs : changes p p cs.
Proof. done. Qed.

Lemma changes_trans p p' p'' cs : changes p p' cs → changes p' p'' cs → changes p p'' cs.
Proof. intros [L1 H1] [L2 H2]. split; [by rewrite L2|]. intros i Hi Hn. rewrite H2, H1; done. Qed.

Lemma changes_weaken p p' cs cs' : changes p p' cs → cs ⊆ cs' → changes p p' cs'.
Proof. intros [L1 H1] Hs. split; [done|]. intros i Hi Hn. apply H1; [done|]. intros c Hc. apply Hn. by apply Hs. Qed.

Lemma updates_changes p p' a x cs : updates p p' a x → a ∈ cs → changes p p' cs.
Proof. intros (Hl & _ & Hs) Ha. split; [done|]. intros i Hi Hn. apply Hs; [done|]. by apply Hn. Qed.

Lemma changes_hole p p' cs b : changes p p' cs → 0 ≤ b → b ∉ cs → hole_of p' b = hole_of p b.
Proof.
  intros [_ H] Hb Hn. assert (Hw : ∀ d, 0 ≤ d → d + 2 ≤ 8 → word_at p' (8 * b + d) = word_at p (8 * b + d)).
  { intros d Hd Hd'. unfold word_at. rewrite !H; [done|lia| |lia|]; intros c Hc Hi; destruct (decide (c = b)) as [->|]; (done || lia). }
  pose proof (Hw 0) as H0. rewrite Z.add_0_r in H0. unfold hole_of. by rewrite H0, !Hw by lia.
Qed.

Lemma changes_bounds p p' cs b : changes p p' cs → in_bounds p b → in_bounds p' b.
Proof. intros [Hl _] [? ?]. split; [done|lia]. Qed.

(** The places of the descriptors. *)
Definition cells_ok (p : list Z) (cs : list Z) : Prop := NoDup cs ∧ ∀ b, b ∈ cs → in_bounds p b ∧ 0 < b < 2 ^ 16.

Lemma changes_cells p p' cs cs' : changes p p' cs → cells_ok p cs' → cells_ok p' cs'.
Proof. intros Hc [Hn Hb]. split; [done|]. intros b Hin. destruct (Hb b Hin). split; [by eapply changes_bounds|done]. Qed.

Lemma cells_pos p cs b : cells_ok p cs → b ∈ cs → 0 ≤ b.
Proof. intros [_ H] Hb. destruct (H b Hb). lia. Qed.

Lemma dseg_changes p p' cs q hs n : changes p p' cs → cells_ok p hs.*1 → (∀ b, b ∈ hs.*1 → b ∉ cs) → dseg p q hs n → dseg p' q hs n.
Proof. intros Hc Hok Hn. apply dseg_frame. intros b Hb. apply (changes_hole _ _ cs); [done|by eapply cells_pos|by apply Hn]. Qed.

(** A new successor of the last hole. *)
Lemma link_next p q l n n' : l ≠ [] → cells_ok p l.*1 → dseg p q l n → 0 ≤ n' < 2 ^ 16 →
  ∃ p', set_next_hole p (last_or q l) n' = Some p' ∧ dseg p' q l n' ∧ changes p p' l.*1.
Proof.
  destruct l as [|[a e] l _] using rev_ind; [done|]. intros _ Hok Hd Hn. unfold last_or at 1. rewrite last_snoc. rewrite fmap_app in *. cbn in Hok.
  assert (Hin : a ∈ l.*1 ++ [a]) by (apply elem_of_app; right; by left). destruct (proj2 Hok a Hin) as [Hb _].
  destruct (set_next_hole_ok p a Hb n' Hn) as (p' & -> & Hu). exists p'. split_and!; [done| |by eapply updates_changes].
  destruct Hok as [[_ [Hna _]]%NoDup_app Hp]. assert (E : hole_of p a = (e, n, last_or q l)) by (by apply dseg_app in Hd as [_ [E _]]). rewrite E in Hu.
  apply (dseg_next p p' q l a e n n'); [|intros b Hin'; destruct (Hp b ltac:(by apply elem_of_app; left)); lia|done|done].
  intros Hin'. apply (Hna a Hin'). by left.
Qed.

(** A new predecessor of the first hole, if there is one. *)
Lemma link_prev p q q' r n : r ≠ [] → cells_ok p r.*1 → dseg p q r n → 0 ≤ q' < 2 ^ 16 →
  ∃ p', set_prev_hole p (first_or r 0) q' = Some p' ∧ dseg p' q' r n ∧ changes p p' r.*1.
Proof.
  destruct r as [|[a e] r]; [done|]. intros _ Hok Hd Hq. cbn in Hok. assert (Hin : a ∈ a :: r.*1) by by left. destruct (proj2 Hok a Hin) as [Hb _].
  destruct (set_prev_hole_ok p a Hb q' Hq) as (p' & E & Hu). exists p'. split_and!; [done| |by eapply updates_changes].
  destruct Hok as [[Hna _]%NoDup_cons Hp]. assert (E' : hole_of p a = (e, first_or r n, q)) by (by destruct Hd). rewrite E' in Hu.
  apply (dseg_prev p p' q q' a e r n); [done|intros b Hin'; destruct (Hp b ltac:(by right)); lia|done|done].
Qed.

Lemma first_or_pos p hs d : cells_ok p hs.*1 → hs ≠ [] → 0 < first_or hs d < 2 ^ 16.
Proof. destruct hs as [|[a e] hs]; [done|]. intros [_ H] _. cbn. apply (H a). cbn. by left. Qed.

Lemma last_or_pos p hs d : cells_ok p hs.*1 → hs ≠ [] → 0 < last_or d hs < 2 ^ 16.
Proof.
  destruct hs as [|[a e] hs _] using rev_ind; [done|]. intros [_ H] _. unfold last_or. rewrite last_snoc. apply (H a). rewrite fmap_app. apply elem_of_app. right. by left.
Qed.

Lemma link_prev_opt p q q' r : cells_ok p r.*1 → dseg p q r 0 → 0 ≤ q' < 2 ^ 16 →
  ∃ p', (if negb (first_or r 0 =? 0) then set_prev_hole p (first_or r 0) q' else Some p) = Some p' ∧ dseg p' q' r 0 ∧ changes p p' r.*1.
Proof.
  intros Hok Hd Hq. destruct (decide (r = [])) as [->|Hr]; [by exists p|]. pose proof (first_or_pos p r 0 Hok Hr).
  rewrite (proj2 (Z.eqb_neq _ _)) by lia. by apply (link_prev p q).
Qed.

(** ** The four cases of the update *)

Section Branches.
Context (p : list Z) (l r : list (Z * Z)) (a e : Z).
Hypothesis (Hok : cells_ok p (l.*1 ++ a :: r.*1)) (Hd : dseg p 0 (l ++ (a, e) :: r) 0).

Lemma parts_ok : cells_ok p l.*1 ∧ cells_ok p r.*1 ∧ in_bounds p a ∧ 0 < a < 2 ^ 16 ∧ a ∉ l.*1 ∧ a ∉ r.*1 ∧ (∀ c, c ∈ l.*1 → c ∉ r.*1).
Proof using Hok.
  clear Hd. destruct Hok as [Hn Hb]. apply NoDup_app in Hn as (Hl & Hd & [Ha Hr]%NoDup_cons). destruct (Hb a) as [? ?]; [apply elem_of_app; right; by left|].
  split_and!; try done || lia.
  - split; [done|]. intros b Hin. apply Hb. apply elem_of_app. by left.
  - split; [done|]. intros b Hin. apply Hb. apply elem_of_app. right. by right.
  - intros Hin. apply (Hd a Hin). by left.
  - intros c Hc Hin. apply (Hd c Hc). by right.
Qed.

Lemma hole_fields : hole_of p a = (e, first_or r 0, last_or 0 l).
Proof using Hd. by apply dseg_app in Hd as [_ [E _]]. Qed.

Lemma first_or_app_ne (x y : list (Z * Z)) d : x ≠ [] → first_or (x ++ y) d = first_or x d.
Proof. by destruct x as [|[]]. Qed.

Lemma remove_hole_ok : l ++ r ≠ [] →
  ∃ p', remove_hole p (first_or (l ++ (a, e) :: r) 0) a = Some (p', first_or (l ++ r) 0, false) ∧ dseg p' 0 (l ++ r) 0 ∧ changes p p' (l.*1 ++ r.*1).
Proof using Hok Hd.
  intros Hne. destruct parts_ok as (Hl & Hr & Hb & Ha & Hal & Har & Hlr). unfold remove_hole. rewrite prev_hole_ok, next_hole_ok by done. rewrite hole_fields. cbn [mbind option_bind fst snd].
  apply dseg_app in Hd as [Hdl [_ Hdr]]. cbn [first_or] in Hdl.
  destruct (decide (l = [])) as [->|Hln].
  - destruct (decide (r = [])) as [->|Hrn]; [done|]. cbn [last_or last app]. pose proof (first_or_pos p r 0 Hr Hrn). rewrite (proj2 (Z.eqb_neq (first_or r 0) _)) by lia. cbn [andb Z.eqb].
    destruct (link_prev p a 0 r 0) as (p' & -> & ? & ?); [done..|]. by exists p'.
  - pose proof (last_or_pos p l 0 Hl Hln). rewrite (proj2 (Z.eqb_neq (last_or 0 l) _)) by lia. cbn [andb]. rewrite !first_or_app_ne by done.
    destruct (decide (r = [])) as [->|Hrn].
    + destruct (link_next p 0 l a 0) as (p' & E & ? & ?); [done..|]. exists p'. rewrite E, !app_nil_r. done.
    + pose proof (first_or_pos p r 0 Hr Hrn). rewrite (proj2 (Z.eqb_neq (first_or r 0) _)) by lia.
      destruct (link_prev p a (last_or 0 l) r 0) as (p1 & -> & Hd1 & Hc1); [done..|lia|]. cbn [mbind option_bind].
      assert (Hl1 : dseg p1 0 l a) by (by apply (dseg_changes p p1 r.*1)).
      destruct (link_next p1 0 l a (first_or r 0)) as (p2 & -> & Hd2 & Hc2); [done|by eapply changes_cells|done|lia|]. exists p2. split; [done|]. split.
      * apply dseg_app. split; [done|]. apply (dseg_changes p1 p2 l.*1); [done|by eapply changes_cells| |done]. intros b Hb1 Hb2. by apply (Hlr b).
      * eapply changes_trans; (eapply changes_weaken; [done|]); set_solver.
Qed.

Lemma remove_last_hole : l = [] → r = [] → remove_hole p a a = Some (p, a, true).
Proof using Hok Hd.
  intros El Er. destruct parts_ok as (_ & _ & Hb & _). unfold remove_hole. rewrite prev_hole_ok, next_hole_ok by done. by rewrite hole_fields, El, Er.
Qed.

(** The end of the hole. *)
Lemma shorten_hole_ok v : 0 ≤ v < 2 ^ 16 → ∃ p', set_last_byte p a v = Some p' ∧ dseg p' 0 (l ++ (a, v) :: r) 0 ∧ changes p p' [a].
Proof using Hok Hd.
  intros Hv. destruct parts_ok as (Hl & Hr & Hb & Ha & Hal & Har & Hlr). destruct (set_last_byte_ok p a Hb v Hv) as (p' & E & Hu). rewrite hole_fields in Hu. cbn in Hu.
  exists p'. assert (Hc : changes p p' [a]) by (eapply updates_changes; [done|by left]). split_and!; [done| |done].
  apply dseg_app in Hd as [Hdl [_ Hdr]]. apply dseg_app. split; [|split; [by destruct Hu as (_ & -> & _)|]].
  - apply (dseg_changes p p' [a]); [done..| |done]. intros b Hb' ->%list_elem_of_singleton. done.
  - apply (dseg_changes p p' [a]); [done..| |done]. intros b Hb' ->%list_elem_of_singleton. done.
Qed.

Context (b : Z).
Hypothesis (Hb : in_bounds p b) (Hbr : 0 < b < 2 ^ 16) (Hbn : b ∉ l.*1 ++ a :: r.*1).

Lemma copied : ∃ p', copy_hole p b a = Some p' ∧ hole_of p' b = (e, first_or r 0, last_or 0 l) ∧ changes p p' [b] ∧ dseg p' 0 l a ∧ dseg p' a r 0 ∧ hole_of p' a = hole_of p a.
Proof using Hok Hd Hb Hbn.
  destruct parts_ok as (Hl & Hr & Hba & Ha & Hal & Har & Hlr). destruct (copy_hole_ok p a Hba b Hb) as (p' & E & Hu). exists p'.
  assert (Hc : changes p p' [b]) by (eapply updates_changes; [done|by left]). apply not_elem_of_app in Hbn as [Hn1 [Hn2 Hn3]%not_elem_of_cons].
  apply dseg_app in Hd as Hd'. destruct Hd' as [Hdl [_ Hdr]].
  split_and!; [done|rewrite <-hole_fields; by destruct Hu as (_ & -> & _)|done| | |].
  - apply (dseg_changes p p' [b]); [done..| |done]. by intros c Hc' ->%list_elem_of_singleton.
  - apply (dseg_changes p p' [b]); [done..| |done]. by intros c Hc' ->%list_elem_of_singleton.
  - apply (changes_hole p p' [b]); [done|lia|]. by intros ->%list_elem_of_singleton.
Qed.

Lemma move_hole_ok :
  ∃ p', move_hole p (first_or (l ++ (a, e) :: r) 0) a b = Some (p', first_or (l ++ (b, e) :: r) 0, false) ∧
    dseg p' 0 (l ++ (b, e) :: r) 0 ∧ changes p p' (b :: l.*1 ++ r.*1).
Proof using Hok Hd Hb Hbr Hbn.
  destruct parts_ok as (Hl & Hr & Hba & Ha & Hal & Har & Hlr). destruct copied as (p1 & E & Hh & Hc1 & Hl1 & Hr1 & _).
  apply not_elem_of_app in Hbn as [Hn1 [Hn2 Hn3]%not_elem_of_cons].
  unfold move_hole. rewrite E. cbn [mbind option_bind]. rewrite next_hole_ok by by eapply changes_bounds. rewrite Hh. cbn [mbind option_bind fst snd].
  destruct (link_prev_opt p1 a b r) as (p2 & -> & Hr2 & Hc2); [by eapply changes_cells|done|lia|]. cbn [mbind option_bind].
  rewrite prev_hole_ok by (do 2 (eapply changes_bounds; [done|]); done). rewrite (changes_hole p1 p2 r.*1) by (done || lia). rewrite Hh. cbn [mbind option_bind fst snd].
  assert (Hl2 : dseg p2 0 l a) by (apply (dseg_changes p1 p2 r.*1); [done|by eapply changes_cells|done|done]).
  assert (Hb2 : hole_of p2 b = (e, first_or r 0, last_or 0 l)) by (rewrite <-Hh; apply (changes_hole _ _ r.*1); [done|lia|done]).
  destruct (decide (l = [])) as [->|Hln].
  - cbn [last_or last Z.eqb negb]. exists p2. split; [done|]. split; [by split|]. eapply changes_trans; (eapply changes_weaken; [done|]); set_solver.
  - pose proof (last_or_pos p l 0 Hl Hln). rewrite (proj2 (Z.eqb_neq _ _)) by lia. cbn [negb].
    destruct (link_next p2 0 l a b) as (p3 & -> & Hl3 & Hc3); [done|do 2 (eapply changes_cells; [done|]); done|done|lia|]. exists p3.
    rewrite !first_or_app_ne by done. split; [done|]. split.
    + apply dseg_app. split; [done|]. split; [rewrite <-Hb2; apply (changes_hole _ _ l.*1); [done|lia|done]|].
      apply (dseg_changes p2 p3 l.*1); [done|do 2 (eapply changes_cells; [done|]); done| |done]. intros c Hc Hc'. by apply (Hlr c).
    + eapply changes_trans; [eapply changes_trans|]; (eapply changes_weaken; [done|]); set_solver.
Qed.

Lemma split_hole_ok start : 0 ≤ start < 2 ^ 16 →
  ∃ p', split_hole p (first_or (l ++ (a, e) :: r) 0) a b start = Some (p', first_or (l ++ (a, start) :: (b, e) :: r) 0, false) ∧
    dseg p' 0 (l ++ (a, start) :: (b, e) :: r) 0 ∧ changes p p' (a :: b :: r.*1).
Proof using Hok Hd Hb Hbr Hbn.
  intros Hs. destruct parts_ok as (Hl & Hr & Hba & Ha & Hal & Har & Hlr). destruct copied as (p1 & E & Hh & Hc1 & Hl1 & Hr1 & Ha1).
  apply not_elem_of_app in Hbn as [Hn1 [Hn2 Hn3]%not_elem_of_cons]. unfold split_hole. rewrite E. cbn [mbind option_bind].
  destruct (set_last_byte_ok p1 a) with (v := start) as (p2 & -> & Hu2); [by eapply changes_bounds|done|]. cbn [mbind option_bind].
  destruct (set_next_hole_ok p2 a) with (v := b) as (p3 & -> & Hu3); [eapply updates_bounds; [done|]; by eapply changes_bounds|lia|]. cbn [mbind option_bind].
  assert (Hc2 : changes p1 p2 [a]) by (eapply updates_changes; [done|by left]). assert (Hc3 : changes p2 p3 [a]) by (eapply updates_changes; [done|by left]).
  assert (Hc13 : changes p1 p3 [a]) by by eapply changes_trans.
  assert (E2 : hole_of p2 a = (start, first_or r 0, last_or 0 l)) by (destruct Hu2 as (_ & -> & _); by rewrite Ha1, hole_fields).
  assert (E3 : hole_of p3 a = (start, b, last_or 0 l)) by (destruct Hu3 as (_ & -> & _); by rewrite E2).
  assert (Eb3 : hole_of p3 b = (e, first_or r 0, last_or 0 l)) by (rewrite <-Hh; apply (changes_hole _ _ [a]); [done|lia|]; by intros ->%list_elem_of_singleton).
  assert (Hb3 : in_bounds p3 b) by (do 2 (eapply changes_bounds; [done|]); done).
  destruct (set_prev_hole_ok p3 b Hb3 a) as (p4 & -> & Hu4); [lia|]. cbn [mbind option_bind]. rewrite Eb3 in Hu4. cbn in Hu4.
  assert (Hc4 : changes p3 p4 [b]) by (eapply updates_changes; [done|by left]).
  rewrite next_hole_ok by by eapply changes_bounds. replace (hole_of p4 b) with (e, first_or r 0, a) by (by destruct Hu4 as (_ & -> & _)). cbn [mbind option_bind fst snd].
  assert (Hok4 : cells_ok p4 r.*1) by (do 3 (eapply changes_cells; [done|]); done).
  assert (Hr4 : dseg p4 a r 0).
  { apply (dseg_changes p3 p4 [b]); [done|do 2 (eapply changes_cells; [done|]); done|by intros c Hc ->%list_elem_of_singleton|].
    apply (dseg_changes p1 p3 [a]); [done|by eapply changes_cells|by intros c Hc ->%list_elem_of_singleton|done]. }
  destruct (link_prev_opt p4 a b r) as (p5 & -> & Hr5 & Hc5); [done|done|lia|]. exists p5.
  assert (Hcall : changes p1 p5 (a :: b :: r.*1)) by (eapply changes_trans; [eapply changes_trans|]; (eapply changes_weaken; [done|]); set_solver).
  split; [by destruct l as [|[]]|]. split; [|eapply changes_trans; [|done]; eapply changes_weaken; [done|]; set_solver].
  apply dseg_app. cbn [first_or]. split; [|split; [|split]]; [| | |done].
  - apply (dseg_changes p1 p5 (a :: b :: r.*1)); [done|by eapply changes_cells| |done].
    intros c Hc. rewrite !not_elem_of_cons. split_and!; [by intros ->|by intros ->|by apply Hlr].
  - transitivity (hole_of p3 a); [|done]. rewrite (changes_hole p4 p5 r.*1) by (done || lia). apply (changes_hole p3 p4 [b]); [done|lia|]. by intros ->%list_elem_of_singleton.
  - rewrite (changes_hole p4 p5 r.*1) by (done || lia). by destruct Hu4 as (_ & -> & _).
Qed.

End Branches.

(** ** The extent of the holes *)

(** Holes in increasing order after [lo], apart from one another, that start
    inside of the [T] bytes of data and end at a multiple of 8 or after them. *)
Fixpoint holes_wf (T lo : Z) (hs : list (Z * Z)) : Prop :=
  match hs with
  | [] => True
  | (a, e) :: r => lo < 8 * a ∧ 8 * a < T ∧ 8 * a < e < 2 ^ 16 ∧ (e mod 8 = 0 ∨ T ≤ e) ∧ holes_wf T e r
  end.

Definition end_or (lo : Z) (hs : list (Z * Z)) : Z := match last hs with Some (_, e) => e | None => lo end.

Lemma end_or_cons lo a e hs : end_or lo ((a, e) :: hs) = end_or e hs.
Proof. unfold end_or. rewrite last_cons. by destruct (last hs) as [[]|]. Qed.

Lemma holes_wf_app T lo l x : holes_wf T lo (l ++ x) ↔ holes_wf T lo l ∧ holes_wf T (end_or lo l) x.
Proof.
  revert lo. induction l as [|[a e] l IH]; intros lo; [cbn; tauto|]. cbn [app holes_wf]. rewrite IH, end_or_cons. tauto.
Qed.

Lemma holes_wf_mono T lo lo' hs : lo' ≤ lo → holes_wf T lo hs → holes_wf T lo' hs.
Proof. destruct hs as [|[a e] hs]; [done|]. cbn. intros H (?&?). split; [lia|done]. Qed.

Lemma holes_wf_elem T lo hs a e : holes_wf T lo hs → (a, e) ∈ hs → lo < 8 * a ∧ 8 * a < T ∧ 8 * a < e < 2 ^ 16 ∧ (e mod 8 = 0 ∨ T ≤ e).
Proof.
  revert lo. induction hs as [|[b eb] hs IH]; intros lo; [by intros _ ?%elem_of_nil|]. cbn. intros (H1&H2&H3&H4&H5) [[= -> ->]|Hin]%elem_of_cons; [done|].
  destruct (IH _ H5 Hin) as (?&?&?&?). split_and!; done || lia.
Qed.

Lemma holes_wf_before T lo l a e r b eb : holes_wf T lo (l ++ (a, e) :: r) → (b, eb) ∈ l → eb < 8 * a.
Proof.
  revert lo. induction l as [|[c ec] l IH]; intros lo; [by intros _ ?%elem_of_nil|]. cbn. intros (H1&H2&H3&H4&H5) [[= -> ->]|Hin]%elem_of_cons; [|by eapply IH].
  apply (holes_wf_elem T ec (l ++ (a, e) :: r) a e) in H5 as [? _]; [done|]. apply elem_of_app. right. by left.
Qed.

Lemma holes_wf_after T lo l a e r b eb : holes_wf T lo (l ++ (a, e) :: r) → (b, eb) ∈ r → e < 8 * b.
Proof. intros [_ Hw]%holes_wf_app Hin. destruct Hw as (_&_&_&_&Hr). by apply (holes_wf_elem T e r b eb) in Hr as [? _]. Qed.

Lemma holes_wf_length T lo hs : holes_wf T lo hs → hs ≠ [] → lo + Z.of_nat (length hs) ≤ T.
Proof.
  revert lo. induction hs as [|[a e] hs IH]; intros lo; [done|]. cbn [holes_wf length]. intros (H1&H2&H3&_&H5) _. destruct hs as [|h hs]; [cbn [length]; lia|].
  specialize (IH _ H5 ltac:(done)). cbn [length] in *. lia.
Qed.

(** The data and the rounding of its end fit into the memory. *)
Definition roomy (p : list Z) (T : Z) : Prop := ∀ c, 0 ≤ c → 8 * c < T → in_bounds p c.

Lemma holes_wf_cells p T lo hs : roomy p T → 0 ≤ lo → holes_wf T lo hs → cells_ok p hs.*1.
Proof.
  intros Hr. revert lo. induction hs as [|[a e] hs IH]; intros lo Hlo; cbn [fmap list_fmap holes_wf]; [by split; [constructor|intros ? ?%elem_of_nil]|].
  intros (H1&H2&H3&_&H5). destruct (IH e ltac:(lia) H5) as [Hn Hb]. split.
  - apply NoDup_cons. split; [|done]. intros ([b eb]&E&Hin)%list_elem_of_fmap. cbn in E. subst b. apply (holes_wf_elem _ _ _ _ _ H5) in Hin as [? _]. lia.
  - intros b [->|Hin]%elem_of_cons; [|by apply Hb]. cbn. split; [apply Hr; lia|lia].
Qed.

(** What is left of a hole around the data from [start] to [fin]. *)
Definition rest (a e start fin : Z) : list (Z * Z) :=
  (if 8 * a <? start then [(a, start)] else []) ++ (if fin <? e then [(fin / 8, e)] else []).

Section Rest.
Context (T start fin : Z) (l r : list (Z * Z)) (a e : Z).
Hypothesis (Hw : holes_wf T 0 (l ++ (a, e) :: r)) (Hs : start mod 8 = 0) (Hlt : start < fin) (Ha : 8 * a ≤ start) (He : fin ≤ e) (HT : start < T)
  (Hf : fin < e → fin mod 8 = 0 ∧ fin < T).

Lemma rest_wf : holes_wf T 0 (l ++ rest a e start fin ++ r).
Proof using Hw Hs Hlt Ha He HT Hf.
  apply holes_wf_app in Hw as [Hl Hm]. apply holes_wf_app. split; [done|]. cbn in Hm. destruct Hm as (H1&H2&H3&H4&H5). unfold rest.
  destruct (Z.ltb_spec (8 * a) start), (Z.ltb_spec fin e) as [Hfe|]; cbn [app holes_wf].
  - destruct (Hf Hfe) as [Hm HfT]. pose proof (Z.div_mod fin 8 ltac:(lia)). split_and!; try (done || lia || by left).
  - split_and!; try (done || lia || by left). apply (holes_wf_mono T e); [lia|done].
  - destruct (Hf Hfe) as [Hm HfT]. pose proof (Z.div_mod fin 8 ltac:(lia)). split_and!; try (done || lia).
  - apply (holes_wf_mono T e); [lia|done].
Qed.

Lemma rest_inside b eb : (b, eb) ∈ rest a e start fin → 8 * a ≤ 8 * b ∧ eb ≤ e ∧ (eb ≤ start ∨ fin ≤ 8 * b).
Proof using Hs Hlt Ha He Hf.
  unfold rest. intros [Hin|Hin]%elem_of_app; revert Hin; case_match eqn:E; cmp_inv E; try (by intros ?%elem_of_nil); intros [= -> ->]%list_elem_of_singleton; [lia|].
  destruct (Hf E) as [Hm _]. pose proof (Z.div_mod fin 8 ltac:(lia)). lia.
Qed.

(** Any part of the hole apart from the data is in the rest. *)
Lemma rest_covers lo hi : 8 * a ≤ lo → hi ≤ e → lo < hi → hi ≤ start ∨ fin ≤ lo → ∃ b eb, (b, eb) ∈ rest a e start fin ∧ 8 * b ≤ lo ∧ hi ≤ eb.
Proof using Hs Hlt Ha He Hf.
  intros H1 H2 H3 [H4|H4]; unfold rest.
  - exists a, start. rewrite (proj2 (Z.ltb_lt _ _)) by lia. split_and!; [by left|done|done].
  - exists (fin / 8), e. destruct (Hf ltac:(lia)) as [Hm _]. pose proof (Z.div_mod fin 8 ltac:(lia)). rewrite (proj2 (Z.ltb_lt fin _)) by lia. split_and!; [|lia|done].
    apply elem_of_app. right. by left.
Qed.
End Rest.

Lemma update_holes_ok p T l r a e thisfrag start len :
  roomy p T → holes_wf T 0 (l ++ (a, e) :: r) → dseg p 0 (l ++ (a, e) :: r) 0 → start = 8 * thisfrag → 0 < len → a ≤ thisfrag → start < T → start + len ≤ e →
  (start + len < e → (start + len) mod 8 = 0 ∧ start + len < T) →
  let hs' := l ++ rest a e start (start + len) ++ r in
  ∃ p', update_holes p (first_or (l ++ (a, e) :: r) 0) a thisfrag start len = Some (p', first_or hs' a, bool_decide (hs' = [])) ∧
    dseg p' 0 hs' 0 ∧ changes p p' ((l ++ (a, e) :: r).*1 ++ hs'.*1).
Proof.
  intros Hroom Hw Hd Hst Hlen Hat HsT He Hf. cbn zeta. assert (Hc := holes_wf_cells p T 0 _ Hroom ltac:(lia) Hw). rewrite fmap_app in Hc. cbn in Hc.
  assert (Hwr : holes_wf T 0 (l ++ rest a e start (start + len) ++ r)) by (apply (rest_wf T start (start + len) l r a e); (done || lia || (rewrite Hst, Z.mul_comm; apply Z.mod_mul; lia))).
  assert (Hc' := holes_wf_cells p T 0 _ Hroom ltac:(lia) Hwr).
  destruct (parts_ok p l r a Hc) as (Hl & Hr & Hb & Ha & Hal & Har & Hlr).
  assert (Hea : (a, e) ∈ l ++ (a, e) :: r) by (apply elem_of_app; right; by left). destruct (holes_wf_elem _ _ _ _ _ Hw Hea) as (_ & _ & He' & _).
  unfold update_holes. rewrite last_byte_ok by done. rewrite (hole_fields p l r a e Hd). cbn [mbind option_bind fst snd]. unfold rest in *.
  destruct (Z.eq_dec a thisfrag) as [Eat|Nat].
  - rewrite (proj2 (Z.leb_le thisfrag a)) by lia. rewrite (proj2 (Z.ltb_ge (8 * a) start)) in * by lia. cbn [andb app] in *.
    destruct (Z.leb_spec e (start + len)) as [Hel|Hel].
    + rewrite (proj2 (Z.ltb_ge _ _)) by lia. cbn [app]. destruct (decide (l ++ r = [])) as [E|Hne].
      * apply app_eq_nil in E as [-> ->]. exists p. cbn [app first_or]. rewrite (remove_last_hole p [] [] a e Hc Hd) by done. done.
      * destruct (remove_hole_ok p l r a e Hc Hd Hne) as (p' & E & Hd' & Hch). exists p'. rewrite E. rewrite bool_decide_false by done.
        split; [by replace (first_or (l ++ r) 0) with (first_or (l ++ r) a) by by destruct (l ++ r) as [|[]]|]. split; [done|]. eapply changes_weaken; [done|]. rewrite !fmap_app. cbn. set_solver.
    + rewrite (proj2 (Z.ltb_lt _ _)) in * by lia. cbn [app] in *. rewrite Z.quot_div_nonneg by lia. destruct (Hf Hel) as [Hm HT].
      assert (Eb : thisfrag + len / 8 = (start + len) / 8) by (rewrite Hst, Z.add_comm, Z.mul_comm, <-Z.div_add by lia; f_equal; lia). rewrite Eb. set (b := (start + len) / 8) in *.
      assert (H8 : 8 * b = start + len) by (unfold b; pose proof (Z.div_mod (start + len) 8); lia).
      rewrite fmap_app in Hc'. cbn in Hc'. destruct (parts_ok p l r b Hc') as (_ & _ & Hbb & Hb0 & Hbl & Hbr & _).
      destruct (move_hole_ok p l r a e Hc Hd b Hbb Hb0) as (p' & E & Hd' & Hch); [rewrite not_elem_of_app, not_elem_of_cons; split_and!; [done|lia|done]|].
      exists p'. rewrite E. rewrite bool_decide_false by by destruct l. split; [by destruct l as [|[]]|]. split; [done|]. eapply changes_weaken; [done|]. rewrite !fmap_app. cbn. set_solver.
  - rewrite (proj2 (Z.leb_gt thisfrag a)) by lia. rewrite (proj2 (Z.ltb_lt (8 * a) start)) in * by lia. cbn [andb app] in *.
    destruct (Z.leb_spec e (start + len)) as [Hel|Hel].
    + rewrite (proj2 (Z.ltb_ge _ _)) by lia. cbn [app]. destruct (shorten_hole_ok p l r a e Hc Hd start) as (p' & -> & Hd' & Hch); [lia|]. exists p'. cbn [mbind option_bind].
      rewrite bool_decide_false by by destruct l. split; [by destruct l as [|[]]|]. split; [done|]. eapply changes_weaken; [done|]. rewrite !fmap_app. cbn. set_solver.
    + rewrite (proj2 (Z.ltb_lt _ _)) in * by lia. cbn [app] in *. rewrite Z.quot_div_nonneg by lia. destruct (Hf Hel) as [Hm HT].
      assert (Eb : thisfrag + len / 8 = (start + len) / 8) by (rewrite Hst, Z.add_comm, Z.mul_comm, <-Z.div_add by lia; f_equal; lia). rewrite Eb. set (b := (start + len) / 8) in *.
      assert (H8 : 8 * b = start + len) by (unfold b; pose proof (Z.div_mod (start + len) 8); lia).
      assert (Hc2 : cells_ok p ((l ++ [(a, start)]).*1 ++ b :: r.*1)) by (rewrite <-(fmap_app fst) || (rewrite fmap_app; cbn; rewrite fmap_app in Hc'; cbn in Hc'; by rewrite <-app_assoc)).
      destruct (parts_ok p _ r b Hc2) as (_ & _ & Hbb & Hb0 & Hbl & Hbr & _). rewrite fmap_app, not_elem_of_app in Hbl. destruct Hbl as [Hbl _].
      destruct (split_hole_ok p l r a e Hc Hd b Hbb Hb0) with (start := start) as (p' & E & Hd' & Hch); [rewrite not_elem_of_app, not_elem_of_cons; split_and!; [done|lia|done]|lia|].
      exists p'. rewrite E. rewrite bool_decide_false by by destruct l. split; [by destruct l as [|[]]|]. split; [done|]. eapply changes_weaken; [done|]. rewrite !fmap_app. cbn. set_solver.
Qed.

(** ** The search *)

Fixpoint first_from (start : Z) (hs : list (Z * Z)) : option (list (Z * Z) * (Z * Z) * list (Z * Z)) :=
  match hs with
  | [] => None
  | (a, e) :: r => if start <=? e then Some ([], (a, e), r) else '(l, h, r) ← first_from start r; Some ((a, e) :: l, h, r)
  end.

Lemma first_from_spec start hs l a e r : first_from start hs = Some (l, (a, e), r) → hs = l ++ (a, e) :: r ∧ start ≤ e.
Proof.
  revert l. induction hs as [|[b eb] hs IH]; intros l; [done|]. cbn [first_from]. destruct (Z.leb_spec start eb); [by intros [= <- <- <- <-]|].
  destruct (first_from start hs) as [[[l' h'] r']|]; cbn; [|done]. intros [= <- -> ->]. by destruct (IH l' eq_refl) as [-> ?].
Qed.

Lemma first_from_app start l a e r : (∀ b eb, (b, eb) ∈ l → eb < start) → start ≤ e → first_from start (l ++ (a, e) :: r) = Some (l, (a, e), r).
Proof.
  intros Hl He. induction l as [|[b eb] l IH]; cbn [app first_from]; [by rewrite (proj2 (Z.leb_le _ _))|].
  rewrite (proj2 (Z.leb_gt _ _)) by (apply (Hl b); left). rewrite IH; [done|]. intros c ec Hin. apply (Hl c). by right.
Qed.

Lemma find_hole_ok p q hs start fuel : cells_ok p hs.*1 → dseg p q hs 0 → hs ≠ [] → (length hs ≤ fuel)%nat →
  find_hole fuel p start (first_or hs 0) = Some (option_map (λ x, x.1.2.1) (first_from start hs)).
Proof.
  revert q fuel. induction hs as [|[a e] hs IH]; intros q fuel Hok Hd Hne Hf; [done|]. destruct fuel as [|fuel]; cbn [length] in Hf; [lia|].
  cbn [find_hole first_or first_from]. destruct Hok as [Hn Hb]. cbn in Hn, Hb. destruct (Hb a ltac:(by left)) as [Ha _]. destruct Hd as [Hh Hd].
  rewrite last_byte_ok by done. rewrite Hh. cbn [mbind option_bind fst snd]. destruct (Z.ltb_spec e start).
  - rewrite (proj2 (Z.leb_gt _ _)) by done. rewrite next_hole_ok by done. rewrite Hh. cbn [mbind option_bind fst snd].
    assert (Hok' : cells_ok p hs.*1) by (split; [by apply NoDup_cons in Hn as [_ Hn]|]; intros c Hc; apply Hb; by right).
    destruct (decide (hs = [])) as [->|Hne']; [done|]. pose proof (first_or_pos p hs 0 Hok' Hne'). rewrite (proj2 (Z.eqb_neq _ _)) by lia.
    rewrite (IH a) by (done || lia). by destruct (first_from start hs) as [[[]]|].
  - by rewrite (proj2 (Z.leb_le _ _)).
Qed.

(** ** Datagrams *)

Lemma defragment_all_app max ips ips' s s' rs : defragment_all max s ips = Some (s', rs) →
  defragment_all max s (ips ++ ips') = '(s'', rs') ← defragment_all max s' ips'; Some (s'', rs ++ rs').
Proof.
  revert s rs. induction ips as [|ip ips IH]; intros s rs; cbn [defragment_all app].
  - intros [= -> <-]. destruct (defragment_all max s' ips') as [[]|]; done.
  - destruct (NetDefragment max s ip _) as [[s1 r1]|]; [|done]. cbn [mbind option_bind]. destruct (defragment_all max s1 ips) as [[s2 r2]|] eqn:E; [|done].
    cbn [mbind option_bind]. intros [= -> <-]. rewrite (IH s1 r2 E). destruct (defragment_all max s' ips') as [[]|]; done.
Qed.

Section Datagram.
(** The data of the fragments of a datagram, in order, and its identification. *)
Context (chunks : list (list Z)) (id : list Z).

Definition off (i : nat) : Z := Z.of_nat (length (concat (take i chunks))).
Definition total : Z := Z.of_nat (length (concat chunks)).

Definition chunks_ok : Prop :=
  (2 ≤ length chunks)%nat ∧ total < 2 ^ 16 - 1 ∧
  ∀ i c, chunks !! i = Some c → c ≠ [] ∧ ((S i < length chunks)%nat → Z.of_nat (length c) mod 8 = 0).

(** A packet that carries the fragment [i]. *)
Record is_fragment (i : nat) (ip : list Z) : Prop := {
  if_chunk : ∃ c, chunks !! i = Some c ∧ ip_len ip = Some (20 + Z.of_nat (length c)) ∧ memread ip IP_HDR_SIZE (Z.of_nat (length c)) = Some c;
  if_id : ip_id ip = Some id;
  if_off : ∃ o, ip_off ip = Some o ∧ Z.land o IP_OFFS = off i / 8 ∧ (Z.land o IP_FLAGS_MFRAG = 0 ↔ S i = length chunks);
}.

Hypothesis (Hok : chunks_ok).

Lemma off_S i c : chunks !! i = Some c → off (S i) = off i + Z.of_nat (length c).
Proof using. intros Hc. unfold off. rewrite (take_S_r _ _ _ Hc), concat_app, length_app. cbn. rewrite app_nil_r. lia. Qed.

Lemma off_end : off (length chunks) = total.
Proof using. unfold off, total. by rewrite firstn_all. Qed.

Lemma off_mono i j : (i ≤ j)%nat → off i ≤ off j.
Proof using. intros Hij. unfold off. replace j with (i + (j - i))%nat by lia. rewrite <-take_take_drop, concat_app, length_app. lia. Qed.

Lemma off_nonneg i : 0 ≤ off i.
Proof using. unfold off. lia. Qed.

Lemma off_mod i : (i < length chunks)%nat → off i mod 8 = 0.
Proof using Hok.
  induction i as [|i IH]; intros Hi; [done|]. destruct (lookup_lt_is_Some_2 chunks i) as [c Hc]; [lia|].
  rewrite (off_S i c Hc), Z.add_mod, IH by lia. destruct Hok as (_ & _ & H). destruct (H i c Hc) as [_ ->]; [done|lia].
Qed.

Lemma chunk_pos i c : chunks !! i = Some c → 0 < Z.of_nat (length c).
Proof using Hok. intros Hc. destruct Hok as (_ & _ & H). destruct (H i c Hc) as [? _]. destruct c; [done|cbn; lia]. Qed.

Lemma chunk_end i c : chunks !! i = Some c →
  off i + Z.of_nat (length c) ≤ total ∧ (S i = length chunks → off i + Z.of_nat (length c) = total) ∧
  ((S i < length chunks)%nat → (off i + Z.of_nat (length c)) mod 8 = 0 ∧ off i + Z.of_nat (length c) < total).
Proof using Hok.
  intros Hc. assert (Hi := lookup_lt_Some _ _ _ Hc). rewrite <-(off_S i c Hc), <-off_end. split_and!; [by apply off_mono|by intros ->|]. intros Hi'.
  split; [by apply off_mod|]. destruct (lookup_lt_is_Some_2 chunks (S i)) as [d Hd]; [done|]. pose proof (off_S _ _ Hd). pose proof (chunk_pos _ _ Hd).
  pose proof (off_mono (S (S i)) (length chunks) ltac:(lia)). lia.
Qed.

Lemma chunks_apart i j c d : i ≠ j → chunks !! i = Some c → chunks !! j = Some d →
  off i + Z.of_nat (length c) ≤ off j ∨ off j + Z.of_nat (length d) ≤ off i.
Proof using.
  intros Hij Hc Hd. rewrite <-(off_S i c Hc), <-(off_S j d Hd). destruct (Nat.lt_ge_cases i j); [left|right]; apply off_mono; lia.
Qed.

(** All data in place is the datagram. *)
Lemma take_concat p : total ≤ Z.of_nat (length p) →
  (∀ i c, chunks !! i = Some c → ∀ j, 0 ≤ j < Z.of_nat (length c) → byte_at p (off i + j) = byte_at c j) →
  take (Z.to_nat total) p = concat chunks.
Proof using.
  intros Hl H. assert (Hn : ∀ n, (n ≤ length chunks)%nat → take (Z.to_nat (off n)) p = concat (take n chunks)).
  { induction n as [|n IH]; intros Hn; [done|]. destruct (lookup_lt_is_Some_2 chunks n) as [c Hc]; [lia|]. rewrite (off_S n c Hc), (take_S_r _ _ _ Hc), concat_app.
    rewrite Z2Nat.inj_add, Nat2Z.id by (pose proof (off_nonneg n); lia). rewrite <-take_take_drop, IH by lia. f_equal. cbn. rewrite app_nil_r.
    assert (Hle : off n + Z.of_nat (length c) ≤ total) by (rewrite <-(off_S n c Hc), <-off_end; by apply off_mono). pose proof (off_nonneg n).
    apply list_eq. intros k. destruct (Nat.lt_ge_cases k (length c)).
    - rewrite lookup_take, decide_True, lookup_drop by done. specialize (H n c Hc (Z.of_nat k) ltac:(lia)). unfold byte_at in H.
      rewrite Nat2Z.id, Z2Nat.inj_add, Nat2Z.id in H by lia. rewrite !list_lookup_total_alt in H.
      destruct (lookup_lt_is_Some_2 p (Z.to_nat (off n) + k)) as [x Hx]; [lia|]. destruct (lookup_lt_is_Some_2 c k) as [y Hy]; [done|]. rewrite Hx, Hy in *. cbn in H. congruence.
    - rewrite !lookup_ge_None_2; [done|lia|]. rewrite length_take. lia. }
  rewrite <-off_end, Hn by lia. by rewrite firstn_all.
Qed.

(** ** The invariant *)

(** The fragments [F] have arrived, and the list of holes is [hs]. *)
Record inv (F : list nat) (hs : list (Z * Z)) (s : state) : Prop := {
  i_room : roomy (payload s) total;
  i_fits : total ≤ Z.of_nat (length (payload s));
  i_first : hs ≠ [] → first_hole s = first_or hs 0;
  i_dseg : dseg (payload s) 0 hs 0;
  i_wf : holes_wf total 0 hs;
  i_data : ∀ i c, i ∈ F → chunks !! i = Some c → ∀ j, 0 ≤ j < Z.of_nat (length c) → byte_at (payload s) (off i + j) = byte_at c j;
  i_apart : ∀ i c a e, i ∈ F → chunks !! i = Some c → (a, e) ∈ hs → off i + Z.of_nat (length c) ≤ 8 * a ∨ e ≤ off i;
  i_miss : ∀ i c, i ∉ F → chunks !! i = Some c → ∃ a e, (a, e) ∈ hs ∧ 8 * a ≤ off i ∧ off i + Z.of_nat (length c) ≤ e;
  i_total : ∀ i, i ∈ F → S i = length chunks → total_len s = total;
  i_nonzero : total_len s ≠ 0;
  i_hdr : length (localip s) = 20%nat;
  i_id : hs ≠ [] → ip_id (localip s) = Some id;
}.

(** A received part does not meet the descriptor of a hole that it does not meet. *)
Lemma cell_apart hs a e lo hi : holes_wf total 0 hs → (a, e) ∈ hs → lo < hi → hi ≤ total → hi ≤ 8 * a ∨ e ≤ lo → hi ≤ 8 * a ∨ 8 * a + 8 ≤ lo.
Proof using.
  intros Hw Hin Hlt Hhi [H|H]; [by left|]. destruct (holes_wf_elem _ _ _ _ _ Hw Hin) as (_ & _ & [H1 _] & [Hm|HT]); [|lia].
  right. pose proof (Z.div_mod e 8 ltac:(lia)). lia.
Qed.

Lemma changes_data p p' (hs : list (Z * Z)) lo hi : changes p p' hs.*1 → 0 ≤ lo → (∀ a e, (a, e) ∈ hs → hi ≤ 8 * a ∨ 8 * a + 8 ≤ lo) →
  ∀ k, lo ≤ k < hi → byte_at p' k = byte_at p k.
Proof using.
  intros [_ H] Hlo Hn k Hk. apply H; [lia|]. intros a ([b e]&->&Hin)%list_elem_of_fmap. destruct (Hn b e Hin); cbn; lia.
Qed.

Lemma roomy_length p p' T : length p' = length p → roomy p T → roomy p' T.
Proof using. intros Hl Hr c Hc Hc'. destruct (Hr c Hc Hc') as [? ?]. split; [done|lia]. Qed.

Section Step.
Context (F : list nat) (s : state) (i : nat) (c ip : list Z) (o : Z).
Hypothesis (Hc : chunks !! i = Some c) (Hmf : Z.land o IP_FLAGS_MFRAG = 0 ↔ S i = length chunks) (Hdata : memread ip IP_HDR_SIZE (Z.of_nat (length c)) = Some c).
Notation start := (off i).
Notation len := (Z.of_nat (length c)).

Lemma start8 : off i / 8 * 8 = start ∧ 8 * (off i / 8) = start.
Proof using All. assert (Hi := lookup_lt_Some _ _ _ Hc). pose proof (Z.div_mod (off i) 8 ltac:(lia)) as H8. rewrite (off_mod i Hi) in H8. clear -H8. lia. Qed.

(** The end of the hole around the fragment, after the truncation. *)
Definition fin_hole (e : Z) : Z := if decide (S i = length chunks) then total else e.

Lemma truncate_ok l r a e : inv F (l ++ (a, e) :: r) s → 8 * a ≤ start → start + len ≤ e →
  ∃ p1, (if Z.land o IP_FLAGS_MFRAG =? 0 then p ← set_last_byte (payload s) a (start + len); Some (p, u16 (start + len)) else Some (payload s, total_len s)) =
      Some (p1, fin_hole (total_len s)) ∧
    dseg p1 0 (l ++ (a, fin_hole e) :: r) 0 ∧ holes_wf total 0 (l ++ (a, fin_hole e) :: r) ∧ changes (payload s) p1 [a].
Proof using All.
  intros Hi Ha He. pose proof (i_wf _ _ _ Hi) as Hw. pose proof (i_dseg _ _ _ Hi) as Hd. unfold fin_hole.
  assert (Hcells := holes_wf_cells _ _ 0 _ (i_room _ _ _ Hi) ltac:(lia) Hw). rewrite fmap_app in Hcells. cbn in Hcells.
  destruct (chunk_end i c Hc) as (Hle & Hlast & _). pose proof (chunk_pos i c Hc). destruct Hok as (_ & HT & _).
  case_decide as Hn.
  - rewrite (proj2 (Z.eqb_eq _ _)) by by apply Hmf. rewrite (Hlast Hn) in *. pose proof (off_nonneg i).
    destruct (shorten_hole_ok _ _ _ _ _ Hcells Hd total) as (p1 & -> & Hd1 & Hc1); [lia|]. exists p1. split; [|split; [done|split; [|done]]].
    + cbn [mbind option_bind]. do 2 f_equal. unfold u16. by rewrite Z.mod_small by lia.
    + apply holes_wf_app in Hw as [Hl Hm]. apply holes_wf_app. split; [done|]. cbn in Hm |- *. destruct Hm as (?&?&?&_&?).
      split_and!; try (done || lia). apply (holes_wf_mono _ e); [lia|done].
  - rewrite (proj2 (Z.eqb_neq _ _)) by tauto. by exists (payload s).
Qed.

(** What the memory is after the update of the holes and the copy. *)
Lemma copy_ok hs' p2 : roomy p2 total → total ≤ Z.of_nat (length p2) → dseg p2 0 hs' 0 → holes_wf total 0 hs' →
  (∀ a e, (a, e) ∈ hs' → start + len ≤ 8 * a ∨ e ≤ start) →
  ∃ p3, memcpy p2 start c = Some p3 ∧ length p3 = length p2 ∧ dseg p3 0 hs' 0 ∧
    (∀ j, 0 ≤ j < len → byte_at p3 (start + j) = byte_at c j) ∧ same_outside p2 p3 start (start + len).
Proof using All.
  intros Hr Hl Hd Hw Hap. pose proof (off_nonneg i). destruct (chunk_end i c Hc) as (Hle & _ & _). pose proof (chunk_pos i c Hc).
  destruct (memcpy_at p2 start c) as (p3 & E & Hl3 & Hs3 & Hb3); [lia..|]. exists p3. split_and!; [done..| |done|done].
  apply (dseg_frame p2); [|done]. intros a ([b e]&->&Hin)%list_elem_of_fmap. cbn.
  destruct (holes_wf_elem _ _ _ _ _ Hw Hin) as (Hb & _). apply (hole_frame p2 p3 start (start + len) b Hs3); [lia|].
  destruct (cell_apart hs' b e start (start + len) Hw Hin); [lia|lia|by apply Hap|by right|by left].
Qed.

Lemma insert_missing hs : inv F hs s → i ∉ F →
  ∃ s' hs', insert_fragment s ip o (off i / 8) (off i / 8 * 8) len = Some (s', if decide (hs' = []) then Some (total + 20) else None) ∧ inv (i :: F) hs' s'.
Proof using All.
  intros Hi HiF. destruct (i_miss _ _ _ Hi i c HiF Hc) as (a & e & Hin & Ha & He). apply list_elem_of_split in Hin as (l & r & ->).
  destruct (truncate_ok l r a e Hi Ha He) as (p1 & Ht & Hd1 & Hw1 & Hc1). set (e1 := fin_hole e) in *.
  pose proof (i_wf _ _ _ Hi) as Hw. pose proof (off_nonneg i) as Hs0. destruct (chunk_end i c Hc) as (Hle & Hlast & Hmid). pose proof (chunk_pos i c Hc) as Hlen.
  assert (Hin := lookup_lt_Some _ _ _ Hc). destruct start8 as [S8 S8'].
  assert (He1 : start + len ≤ e1 ∧ e1 ≤ e ∧ (start + len < e1 → (start + len) mod 8 = 0 ∧ start + len < total) ∧ (∀ hi, hi ≤ total → hi ≤ e → hi ≤ e1)).
  { unfold e1, fin_hole. case_decide as Hn; [rewrite <-(Hlast Hn); split_and!; try lia|]. split_and!; [done..|intros _; apply Hmid; lia|done]. }
  destruct He1 as (He1 & He1' & Hf & Hhi). clearbody e1.
  assert (Hcells := holes_wf_cells _ _ 0 _ (i_room _ _ _ Hi) ltac:(lia) Hw).
  assert (Hr1 : roomy p1 total) by (eapply roomy_length; [apply Hc1|apply Hi]).
  destruct (update_holes_ok p1 total l r a e1 (off i / 8) start len) as (p2 & Hu & Hd2 & Hc2); [done|done|done|by rewrite S8'|done|lia|lia|done|done|].
  set (hs' := l ++ rest a e1 start (start + len) ++ r) in *.
  assert (Hw2 : holes_wf total 0 hs') by (apply (rest_wf total start (start + len) l r a e1); (done || lia || (rewrite <-S8; apply Z.mod_mul; lia))).
  assert (Hmem : ∀ b eb, (b, eb) ∈ hs' → (b, eb) ∈ l ++ (a, e) :: r ∨ (b, eb) ∈ rest a e1 start (start + len)).
  { intros b eb. unfold hs'. rewrite !elem_of_app, elem_of_cons. tauto. }
  assert (Hap : ∀ b eb, (b, eb) ∈ hs' → start + len ≤ 8 * b ∨ eb ≤ start).
  { intros b eb. unfold hs'. rewrite !elem_of_app. intros [Hb|[Hb|Hb]].
    - apply (holes_wf_before _ _ _ _ _ _ _ _ Hw) in Hb. lia.
    - apply (rest_inside total start (start + len)) in Hb; [lia|rewrite <-S8; apply Z.mod_mul; lia|lia..|done].
    - apply (holes_wf_after _ _ _ _ _ _ _ _ Hw) in Hb. lia. }
  assert (Hins : ∀ b eb, (b, eb) ∈ rest a e1 start (start + len) → 8 * a ≤ 8 * b ∧ eb ≤ e).
  { intros b eb Hb. apply (rest_inside total start (start + len)) in Hb; [lia|rewrite <-S8; apply Z.mod_mul; lia|lia..|done]. }
  assert (L2 : length p2 = length (payload s)) by (by rewrite (proj1 Hc2), (proj1 Hc1)).
  destruct (copy_ok hs' p2) as (p3 & Hm & Hl3 & Hd3 & Hb3 & Hs3); [eapply roomy_length; [done|apply Hi]|rewrite L2; apply Hi|done..|].
  assert (Hone : changes (payload s) p2 ((l ++ (a, e) :: r) ++ hs').*1).
  { rewrite fmap_app. replace (l ++ (a, e) :: r).*1 with (l ++ (a, e1) :: r).*1 by (rewrite !fmap_app; done).
    eapply changes_trans; [|done]. eapply changes_weaken; [done|]. rewrite !fmap_app. cbn. set_solver. }
  assert (Happ : ∀ j d b eb, j ∈ F → chunks !! j = Some d → (b, eb) ∈ hs' → off j + Z.of_nat (length d) ≤ 8 * b ∨ eb ≤ off j).
  { intros j d b eb Hj Hd [Hb|Hb]%Hmem; [by apply (i_apart _ _ _ Hi j d b eb)|]. apply Hins in Hb.
    destruct (i_apart _ _ _ Hi j d a e Hj Hd); [apply elem_of_app; right; by left|left; lia|right; lia]. }
  assert (Hkeep : ∀ j d, j ∈ F → chunks !! j = Some d → ∀ k, off j ≤ k < off j + Z.of_nat (length d) → byte_at p3 k = byte_at (payload s) k).
  { intros j d Hj Hd k Hk. pose proof (off_nonneg j). destruct (chunk_end j d Hd) as (Hle' & _). rewrite Hs3; [|lia|].
    - apply (changes_data _ _ _ (off j) (off j + Z.of_nat (length d)) Hone); [lia| |done].
      pose proof (chunk_pos j d Hd). intros b eb [Hb|Hb]%elem_of_app.
      + by apply (cell_apart _ b eb _ _ Hw Hb); [lia|lia|apply (i_apart _ _ _ Hi j d b eb)].
      + by apply (cell_apart _ b eb _ _ Hw2 Hb); [lia|lia|eapply Happ].
    - destruct (chunks_apart i j c d) as [|]; [by intros ->|done|done|lia|lia]. }
  assert (Hnew : ∀ j d, j ∉ i :: F → chunks !! j = Some d → ∃ b eb, (b, eb) ∈ hs' ∧ 8 * b ≤ off j ∧ off j + Z.of_nat (length d) ≤ eb).
  { intros j d [Hji HjF]%not_elem_of_cons Hd. destruct (i_miss _ _ _ Hi j d HjF Hd) as (b & eb & Hb & Hlo & Hhi').
    destruct (decide ((b, eb) = (a, e))) as [[= -> ->]|Hne].
    - destruct (chunk_end j d Hd) as (Hle' & _). pose proof (chunk_pos j d Hd).
      destruct (rest_covers total start (start + len) a e1) with (lo := off j) (hi := off j + Z.of_nat (length d)) as (b & eb & Hb' & ? & ?);
        [rewrite <-S8; apply Z.mod_mul; lia|lia..|done|done|by apply Hhi|lia|apply or_comm, (chunks_apart i j c d); done|].
      exists b, eb. split; [|done]. unfold hs'. rewrite !elem_of_app. tauto.
    - exists b, eb. split; [|done]. unfold hs'. revert Hb. rewrite !elem_of_app, elem_of_cons. tauto. }
  unfold insert_fragment. rewrite S8, (i_first _ _ _ Hi) by by destruct l.
  pose proof (holes_wf_length _ _ _ Hw ltac:(by destruct l)) as Hcount. pose proof (i_fits _ _ _ Hi).
  rewrite (find_hole_ok _ 0 _ start _ Hcells (i_dseg _ _ _ Hi)) by (lia || by destruct l).
  rewrite first_from_app by (try lia; intros b eb Hb; apply (holes_wf_before _ _ _ _ _ _ _ _ Hw) in Hb; lia). cbn [option_map mbind option_bind fst snd].
  rewrite Z.quot_div_nonneg by lia. rewrite (proj2 (Z.leb_gt _ _)) by (pose proof (Z.div_le_lower_bound (len + 7) 8 1); lia).
  rewrite Ht. cbn [mbind option_bind].
  replace (first_or (l ++ (a, e) :: r) 0) with (first_or (l ++ (a, e1) :: r) 0) by by destruct l as [|[]]. rewrite Hu. cbn [mbind option_bind].
  rewrite Hdata. cbn [mbind option_bind]. rewrite S8', Hm. cbn [mbind option_bind].
  assert (Htot : ∀ j, j ∈ i :: F → S j = length chunks → fin_hole (total_len s) = total).
  { unfold fin_hole. case_decide as Hn; [done|]. intros j [->|Hj]%elem_of_cons; [done|]. by apply (i_total _ _ _ Hi j). }
  assert (Hnz : fin_hole (total_len s) ≠ 0) by (unfold fin_hole; case_decide; [lia|apply Hi]).
  assert (Hinv : ∀ s', payload s' = p3 → total_len s' = fin_hole (total_len s) → (hs' ≠ [] → first_hole s' = first_or hs' 0) →
    length (localip s') = length (localip s) → (hs' ≠ [] → localip s' = localip s) → inv (i :: F) hs' s').
  { intros s' Ep Et Hfirst Hlen' Hhdr'. split; rewrite ?Ep, ?Et, ?Hl3, ?L2; try done.
    - apply (roomy_length (payload s)); [by rewrite Hl3|by eapply i_room].
    - intros j d [->|Hj]%elem_of_cons Hd k Hk; [rewrite Hc in Hd; injection Hd as <-; by apply Hb3|].
      rewrite (Hkeep j d Hj Hd) by lia. by apply (i_data _ _ _ Hi j d).
    - intros j d b eb [->|Hj]%elem_of_cons Hd Hb; [rewrite Hc in Hd; injection Hd as <-; by apply Hap|]. by eapply Happ.
    - rewrite Hlen'. by eapply i_hdr.
    - intros Hne. rewrite Hhdr' by done. apply (i_id _ _ _ Hi). by destruct l. }
  destruct (decide (hs' = [])) as [E|Hne].
  - rewrite bool_decide_true by done.
    pose proof (i_hdr _ _ _ Hi) as Hlip.
    destruct (memcpy_at (localip s) 2 [fin_hole (total_len s) / 256 mod 256; fin_hole (total_len s) mod 256]) as (hdr & Hh & Hhl & _); [lia|rewrite Hlip; cbn; lia|].
    unfold set_ip_len. rewrite Hh. cbn [mbind option_bind]. exists (mkState hdr p3 (first_or hs' a) (fin_hole (total_len s))), hs'. rewrite decide_True by done. split; [|apply Hinv; [reflexivity|reflexivity|intros Hn; by destruct (Hn E)|done|intros Hn; by destruct (Hn E)]].
    do 3 f_equal. unfold IP_HDR_SIZE. f_equal.
    destruct (decide (pred (length chunks) ∈ i :: F)) as [Hl|Hl]; [apply (Htot _ Hl); lia|].
    destruct (lookup_lt_is_Some_2 chunks (pred (length chunks))) as [d Hd]; [lia|]. destruct (Hnew _ d Hl Hd) as (b & eb & Hb & _). rewrite E in Hb. by apply elem_of_nil in Hb.
  - rewrite bool_decide_false by done. exists (mkState (localip s) p3 (first_or hs' a) (fin_hole (total_len s))), hs'. rewrite decide_False by done. split; [done|]. apply Hinv; try done.
    intros _. cbn. by destruct hs' as [|[]].
Qed.

(** A fragment that has arrived before changes nothing that matters. *)
Lemma truncate_same p l r a e : cells_ok p (l ++ (a, e) :: r).*1 → dseg p 0 (l ++ (a, e) :: r) 0 → i ∈ F → total_len s = fin_hole (total_len s) → e = start →
  ∃ p1 e1, (if Z.land o IP_FLAGS_MFRAG =? 0 then q ← set_last_byte p a (start + len); Some (q, u16 (start + len)) else Some (p, total_len s)) = Some (p1, total_len s) ∧
    dseg p1 0 (l ++ (a, e1) :: r) 0 ∧ changes p p1 [a] ∧ e1 ≤ start + len.
Proof using All.
  intros Hcells Hd HiF Ht ->. destruct (chunk_end i c Hc) as (Hle & Hlast & _). pose proof (chunk_pos i c Hc). pose proof (off_nonneg i). destruct Hok as (_ & HT & _).
  destruct (Z.eqb_spec (Z.land o IP_FLAGS_MFRAG) 0) as [Em|]; [|exists p, start; split_and!; (done || lia)].
  rewrite fmap_app in Hcells. destruct (shorten_hole_ok p l r a start Hcells Hd (start + len)) as (p1 & -> & Hd1 & Hc1); [lia|].
  exists p1, (start + len). split_and!; [|done|done|lia]. cbn [mbind option_bind]. do 2 f_equal. apply Hmf in Em. rewrite Ht. unfold fin_hole, u16. rewrite decide_True by done.
  rewrite (Hlast Em) in *. by rewrite Z.mod_small by lia.
Qed.

Lemma insert_again hs : inv F hs s → hs ≠ [] → i ∈ F →
  ∃ s', insert_fragment s ip o (off i / 8) (off i / 8 * 8) len = Some (s', None) ∧ inv F hs s'.
Proof using All.
  intros Hi Hne HiF. pose proof (i_wf _ _ _ Hi) as Hw. pose proof (i_fits _ _ _ Hi). pose proof (off_nonneg i). destruct (chunk_end i c Hc) as (Hle & _ & _). pose proof (chunk_pos i c Hc) as Hlen.
  destruct start8 as [S8 S8']. assert (Hcells := holes_wf_cells _ _ 0 _ (i_room _ _ _ Hi) ltac:(lia) Hw). pose proof (holes_wf_length _ _ _ Hw Hne).
  unfold insert_fragment. rewrite S8, (i_first _ _ _ Hi Hne), (find_hole_ok _ 0 _ start _ Hcells (i_dseg _ _ _ Hi)) by (lia || done).
  destruct (first_from start hs) as [[[l [a e]] r]|] eqn:Ef; [|by exists s]. cbn [option_map mbind option_bind fst snd].
  apply first_from_spec in Ef as [-> He]. assert (Hin : (a, e) ∈ l ++ (a, e) :: r) by (apply elem_of_app; right; by left).
  rewrite Z.quot_div_nonneg by lia. pose proof (Z.div_mod (len + 7) 8 ltac:(lia)) as Hq. pose proof (Z.mod_pos_bound (len + 7) 8 ltac:(lia)).
  destruct (i_apart _ _ _ Hi i c a e HiF Hc Hin) as [Hap|Hap].
  { rewrite (proj2 (Z.leb_le _ _)) by lia. by exists s. }
  destruct (holes_wf_elem _ _ _ _ _ Hw Hin) as (Ha0 & _ & Hae & _). rewrite (proj2 (Z.leb_gt _ a)) by lia.
  assert (Ht : total_len s = fin_hole (total_len s)) by (unfold fin_hole; case_decide as Hn; [by apply (i_total _ _ _ Hi i)|done]).
  destruct (truncate_same _ l r a e Hcells (i_dseg _ _ _ Hi) HiF Ht) as (p1 & e1 & -> & Hd1 & Hc1 & He1); [lia|]. cbn [mbind option_bind].
  assert (Hcells1 : cells_ok p1 (l.*1 ++ a :: r.*1)) by (rewrite fmap_app in Hcells; by eapply changes_cells).
  destruct (parts_ok p1 l r a Hcells1) as (_ & _ & Hb1 & _). unfold update_holes. rewrite last_byte_ok by done. rewrite (hole_fields p1 l r a e1 Hd1). cbn [mbind option_bind fst snd].
  rewrite (proj2 (Z.leb_gt (off i / 8) a)) by lia. rewrite (proj2 (Z.leb_le e1 _)) by lia. cbn [andb].
  destruct (shorten_hole_ok p1 l r a e1 Hcells1 Hd1 start) as (p2 & -> & Hd2 & Hc2); [lia|]. cbn [mbind option_bind]. rewrite Hdata. cbn [mbind option_bind]. rewrite S8'.
  assert (e = start) as -> by lia. assert (Hone : changes (payload s) p2 (l ++ (a, start) :: r).*1).
  { apply (changes_weaken _ _ [a]); [by eapply changes_trans|]. rewrite fmap_app. cbn. set_solver. }
  assert (L2 : length p2 = length (payload s)) by apply Hone.
  destruct (copy_ok (l ++ (a, start) :: r) p2) as (p3 & -> & Hl3 & Hd3 & Hb3 & Hs3); [by eapply roomy_length, i_room|by rewrite L2|done|done|by intros b eb Hb; apply (i_apart _ _ _ Hi i c b eb)|].
  cbn [mbind option_bind]. eexists. split; [done|]. destruct Hi as [Hroom Hfits Hfirst _ _ Hdat Happ Hmiss Htot Hnz Hhdr Hid]. split; cbn [payload first_hole total_len localip]; rewrite ?Hl3, ?L2; try done.
  - apply (roomy_length (payload s)); [by rewrite Hl3|done].
  - intros j d Hj Hd k Hk. destruct (decide (j = i)) as [->|Hji]; [rewrite Hc in Hd; injection Hd as <-; by apply Hb3|].
    rewrite <-(Hdat j d Hj Hd k Hk). pose proof (off_nonneg j). destruct (chunk_end j d Hd) as (Hle' & _). rewrite Hs3; [|lia|].
    + apply (changes_data _ _ _ (off j) (off j + Z.of_nat (length d)) Hone); [lia| |lia]. pose proof (chunk_pos j d Hd).
      intros b eb Hb. apply (cell_apart _ b eb _ _ Hw Hb); [lia|lia|by apply (Happ j d b eb)].
    + destruct (chunks_apart i j c d); (done || lia).
Qed.

(** The fragment [i], new or not. *)
Lemma insert_ok hs : inv F hs s → hs ≠ [] →
  ∃ s' hs', insert_fragment s ip o (off i / 8) (off i / 8 * 8) len = Some (s', if decide (hs' = []) then Some (total + 20) else None) ∧ inv (i :: F) hs' s'.
Proof using All.
  intros Hi Hne. destruct (decide (i ∈ F)) as [HiF|]; [|by apply (insert_missing hs)]. destruct (insert_again hs Hi Hne HiF) as (s' & E & Hi'). exists s', hs. rewrite decide_False by done. split; [done|].
  destruct Hi' as [Hroom Hfits Hfirst Hdseg Hwf Hdat Happ Hmiss Htot Hnz Hhdr Hid]. split; try done.
  - intros j d [->|Hj]%elem_of_cons; [by apply Hdat|by apply Hdat].
  - intros j d a e [->|Hj]%elem_of_cons; [by apply Happ|by apply Happ].
  - intros j d [_ Hj]%not_elem_of_cons. by apply Hmiss.
  - intros j [->|Hj]%elem_of_cons; [by apply Htot|by apply Htot].
Qed.

End Step.

(** ** The whole *)

Context (IP_MAXUDP : Z).
Hypothesis (Hmax : total ≤ IP_MAXUDP).

(** What a packet that carries a fragment makes the code do. *)
Lemma defragment_fragment s i ip c o l :
  chunks !! i = Some c → ip_len ip = Some (20 + Z.of_nat (length c)) → ip_id ip = Some id → ip_off ip = Some o →
  Z.land o IP_OFFS = off i / 8 → (Z.land o IP_FLAGS_MFRAG = 0 ↔ S i = length chunks) → length (localip s) = 20%nat →
  NetDefragment IP_MAXUDP s ip l =
    '(s, r) ← (s ← (if (total_len s =? 0) || negb (bool_decide (ip_id (localip s) = Some id)) then reset s ip else Some s);
               insert_fragment s ip o (off i / 8) (off i / 8 * 8) (Z.of_nat (length c)));
    Some (s, r ≫= λ lenp, Some (localip s ++ payload s, lenp)).
Proof using Hok Hmax.
  intros Hc Hlen Hid Ho Hoff Hmf Hl. unfold NetDefragment, __NetDefragment. rewrite Ho. cbn [mbind option_bind]. assert (Hi := lookup_lt_Some _ _ _ Hc).
  destruct (chunk_end i c Hc) as (Hle & Hlast & _). pose proof (off_nonneg i). pose proof (Z.div_mod (off i) 8 ltac:(lia)) as H8. rewrite (off_mod i Hi) in H8.
  destruct Hok as (H2 & HT & _). rewrite (proj2 (Z.eqb_neq _ _)).
  - rewrite Hlen. cbn [mbind option_bind]. rewrite Hoff. replace (20 + Z.of_nat (length c) - IP_HDR_SIZE) with (Z.of_nat (length c)) by (unfold IP_HDR_SIZE; lia).
    rewrite u32_small by lia. rewrite (proj2 (Z.ltb_ge _ _)) by lia. unfold same_id. rewrite Hid. destruct (memread_ok (localip s) 4 2) as (x & Hx & _); [lia..|].
    assert (Ex : ip_id (localip s) = Some x) by done. rewrite Ex. cbn [mbind option_bind].
    replace (bool_decide (Some x = Some id)) with (bool_decide (x = id)); [done|]. apply bool_decide_ext. split; [by intros ->|by intros [= ->]].
  - rewrite Z.land_lor_distr_r, Z.lor_eq_0_iff, Hoff, Hmf. intros [H0 Hn]. destruct i; [lia|]. destruct (lookup_lt_is_Some_2 chunks 0) as [d Hd]; [lia|].
    pose proof (chunk_pos 0 d Hd). pose proof (off_S 0 d Hd). pose proof (off_mono 1 (S i) ltac:(lia)). assert (off 0 = 0) by done. lia.
Qed.

Lemma defragment_step F hs s i ip l : inv F hs s → hs ≠ [] → is_fragment i ip →
  ∃ s' hs', NetDefragment IP_MAXUDP s ip l = Some (s', if decide (hs' = []) then Some (localip s' ++ payload s', total + 20) else None) ∧ inv (i :: F) hs' s'.
Proof using Hok Hmax.
  intros Hi Hne [(c & Hc & Hlen & Hdata) Hid (o & Ho & Hoff & Hmf)].
  destruct (insert_ok F s i c ip o Hc Hmf Hdata hs Hi Hne) as (s' & hs' & E & Hi'). exists s', hs'. split; [|done].
  rewrite (defragment_fragment s i ip c o l) by (done || by eapply i_hdr). rewrite (proj2 (Z.eqb_neq _ _)) by by eapply i_nonzero.
  rewrite bool_decide_true by by eapply i_id. cbn [orb negb mbind option_bind]. rewrite E. cbn. by case_decide.
Qed.

Lemma reset_ok s ip n x : in_bounds (payload s) 0 → memread ip IP_HDR_SIZE n = Some x → 0 ≤ n → ip_id ip = Some id →
  ∃ s', reset s ip = Some s' ∧ length (payload s') = length (payload s) ∧ hole_of (payload s') 0 = (0xffff, 0, 0) ∧ first_hole s' = 0 ∧ total_len s' = 0xffff ∧
    length (localip s') = 20%nat ∧ ip_id (localip s') = Some id.
Proof using.
  intros Hb Hx Hn Hid. apply memread_Some in Hx. unfold IP_HDR_SIZE in Hx. unfold reset.
  destruct (set_last_byte_ok (payload s) 0 Hb 0xffff) as (p1 & -> & Hu1); [lia|]. cbn [mbind option_bind]. assert (Hb1 := updates_bounds _ _ _ _ 0 Hu1 Hb).
  destruct (set_next_hole_ok p1 0 Hb1 0) as (p2 & -> & Hu2); [lia|]. cbn [mbind option_bind]. assert (Hb2 := updates_bounds _ _ _ _ 0 Hu2 Hb1).
  destruct (set_prev_hole_ok p2 0 Hb2 0) as (p3 & -> & Hu3); [lia|]. cbn [mbind option_bind].
  destruct Hu1 as (L1 & H1 & _), Hu2 as (L2 & H2 & _), Hu3 as (L3 & H3 & _). rewrite H1 in H2. rewrite H2 in H3. cbn in H3.
  unfold memread at 1. unfold IP_HDR_SIZE. rewrite (proj2 (Z.leb_le (0 + 20) _)) by lia. cbn [Z.leb Z.compare andb mbind option_bind]. eexists. split; [done|].
  cbn [payload localip first_hole total_len]. split_and!; [by rewrite L3, L2|done|done|done|rewrite length_take, drop_0; lia|].
  rewrite drop_0. revert Hid. unfold ip_id, memread. rewrite length_take. cbn [Z.leb Z.compare andb].
  rewrite (proj2 (Z.leb_le _ (Z.of_nat (length ip)))), (proj2 (Z.leb_le _ _)) by lia. intros [= <-]. f_equal. rewrite take_drop_commute. change (Z.to_nat 4 + Z.to_nat 2)%nat with 6%nat.
  by rewrite take_take, take_drop_commute.
Qed.

Lemma first_step s ip l : roomy (payload s) total → total ≤ Z.of_nat (length (payload s)) → length (localip s) = 20%nat →
  total_len s = 0 ∨ ip_id (localip s) ≠ Some id → is_fragment 0 ip →
  ∃ s' hs', NetDefragment IP_MAXUDP s ip l = Some (s', None) ∧ inv [0%nat] hs' s'.
Proof using Hok Hmax.
  intros Hr Hfit Hl Hnew [(c & Hc & Hlen & Hdata) Hid (o & Ho & Hoff & Hmf)]. assert (Hok' := Hok). destruct Hok' as (H2 & HT & Hok'). destruct (Hok' 0%nat c Hc) as [_ Hm]. specialize (Hm ltac:(lia)).
  pose proof (chunk_pos 0 c Hc) as Hpos. destruct (chunk_end 0 c Hc) as (_ & _ & Hend). destruct (Hend ltac:(lia)) as [_ Hlt]. clear Hend. assert (Ho0 : off 0 = 0) by done. rewrite Ho0 in *.
  assert (Hb0 : in_bounds (payload s) 0) by (apply Hr; lia). destruct (reset_ok s ip _ _ Hb0 Hdata ltac:(lia) Hid) as (s1 & E1 & L1 & Hh1 & Hf1 & Ht1 & Hl1 & Hid1).
  rewrite (defragment_fragment s 0 ip c o l) by done. replace ((total_len s =? 0) || _) with true
    by (symmetry; apply orb_true_iff; destruct Hnew as [Hz|Hz]; [left; by apply Z.eqb_eq|right; by rewrite bool_decide_false]).
  rewrite E1. cbn [mbind option_bind]. rewrite Ho0. change (0 / 8 * 8) with 0. change (0 / 8) with 0. unfold insert_fragment. rewrite Hf1.
  assert (Hb1 : in_bounds (payload s1) 0) by (destruct Hb0; split; [done|lia]). cbn [find_hole]. rewrite last_byte_ok, Hh1 by done. cbn [mbind option_bind fst snd Z.ltb Z.compare].
  rewrite Z.quot_div_nonneg by lia. rewrite (proj2 (Z.leb_gt _ 0)) by (pose proof (Z.div_le_lower_bound (Z.of_nat (length c) + 7) 8 1); lia).
  rewrite (proj2 (Z.eqb_neq _ 0)) by (rewrite Hmf; lia). cbn [mbind option_bind]. unfold update_holes. rewrite last_byte_ok, Hh1 by done. cbn [mbind option_bind fst snd].
  rewrite (proj2 (Z.leb_gt 0xffff _)) by lia. cbn [Z.leb Z.compare andb]. rewrite Z.quot_div_nonneg by lia. pose proof (Z.div_mod (Z.of_nat (length c)) 8 ltac:(lia)) as H8. rewrite Hm in H8.
  set (b := 0 + Z.of_nat (length c) / 8). assert (Hb : 8 * b = Z.of_nat (length c)) by (unfold b; lia). clearbody b.
  assert (Hbb : in_bounds (payload s1) b) by (apply (roomy_length (payload s) (payload s1) total L1 Hr); lia).
  unfold move_hole. destruct (copy_hole_ok (payload s1) 0 Hb1 b Hbb) as (p2 & -> & Hu). cbn [mbind option_bind]. rewrite Hh1 in Hu.
  assert (Hb2 := updates_bounds _ _ _ _ b Hu Hbb). rewrite next_hole_ok by done. replace (hole_of p2 b) with (65535, 0, 0) by (symmetry; apply Hu). cbn [mbind option_bind fst snd Z.eqb negb].
  rewrite prev_hole_ok by done. replace (hole_of p2 b) with (65535, 0, 0) by (symmetry; apply Hu). cbn [mbind option_bind fst snd Z.eqb negb]. rewrite Hdata. cbn [mbind option_bind]. change (8 * 0) with 0.
  destruct Hu as (L2 & Hh2 & _). destruct (memcpy_at p2 0 c) as (p3 & -> & L3 & Hs3 & Hb3); [lia|lia|]. cbn [mbind option_bind].
  assert (Hroom : roomy p3 total) by (apply (roomy_length (payload s)); [by rewrite L3, L2|done]).
  eexists _, [(b, 0xffff)]. split; [done|]. rewrite Ht1. split; cbn [payload first_hole total_len localip]; try done.
  - by rewrite L3, L2, L1.
  - split; [|done]. cbn [first_or]. rewrite <-Hh2. apply (hole_frame _ _ _ _ b Hs3); lia.
  - cbn. split_and!; (lia || done || (right; lia)).
  - intros i d ->%list_elem_of_singleton Hd k Hk. rewrite Hc in Hd. injection Hd as <-. rewrite Ho0. by apply Hb3.
  - intros i d a e ->%list_elem_of_singleton Hd [= -> ->]%list_elem_of_singleton. rewrite Hc in Hd. injection Hd as <-. rewrite Ho0. left. lia.
  - intros i d Hi Hd. exists b, 0xffff. split; [by left|]. destruct (chunk_end i d Hd) as (Hle & _). pose proof (off_S 0 c Hc).
    pose proof (off_mono 1 i). rewrite not_elem_of_cons in Hi. destruct Hi as [Hi _]. lia.
  - intros i ->%list_elem_of_singleton. lia.
Qed.

(** Fragments one after the other, as long as the fragment [j] is missing. *)
Lemma defragment_run j o : ∀ ips F hs s, (j < length chunks)%nat → inv F hs s → j ∉ F → j ∉ o → Forall2 is_fragment o ips →
  ∃ s' hs' F', defragment_all IP_MAXUDP s ips = Some (s', replicate (length o) None) ∧ inv F' hs' s' ∧ (∀ i, i ∈ F' ↔ i ∈ F ∨ i ∈ o) ∧ hs' ≠ [].
Proof using Hok Hmax.
  assert (Hne : ∀ F hs s, (j < length chunks)%nat → inv F hs s → j ∉ F → hs ≠ []).
  { intros F hs s Hj Hi HjF ->. destruct (lookup_lt_is_Some_2 chunks j Hj) as [d Hd]. by destruct (i_miss _ _ _ Hi j d HjF Hd) as (? & ? & ?%elem_of_nil & _). }
  induction o as [|i o IH]; intros ips F hs s Hj Hi HjF Hjo Hf; inversion Hf as [|? ip ? ips' Hip Hips]; subst; cbn [defragment_all length replicate].
  { exists s, hs, F. split_and!; [done|done|set_solver|by eapply Hne]. }
  apply not_elem_of_cons in Hjo as [Hji Hjo]. destruct (defragment_step F hs s i ip (Z.of_nat (length ip)) Hi (Hne _ _ _ Hj Hi HjF) Hip) as (s' & hs' & E & Hi').
  rewrite E. cbn [mbind option_bind]. assert (HjF' : j ∉ i :: F) by (by apply not_elem_of_cons). rewrite decide_False by by eapply Hne.
  destruct (IH ips' (i :: F) hs' s' Hj Hi' HjF' Hjo Hips) as (s2 & hs2 & F2 & E2 & Hi2 & HF2 & Hn2). rewrite E2. cbn [mbind option_bind].
  exists s2, hs2, F2. split_and!; [done|done| |done]. intros k. rewrite HF2, !elem_of_cons. tauto.
Qed.

(** A byte of the datagram is in some fragment. *)
Lemma chunk_at x : 0 ≤ x < total → ∃ i c, chunks !! i = Some c ∧ off i ≤ x < off i + Z.of_nat (length c).
Proof using.
  intros Hx. assert (H : ∀ n, (n ≤ length chunks)%nat → x < off n → ∃ i c, chunks !! i = Some c ∧ off i ≤ x < off i + Z.of_nat (length c)).
  { induction n as [|n IH]; intros Hn Hlt; [change (off 0) with 0 in Hlt; lia|]. destruct (lookup_lt_is_Some_2 chunks n) as [c Hc]; [lia|].
    rewrite (off_S n c Hc) in Hlt. destruct (Z.lt_ge_cases x (off n)); [apply IH; lia|]. by exists n, c. }
  apply (H (length chunks)); [done|]. rewrite off_end. lia.
Qed.

(** When everything has arrived there is no hole. *)
Lemma no_hole F hs s : inv F hs s → (∀ i, (i < length chunks)%nat → i ∈ F) → hs = [].
Proof using.
  intros Hi HF. destruct hs as [|[a e] hs]; [done|]. destruct (holes_wf_elem _ _ _ a e (i_wf _ _ _ Hi) ltac:(by left)) as (H0 & H1 & H2 & _).
  destruct (chunk_at (8 * a)) as (i & c & Hc & Hx); [lia|]. assert (Hlt := lookup_lt_Some _ _ _ Hc). destruct (i_apart _ _ _ Hi i c a e (HF i Hlt) Hc ltac:(by left)); lia.
Qed.

End Datagram.

(** C15: Reassembly is independent of the order. Let a datagram be cut into at
    least two fragments, of which all but the last have a length that is a
    multiple of 8, and let the packets of the fragments arrive in any order that
    begins with the first one, some of them more than once, the fragment [j]
    being the last one to be complete. Then every call but the last returns
    [NULL], and the last one returns a packet with the data of the datagram and
    the length of the data and the header; no access leaves the buffer. *)
Theorem reassembly_correct chunks id IP_MAXUDP s o j ips :
  chunks_ok chunks →
  total chunks ≤ IP_MAXUDP → roomy (payload s) (total chunks) → total chunks ≤ Z.of_nat (length (payload s)) → length (localip s) = 20%nat →
  total_len s = 0 ∨ ip_id (localip s) ≠ Some id →
  Forall2 (is_fragment chunks id) (0%nat :: o ++ [j]) ips →
  (∀ i, (i < length chunks)%nat → i ∈ 0%nat :: o ++ [j]) → j ≠ 0%nat → j ∉ o →
  ∃ s' pkt, defragment_all IP_MAXUDP s ips = Some (s', replicate (S (length o)) None ++ [Some (pkt, total chunks + 20)]) ∧
    take (Z.to_nat (total chunks)) (drop 20 pkt) = concat chunks.
Proof.
  intros Hok Hmax Hroom Hfit Hl Hnew Hf Hall Hj0 Hjo. inversion Hf as [|? ip0 ? ips' H0 Hrest]; subst. apply Forall2_app_inv_l in Hrest as (ipo & ipj & Ho & Hj & ->).
  inversion Hj as [|? ipj' ? ? Hj' Hnil]; subst. inversion Hnil; subst. clear Hj Hnil.
  assert (Hjl : (j < length chunks)%nat) by (destruct Hj' as [(c & Hc & _) _ _]; by eapply lookup_lt_Some).
  cbn [defragment_all]. destruct (first_step chunks id Hok IP_MAXUDP Hmax s ip0 (Z.of_nat (length ip0)) Hroom Hfit Hl Hnew H0) as (s1 & hs1 & -> & Hi1). cbn [mbind option_bind].
  destruct (defragment_run chunks id Hok IP_MAXUDP Hmax j o ipo [0%nat] hs1 s1 Hjl Hi1) as (s2 & hs2 & F2 & E2 & Hi2 & HF2 & Hn2); [by rewrite list_elem_of_singleton|done|done|].
  destruct (defragment_step chunks id Hok IP_MAXUDP Hmax F2 hs2 s2 j ipj' (Z.of_nat (length ipj')) Hi2 Hn2 Hj') as (s3 & hs3 & E3 & Hi3).
  assert (HF3 : ∀ i, (i < length chunks)%nat → i ∈ j :: F2).
  { intros i Hi. specialize (Hall i Hi). rewrite elem_of_cons, HF2, list_elem_of_singleton. revert Hall. rewrite elem_of_cons, elem_of_app, list_elem_of_singleton. tauto. }
  assert (E : hs3 = []) by (by eapply no_hole). rewrite decide_True in E3 by done.
  exists s3, (localip s3 ++ payload s3). split.
  - rewrite (defragment_all_app _ ipo [ipj'] s1 s2 _ E2). cbn [defragment_all mbind option_bind]. rewrite E3. done.
  - pose proof (i_hdr _ _ _ _ _ Hi3) as H20. rewrite <-H20, drop_app_length. apply take_concat; [by eapply i_fits|]. intros i c Hc k Hk. apply (i_data _ _ _ _ _ Hi3); [|done|done].
    apply HF3. by eapply lookup_lt_Some.
Qed.

(** Three fragments of a datagram. *)
Definition sample_chunks : list (list Z) := [[1; 2; 3; 4; 5; 6; 7; 8]; [11; 12; 13; 14; 15; 16; 17; 18]; [21; 22; 23]].
Definition sample_fragment (i : nat) : list Z := packet 7 (8 * Z.of_nat i) (i <? 2)%nat (sample_chunks !!! i).

Lemma sample_chunks_ok : chunks_ok sample_chunks.
Proof.
  split; [cbn; lia|]. split; [by vm_compute|]. intros i c Hc. do 3 (destruct i as [|i]; [injection Hc as <-; split; [done|]; cbn; (done || lia)|]). done.
Qed.

Lemma sample_is_fragment i : (i < 3)%nat → is_fragment sample_chunks [0; 7] i (sample_fragment i).
Proof.
  intros Hi. do 3 (destruct i as [|i]; [split; [eexists; split_and!; [reflexivity|by vm_compute|by vm_compute]|by vm_compute|];
    eexists; split_and!; [by vm_compute|by vm_compute|by vm_compute]|]). lia.
Qed.

Lemma reassembly_correct_witness :
  ∃ s' pkt, defragment_all 64 (initial 64) [sample_fragment 0; sample_fragment 2; sample_fragment 2; sample_fragment 1] =
      Some (s', replicate 3 None ++ [Some (pkt, total sample_chunks + 20)]) ∧
    take (Z.to_nat (total sample_chunks)) (drop 20 pkt) = concat sample_chunks.
Proof.
  apply (reassembly_correct sample_chunks [0; 7] 64 (initial 64) [2; 2]%nat 1).
  - apply sample_chunks_ok.
  - by vm_compute.
  - intros c Hc Hc'. change (total sample_chunks) with 19 in Hc'. split; [done|]. change (Z.of_nat (length (payload (initial 64)))) with 64. lia.
  - by vm_compute.
  - done.
  - by left.
  - repeat constructor; by apply sample_is_fragment; lia.
  - intros i Hi. cbn in Hi. assert (i = 0 ∨ i = 1 ∨ i = 2)%nat as [-> | [-> | ->]] by lia; set_solver.
  - done.
  - set_solver.
Defined.

(** ** What the code does not handle *)

(** The index 0 of the hole at the start is also the mark of the end of the
    list: if the first fragment does not arrive first, the packet is returned
    without it, with the descriptor in the place of the data. *)
Lemma first_fragment_late :
  ∃ s' pkt, defragment_all 64 (initial 64) [sample_fragment 1; sample_fragment 2; sample_fragment 0] = Some (s', [None; Some (pkt, 39); None]) ∧
    take 19 (drop 20 pkt) = [8; 0; 2; 0; 0; 0; 0; 0; 11; 12; 13; 14; 15; 16; 17; 18; 21; 22; 23].
Proof. eexists _, _. split; vm_compute; reflexivity. Qed.

(** The state is not reset when a packet is complete: one more copy of a
    fragment is taken for a part of the old packet, whose data is read as
    descriptors, here with an index outside of the buffer. *)
Lemma duplicate_after_the_end :
  defragment_all 64 (initial 64) [sample_fragment 0; sample_fragment 1; sample_fragment 2; sample_fragment 2] = None.
Proof. by vm_compute. Qed.

(** A length below the size of the header makes the size of the copy negative. *)
Lemma negative_length :
  __NetDefragment 64 (initial 64) ([0x45; 0; 0; 0; 0; 7; 0x20; 3; 64; 17; 0; 0; 10; 0; 0; 1; 10; 0; 0; 2] ++ replicate 64 0) = None.
Proof. by vm_compute. Qed.

(** A fragment that ends where the buffer ends, with more to come: the
    descriptor of the rest of the hole is written behind the buffer. *)
Lemma descriptor_behind_the_buffer : __NetDefragment 64 (initial 64) (packet 7 0 true (replicate 64 0)) = None.
Proof. by vm_compute. Qed.

(** A length that is not a multiple of 8: the data overwrites the descriptor
    that has just been written, here with the links 0x0707 and 0x0808. *)
Lemma descriptor_from_data :
  (λ x, (first_hole x.1, hole_of (payload x.1) 1)) <$> __NetDefragment 64 (initial 64) (packet 7 0 true (replicate 8 0 ++ [6; 6; 7; 7; 8; 8])) =
    Some (1, (0x606, 0x707, 0x808)).
Proof. by vm_compute. Qed.
