(* ===== verification/NetPacket.v ===== *)
(** * Headers of packets

    Translation of the Ethernet, IP and UDP headers and of the checksum of
    [net/net.c], and of the ICMP packets of [net/ping.c]. A pointer is an
    offset into the memory of a packet; an address is the number in the
    variable of the machine, whose bytes are in the order of the network. *)

From S2P Require Import Prelude Word32 NetMem.
From stdpp Require Import base option list.
From Stdlib Require Import ZArith Lia.
Local Open Scope Z_scope.

(** ** Stores *)

Definition store_u8 (m : list Z) (p v : Z) : option (list Z) := memcpy m p [v mod 256].

(** [x = htons(v)] for a field [x]. *)
Definition store_htons (m : list Z) (p v : Z) : option (list Z) := memcpy m p [v / 256 mod 256; v mod 256].

(** [ntohs] of a variable. *)
Definition ntohs (x : Z) : Z := x mod 256 * 256 + x / 256 mod 256.

(** [NetWriteIP], [NetReadIP] and [NetCopyIP]. *)
Definition ip_bytes (ip : Z) : list Z := [ip mod 256; ip / 2 ^ 8 mod 256; ip / 2 ^ 16 mod 256; ip / 2 ^ 24 mod 256].
Definition NetWriteIP (m : list Z) (to ip : Z) : option (list Z) := memcpy m to (ip_bytes ip).
Definition NetReadIP (m : list Z) (from : Z) : option Z :=
  b ← memread m from 4; Some (b !!! 0%nat + 2 ^ 8 * b !!! 1%nat + 2 ^ 16 * b !!! 2%nat + 2 ^ 24 * b !!! 3%nat).
Definition NetCopyIP (m : list Z) (to from : Z) : option (list Z) := b ← memread m from 4; memcpy m to b.

(** ** The checksum *)

Fixpoint cksum_loop (len : nat) (m : list Z) (p xsum : Z) : option Z :=
  match len with
  | O => Some xsum
  | S len => w ← load16 m p; cksum_loop len m (p + 2) (u32 (xsum + w))
  end.

Definition cksum_fold (xsum : Z) : Z := Z.land xsum 0xffff + Z.shiftr xsum 16.

Definition NetCksum (m : list Z) (ptr len : Z) : option Z :=
  xsum ← cksum_loop (Z.to_nat len) m ptr 0;
  Some (Z.land (cksum_fold (cksum_fold xsum)) 0xffff).

Definition NetCksumOk (m : list Z) (ptr len : Z) : option bool :=
  c ← NetCksum m ptr len; Some (Z.land (c + 1) 0xfffe =? 0).

(** ** Headers *)

Definition ETHER_HDR_SIZE : Z := 14.
Definition VLAN_ETHER_HDR_SIZE : Z := 18.
Definition E802_HDR_SIZE : Z := 22.
Definition IP_HDR_SIZE : Z := 20.
Definition IP_UDP_HDR_SIZE : Z := 28.
Definition UDP_HDR_SIZE : Z := 8.
Definition ICMP_HDR_SIZE : Z := 8.
Definition VLAN_NONE : Z := 4095.
Definition VLAN_IDMASK : Z := 0x0fff.
Definition PROT_IP : Z := 0x0800.
Definition PROT_ARP : Z := 0x0806.
Definition PROT_VLAN : Z := 0x8100.
Definition IPPROTO_ICMP : Z := 1.
Definition IPPROTO_UDP : Z := 17.
Definition IP_FLAGS_DFRAG : Z := 0x4000.

(** The global variables that go into the headers. *)
Record netif := mkNetif { NetOurEther : list Z; NetOurIP : Z; NetOurVLAN : Z; NetIPID : Z }.

Definition our_vlan (n : netif) : Z := let v := ntohs (NetOurVLAN n) in if v =? 0xffff then VLAN_NONE else v.

Definition NetEthHdrSize (n : netif) : Z :=
  if Z.land (our_vlan n) VLAN_IDMASK =? VLAN_NONE then ETHER_HDR_SIZE else VLAN_ETHER_HDR_SIZE.

Definition NetSetEther (n : netif) (m : list Z) (xet : Z) (addr : list Z) (prot : Z) : option (list Z * Z) :=
  m ← memcpy m xet (take 6 addr);
  m ← memcpy m (xet + 6) (take 6 (NetOurEther n));
  if Z.land (our_vlan n) VLAN_IDMASK =? VLAN_NONE then
    m ← store_htons m (xet + 12) prot; Some (m, ETHER_HDR_SIZE)
  else
    m ← store_htons m (xet + 12) PROT_VLAN;
    m ← store_htons m (xet + 14) (Z.land (our_vlan n) VLAN_IDMASK);
    m ← store_htons m (xet + 16) prot;
    Some (m, VLAN_ETHER_HDR_SIZE).

(** The address is one that is already in memory. *)
Definition net_update_ether (n : netif) (m : list Z) (et addr prot : Z) : option (list Z * Z) :=
  a ← memread m addr 6;
  m ← memcpy m et a;
  m ← memcpy m (et + 6) (take 6 (NetOurEther n));
  protlen ← be16 m (et + 12);
  if protlen =? PROT_VLAN then
    m ← store_htons m (et + 16) prot; Some (m, VLAN_ETHER_HDR_SIZE)
  else if 1514 <? protlen then
    m ← store_htons m (et + 12) prot; Some (m, ETHER_HDR_SIZE)
  else
    m ← store_htons m (et + 20) prot; Some (m, E802_HDR_SIZE).

(** The memory and [NetIPID]. *)
Definition net_set_ip_header (n : netif) (m : list Z) (pkt dest source : Z) : option (list Z * netif) :=
  m ← store_u8 m pkt 0x45;
  m ← store_u8 m (pkt + 1) 0;
  m ← store_htons m (pkt + 2) IP_HDR_SIZE;
  m ← store_htons m (pkt + 4) (NetIPID n);
  m ← store_htons m (pkt + 6) IP_FLAGS_DFRAG;
  m ← store_u8 m (pkt + 8) 255;
  m ← store16 m (pkt + 10) 0;
  m ← NetWriteIP m (pkt + 12) source;
  m ← NetWriteIP m (pkt + 16) dest;
  Some (m, mkNetif (NetOurEther n) (NetOurIP n) (NetOurVLAN n) (u32 (NetIPID n + 1))).

(** [*field = ~NetCksum(ptr, len)] *)
Definition store_cksum (m : list Z) (field ptr len : Z) : option (list Z) :=
  c ← NetCksum m ptr len; store16 m field (Z.lnot c).

Definition net_set_udp_header (n : netif) (m : list Z) (pkt dest dport sport len : Z) : option (list Z * netif) :=
  m ← (if Z.testbit len 0 then store_u8 m (pkt + IP_UDP_HDR_SIZE + len) 0 else Some m);
  '(m, n) ← net_set_ip_header n m pkt dest (NetOurIP n);
  m ← store_htons m (pkt + 2) (IP_UDP_HDR_SIZE + len);
  m ← store_u8 m (pkt + 9) IPPROTO_UDP;
  m ← store_cksum m (pkt + 10) pkt (Z.shiftr IP_HDR_SIZE 1);
  m ← store_htons m (pkt + 20) sport;
  m ← store_htons m (pkt + 22) dport;
  m ← store_htons m (pkt + 24) (UDP_HDR_SIZE + len);
  m ← store16 m (pkt + 26) 0;
  Some (m, n).

(** ** Echo requests and replies *)

Definition ICMP_ECHO_REPLY : Z := 0.
Definition ICMP_ECHO_REQUEST : Z := 8.

(** The request and the next sequence number. *)
Definition set_icmp_header (n : netif) (PingSeqNo : Z) (m : list Z) (pkt dest : Z) : option (list Z * netif * Z) :=
  '(m, n) ← net_set_ip_header n m pkt dest (NetOurIP n);
  m ← store_htons m (pkt + 2) (IP_HDR_SIZE + ICMP_HDR_SIZE);
  m ← store_u8 m (pkt + 9) IPPROTO_ICMP;
  m ← store_cksum m (pkt + 10) pkt (Z.shiftr IP_HDR_SIZE 1);
  let icmp := pkt + IP_HDR_SIZE in
  m ← store_u8 m icmp ICMP_ECHO_REQUEST;
  m ← store_u8 m (icmp + 1) 0;
  m ← store16 m (icmp + 2) 0;
  m ← store16 m (icmp + 4) 0;
  m ← store_htons m (icmp + 6) PingSeqNo;
  m ← store_cksum m (icmp + 2) icmp (Z.shiftr ICMP_HDR_SIZE 1);
  Some (m, n, (PingSeqNo + 1) mod 2 ^ 16).

(** What [ping_receive] does: the answer to our request, a packet with its
    length, or nothing. *)
Inductive ping_result := PingSuccess | PingReply (m : list Z) (len : Z) | PingIgnore.

Definition ping_receive (n : netif) (NetPingIP : Z) (m : list Z) (et ip len : Z) : option ping_result :=
  let icmph := ip + IP_HDR_SIZE in
  t ← memread m icmph 1;
  if t !!! 0%nat =? ICMP_ECHO_REPLY then
    src ← NetReadIP m (ip + 12);
    Some (if src =? NetPingIP then PingSuccess else PingIgnore)
  else if t !!! 0%nat =? ICMP_ECHO_REQUEST then
    '(m, eth_hdr_size) ← net_update_ether n m et (et + 6) PROT_IP;
    m ← store16 m (ip + 10) 0;
    m ← store16 m (ip + 6) 0;
    m ← NetCopyIP m (ip + 16) (ip + 12);
    m ← NetWriteIP m (ip + 12) (NetOurIP n);
    m ← store_cksum m (ip + 10) ip (Z.shiftr IP_HDR_SIZE 1);
    m ← store_u8 m icmph ICMP_ECHO_REPLY;
    m ← store16 m (icmph + 2) 0;
    m ← store_cksum m (icmph + 2) icmph (Z.shiftr (len - IP_HDR_SIZE) 1);
    Some (PingReply m (eth_hdr_size + len))
  else Some PingIgnore.

(** ** The sum of the words *)

Fixpoint word_sum (n : nat) (m : list Z) (p : Z) : Z :=
  match n with O => 0 | S n => word_at m p + word_sum n m (p + 2) end.

Lemma cksum_loop_ok n m p xsum : 0 ≤ p → p + 2 * Z.of_nat n ≤ Z.of_nat (length m) →
  cksum_loop n m p xsum = Some (if decide (n = O) then xsum else u32 (xsum + word_sum n m p)).
Proof.
  revert p xsum. induction n as [|n IH]; intros p xsum Hp Hl; [done|]. cbn [cksum_loop word_sum]. rewrite load16_ok by lia. cbn [mbind option_bind].
  rewrite IH by lia. f_equal. rewrite (decide_False (P := Datatypes.S n = O)) by done. case_decide as Hn; [subst; cbn [word_sum]; f_equal; lia|]. rewrite u32_add_l. f_equal. lia.
Qed.

Definition in_bytes (m : list Z) : Prop := ∀ i, 0 ≤ i → isbyte (byte_at m i).

Lemma in_bytes_forall m : bytes m → in_bytes m.
Proof. intros Hm i _. by apply bytes_lookup_total. Qed.

Lemma word_range m p : in_bytes m → 0 ≤ p → 0 ≤ word_at m p < 2 ^ 16.
Proof. intros Hb Hp. unfold word_at. pose proof (Hb p Hp). pose proof (Hb (p + 1) ltac:(lia)). unfold isbyte in *. lia. Qed.

Lemma word_sum_range n m p : in_bytes m → 0 ≤ p → 0 ≤ word_sum n m p ≤ Z.of_nat n * 65535.
Proof.
  intros Hb. revert p. induction n as [|n IH]; intros p Hp; cbn [word_sum]; [lia|]. specialize (IH (p + 2) ltac:(lia)). pose proof (word_range m p Hb Hp). lia.
Qed.

Lemma land_ffff x : Z.land x 0xffff = x mod 2 ^ 16.
Proof. by apply (Z.land_ones x 16). Qed.

(** The two foldings. *)
Lemma cksum_fold_ok x : 0 ≤ x < 2 ^ 32 → 0 ≤ cksum_fold x ≤ 2 * 65535 ∧ (cksum_fold x ≤ 65535 + x / 2 ^ 16) ∧
  cksum_fold x = x - 65535 * (x / 2 ^ 16).
Proof.
  intros Hx. unfold cksum_fold. rewrite land_ffff, Z.shiftr_div_pow2 by lia.
  pose proof (Z.div_mod x (2 ^ 16) ltac:(lia)). pose proof (Z.mod_pos_bound x (2 ^ 16) ltac:(lia)). assert (0 ≤ x / 2 ^ 16 < 2 ^ 16) by (split; [apply Z.div_pos; lia|apply Z.div_lt_upper_bound; lia]). lia.
Qed.

Definition cksum_of (x : Z) : Z := Z.land (cksum_fold (cksum_fold x)) 0xffff.

Lemma cksum_of_ok x : 0 ≤ x < 2 ^ 32 → 0 ≤ cksum_of x ≤ 65535 ∧ (∃ k, x = cksum_of x + 65535 * k ∧ 0 ≤ k) ∧ (cksum_of x = 0 ↔ x = 0).
Proof.
  intros Hx. destruct (cksum_fold_ok x Hx) as (H1 & H2 & H3). destruct (cksum_fold_ok (cksum_fold x)) as (H4 & H5 & H6); [lia|]. unfold cksum_of.
  pose proof (Z.div_mod x (2 ^ 16) ltac:(lia)). pose proof (Z.mod_pos_bound x (2 ^ 16) ltac:(lia)). set (y := cksum_fold x) in *. set (z := cksum_fold y) in *.
  pose proof (Z.div_mod y (2 ^ 16) ltac:(lia)). pose proof (Z.mod_pos_bound y (2 ^ 16) ltac:(lia)). assert (Hy : 0 ≤ y / 2 ^ 16 < 2) by (split; [apply Z.div_pos; lia|apply Z.div_lt_upper_bound; lia]).
  assert (Hz : 0 ≤ z < 2 ^ 16) by lia. rewrite land_ffff, Z.mod_small by lia. assert (0 ≤ x / 2 ^ 16) by (apply Z.div_pos; lia). split_and!; [lia|lia|exists (x / 2 ^ 16 + y / 2 ^ 16); lia|split; lia].
Qed.

Lemma NetCksum_sum m p len : in_bytes m → 0 ≤ p → 0 ≤ len ≤ 65536 → p + 2 * len ≤ Z.of_nat (length m) →
  NetCksum m p len = Some (cksum_of (word_sum (Z.to_nat len) m p)).
Proof.
  intros Hb Hp Hlen Hl. unfold NetCksum. rewrite cksum_loop_ok by lia. cbn [mbind option_bind]. do 2 f_equal. case_decide as Hn; [by rewrite Hn|].
  rewrite Z.add_0_l, u32_small; [done|]. pose proof (word_sum_range (Z.to_nat len) m p Hb Hp). lia.
Qed.

(** A checksum is good if the sum of the words is a multiple of 65535. *)
Lemma NetCksumOk_iff m p len : in_bytes m → 0 ≤ p → 0 ≤ len ≤ 65536 → p + 2 * len ≤ Z.of_nat (length m) →
  NetCksumOk m p len = Some (word_sum (Z.to_nat len) m p mod 65535 =? 0).
Proof.
  intros Hb Hp Hlen Hl. unfold NetCksumOk. rewrite NetCksum_sum by done. cbn [mbind option_bind]. f_equal. pose proof (word_sum_range (Z.to_nat len) m p Hb Hp).
  set (x := word_sum _ _ _) in *. destruct (cksum_of_ok x) as (H1 & (k & Hk & Hk0) & H0); [lia|]. set (c := cksum_of x) in *. clearbody c.
  assert (E : x mod 65535 = c mod 65535) by (rewrite Hk, Z.mul_comm; apply Z.mod_add; lia). rewrite E.
  destruct (decide (c = 65535)) as [->|]; [done|]. rewrite (Z.mod_small c) by lia. destruct (Z.eqb_spec c 0) as [->|]; [done|]. apply Z.eqb_neq. intros Hand.
  assert (Hm : (c + 1) mod 2 = c + 1); [|pose proof (Z.mod_pos_bound (c + 1) 2); lia]. apply Z.bits_inj'. intros i Hi.
  destruct (decide (i = 0)) as [->|]; [by rewrite <-!Z.bit0_mod, Z.mod_pow2_bits_low || (change 2 with (2 ^ 1); rewrite Z.mod_pow2_bits_low)|].
  change ((c + 1) mod 2) with ((c + 1) mod 2 ^ 1). rewrite Z.mod_pow2_bits_high by lia. symmetry.
  assert (Hb' : Z.testbit (Z.land (c + 1) 65534) i = false) by (rewrite Hand; apply Z.bits_0). rewrite Z.land_spec in Hb'. apply andb_false_iff in Hb' as [|Hb']; [done|].
  destruct (Z.lt_ge_cases i 16).
  - exfalso. assert (Hall : forallb (λ i, Z.testbit 65534 (Z.of_nat i)) (seq 1 15) = true) by done. rewrite forallb_forall in Hall.
    specialize (Hall (Z.to_nat i)). rewrite Z2Nat.id in Hall by lia. rewrite Hall in Hb'; [done|]. apply list_elem_of_In, elem_of_seq. lia.
  - rewrite <-(Z.mod_small (c + 1) (2 ^ 16)) by lia. by apply Z.mod_pow2_bits_high.
Qed.

(** The sum after a store to a word. *)
Lemma word_sum_frame n m m' lo hi p : same_outside m m' lo hi → 0 ≤ p → p + 2 * Z.of_nat n ≤ lo ∨ hi ≤ p → word_sum n m' p = word_sum n m p.
Proof.
  intros Hs. revert p. induction n as [|n IH]; intros p Hp H; [done|]. cbn [word_sum]. rewrite IH by lia. f_equal. unfold word_at. rewrite !Hs by lia. done.
Qed.

Lemma word_sum_store n m m' p k : (k < n)%nat → 0 ≤ p → same_outside m m' (p + 2 * Z.of_nat k) (p + 2 * Z.of_nat k + 2) →
  word_sum n m' p = word_sum n m p - word_at m (p + 2 * Z.of_nat k) + word_at m' (p + 2 * Z.of_nat k).
Proof.
  revert p k. induction n as [|n IH]; intros p k Hk Hp Hs; [lia|]. cbn [word_sum]. destruct k as [|k].
  - rewrite Z.mul_0_r, Z.add_0_r in *. rewrite (word_sum_frame n m m' p (p + 2)) by (done || lia). lia.
  - replace (p + 2 * Z.of_nat (Datatypes.S k)) with (p + 2 + 2 * Z.of_nat k) in * by lia. rewrite (IH (p + 2) k) by (done || lia).
    replace (word_at m' p) with (word_at m p) by (unfold word_at; rewrite !Hs by lia; done). lia.
Qed.

Lemma store16_bytes m p v m' : in_bytes m → store16 m p v = Some m' → in_bytes m'.
Proof.
  intros Hb. unfold store16. intros E i Hi. assert (Hr : 0 ≤ p ∧ p + 2 ≤ Z.of_nat (length m)).
  { unfold memcpy in E. destruct (_ && _) eqn:C in E; [|done]. apply andb_true_iff in C as [C1 C2]. cmp_inv C1. cmp_inv C2. cbn in C2. lia. }
  destruct (memcpy_at m p [v mod 256; v / 256 mod 256]) as (m2 & E2 & _ & Hs & Hw); [lia|cbn; lia|]. rewrite E in E2. injection E2 as <-. cbn in Hs, Hw.
  destruct (decide (i = p)) as [->|]; [rewrite <-(Z.add_0_r p), Hw by lia; apply Z.mod_pos_bound; lia|].
  destruct (decide (i = p + 1)) as [->|]; [rewrite Hw by lia; apply Z.mod_pos_bound; lia|]. rewrite Hs by lia. by apply Hb.
Qed.

(** A checksum field that was 0 makes the checksum good. *)
Lemma store_cksum_ok m p n k : in_bytes m → 0 ≤ p → (k < n)%nat → Z.of_nat n ≤ 65535 → p + 2 * Z.of_nat n ≤ Z.of_nat (length m) → word_at m (p + 2 * Z.of_nat k) = 0 →
  ∃ m', store_cksum m (p + 2 * Z.of_nat k) p (Z.of_nat n) = Some m' ∧ length m' = length m ∧ in_bytes m' ∧
    same_outside m m' (p + 2 * Z.of_nat k) (p + 2 * Z.of_nat k + 2) ∧ NetCksumOk m' p (Z.of_nat n) = Some true.
Proof.
  intros Hb Hp Hk Hn Hl Hz. unfold store_cksum. rewrite NetCksum_sum by (done || lia). cbn [mbind option_bind]. rewrite Nat2Z.id.
  pose proof (word_sum_range n m p Hb Hp). destruct (cksum_of_ok (word_sum n m p)) as (H1 & (q & Hq & _) & _); [lia|]. set (c := cksum_of _) in *. clearbody c.
  assert (El : ∀ off, store16 m off (Z.lnot c) = store16 m off (65535 - c)).
  { intros off. unfold store16. replace (Z.lnot c) with (65535 - c + (-256) * 256) by (unfold Z.lnot; lia).
    rewrite Z.mod_add, Z.div_add by lia. by rewrite <-(Z.mod_add ((65535 - c) / 256) (-1) 256) by lia. }
  rewrite El. destruct (store16_ok m (p + 2 * Z.of_nat k) (65535 - c)) as (m' & E & Hlen & Hs & Hw); [lia..|]. exists m'. split; [done|]. split; [done|].
  assert (Hb' : in_bytes m') by by eapply store16_bytes. split; [done|]. split; [done|]. rewrite NetCksumOk_iff by (done || lia). f_equal. rewrite Nat2Z.id.
  rewrite (word_sum_store n m m' p k Hk Hp Hs), Hw, Hz, Hq. apply Z.eqb_eq. replace (c + 65535 * q - 0 + (65535 - c)) with ((q + 1) * 65535) by lia. apply Z.mod_mul. lia.
Qed.

(** ** Headers in the middle of a packet *)

Lemma memcpy_mid pre hdr post k bytes : 0 ≤ k → k + Z.of_nat (length bytes) ≤ Z.of_nat (length hdr) →
  memcpy (pre ++ hdr ++ post) (Z.of_nat (length pre) + k) bytes = Some (pre ++ splice (Z.to_nat k) bytes hdr ++ post).
Proof.
  intros Hk Hl. unfold memcpy. rewrite !length_app, (proj2 (Z.leb_le 0 _)), (proj2 (Z.leb_le _ _)) by lia. cbn [andb]. f_equal. unfold splice.
  rewrite Z2Nat.inj_add, Nat2Z.id by lia. rewrite take_app_add, <-!app_assoc. f_equal. rewrite take_app_le by lia. rewrite <-Nat.add_assoc, drop_app_add, drop_app_le by lia. done.
Qed.

Lemma memread_mid pre hdr post k n : 0 ≤ k → 0 ≤ n → k + n ≤ Z.of_nat (length hdr) →
  memread (pre ++ hdr ++ post) (Z.of_nat (length pre) + k) n = Some (take (Z.to_nat n) (drop (Z.to_nat k) hdr)).
Proof.
  intros Hk Hn Hl. unfold memread. rewrite !length_app, !(proj2 (Z.leb_le _ _)) by lia. cbn [andb]. f_equal.
  rewrite Z2Nat.inj_add, Nat2Z.id, drop_app_add, drop_app_le by lia. apply take_app_le. rewrite length_drop. lia.
Qed.

Lemma byte_at_mid pre hdr post i : 0 ≤ i < Z.of_nat (length hdr) → byte_at (pre ++ hdr ++ post) (Z.of_nat (length pre) + i) = byte_at hdr i.
Proof.
  intros Hi. unfold byte_at. rewrite Z2Nat.inj_add, Nat2Z.id by lia. rewrite lookup_total_app_r by lia. rewrite lookup_total_app_l by lia. f_equal. lia.
Qed.

(** The checksum of a part of the memory. *)
Lemma cksum_loop_mid pre hdr post n k xsum : 0 ≤ k → k + 2 * Z.of_nat n ≤ Z.of_nat (length hdr) →
  cksum_loop n (pre ++ hdr ++ post) (Z.of_nat (length pre) + k) xsum = cksum_loop n hdr k xsum.
Proof.
  revert k xsum. induction n as [|n IH]; intros k xsum Hk Hl; [done|]. cbn [cksum_loop]. unfold load16. rewrite memread_mid by lia.
  unfold memread. rewrite !(proj2 (Z.leb_le _ _)) by lia. cbn [andb mbind option_bind]. rewrite <-Z.add_assoc. apply IH; lia.
Qed.

Lemma NetCksumOk_mid pre hdr post n : 0 ≤ n → 2 * n ≤ Z.of_nat (length hdr) → NetCksumOk (pre ++ hdr ++ post) (Z.of_nat (length pre)) n = NetCksumOk hdr 0 n.
Proof.
  intros Hn Hl. unfold NetCksumOk, NetCksum. pose proof (cksum_loop_mid pre hdr post (Z.to_nat n) 0 0) as E. rewrite Z.add_0_r in E. by rewrite E by lia.
Qed.

(** A checksum field in the middle of a packet. *)
Lemma store_cksum_mid pre hdr post n k : bytes (pre ++ hdr ++ post) → (k < n)%nat → Z.of_nat n ≤ 65535 → 2 * Z.of_nat n ≤ Z.of_nat (length hdr) → word_at hdr (2 * Z.of_nat k) = 0 →
  ∃ c1 c2, store_cksum (pre ++ hdr ++ post) (Z.of_nat (length pre) + 2 * Z.of_nat k) (Z.of_nat (length pre)) (Z.of_nat n) =
      Some (pre ++ splice (2 * k) [c1; c2] hdr ++ post) ∧ isbyte c1 ∧ isbyte c2 ∧ NetCksumOk (splice (2 * k) [c1; c2] hdr) 0 (Z.of_nat n) = Some true.
Proof.
  intros Hb Hk Hn Hl Hz.
  destruct (store_cksum_ok (pre ++ hdr ++ post) (Z.of_nat (length pre)) n k) as (m' & E & _ & _ & _ & Hok); [by apply in_bytes_forall|lia|done|done|rewrite !length_app; lia| |].
  { rewrite <-Hz. unfold word_at. by rewrite <-Z.add_assoc, !byte_at_mid by lia. }
  unfold store_cksum in *. destruct (NetCksum _ _ _) as [c|]; [|done]. cbn [mbind option_bind] in *. unfold store16 in *.
  rewrite memcpy_mid in E |- * by (cbn [length]; lia). injection E as <-. replace (Z.to_nat (2 * Z.of_nat k)) with (2 * k)%nat in * by lia.
  eexists _, _. split; [done|]. split_and!; [apply Z.mod_pos_bound; lia..|]. rewrite NetCksumOk_mid in Hok by (rewrite ?length_splice by (cbn [length]; lia); lia). done.
Qed.

(** The fields of an IP header. *)
Definition htons_bytes (v : Z) : list Z := [v / 256 mod 256; v mod 256].

Definition ip_header (len id off ttl p c1 c2 : Z) (source dest : list Z) : list Z :=
  [0x45; 0] ++ htons_bytes len ++ htons_bytes id ++ htons_bytes off ++ [ttl; p; c1; c2] ++ source ++ dest.

Definition next_id (n : netif) : netif := mkNetif (NetOurEther n) (NetOurIP n) (NetOurVLAN n) (u32 (NetIPID n + 1)).

Ltac split_list l Hl := repeat (destruct l as [|? l]; [cbn [length] in Hl; lia || done|]); destruct l; [|cbn [length] in Hl; lia || done]; clear Hl.

Lemma net_set_ip_header_ok n pre hdr post dest source : length hdr = 20%nat →
  net_set_ip_header n (pre ++ hdr ++ post) (Z.of_nat (length pre)) dest source =
    Some (pre ++ ip_header IP_HDR_SIZE (NetIPID n) IP_FLAGS_DFRAG 255 (hdr !!! 9%nat) 0 0 (ip_bytes source) (ip_bytes dest) ++ post, next_id n).
Proof.
  intros Hl. unfold net_set_ip_header, store_u8, store_htons, store16, NetWriteIP. rewrite <-(Z.add_0_r (Z.of_nat (length pre))) at 1.
  do 20 (destruct hdr as [|? hdr]; [done|]). destruct hdr; [|done]. clear Hl.
  do 9 (rewrite memcpy_mid by (by vm_compute); cbn [mbind option_bind]). done.
Qed.

(** One store in the middle of a packet. *)
Ltac mid_step := rewrite memcpy_mid by (by vm_compute); cbn [mbind option_bind].

Lemma bytes_mod x y : bytes [x mod 256; y mod 256].
Proof. repeat constructor; apply Z.mod_pos_bound; lia. Qed.

Lemma ip_bytes_ok x : bytes (ip_bytes x).
Proof. repeat constructor; apply Z.mod_pos_bound; lia. Qed.

Lemma ip_header_bytes len id off ttl p c1 c2 source dest : isbyte ttl → isbyte p → isbyte c1 → isbyte c2 → bytes source → bytes dest →
  bytes (ip_header len id off ttl p c1 c2 source dest).
Proof.
  intros. unfold ip_header, htons_bytes. repeat apply Forall_app_2; try done; try apply bytes_mod; repeat constructor; done || (unfold isbyte in *; lia).
Qed.

(** The length, the protocol and the checksum after [net_set_ip_header]. *)
Lemma finish_ip_header pre id off ttl p source dest post len proto :
  bytes pre → bytes post → isbyte ttl → isbyte p → 0 ≤ proto < 256 → length source = 4%nat → length dest = 4%nat → bytes source → bytes dest →
  ∃ c1 c2, (m ← store_htons (pre ++ ip_header IP_HDR_SIZE id off ttl p 0 0 source dest ++ post) (Z.of_nat (length pre) + 2) len;
            m ← store_u8 m (Z.of_nat (length pre) + 9) proto;
            store_cksum m (Z.of_nat (length pre) + 10) (Z.of_nat (length pre)) (Z.shiftr IP_HDR_SIZE 1)) =
    Some (pre ++ ip_header len id off ttl proto c1 c2 source dest ++ post) ∧ isbyte c1 ∧ isbyte c2 ∧
    NetCksumOk (ip_header len id off ttl proto c1 c2 source dest) 0 10 = Some true.
Proof.
  intros Hpre Hpost Httl Hp Hproto Hs Hd Hsb Hdb. unfold store_htons, store_u8.
  do 4 (destruct source as [|? source]; [done|]). destruct source; [|done]. do 4 (destruct dest as [|? dest]; [done|]). destruct dest; [|done]. clear Hs Hd.
  mid_step. mid_step. rewrite (Z.mod_small proto) by lia.
  match goal with |- context [store_cksum (pre ++ ?h ++ post) _ _ _] => change h with (ip_header len id off ttl proto 0 0 [z; z0; z1; z2] [z3; z4; z5; z6]) end.
  set (hdr := ip_header len id off ttl proto 0 0 _ _).
  destruct (store_cksum_mid pre hdr post 10 5) as (c1 & c2 & E & H1 & H2 & Hok); [|lia|lia|by vm_compute|by vm_compute|].
  - apply Forall_app_2; [done|]. apply Forall_app_2; [|done]. apply ip_header_bytes; unfold isbyte in *; (done || lia).
  - exists c1, c2. change (Z.shiftr IP_HDR_SIZE 1) with (Z.of_nat 10). change 10 with (2 * Z.of_nat 5). rewrite E. done.
Qed.

Lemma bytes_parts (a b c : list Z) : bytes (a ++ b ++ c) → bytes a ∧ bytes b ∧ bytes c.
Proof. intros [Ha [Hb Hc]%Forall_app]%Forall_app. done. Qed.

(** Three steps before the rest of a computation. *)
Lemma bind_chain3 {A B} (x : option A) (f g : A → option A) (k : A → option B) y (z : option B) :
  (m ← x; m ← f m; g m) = Some y → k y = z → (m ← x; m ← f m; m ← g m; k m) = z.
Proof. destruct x as [x|]; [|done]. cbn. destruct (f x) as [x'|]; [|done]. cbn. by intros -> . Qed.

(** The byte after data of an odd length. *)
Lemma pad_byte pre hdr post len : length hdr = 28%nat → 0 ≤ len < Z.of_nat (length post) →
  (if Z.odd len then store_u8 (pre ++ hdr ++ post) (Z.of_nat (length pre) + IP_UDP_HDR_SIZE + len) 0 else Some (pre ++ hdr ++ post)) =
    Some (pre ++ hdr ++ (if Z.odd len then splice (Z.to_nat len) [0] post else post)).
Proof.
  intros Hl Hlen. destruct (Z.odd len); [|done]. unfold store_u8. rewrite app_assoc.
  replace (Z.of_nat (length pre) + IP_UDP_HDR_SIZE) with (Z.of_nat (length (pre ++ hdr))) by (rewrite length_app, Hl; unfold IP_UDP_HDR_SIZE; lia).
  pose proof (memcpy_mid (pre ++ hdr) post [] len [0 mod 256]) as Em. rewrite !app_nil_r in Em. rewrite Em by (cbn [length]; lia). by rewrite <-app_assoc.
Qed.

(** The headers of an outgoing UDP packet. Whatever the memory held, the
    28 bytes at [pkt] become an IP header with the length, the identification,
    the protocol and the addresses and a checksum that is good, and a UDP header
    with the ports, the length and no checksum; if the length is odd the byte
    after the data becomes 0, and nothing else changes. *)
Theorem net_set_udp_header_correct n pre hdr post dest dport sport len :
  bytes (pre ++ hdr ++ post) → length hdr = 28%nat → 0 ≤ len < Z.of_nat (length post) →
  ∃ c1 c2, net_set_udp_header n (pre ++ hdr ++ post) (Z.of_nat (length pre)) dest dport sport len =
      Some (pre ++ (ip_header (IP_UDP_HDR_SIZE + len) (NetIPID n) IP_FLAGS_DFRAG 255 IPPROTO_UDP c1 c2 (ip_bytes (NetOurIP n)) (ip_bytes dest) ++
                    htons_bytes sport ++ htons_bytes dport ++ htons_bytes (UDP_HDR_SIZE + len) ++ [0; 0]) ++
            (if Z.odd len then splice (Z.to_nat len) [0] post else post), next_id n) ∧
    NetCksumOk (ip_header (IP_UDP_HDR_SIZE + len) (NetIPID n) IP_FLAGS_DFRAG 255 IPPROTO_UDP c1 c2 (ip_bytes (NetOurIP n)) (ip_bytes dest)) 0 10 = Some true.
Proof.
  intros (Hpre & Hhdr & Hpost)%bytes_parts Hl Hlen. unfold net_set_udp_header. rewrite Z.bit0_odd, (pad_byte pre hdr post len Hl Hlen). cbn [mbind option_bind].
  set (post' := if Z.odd len then splice (Z.to_nat len) [0] post else post).
  assert (Hp : bytes post') by (unfold post'; destruct (Z.odd len); [apply bytes_splice; [apply Forall_singleton; unfold isbyte; lia|done]|done]). clearbody post'. clear Hlen Hpost.
  do 28 (destruct hdr as [|? hdr]; [done|]). destruct hdr; [|done]. clear Hl.
  match type of Hhdr with bytes [?a0; ?a1; ?a2; ?a3; ?a4; ?a5; ?a6; ?a7; ?a8; ?a9; ?a10; ?a11; ?a12; ?a13; ?a14; ?a15; ?a16; ?a17; ?a18; ?a19; ?u0; ?u1; ?u2; ?u3; ?u4; ?u5; ?u6; ?u7] =>
    assert (H9 : isbyte a9 ∧ bytes [u0; u1; u2; u3; u4; u5; u6; u7]) by (split; [apply (Forall_lookup_1 _ _ 9 a9 Hhdr eq_refl)|apply (Forall_drop _ 20 _ Hhdr)]);
    change [a0; a1; a2; a3; a4; a5; a6; a7; a8; a9; a10; a11; a12; a13; a14; a15; a16; a17; a18; a19; u0; u1; u2; u3; u4; u5; u6; u7] with ([a0; a1; a2; a3; a4; a5; a6; a7; a8; a9; a10; a11; a12; a13; a14; a15; a16; a17; a18; a19] ++ [u0; u1; u2; u3; u4; u5; u6; u7]);
    set (ip := [a0; a1; a2; a3; a4; a5; a6; a7; a8; a9; a10; a11; a12; a13; a14; a15; a16; a17; a18; a19]); set (udp := [u0; u1; u2; u3; u4; u5; u6; u7]) in *
  end.
  destruct H9 as [H9 Hudp]. rewrite <-(app_assoc ip udp post'). rewrite net_set_ip_header_ok by done. cbn [mbind option_bind].
  destruct (finish_ip_header pre (NetIPID n) IP_FLAGS_DFRAG 255 (ip !!! 9%nat) (ip_bytes (NetOurIP n)) (ip_bytes dest) (udp ++ post') (IP_UDP_HDR_SIZE + len) IPPROTO_UDP)
    as (c1 & c2 & E & _ & _ & Hok); [done|by apply Forall_app_2|unfold isbyte; lia|done|done|done|done|apply ip_bytes_ok|apply ip_bytes_ok|].
  exists c1, c2. split; [|done]. eapply bind_chain3; [exact E|]. unfold store_htons, store16.
  set (ipd := ip_header _ _ _ _ _ c1 c2 _ _). assert (Hipl : length ipd = 20%nat) by done. clearbody ipd.
  rewrite app_assoc. replace (Z.of_nat (length pre) + 20) with (Z.of_nat (length (pre ++ ipd)) + 0) by (rewrite length_app, Hipl; lia).
  replace (Z.of_nat (length pre) + 22) with (Z.of_nat (length (pre ++ ipd)) + 2) by (rewrite length_app, Hipl; lia).
  replace (Z.of_nat (length pre) + 24) with (Z.of_nat (length (pre ++ ipd)) + 4) by (rewrite length_app, Hipl; lia).
  replace (Z.of_nat (length pre) + 26) with (Z.of_nat (length (pre ++ ipd)) + 6) by (rewrite length_app, Hipl; lia).
  do 4 mid_step. rewrite <-!app_assoc. done.
Qed.

Definition sample_netif : netif := mkNetif [2; 0; 0; 0; 0; 1] 0x0100000a 0xffff 7.

Lemma net_set_udp_header_correct_witness :
  ∃ c1 c2, net_set_udp_header sample_netif (replicate 14 1 ++ replicate 28 2 ++ replicate 8 3) (Z.of_nat (length (replicate 14 1))) 0x0200000a 69 1024 5 =
      Some (replicate 14 1 ++ (ip_header (IP_UDP_HDR_SIZE + 5) (NetIPID sample_netif) IP_FLAGS_DFRAG 255 IPPROTO_UDP c1 c2 (ip_bytes (NetOurIP sample_netif)) (ip_bytes 0x0200000a) ++
              htons_bytes 1024 ++ htons_bytes 69 ++ htons_bytes (UDP_HDR_SIZE + 5) ++ [0; 0]) ++
            (if Z.odd 5 then splice (Z.to_nat 5) [0] (replicate 8 3) else replicate 8 3), next_id sample_netif) ∧
    NetCksumOk (ip_header (IP_UDP_HDR_SIZE + 5) (NetIPID sample_netif) IP_FLAGS_DFRAG 255 IPPROTO_UDP c1 c2 (ip_bytes (NetOurIP sample_netif)) (ip_bytes 0x0200000a)) 0 10 = Some true.
Proof.
  apply (net_set_udp_header_correct sample_netif (replicate 14 1) (replicate 28 2) (replicate 8 3) 0x0200000a 69 1024 5).
  - apply Forall_app_2; [|apply Forall_app_2]; apply Forall_replicate; unfold isbyte; lia.
  - done.
  - by vm_compute.
Defined.

(** ** Echo replies *)

(** A frame of an echo request of the data [data], with any values in the
    fields that the reply does not keep. *)
Record echo_request := mkEcho {
  er_dest : list Z; er_src : list Z; er_head : list Z; er_off : list Z; er_ttl : list Z; er_sum : list Z;
  er_ip_src : list Z; er_ip_dst : list Z; er_code : Z; er_icmp_sum : list Z; er_data : list Z; er_rest : list Z;
}.

Definition request_frame (r : echo_request) : list Z :=
  er_dest r ++ er_src r ++ [8; 0] ++ er_head r ++ er_off r ++ er_ttl r ++ er_sum r ++ er_ip_src r ++ er_ip_dst r ++
  [8; er_code r] ++ er_icmp_sum r ++ er_data r ++ er_rest r.

Definition request_ok (r : echo_request) : Prop :=
  bytes (request_frame r) ∧ length (er_dest r) = 6%nat ∧ length (er_src r) = 6%nat ∧ length (er_head r) = 6%nat ∧ length (er_off r) = 2%nat ∧ length (er_ttl r) = 2%nat ∧
  length (er_sum r) = 2%nat ∧ length (er_ip_src r) = 4%nat ∧ length (er_ip_dst r) = 4%nat ∧ length (er_icmp_sum r) = 2%nat ∧ Z.of_nat (length (er_data r)) ≤ 65000.

Definition reply_ip (n : netif) (r : echo_request) (c1 c2 : Z) : list Z := er_head r ++ [0; 0] ++ er_ttl r ++ [c1; c2] ++ ip_bytes (NetOurIP n) ++ er_ip_src r.
Definition reply_icmp (r : echo_request) (c1 c2 : Z) : list Z := [0; er_code r; c1; c2] ++ er_data r.

Lemma memcpy_front hdr post k bytes : 0 ≤ k → k + Z.of_nat (length bytes) ≤ Z.of_nat (length hdr) →
  memcpy (hdr ++ post) k bytes = Some (splice (Z.to_nat k) bytes hdr ++ post).
Proof. apply (memcpy_mid []). Qed.

Lemma memread_front hdr post k n : 0 ≤ k → 0 ≤ n → k + n ≤ Z.of_nat (length hdr) → memread (hdr ++ post) k n = Some (take (Z.to_nat n) (drop (Z.to_nat k) hdr)).
Proof. apply (memread_mid []). Qed.

Ltac front_step := first [rewrite memcpy_front by (by vm_compute) | rewrite memread_front by (by vm_compute)]; cbn [mbind option_bind].
Ltac explicit l H := repeat (destruct l as [|? l]; [discriminate H|]; cbn [length] in H; apply Nat.succ_inj in H); destruct l; [clear H|discriminate H].

Lemma bytes_check l : forallb (λ x, (0 <=? x) && (x <? 256)) l = true → bytes l.
Proof.
  induction l as [|x l IH]; cbn [forallb]; [constructor|]. rewrite !andb_true_iff. intros [[H1 H2] H3]. cmp_inv H1. cmp_inv H2. apply Forall_cons_2; [done|by apply IH].
Qed.

Lemma bytes2 a b : isbyte a → isbyte b → bytes [a; b].
Proof. intros Ha Hb. by apply Forall_cons_2, Forall_singleton. Qed.

Lemma bytes_slice i k l : bytes l → bytes (take k (drop i l)).
Proof. intros H. by apply Forall_take, Forall_drop. Qed.

(** C17: An echo request with data of an even length is answered with a frame to
    the sender that has the addresses exchanged, the same data, and good
    checksums of the IP header and of the ICMP message. *)
Theorem ping_receive_reply n NetPingIP r len :
  request_ok r → bytes (NetOurEther n) → length (NetOurEther n) = 6%nat → Z.even (Z.of_nat (length (er_data r))) = true → len = 24 + Z.of_nat (length (er_data r)) →
  ∃ c1 c2 c3 c4, ping_receive n NetPingIP (request_frame r) 0 14 len =
      Some (PingReply (er_src r ++ NetOurEther n ++ [8; 0] ++ reply_ip n r c1 c2 ++ reply_icmp r c3 c4 ++ er_rest r) (14 + len)) ∧
    NetCksumOk (reply_ip n r c1 c2) 0 10 = Some true ∧ NetCksumOk (reply_icmp r c3 c4) 0 ((len - 20) / 2) = Some true.
Proof.
  destruct r as [dst src head off ttl sum isrc idst code isum data rest]. unfold request_ok, request_frame, reply_ip, reply_icmp. cbn [er_dest er_src er_head er_off er_ttl er_sum er_ip_src er_ip_dst er_code er_icmp_sum er_data er_rest].
  intros (Hb & H1 & H2 & H3 & H4 & H5 & H6 & H7 & H8 & H9 & Hd) Hmacb Hmac Heven ->. destruct n as [mac our vlan nid]. cbn [NetOurEther NetOurIP] in *.
  explicit dst H1. explicit src H2. explicit head H3. explicit off H4. explicit ttl H5. explicit sum H6. explicit isrc H7. explicit idst H8. explicit isum H9. explicit mac Hmac.
  unfold ping_receive. cbn [app] in Hb |- *.
  match goal with |- context [memread ?m (14 + IP_HDR_SIZE) 1] => match m with
    | ?a0 :: ?a1 :: ?a2 :: ?a3 :: ?a4 :: ?a5 :: ?a6 :: ?a7 :: ?a8 :: ?a9 :: ?a10 :: ?a11 :: ?a12 :: ?a13 :: ?a14 :: ?a15 :: ?a16 :: ?a17 :: ?a18 :: ?a19 :: ?a20 :: ?a21 :: ?a22 :: ?a23 :: ?a24 :: ?a25 :: ?a26 :: ?a27 :: ?a28 :: ?a29 :: ?a30 :: ?a31 :: ?a32 :: ?a33 :: ?a34 :: ?a35 :: ?a36 :: ?a37 :: ?t =>
      change m with ([a0; a1; a2; a3; a4; a5; a6; a7; a8; a9; a10; a11; a12; a13; a14; a15; a16; a17; a18; a19; a20; a21; a22; a23; a24; a25; a26; a27; a28; a29; a30; a31; a32; a33; a34; a35; a36; a37] ++ t) in *
  end end.
  apply Forall_app in Hb as [Hb1 [Hdata Hrest]%Forall_app].
  front_step. match goal with |- context [?b =? ICMP_ECHO_REPLY] => change b with 8 end. change (8 =? ICMP_ECHO_REPLY) with false. change (8 =? ICMP_ECHO_REQUEST) with true. cbv iota.
  unfold net_update_ether, be16. cbn [NetOurEther NetOurIP]. front_step. front_step. front_step. front_step.
  match goal with |- context [?b =? PROT_VLAN] => change b with 2048 end. change (2048 =? PROT_VLAN) with false. change (1514 <? 2048) with true. cbv iota.
  unfold store_htons, store16, NetCopyIP, NetWriteIP. do 6 front_step.
  match goal with |- context [store_cksum (?h ++ _) (14 + 10) _ _] => change h with ([z5; z6; z7; z8; z9; z10; z33; z34; z35; z36; z37; z38; 8; 0] ++ ([z11; z12; z13; z14; z15; z16; 0; 0; z19; z20; 0; 0] ++ ip_bytes our ++ [z23; z24; z25; z26]) ++ [8; code; z31; z32]) end.
  set (eth := [z5; z6; z7; z8; z9; z10; z33; z34; z35; z36; z37; z38; 8; 0]). set (ip := [z11; z12; z13; z14; z15; z16; 0; 0; z19; z20; 0; 0] ++ ip_bytes our ++ [z23; z24; z25; z26]).
  assert (H0 : isbyte 0) by (unfold isbyte; lia). assert (H8 : isbyte 8) by (unfold isbyte; lia). assert (Hcode : isbyte code) by apply (Forall_lookup_1 _ _ 35 code Hb1 eq_refl).
  assert (Heth : bytes eth) by (apply (Forall_app_2 _ [z5; z6; z7; z8; z9; z10]); [apply (bytes_slice 6 6 _ Hb1)|apply (Forall_app_2 _ [z33; z34; z35; z36; z37; z38]); [done|by apply bytes2]]).
  assert (Hip : bytes ip).
  { apply (Forall_app_2 _ [z11; z12; z13; z14; z15; z16]); [apply (bytes_slice 14 6 _ Hb1)|]. apply (Forall_app_2 _ [0; 0]); [by apply bytes2|].
    apply (Forall_app_2 _ [z19; z20]); [apply (bytes_slice 22 2 _ Hb1)|]. apply (Forall_app_2 _ [0; 0]); [by apply bytes2|]. apply Forall_app_2; [apply ip_bytes_ok|apply (bytes_slice 26 4 _ Hb1)]. }
  assert (Hic : bytes [8; code; z31; z32]) by apply (bytes_slice 34 4 _ Hb1).
  destruct (store_cksum_mid eth ip ([8; code; z31; z32] ++ data ++ rest) 10 5) as (c1 & c2 & E & Hc1 & Hc2 & Hok1); [|lia|lia|by vm_compute|by vm_compute|].
  { apply Forall_app_2; [exact Heth|]. apply Forall_app_2; [exact Hip|]. apply Forall_app_2; [exact Hic|]. by apply Forall_app_2. }
  replace ((eth ++ ip ++ [8; code; z31; z32]) ++ data ++ rest) with (eth ++ ip ++ [8; code; z31; z32] ++ data ++ rest) by by rewrite <-!app_assoc.
  change (14 + 10) with (Z.of_nat (length eth) + 2 * Z.of_nat 5). change (store_cksum ?m ?a 14 ?b) with (store_cksum m a (Z.of_nat (length eth)) (Z.of_nat 10)).
  rewrite E. cbn [mbind option_bind].
  set (ip' := splice (2 * 5) [c1; c2] ip) in *. assert (Hip' : bytes ip') by (apply bytes_splice; [by apply bytes2|done]).
  replace (eth ++ ip' ++ [8; code; z31; z32] ++ data ++ rest) with ((eth ++ ip') ++ ([8; code; z31; z32] ++ data) ++ rest) by by rewrite <-!app_assoc.
  remember (eth ++ ip') as pre eqn:Epre. assert (Hpre : length pre = 34%nat) by (by rewrite Epre). assert (Hpb : bytes pre) by (rewrite Epre; by apply Forall_app_2).
  unfold store_u8. change (14 + IP_HDR_SIZE + 2) with (Z.of_nat 34 + 2). change (14 + IP_HDR_SIZE) with (Z.of_nat 34 + 0). rewrite <-Hpre.
  rewrite memcpy_mid by (cbn [length app]; lia). cbn [mbind option_bind]. rewrite memcpy_mid by (try (rewrite length_splice by (cbn [length app]; lia)); cbn [length app]; lia). cbn [mbind option_bind].
  set (icmp := splice _ _ (splice _ _ _)).
  assert (Ei : icmp = [0; code; 0; 0] ++ data) by done. rewrite Ei. clear icmp Ei.
  apply Z.even_spec in Heven as [q Hq]. replace (Z.shiftr (24 + Z.of_nat (length data) - IP_HDR_SIZE) 1) with (Z.of_nat (Z.to_nat (q + 2)))
    by (rewrite Z.shiftr_div_pow2 by lia; rewrite Hq; unfold IP_HDR_SIZE; replace (24 + 2 * q - 20) with ((q + 2) * 2 ^ 1) by lia; rewrite Z.div_mul by lia; lia).
  destruct (store_cksum_mid pre ([0; code; 0; 0] ++ data) rest (Z.to_nat (q + 2)) 1) as (c3 & c4 & E2 & _ & _ & Hok2); [|lia|lia|cbn [length app]; lia|done|].
  { apply Forall_app_2; [done|]. apply Forall_app_2; [|done]. apply (Forall_app_2 _ [0; code; 0; 0]); [|done]. apply (Forall_app_2 _ [0; code]); by apply bytes2. }
  rewrite Z.add_0_r. change 2 with (2 * Z.of_nat 1) at 1. 

  rewrite E2. cbn [mbind option_bind]. exists c1, c2, c3, c4. split; [by rewrite Epre|]. split; [exact Hok1|].
  replace ((24 + Z.of_nat (length data) - 20) / 2) with (Z.of_nat (Z.to_nat (q + 2))); [exact Hok2|].
  rewrite Hq. replace (24 + 2 * q - 20) with ((q + 2) * 2) by lia. rewrite Z.div_mul by lia. lia.
Qed.

(** A request of our host 10.0.0.1 by 10.0.0.2. *)
Definition sample_request (data : list Z) : echo_request :=
  mkEcho [2; 0; 0; 0; 0; 1] [2; 0; 0; 0; 0; 2] [0x45; 0; 0; 34; 0; 9] [0x40; 0] [64; 1] [0; 0] [10; 0; 0; 2] [10; 0; 0; 1] 0 [0; 0] data [].

Lemma ping_receive_reply_witness :
  ∃ c1 c2 c3 c4, ping_receive sample_netif 0 (request_frame (sample_request [0; 1; 0; 2; 97; 98])) 0 14 30 =
      Some (PingReply (er_src (sample_request [0; 1; 0; 2; 97; 98]) ++ NetOurEther sample_netif ++ [8; 0] ++ reply_ip sample_netif (sample_request [0; 1; 0; 2; 97; 98]) c1 c2 ++
        reply_icmp (sample_request [0; 1; 0; 2; 97; 98]) c3 c4 ++ er_rest (sample_request [0; 1; 0; 2; 97; 98])) (14 + 30)) ∧
    NetCksumOk (reply_ip sample_netif (sample_request [0; 1; 0; 2; 97; 98]) c1 c2) 0 10 = Some true ∧
    NetCksumOk (reply_icmp (sample_request [0; 1; 0; 2; 97; 98]) c3 c4) 0 ((30 - 20) / 2) = Some true.
Proof.
  apply (ping_receive_reply sample_netif 0 (sample_request [0; 1; 0; 2; 97; 98])).
  - split; [|by split_and!]. by apply bytes_check.
  - by apply bytes_check.
  - done.
  - done.
  - done.
Defined.

(** With an odd number of bytes the last one is left out of the checksum of the
    reply, which the receiver, who adds a byte of 0, finds bad. *)
Lemma odd_reply_checksum :
  match ping_receive sample_netif 0 (request_frame (sample_request [0; 1; 0; 2; 97])) 0 14 29 with
  | Some (PingReply m 43) => NetCksumOk (drop 34 m ++ [0]) 0 5
  | _ => None
  end = Some false.
Proof. by vm_compute. Qed.
