(* ===== verification/Rand.v ===== *)
(** * The random number generator

    Translation of [lib/rand.c] and of [seed_mac] of [net/net_rand.h]. The
    generator is linear over the bits of the seed; among any five numbers in a
    row one has a 0 among the bits 9 to 15, which bounds the search for an
    address in [LinkLocal]. *)

From S2P Require Import Prelude Word32.
From stdpp Require Import base option list.
From Stdlib Require Import ZArith Lia Btauto Ring.
Local Open Scope Z_scope.

(** The number, which is also the new seed. *)
Definition rand_r (seedp : Z) : Z :=
  let s := Z.lxor seedp (u32 (Z.shiftl seedp 13)) in
  let s := Z.lxor s (Z.shiftr s 17) in
  Z.lxor s (u32 (Z.shiftl s 5)).

(** [rand] and [srand] on the seed [y] of the file. *)
Definition initial_y : Z := 1.
Definition rand (y : Z) : Z := rand_r y.
Definition srand (y seed : Z) : Z := seed.

(** The address in the environment; the shift of a byte into the sign bit is
    converted to [unsigned]. *)
Definition seed_mac (enetaddr : list Z) : Z :=
  let seed := enetaddr !!! 5%nat in
  let seed := Z.lxor seed (Z.shiftl (enetaddr !!! 4%nat) 8) in
  let seed := Z.lxor seed (Z.shiftl (enetaddr !!! 3%nat) 16) in
  let seed := Z.lxor seed (u32 (Z.shiftl (enetaddr !!! 2%nat) 24)) in
  let seed := Z.lxor seed (enetaddr !!! 1%nat) in
  Z.lxor seed (Z.shiftl (enetaddr !!! 0%nat) 8).

(** ** Linearity *)

Lemma u32_lxor a b : u32 (Z.lxor a b) = Z.lxor (u32 a) (u32 b).
Proof.
  apply Z.bits_inj'. intros n Hn. rewrite Z.lxor_spec. unfold u32. destruct (Z.lt_ge_cases n 32).
  - rewrite !Z.mod_pow2_bits_low, Z.lxor_spec by lia. done.
  - by rewrite !Z.mod_pow2_bits_high by lia.
Qed.

(** Additive maps of words. *)
Definition linear (f : Z → Z) : Prop := ∀ a b, f (Z.lxor a b) = Z.lxor (f a) (f b).

Lemma linear_xor f g : linear f → linear g → linear (λ x, Z.lxor (f x) (g x)).
Proof.
  intros Hf Hg a b. rewrite Hf, Hg. apply Z.bits_inj'. intros n _. rewrite !Z.lxor_spec. btauto.
Qed.

Lemma linear_id : linear (λ x, x).
Proof. done. Qed.

Lemma rand_r_linear : linear rand_r.
Proof.
  assert (H1 : linear (λ x, Z.lxor x (u32 (Z.shiftl x 13)))).
  { apply (linear_xor (λ x, x) (λ x, u32 (Z.shiftl x 13)) linear_id). intros a b. by rewrite Z.shiftl_lxor, u32_lxor. }
  assert (H2 : linear (λ x, Z.lxor x (Z.shiftr x 17))) by (apply (linear_xor (λ x, x) (λ x, Z.shiftr x 17) linear_id); intros a b; apply Z.shiftr_lxor).
  assert (H3 : linear (λ x, Z.lxor x (u32 (Z.shiftl x 5)))).
  { apply (linear_xor (λ x, x) (λ x, u32 (Z.shiftl x 5)) linear_id). intros a b. by rewrite Z.shiftl_lxor, u32_lxor. }
  intros a b. unfold rand_r. cbv zeta. by rewrite (H1 a b), (H2 _ _), (H3 _ _).
Qed.

Definition word (x : Z) : Prop := 0 ≤ x < 2 ^ 32.

Lemma word_lxor a b : word a → word b → word (Z.lxor a b).
Proof.
  unfold word. intros Ha Hb. assert (E : Z.lxor a b = u32 (Z.lxor a b)) by by rewrite u32_lxor, !u32_small by done. rewrite E. apply u32_range.
Qed.

Lemma word_u32 x : word (u32 x).
Proof. apply u32_range. Qed.

Lemma word_shiftr x k : 0 ≤ k → word x → word (Z.shiftr x k).
Proof.
  unfold word. intros Hk Hx. rewrite Z.shiftr_div_pow2 by done. assert (0 < 2 ^ k) by (apply Z.pow_pos_nonneg; lia).
  split; [apply Z.div_pos; lia|]. apply Z.div_lt_upper_bound; [lia|]. nia.
Qed.

Lemma rand_r_word x : word x → word (rand_r x).
Proof. intros Hx. unfold rand_r. cbv zeta. repeat (apply word_lxor || apply word_u32 || apply word_shiftr || done). Qed.

(** A seed of 0 never leaves 0. *)
Lemma rand_r_0 : rand_r 0 = 0.
Proof. done. Qed.

(** ** Five numbers in a row *)

(** The sum of the bits of [x] in [mask] among the bits 9 to 15. *)
Definition parity (mask x : Z) : bool := foldl (λ p i, xorb p (Z.testbit mask i && Z.testbit x i)) false [9; 10; 11; 12; 13; 14; 15].

Lemma parity_xor mask a b : parity mask (Z.lxor a b) = xorb (parity mask a) (parity mask b).
Proof. unfold parity. cbn [foldl]. rewrite !Z.lxor_spec. btauto. Qed.

(** The [k]th number after a seed. *)
Definition nth_rand (k : nat) (x : Z) : Z := Nat.iter k rand_r x.

Lemma nth_rand_xor k a b : nth_rand k (Z.lxor a b) = Z.lxor (nth_rand k a) (nth_rand k b).
Proof. unfold nth_rand. induction k as [|k IH]; [done|]. rewrite !Nat.iter_succ, IH. apply rand_r_linear. Qed.

(** A combination of bits of five numbers that is 0 for every seed. *)
Definition combine (x1 x2 x3 x4 x5 : Z) : bool :=
  xorb (xorb (xorb (xorb (parity 0xca00 x1) (parity 0x8c00 x2)) (parity 0x7600 x3)) (parity 0xcc00 x4)) (parity 0x9400 x5).

Lemma combine_xor a1 a2 a3 a4 a5 b1 b2 b3 b4 b5 :
  combine (Z.lxor a1 b1) (Z.lxor a2 b2) (Z.lxor a3 b3) (Z.lxor a4 b4) (Z.lxor a5 b5) = xorb (combine a1 a2 a3 a4 a5) (combine b1 b2 b3 b4 b5).
Proof.
  unfold combine. rewrite !parity_xor. generalize (parity 0xca00 a1), (parity 0x8c00 a2), (parity 0x7600 a3), (parity 0xcc00 a4), (parity 0x9400 a5).
  generalize (parity 0xca00 b1), (parity 0x8c00 b2), (parity 0x7600 b3), (parity 0xcc00 b4), (parity 0x9400 b5). intros. ring.
Qed.

Definition relation (x : Z) : bool := combine (nth_rand 1 x) (nth_rand 2 x) (nth_rand 3 x) (nth_rand 4 x) (nth_rand 5 x).

Lemma relation_xor a b : relation (Z.lxor a b) = xorb (relation a) (relation b).
Proof. unfold relation. rewrite (nth_rand_xor 1), (nth_rand_xor 2), (nth_rand_xor 3), (nth_rand_xor 4), (nth_rand_xor 5). apply combine_xor. Qed.

(** The powers of two are a basis: an additive test that fails on each of them
    fails on every word. *)
Lemma word_basis (r : Z → bool) :
  (∀ a b, r (Z.lxor a b) = xorb (r a) (r b)) → r 0 = false →
  forallb (λ k, negb (r (2 ^ Z.of_nat k))) (seq 0 32) = true → ∀ x, word x → r x = false.
Proof.
  intros Hadd H0 Hb x Hx. rewrite forallb_forall in Hb.
  assert (H : ∀ k, (k ≤ 32)%nat → ∀ x, 0 ≤ x < 2 ^ Z.of_nat k → r x = false); [|by apply (H 32%nat)].
  clear x Hx. induction k as [|k IH]; intros Hk x Hx; [by replace x with 0 by (cbn in Hx; lia)|].
  rewrite Nat2Z.inj_succ, Z.pow_succ_r in Hx by lia. destruct (Z.lt_ge_cases x (2 ^ Z.of_nat k)) as [|Hge]; [apply IH; lia|].
  assert (E : Z.lxor (1 * 2 ^ Z.of_nat k) (x - 2 ^ Z.of_nat k) = x) by (rewrite lxor_add_small by lia; lia).
  rewrite <-E, Hadd, Z.mul_1_l, (IH ltac:(lia) (x - 2 ^ Z.of_nat k)) by lia.
  specialize (Hb k). rewrite <-list_elem_of_In in Hb. specialize (Hb ltac:(apply elem_of_seq; lia)). rewrite xorb_false_r. by apply negb_true_iff.
Qed.

Lemma relation_zero x : word x → relation x = false.
Proof. apply (word_basis relation relation_xor); by vm_compute. Qed.

(** The bits 9 to 15. *)
Definition high_bits (x : Z) : bool := forallb (λ i, Z.testbit x i) [9; 10; 11; 12; 13; 14; 15].

Lemma parity_high mask x : high_bits x = true → parity mask x = parity mask 0xfe00.
Proof.
  unfold high_bits, parity. cbn [forallb foldl]. rewrite !andb_true_iff. intros (->&->&->&->&->&->&->&_). done.
Qed.

Lemma combine_high x1 x2 x3 x4 x5 :
  high_bits x1 = true → high_bits x2 = true → high_bits x3 = true → high_bits x4 = true → high_bits x5 = true →
  combine x1 x2 x3 x4 x5 = true.
Proof.
  intros H1 H2 H3 H4 H5. unfold combine.
  rewrite (parity_high _ x1 H1), (parity_high _ x2 H2), (parity_high _ x3 H3), (parity_high _ x4 H4), (parity_high _ x5 H5). by vm_compute.
Qed.

Lemma five_numbers x :
  word x →
  high_bits (nth_rand 1 x) && (high_bits (nth_rand 2 x) && (high_bits (nth_rand 3 x) && (high_bits (nth_rand 4 x) && high_bits (nth_rand 5 x)))) = false.
Proof.
  intros Hx. pose proof (relation_zero x Hx) as Hr. unfold relation in Hr. revert Hr.
  generalize (nth_rand 1 x), (nth_rand 2 x), (nth_rand 3 x), (nth_rand 4 x), (nth_rand 5 x). clear x Hx. intros x1 x2 x3 x4 x5 Hr.
  apply not_true_iff_false. rewrite !andb_true_iff. intros (H1&H2&H3&H4&H5). by rewrite (combine_high x1 x2 x3 x4 x5) in Hr.
Qed.

(** What the comparison of the code says of these bits. *)
Lemma high_bits_ok x : word x → high_bits x = (0xffff - 0x0200 <? Z.land x 0xffff).
Proof.
  intros Hx. assert (E : Z.land x 0xffff = x mod 2 ^ 9 + 2 ^ 9 * (x / 2 ^ 9 mod 2 ^ 7)).
  { change 0xffff with (Z.ones 16). rewrite Z.land_ones by lia. change (2 ^ 16) with (2 ^ 9 * 2 ^ 7). rewrite Z.rem_mul_r by lia. done. }
  rewrite E. pose proof (Z.mod_pos_bound x (2 ^ 9) ltac:(lia)). set (y := x / 2 ^ 9 mod 2 ^ 7). assert (Hy : 0 ≤ y < 2 ^ 7) by (apply Z.mod_pos_bound; lia).
  assert (Hb : high_bits x = (y =? 127)).
  { unfold high_bits. assert (Ht : ∀ i, 0 ≤ i < 7 → Z.testbit x (9 + i) = Z.testbit y i).
    { intros i Hi. unfold y. rewrite Z.mod_pow2_bits_low, Z.div_pow2_bits by lia. f_equal. lia. }
    cbn [forallb]. rewrite (Ht 0 ltac:(lia) : Z.testbit x 9 = _), (Ht 1 ltac:(lia) : Z.testbit x 10 = _), (Ht 2 ltac:(lia) : Z.testbit x 11 = _), (Ht 3 ltac:(lia) : Z.testbit x 12 = _),
      (Ht 4 ltac:(lia) : Z.testbit x 13 = _), (Ht 5 ltac:(lia) : Z.testbit x 14 = _), (Ht 6 ltac:(lia) : Z.testbit x 15 = _). clear -Hy.
    assert (Hall : forallb (λ n, Bool.eqb (forallb (λ i, Z.testbit (Z.of_nat n) i) [0; 1; 2; 3; 4; 5; 6]) (Z.of_nat n =? 127)) (seq 0 128) = true) by (by vm_compute).
    rewrite forallb_forall in Hall. specialize (Hall (Z.to_nat y)). rewrite <-list_elem_of_In in Hall. specialize (Hall ltac:(apply elem_of_seq; lia)).
    apply Bool.eqb_prop in Hall. by rewrite Z2Nat.id in Hall by lia. }
  rewrite Hb. destruct (Z.eqb_spec y 127), (Z.ltb_spec (65535 - 512) (x mod 2 ^ 9 + 2 ^ 9 * y)); (done || lia).
Qed.
