(* ===== verification/Arp.v ===== *)
(** * The address resolution protocol

    Translation of [net/arp.c]. The packets that are sent and the calls of the
    handler are a list of events; the buffer of the packet that waits for an
    address is the field [NetTxPacket]. *)

From S2P Require Import Prelude Word32 NetMem NetPacket.
From stdpp Require Import base option list.
From Stdlib Require Import ZArith Lia.
Local Open Scope Z_scope.

Definition ARP_ETHER : Z := 1.
Definition ARP_HLEN : Z := 6.
Definition ARP_PLEN : Z := 4.
Definition ARPOP_REQUEST : Z := 1.
Definition ARPOP_REPLY : Z := 2.
Definition ARP_HDR_SIZE : Z := 28.
Definition ARP_TIMEOUT : Z := 5000.
Definition ARP_TIMEOUT_COUNT : Z := 5.
Definition NetBcastAddr : list Z := replicate 6 255.
Definition NetEtherNullAddr : list Z := replicate 6 0.

(** The packet [NetArpTxPacket] and the frame that is sent. *)
Definition arp_raw_request (n : netif) (buf : list Z) (sourceIP : Z) (targetEther : list Z) (targetIP : Z) : option (list Z * list Z) :=
  '(m, eth_hdr_size) ← NetSetEther n buf 0 NetBcastAddr PROT_ARP;
  let arp := eth_hdr_size in
  m ← store_htons m arp ARP_ETHER;
  m ← store_htons m (arp + 2) PROT_IP;
  m ← store_u8 m (arp + 4) ARP_HLEN;
  m ← store_u8 m (arp + 5) ARP_PLEN;
  m ← store_htons m (arp + 6) ARPOP_REQUEST;
  m ← memcpy m (arp + 8) (take 6 (NetOurEther n));
  m ← NetWriteIP m (arp + 14) sourceIP;
  m ← memcpy m (arp + 18) (take 6 targetEther);
  m ← NetWriteIP m (arp + 24) targetIP;
  f ← memread m 0 (eth_hdr_size + ARP_HDR_SIZE);
  Some (m, f).

Inductive event := Sent (frame : list Z) | Resolved (ip : Z).

Record arp := mkArp {
  interface : netif; NetOurSubnetMask : Z; NetOurGatewayIP : Z;
  NetArpWaitPacketIP : Z; NetArpWaitReplyIP : Z;
  NetArpWaitPacketMAC : option (list Z);
  NetArpWaitTxPacketSize : Z; NetArpWaitTimerStart : Z; NetArpWaitTry : Z;
  NetArpTxPacket : list Z; NetTxPacket : list Z; events : list event;
}.

Definition send_request (a : arp) (reply : Z) (buf frame : list Z) : arp :=
  mkArp (interface a) (NetOurSubnetMask a) (NetOurGatewayIP a) (NetArpWaitPacketIP a) reply (NetArpWaitPacketMAC a)
    (NetArpWaitTxPacketSize a) (NetArpWaitTimerStart a) (NetArpWaitTry a) buf (NetTxPacket a) (events a ++ [Sent frame]).

(** The address to ask for: the gateway's for a host outside of the subnet. *)
Definition reply_address (a : arp) : Z :=
  if negb (Z.land (NetArpWaitPacketIP a) (NetOurSubnetMask a) =? Z.land (NetOurIP (interface a)) (NetOurSubnetMask a)) then
    if NetOurGatewayIP a =? 0 then NetArpWaitPacketIP a else NetOurGatewayIP a
  else NetArpWaitPacketIP a.

Definition ArpRequest (a : arp) : option arp :=
  '(buf, frame) ← arp_raw_request (interface a) (NetArpTxPacket a) (NetOurIP (interface a)) NetEtherNullAddr (reply_address a);
  Some (send_request a (reply_address a) buf frame).

Definition set_try (a : arp) (start try : Z) : arp :=
  mkArp (interface a) (NetOurSubnetMask a) (NetOurGatewayIP a) (NetArpWaitPacketIP a) (NetArpWaitReplyIP a) (NetArpWaitPacketMAC a)
    (NetArpWaitTxPacketSize a) start try (NetArpTxPacket a) (NetTxPacket a) (events a).

(** At the time [t]; the second result is the call of [NetStartAgain]. *)
Definition ArpTimeoutCheck (a : arp) (t : Z) : option (arp * bool) :=
  if NetArpWaitPacketIP a =? 0 then Some (a, false)
  else if ARP_TIMEOUT <? u32 (t - NetArpWaitTimerStart a) then
    let try := NetArpWaitTry a + 1 in
    if ARP_TIMEOUT_COUNT <=? try then Some (set_try a (NetArpWaitTimerStart a) 0, true)
    else a ← ArpRequest (set_try a t try); Some (a, false)
  else Some (a, false).

Definition add_event (a : arp) (e : event) : arp :=
  mkArp (interface a) (NetOurSubnetMask a) (NetOurGatewayIP a) (NetArpWaitPacketIP a) (NetArpWaitReplyIP a) (NetArpWaitPacketMAC a)
    (NetArpWaitTxPacketSize a) (NetArpWaitTimerStart a) (NetArpWaitTry a) (NetArpTxPacket a) (NetTxPacket a) (events a ++ [e]).

(** The waiting packet goes to the address [sha]. *)
Definition resolve (a : arp) (ip : Z) (sha : list Z) : option arp :=
  tx ← memcpy (NetTxPacket a) 0 sha;
  frame ← memread tx 0 (NetArpWaitTxPacketSize a);
  Some (mkArp (interface a) (NetOurSubnetMask a) (NetOurGatewayIP a) 0 (NetArpWaitReplyIP a) None 0
    (NetArpWaitTimerStart a) (NetArpWaitTry a) (NetArpTxPacket a) tx (events a ++ [Resolved ip; Sent frame])).

(** [et] is the frame [m], the packet starts at [ip]; the memory that
    [NetArpWaitPacketMAC] points to gets the address. *)
Definition ArpReceive (a : arp) (m : list Z) (ip len : Z) : option (arp * option (list Z)) :=
  if len <? ARP_HDR_SIZE then Some (a, None)
  else
    hrd ← be16 m ip; pro ← be16 m (ip + 2); ln ← memread m (ip + 4) 2; op ← be16 m (ip + 6); tpa ← NetReadIP m (ip + 24);
    if negb (hrd =? ARP_ETHER) then Some (a, None)
    else if negb (pro =? PROT_IP) then Some (a, None)
    else if negb (ln !!! 0%nat =? ARP_HLEN) then Some (a, None)
    else if negb (ln !!! 1%nat =? ARP_PLEN) then Some (a, None)
    else if NetOurIP (interface a) =? 0 then Some (a, None)
    else if negb (tpa =? NetOurIP (interface a)) then Some (a, None)
    else if op =? ARPOP_REQUEST then
      '(m, eth_hdr_size) ← net_update_ether (interface a) m 0 6 PROT_ARP;
      m ← store_htons m (ip + 6) ARPOP_REPLY;
      sha ← memread m (ip + 8) 6;
      m ← memcpy m (ip + 18) sha;
      m ← NetCopyIP m (ip + 24) (ip + 14);
      m ← memcpy m (ip + 8) (take 6 (NetOurEther (interface a)));
      m ← NetWriteIP m (ip + 14) (NetOurIP (interface a));
      frame ← memread m 0 (eth_hdr_size + ARP_HDR_SIZE);
      Some (add_event a (Sent frame), None)
    else if op =? ARPOP_REPLY then
      if NetArpWaitPacketIP a =? 0 then Some (a, None)
      else
        reply_ip_addr ← NetReadIP m (ip + 14);
        if reply_ip_addr =? NetArpWaitReplyIP a then
          sha ← memread m (ip + 8) 6;
          a' ← resolve a reply_ip_addr sha;
          Some (a', (λ _, sha) <$> NetArpWaitPacketMAC a)
        else Some (a, None)
    else Some (a, None).

(** ** Requests *)

Definition eth_header (n : netif) (dest : list Z) (prot : Z) : list Z :=
  dest ++ NetOurEther n ++
  (if Z.land (our_vlan n) VLAN_IDMASK =? VLAN_NONE then htons_bytes prot else htons_bytes PROT_VLAN ++ htons_bytes (Z.land (our_vlan n) VLAN_IDMASK) ++ htons_bytes prot).

Definition arp_packet (op : Z) (sha spa tha tpa : list Z) : list Z := [0; 1; 8; 0; 6; 4] ++ htons_bytes op ++ sha ++ spa ++ tha ++ tpa.

Lemma length_eth_header n dest prot : length dest = 6%nat → length (NetOurEther n) = 6%nat → Z.of_nat (length (eth_header n dest prot)) = NetEthHdrSize n.
Proof. intros Hd Ho. unfold eth_header, NetEthHdrSize. rewrite !length_app, Hd, Ho. by destruct (_ =? VLAN_NONE). Qed.

(** The frame of a request, whatever the buffer held. *)
Lemma arp_raw_request_ok n buf sourceIP targetEther targetIP : length (NetOurEther n) = 6%nat → length targetEther = 6%nat → (46 ≤ length buf)%nat →
  ∃ buf', arp_raw_request n buf sourceIP targetEther targetIP =
      Some (buf', eth_header n NetBcastAddr PROT_ARP ++ arp_packet ARPOP_REQUEST (NetOurEther n) (ip_bytes sourceIP) targetEther (ip_bytes targetIP)) ∧ length buf' = length buf.
Proof.
  destruct n as [mac our vlan nid]. cbn [NetOurEther]. intros Hm Ht Hb. do 46 (destruct buf as [|? buf]; [cbn in Hb; lia|]). clear Hb. explicit mac Hm. explicit targetEther Ht.
  unfold arp_raw_request, NetSetEther, store_htons, store_u8, NetWriteIP, eth_header. cbn [NetOurEther].
  match goal with |- context [memcpy ?m 0 _] => match m with
    | ?a0 :: ?a1 :: ?a2 :: ?a3 :: ?a4 :: ?a5 :: ?a6 :: ?a7 :: ?a8 :: ?a9 :: ?a10 :: ?a11 :: ?a12 :: ?a13 :: ?a14 :: ?a15 :: ?a16 :: ?a17 :: ?a18 :: ?a19 :: ?a20 :: ?a21 :: ?a22 :: ?a23 :: ?a24 :: ?a25 :: ?a26 :: ?a27 :: ?a28 :: ?a29 :: ?a30 :: ?a31 :: ?a32 :: ?a33 :: ?a34 :: ?a35 :: ?a36 :: ?a37 :: ?a38 :: ?a39 :: ?a40 :: ?a41 :: ?a42 :: ?a43 :: ?a44 :: ?a45 :: ?t =>
      change m with ([a0; a1; a2; a3; a4; a5; a6; a7; a8; a9; a10; a11; a12; a13; a14; a15; a16; a17; a18; a19; a20; a21; a22; a23; a24; a25; a26; a27; a28; a29; a30; a31; a32; a33; a34; a35; a36; a37; a38; a39; a40; a41; a42; a43; a44; a45] ++ t) in *
  end end.
  front_step. front_step. destruct (Z.land _ VLAN_IDMASK =? VLAN_NONE).
  - do 11 front_step. eexists. split; [done|]. done.
  - do 13 front_step. eexists. split; [done|]. done.
Qed.

(** ** Timeouts *)

(** The checks at the times [ts], until the network starts again. *)
Fixpoint check_all (a : arp) (ts : list Z) : option (arp * bool) :=
  match ts with
  | [] => Some (a, false)
  | t :: ts => '(a, restart) ← ArpTimeoutCheck a t; if (restart : bool) then Some (a, true) else check_all a ts
  end.

(** The frame of the request of [a]. *)
Definition request_of (a : arp) : list Z :=
  eth_header (interface a) NetBcastAddr PROT_ARP ++
  arp_packet ARPOP_REQUEST (NetOurEther (interface a)) (ip_bytes (NetOurIP (interface a))) NetEtherNullAddr (ip_bytes (reply_address a)).

Definition arp_ok (a : arp) : Prop := length (NetOurEther (interface a)) = 6%nat ∧ (46 ≤ length (NetArpTxPacket a))%nat.

(** Times that are more than a timeout apart from one another. *)
Fixpoint expired (start : Z) (ts : list Z) : Prop :=
  match ts with [] => True | t :: ts => ARP_TIMEOUT < u32 (t - start) ∧ expired t ts end.

Lemma ArpRequest_ok a : arp_ok a → ∃ buf, ArpRequest a = Some (send_request a (reply_address a) buf (request_of a)) ∧ length buf = length (NetArpTxPacket a).
Proof.
  intros [Hm Hb]. unfold ArpRequest. destruct (arp_raw_request_ok (interface a) (NetArpTxPacket a) (NetOurIP (interface a)) NetEtherNullAddr (reply_address a)) as (buf & -> & Hl); [done..|].
  by exists buf.
Qed.

(** An address that nobody answers for: while the timeouts expire the
    request is repeated, with the same frame each time, and the fifth try in all
    makes the network start again. *)
Theorem arp_gives_up a ts :
  arp_ok a → NetArpWaitPacketIP a ≠ 0 → 0 ≤ NetArpWaitTry a → NetArpWaitTry a + Z.of_nat (length ts) = ARP_TIMEOUT_COUNT → ts ≠ [] → expired (NetArpWaitTimerStart a) ts →
  ∃ a', check_all a ts = Some (a', true) ∧ NetArpWaitTry a' = 0 ∧ events a' = events a ++ replicate (length ts - 1) (Sent (request_of a)).
Proof.
  revert a. induction ts as [|t ts IH]; intros a Hok Hip Hk Hn Hne He; [done|]. cbn [expired] in He. destruct He as [Ht He]. cbn [length] in Hn |- *. cbn [check_all]. unfold ArpTimeoutCheck.
  rewrite (proj2 (Z.eqb_neq _ _)) by done. rewrite (proj2 (Z.ltb_lt _ _)) by done. destruct (decide (ts = [])) as [->|Hts].
  - rewrite (proj2 (Z.leb_le _ _)) by (cbn [length] in Hn; lia). cbn [mbind option_bind]. eexists. split; [done|]. cbn. by rewrite app_nil_r.
  - assert (Hl : (0 < length ts)%nat) by (destruct ts; [done|cbn; lia]). rewrite (proj2 (Z.leb_gt _ _)) by lia.
    destruct (ArpRequest_ok (set_try a t (NetArpWaitTry a + 1))) as (buf & -> & Hbuf); [done|]. cbn [mbind option_bind].
    destruct (IH (send_request (set_try a t (NetArpWaitTry a + 1)) (reply_address a) buf (request_of a))) as (a' & E & H0 & Hev); try done.
    + destruct Hok. split; [done|]. cbn. rewrite Hbuf. done.
    + cbn. lia.
    + cbn [NetArpWaitTry send_request set_try]. lia.
    + exists a'. split; [exact E|]. split; [done|]. rewrite Hev. cbn [events send_request set_try]. rewrite <-app_assoc. f_equal.
      replace (Datatypes.S (length ts) - 1)%nat with (Datatypes.S (length ts - 1)) by lia. done.
Qed.

(** Our host 10.0.0.1/8 that waits for 10.0.0.2. *)
Definition sample_arp : arp := mkArp sample_netif 0xff 0 0x0200000a 0x0200000a None 60 0 1 (replicate 46 0) (replicate 60 7) [].

Lemma arp_gives_up_witness :
  ∃ a', check_all sample_arp [6000; 12000; 18000; 24000] = Some (a', true) ∧ NetArpWaitTry a' = 0 ∧
    events a' = events sample_arp ++ replicate (length [6000; 12000; 18000; 24000] - 1) (Sent (request_of sample_arp)).
Proof. apply (arp_gives_up sample_arp [6000; 12000; 18000; 24000]); [split; [done|cbn; lia]|done|done|done|done|by vm_compute]. Defined.

(** ** Packets that arrive *)

Lemma ip_bytes_read ip post : 0 ≤ ip < 2 ^ 32 → NetReadIP (ip_bytes ip ++ post) 0 = Some ip.
Proof.
  intros Hip. unfold NetReadIP. rewrite memread_front by (by vm_compute). cbn [mbind option_bind]. f_equal.
  change (ip mod 256 + 2 ^ 8 * (ip / 2 ^ 8 mod 256) + 2 ^ 16 * (ip / 2 ^ 16 mod 256) + 2 ^ 24 * (ip / 2 ^ 24 mod 256) = ip).
  assert (E : ∀ k, 0 ≤ k → ip / 2 ^ (k + 8) = ip / 2 ^ k / 256) by (intros k Hk; rewrite Z.pow_add_r, <-Z.div_div by lia; done).
  pose proof (E 0 ltac:(lia)) as E0. pose proof (E 8 ltac:(lia)) as E1. pose proof (E 16 ltac:(lia)) as E2. cbn [Z.add Pos.add] in E0, E1, E2.
  change (0 + 8) with 8 in E0. change (8 + 8) with 16 in E1. change (16 + 8) with 24 in E2. rewrite Z.pow_0_r, Z.div_1_r in E0. rewrite E2, E1, E0.
  pose proof (Z.div_mod ip 256 ltac:(lia)). pose proof (Z.div_mod (ip / 256) 256 ltac:(lia)). pose proof (Z.div_mod (ip / 256 / 256) 256 ltac:(lia)).
  assert (0 ≤ ip / 256 / 256 / 256 < 256); [|rewrite (Z.mod_small (ip / 256 / 256 / 256)) by lia; lia].
  rewrite !Z.div_div by lia. split; [apply Z.div_pos; lia|apply Z.div_lt_upper_bound; lia].
Qed.

Lemma NetReadIP_mid pre post ip k : 0 ≤ ip < 2 ^ 32 → k = Z.of_nat (length pre) → NetReadIP (pre ++ ip_bytes ip ++ post) k = Some ip.
Proof.
  intros Hip ->. rewrite <-(ip_bytes_read ip post Hip). unfold NetReadIP. pose proof (memread_mid pre (ip_bytes ip) post 0 4) as E. rewrite Z.add_0_r in E.
  rewrite E by (by vm_compute). by rewrite (memread_front (ip_bytes ip) post 0 4) by (by vm_compute).
Qed.

(** A frame with an ARP packet that arrives. *)
Definition arp_frame (dst src : list Z) (op : Z) (sha spa tha tpa rest : list Z) : list Z := dst ++ src ++ [8; 6] ++ arp_packet op sha spa tha tpa ++ rest.

(** A request for our address is answered with one frame, to the host that
    asks, in which sender and target are exchanged and our address is filled
    in. *)
Theorem arp_answers a dst src sha spa tha rest len :
  length (NetOurEther (interface a)) = 6%nat → length dst = 6%nat → length src = 6%nat → length sha = 6%nat → length tha = 6%nat → length spa = 4%nat →
  ARP_HDR_SIZE ≤ len → 0 < NetOurIP (interface a) < 2 ^ 32 →
  ArpReceive a (arp_frame dst src ARPOP_REQUEST sha spa tha (ip_bytes (NetOurIP (interface a))) rest) 14 len =
    Some (add_event a (Sent (src ++ NetOurEther (interface a) ++ [8; 6] ++
      arp_packet ARPOP_REPLY (NetOurEther (interface a)) (ip_bytes (NetOurIP (interface a))) sha spa)), None).
Proof.
  intros Hmac Hdst Hsrc Hsha Htha Hsp Hlen Hour.
  unfold ArpReceive. rewrite (proj2 (Z.ltb_ge _ _)) by done.
  assert (Et : NetReadIP (arp_frame dst src ARPOP_REQUEST sha spa tha (ip_bytes (NetOurIP (interface a))) rest) (14 + 24) = Some (NetOurIP (interface a))).
  { unfold arp_frame, arp_packet. rewrite <-!app_assoc. rewrite !(app_assoc dst), !(app_assoc (dst ++ src)). repeat rewrite (app_assoc (_ ++ _)).
    rewrite <-(app_assoc _ (ip_bytes (NetOurIP (interface a))) rest). apply NetReadIP_mid; [lia|]. rewrite !length_app, Hdst, Hsrc, Hsha, Htha, Hsp. done. }
  rewrite Et. destruct a as [[mac ourip vlan nid] mask gw pip rip pmac sz start try buf tx ev]. cbn [interface NetOurEther NetOurIP] in *.
  explicit dst Hdst. explicit src Hsrc. explicit sha Hsha. explicit tha Htha. explicit mac Hmac.
  unfold arp_frame, arp_packet, be16. rewrite <-!app_assoc. set (ob := ip_bytes ourip). assert (Hob : length ob = 4%nat) by done.
  assert (Eob : ip_bytes ourip = ob) by done. clearbody ob. clear Et. explicit spa Hsp. explicit ob Hob. cbn [app htons_bytes].
  match goal with |- context [memread ?m 14 2] => match m with
    | ?a0 :: ?a1 :: ?a2 :: ?a3 :: ?a4 :: ?a5 :: ?a6 :: ?a7 :: ?a8 :: ?a9 :: ?a10 :: ?a11 :: ?a12 :: ?a13 :: ?a14 :: ?a15 :: ?a16 :: ?a17 :: ?a18 :: ?a19 :: ?a20 :: ?a21 :: ?a22 :: ?a23 :: ?a24 :: ?a25 :: ?a26 :: ?a27 :: ?a28 :: ?a29 :: ?a30 :: ?a31 :: ?a32 :: ?a33 :: ?a34 :: ?a35 :: ?a36 :: ?a37 :: ?a38 :: ?a39 :: ?a40 :: ?a41 :: ?t => change m with ([a0; a1; a2; a3; a4; a5; a6; a7; a8; a9; a10; a11; a12; a13; a14; a15; a16; a17; a18; a19; a20; a21; a22; a23; a24; a25; a26; a27; a28; a29; a30; a31; a32; a33; a34; a35; a36; a37; a38; a39; a40; a41] ++ t) in *
  end end.
  match goal with |- context [memread ?m 14 2] => set (frame := m) end.
  assert (E1 : memread frame 14 2 = Some [0; 1]) by (unfold frame; by rewrite memread_front by (by vm_compute)).
  assert (E2 : memread frame (14 + 2) 2 = Some [8; 0]) by (unfold frame; by rewrite memread_front by (by vm_compute)).
  assert (E3 : memread frame (14 + 4) 2 = Some [6; 4]) by (unfold frame; by rewrite memread_front by (by vm_compute)).
  assert (E4 : memread frame (14 + 6) 2 = Some [0; 1]) by (unfold frame; by rewrite memread_front by (by vm_compute)).
  rewrite E1. cbn [mbind option_bind]. rewrite E2. cbn [mbind option_bind]. rewrite E3. cbn [mbind option_bind]. rewrite E4. cbn [mbind option_bind]. clear E1 E2 E3 E4.
  rewrite (proj2 (Z.eqb_neq ourip 0)) by lia. rewrite (Z.eqb_refl ourip). cbn [negb].
  repeat match goal with |- context [negb (?x =? ?y)] => change (negb (x =? y)) with false; cbv iota end.
  match goal with |- context [?x =? ARPOP_REQUEST] => change (x =? ARPOP_REQUEST) with true; cbv iota end. unfold frame. clear frame.
  unfold net_update_ether, store_htons, NetCopyIP, NetWriteIP, be16. cbn [NetOurEther]. do 3 front_step. rewrite (memread_front _ rest (0 + 12) 2) by (by vm_compute). cbn [mbind option_bind].
  match goal with |- context [?x =? PROT_VLAN] => change (x =? PROT_VLAN) with false; change (1514 <? x) with true; cbv iota end.
  rewrite !Eob. do 9 front_step. done.
Qed.

Lemma arp_answers_witness :
  ArpReceive sample_arp (arp_frame NetBcastAddr [2; 0; 0; 0; 0; 2] ARPOP_REQUEST [2; 0; 0; 0; 0; 2] [10; 0; 0; 2] NetEtherNullAddr (ip_bytes (NetOurIP (interface sample_arp))) (replicate 18 0)) 14 46 =
    Some (add_event sample_arp (Sent ([2; 0; 0; 0; 0; 2] ++ NetOurEther (interface sample_arp) ++ [8; 6] ++
      arp_packet ARPOP_REPLY (NetOurEther (interface sample_arp)) (ip_bytes (NetOurIP (interface sample_arp))) [2; 0; 0; 0; 0; 2] [10; 0; 0; 2])), None).
Proof. apply arp_answers; try done; by vm_compute. Defined.
