(* ===== verification/LinkLocal.v ===== *)
(** * Link-local addresses

    Translation of [net/link_local.c] with [NetSetTimeout] and the check of the
    timeout in the main loop of [net/net.c]. The time in milliseconds is an
    argument ([CONFIG_SYS_HZ] is 1000 on the boards of this tree), the state of
    the file and what it changes elsewhere is the record [ll]. The loop of
    [pick] has fuel for the five numbers of [Rand.five_numbers]. *)

From S2P Require Import Prelude Word32 Rand NetMem NetPacket Arp.
From stdpp Require Import base option list.
From Stdlib Require Import ZArith Lia.
Local Open Scope Z_scope.

Definition LINKLOCAL_ADDR : Z := 0xa9fe0000.
Definition IN_CLASSB_NET : Z := 0xffff0000.
Definition IN_CLASSB_HOST : Z := 0x0000ffff.
Definition PROBE_WAIT : Z := 1.
Definition PROBE_MIN : Z := 1.
Definition PROBE_MAX : Z := 2.
Definition PROBE_NUM : Z := 3.
Definition MAX_CONFLICTS : Z := 10.
Definition RATE_LIMIT_INTERVAL : Z := 60.
Definition ANNOUNCE_NUM : Z := 2.
Definition ANNOUNCE_INTERVAL : Z := 2.
Definition DEFEND_INTERVAL : Z := 10.
Definition CONFIG_SYS_HZ : Z := 1000.

Inductive ll_state := PROBE | RATE_LIMIT_PROBE | ANNOUNCE | MONITOR | DEFEND | DISABLED.
Inductive net_loop_state := NETLOOP_CONTINUE | NETLOOP_RESTART | NETLOOP_SUCCESS | NETLOOP_FAIL.

#[global] Instance ll_state_eq_dec : EqDecision ll_state.
Proof. solve_decision. Defined.

Record ll := mkLL {
  state : ll_state; ip : Z; timeout_ms : Z; deadline_ms : Z; conflicts : Z; nprobes : Z; nclaims : Z; ready : Z; seed : Z;
  iface : netif; subnet_mask : Z; tx_packet : list Z; timer : option (Z * Z); net_state : net_loop_state; sent : list (list Z);
}.

(** ** Updates *)

Definition with_state (x : ll_state) (s : ll) : ll :=
  mkLL x (ip s) (timeout_ms s) (deadline_ms s) (conflicts s) (nprobes s) (nclaims s) (ready s) (seed s) (iface s) (subnet_mask s) (tx_packet s) (timer s) (net_state s) (sent s).
Definition with_timeout (x : Z) (s : ll) : ll :=
  mkLL (state s) (ip s) x (deadline_ms s) (conflicts s) (nprobes s) (nclaims s) (ready s) (seed s) (iface s) (subnet_mask s) (tx_packet s) (timer s) (net_state s) (sent s).
Definition with_counts (c p n : Z) (s : ll) : ll :=
  mkLL (state s) (ip s) (timeout_ms s) (deadline_ms s) c p n (ready s) (seed s) (iface s) (subnet_mask s) (tx_packet s) (timer s) (net_state s) (sent s).
Definition with_ip_seed (i x : Z) (s : ll) : ll :=
  mkLL (state s) i (timeout_ms s) (deadline_ms s) (conflicts s) (nprobes s) (nclaims s) (ready s) x (iface s) (subnet_mask s) (tx_packet s) (timer s) (net_state s) (sent s).
Definition with_timer (d : Z) (t : option (Z * Z)) (s : ll) : ll :=
  mkLL (state s) (ip s) (timeout_ms s) d (conflicts s) (nprobes s) (nclaims s) (ready s) (seed s) (iface s) (subnet_mask s) (tx_packet s) t (net_state s) (sent s).
Definition with_net (x : net_loop_state) (s : ll) : ll :=
  mkLL (state s) (ip s) (timeout_ms s) (deadline_ms s) (conflicts s) (nprobes s) (nclaims s) (ready s) (seed s) (iface s) (subnet_mask s) (tx_packet s) (timer s) x (sent s).
Definition with_sent (buf frame : list Z) (s : ll) : ll :=
  mkLL (state s) (ip s) (timeout_ms s) (deadline_ms s) (conflicts s) (nprobes s) (nclaims s) (ready s) (seed s) (iface s) (subnet_mask s) buf (timer s) (net_state s) (sent s ++ [frame]).
Definition with_our_ip (i r : Z) (s : ll) : ll :=
  mkLL (state s) (ip s) (timeout_ms s) (deadline_ms s) (conflicts s) (nprobes s) (nclaims s) r (seed s)
    (mkNetif (NetOurEther (iface s)) i (NetOurVLAN (iface s)) (NetIPID (iface s))) (subnet_mask s) (tx_packet s) (timer s) (net_state s) (sent s).

(** ** Operations *)

Definition htonl (x : Z) : Z := x mod 256 * 2 ^ 24 + x / 2 ^ 8 mod 256 * 2 ^ 16 + x / 2 ^ 16 mod 256 * 2 ^ 8 + x / 2 ^ 24 mod 256.

Fixpoint pick_loop (fuel : nat) (seed : Z) : option (Z * Z) :=
  match fuel with
  | O => None
  | S fuel =>
      let seed := rand_r seed in
      let tmp := Z.land seed IN_CLASSB_HOST in
      if IN_CLASSB_HOST - 0x0200 <? tmp then pick_loop fuel seed else Some (tmp, seed)
  end.

(** The address, in the order of the network, and the seed. *)
Definition pick (seed : Z) : option (Z * Z) :=
  '(tmp, seed) ← pick_loop 5 seed; Some (htonl (LINKLOCAL_ADDR + 0x0100 + tmp), seed).

Definition pick_ip (s : ll) : option ll := '(i, x) ← pick (seed s); Some (with_ip_seed i x s).

Definition random_delay_ms (seed secs : Z) : Z * Z := let x := rand_r seed in (x mod (secs * 1000), x).

(** [NetSetTimeout] with the handler of this file. *)
Definition NetSetTimeout (now iv : Z) (s : ll) : ll :=
  with_timer (deadline_ms s) (if iv =? 0 then None else Some (now, u32 (iv * CONFIG_SYS_HZ) / 1000)) s.

Definition MONOTONIC_MS (now : Z) : Z := u32 (now * (1000 / CONFIG_SYS_HZ)).

Definition configure_wait (now : Z) (s : ll) : ll :=
  if timeout_ms s =? -1 then s
  else
    let s := (if timeout_ms s =? 0 then let '(d, x) := random_delay_ms (seed s) PROBE_WAIT in with_timeout d (with_ip_seed (ip s) x s) else s) in
    let s := with_timer (u32 (MONOTONIC_MS now + timeout_ms s)) (timer s) s in
    NetSetTimeout now (u32 (timeout_ms s)) s.

(** [env_ip] is the address of [llipaddr] or 0, [enetaddr] that of [ethaddr]. *)
Definition link_local_start (env_ip : Z) (enetaddr : list Z) (now : Z) (s : ll) : option ll :=
  let s := with_ip_seed env_ip (seed s) s in
  if negb (env_ip =? 0) && negb (Z.land (htonl env_ip) IN_CLASSB_NET =? LINKLOCAL_ADDR) then Some (with_net NETLOOP_FAIL s)
  else
    let s := mkLL (state s) (ip s) (timeout_ms s) (deadline_ms s) (conflicts s) (nprobes s) (nclaims s) (ready s) (seed_mac enetaddr) (iface s) IN_CLASSB_NET
               (tx_packet s) (timer s) (net_state s) (sent s) in
    s ← (if env_ip =? 0 then pick_ip s else Some s);
    let s := with_our_ip (NetOurIP (iface s)) 0 (with_counts 0 0 0 (with_timeout 0 (with_state PROBE s))) in
    Some (configure_wait now s).

Definition arp_request (source : Z) (target : list Z) (s : ll) : option ll :=
  '(buf, frame) ← arp_raw_request (iface s) (tx_packet s) source target (ip s); Some (with_sent buf frame s).

Definition announce (s : ll) : option ll := arp_request (ip s) (NetOurEther (iface s)) s.

(** The whole protocol again. *)
Definition restart (s : ll) : option ll := s ← pick_ip s; Some (with_counts (conflicts s) 0 0 (with_timeout 0 s)).

Definition link_local_timeout (now : Z) (s : ll) : option ll :=
  match state s with
  | PROBE =>
      if nprobes s <? PROBE_NUM then
        s ← arp_request 0 NetEtherNullAddr (with_counts (conflicts s) (nprobes s + 1) (nclaims s) s);
        let '(d, x) := random_delay_ms (seed s) (PROBE_MAX - PROBE_MIN) in
        Some (configure_wait now (with_timeout (PROBE_MIN * 1000 + d) (with_ip_seed (ip s) x s)))
      else
        s ← announce (with_counts (conflicts s) (nprobes s) 0 (with_state ANNOUNCE s));
        Some (configure_wait now (with_timeout (ANNOUNCE_INTERVAL * 1000) s))
  | RATE_LIMIT_PROBE =>
      s ← announce (with_counts (conflicts s) (nprobes s) 0 (with_state ANNOUNCE s));
      Some (configure_wait now (with_timeout (ANNOUNCE_INTERVAL * 1000) s))
  | ANNOUNCE =>
      if nclaims s <? ANNOUNCE_NUM then
        s ← announce (with_counts (conflicts s) (nprobes s) (nclaims s + 1) s);
        Some (configure_wait now (with_timeout (ANNOUNCE_INTERVAL * 1000) s))
      else
        let s := with_counts 0 (nprobes s) (nclaims s) (with_our_ip (ip s) 1 (with_state MONITOR s)) in
        Some (with_net NETLOOP_SUCCESS (NetSetTimeout now 0 (with_timeout (-1) s)))
  | DEFEND => Some (configure_wait now (with_counts 0 (nprobes s) (nclaims s) (with_timeout (-1) (with_state MONITOR s))))
  | MONITOR | DISABLED => s ← restart (with_state PROBE s); Some (configure_wait now s)
  end.

(** The fields of an ARP packet that arrives. *)
Record arp_hdr := mkHdr { ar_op : Z; ar_sha : list Z; ar_spa : Z; ar_tpa : Z }.

Definition s32 (x : Z) : Z := (x + 2 ^ 31) mod 2 ^ 32 - 2 ^ 31.

Definition adjust_timeout (now : Z) (s : ll) : ll :=
  if 0 <? timeout_ms s then
    let diff := u32 (deadline_ms s - MONOTONIC_MS now) in
    if s32 diff <? 0 then with_timeout 0 s else with_timeout (s32 (Z.lor diff 1)) s
  else s.

Definition link_local_receive_arp (now : Z) (h : arp_hdr) (s : ll) : option ll :=
  match state s with
  | DISABLED => Some s
  | _ =>
      let s := adjust_timeout now s in
      if negb (ar_op h =? ARPOP_REQUEST) && negb (ar_op h =? ARPOP_REPLY) then Some (configure_wait now s)
      else
        let foreign := negb (bool_decide (ar_sha h = NetOurEther (iface s))) in
        let source_ip_conflict := (ar_spa h =? ip s) && foreign in
        let target_ip_conflict := (ar_op h =? ARPOP_REQUEST) && (ar_spa h =? 0) && (ar_tpa h =? ip s) && foreign in
        s ← match state s with
            | PROBE | ANNOUNCE =>
                if source_ip_conflict || target_ip_conflict then
                  let s := with_counts (u32 (conflicts s + 1)) (nprobes s) (nclaims s) (with_state PROBE s) in
                  restart (if MAX_CONFLICTS <=? conflicts s then with_state RATE_LIMIT_PROBE (with_timeout (RATE_LIMIT_INTERVAL * 1000) s) else s)
                else Some s
            | MONITOR =>
                if source_ip_conflict then announce (with_timeout (DEFEND_INTERVAL * 1000) (with_state DEFEND s)) else Some s
            | DEFEND =>
                if source_ip_conflict then restart (with_our_ip 0 0 (with_state PROBE s)) else Some s
            | RATE_LIMIT_PROBE | DISABLED => restart (with_state PROBE s)
            end;
        Some (configure_wait now s)
  end.

(** The check of the timeout in the main loop. *)
Definition check_timeout (now : Z) (s : ll) : option ll :=
  match timer s with
  | Some (start, delta) => if delta <? u32 (now - start) then link_local_timeout now (with_timer (deadline_ms s) None s) else Some s
  | None => Some s
  end.

(** ** The choice of an address *)

(** An address of 169.254.1.0 to 169.254.254.255, in the order of the host. *)
Definition link_local_addr (h : Z) : Prop := LINKLOCAL_ADDR + 0x100 ≤ h ≤ LINKLOCAL_ADDR + 0xfeff.

Lemma pick_loop_ok fuel x : word x → existsb (λ k, negb (high_bits (nth_rand k x))) (seq 1 fuel) = true →
  ∃ tmp x', pick_loop fuel x = Some (tmp, x') ∧ 0 ≤ tmp ≤ 0xfdff ∧ word x'.
Proof.
  revert x. induction fuel as [|fuel IH]; intros x Hx He; [done|]. cbn [pick_loop]. assert (Hr := rand_r_word x Hx).
  change (seq 1 (Datatypes.S fuel)) with (1%nat :: seq 2 fuel) in He. cbn [existsb] in He. pose proof (high_bits_ok (rand_r x) Hr) as Hh.
  change IN_CLASSB_HOST with 0xffff in *. destruct (Z.ltb_spec (0xffff - 0x0200) (Z.land (rand_r x) 0xffff)) as [Hlt|Hge].
  - apply IH; [done|]. assert (Hn : nth_rand 1 x = rand_r x) by done. rewrite Hn, Hh in He. cbn [negb orb] in He.
    rewrite <-He. rewrite <-(seq_shift fuel 1). clear. generalize (seq 1 fuel). intros l. induction l as [|k l IH]; [done|]. cbn [map existsb]. rewrite IH. do 3 f_equal.
    unfold nth_rand. by rewrite Nat.iter_succ_r.
  - eexists _, _. split; [done|]. split; [|done]. split; [|lia]. apply Z.land_nonneg. right. lia.
Qed.

Lemma htonl_involutive x : 0 ≤ x < 2 ^ 32 → htonl (htonl x) = x.
Proof.
  intros Hx. unfold htonl.
  assert (E : ∀ a b c d, 0 ≤ a < 256 → 0 ≤ b < 256 → 0 ≤ c < 256 → 0 ≤ d < 256 →
    let y := a * 2 ^ 24 + b * 2 ^ 16 + c * 2 ^ 8 + d in y mod 256 = d ∧ y / 2 ^ 8 mod 256 = c ∧ y / 2 ^ 16 mod 256 = b ∧ y / 2 ^ 24 mod 256 = a).
  { intros a b c d Ha Hb Hc Hd. cbn zeta. split_and!; Z.to_euclidean_division_equations; lia. }
  pose proof (Z.mod_pos_bound x 256 ltac:(lia)). pose proof (Z.mod_pos_bound (x / 2 ^ 8) 256 ltac:(lia)). pose proof (Z.mod_pos_bound (x / 2 ^ 16) 256 ltac:(lia)). pose proof (Z.mod_pos_bound (x / 2 ^ 24) 256 ltac:(lia)).
  destruct (E (x mod 256) (x / 2 ^ 8 mod 256) (x / 2 ^ 16 mod 256) (x / 2 ^ 24 mod 256)) as (-> & -> & -> & ->); [done..|]. clear -Hx. Z.to_euclidean_division_equations. lia.
Qed.

Lemma pick_correct_aux x : word x → ∃ h x', pick x = Some (htonl h, x') ∧ link_local_addr h ∧ word x'.
Proof.
  intros Hx. destruct (pick_loop_ok 5 x Hx) as (tmp & x' & E & Ht & Hx').
  - pose proof (five_numbers x Hx) as H5. change (seq 1 5) with [1; 2; 3; 4; 5]%nat. cbn [existsb].
    destruct (high_bits (nth_rand 1 x)), (high_bits (nth_rand 2 x)), (high_bits (nth_rand 3 x)), (high_bits (nth_rand 4 x)), (high_bits (nth_rand 5 x)); done.
  - unfold pick. rewrite E. cbn [mbind option_bind]. eexists _, x'. split; [done|]. split; [|done]. unfold link_local_addr, LINKLOCAL_ADDR. lia.
Qed.

(** The search for an address ends for every seed, within five numbers, with
    an address of 169.254/16 outside of the first and the last 256. *)
Theorem pick_correct x : word x → ∃ h x', pick x = Some (htonl h, x') ∧ link_local_addr h ∧ word x'.
Proof. apply pick_correct_aux. Qed.

Lemma pick_correct_witness : ∃ h x', pick 1 = Some (htonl h, x') ∧ link_local_addr h ∧ word x'.
Proof. apply (pick_correct 1). split; [lia|]. lia. Defined.

(** ** The invariant *)

Record ll_ok (s : ll) : Prop := {
  lo_seed : word (seed s);
  lo_mac : length (NetOurEther (iface s)) = 6%nat;
  lo_buf : (46 ≤ length (tx_packet s))%nat;
  lo_ip : ∃ h, ip s = htonl h ∧ LINKLOCAL_ADDR ≤ h < LINKLOCAL_ADDR + 2 ^ 16;
}.

(** What the handlers do to the fields of the invariant. *)
Definition same_basis (s s' : ll) : Prop := seed s' = seed s ∧ iface s' = iface s ∧ tx_packet s' = tx_packet s ∧ ip s' = ip s.

Lemma ll_ok_same s s' : same_basis s s' → ll_ok s → ll_ok s'.
Proof. intros (E1 & E2 & E3 & E4) [H1 H2 H3 H4]. split; rewrite ?E1, ?E2, ?E3, ?E4; done. Qed.

Lemma configure_wait_ok now s : ll_ok s → ll_ok (configure_wait now s).
Proof.
  intros Hs. unfold configure_wait, NetSetTimeout, random_delay_ms. destruct (timeout_ms s =? -1); [done|]. destruct Hs as [H1 H2 H3 H4].
  destruct (timeout_ms s =? 0); cbn [seed with_timeout with_timer with_ip_seed]; split; cbn; try done. by apply rand_r_word.
Qed.

Lemma arp_request_ok source target s : ll_ok s → length target = 6%nat →
  ∃ buf, arp_request source target s = Some (with_sent buf (eth_header (iface s) NetBcastAddr PROT_ARP ++ arp_packet ARPOP_REQUEST (NetOurEther (iface s)) (ip_bytes source) target (ip_bytes (ip s))) s) ∧
    (46 ≤ length buf)%nat.
Proof.
  intros [H1 H2 H3 H4] Ht. unfold arp_request. destruct (arp_raw_request_ok (iface s) (tx_packet s) source target (ip s) H2 Ht H3) as (buf & -> & Hl).
  exists buf. split; [done|]. by rewrite Hl.
Qed.

Lemma arp_request_keeps source target s : ll_ok s → length target = 6%nat → ∃ s', arp_request source target s = Some s' ∧ ll_ok s'.
Proof. intros Hs Ht. destruct (arp_request_ok source target s Hs Ht) as (buf & -> & Hb). eexists. split; [done|]. destruct Hs. by split. Qed.

Lemma restart_ok s : ll_ok s → ∃ s', restart s = Some s' ∧ ll_ok s'.
Proof.
  intros [H1 H2 H3 H4]. unfold restart, pick_ip. destruct (pick_correct_aux (seed s) H1) as (h & x & -> & Hh & Hx). cbn [mbind option_bind]. eexists. split; [done|].
  split; cbn; try done. exists h. split; [done|]. unfold link_local_addr in Hh. lia.
Qed.

(** ** Events *)

Inductive ll_event := Tick (now : Z) | Arrives (now : Z) (h : arp_hdr).

Definition ll_step (e : ll_event) (s : ll) : option ll :=
  match e with Tick now => check_timeout now s | Arrives now h => link_local_receive_arp now h s end.

Fixpoint ll_run (es : list ll_event) (s : ll) : option ll := match es with [] => Some s | e :: es => s ← ll_step e s; ll_run es s end.

(** The basis is the same as that of a state in the context. *)
Ltac keeps := match goal with H : ll_ok ?s |- ll_ok _ => by apply (ll_ok_same s) end.
(** The next request is sent. *)
Ltac request :=
  match goal with |- context [arp_request ?a ?b ?x] =>
    let s' := fresh "s'" in let Hs' := fresh "Hs'" in destruct (arp_request_keeps a b x) as (s' & -> & Hs'); [keeps|done|]; cbn [mbind option_bind]
  end.

Lemma link_local_timeout_ok now s : ll_ok s → ∃ s', link_local_timeout now s = Some s' ∧ ll_ok s'.
Proof.
  intros Hs. unfold link_local_timeout, announce. assert (Hm := lo_mac s Hs). destruct (state s).
  - destruct (nprobes s <? PROBE_NUM).
    + request. cbn [random_delay_ms]. eexists. split; [done|].
      apply configure_wait_ok. destruct Hs'. split; cbn; try done. by apply rand_r_word.
    + request. eexists. split; [done|]. apply configure_wait_ok. by keeps.
  - request. eexists. split; [done|]. apply configure_wait_ok. by keeps.
  - destruct (nclaims s <? ANNOUNCE_NUM).
    + request. eexists. split; [done|]. apply configure_wait_ok. by keeps.
    + eexists. split; [done|]. by destruct Hs.
  - destruct (restart_ok (with_state PROBE s)) as (s' & -> & Hs'); [by keeps|]. cbn [mbind option_bind]. eexists. split; [done|]. by apply configure_wait_ok.
  - eexists. split; [done|]. apply configure_wait_ok. by keeps.
  - destruct (restart_ok (with_state PROBE s)) as (s' & -> & Hs'); [by keeps|]. cbn [mbind option_bind]. eexists. split; [done|]. by apply configure_wait_ok.
Qed.

Lemma adjust_timeout_ok now s : ll_ok s → ll_ok (adjust_timeout now s).
Proof. intros Hs. unfold adjust_timeout. destruct (0 <? timeout_ms s); [|done]. destruct (s32 _ <? 0); keeps. Qed.

Lemma link_local_receive_arp_ok now h s : ll_ok s → ∃ s', link_local_receive_arp now h s = Some s' ∧ ll_ok s'.
Proof.
  intros Hs. unfold link_local_receive_arp. destruct (decide (state s = DISABLED)) as [->|Hn]; [by exists s|].
  assert (Ha := adjust_timeout_ok now s Hs). set (t := adjust_timeout now s) in *. clearbody t.
  assert (Hre : ∀ x, ll_ok x → ∃ s', (s ← restart x; Some (configure_wait now s)) = Some s' ∧ ll_ok s').
  { intros x Hx. destruct (restart_ok x Hx) as (s' & -> & Hs'). eexists. split; [done|]. by apply configure_wait_ok. }
  destruct (state s); [| | | | |done]; (destruct (negb _ && negb _); [eexists; split; [done|]; by apply configure_wait_ok|]); cbv zeta.
  all: destruct (state t); try (apply Hre; keeps); try (eexists; split; [done|]; by apply configure_wait_ok).
  all: match goal with |- context [if ?b then _ else _] => destruct b end; try (eexists; split; [done|]; by apply configure_wait_ok).
  all: try (apply Hre; repeat case_match; first [keeps|by destruct Ha]).
  all: unfold announce; assert (Hm := lo_mac t Ha); request; eexists; split; [done|]; by apply configure_wait_ok.
Qed.

Lemma ll_step_ok e s : ll_ok s → ∃ s', ll_step e s = Some s' ∧ ll_ok s'.
Proof.
  intros Hs. destruct e as [now|now h]; cbn [ll_step]; [|by apply link_local_receive_arp_ok]. unfold check_timeout. destruct (timer s) as [[t d]|]; [|by exists s].
  destruct (d <? _); [|by exists s]. apply link_local_timeout_ok. keeps.
Qed.

(** The handlers return for every sequence of timeouts and packets, and the
    address stays one of 169.254/16. *)
Lemma ll_run_ok es s : ll_ok s → ∃ s', ll_run es s = Some s' ∧ ll_ok s'.
Proof.
  revert s. induction es as [|e es IH]; intros s Hs; cbn [ll_run]; [by exists s|]. destruct (ll_step_ok e s Hs) as (s1 & -> & H1). by apply IH.
Qed.

Lemma seed_mac_word e : bytes e → word (seed_mac e).
Proof.
  intros He. assert (Hb : ∀ i, isbyte (e !!! i)) by (intros i; by apply bytes_lookup_total). unfold seed_mac. cbv zeta.
  assert (Hs : ∀ i k, 0 ≤ k ≤ 16 → word (Z.shiftl (e !!! i) k)).
  { intros i k Hk. specialize (Hb i). unfold isbyte in Hb. unfold word. rewrite Z.shiftl_mul_pow2 by lia. assert (2 ^ k ≤ 2 ^ 16) by (apply Z.pow_le_mono_r; lia). assert (0 < 2 ^ k) by (apply Z.pow_pos_nonneg; lia). nia. }
  assert (Hw : ∀ i, word (e !!! i)) by (intros i; specialize (Hb i); unfold isbyte, word in *; lia).
  repeat apply word_lxor; try apply Hw; try (apply Hs; lia); apply word_u32.
Qed.

(** ** From the start to the address *)

Definition probe_frame (s : ll) : list Z :=
  eth_header (iface s) NetBcastAddr PROT_ARP ++ arp_packet ARPOP_REQUEST (NetOurEther (iface s)) (ip_bytes 0) NetEtherNullAddr (ip_bytes (ip s)).
Definition announce_frame (s : ll) : list Z :=
  eth_header (iface s) NetBcastAddr PROT_ARP ++ arp_packet ARPOP_REQUEST (NetOurEther (iface s)) (ip_bytes (ip s)) (NetOurEther (iface s)) (ip_bytes (ip s)).

Lemma configure_wait_timer now s : 0 < timeout_ms s ≤ 2000 →
  configure_wait now s = with_timer (u32 (MONOTONIC_MS now + timeout_ms s)) (Some (now, timeout_ms s)) s.
Proof.
  intros Ht. unfold configure_wait, NetSetTimeout. rewrite !(proj2 (Z.eqb_neq _ _)) by lia. cbn [timeout_ms with_timer]. rewrite (u32_small (timeout_ms s)) by lia. rewrite (u32_small (timeout_ms s * _)) by (unfold CONFIG_SYS_HZ; lia).
  rewrite (proj2 (Z.eqb_neq _ _)) by lia. unfold CONFIG_SYS_HZ. rewrite Z.div_mul by lia. done.
Qed.

(** The timer is set to at most two seconds from [t], the probes and claims are
    counted, and [fs] has been sent since [s]. *)
Record progress (s : ll) (st : ll_state) (p c t : Z) (fs : list (list Z)) (s' : ll) : Prop := {
  pr_ok : ll_ok s';
  pr_state : state s' = st;
  pr_ip : ip s' = ip s;
  pr_iface : iface s' = iface s;
  pr_probes : nprobes s' = p;
  pr_claims : nclaims s' = c;
  pr_sent : sent s' = sent s ++ fs;
  pr_timer : ∃ d, timer s' = Some (t, d) ∧ 0 ≤ d ≤ 2000;
}.

(** Timeouts that the main loop sees more than two seconds apart. *)
Definition late (t t' : Z) : Prop := 2000 < u32 (t' - t).

Lemma check_late t t' s d : timer s = Some (t, d) → d ≤ 2000 → late t t' → check_timeout t' s = link_local_timeout t' (with_timer (deadline_ms s) None s).
Proof. intros Ht Hd Hl. unfold check_timeout. rewrite Ht. unfold late in Hl. by rewrite (proj2 (Z.ltb_lt _ _)) by lia. Qed.

Lemma probe_step s0 p t fs s t' : progress s0 PROBE p 0 t fs s → p < 3 → late t t' →
  ∃ s', check_timeout t' s = Some s' ∧ progress s0 PROBE (p + 1) 0 t' (fs ++ [probe_frame s0]) s'.
Proof.
  intros [Hok Hst Hip Hif Hp Hc Hse (d & Ht & Hd)] Hlt Hl. rewrite (check_late t t' s d) by (done || lia). unfold link_local_timeout. cbn [state with_timer]. rewrite Hst. cbn [nprobes with_timer]. rewrite Hp.
  rewrite (proj2 (Z.ltb_lt _ _)) by (unfold PROBE_NUM; lia).
  match goal with |- context [arp_request ?a ?b ?x] => destruct (arp_request_ok a b x) as (buf & -> & Hbuf); [keeps|done|] end. cbn [mbind option_bind random_delay_ms].
  set (x := rand_r _). assert (Hx : word x) by apply rand_r_word, Hok. change ((PROBE_MAX - PROBE_MIN) * 1000) with 1000. pose proof (Z.mod_pos_bound x 1000 ltac:(lia)).
  rewrite configure_wait_timer by (cbn [timeout_ms with_timeout]; unfold PROBE_MIN; lia). eexists. split; [done|]. destruct Hok as [H1 H2 H3 H4].
  split; cbn; try done.
  - rewrite Hse, <-app_assoc. f_equal. f_equal. unfold probe_frame. by rewrite <-Hif, <-Hip.
  - eexists. split; [done|]. unfold PROBE_MIN. lia.
Qed.

Lemma announce_step s0 st p c c' t fs s t' : progress s0 st p c t fs s → late t t' →
  (st = PROBE ∧ ¬ p < 3 ∧ c' = 0) ∨ (st = ANNOUNCE ∧ c < 2 ∧ c' = c + 1) →
  ∃ s', check_timeout t' s = Some s' ∧ progress s0 ANNOUNCE p c' t' (fs ++ [announce_frame s0]) s'.
Proof.
  intros [Hok Hst Hip Hif Hp Hc Hse (d & Ht & Hd)] Hl Hcase. rewrite (check_late t t' s d) by (done || lia). unfold link_local_timeout, announce. cbn [state with_timer]. rewrite Hst.
  assert (Hm := lo_mac s Hok). destruct Hcase as [(-> & Hp3 & ->)|(-> & Hc2 & ->)].
  - cbn [nprobes with_timer]. rewrite (proj2 (Z.ltb_ge _ _)) by (unfold PROBE_NUM; lia).
    match goal with |- context [arp_request ?a ?b ?x] => destruct (arp_request_ok a b x) as (buf & -> & Hbuf); [keeps|done|] end. cbn [mbind option_bind].
    rewrite configure_wait_timer by (cbn [timeout_ms with_timeout]; unfold ANNOUNCE_INTERVAL; lia). eexists. split; [done|]. destruct Hok as [H1 H2 H3 H4].
    split; cbn; try done; [|eexists; split; [done|]; unfold ANNOUNCE_INTERVAL; lia]. rewrite Hse, <-app_assoc. f_equal. f_equal. unfold announce_frame. by rewrite <-Hif, <-Hip.
  - cbn [nclaims with_timer]. rewrite (proj2 (Z.ltb_lt _ _)) by (unfold ANNOUNCE_NUM; lia).
    match goal with |- context [arp_request ?a ?b ?x] => destruct (arp_request_ok a b x) as (buf & -> & Hbuf); [keeps|done|] end. cbn [mbind option_bind].
    rewrite configure_wait_timer by (cbn [timeout_ms with_timeout]; unfold ANNOUNCE_INTERVAL; lia). eexists. split; [done|]. destruct Hok as [H1 H2 H3 H4].
    split; cbn; try done; [by rewrite Hc| |eexists; split; [done|]; unfold ANNOUNCE_INTERVAL; lia]. rewrite Hse, <-app_assoc. f_equal. f_equal. unfold announce_frame. by rewrite <-Hif, <-Hip.
Qed.

Lemma monitor_step s0 p t fs s t' : progress s0 ANNOUNCE p 2 t fs s → late t t' →
  ∃ s', check_timeout t' s = Some s' ∧ state s' = MONITOR ∧ net_state s' = NETLOOP_SUCCESS ∧ NetOurIP (iface s') = ip s0 ∧ timer s' = None ∧ sent s' = sent s0 ++ fs.
Proof.
  intros [Hok Hst Hip Hif Hp Hc Hse (d & Ht & Hd)] Hl. rewrite (check_late t t' s d) by (done || lia). unfold link_local_timeout. cbn [state with_timer]. rewrite Hst.
  cbn [nclaims with_timer]. rewrite Hc. cbn [Z.ltb Z.compare ANNOUNCE_NUM]. eexists. split; [done|]. by split_and!.
Qed.

Lemma land_net h : 0 ≤ h < 2 ^ 32 → Z.land h IN_CLASSB_NET = h / 2 ^ 16 * 2 ^ 16.
Proof.
  intros Hh. rewrite <-Z.shiftl_mul_pow2, <-Z.shiftr_div_pow2 by lia. change IN_CLASSB_NET with (Z.shiftl (Z.ones 16) 16). apply Z.bits_inj'. intros n Hn.
  rewrite Z.land_spec, !Z.shiftl_spec by done. destruct (Z.lt_ge_cases n 16).
  - rewrite !(Z.testbit_neg_r _ (n - 16)) by lia. apply andb_false_r.
  - rewrite Z.shiftr_spec, Z.sub_add by lia. destruct (Z.lt_ge_cases n 32).
    + rewrite Z.ones_spec_low by lia. apply andb_true_r.
    + replace (Z.testbit h n) with false; [done|]. symmetry. rewrite <-(Z.mod_small h (2 ^ 32)) by lia. by apply Z.mod_pow2_bits_high.
Qed.

(** The addresses that the code accepts from the environment. *)
Definition env_ip_ok (env_ip : Z) : Prop := env_ip = 0 ∨ word env_ip ∧ Z.land (htonl env_ip) IN_CLASSB_NET = LINKLOCAL_ADDR.

Lemma htonl_word x : word (htonl x).
Proof.
  unfold htonl, word. pose proof (Z.mod_pos_bound x 256 ltac:(lia)). pose proof (Z.mod_pos_bound (x / 2 ^ 8) 256 ltac:(lia)).
  pose proof (Z.mod_pos_bound (x / 2 ^ 16) 256 ltac:(lia)). pose proof (Z.mod_pos_bound (x / 2 ^ 24) 256 ltac:(lia)). lia.
Qed.

Lemma env_ip_range i : word i → Z.land (htonl i) IN_CLASSB_NET = LINKLOCAL_ADDR → ∃ h, i = htonl h ∧ LINKLOCAL_ADDR ≤ h < LINKLOCAL_ADDR + 2 ^ 16.
Proof.
  intros Hi Hn. pose proof (htonl_word i) as Hw. rewrite land_net in Hn by done. exists (htonl i). split; [by rewrite htonl_involutive|].
  pose proof (Z.div_mod (htonl i) (2 ^ 16) ltac:(lia)). pose proof (Z.mod_pos_bound (htonl i) (2 ^ 16) ltac:(lia)). lia.
Qed.

(** The address that is claimed: a picked one of 169.254.1.0 to 169.254.254.255,
    or the one of the environment, of 169.254/16. *)
Definition claimed (env_ip i : Z) : Prop :=
  ∃ h, i = htonl h ∧
    if decide (env_ip = 0) then link_local_addr h else i = env_ip ∧ LINKLOCAL_ADDR ≤ h < LINKLOCAL_ADDR + 2 ^ 16.

(** The start, with a first delay that is not 0. *)
Lemma start_ok env_ip enetaddr t0 s : env_ip_ok env_ip → bytes enetaddr → length (NetOurEther (iface s)) = 6%nat → (46 ≤ length (tx_packet s))%nat →
  ∃ s1, link_local_start env_ip enetaddr t0 s = Some s1 ∧ ll_ok s1 ∧ claimed env_ip (ip s1) ∧ iface s1 = iface s ∧ sent s1 = sent s ∧ (timer s1 ≠ None → progress s1 PROBE 0 0 t0 [] s1).
Proof.
  intros Henv He Hm Hb. unfold link_local_start. assert (Hword := seed_mac_word enetaddr He).
  assert (Hcond : negb (env_ip =? 0) && negb (Z.land (htonl env_ip) IN_CLASSB_NET =? LINKLOCAL_ADDR) = false).
  { destruct Henv as [->|[_ ->]]; [done|]. rewrite Z.eqb_refl. apply andb_false_r. }
  rewrite Hcond. set (s2 := mkLL _ _ _ _ _ _ _ _ _ _ _ _ _ _ _).
  assert (Hp : ∃ s3, (if env_ip =? 0 then pick_ip s2 else Some s2) = Some s3 ∧ ll_ok s3 ∧ claimed env_ip (ip s3) ∧ iface s3 = iface s ∧ sent s3 = sent s).
  { destruct (Z.eqb_spec env_ip 0) as [->|Hne].
    - unfold pick_ip. destruct (pick_correct_aux (seed s2) Hword) as (h & x & -> & Hh & Hx). cbn [mbind option_bind]. eexists. split; [done|]. split; [|split; [by exists h|done]].
      split; cbn; try done. exists h. split; [done|]. unfold link_local_addr in Hh. lia.
    - exists s2. split; [done|]. destruct Henv as [|[Hw Hn]]; [done|]. destruct (env_ip_range env_ip Hw Hn) as (h & Eh & Hr).
      split; [split; cbn; try done; by exists h|]. split; [|done]. exists h. split; [done|]. by rewrite decide_False. }
  destruct Hp as (s3 & -> & Hok & Hcl & Hif & Hse). cbn [mbind option_bind]. eexists. split; [done|].
  unfold configure_wait. cbn [timeout_ms with_timeout with_counts with_our_ip with_state Z.eqb Z.opp random_delay_ms].
  unfold random_delay_ms. cbn [seed with_timeout with_counts with_our_ip with_state]. set (x := rand_r _). assert (Hx : word x) by apply rand_r_word, Hok.
  pose proof (Z.mod_pos_bound x 1000 ltac:(lia)) as Hd. change (PROBE_WAIT * 1000) with 1000. unfold NetSetTimeout. cbn [timeout_ms with_timeout with_timer].
  rewrite (u32_small (x mod 1000)) by lia. rewrite (u32_small (x mod 1000 * _)) by (unfold CONFIG_SYS_HZ; lia). unfold CONFIG_SYS_HZ. rewrite Z.div_mul by lia.
  destruct Hok as [H1 H2 H3 H4]. assert (Hif' : mkNetif (NetOurEther (iface s3)) (NetOurIP (iface s3)) (NetOurVLAN (iface s3)) (NetIPID (iface s3)) = iface s) by (rewrite <-Hif; by destruct (iface s3)).
  split_and!; [split; cbn; done|exact Hcl|done|done|]. cbn [timer with_timer]. intros Ht. split; cbn; try done; [by rewrite app_nil_r|].
  destruct (x mod 1000 =? 0); [done|]. eexists. split; [done|]. lia.
Qed.

(** C16: The protocol when nobody objects. From the start, with an address of the
    environment (of 169.254/16) or one that is picked (of 169.254.1.0 to
    169.254.254.255), seven timeouts of the main loop, each more
    than two seconds after the one before, send three probes and then three
    announcements of the same address, which becomes ours, and stop the loop
    with success; this needs the first random delay not to be 0. *)
Theorem link_local_assigns env_ip enetaddr s t0 t1 t2 t3 t4 t5 t6 t7 :
  env_ip_ok env_ip → bytes enetaddr → length (NetOurEther (iface s)) = 6%nat → (46 ≤ length (tx_packet s))%nat →
  late t0 t1 → late t1 t2 → late t2 t3 → late t3 t4 → late t4 t5 → late t5 t6 → late t6 t7 →
  ∃ s1, link_local_start env_ip enetaddr t0 s = Some s1 ∧ claimed env_ip (ip s1) ∧
    (timer s1 ≠ None → ∃ s', ll_run (Tick <$> [t1; t2; t3; t4; t5; t6; t7]) s1 = Some s' ∧
      state s' = MONITOR ∧ net_state s' = NETLOOP_SUCCESS ∧ NetOurIP (iface s') = ip s1 ∧ timer s' = None ∧
      sent s' = sent s ++ replicate 3 (probe_frame s1) ++ replicate 3 (announce_frame s1)).
Proof.
  intros Henv He Hm Hb L1 L2 L3 L4 L5 L6 L7. destruct (start_ok env_ip enetaddr t0 s Henv He Hm Hb) as (s1 & E & _ & Hcl & _ & Hse & Hpr). exists s1. split; [done|]. split; [done|]. intros Ht. specialize (Hpr Ht).
  destruct (probe_step s1 0 t0 [] s1 t1 Hpr ltac:(lia) L1) as (a1 & E1 & P1). destruct (probe_step s1 1 t1 _ a1 t2 P1 ltac:(lia) L2) as (a2 & E2 & P2).
  destruct (probe_step s1 2 t2 _ a2 t3 P2 ltac:(lia) L3) as (a3 & E3 & P3). destruct (announce_step s1 PROBE 3 0 0 t3 _ a3 t4 P3 L4 ltac:(left; split_and!; (done || lia))) as (a4 & E4 & P4).
  destruct (announce_step s1 ANNOUNCE 3 0 1 t4 _ a4 t5 P4 L5 ltac:(right; split_and!; (done || lia))) as (a5 & E5 & P5).
  destruct (announce_step s1 ANNOUNCE 3 1 2 t5 _ a5 t6 P5 L6 ltac:(right; split_and!; (done || lia))) as (a6 & E6 & P6).
  destruct (monitor_step s1 3 t6 _ a6 t7 P6 L7) as (a7 & E7 & H1 & H2 & H3 & H4 & H5). exists a7. cbn [fmap list_fmap ll_run ll_step]. rewrite E1. cbn [mbind option_bind]. rewrite E2. cbn [mbind option_bind].
  rewrite E3. cbn [mbind option_bind]. rewrite E4. cbn [mbind option_bind]. rewrite E5. cbn [mbind option_bind]. rewrite E6. cbn [mbind option_bind]. rewrite E7. split_and!; try done.
  by rewrite H5, Hse.
Qed.

Definition sample_ll : ll := mkLL DISABLED 0 (-1) 0 0 0 0 0 0 sample_netif 0 (replicate 46 0) None NETLOOP_CONTINUE [].

Lemma link_local_assigns_witness :
  ∃ s1, link_local_start 0 [2; 0; 0; 0; 0; 1] 100 sample_ll = Some s1 ∧ claimed 0 (ip s1) ∧
    (timer s1 ≠ None → ∃ s', ll_run (Tick <$> [3000; 6000; 9000; 12000; 15000; 18000; 21000]) s1 = Some s' ∧
      state s' = MONITOR ∧ net_state s' = NETLOOP_SUCCESS ∧ NetOurIP (iface s') = ip s1 ∧ timer s' = None ∧
      sent s' = sent sample_ll ++ replicate 3 (probe_frame s1) ++ replicate 3 (announce_frame s1)).
Proof.
  apply (link_local_assigns 0 [2; 0; 0; 0; 0; 1] sample_ll); [by left|by apply bytes_check|done|cbn; lia|by vm_compute..].
Defined.

(** The hypothesis on the first delay holds there. *)
Example sample_delay : (λ s, bool_decide (timer s = None)) <$> link_local_start 0 [2; 0; 0; 0; 0; 1] 100 sample_ll = Some false.
Proof. by vm_compute. Qed.

(** ** What the code does not handle *)

(** The seed 0, from the address 02:05:00:00:02:05, gives the delay 0, and a
    timeout of 0 cancels the timer: nothing is ever sent. *)
Example seed_zero : (λ s, (state s, bool_decide (timer s = None))) <$> link_local_start 0 [2; 5; 0; 0; 2; 5] 100 sample_ll = Some (PROBE, true).
Proof. by vm_compute. Qed.

(** A host that uses the address we are about to claim, whatever it is. *)
Definition objects (now : Z) (s : ll) : option ll := link_local_receive_arp now (mkHdr ARPOP_REQUEST [2; 0; 0; 0; 0; 9] (ip s) 0) s.

Definition conflict_run (k : nat) (s : ll) : option ll := Nat.iter k (λ s, s ← s; objects 200 s) (Some s).

(** After ten conflicts the next address is announced, without a probe, less
    than a second later: the interval of 60 seconds is overwritten. *)
Lemma no_rate_limit :
  (s ← link_local_start 0 [2; 0; 0; 0; 0; 1] 100 sample_ll; s ← conflict_run 10 s; t ← check_timeout 1200 s;
   Some (state s, timeout_ms s <? 1000, state t, bool_decide (sent t = [announce_frame t]))) = Some (RATE_LIMIT_PROBE, true, ANNOUNCE, true).
Proof. by vm_compute. Qed.

(** The netmask is stored in the order of the machine: on a little-endian one
    169.254.1.1 and 169.254.2.2 are not in the same subnet. *)
Lemma netmask_order :
  (λ s, Z.land (htonl 0xa9fe0101) (subnet_mask s) =? Z.land (htonl 0xa9fe0202) (subnet_mask s)) <$> link_local_start 0 [2; 0; 0; 0; 0; 1] 100 sample_ll = Some false.
Proof. by vm_compute. Qed.
